(* ===== verification/_CoqProject ===== *)
-Q . S2P
Prelude.v
CStr.v
SockAddr.v
Chunked.v
Timer.v
Drain.v
Router.v
WsFrame.v
Url.v
Proxy.v
Slots.v
Multipart.v
MultipartStream.v
Dns.v
DnsQuery.v
ResolverCache.v
Error.v
ThreadPool.v
WsServer.v
WsSession.v
Response.v
ResponseStream.v
Stream.v
StreamContract.v
Redirect.v
ConnectOp.v
Sse.v
Listener.v
ClientPool.v
