(* ===== verification/Prelude.v ===== *)
(** * Keel: a verification library

    Keel is a C library of network building blocks: an event loop with timers and asynchronous I/O,
    buffered streams and datagrams, and on top of them HTTP/1.1, HTTP/2, WebSocket, DNS, the PROXY
    protocol and a caching resolver.  Most of the code that reads bytes from the network, and most
    of the code that keeps long-lived state, is portable C that calls the platform through function
    pointers.  That code is what this development models, as executable Rocq functions, and proves
    correct.

    ** Parts of the program and the files that model them

    Every file [F.v] declares a [Module F]; operations have the names of the C functions.

    - [Prelude] (this file): machine integers, bytes, spans, C strings, and the generic lemmas.
    - [CStr] (src/src/kl_cstr.c): case folding, decimal parsing and printing, the bounded append
      builder and the substring searches that every parser below uses.
    - [SockAddr] (src/src/sockaddr.c): socket addresses, the parsers of dotted quads and of RFC 4291
      text, the RFC 5952 printer.
    - [Chunked] (http1_chunked.c, http_body_reader_buffer.c): the chunked decoder, and the class
      [BodyReader] through which it hands the body over.  The decoder is verified against the
      class, and [BufReader], the buffering reader, is an instance of it.
    - [Timer] (src/src/timer.c): the array heap of one-shot timers, with callbacks that may add and
      cancel timers while the heap is being fired, and a rule for what programs over timers preserve.
    - [Drain] (src/src/drain.c, drain_reserve.h): the write buffer behind a writer that may accept
      less than it is offered, with its callbacks and its preallocated mode.
    - [Router] (http_router.c): path matching, route selection, middleware, dispatch.
    - [WsFrame] (websocket.c, the writers of http_server_ws.c and websocket_client.c, utf8.h,
      ws_close.h): the incremental frame parser, masking, the table-driven UTF-8 validator.
    - [Url] (src/src/url.c): URL parsing, resolution of a Location, printing of the authority.
    - [Proxy] (proxy_protocol.c): PROXY headers v1 and v2, CIDR trust lists.
    - [Slots] (src/src/datagram_slots.c): the pool of packet slots of the datagram transport.
    - [Multipart], [MultipartStream] (http_body_reader_multipart.c): the push/pull form reader, its
      model and invariants in the first file, its functional specification in the second.
    - [Dns], [DnsQuery] (dns_resolver.c): the wire formats and the configuration of the built-in
      resolver; [Dns] parses, [DnsQuery] builds and selects.
    - [ResolverCache] (src/src/resolver_cache.c): the caching decorator around a resolver, with the
      life of its request handles.
    - [Error] (src/src/error.c): error codes and their names.
    - [ThreadPool] (src/src/thread_pool.c): the worker pool as a transition system of a submitting
      thread, workers and an event loop, with the rings of queued and finished items.
    - [WsServer], [WsSession] (http_server_ws.c): a WebSocket server connection over [WsFrame] and
      [Drain]; the model and its safety in the first file, its meaning frame by frame in the second.
    - [Response], [ResponseStream] (http_response.c): building an HTTP response, sending it in
      pieces, and streaming it through [Drain] with the coding that [Chunked] decodes.
    - [Sse] (http_sse.c): server-sent events, batched over a streamed response.
    - [Stream], [StreamContract] (src/src/stream.c, stream_read.c, stream_write.c, stream_close.c): the
      raw transport stream over [Drain], with hooks that may call it back, and the contract it keeps
      as an automaton over events; the model and the automaton in the first file, the proofs in the
      second.
    - [Redirect] (http_redirect.c): following redirects over an HTTP client that is a parameter, in
      the synchronous and the asynchronous API, with the memory of the asynchronous one.
    - [ConnectOp] (src/src/connect_op.c): resolution and racing connection attempts, as a state
      machine whose hooks may call it back.
    - [Listener] (src/src/listener.c): the accept side, with its window of posted accepts and the
      credits of the connection pool.
    - [ClientPool] (src/src/protocols/http/http_client_pool.c): the idle connections of the HTTP
      client, whose idle timers are entries of the heap of [Timer] and fire through it.

    [CStr] and [SockAddr] are used by the protocol files; [Dns] gives [ResolverCache] its results.

    ** How C is represented

    A byte is a [Z] in [0, 256), a span (pointer and length) is the list of its bytes, a C string is
    the list of its bytes up to the NUL, and a pointer into a buffer is an offset or the suffix it
    points to.  [size_t] and fixed-width integers are [Z] at their width, with the wrap-around
    written out ([u64], [u32], [u16], [u8]); where a count cannot reach the width of its type
    (lengths of objects in memory) it may be a [nat].  A struct is a [Record] and an enum an
    [Inductive] with the C names.  -1 and NULL are [None] where nothing else is returned.

    What the code calls and does not contain is an argument of the model: the allocator says
    whether a request is granted, the clock and the entropy source deliver values, and a callback
    is a program over the operations it may call back, so re-entrancy is part of the model.  Where
    a theorem relies on the behaviour of such an argument, it is a class of laws or a named
    hypothesis, with an instance in the witness.  Errors are values; a read outside of a packet
    ([Dns]) and an access to freed memory ([ResolverCache]) are values too, so that memory safety
    is a statement about results.

    ** Fuel

    Loops that are not structural take fuel and return [None] when it runs out.  Each has a lemma
    that the fuel its caller gives is enough, and the theorems state that a result is returned, not
    that it is right if there is one.  The measures are: unread input or pattern ([Chunked],
    [SockAddr], [Router], [Proxy], [WsFrame], [DnsQuery], the options of [Dns]), buffered input
    plus the rank of the state ([Multipart]), pending timers older than the watermark taken when
    firing began ([Timer]), buffered bytes ([Drain]), the cap of 128 labels
    ([Dns.skip_name_loop]), and doublings of a capacity up to the width of [size_t] (the growth
    loops of [Drain], [Multipart] and [Response]).  The loops of [Response] that retry a write have the
    patience of their caller as fuel and no theorem depends on its value.  [Redirect] counts the hops
    left, [ConnectOp] the addresses left; for the depth of calls from hooks, [ConnectOp], [Stream]
    and [Listener] count the entries left in the script of the adapter, and so do the two loops of
    [Stream], which go on only when a hook completed its operation; the pump of [Listener] counts
    script entries and free places in the window.  The sifting loops of [Timer] return the array as it is when
    the fuel runs out; the length of the array is enough, and the heap lemmas are for that fuel.

    ** What is proved

    - Grammars.  The chunked decoder, the URL parser, the PROXY v1 parser, the multipart reader, the
      DNS response parser, the UTF-8 validator and the CLOSE check accept exactly a language given
      as a grammar, and deliver exactly the value it assigns; the multipart reader up to the errors of
      its size limits, and with its own parser for the lines of a header block.
    - Independence of arrival.  The chunked decoder, the frame parser and (below its size limits) the multipart
      reader give the same result however the bytes are cut; a PROXY decision is never revised by more bytes.
    - Round trips.  Addresses, authorities, frames, form bodies, DNS queries, HTTP responses,
      buffered or streamed, and server-sent events survive being written and read back.
    - Refinement.  Timers refine a finite map with deadlines, the packet pool a set of slots, the
      resolver cache a bounded map with expiry, the drain a FIFO, a WebSocket connection the
      frame-by-frame meaning of the protocol, a transport stream with hooks that keep its rules its
      contract automaton: one receive and one send at a time, bytes and completions in order and once, one detachment,
      after both operations were retired.
    - Equivalence.  The synchronous and the asynchronous redirect API send the same requests and
      report the same outcome, except at the hop limit, where the asynchronous one reports too many
      redirects for a 3xx without a Location too.
    - Liveness.  Every item given to the thread pool is delivered under a fair schedule; a connect
      operation that is given up is detached when what it started has reported back; a stream
      between calls whose hooks keep the rules of [Stream.Live] waits only for an outstanding operation
      of its transport, a listener whose hooks keep the rules of [Listener.permitted] for a posted
      accept or a free slot.
    - Safety.  No read outside a DNS packet; no use of a freed request handle, for any re-entrant
      caller; no pool slot handed out twice; no route reachable around its middleware,
      a prefix pattern guarding the paths with a leading slash; trust in a
      CIDR list means agreement on the network bits; no header can add a line to a response; a
      WebSocket connection is closed once, and nothing follows its CLOSE frame; a redirect never
      carries credentials to another origin; the redirect client and the connect operation call
      their owner back once, survive any re-entrant callback without touching freed memory, and lose
      neither memory nor descriptors; the stream does so for hooks that keep its rules, and an example
      shows freed memory in use when a delivery closes the stream and [on_close] frees it; the
      listener, for hooks that keep its rules, loses neither a connection nor a credit; the client pool hands a connection only to a request with the identity it was made
      under, once, and no idle timer outlives its connection.
    - Bounds, limits and errors.  Buffer sizes, the limits of the multipart reader and of the client
      pool, overflow of size computations, and errors that stay final.

    ** Not modelled

    - The event backends, sockets, pipes, wakeups and system configuration (src/src/event_*.c,
      socket_*.c, platform_*.c, dns_sys_*.c, unix_socket_node_*.c, udp_cmsg*.c): each is a thin layer
      over system calls, with no logic that could be stated without a model of the kernel.
    - The completion layer, pipe streams and the datagram transport beyond its slots:
      they are state machines driven by those backends and need the event loop as a whole.
    - The watcher list of the event context, which needs a backend that reports events, and the CORS
      middleware, a comparison of origins in front of the response writer.
    - The engines of the DNS resolver, the HTTP server and client, their connections, the
      WebSocket client, HTTP/2: they combine the parts above with sockets, TLS, llhttp and
      nghttp2, which are not part of the sources.

    Strings of the model have no NUL, allocation sizes are only modelled where the code checks
    them, and debugging output is left out. *)
From stdpp Require Export prelude.
From Stdlib Require Export ZArith.
From stdpp Require Export strings.

Declare Scope keel_scope.
Delimit Scope keel_scope with keel.
Global Open Scope Z_scope.

(** ** Machine integers

    An unsigned w-bit value is a [Z] in [0, 2^w); arithmetic that C performs modulo [2^w] is
    followed by the wrap-around of its type.  The limits are literals so that [lia] sees them. *)

Abbreviation SIZE_MAX := 18446744073709551615 (only parsing).
Abbreviation UINT64_MAX := 18446744073709551615 (only parsing).
Abbreviation INT_MAX := 2147483647 (only parsing).

Definition u64 (z : Z) : Z := z mod 18446744073709551616.
Definition u32 (z : Z) : Z := z mod 4294967296.
Definition u16 (z : Z) : Z := z mod 65536.
Definition u8 (z : Z) : Z := z mod 256.

Lemma u64_small z : 0 <= z <= UINT64_MAX -> u64 z = z.
Proof. intros H. apply Z.mod_small. lia. Qed.

Lemma u64_range z : 0 <= u64 z <= UINT64_MAX.
Proof. unfold u64. pose proof (Z.mod_pos_bound z 18446744073709551616). lia. Qed.

Lemma u16_small z : 0 <= z <= 65535 -> u16 z = z.
Proof. intros H. apply Z.mod_small. lia. Qed.

Lemma u8_small z : 0 <= z <= 255 -> u8 z = z.
Proof. intros H. apply Z.mod_small. lia. Qed.

(** ** Bytes and strings

    A byte is a [Z] in [0, 256).  A [(pointer, length)] pair is the list of the bytes it spans.  A
    C string is the list of the bytes before its NUL; a [const char *] walking over it is the
    remaining suffix, so that [*p] is [deref p] (the NUL at the end) and [p++] is [tail p]. *)

Definition is_byte (z : Z) : Prop := 0 <= z <= 255.
Definition is_byteb (z : Z) : bool := (0 <=? z) && (z <=? 255).

(** A byte of a C string: not the terminator. *)
Definition is_cbyte (z : Z) : Prop := 1 <= z <= 255.

Definition deref (p : list Z) : Z := match p with [] => 0 | c :: _ => c end.

Definition strlen (p : list Z) : Z := Z.of_nat (length p).

(** String literals of the source. *)
Fixpoint bytes (s : String.string) : list Z :=
  match s with
  | String.EmptyString => []
  | String.String a s' => Z.of_N (Ascii.N_of_ascii a) :: bytes s'
  end.
Arguments bytes s%_string.

Abbreviation c_HTAB := 9 (only parsing).
Abbreviation c_LF := 10 (only parsing).
Abbreviation c_CR := 13 (only parsing).
Abbreviation c_SP := 32 (only parsing).
Abbreviation c_hash := 35 (only parsing).
Abbreviation c_percent := 37 (only parsing).
Abbreviation c_star := 42 (only parsing).
Abbreviation c_comma := 44 (only parsing).
Abbreviation c_minus := 45 (only parsing).
Abbreviation c_dot := 46 (only parsing).
Abbreviation c_slash := 47 (only parsing).
Abbreviation c_0 := 48 (only parsing).
Abbreviation c_9 := 57 (only parsing).
Abbreviation c_colon := 58 (only parsing).
Abbreviation c_semi := 59 (only parsing).
Abbreviation c_quest := 63 (only parsing).
Abbreviation c_at := 64 (only parsing).
Abbreviation c_A := 65 (only parsing).
Abbreviation c_F := 70 (only parsing).
Abbreviation c_Z := 90 (only parsing).
Abbreviation c_lbrack := 91 (only parsing).
Abbreviation c_rbrack := 93 (only parsing).
Abbreviation c_under := 95 (only parsing).
Abbreviation c_a := 97 (only parsing).
Abbreviation c_f := 102 (only parsing).
Abbreviation c_z := 122 (only parsing).
Abbreviation c_tilde := 126 (only parsing).
Abbreviation c_DEL := 127 (only parsing).

(** Equality of byte spans: [a_len == b_len && memcmp(a, b, a_len) == 0]. *)
Definition span_eqb (a b : list Z) : bool := bool_decide (a = b).

Lemma span_eqb_true a b : span_eqb a b = true <-> a = b.
Proof. unfold span_eqb. apply bool_decide_eq_true. Qed.

(** Keep the tests of the code recognisable under [simpl]. *)
#[global] Arguments Z.eqb : simpl never.
#[global] Arguments Z.ltb : simpl never.
#[global] Arguments Z.leb : simpl never.

(** ** Tactics *)

(** Split every conjunction of booleans and reflect integer tests in the hypotheses. *)
Ltac breflect :=
  repeat match goal with
  | H : _ && _ = true |- _ => apply andb_true_iff in H; destruct H
  | H : _ || _ = false |- _ => apply orb_false_iff in H; destruct H
  | H : negb _ = true |- _ => apply negb_true_iff in H
  | H : negb _ = false |- _ => apply negb_false_iff in H
  | H : (_ =? _) = true |- _ => apply Z.eqb_eq in H
  | H : (_ =? _) = false |- _ => apply Z.eqb_neq in H
  | H : (_ <? _) = true |- _ => apply Z.ltb_lt in H
  | H : (_ <? _) = false |- _ => apply Z.ltb_ge in H
  | H : (_ <=? _) = true |- _ => apply Z.leb_le in H
  | H : (_ <=? _) = false |- _ => apply Z.leb_gt in H
  | H : span_eqb _ _ = true |- _ => apply span_eqb_true in H
  end.

(** Case on the integer test the goal (or a hypothesis) branches on. *)
Ltac case_test :=
  match goal with
  | |- context [ ?a =? ?b ] => destruct (Z.eqb_spec a b)
  | |- context [ ?a <? ?b ] => destruct (Z.ltb_spec a b)
  | |- context [ ?a <=? ?b ] => destruct (Z.leb_spec a b)
  | H : context [ ?a =? ?b ] |- _ => destruct (Z.eqb_spec a b)
  | H : context [ ?a <? ?b ] |- _ => destruct (Z.ltb_spec a b)
  | H : context [ ?a <=? ?b ] |- _ => destruct (Z.leb_spec a b)
  end.

(** Destruct the scrutinee of a conditional of the goal, or else of a hypothesis. *)
Ltac case_if :=
  match goal with
  | |- context [ if ?b then _ else _ ] => destruct b eqn:?
  | H : context [ if ?b then _ else _ ] |- _ => destruct b eqn:?
  end.

Create HintDb keel.

(** Lengths of the list operations buffers are made of. *)
Create Rewrite HintDb keel_len.
#[global] Hint Rewrite @length_drop @length_app @length_take @length_nil : keel_len.
#[export] Hint Extern 1 (_ <= _) => lia : keel.
#[export] Hint Extern 1 (_ < _) => lia : keel.
#[export] Hint Resolve u64_small u64_range u16_small u8_small : keel.

(** Byte lists, decided by computation. *)
Lemma bytes_ok l : forallb is_byteb l = true -> Forall is_byte l.
Proof.
  intros H. apply Forall_forall. intros x Hx. rewrite forallb_forall in H.
  apply list_elem_of_In, H in Hx. unfold is_byteb in Hx. breflect. split; lia.
Qed.

Lemma cbytes_ok l : forallb (fun c => (1 <=? c) && (c <=? 255)) l = true -> Forall is_cbyte l.
Proof.
  intros H. apply Forall_forall. intros x Hx. rewrite forallb_forall in H.
  apply list_elem_of_In, H in Hx. cbv beta in Hx. breflect. split; lia.
Qed.

Lemma cbytes_bytes l : Forall is_cbyte l -> Forall is_byte l.
Proof. intros H. apply (Forall_impl _ _ _ H). unfold is_cbyte, is_byte. lia. Qed.

(** ** Bit operations as arithmetic *)

Lemma lor_shiftl_add v k d : 0 <= k -> 0 <= d < 2 ^ k -> Z.lor (Z.shiftl v k) d = v * 2 ^ k + d.
Proof.
  intros Hk Hd. rewrite <- Z.add_nocarry_lor; [by rewrite Z.shiftl_mul_pow2|].
  apply Z.bits_inj'. intros n Hn. rewrite Z.land_spec, Z.bits_0.
  destruct (Z.lt_ge_cases n k).
  - by rewrite Z.shiftl_spec_low.
  - rewrite <- (Z.mod_small d (2 ^ k)) by done. rewrite Z.mod_pow2_bits_high by lia. apply andb_false_r.
Qed.

Lemma land_255 v : Z.land v 255 = v mod 256.
Proof. change 255 with (Z.ones 8). by rewrite Z.land_ones by lia. Qed.

Lemma shiftr_8 v : Z.shiftr v 8 = v / 256.
Proof. by rewrite Z.shiftr_div_pow2 by lia. Qed.

(** ** Generic lemmas on lists and options *)

Lemma bind_Some_l {A B : Type} (x : A) (f : A -> option B) : mbind f (Some x) = f x.
Proof. done. Qed.

Section lists.
  Context {A : Type}.
  Implicit Types l k : list A.

Lemma length_zero l : Z.of_nat (length l) = 0 <-> l = [].
Proof. destruct l; simpl; [done|]. split; [lia|done]. Qed.

Lemma take_drop_at (n : nat) l x :
  l !! n = Some x -> l = take n l ++ x :: drop (S n) l.
Proof. intros H. symmetry. by apply take_drop_middle. Qed.

Lemma Forall_take_drop (P : A -> Prop) n l :
  Forall P l -> Forall P (take n l) /\ Forall P (drop n l).
Proof. intros H. rewrite <- (take_drop n l) in H. by apply Forall_app in H. Qed.

Lemma insert_take_drop_app l k x y :
  <[length l := y]> (l ++ x :: k) = l ++ y :: k.
Proof.
  rewrite insert_app_r_alt by lia. by rewrite Nat.sub_diag.
Qed.
End lists.
