(* ===== verification/CStr.v ===== *)
(** * C-string primitives (src/src/kl_cstr.c)

    The locale-free, bounded replacements of the formatted-I/O library: ASCII case folding and
    comparison, decimal parsing, integer printing, the bounded append builder and the substring
    searches.  Every other component that parses or prints text goes through these. *)
From S2P Require Import Prelude.

Module CStr.

(** ** Definitions *)

Definition ascii_lower (c : Z) : Z :=
  if (c_A <=? c) && (c <=? c_Z) then u8 (c - c_A + c_a) else c.

Fixpoint kl_ascii_strcasecmp (a b : list Z) : Z :=
  let ca := ascii_lower (deref a) in
  let cb := ascii_lower (deref b) in
  if negb (ca =? cb) then ca - cb
  else if ca =? 0 then 0
  else match a with
       | [] => 0
       | _ :: a' => kl_ascii_strcasecmp a' (tail b)
       end.

Fixpoint kl_ascii_strncasecmp (a b : list Z) (n : nat) : Z :=
  match n with
  | O => 0
  | S n' =>
      let ca := ascii_lower (deref a) in
      let cb := ascii_lower (deref b) in
      if negb (ca =? cb) then ca - cb
      else if ca =? 0 then 0
      else kl_ascii_strncasecmp (tail a) (tail b) n'
  end.

Fixpoint parse_u16_loop (s : list Z) (v : Z) : option Z :=
  match s with
  | [] => Some v
  | c :: s' =>
      if (c <? c_0) || (c_9 <? c) then None
      else
        let v' := u32 (u32 (v * 10) + (c - c_0)) in
        if 65535 <? v' then None else parse_u16_loop s' v'
  end.

(** [None] is the return value -1. *)
Definition kl_parse_u16_decimal (s : list Z) : option Z :=
  if (strlen s =? 0) then None
  else v ← parse_u16_loop s 0; Some (u16 v).

(** The do-while loop filling [tmp]; [None] would be a write past [tmp]. *)
Fixpoint dec_loop (room : nat) (v : Z) (tmp : list Z) : option (list Z) :=
  match room with
  | O => None
  | S room' =>
      let tmp' := tmp ++ [c_0 + v mod 10] in
      let v' := v / 10 in
      if v' =? 0 then Some tmp' else dec_loop room' v' tmp'
  end.

(** The bytes stored at [buf]; their number is the return value.  [None] is undefined behaviour. *)
Definition kl_u64_to_dec (cap : nat) (v : Z) : option (list Z) :=
  tmp ← dec_loop 20 v [];
  if (cap <? length tmp)%nat then Some [] else Some (reverse tmp).

Definition hexd : list Z := bytes "0123456789abcdef".

Fixpoint hex_loop (room : nat) (v : Z) (tmp : list Z) : option (list Z) :=
  match room with
  | O => None
  | S room' =>
      d ← hexd !! Z.to_nat (Z.land v 15);
      let tmp' := tmp ++ [d] in
      let v' := Z.shiftr v 4 in
      if v' =? 0 then Some tmp' else hex_loop room' v' tmp'
  end.

Definition kl_u64_to_hex (cap : nat) (v : Z) : option (list Z) :=
  tmp ← hex_loop 16 v [];
  if (cap <? length tmp)%nat then Some [] else Some (reverse tmp).

(** [memcpy (buf + o, s, |s|)]. *)
Definition mem_write (buf : list Z) (o : nat) (s : list Z) : list Z :=
  take o buf ++ s ++ drop (o + length s) buf.

(** The caller's [(buf, off)] pair threaded through the appends; [None] is -1. *)
Definition kl_buf_append_n (cap : nat) (st : list Z * nat) (s : list Z) : option (list Z * nat) :=
  let '(buf, o) := st in
  if (cap <? o)%nat || (cap - o <? length s)%nat then None
  else if (length s =? cap - o)%nat then None
  else
    let o' := (o + length s)%nat in
    Some (<[o' := 0]> (mem_write buf o s), o').

Definition kl_buf_append (cap : nat) (st : list Z * nat) (s : list Z) : option (list Z * nat) :=
  kl_buf_append_n cap st s.

Definition kl_buf_append_u64 (cap : nat) (st : list Z * nat) (v : Z) : option (list Z * nat) :=
  tmp ← kl_u64_to_dec 20 v; kl_buf_append_n cap st tmp.

Definition kl_buf_append_hex (cap : nat) (st : list Z * nat) (v : Z) : option (list Z * nat) :=
  tmp ← kl_u64_to_hex 16 v; kl_buf_append_n cap st tmp.

(** The result pointer is the suffix it points to; [None] is NULL. *)
Fixpoint kl_strchr (s : list Z) (c : Z) : option (list Z) :=
  let target := u8 c in
  let cur := deref s in
  if cur =? target then Some s
  else if cur =? 0 then None
  else match s with [] => None | _ :: s' => kl_strchr s' c end.

Fixpoint kl_streq (a b : list Z) : bool :=
  if negb (deref a =? deref b) then false
  else if deref a =? 0 then true
  else match a with [] => true | _ :: a' => kl_streq a' (tail b) end.

Fixpoint kl_str_startswith (s prefix : list Z) : bool :=
  match prefix with
  | [] => true
  | c :: prefix' =>
      if c =? 0 then true
      else if negb (deref s =? c) then false
      else kl_str_startswith (tail s) prefix'
  end.

(** The inner [while] of [kl_strstr] and its test [*n == 0]. *)
Fixpoint strstr_here (h n : list Z) : bool :=
  match n with
  | [] => true
  | c :: n' =>
      if c =? 0 then true
      else if deref h =? c then strstr_here (tail h) n' else false
  end.

Fixpoint strstr_from (hay needle : list Z) : option (list Z) :=
  match hay with
  | [] => None
  | c :: hay' =>
      if c =? 0 then None
      else if strstr_here hay needle then Some hay
      else strstr_from hay' needle
  end.

Definition kl_strstr (hay needle : list Z) : option (list Z) :=
  if deref needle =? 0 then Some hay else strstr_from hay needle.

(** ** Decimal values *)

Definition is_digit (c : Z) : Prop := c_0 <= c <= c_9.

Definition dec_value_from (v : Z) (s : list Z) : Z := fold_left (fun v c => v * 10 + (c - c_0)) s v.

(** The value a string of decimal digits denotes. *)
Definition dec_value (s : list Z) : Z := dec_value_from 0 s.

Lemma dec_value_from_app v s t : dec_value_from v (s ++ t) = dec_value_from (dec_value_from v s) t.
Proof. unfold dec_value_from. apply fold_left_app. Qed.

Lemma dec_value_from_mono v s : 0 <= v -> Forall is_digit s -> v <= dec_value_from v s.
Proof.
  intros Hv Hs. revert v Hv. induction Hs as [|c s Hc _ IH]; intros v Hv; simpl; [done|].
  unfold is_digit in Hc. etransitivity; [|apply IH]; lia.
Qed.

Lemma dec_value_from_add v s :
  dec_value_from v s = v * 10 ^ Z.of_nat (length s) + dec_value s.
Proof.
  unfold dec_value. revert v. induction s as [|c s IH]; intros v; simpl; [lia|].
  rewrite (IH (v * 10 + _)), (IH (0 * 10 + _)).
  rewrite Nat2Z.inj_succ, Z.pow_succ_r by lia. lia.
Qed.

Lemma parse_u16_loop_spec s v w :
  0 <= v <= 65535 -> Forall is_byte s ->
  parse_u16_loop s v = Some w <->
  Forall is_digit s /\ w = dec_value_from v s /\ w <= 65535.
Proof.
  intros Hv Hs. revert v Hv. induction Hs as [|c s Hc Hs IH]; intros v Hv; simpl.
  { split; [intros [= <-]; split_and!; [constructor|done|lia]|intros (_ & -> & _); done]. }
  unfold is_byte in Hc.
  destruct ((c <? c_0) || (c_9 <? c)) eqn:Ed.
  { split; [done|]. intros (Hd & _ & _). apply Forall_cons in Hd as [Hd _].
    unfold is_digit in Hd. apply orb_true_iff in Ed as [?|?]; breflect; lia. }
  breflect.
  assert (u32 (u32 (v * 10) + (c - c_0)) = v * 10 + (c - c_0)) as ->.
  { unfold u32. rewrite (Z.mod_small (v * 10)) by lia. apply Z.mod_small. lia. }
  case_test.
  - split; [done|]. intros (Hd & -> & Hle). apply Forall_cons in Hd as [_ Hd].
    pose proof (dec_value_from_mono (v * 10 + (c - c_0)) s ltac:(lia) Hd). unfold dec_value_from in *. simpl in *. lia.
  - rewrite IH by lia. rewrite Forall_cons. unfold is_digit at 2. intuition lia.
Qed.
Lemma dec_value_nonneg s : Forall is_digit s -> 0 <= dec_value s.
Proof. intros Hs. by apply dec_value_from_mono. Qed.

(** ** Printing decimals *)

(** The digits [dec_loop] has stored denote the part of [v] already divided away. *)
Lemma dec_loop_spec room v tmp :
  (0 < room)%nat -> 0 <= v < 10 ^ Z.of_nat room -> Forall is_digit tmp ->
  exists ds, dec_loop room v tmp = Some (tmp ++ ds) /\
    Forall is_digit ds /\ (0 < length ds <= room)%nat /\
    dec_value (reverse ds) = v /\
    (v <> 0 -> deref (reverse ds) <> c_0) /\ (v = 0 -> ds = [c_0]).
Proof.
  revert v tmp. induction room as [|room IH]; intros v tmp Hr Hv Htmp; [lia|].
  rewrite Nat2Z.inj_succ, Z.pow_succ_r in Hv by lia. simpl.
  pose proof (Z.mod_pos_bound v 10 ltac:(lia)) as Hm.
  pose proof (Z.div_mod v 10 ltac:(lia)) as Hdm.
  assert (Hd : is_digit (c_0 + v mod 10)) by (unfold is_digit; lia).
  case_test.
  - exists [c_0 + v mod 10]. split_and!; simpl; auto; try lia.
    + unfold dec_value, dec_value_from. cbn. lia.
    + intros ->. done.
  - destruct (IH (v / 10) (tmp ++ [c_0 + v mod 10])) as (ds & Heq & Hds & Hlen & Hval & Hlead & _).
    { destruct room; [simpl in Hv|]; lia. }
    { split; [apply Z.div_pos; lia|apply Z.div_lt_upper_bound; lia]. }
    { apply Forall_app; auto. }
    exists ((c_0 + v mod 10) :: ds). rewrite Heq, <- app_assoc. split_and!; simpl; auto; try lia.
    + rewrite reverse_cons. unfold dec_value in *. rewrite dec_value_from_app, Hval. cbn. lia.
    + intros _. rewrite reverse_cons. specialize (Hlead ltac:(lia)).
      destruct (reverse ds) as [|x xs] eqn:Er; [|exact Hlead].
      apply (f_equal length) in Er. rewrite length_reverse in Er. simpl in Er. lia.
Qed.

(** What [kl_u64_to_dec] stores when the value's digits fit. *)
Definition dec_repr (v : Z) (ds : list Z) : Prop :=
  Forall is_digit ds /\ ds <> [] /\ dec_value ds = v /\ (v <> 0 -> deref ds <> c_0) /\ (v = 0 -> ds = [c_0]).

Lemma u64_to_dec_repr cap v :
  0 <= v <= UINT64_MAX ->
  exists ds, dec_repr v ds /\ (length ds <= 20)%nat /\
    kl_u64_to_dec cap v = Some (if (cap <? length ds)%nat then [] else ds).
Proof.
  intros Hv. destruct (dec_loop_spec 20 v []) as (ds & Heq & Hds & Hlen & Hval & Hlead & Hz); [lia| |done|].
  { change (10 ^ Z.of_nat 20) with 100000000000000000000. lia. }
  exists (reverse ds). unfold dec_repr. rewrite length_reverse. split_and!; auto; try lia.
  - by apply Forall_reverse.
  - intros He. apply (f_equal length) in He. rewrite length_reverse in He. simpl in He. lia.
  - intros ->. by rewrite Hz.
  - unfold kl_u64_to_dec. rewrite Heq. simpl. by case_if.
Qed.

Lemma dec_value_lower c s : c_0 < c -> Forall is_digit s ->
  10 ^ Z.of_nat (length s) <= dec_value (c :: s).
Proof.
  intros Hc Hs. change (dec_value (c :: s)) with (dec_value_from (0 * 10 + (c - c_0)) s).
  rewrite dec_value_from_add. pose proof (dec_value_nonneg s Hs).
  pose proof (Z.pow_pos_nonneg 10 (Z.of_nat (length s)) ltac:(lia) ltac:(lia)). nia.
Qed.

(** A canonical decimal is no longer than its value allows. *)
Lemma dec_repr_length v ds k : dec_repr v ds -> 0 <= v < 10 ^ Z.of_nat k -> (0 < k)%nat -> (length ds <= k)%nat.
Proof.
  intros (Hds & Hne & Hval & Hlead & Hz) Hv Hk. destruct (Z.eq_dec v 0) as [->|Hn].
  { rewrite (Hz eq_refl). simpl. lia. }
  destruct ds as [|c ds]; [done|]. apply Forall_cons in Hds as [Hc Hds]. simpl in Hlead.
  unfold is_digit in Hc. pose proof (dec_value_lower c ds ltac:(specialize (Hlead Hn); lia) Hds).
  simpl. destruct (decide (k <= length ds)%nat); [|lia].
  pose proof (Z.pow_le_mono_r 10 (Z.of_nat k) (Z.of_nat (length ds))). lia.
Qed.

Lemma digit_byte s : Forall is_digit s -> Forall is_byte s.
Proof. intros H. apply (Forall_impl _ _ _ H). unfold is_digit, is_byte. lia. Qed.

(** The port parser accepts exactly the non-empty strings of decimal digits whose value is at most
    65535, and returns that value: no 32-bit wrap-around of its accumulator lets a longer string pass. *)
Lemma u16_decimal_iff (s : list Z) (v : Z) (Hs : Forall is_byte s) :
  kl_parse_u16_decimal s = Some v <->
  s <> [] /\ Forall is_digit s /\ dec_value s = v /\ v <= 65535.
Proof.
  unfold kl_parse_u16_decimal, strlen. case_test.
  - apply length_zero in e as ->. split; [done|]. by intros [? _].
  - pose proof (fun w => parse_u16_loop_spec s 0 w ltac:(lia) Hs) as Hl.
    destruct (parse_u16_loop s 0) as [w|] eqn:E; simpl.
    + destruct (Hl w) as [Hl1 _]. destruct (Hl1 eq_refl) as (Hd & -> & Hle).
      pose proof (dec_value_nonneg s Hd). unfold dec_value in *. rewrite u16_small by lia.
      split; [intros [= <-]; split_and!; auto; intros ->; done | intros (_ & _ & <- & _); done].
    + split; [done|]. intros (_ & Hd & <- & Hle). exfalso.
      destruct (Hl (dec_value_from 0 s)) as [_ Hl2]. by discriminate Hl2.
Qed.

(** ** Printing hexadecimals *)

Definition is_hexlower (c : Z) : Prop := c_0 <= c <= c_9 \/ c_a <= c <= c_f.
Definition hexval (c : Z) : Z := if c <=? c_9 then c - c_0 else c - c_a + 10.
Definition hex_value_from (v : Z) (s : list Z) : Z := fold_left (fun v c => v * 16 + hexval c) s v.
Definition hex_value (s : list Z) : Z := hex_value_from 0 s.

Lemma hex_value_from_app v s t : hex_value_from v (s ++ t) = hex_value_from (hex_value_from v s) t.
Proof. unfold hex_value_from. apply fold_left_app. Qed.

Lemma hexd_lookup (n : nat) :
  (n < 16)%nat -> exists c, hexd !! n = Some c /\ is_hexlower c /\ hexval c = Z.of_nat n.
Proof.
  intros Hn. unfold is_hexlower, hexval.
  do 16 (destruct n as [|n]; [eexists; split; [reflexivity|]; simpl; lia|]). lia.
Qed.

Lemma hex_loop_spec room v tmp :
  (0 < room)%nat -> 0 <= v < 16 ^ Z.of_nat room ->
  exists ds, hex_loop room v tmp = Some (tmp ++ ds) /\
    Forall is_hexlower ds /\ (0 < length ds <= room)%nat /\ hex_value (reverse ds) = v /\
    (v <> 0 -> deref (reverse ds) <> c_0) /\ (v = 0 -> ds = [c_0]).
Proof.
  revert v tmp. induction room as [|room IH]; intros v tmp Hr Hv; [lia|].
  rewrite Nat2Z.inj_succ, Z.pow_succ_r in Hv by lia. simpl.
  change 15 with (Z.ones 4). rewrite Z.land_ones, Z.shiftr_div_pow2 by lia. change (2 ^ 4) with 16.
  pose proof (Z.mod_pos_bound v 16 ltac:(lia)) as Hm.
  pose proof (Z.div_mod v 16 ltac:(lia)) as Hdm.
  destruct (hexd_lookup (Z.to_nat (v mod 16))) as (c & -> & Hc & Hcv); [lia|]. simpl.
  rewrite Z2Nat.id in Hcv by lia. case_test.
  - exists [c]. unfold is_hexlower, hexval in *.
    split_and!; simpl; auto; try lia; unfold hex_value, hex_value_from; cbn;
      [unfold hexval|intros ?|intros ?; f_equal]; destruct (Z.leb_spec c c_9); lia.
  - destruct (IH (v / 16) (tmp ++ [c])) as (ds & Heq & Hds & Hlen & Hval & Hlead & _).
    { destruct room; [simpl in Hv|]; lia. }
    { split; [apply Z.div_pos; lia|apply Z.div_lt_upper_bound; lia]. }
    exists (c :: ds). rewrite Heq, <- app_assoc. split_and!; simpl; auto; try lia.
    + rewrite reverse_cons. unfold hex_value in *. rewrite hex_value_from_app, Hval. cbn. lia.
    + intros _. rewrite reverse_cons. specialize (Hlead ltac:(lia)).
      destruct (reverse ds) as [|x xs] eqn:Er; [|exact Hlead].
      apply (f_equal length) in Er. rewrite length_reverse in Er. simpl in Er. lia.
Qed.

Definition hex_repr (v : Z) (ds : list Z) : Prop :=
  Forall is_hexlower ds /\ ds <> [] /\ hex_value ds = v /\
  (v <> 0 -> deref ds <> c_0) /\ (v = 0 -> ds = [c_0]).

Lemma hex_loop_repr k room v :
  (0 < k <= room)%nat -> 0 <= v < 16 ^ Z.of_nat k ->
  exists ds, hex_loop room v [] = Some (reverse ds) /\ hex_repr v ds /\ (length ds <= k)%nat.
Proof.
  intros Hk Hv. destruct (hex_loop_spec k v []) as (ds & Heq & Hds & Hlen & Hval & Hlead & Hz); [lia|done|].
  exists (reverse ds). rewrite reverse_involutive. split_and!; [|unfold hex_repr; split_and!; auto|].
  - assert (Hmono : forall r r' v tmp x, hex_loop r v tmp = Some x -> (r <= r')%nat -> hex_loop r' v tmp = Some x).
    { clear. induction r as [|r IH]; intros [|r'] v tmp x Hx Hle; simpl in *; try done; [lia|].
      destruct (hexd !! _); simpl in *; [|done]. case_if; [done|]. apply IH; [done|lia]. }
    eapply Hmono; [exact Heq|lia].
  - by apply Forall_reverse.
  - intros He. apply (f_equal length) in He. rewrite length_reverse in He. simpl in He. lia.
  - intros ->. by rewrite Hz.
  - rewrite length_reverse. lia.
Qed.

(** A value of at most four hexadecimal digits fits a four-byte buffer. *)
Lemma u64_to_hex_u16 v :
  0 <= v <= 65535 ->
  exists ds, kl_u64_to_hex 4 v = Some ds /\ hex_repr v ds /\ (length ds <= 4)%nat.
Proof.
  intros Hv. destruct (hex_loop_repr 4 16 v) as (ds & Heq & Hr & Hl); [lia|simpl; lia|].
  exists ds. unfold kl_u64_to_hex. rewrite Heq. simpl. rewrite length_reverse, reverse_involutive.
  destruct (Nat.ltb_spec 4 (length ds)); [lia|auto].
Qed.

(** ** The append builder *)

(** The first [off] bytes of the buffer are the text built so far. *)
Definition buf_holds (st : list Z * nat) (txt : list Z) : Prop := take st.2 st.1 = txt /\ st.2 = length txt.

Lemma length_mem_write buf o s :
  (o + length s <= length buf)%nat -> length (mem_write buf o s) = length buf.
Proof. intros H. unfold mem_write. rewrite !length_app, length_take, length_drop. lia. Qed.

(** An append either fails and changes nothing, exactly when the text and its NUL do not fit
    in the capacity, or extends the text built so far, keeps it NUL-terminated inside the buffer
    and never changes the buffer's size. *)
Lemma buf_append_n_spec (cap : nat) (buf : list Z) (o : nat) (txt s : list Z)
    (Hlen : length buf = cap) (Hold : buf_holds (buf, o) txt) :
  match kl_buf_append_n cap (buf, o) s with
  | None => (cap <= length txt + length s)%nat
  | Some (buf', o') =>
      (length txt + length s < cap)%nat /\ length buf' = cap /\
      buf_holds (buf', o') (txt ++ s) /\ buf' !! o' = Some 0 /\
      drop (S o') buf' = drop (S o') buf
  end.
Proof.
  destruct Hold as [Ht Ho]; simpl in *. unfold kl_buf_append_n.
  assert (Hol : (o <= length buf)%nat).
  { apply (f_equal length) in Ht. rewrite length_take in Ht. lia. }
  destruct (Nat.ltb_spec cap o), (Nat.ltb_spec (cap - o) (length s)); simpl; try lia.
  destruct (Nat.eqb_spec (length s) (cap - o)); [lia|].
  pose proof (length_mem_write buf o s ltac:(lia)) as Hmw.
  split_and!; [lia|rewrite length_insert; lia| | |].
  - unfold buf_holds; simpl. split; [|rewrite length_app; lia].
    rewrite take_insert_ge by lia. unfold mem_write.
    rewrite Ht, app_assoc, take_app_length' by (rewrite length_app; lia). done.
  - apply list_lookup_insert_eq. lia.
  - rewrite drop_insert_lt by lia. unfold mem_write.
    rewrite Ht, app_assoc, drop_app_ge by (rewrite length_app; lia).
    rewrite drop_drop. f_equal. rewrite length_app. lia.
Qed.

(** A buffer of at least [n] bytes whose first [off] bytes are [txt]. *)
Definition holds (n : nat) (st : list Z * nat) (txt : list Z) : Prop :=
  (n <= length st.1)%nat /\ buf_holds st txt.

Lemma holds_write n buf o txt s :
  holds n (buf, o) txt -> (o + length s <= n)%nat ->
  holds n (mem_write buf o s, (o + length s)%nat) (txt ++ s).
Proof.
  intros [Hn [Ht Ho]] Hs; simpl in *. split; [simpl; rewrite length_mem_write; lia|].
  split; simpl; [|rewrite length_app; lia].
  unfold mem_write. rewrite Ht, app_assoc, take_app_length' by (rewrite length_app; lia). done.
Qed.

Definition decs (v : Z) : list Z := default [] (kl_u64_to_dec 20 v).

Lemma decs_repr k v : (0 < k)%nat -> 0 <= v < 10 ^ Z.of_nat k -> v <= UINT64_MAX ->
  kl_u64_to_dec 20 v = Some (decs v) /\ dec_repr v (decs v) /\ (0 < length (decs v) <= k)%nat.
Proof.
  intros Hk Hv Hmax. unfold decs.
  destruct (u64_to_dec_repr 20 v ltac:(lia)) as (ds & Hr & Hl & ->).
  destruct (Nat.ltb_spec 20 (length ds)); [lia|]. simpl. split_and!; [done|done| |].
  - destruct Hr as (_ & Hne & _). destruct ds; simpl; [done|lia].
  - eapply dec_repr_length; [done|done|lia].
Qed.

Lemma append_holds n st txt s :
  holds n st txt -> (length txt + length s < n)%nat ->
  exists st', kl_buf_append_n n st s = Some st' /\ holds n st' (txt ++ s).
Proof.
  destruct st as [buf o]. intros Hst Hlt. pose proof (holds_write n buf o txt s Hst) as Hw.
  destruct Hst as [Hn [Ht Ho]]; simpl in *. unfold kl_buf_append_n.
  destruct (Nat.ltb_spec n o), (Nat.ltb_spec (n - o) (length s)); simpl; try lia.
  destruct (Nat.eqb_spec (length s) (n - o)); [lia|]. eexists; split; [done|].
  destruct Hw as [Hn' [Ht' Ho']]; [lia|]. simpl in *.
  split; [simpl; by rewrite length_insert|]. split; simpl; [|done]. by rewrite take_insert_ge.
Qed.

Lemma append_u64_holds n st txt k v :
  holds n st txt -> (0 < k)%nat -> 0 <= v < 10 ^ Z.of_nat k -> v <= UINT64_MAX -> (length txt + k < n)%nat ->
  exists st', kl_buf_append_u64 n st v = Some st' /\ holds n st' (txt ++ decs v) /\ (0 < length (decs v) <= k)%nat.
Proof.
  intros Hst Hk Hv Hmax Hlt. destruct (decs_repr k v Hk Hv Hmax) as (Hd & _ & Hl).
  unfold kl_buf_append_u64. rewrite Hd, bind_Some_l.
  destruct (append_holds n st txt (decs v) Hst) as (st' & -> & Hst'); [lia|]. eauto.
Qed.

(** ** Comparison and search *)

Lemma ascii_lower_nz c : is_cbyte c -> ascii_lower c <> 0.
Proof. unfold is_cbyte, ascii_lower. intros H. case_if; breflect; [rewrite u8_small|]; lia. Qed.

Lemma strcasecmp_zero a b :
  Forall is_cbyte a -> Forall is_cbyte b ->
  kl_ascii_strcasecmp a b = 0 <-> ascii_lower <$> a = ascii_lower <$> b.
Proof.
  intros Ha. revert b. induction Ha as [|x a Hx Ha IH]; intros [|y b] Hb; cbn -[ascii_lower].
  - done.
  - apply Forall_cons in Hb as [Hy _]. apply ascii_lower_nz in Hy.
    change (ascii_lower 0) with 0. case_test; simpl; [lia|]. split; [lia|done].
  - apply ascii_lower_nz in Hx. change (ascii_lower 0) with 0.
    case_test; simpl; [lia|]. split; [lia|done].
  - apply Forall_cons in Hb as [Hy Hb]. apply ascii_lower_nz in Hx.
    case_test; simpl; [|split; [lia|congruence]].
    destruct (Z.eqb_spec (ascii_lower x) 0); [done|]. rewrite IH by done. split; [intros ->; congruence|by intros [= _ ->]].
Qed.

(** The prefix test of the URL scheme check: never reads past the end of [a]. *)
Lemma strncasecmp_zero a p :
  Forall is_cbyte a -> Forall is_cbyte p ->
  kl_ascii_strncasecmp a p (length p) = 0 <->
  ascii_lower <$> take (length p) a = ascii_lower <$> p.
Proof.
  intros Ha Hp. revert a Ha. induction Hp as [|y p Hy Hp IH]; intros a Ha; cbn -[ascii_lower]; [done|].
  apply ascii_lower_nz in Hy. destruct a as [|x a]; cbn -[ascii_lower].
  - change (ascii_lower 0) with 0. case_test; simpl; [lia|]. split; [lia|done].
  - apply Forall_cons in Ha as [Hx Ha]. apply ascii_lower_nz in Hx.
    case_test; simpl; [|split; [lia|congruence]].
    destruct (Z.eqb_spec (ascii_lower x) 0); [done|]. rewrite IH by done. split; [intros ->; congruence|by intros [= _ ->]].
Qed.

(** [strchr] splits the string at the first occurrence. *)
Lemma strchr_spec (p : list Z) c : Forall is_cbyte p -> is_cbyte c ->
  match kl_strchr p c with
  | Some d => exists l rest, p = l ++ c :: rest /\ (c ∉ l) /\ d = c :: rest
  | None => c ∉ p
  end.
Proof.
  unfold is_cbyte. intros Hp Hc. induction Hp as [|x p Hx Hp IH]; cbn [kl_strchr deref]; rewrite u8_small by lia.
  { destruct (Z.eqb_spec 0 c); [lia|]. apply not_elem_of_nil. }
  destruct (Z.eqb_spec x c) as [->|Hne]; [by exists [], p; split_and!; [|apply not_elem_of_nil|]|].
  destruct (Z.eqb_spec x 0); [lia|]. destruct (kl_strchr p c) as [d|].
  - destruct IH as (l & rest & -> & Hl & ->). exists (x :: l), rest. rewrite not_elem_of_cons. by split_and!.
  - rewrite not_elem_of_cons. by split.
Qed.

Lemma strstr_here_prefix h n :
  Forall is_cbyte h -> Forall is_cbyte n -> strstr_here h n = true <-> n `prefix_of` h.
Proof.
  intros Hh Hn. revert h Hh. induction Hn as [|c n Hc Hn IH]; intros h Hh; simpl.
  { split; [intros _; apply prefix_nil|done]. }
  unfold is_cbyte in Hc. case_test; [lia|]. destruct h as [|d h]; simpl.
  - case_test; [lia|]. split; [done|]. intros Hp. by apply prefix_nil_inv in Hp.
  - apply Forall_cons in Hh as [Hd Hh]. case_test.
    + subst. rewrite IH by done. split; [apply prefix_cons|apply prefix_cons_inv_2].
    + split; [done|]. intros Hp. apply prefix_cons_inv_1 in Hp. congruence.
Qed.

Lemma strstr_from_spec hay needle :
  Forall is_cbyte hay -> Forall is_cbyte needle -> needle <> [] ->
  match strstr_from hay needle with
  | Some rest =>
      exists pre, hay = pre ++ rest /\ needle `prefix_of` rest /\
        forall pre' rest', hay = pre' ++ rest' -> needle `prefix_of` rest' -> (length pre <= length pre')%nat
  | None => forall pre rest, hay = pre ++ rest -> ~ needle `prefix_of` rest
  end.
Proof.
  intros Hh Hn Hne. induction Hh as [|c hay Hc Hh IH]; simpl.
  { intros pre rest He. symmetry in He. apply app_nil in He as [-> ->]. intros Hp.
    by apply prefix_nil_inv in Hp. }
  unfold is_cbyte in Hc. case_test; [lia|].
  destruct (strstr_here (c :: hay) needle) eqn:E.
  { exists []. split_and!; [done|by apply strstr_here_prefix; auto|]. simpl. lia. }
  assert (Hno : ~ needle `prefix_of` c :: hay).
  { rewrite <- strstr_here_prefix by auto. by rewrite E. }
  destruct (strstr_from hay needle) as [rest|].
  - destruct IH as (pre & -> & Hp & Hmin). exists (c :: pre). split_and!; [done..|].
    intros [|x pre'] rest' He Hp'; [by simplify_list_eq|]. injection He as -> He.
    apply le_n_S. eauto.
  - intros [|x pre] rest He Hp; [by simplify_list_eq|]. injection He as -> He. by apply (IH pre rest).
Qed.

(** [kl_strstr] returns the first occurrence of the needle: the pointer it returns splits the
    haystack in front of a copy of the needle, no earlier position starts one, and NULL means that
    no position does. *)
Lemma strstr_spec (hay needle : list Z) (Hh : Forall is_cbyte hay) (Hn : Forall is_cbyte needle) :
  match kl_strstr hay needle with
  | Some rest =>
      exists pre, hay = pre ++ rest /\ needle `prefix_of` rest /\
        forall pre' rest', hay = pre' ++ rest' -> needle `prefix_of` rest' -> (length pre <= length pre')%nat
  | None => forall pre rest, hay = pre ++ rest -> ~ needle `prefix_of` rest
  end.
Proof.
  unfold kl_strstr. destruct needle as [|c needle]; simpl.
  - exists []. split_and!; [done|apply prefix_nil|]. simpl. lia.
  - assert (Hc := Forall_inv Hn). unfold is_cbyte in Hc. case_test; [lia|]. by apply strstr_from_spec.
Qed.

End CStr.
