(* ===== verification/SockAddr.v ===== *)
(** * Platform-neutral socket addresses (src/src/sockaddr.c, src/include/keel/sockaddr.h)

    Construction from wire bytes, parsing of numeric literals (dotted quad and RFC 4291 IPv6 text),
    comparison and classification, and the RFC 5952 presentation.  The union [u] of the C struct is
    its 108 bytes of storage; an IP address occupies its first 4 or 16 bytes. *)
From S2P Require Import Prelude CStr.
Import CStr.

Module SockAddr.

(** ** Data *)

Inductive KlAddrFamily := KL_AF_UNSPEC | KL_AF_INET | KL_AF_INET6 | KL_AF_UNIX.

#[export] Instance KlAddrFamily_eq_dec : EqDecision KlAddrFamily.
Proof. solve_decision. Defined.

Definition KL_UNIX_PATH_MAX : nat := 108.
Definition KL_SOCKADDR_STRLEN : nat := 128.

Record KlSockAddr := MkSockAddr {
  family : KlAddrFamily;
  port : Z;
  scope_id : Z;
  addr_len : nat;
  u : list Z
}.

#[export] Instance KlSockAddr_eq_dec : EqDecision KlSockAddr.
Proof. solve_decision. Defined.

Definition zero_u : list Z := replicate KL_UNIX_PATH_MAX 0.

(** An address cleared with [memset (&a, 0, sizeof a)]. *)
Definition zero_addr : KlSockAddr :=
  {| family := KL_AF_UNSPEC; port := 0; scope_id := 0; addr_len := 0; u := zero_u |}.

(** ** Construction from wire bytes *)

Definition kl_sockaddr_from_ipv4 (ip4 : list Z) (p : Z) : KlSockAddr :=
  {| family := KL_AF_INET; port := p; scope_id := 0; addr_len := 4;
     u := mem_write zero_u 0 (take 4 ip4) |}.

Definition kl_sockaddr_from_ipv6 (ip6 : list Z) (p scope : Z) : KlSockAddr :=
  {| family := KL_AF_INET6; port := p; scope_id := scope; addr_len := 16;
     u := mem_write zero_u 0 (take 16 ip6) |}.

Definition kl_sockaddr_from_unix (path : list Z) : option KlSockAddr :=
  let len := length path in
  if (len =? 0)%nat || (KL_UNIX_PATH_MAX <=? len)%nat then None
  else Some {| family := KL_AF_UNIX; port := 0; scope_id := 0; addr_len := len;
               u := mem_write zero_u 0 (path ++ [0]) |}.

(** ** Numeric literals *)

Definition is_dec_digit (c : Z) : bool := (c_0 <=? c) && (c <=? c_9).

(** The inner [while] of [parse_ipv4]: accumulates one octet. *)
Fixpoint ipv4_octet (s : list Z) (v digits : Z) : option (Z * list Z) :=
  match s with
  | [] => Some (v, [])
  | c :: s' =>
      if is_dec_digit c then
        let v' := v * 10 + (c - c_0) in
        let digits' := digits + 1 in
        if (3 <? digits') || (255 <? v') then None else ipv4_octet s' v' digits'
      else Some (v, s)
  end.

(** The [for] loop over the octets still to read. *)
Fixpoint ipv4_octets (left : nat) (s : list Z) (out : list Z) : option (list Z) :=
  match left with
  | O => if deref s =? 0 then Some out else None
  | S left' =>
      if (deref s <? c_0) || (c_9 <? deref s) then None
      else
        '(v, s1) ← ipv4_octet s 0 0;
        let out' := out ++ [u8 v] in
        if (left' =? 0)%nat then ipv4_octets left' s1 out'
        else if negb (deref s1 =? c_dot) then None
        else ipv4_octets left' (tail s1) out'
  end.

Definition parse_ipv4 (s : list Z) : option (list Z) := ipv4_octets 4 s [].

(** The scan for the '.' of an embedded IPv4 tail; its result is [*dot]. *)
Fixpoint scan_dot (s : list Z) : Z :=
  match s with
  | [] => 0
  | c :: s' => if negb (c =? 0) && negb (c =? c_colon) && negb (c =? c_dot) then scan_dot s' else c
  end.

Definition hex_digit (c : Z) : option Z :=
  if (c_0 <=? c) && (c <=? c_9) then Some (c - c_0)
  else if (c_a <=? c) && (c <=? c_f) then Some (c - c_a + 10)
  else if (c_A <=? c) && (c <=? c_F) then Some (c - c_A + 10)
  else None.

Fixpoint ipv6_hextet (s : list Z) (v digits : Z) : option (Z * Z * list Z) :=
  match s with
  | [] => Some (v, digits, [])
  | c :: s' =>
      match hex_digit c with
      | None => Some (v, digits, s)
      | Some d =>
          let v' := Z.lor (Z.shiftl v 4) d in
          let digits' := digits + 1 in
          if 4 <? digits' then None else ipv6_hextet s' v' digits'
      end
  end.

(** [gap] is [None] for the C value -1. *)
Record v6state := MkV6 { v6_buf : list Z; v6_gap : option nat; v6_n : nat }.

(** The [for (;;)] loop; every iteration that continues has consumed at least one byte of [s], so
    a fuel of [S (length s)] is never exhausted ([ipv6_loop_fuel]). *)
Fixpoint ipv6_loop (fuel : nat) (s : list Z) (st : v6state) : option v6state :=
  match fuel with
  | O => None
  | S fuel' =>
      let '(MkV6 buf gap n) := st in
      if scan_dot s =? c_dot then
        if (12 <? n)%nat then None
        else
          q ← parse_ipv4 s;
          Some (MkV6 (mem_write buf n q) gap (n + 4))
      else
        '(v, digits, s1) ← ipv6_hextet s 0 0;
        if digits =? 0 then None
        else if (14 <? n)%nat then None
        else
          let buf1 := <[S n := u8 (Z.land v 255)]> (<[n := u8 (Z.shiftr v 8)]> buf) in
          let n1 := (n + 2)%nat in
          if deref s1 =? 0 then Some (MkV6 buf1 gap n1)
          else if negb (deref s1 =? c_colon) then None
          else
            let s2 := tail s1 in
            if deref s2 =? c_colon then
              match gap with
              | Some _ => None
              | None =>
                  let s3 := tail s2 in
                  if deref s3 =? 0 then Some (MkV6 buf1 (Some n1) n1)
                  else ipv6_loop fuel' s3 (MkV6 buf1 (Some n1) n1)
              end
            else ipv6_loop fuel' s2 (MkV6 buf1 gap n1)
  end.

Definition ipv6_finish (st : v6state) : option (list Z) :=
  let '(MkV6 buf gap n) := st in
  match gap with
  | Some g =>
      if (16 <=? n)%nat then None
      else
        let tail := (n - g)%nat in
        let moved := mem_write buf (16 - tail) (take tail (drop g buf)) in
        Some (mem_write moved g (replicate (16 - tail - g) 0))
  | None => if negb (n =? 16)%nat then None else Some buf
  end.

Definition parse_ipv6 (s : list Z) : option (list Z) :=
  let buf := replicate 16 0 in
  if deref s =? c_colon then
    if negb (deref (tail s) =? c_colon) then None
    else
      let s1 := tail (tail s) in
      if deref s1 =? 0 then Some (replicate 16 0)
      else st ← ipv6_loop (S (length s1)) s1 (MkV6 buf (Some 0%nat) 0); ipv6_finish st
  else st ← ipv6_loop (S (length s)) s (MkV6 buf None 0); ipv6_finish st.

Definition kl_sockaddr_parse (host : list Z) (p : Z) : option KlSockAddr :=
  match parse_ipv4 host with
  | Some v4 => Some (kl_sockaddr_from_ipv4 v4 p)
  | None =>
      match parse_ipv6 host with
      | Some v6 => Some (kl_sockaddr_from_ipv6 v6 p 0)
      | None => None
      end
  end.

(** ** Accessors and comparison *)

Definition kl_sockaddr_family (a : KlSockAddr) : KlAddrFamily := family a.
Definition kl_sockaddr_port (a : KlSockAddr) : Z := port a.
Definition kl_sockaddr_set_port (a : KlSockAddr) (p : Z) : KlSockAddr :=
  {| family := family a; port := p; scope_id := scope_id a; addr_len := addr_len a; u := u a |}.

Definition kl_sockaddr_equal_addr (a b : KlSockAddr) : bool :=
  if negb (bool_decide (family a = family b)) then false
  else match family a with
       | KL_AF_INET => span_eqb (take 4 (u a)) (take 4 (u b))
       | KL_AF_INET6 => (scope_id a =? scope_id b) && span_eqb (take 16 (u a)) (take 16 (u b))
       | KL_AF_UNIX =>
           (addr_len a =? addr_len b)%nat && span_eqb (take (addr_len a) (u a)) (take (addr_len a) (u b))
       | KL_AF_UNSPEC => false
       end.

Definition kl_sockaddr_equal (a b : KlSockAddr) : bool :=
  if negb (kl_sockaddr_equal_addr a b) then false else port a =? port b.

Definition kl_sockaddr_is_loopback (a : KlSockAddr) : bool :=
  match family a with
  | KL_AF_INET => nth 0 (u a) 0 =? 127
  | KL_AF_INET6 => span_eqb (take 16 (u a)) (replicate 15 0 ++ [1])
  | _ => false
  end.

Definition kl_sockaddr_is_multicast (a : KlSockAddr) : bool :=
  match family a with
  | KL_AF_INET => Z.land (nth 0 (u a) 0) 240 =? 224
  | KL_AF_INET6 => nth 0 (u a) 0 =? 255
  | _ => false
  end.
(** ** Presentation *)

(** [g[i]]: the i-th 16-bit group. *)
Fixpoint ip_groups (ip : list Z) : list Z :=
  match ip with
  | hi :: lo :: ip' => u16 (Z.lor (Z.shiftl hi 8) lo) :: ip_groups ip'
  | _ => []
  end.

Record runs := MkRuns { best : Z; best_len : Z; cur : Z; cur_len : Z }.

(** One iteration of the search for the longest run of zero groups. *)
Definition run_step (r : runs) (i g : Z) : runs :=
  if g =? 0 then
    let cur' := if cur r <? 0 then i else cur r in
    let cur_len' := if cur r <? 0 then 1 else cur_len r + 1 in
    if best_len r <? cur_len' then MkRuns cur' cur_len' cur' cur_len'
    else MkRuns (best r) (best_len r) cur' cur_len'
  else MkRuns (best r) (best_len r) (-1) 0.

Fixpoint run_loop (gs : list Z) (i : Z) (r : runs) : runs :=
  match gs with
  | [] => r
  | g :: gs' => run_loop gs' (i + 1) (run_step r i g)
  end.

(** The run to compress, [(-1, _)] when it is shorter than two groups. *)
Definition longest_run (gs : list Z) : Z * Z :=
  let r := run_loop gs 0 (MkRuns (-1) 0 (-1) 0) in
  ((if best_len r <? 2 then -1 else best r), best_len r).

(** [if (off >= n) return -1; buf[off++] = c;] *)
Definition put (n : nat) (st : list Z * nat) (c : Z) : option (list Z * nat) :=
  if (n <=? st.2)%nat then None else Some (<[st.2 := c]> st.1, S st.2).

(** One iteration of the loop that prints group [i]. *)
Definition fmt_group (n : nat) (best best_len i g : Z) (st : list Z * nat) : option (list Z * nat) :=
  if negb (best =? -1) && (best <=? i) && (i <? best + best_len) then
    if i =? best then put n st c_colon else Some st
  else
    st1 ← (if negb (i =? 0) then put n st c_colon else Some st);
    hx ← kl_u64_to_hex 4 g;
    let r := length hx in
    if (r =? 0)%nat || (n - st1.2 <=? r)%nat then None
    else Some (mem_write st1.1 st1.2 hx, (st1.2 + r)%nat).

Fixpoint fmt_groups (n : nat) (best best_len i : Z) (gs : list Z) (st : list Z * nat) : option (list Z * nat) :=
  match gs with
  | [] => Some st
  | g :: gs' => st1 ← fmt_group n best best_len i g st; fmt_groups n best best_len (i + 1) gs' st1
  end.

(** The result is the buffer and the length returned; [None] is -1. *)
Definition fmt_ipv6 (ip : list Z) (buf : list Z) (n : nat) : option (list Z * nat) :=
  let g := ip_groups ip in
  let '(best, best_len) := longest_run g in
  st ← fmt_groups n best best_len 0 g (buf, 0%nat);
  st1 ← (if negb (best =? -1) && (best + best_len =? 8) then put n st c_colon else Some st);
  if (n <=? st1.2)%nat then None else Some (<[st1.2 := 0]> st1.1, st1.2).

Definition fmt_ipv4 (ip : list Z) (buf : list Z) (n : nat) : option (list Z * nat) :=
  let octet (i : nat) (st : list Z * nat) : option (list Z * nat) :=
    st1 ← (if negb (i =? 0)%nat then kl_buf_append_n n st (bytes ".") else Some st);
    kl_buf_append_u64 n st1 (nth i ip 0) in
  st0 ← octet 0%nat (buf, 0%nat);
  st1 ← octet 1%nat st0;
  st2 ← octet 2%nat st1;
  octet 3%nat st2.

Definition kl_sockaddr_format_ip (a : KlSockAddr) (buf : list Z) (n : nat) : option (list Z * nat) :=
  if (n =? 0)%nat then None
  else match family a with
       | KL_AF_INET => fmt_ipv4 (take 16 (u a)) buf n
       | KL_AF_INET6 => fmt_ipv6 (take 16 (u a)) buf n
       | KL_AF_UNIX => kl_buf_append_n n (buf, 0%nat) (take (addr_len a) (u a))
       | KL_AF_UNSPEC => None
       end.

(** [ip] is the local array the host part is printed into. *)
Definition kl_sockaddr_format (a : KlSockAddr) (buf : list Z) (n : nat) : option (list Z * nat) :=
  if (n =? 0)%nat then None
  else match family a with
       | KL_AF_INET =>
           '(ip, iplen) ← kl_sockaddr_format_ip a (replicate 16 0) 16;
           st ← kl_buf_append_n n (buf, 0%nat) (take iplen ip);
           st ← kl_buf_append_n n st (bytes ":");
           kl_buf_append_u64 n st (port a)
       | KL_AF_INET6 =>
           '(ip, iplen) ← kl_sockaddr_format_ip a (replicate 46 0) 46;
           st ← kl_buf_append_n n (buf, 0%nat) (bytes "[");
           st ← kl_buf_append_n n st (take iplen ip);
           st ← kl_buf_append_n n st (bytes "]:");
           kl_buf_append_u64 n st (port a)
       | KL_AF_UNIX => kl_sockaddr_format_ip a buf n
       | KL_AF_UNSPEC => None
       end.

(** ** Small runs of the definitions *)

Definition text_of (r : option (list Z * nat)) : option (list Z) :=
  match r with Some (buf, len) => Some (take len buf) | None => None end.

Example parse_v6_compressed :
  parse_ipv6 (bytes "2001:db8::1") = Some [32; 1; 13; 184; 0; 0; 0; 0; 0; 0; 0; 0; 0; 0; 0; 1].
Proof. vm_compute. reflexivity. Qed.

Example parse_v6_embedded :
  parse_ipv6 (bytes "::ffff:1.2.3.4") = Some [0; 0; 0; 0; 0; 0; 0; 0; 0; 0; 255; 255; 1; 2; 3; 4].
Proof. vm_compute. reflexivity. Qed.

Example parse_v6_rejects : parse_ipv6 (bytes "1::2::3") = None /\ parse_ipv6 (bytes ":::1") = None.
Proof. vm_compute. auto. Qed.

Example format_v6 :
  text_of (kl_sockaddr_format (kl_sockaddr_from_ipv6 [32; 1; 13; 184; 0; 0; 0; 0; 0; 0; 0; 0; 0; 0; 0; 1] 443 0)
             (replicate 128 7) 128) = Some (bytes "[2001:db8::1]:443").
Proof. vm_compute. reflexivity. Qed.

Example format_v6_trailing :
  text_of (kl_sockaddr_format_ip (kl_sockaddr_from_ipv6 ([254; 128] ++ replicate 14 0) 0 0) (replicate 128 7) 128)
  = Some (bytes "fe80::").
Proof. vm_compute. reflexivity. Qed.

(** ** Bytes, groups and their text *)

Definition hexs (g : Z) : list Z := default [] (kl_u64_to_hex 4 g).
Definition is_u16 (g : Z) : Prop := 0 <= g <= 65535.
Definition group_bytes (g : Z) : list Z := [u8 (Z.shiftr g 8); u8 (Z.land g 255)].

Lemma hexs_repr g : is_u16 g ->
  kl_u64_to_hex 4 g = Some (hexs g) /\ hex_repr g (hexs g) /\ (0 < length (hexs g) <= 4)%nat.
Proof.
  intros Hg. unfold hexs. destruct (u64_to_hex_u16 g Hg) as (ds & -> & Hr & Hl). simpl.
  split_and!; auto. destruct Hr as (_ & Hne & _). destruct ds; simpl; [done|lia].
Qed.

(** The 16 address bytes are the bytes of the eight groups. *)
Lemma ip_groups_bytes (ip : list Z) (k : nat) :
  length ip = (2 * k)%nat -> Forall is_byte ip ->
  length (ip_groups ip) = k /\ Forall is_u16 (ip_groups ip) /\ ip_groups ip ≫= group_bytes = ip.
Proof.
  revert ip. induction k as [|k IH]; intros ip Hl Hb.
  { destruct ip; [done|simpl in Hl; lia]. }
  destruct ip as [|hi [|lo ip]]; simpl in Hl; try lia.
  apply Forall_cons in Hb as [Hhi Hb]. apply Forall_cons in Hb as [Hlo Hb].
  destruct (IH ip ltac:(lia) Hb) as (IHl & IHu & IHb). unfold is_byte in *.
  assert (Hg : u16 (Z.lor (Z.shiftl hi 8) lo) = hi * 256 + lo).
  { rewrite lor_shiftl_add by lia. change (2 ^ 8) with 256. apply u16_small. lia. }
  cbn [ip_groups length]. rewrite Hg. split_and!.
  - lia.
  - constructor; [unfold is_u16; lia|done].
  - cbn [mbind list_bind]. unfold group_bytes at 1. rewrite land_255, shiftr_8.
    rewrite Z.div_add_l, (Z.div_small lo), Z.add_0_r by lia.
    rewrite (Z.add_comm (hi * 256) lo), Z.mod_add, (Z.mod_small lo) by lia. rewrite !u8_small by lia.
    cbn. by rewrite IHb.
Qed.

Lemma zero_groups_bytes gs :
  Forall (fun g => g = 0) gs -> gs ≫= group_bytes = replicate (2 * length gs) 0.
Proof.
  induction 1 as [|g gs -> _ IH]; [done|]. cbn [mbind list_bind]. rewrite IH.
  replace (2 * length (0%Z :: gs))%nat with (S (S (2 * length gs))) by (simpl; lia). done.
Qed.

(** ** Printing: the text [fmt_ipv6] leaves in the buffer *)

Definition render_tail (gs : list Z) : list Z := gs ≫= fun g => c_colon :: hexs g.

Definition group_text (best best_len i g : Z) : list Z :=
  if negb (best =? -1) && (best <=? i) && (i <? best + best_len) then
    (if i =? best then [c_colon] else [])
  else (if negb (i =? 0) then [c_colon] else []) ++ hexs g.

Fixpoint groups_text (best best_len i : Z) (gs : list Z) : list Z :=
  match gs with
  | [] => []
  | g :: gs' => group_text best best_len i g ++ groups_text best best_len (i + 1) gs'
  end.

Lemma put_holds n st txt c :
  holds n st txt -> (length txt < n)%nat ->
  exists st', put n st c = Some st' /\ holds n st' (txt ++ [c]).
Proof.
  destruct st as [buf o]. intros [Hn [Ht Ho]] Hlt; simpl in *. unfold put; simpl.
  destruct (Nat.leb_spec n o); [lia|]. eexists; split; [done|].
  split; [simpl; rewrite length_insert; lia|]. split; simpl; [|rewrite length_app; simpl; lia].
  rewrite (take_S_r _ _ c) by (apply list_lookup_insert_eq; lia).
  by rewrite take_insert_ge, Ht by lia.
Qed.

Lemma fmt_group_holds n best best_len i g st txt :
  is_u16 g -> holds n st txt -> (length txt + 5 < n)%nat ->
  exists st', fmt_group n best best_len i g st = Some st' /\
    holds n st' (txt ++ group_text best best_len i g) /\
    (length (group_text best best_len i g) <= 5)%nat.
Proof.
  intros Hg Hst Hn. unfold fmt_group, group_text.
  destruct (hexs_repr g Hg) as (-> & Hr & Hl).
  case_if.
  { destruct (Z.eqb_spec i best).
    - destruct (put_holds n st txt c_colon Hst) as (st' & -> & Hst'); [lia|]. exists st'.
      split_and!; [done..|simpl; lia].
    - exists st. rewrite app_nil_r. split_and!; [done..|simpl; lia]. }
  assert (exists st1, (if negb (i =? 0) then put n st c_colon else Some st) = Some st1 /\
            holds n st1 (txt ++ if negb (i =? 0) then [c_colon] else [])) as (st1 & -> & Hst1).
  { case_test; simpl; [rewrite app_nil_r; eauto|]. apply put_holds; [done|lia]. }
  destruct st1 as [buf o]. simpl.
  assert (Ho : (o <= length txt + 1)%nat).
  { destruct Hst1 as [_ [_ Ho]]; simpl in Ho. rewrite Ho, length_app. case_test; simpl; lia. }
  destruct (Nat.eqb_spec (length (hexs g)) 0), (Nat.leb_spec (n - o) (length (hexs g))); simpl; try lia.
  eexists. split_and!; [done| |rewrite length_app; case_test; simpl; lia].
  rewrite app_assoc. apply holds_write; [done|lia].
Qed.

Lemma fmt_groups_holds n best best_len i gs st txt :
  Forall is_u16 gs -> holds n st txt -> (length txt + 5 * length gs < n)%nat ->
  exists st', fmt_groups n best best_len i gs st = Some st' /\
    holds n st' (txt ++ groups_text best best_len i gs) /\
    (length (groups_text best best_len i gs) <= 5 * length gs)%nat.
Proof.
  intros Hgs. revert i st txt. induction Hgs as [|g gs Hg Hgs IH]; intros i st txt Hst Hn; simpl in *.
  { exists st. rewrite app_nil_r. split_and!; [done..|lia]. }
  destruct (fmt_group_holds n best best_len i g st txt Hg Hst) as (st1 & -> & Hst1 & Hl1); [lia|]. simpl.
  destruct (IH (i + 1) st1 _ Hst1) as (st2 & -> & Hst2 & Hl2); [rewrite length_app; lia|].
  exists st2. rewrite app_assoc, length_app. split_and!; [done..|lia].
Qed.

Definition v6_text (gs : list Z) : list Z :=
  let '(best, best_len) := longest_run gs in
  groups_text best best_len 0 gs ++
  (if negb (best =? -1) && (best + best_len =? 8) then [c_colon] else []).

Lemma fmt_ipv6_text ip buf n :
  length ip = 16%nat -> Forall is_byte ip -> (46 <= n <= length buf)%nat ->
  exists buf', fmt_ipv6 ip buf n = Some (buf', length (v6_text (ip_groups ip))) /\
    take (length (v6_text (ip_groups ip))) buf' = v6_text (ip_groups ip) /\
    (length (v6_text (ip_groups ip)) < 46)%nat.
Proof.
  intros Hip Hb Hn. destruct (ip_groups_bytes ip 8 Hip Hb) as (Hl & Hu & _).
  unfold fmt_ipv6, v6_text. destruct (longest_run (ip_groups ip)) as [best best_len].
  destruct (fmt_groups_holds n best best_len 0 (ip_groups ip) (buf, 0%nat) []) as (st & -> & Hst & Hlen);
    [done|by split; simpl; [lia|split]|simpl; lia|]. simpl in *.
  set (fin := if negb (best =? -1) && (best + best_len =? 8) then [c_colon] else []).
  assert (exists st1, (if negb (best =? -1) && (best + best_len =? 8) then put n st c_colon else Some st) = Some st1 /\
            holds n st1 (groups_text best best_len 0 (ip_groups ip) ++ fin)) as (st1 & -> & Hst1).
  { unfold fin. case_if; [apply put_holds; [done|lia]|]. rewrite app_nil_r. eauto. }
  simpl. destruct Hst1 as (Hn1 & Ht1 & Ho1).
  assert (length fin <= 1)%nat by (unfold fin; case_if; simpl; lia).
  rewrite <- Ho1. assert (st1.2 < 46)%nat by (rewrite Ho1, length_app; lia).
  destruct (Nat.leb_spec n st1.2); [lia|]. eexists. split_and!; [done| |done].
  by rewrite take_insert_ge by lia.
Qed.

(** ** The run that is compressed

    The search only tests whether a group is zero, so its behaviour on eight groups is decided by
    the 256 zero/non-zero masks. *)

Definition zmask (gs : list Z) : list Z := (fun g => if g =? 0 then 0 else 1) <$> gs.

Fixpoint masks (n : nat) : list (list Z) :=
  match n with O => [[]] | S n' => flat_map (fun m => [0 :: m; 1 :: m]) (masks n') end.

Definition all_zero (gs : list Z) : bool := forallb (fun g => g =? 0) gs.
Definition zero_run (gs : list Z) (a k : nat) : bool :=
  (a + k <=? length gs)%nat && all_zero (take k (drop a gs)).

(** The compressed run is a zero run of at least two groups; any other such run is shorter, or as
    long and further right; no run is compressed only when there is none. *)
Definition run_okb (gs : list Z) (best best_len : Z) : bool :=
  let others := flat_map (fun a => map (pair a) (seq 2 7)) (seq 0 8) in
  if best =? -1 then forallb (fun p => negb (zero_run gs p.1 p.2)) others
  else (0 <=? best) && (2 <=? best_len) && zero_run gs (Z.to_nat best) (Z.to_nat best_len) &&
       forallb (fun p => negb (zero_run gs p.1 p.2) || (p.2 <? Z.to_nat best_len)%nat ||
                         ((p.2 =? Z.to_nat best_len) && (Z.to_nat best <=? p.1))%nat) others.

Lemma longest_run_masks : forallb (fun m => run_okb m (longest_run m).1 (longest_run m).2) (masks 8) = true.
Proof. vm_compute. reflexivity. Qed.

Lemma zmask_in_masks gs : zmask gs ∈ masks (length gs).
Proof.
  induction gs as [|g gs IH]; [by apply list_elem_of_singleton|]. apply list_elem_of_In, in_flat_map.
  exists (zmask gs). split; [by apply list_elem_of_In|]. cbn. case_test; auto.
Qed.

Lemma run_loop_zmask gs i r : run_loop (zmask gs) i r = run_loop gs i r.
Proof.
  revert i r. induction gs as [|g gs IH]; intros i r; [done|]. simpl. rewrite <- IH.
  f_equal. unfold run_step. by destruct (g =? 0).
Qed.

Lemma all_zero_zmask gs : all_zero (zmask gs) = all_zero gs.
Proof. induction gs as [|g gs IH]; [done|]. simpl. rewrite IH. by destruct (g =? 0). Qed.

Lemma zero_run_zmask gs a k : zero_run (zmask gs) a k = zero_run gs a k.
Proof.
  unfold zero_run. rewrite <- (all_zero_zmask (take k (drop a gs))). unfold zmask. by rewrite fmap_take, fmap_drop, length_fmap.
Qed.

Lemma longest_run_ok gs : length gs = 8%nat -> run_okb gs (longest_run gs).1 (longest_run gs).2 = true.
Proof.
  intros Hl. pose proof longest_run_masks as Hall. rewrite forallb_forall in Hall.
  pose proof (zmask_in_masks gs) as Hin. rewrite Hl in Hin. apply list_elem_of_In in Hin.
  specialize (Hall _ Hin). cbv beta in Hall.
  unfold longest_run in *. rewrite run_loop_zmask in Hall. revert Hall.
  unfold run_okb. rewrite zero_run_zmask.
  assert (He : forall f (l : list (nat * nat)),
    forallb (fun p => f (zero_run (zmask gs) p.1 p.2) p) l = forallb (fun p => f (zero_run gs p.1 p.2) p) l).
  { intros f l. induction l as [|p l IHl]; simpl; [done|]. by rewrite zero_run_zmask, IHl. }
  rewrite (He (fun z p => negb z)).
  by rewrite (He (fun z p => negb z || _ || _)).
Qed.

Lemma zero_run_split gs a k : zero_run gs a k = true ->
  exists pre mid post, gs = pre ++ mid ++ post /\ length pre = a /\ length mid = k /\ Forall (fun g => g = 0) mid.
Proof.
  unfold zero_run, all_zero. intros H. breflect. apply Nat.leb_le in H.
  exists (take a gs), (take k (drop a gs)), (drop k (drop a gs)). split_and!.
  - by rewrite !take_drop.
  - rewrite length_take. lia.
  - rewrite length_take, length_drop. lia.
  - apply Forall_forall. intros g Hg. rewrite forallb_forall in H0.
    apply list_elem_of_In, H0 in Hg. by apply Z.eqb_eq.
Qed.

Lemma longest_run_split gs : length gs = 8%nat ->
  let '(best, best_len) := longest_run gs in
  best = -1 \/
  exists pre mid post, gs = pre ++ mid ++ post /\ best = Z.of_nat (length pre) /\
    best_len = Z.of_nat (length mid) /\ (2 <= length mid)%nat /\ Forall (fun g => g = 0) mid.
Proof.
  intros Hl. pose proof (longest_run_ok gs Hl) as H. destruct (longest_run gs) as [best best_len]. simpl in H.
  unfold run_okb in H. case_test; [by left|right]. breflect.
  destruct (zero_run_split _ _ _ H1) as (pre & mid & post & -> & Hp & Hm & Hz).
  exists pre, mid, post. split_and!; auto; lia.
Qed.

(** ** The text as groups separated by colons *)

Definition join_groups (gs : list Z) : list Z :=
  match gs with [] => [] | g :: gs' => hexs g ++ render_tail gs' end.

Lemma groups_text_app b l i gs hs :
  groups_text b l i (gs ++ hs) = groups_text b l i gs ++ groups_text b l (i + Z.of_nat (length gs)) hs.
Proof.
  revert i. induction gs as [|g gs IH]; intros i; simpl; [f_equal; lia|].
  rewrite IH, <- app_assoc. do 3 f_equal. lia.
Qed.

Lemma groups_text_out b l i gs :
  0 < i -> (b = -1 \/ i + Z.of_nat (length gs) <= b \/ b + l <= i) ->
  groups_text b l i gs = render_tail gs.
Proof.
  revert i. induction gs as [|g gs IH]; intros i Hi Ho; [done|]. cbn -[hexs]. simpl in Ho.
  unfold render_tail in IH. rewrite IH by lia. unfold group_text.
  destruct (Z.eqb_spec b (-1)), (Z.leb_spec b i), (Z.ltb_spec i (b + l)), (Z.eqb_spec i 0); simpl; lia || done.
Qed.

Lemma groups_text_start b l gs :
  (b = -1 \/ Z.of_nat (length gs) <= b) -> groups_text b l 0 gs = join_groups gs.
Proof.
  intros Ho. destruct gs as [|g gs]; [done|]. cbn -[hexs]. simpl in Ho.
  rewrite groups_text_out by lia. f_equal. unfold group_text.
  destruct (Z.eqb_spec b (-1)), (Z.leb_spec b 0); simpl; lia || done.
Qed.

Lemma groups_text_in b l i gs :
  0 <= b < i -> i + Z.of_nat (length gs) <= b + l -> groups_text b l i gs = [].
Proof.
  revert i. induction gs as [|g gs IH]; intros i Hi Ho; [done|]. cbn -[hexs]. simpl in Ho.
  rewrite IH, app_nil_r by lia. unfold group_text.
  destruct (Z.eqb_spec b (-1)), (Z.leb_spec b i), (Z.ltb_spec i (b + l)), (Z.eqb_spec i b); simpl; lia || done.
Qed.

Lemma v6_text_plain gs : (longest_run gs).1 = -1 -> v6_text gs = join_groups gs.
Proof.
  unfold v6_text. destruct (longest_run gs) as [b l]. simpl. intros ->. simpl.
  rewrite app_nil_r. apply groups_text_start. lia.
Qed.

Lemma v6_text_run pre mid post :
  length (pre ++ mid ++ post) = 8%nat -> (2 <= length mid)%nat ->
  longest_run (pre ++ mid ++ post) = (Z.of_nat (length pre), Z.of_nat (length mid)) ->
  v6_text (pre ++ mid ++ post) =
  join_groups pre ++ c_colon :: (match post with [] => [c_colon] | _ => render_tail post end).
Proof.
  intros Hl Hm Hr. unfold v6_text. rewrite Hr. rewrite !length_app in Hl.
  rewrite !groups_text_app, groups_text_start by lia.
  destruct mid as [|m mid]; [simpl in Hm; lia|].
  rewrite (groups_text_out _ _ _ post) by (simpl; lia). cbn [groups_text].
  rewrite groups_text_in by (simpl; lia). unfold group_text.
  destruct (Z.eqb_spec (Z.of_nat (length pre)) (-1)); [lia|].
  destruct (Z.leb_spec (Z.of_nat (length pre)) (0 + Z.of_nat (length pre))); [|lia].
  destruct (Z.ltb_spec (0 + Z.of_nat (length pre)) (Z.of_nat (length pre) + Z.of_nat (length (m :: mid))));
    [|simpl in *; lia].
  destruct (Z.eqb_spec (0 + Z.of_nat (length pre)) (Z.of_nat (length pre))); [|lia].
  simpl. rewrite <- !app_assoc. simpl. f_equal. f_equal.
  simpl in Hl. destruct post as [|g post].
  - destruct (Z.eqb_spec (Z.of_nat (length pre) + Z.of_nat (S (length mid))) 8); [done|simpl in Hl; lia].
  - destruct (Z.eqb_spec (Z.of_nat (length pre) + Z.of_nat (S (length mid))) 8); [simpl in Hl; lia|].
    by rewrite app_nil_r.
Qed.

(** ** Parsing the text back *)

Lemma hex_digit_lower c : is_hexlower c -> hex_digit c = Some (hexval c) /\ 0 <= hexval c < 16 /\
  c <> 0 /\ c <> c_colon /\ c <> c_dot.
Proof.
  unfold is_hexlower, hex_digit, hexval. intros H.
  destruct (Z.leb_spec c_0 c), (Z.leb_spec c c_9), (Z.leb_spec c_a c), (Z.leb_spec c c_f); simpl; lia || (split_and!; auto; lia).
Qed.

(** What may follow a group in the text: the end, or a colon. *)
Definition group_end (rest : list Z) : Prop := match rest with [] => True | c :: _ => c = c_colon end.

Lemma scan_dot_group ds rest : Forall is_hexlower ds -> group_end rest -> scan_dot (ds ++ rest) <> c_dot.
Proof.
  intros Hds Hr. induction Hds as [|c ds Hc _ IH]; simpl.
  - destruct rest as [|c rest]; simpl in *; [lia|]. subst. done.
  - destruct (hex_digit_lower c Hc) as (_ & _ & H0 & H1 & H2).
    destruct (Z.eqb_spec c 0), (Z.eqb_spec c c_colon), (Z.eqb_spec c c_dot); simpl; done.
Qed.

Lemma ipv6_hextet_group ds rest v k :
  Forall is_hexlower ds -> group_end rest -> 0 <= v -> 0 <= k -> k + Z.of_nat (length ds) <= 4 ->
  ipv6_hextet (ds ++ rest) v k = Some (hex_value_from v ds, k + Z.of_nat (length ds), rest).
Proof.
  intros Hds Hr. revert v k. induction Hds as [|c ds Hc _ IH]; intros v k Hv Hk Hl; simpl in *.
  - rewrite Z.add_0_r. destruct rest as [|c rest]; [done|]. simpl in Hr. subst. done.
  - destruct (hex_digit_lower c Hc) as (-> & Hh & _). rewrite lor_shiftl_add by lia.
    change (2 ^ 4) with 16. case_test; [lia|]. rewrite IH by lia. do 3 f_equal. lia.
Qed.

(** A loop state whose first bytes are filled and whose others are still zero. *)
Definition mkst (filled : list Z) (gap : option nat) : v6state :=
  MkV6 (filled ++ replicate (16 - length filled) 0) gap (length filled).

Lemma ipv6_loop_group fuel g rest filled gap :
  is_u16 g -> group_end rest -> (length filled <= 14)%nat ->
  ipv6_loop (S fuel) (hexs g ++ rest) (mkst filled gap) =
  let st' := mkst (filled ++ group_bytes g) in
  match rest with
  | [] => Some (st' gap)
  | _ :: rest' =>
      if deref rest' =? c_colon then
        match gap with
        | Some _ => None
        | None =>
            let gap' := Some (length (filled ++ group_bytes g)) in
            if deref (tail rest') =? 0 then Some (st' gap') else ipv6_loop fuel (tail rest') (st' gap')
        end
      else ipv6_loop fuel rest' (st' gap)
  end.
Proof.
  intros Hg Hr Hf. destruct (hexs_repr g Hg) as (_ & (Hd & Hne & Hv & _) & Hl).
  assert (Hbuf : <[S (length filled) := u8 (Z.land g 255)]>
    (<[length filled := u8 (Z.shiftr g 8)]> (filled ++ replicate (16 - length filled) 0)) =
    (filled ++ group_bytes g) ++ replicate (16 - length (filled ++ group_bytes g)) 0).
  { rewrite length_app. simpl.
    replace (16 - length filled)%nat with (S (S (16 - (length filled + 2)))) by lia.
    simpl. rewrite insert_take_drop_app, insert_app_r_alt by lia.
    replace (S (length filled) - length filled)%nat with 1%nat by lia. simpl.
    rewrite <- app_assoc. done. }
  unfold mkst. cbn [ipv6_loop].
  destruct (Z.eqb_spec (scan_dot (hexs g ++ rest)) c_dot) as [E|_]; [by apply scan_dot_group in E|].
  rewrite ipv6_hextet_group by (auto; lia). rewrite bind_Some_l.
  change (hex_value_from 0 (hexs g)) with (hex_value (hexs g)). rewrite Hv, Hbuf.
  destruct (Z.eqb_spec (0 + Z.of_nat (length (hexs g))) 0); [lia|].
  destruct (Nat.ltb_spec 14 (length filled)); [lia|].
  replace (length filled + 2)%nat with (length (filled ++ group_bytes g)) by (rewrite length_app; done).
  destruct rest as [|c rest]; [done|]. simpl in Hr. subst c. simpl. by destruct gap.
Qed.

Lemma group_end_tail gs rest : group_end rest -> group_end (render_tail gs ++ rest).
Proof. by destruct gs. Qed.

Lemma deref_hexs g rest : is_u16 g -> deref (hexs g ++ rest) <> c_colon /\ deref (hexs g ++ rest) <> 0.
Proof.
  intros Hg. destruct (hexs_repr g Hg) as (_ & (Hd & Hne & _) & _).
  destruct (hexs g) as [|c ds]; [done|]. apply Forall_cons in Hd as [Hc _].
  destruct (hex_digit_lower c Hc) as (_ & _ & ? & ? & _). done.
Qed.

(** Every group but the last is followed by a single colon and another group. *)
Lemma ipv6_loop_groups gs g fuel rest filled gap :
  Forall is_u16 (g :: gs) -> group_end rest -> (length filled + 2 * length (g :: gs) <= 16)%nat ->
  exists filled' glast,
    ipv6_loop (length gs + S fuel) (hexs g ++ render_tail gs ++ rest) (mkst filled gap) =
    ipv6_loop (S fuel) (hexs glast ++ rest) (mkst filled' gap) /\
    is_u16 glast /\ filled' ++ group_bytes glast = filled ++ ((g :: gs) ≫= group_bytes).
Proof.
  revert g filled. induction gs as [|g1 gs IH]; intros g filled Hu Hr Hl.
  { exists filled, g. apply Forall_cons in Hu as [Hg _]. split_and!; done. }
  apply Forall_cons in Hu as [Hg Hu]. pose proof Hu as Hg1. apply Forall_cons in Hg1 as [Hg1 _].
  destruct (IH g1 (filled ++ group_bytes g) Hu Hr) as (f' & gl & Heq & Hgl & Hf').
  { rewrite length_app. simpl in *. lia. }
  exists f', gl. split_and!; [|done|].
  - rewrite <- Heq. change (length (g1 :: gs) + S fuel)%nat with (S (length gs + S fuel)).
    rewrite ipv6_loop_group by (auto using group_end_tail; simpl in *; try lia; by apply group_end_tail).
    cbn [render_tail mbind list_bind]. simpl. rewrite <- app_assoc.
    destruct (deref_hexs g1 (render_tail gs ++ rest) Hg1) as [Hc _].
    unfold render_tail in Hc. apply Z.eqb_neq in Hc. by rewrite Hc.
  - rewrite Hf', <- app_assoc. done.
Qed.

Lemma length_group_bytes gs : length (gs ≫= group_bytes) = (2 * length gs)%nat.
Proof.
  induction gs as [|x gs IH]; [done|].
  change ((x :: gs) ≫= group_bytes) with (group_bytes x ++ (gs ≫= group_bytes)).
  rewrite length_app, IH. simpl. lia.
Qed.

(** The text of a list of groups, to the end of the string. *)
Lemma ipv6_loop_join gs fuel filled gap :
  gs <> [] -> Forall is_u16 gs -> (length filled + 2 * length gs <= 16)%nat -> (length gs <= fuel)%nat ->
  ipv6_loop fuel (join_groups gs) (mkst filled gap) = Some (mkst (filled ++ (gs ≫= group_bytes)) gap).
Proof.
  intros Hne Hu Hl Hfuel. destruct gs as [|g gs]; [done|].
  destruct (ipv6_loop_groups gs g (fuel - S (length gs)) [] filled gap Hu I Hl) as (f' & gl & Heq & Hgl & Hf').
  rewrite app_nil_r in Heq. replace (length gs + S (fuel - S (length gs)))%nat with fuel in Heq by (simpl in *; lia).
  unfold join_groups. rewrite Heq, ipv6_loop_group; [by rewrite Hf'|done..|].
  apply (f_equal length) in Hf'. rewrite !length_app, length_group_bytes in Hf'. simpl in *. lia.
Qed.

(** A run in the middle or at the end: groups, "::", then the remaining groups. *)
Lemma ipv6_loop_run pre post fuel :
  pre <> [] -> Forall is_u16 pre -> Forall is_u16 post ->
  (2 * length pre + 2 * length post <= 14)%nat -> (length pre + length post <= fuel)%nat ->
  ipv6_loop fuel (join_groups pre ++ c_colon :: (match post with [] => [c_colon] | _ => render_tail post end))
    (mkst [] None) =
  Some (mkst ((pre ≫= group_bytes) ++ (post ≫= group_bytes)) (Some (2 * length pre)%nat)).
Proof.
  intros Hne Hu Hu' Hl Hfuel. destruct pre as [|g pre]; [done|].
  set (rest := c_colon :: match post with [] => [c_colon] | _ => render_tail post end).
  destruct (ipv6_loop_groups pre g (fuel - S (length pre)) rest [] None Hu ltac:(done))
    as (f' & gl & Heq & Hgl & Hf'); [simpl in *; lia|].
  replace (length pre + S (fuel - S (length pre)))%nat with fuel in Heq by (simpl in *; lia).
  unfold join_groups. rewrite <- app_assoc, Heq.
  pose proof (f_equal length Hf') as Hlen. rewrite !length_app, length_group_bytes in Hlen. simpl in Hlen.
  rewrite ipv6_loop_group; [|done..|simpl in *; lia]. unfold rest.
  rewrite Hf'. change ([] ++ ((g :: pre) ≫= group_bytes)) with ((g :: pre) ≫= group_bytes).
  cbv zeta. rewrite (length_group_bytes (g :: pre)).
  destruct post as [|h post].
  - simpl. by rewrite app_nil_r.
  - pose proof Hu' as Hh. apply Forall_cons in Hh as [Hh _].
    change (render_tail (h :: post)) with (c_colon :: hexs h ++ render_tail post).
    cbn [tail deref]. rewrite Z.eqb_refl.
    destruct (deref_hexs h (render_tail post) Hh) as [_ Hz].
    apply Z.eqb_neq in Hz. rewrite Hz.
    apply (ipv6_loop_join (h :: post)); [done|done|rewrite length_group_bytes; simpl in *; lia|simpl in *; lia].
Qed.

Lemma ipv6_finish_gap F1 F2 :
  (length F1 + length F2 < 16)%nat ->
  ipv6_finish (mkst (F1 ++ F2) (Some (length F1))) =
  Some (F1 ++ replicate (16 - length F1 - length F2) 0 ++ F2).
Proof.
  intros Hl. unfold ipv6_finish, mkst. rewrite length_app.
  destruct (Nat.leb_spec 16 (length F1 + length F2)); [lia|].
  replace (length F1 + length F2 - length F1)%nat with (length F2) by lia.
  rewrite <- !app_assoc, drop_app_length, take_app_length. f_equal. unfold mem_write.
  rewrite (drop_ge _ (16 - length F2 + length F2)) by (rewrite !length_app, length_replicate; lia).
  rewrite app_nil_r, length_replicate.
  rewrite (take_app_le (take _ _)) by (rewrite length_take, !length_app, length_replicate; lia).
  rewrite take_take, Nat.min_l, take_app_length by lia. do 2 f_equal; [f_equal; lia|].
  rewrite drop_app_ge by (rewrite length_take, !length_app, length_replicate; lia).
  rewrite length_take, !length_app, length_replicate.
  match goal with |- drop ?k F2 = F2 => replace k with 0%nat by lia end. done.
Qed.

Lemma length_render_tail gs : Forall is_u16 gs -> (2 * length gs <= length (render_tail gs))%nat.
Proof.
  induction 1 as [|g gs Hg _ IH]; [done|].
  change (render_tail (g :: gs)) with (c_colon :: hexs g ++ render_tail gs).
  destruct (hexs_repr g Hg) as (_ & _ & Hl). simpl. rewrite length_app. lia.
Qed.

Lemma length_join_groups gs : Forall is_u16 gs -> (length gs <= length (join_groups gs))%nat.
Proof.
  intros Hu. destruct gs as [|g gs]; [done|]. apply Forall_cons in Hu as [Hg Hu].
  destruct (hexs_repr g Hg) as (_ & _ & Hl). pose proof (length_render_tail gs Hu).
  simpl. rewrite length_app. lia.
Qed.

Lemma ipv6_finish_full F : length F = 16%nat -> ipv6_finish (mkst F None) = Some F.
Proof. intros Hl. unfold ipv6_finish, mkst. rewrite Hl. simpl. by rewrite app_nil_r. Qed.

Lemma parse_v6_plain gs :
  length gs = 8%nat -> Forall is_u16 gs -> parse_ipv6 (join_groups gs) = Some (gs ≫= group_bytes).
Proof.
  intros Hl Hu. destruct gs as [|g gs]; [done|]. pose proof Hu as Hg. apply Forall_cons in Hg as [Hg _].
  unfold parse_ipv6. destruct (deref_hexs g (render_tail gs) Hg) as [Hc _]. apply Z.eqb_neq in Hc.
  change (join_groups (g :: gs)) with (hexs g ++ render_tail gs) at 1. rewrite Hc.
  pose proof (length_join_groups _ Hu). pose proof (length_group_bytes (g :: gs)) as Hb.
  change (MkV6 (replicate 16 0) None 0) with (mkst [] None).
  rewrite ipv6_loop_join by (auto; simpl in *; lia). rewrite bind_Some_l.
  change ([] ++ ((g :: gs) ≫= group_bytes)) with ((g :: gs) ≫= group_bytes).
  rewrite ipv6_finish_full; [done|]. rewrite Hb, Hl. done.
Qed.

(** The text after the colon that opens the run. *)
Definition after_run (post : list Z) : list Z := match post with [] => [c_colon] | _ => render_tail post end.

Lemma parse_v6_leading post :
  (2 * length post <= 14)%nat -> Forall is_u16 post ->
  parse_ipv6 (c_colon :: after_run post) =
  Some (replicate (16 - 2 * length post) 0 ++ (post ≫= group_bytes)).
Proof.
  intros Hl Hu. unfold parse_ipv6. destruct post as [|h post]; [done|].
  change (after_run (h :: post)) with (c_colon :: join_groups (h :: post)).
  cbn [tail deref]. rewrite !Z.eqb_refl. cbn [negb].
  pose proof Hu as Hh. apply Forall_cons in Hh as [Hh _].
  destruct (deref_hexs h (render_tail post) Hh) as [_ Hc]. apply Z.eqb_neq in Hc.
  change (join_groups (h :: post)) with (hexs h ++ render_tail post) at 1. rewrite Hc.
  pose proof (length_join_groups _ Hu). pose proof (length_group_bytes (h :: post)) as Hb.
  change (MkV6 (replicate 16 0) (Some 0%nat) 0) with (mkst [] (Some 0%nat)).
  rewrite ipv6_loop_join by (auto; simpl in *; lia). rewrite bind_Some_l.
  rewrite (ipv6_finish_gap []) by (rewrite Hb; simpl in *; lia). rewrite Hb. done.
Qed.

Lemma parse_v6_middle pre post :
  pre <> [] -> (2 * length pre + 2 * length post <= 14)%nat -> Forall is_u16 pre -> Forall is_u16 post ->
  parse_ipv6 (join_groups pre ++ c_colon :: after_run post) =
  Some ((pre ≫= group_bytes) ++ replicate (16 - 2 * length pre - 2 * length post) 0 ++ (post ≫= group_bytes)).
Proof.
  intros Hne Hl Hu1 Hu2. destruct pre as [|g pre]; [done|].
  pose proof Hu1 as Hg. apply Forall_cons in Hg as [Hg _]. unfold parse_ipv6.
  destruct (deref_hexs g (render_tail pre ++ c_colon :: after_run post) Hg) as [Hc _]. apply Z.eqb_neq in Hc.
  change (join_groups (g :: pre) ++ c_colon :: after_run post)
    with ((hexs g ++ render_tail pre) ++ c_colon :: after_run post) at 1.
  rewrite <- app_assoc, Hc. pose proof (length_join_groups _ Hu1) as Hj.
  assert (Hp : (length post <= length (after_run post))%nat).
  { destruct post; [simpl; lia|]. pose proof (length_render_tail _ Hu2). simpl in *. lia. }
  change (MkV6 (replicate 16 0) None 0) with (mkst [] None). unfold after_run in *.
  rewrite ipv6_loop_run; [|done..|lia|rewrite length_app; simpl in *; lia].
  rewrite bind_Some_l. pose proof (length_group_bytes (g :: pre)) as Hb1.
  pose proof (length_group_bytes post) as Hb2. rewrite <- Hb1, <- Hb2.
  by rewrite ipv6_finish_gap by (rewrite Hb1, Hb2; simpl in *; lia).
Qed.

Lemma parse_v6_text gs :
  length gs = 8%nat -> Forall is_u16 gs -> parse_ipv6 (v6_text gs) = Some (gs ≫= group_bytes).
Proof.
  intros Hl Hu. pose proof (longest_run_split gs Hl) as Hrun.
  destruct (longest_run gs) as [best best_len] eqn:Er.
  destruct Hrun as [->|(pre & mid & post & -> & -> & -> & Hm & Hz)].
  { rewrite v6_text_plain by (by rewrite Er). by apply parse_v6_plain. }
  rewrite v6_text_run by done. fold (after_run post). rewrite !length_app in Hl.
  apply Forall_app in Hu as [Hu1 Hu]. apply Forall_app in Hu as [_ Hu2].
  rewrite !bind_app, (zero_groups_bytes mid) by done.
  replace (2 * length mid)%nat with (16 - 2 * length pre - 2 * length post)%nat by lia.
  destruct pre as [|g pre]; [|apply parse_v6_middle; auto; simpl in *; lia].
  apply parse_v6_leading; [simpl in *; lia|done].
Qed.

Lemma ipv6_hextet_shorter s v k v' k' s1 :
  ipv6_hextet s v k = Some (v', k', s1) -> (length s1 <= length s)%nat /\ (k < k' -> (length s1 < length s)%nat).
Proof.
  revert v k. induction s as [|c s IH]; intros v k H; simpl in *.
  { simplify_eq. simpl. lia. }
  destruct (hex_digit c); [|simplify_eq; simpl; lia].
  case_test; [done|]. apply IH in H. lia.
Qed.

(** The fuel of [parse_ipv6] is never exhausted: more of it changes nothing. *)
Lemma ipv6_loop_fuel f1 f2 s st :
  (length s < f1)%nat -> (length s < f2)%nat -> ipv6_loop f1 s st = ipv6_loop f2 s st.
Proof.
  revert f2 s st. induction f1 as [|f1 IH]; intros [|f2] s st H1 H2; try lia. destruct st as [buf gap n].
  cbn [ipv6_loop]. case_if; [done|].
  destruct (ipv6_hextet s 0 0) as [[[v k] s1]|] eqn:E; [|done]. rewrite !bind_Some_l.
  case_if; [done|]. case_if; [done|]. cbv zeta. case_if; [done|]. case_if; [done|].
  assert (Hs : forall t : list Z, (length (tail t) <= length t)%nat) by (intros []; simpl; lia).
  apply ipv6_hextet_shorter in E as [Hle _]. breflect.
  assert (length (tail s1) < length s)%nat.
  { destruct s1; simpl in *; [done|lia]. }
  pose proof (Hs (tail s1)).
  case_if; [|apply IH; lia]. destruct gap; [done|]. case_if; [done|]. apply IH; lia.
Qed.

(** ** Dotted quads *)

Lemma byte_decs b : is_byte b ->
  kl_u64_to_dec 20 b = Some (decs b) /\ dec_repr b (decs b) /\ (0 < length (decs b) <= 3)%nat.
Proof. unfold is_byte. intros Hb. apply decs_repr; simpl; lia. Qed.

Lemma ipv4_octet_digits ds rest v k :
  Forall is_digit ds -> is_dec_digit (deref rest) = false -> 0 <= v -> 0 <= k ->
  k + Z.of_nat (length ds) <= 3 -> dec_value_from v ds <= 255 ->
  ipv4_octet (ds ++ rest) v k = Some (dec_value_from v ds, rest).
Proof.
  intros Hds Hr. revert v k. induction Hds as [|c ds Hc Hds IH]; intros v k Hv Hk Hl Hm; simpl in *.
  { destruct rest as [|c rest]; [done|]. simpl in *. by rewrite Hr. }
  unfold is_digit in Hc. pose proof (dec_value_from_mono (v * 10 + (c - c_0)) ds ltac:(lia) Hds) as Hmono.
  unfold dec_value_from in *. simpl in Hm.
  unfold is_dec_digit at 1. destruct (Z.leb_spec c_0 c), (Z.leb_spec c c_9); simpl; try lia.
  destruct (Z.ltb_spec 3 (k + 1)), (Z.ltb_spec 255 (v * 10 + (c - c_0))); simpl; try lia.
  rewrite IH by lia. done.
Qed.

Lemma ipv4_octets_step left b rest out :
  is_byte b -> is_dec_digit (deref rest) = false ->
  ipv4_octets (S left) (decs b ++ rest) out =
  if (left =? 0)%nat then ipv4_octets left rest (out ++ [b])
  else if negb (deref rest =? c_dot) then None else ipv4_octets left (tail rest) (out ++ [b]).
Proof.
  intros Hb Hr. destruct (byte_decs b Hb) as (_ & (Hd & Hne & Hv & _) & Hl). unfold is_byte in Hb.
  cbn [ipv4_octets]. rewrite ipv4_octet_digits; [|done|done|lia|lia|lia|unfold dec_value in Hv; lia].
  rewrite bind_Some_l. change (dec_value_from 0 (decs b)) with (dec_value (decs b)).
  rewrite Hv, u8_small by lia.
  destruct (decs b) as [|c ds]; [done|]. apply Forall_cons in Hd as [Hc _]. unfold is_digit in Hc. simpl.
  destruct (Z.ltb_spec c c_0), (Z.ltb_spec c_9 c); simpl; try lia. done.
Qed.

Lemma ipv4_octets_dot left b rest out :
  is_byte b -> ipv4_octets (S (S left)) (decs b ++ [c_dot] ++ rest) out = ipv4_octets (S left) rest (out ++ [b]).
Proof. intros Hb. by rewrite ipv4_octets_step. Qed.

Lemma ipv4_octets_last b out : is_byte b -> ipv4_octets 1 (decs b) out = Some (out ++ [b]).
Proof. intros Hb. rewrite <- (app_nil_r (decs b)). by rewrite ipv4_octets_step. Qed.

Definition v4_text (a b c d : Z) : list Z :=
  decs a ++ [c_dot] ++ decs b ++ [c_dot] ++ decs c ++ [c_dot] ++ decs d.

Lemma parse_v4_text a b c d :
  is_byte a -> is_byte b -> is_byte c -> is_byte d -> parse_ipv4 (v4_text a b c d) = Some [a; b; c; d].
Proof.
  intros Ha Hb Hc Hd. unfold parse_ipv4, v4_text.
  by rewrite !ipv4_octets_dot, ipv4_octets_last by done.
Qed.

(** A literal accepted as a dotted quad holds digits and dots only. *)
Lemma ipv4_octets_chars left s out r :
  ipv4_octets left s out = Some r -> Forall is_cbyte s -> Forall (fun c => c <> c_colon) s.
Proof.
  assert (Ho : forall s v k v' s1, ipv4_octet s v k = Some (v', s1) ->
    exists ds, s = ds ++ s1 /\ Forall (fun c => c <> c_colon) ds).
  { clear. induction s as [|c s IH]; intros v k v' s1 H; simpl in *; [simplify_eq; by exists []|].
    destruct (is_dec_digit c) eqn:E; [|simplify_eq; by exists []].
    case_if; [done|]. apply IH in H as (ds & -> & Hds). exists (c :: ds). split; [done|].
    constructor; [|done]. unfold is_dec_digit in E. breflect. lia. }
  revert s out. induction left as [|left IH]; intros s out H Hc; simpl in H.
  { case_test; [|done]. destruct s as [|c s]; [done|]. apply Forall_inv in Hc. unfold is_cbyte in Hc. simpl in *. lia. }
  destruct (_ || _); [done|]. destruct (ipv4_octet s 0 0) as [[v s1]|] eqn:E; [|done].
  apply Ho in E as (ds & -> & Hds). apply Forall_app in Hc as [_ Hc]. rewrite bind_Some_l in H.
  apply Forall_app. split; [done|].
  destruct (left =? 0)%nat; [by eapply IH|]. case_test; simpl in H; [|done].
  destruct s1 as [|c s1]; [done|]. apply Forall_cons in Hc as [_ Hc]. simpl in *.
  constructor; [lia|]. by eapply IH.
Qed.

Lemma fmt_ipv4_text a b c d ip buf n :
  is_byte a -> is_byte b -> is_byte c -> is_byte d -> (16 <= n <= length buf)%nat ->
  exists st, fmt_ipv4 (a :: b :: c :: d :: ip) buf n = Some st /\
    holds n st (v4_text a b c d) /\ (length (v4_text a b c d) <= 15)%nat.
Proof.
  unfold is_byte. intros Ha Hb Hc Hd Hn. unfold fmt_ipv4, v4_text. cbn [Nat.eqb negb nth].
  rewrite bind_Some_l.
  destruct (append_u64_holds n (buf, 0%nat) [] 3 a) as (s1 & -> & H1 & L1);
    [by split; simpl; [lia|split]|lia|simpl; lia..|]. rewrite bind_Some_l.
  destruct (append_holds n s1 _ (bytes ".") H1) as (s2 & -> & H2); [simpl; lia|]. rewrite bind_Some_l.
  destruct (append_u64_holds n s2 _ 3 b H2) as (s3 & -> & H3 & L3);
    [lia|simpl; lia|lia|rewrite length_app; simpl; lia|]. rewrite bind_Some_l.
  destruct (append_holds n s3 _ (bytes ".") H3) as (s4 & -> & H4); [rewrite !length_app; simpl; lia|]. rewrite bind_Some_l.
  destruct (append_u64_holds n s4 _ 3 c H4) as (s5 & -> & H5 & L5);
    [lia|simpl; lia|lia|rewrite !length_app; simpl; lia|]. rewrite bind_Some_l.
  destruct (append_holds n s5 _ (bytes ".") H5) as (s6 & -> & H6); [rewrite !length_app; simpl; lia|]. rewrite bind_Some_l.
  destruct (append_u64_holds n s6 _ 3 d H6) as (s7 & -> & H7 & L7);
    [lia|simpl; lia|lia|rewrite !length_app; simpl; lia|].
  exists s7. rewrite <- !app_assoc in H7. split_and!; [done|exact H7|rewrite !length_app; simpl; lia].
Qed.

(** ** Well-formed addresses *)

(** The invariant of every address the constructors build. *)
Definition wf (a : KlSockAddr) : Prop :=
  0 <= port a <= 65535 /\ length (u a) = KL_UNIX_PATH_MAX /\ Forall is_byte (u a) /\
  match family a with
  | KL_AF_UNSPEC => u a = zero_u
  | KL_AF_INET => addr_len a = 4%nat /\ scope_id a = 0 /\ drop 4 (u a) = replicate 104 0
  | KL_AF_INET6 => addr_len a = 16%nat /\ drop 16 (u a) = replicate 92 0
  | KL_AF_UNIX => (0 < addr_len a < KL_UNIX_PATH_MAX)%nat /\ port a = 0 /\ scope_id a = 0 /\
                  Forall is_cbyte (take (addr_len a) (u a)) /\ drop (addr_len a) (u a) = replicate (108 - addr_len a) 0
  end.

Lemma v6_text_colon gs :
  length gs = 8%nat -> Forall is_u16 gs -> ~ Forall (fun c => c <> c_colon) (v6_text gs).
Proof.
  intros Hl Hu Hall. pose proof (longest_run_split gs Hl) as Hrun.
  destruct (longest_run gs) as [best best_len] eqn:Er.
  destruct Hrun as [->|(pre & mid & post & -> & -> & -> & Hm & Hz)].
  - rewrite v6_text_plain in Hall by (by rewrite Er).
    destruct gs as [|g [|h gs]]; try done. apply Forall_app in Hall as [_ Hall]. by apply Forall_inv in Hall.
  - rewrite v6_text_run in Hall by done. apply Forall_app in Hall as [_ Hall]. by apply Forall_inv in Hall.
Qed.

Lemma hexs_cbyte g : is_u16 g -> Forall is_cbyte (hexs g).
Proof.
  intros Hg. destruct (hexs_repr g Hg) as (_ & (Hd & _) & _). apply (Forall_impl _ _ _ Hd).
  unfold is_hexlower, is_cbyte. lia.
Qed.

Lemma groups_text_cbyte b l i gs : Forall is_u16 gs -> Forall is_cbyte (groups_text b l i gs).
Proof.
  intros Hu. revert i. induction Hu as [|g gs Hg _ IH]; intros i; simpl; [done|].
  apply Forall_app. split; [|done]. unfold group_text. pose proof (hexs_cbyte g Hg).
  assert (is_cbyte c_colon) by (unfold is_cbyte; lia).
  repeat case_if; try done; simpl; auto.
Qed.

Lemma v6_text_cbyte gs : Forall is_u16 gs -> Forall is_cbyte (v6_text gs).
Proof.
  intros Hu. unfold v6_text. destruct (longest_run gs) as [b l]. apply Forall_app. split.
  - by apply groups_text_cbyte.
  - case_if; [|done]. constructor; [unfold is_cbyte; lia|done].
Qed.

Lemma from_ipv4_wf a : wf a -> family a = KL_AF_INET -> a = kl_sockaddr_from_ipv4 (take 4 (u a)) (port a).
Proof.
  intros (Hp & Hl & Hb & Hf) E. rewrite E in Hf. destruct Hf as (Hal & Hs & Hd).
  destruct a as [f p sc al ub]; simpl in *. subst. unfold kl_sockaddr_from_ipv4, mem_write. f_equal.
  rewrite take_take, Nat.min_l, length_take, Hl by lia. rewrite <- (take_drop 4 ub) at 1. by rewrite Hd.
Qed.

Lemma from_ipv6_wf a : wf a -> family a = KL_AF_INET6 ->
  a = kl_sockaddr_from_ipv6 (take 16 (u a)) (port a) (scope_id a).
Proof.
  intros (Hp & Hl & Hb & Hf) E. rewrite E in Hf. destruct Hf as (Hal & Hd).
  destruct a as [f p sc al ub]; simpl in *. subst. unfold kl_sockaddr_from_ipv6, mem_write. f_equal.
  rewrite take_take, Nat.min_l, length_take, Hl by lia. rewrite <- (take_drop 16 ub) at 1. by rewrite Hd.
Qed.

(** The first four bytes of the union of a well-formed address. *)
Lemma wf_u4 a : wf a -> exists b0 b1 b2 b3 r, u a = b0 :: b1 :: b2 :: b3 :: r /\
  is_byte b0 /\ is_byte b1 /\ is_byte b2 /\ is_byte b3 /\ Forall is_byte r.
Proof.
  intros (_ & Hl & Hb & _). destruct (u a) as [|b0 [|b1 [|b2 [|b3 r]]]]; try done.
  do 4 (apply Forall_cons in Hb as [? Hb]). exists b0, b1, b2, b3, r. by split_and!.
Qed.

(** The text of the host part. *)
Definition host_text (a : KlSockAddr) : list Z :=
  match family a with
  | KL_AF_INET => v4_text (nth 0 (u a) 0) (nth 1 (u a) 0) (nth 2 (u a) 0) (nth 3 (u a) 0)
  | KL_AF_INET6 => v6_text (ip_groups (take 16 (u a)))
  | KL_AF_UNIX => take (addr_len a) (u a)
  | KL_AF_UNSPEC => []
  end.

Definition host_max (a : KlSockAddr) : nat :=
  match family a with KL_AF_INET => 16 | KL_AF_INET6 => 46 | _ => 108 end.

Lemma wf_ip6 a : wf a -> length (take 16 (u a)) = 16%nat /\ Forall is_byte (take 16 (u a)).
Proof.
  intros (_ & Hl & Hb & _). split; [rewrite length_take, Hl; done|]. by apply Forall_take.
Qed.

Lemma format_ip_text a buf n :
  wf a -> family a <> KL_AF_UNSPEC -> (host_max a <= n <= length buf)%nat ->
  exists buf', kl_sockaddr_format_ip a buf n = Some (buf', length (host_text a)) /\
    take (length (host_text a)) buf' = host_text a /\ (length (host_text a) < host_max a)%nat.
Proof.
  intros Hwf Hf Hn. unfold kl_sockaddr_format_ip, host_text, host_max in *.
  destruct (family a) eqn:E; [done|..]; destruct (Nat.eqb_spec n 0); try (simpl in Hn; lia).
  - destruct (wf_u4 a Hwf) as (b0 & b1 & b2 & b3 & r & Hu & H0 & H1 & H2 & H3 & _). rewrite Hu. cbn [take nth].
    destruct (fmt_ipv4_text b0 b1 b2 b3 (take 12 r) buf n) as ([buf' o] & -> & [_ [Ht Ho]] & Hl); [done..|lia|].
    simpl in Ht, Ho. subst o. exists buf'. split_and!; [done..|lia].
  - destruct (wf_ip6 a Hwf) as [Hl Hb].
    destruct (fmt_ipv6_text (take 16 (u a)) buf n) as (buf' & -> & Ht & Hlt); [done|done|lia|]. eauto.
  - destruct Hwf as (_ & Hl & Hb & Hwf). rewrite E in Hwf. destruct Hwf as (Hal & _). unfold KL_UNIX_PATH_MAX in *.
    assert (Hlt : length (take (addr_len a) (u a)) = addr_len a) by (rewrite length_take; lia).
    destruct (append_holds n (buf, 0%nat) [] (take (addr_len a) (u a))) as ([buf' o] & -> & [_ [Ht Ho]]).
    { by split; simpl; [lia|split]. }
    { simpl. lia. }
    simpl in Ht, Ho. subst o. exists buf'. split_and!; [done..|lia].
Qed.

(** The address without its IPv6 scope, which the text does not carry. *)
Definition unscoped (a : KlSockAddr) : KlSockAddr := MkSockAddr (family a) (port a) 0 (addr_len a) (u a).

Lemma unscoped_id a : scope_id a = 0 -> unscoped a = a.
Proof. destruct a. simpl. by intros ->. Qed.

(** C36.  Printing an IPv4 or IPv6 address into a buffer of at least 46 bytes and parsing the text back, with the
    address's port, returns the same address with the scope id 0, and so the same address when it
    has no scope: the zero compression of [fmt_ipv6] never loses or moves a group, and the text of an
    IPv6 address is never taken for a dotted quad. *)
Theorem parse_format_ip (a : KlSockAddr) (buf : list Z) (n : nat)
    (Hwf : wf a) (Hfam : family a = KL_AF_INET \/ family a = KL_AF_INET6) (Hn : (46 <= n <= length buf)%nat) :
  exists buf' len, kl_sockaddr_format_ip a buf n = Some (buf', len) /\
    kl_sockaddr_parse (take len buf') (port a) = Some (unscoped a) /\ (scope_id a = 0 -> unscoped a = a).
Proof.
  destruct (format_ip_text a buf n Hwf) as (buf' & -> & Ht & _).
  { by destruct Hfam as [->| ->]. }
  { unfold host_max. destruct Hfam as [->| ->]; lia. }
  exists buf', (length (host_text a)). split; [done|]. split; [|apply unscoped_id]. rewrite Ht. unfold kl_sockaddr_parse, host_text.
  destruct Hfam as [E|E]; rewrite E.
  - pose proof (from_ipv4_wf a Hwf E) as Ha. rewrite unscoped_id by by rewrite Ha.
    destruct (wf_u4 a Hwf) as (b0 & b1 & b2 & b3 & r & Hu & H0 & H1 & H2 & H3 & _). rewrite Hu in *. cbn [take nth] in *.
    rewrite parse_v4_text by done. f_equal. by symmetry.
  - destruct (wf_ip6 a Hwf) as [Hl Hb].
    destruct (ip_groups_bytes (take 16 (u a)) 8 Hl Hb) as (Hgl & Hgu & Hgb).
    destruct (parse_ipv4 (v6_text (ip_groups (take 16 (u a))))) eqn:E4.
    { exfalso. apply (v6_text_colon _ Hgl Hgu). eapply ipv4_octets_chars; [exact E4|]. by apply v6_text_cbyte. }
    rewrite parse_v6_text, Hgb by done. f_equal.
    pose proof (from_ipv6_wf a Hwf E) as Ha. rewrite Ha at 3. done.
Qed.

Lemma parse_format_ip_witness :
  exists buf' len,
    kl_sockaddr_format_ip (kl_sockaddr_from_ipv6 ([254; 128] ++ replicate 13 0 ++ [9]) 53 4) (replicate 46 7) 46
      = Some (buf', len) /\
    kl_sockaddr_parse (take len buf') 53 = Some (kl_sockaddr_from_ipv6 ([254; 128] ++ replicate 13 0 ++ [9]) 53 0).
Proof.
  destruct (parse_format_ip (kl_sockaddr_from_ipv6 ([254; 128] ++ replicate 13 0 ++ [9]) 53 4) (replicate 46 7) 46) as (buf' & len & Hf & Hp & _).
  - unfold wf. simpl. split_and!; try reflexivity; try lia. by apply bytes_ok.
  - by right.
  - rewrite length_replicate. lia.
  - exists buf', len. split; [exact Hf|exact Hp].
Defined.

(** The presentation of an address. *)
Definition address_text (a : KlSockAddr) : list Z :=
  match family a with
  | KL_AF_INET => host_text a ++ bytes ":" ++ decs (port a)
  | KL_AF_INET6 => bytes "[" ++ host_text a ++ bytes "]:" ++ decs (port a)
  | _ => host_text a
  end.

(** A buffer of [KL_SOCKADDR_STRLEN] bytes never truncates: formatting a well-formed address
    into it always succeeds, returns the length of the address's text and leaves that text at the
    start of the buffer, with room for the NUL. *)
Lemma format_never_truncates (a : KlSockAddr) (buf : list Z)
    (Hwf : wf a) (Hfam : family a <> KL_AF_UNSPEC) (Hbuf : length buf = KL_SOCKADDR_STRLEN) :
  exists buf', kl_sockaddr_format a buf KL_SOCKADDR_STRLEN = Some (buf', length (address_text a)) /\
    take (length (address_text a)) buf' = address_text a /\
    (length (address_text a) < KL_SOCKADDR_STRLEN)%nat.
Proof.
  unfold KL_SOCKADDR_STRLEN in *. pose proof Hwf as (Hp & _).
  assert (Hst : holds 128 (buf, 0%nat) []) by (split; simpl; [lia|done]).
  unfold kl_sockaddr_format, address_text. cbn [Nat.eqb].
  pose proof (fun b n => format_ip_text a b n Hwf Hfam) as Hip. unfold host_max in Hip.
  destruct (family a) eqn:E; [done|..].
  - destruct (Hip (replicate 16 0) 16%nat) as (ip & -> & Ht & Hl); [rewrite length_replicate; lia|].
    rewrite bind_Some_l. rewrite Ht.
    destruct (append_holds 128 _ _ (host_text a) Hst) as (s1 & -> & H1); [simpl; lia|]. rewrite bind_Some_l.
    destruct (append_holds 128 _ _ (bytes ":") H1) as (s2 & -> & H2); [simpl; lia|]. rewrite bind_Some_l.
    destruct (append_u64_holds 128 s2 _ 5 (port a) H2) as ([b3 o3] & -> & [_ [H3 O3]] & L3);
      [lia|simpl; lia|lia|rewrite !length_app; simpl; lia|].
    rewrite <- app_assoc in *. simpl in *. subst o3. exists b3.
    split_and!; [done..|]. rewrite !length_app; simpl; lia.
  - destruct (Hip (replicate 46 0) 46%nat) as (ip & -> & Ht & Hl); [rewrite length_replicate; lia|].
    rewrite bind_Some_l. rewrite Ht.
    destruct (append_holds 128 _ _ (bytes "[") Hst) as (s0 & -> & H0); [simpl; lia|]. rewrite bind_Some_l.
    destruct (append_holds 128 _ _ (host_text a) H0) as (s1 & -> & H1); [simpl; lia|]. rewrite bind_Some_l.
    destruct (append_holds 128 _ _ (bytes "]:") H1) as (s2 & -> & H2); [simpl; lia|]. rewrite bind_Some_l.
    destruct (append_u64_holds 128 s2 _ 5 (port a) H2) as ([b3 o3] & -> & [_ [H3 O3]] & L3);
      [lia|simpl; lia|lia|rewrite !length_app; simpl; lia|].
    rewrite <- !app_assoc in *. simpl in *. subst o3. exists b3.
    split_and!; [done..|]. rewrite !length_app; simpl; lia.
  - destruct (Hip buf 128%nat) as (ip & -> & Ht & Hl); [lia|]. exists ip. split_and!; [done..|lia].
Qed.

(** RFC 5952 section 4.2: the run of groups printed as "::" is a longest run of zero groups of
    the address, the leftmost one among equals, never a single group, and no run is compressed only
    when there is no run of two zero groups. *)
Lemma compressed_run_longest (ip : list Z) (Hl : length ip = 16%nat) (Hb : Forall is_byte ip) :
  let gs := ip_groups ip in
  let '(best, best_len) := longest_run gs in
  (best = -1 -> forall a k, (2 <= k)%nat -> zero_run gs a k = false) /\
  (best <> -1 ->
     0 <= best /\ 2 <= best_len /\ zero_run gs (Z.to_nat best) (Z.to_nat best_len) = true /\
     forall a k, (2 <= k)%nat -> zero_run gs a k = true ->
       Z.of_nat k < best_len \/ Z.of_nat k = best_len /\ best <= Z.of_nat a).
Proof.
  destruct (ip_groups_bytes ip 8 Hl Hb) as (Hgl & _ & _). cbv zeta.
  pose proof (longest_run_ok _ Hgl) as H. destruct (longest_run (ip_groups ip)) as [best best_len]. simpl in H.
  assert (Hin : forall a k, (2 <= k)%nat -> zero_run (ip_groups ip) a k = true ->
    In (a, k) (flat_map (fun a => map (pair a) (seq 2 7)) (seq 0 8))).
  { intros a k Hk Hz. unfold zero_run in Hz. breflect. apply Nat.leb_le in H0.
    apply in_flat_map. exists a. split; [apply in_seq; lia|]. apply in_map, in_seq. lia. }
  unfold run_okb in H. destruct (Z.eqb_spec best (-1)) as [->|Hne].
  - split; [|done]. intros _ a k Hk. rewrite forallb_forall in H.
    destruct (zero_run (ip_groups ip) a k) eqn:E; [|done].
    specialize (H _ (Hin a k Hk E)). simpl in H. by rewrite E in H.
  - split; [done|]. intros _. breflect. rewrite forallb_forall in H0. split_and!; [done..|].
    intros a k Hk E. specialize (H0 _ (Hin a k Hk E)). simpl in H0. rewrite E in H0. simpl in H0.
    apply orb_true_iff in H0 as [Hlt|Heq]; [apply Nat.ltb_lt in Hlt; lia|].
    apply andb_true_iff in Heq as [He Hle]. apply Nat.eqb_eq in He. apply Nat.leb_le in Hle. lia.
Qed.

Lemma sockaddr_equal_refl a : family a <> KL_AF_UNSPEC -> kl_sockaddr_equal a a = true.
Proof.
  intros Hf. unfold kl_sockaddr_equal, kl_sockaddr_equal_addr. rewrite bool_decide_true by done. simpl.
  rewrite (Z.eqb_refl (port a)).
  assert (E : forall l, span_eqb l l = true) by (intros l; by apply span_eqb_true).
  destruct (family a); [done|..]; rewrite ?E, ?Z.eqb_refl, ?Nat.eqb_refl; done.
Qed.

(** On well-formed addresses [kl_sockaddr_equal] is equality of the whole struct: equal
    addresses have the same family, port, scope and all 108 bytes of storage, and no two different
    addresses compare equal (an unset address equals nothing, itself included). *)
Lemma sockaddr_equal_spec (a b : KlSockAddr) (Ha : wf a) (Hb : wf b) :
  kl_sockaddr_equal a b = true <-> a = b /\ family a <> KL_AF_UNSPEC.
Proof.
  split.
  - unfold kl_sockaddr_equal, kl_sockaddr_equal_addr. destruct (bool_decide_reflect (family a = family b)) as [Ef|]; simpl; [|done].
    destruct Ha as (_ & Hla & _ & Ha), Hb as (_ & Hlb & _ & Hb).
    destruct a as [f p sc al ub], b as [f' p' sc' al' ub']; simpl in *. subst f'.
    destruct f; simpl; [done| | |]; intros H; case_if; simpl in *; try done; breflect; simplify_eq; split; try done.
    + destruct Ha as (-> & -> & Ha), Hb as (-> & -> & Hb). f_equal.
      rewrite <- (take_drop 4 ub), <- (take_drop 4 ub'). congruence.
    + destruct Ha as (-> & Ha), Hb as (-> & Hb). f_equal.
      rewrite <- (take_drop 16 ub), <- (take_drop 16 ub'). congruence.
    + match goal with H : (_ =? _)%nat = true |- _ => apply Nat.eqb_eq in H; subst end.
      destruct Ha as (_ & _ & -> & _ & Ha), Hb as (_ & _ & -> & _ & Hb). f_equal.
      rewrite <- (take_drop al' ub), <- (take_drop al' ub'). congruence.
  - intros [<- Hf]. by apply sockaddr_equal_refl.
Qed.

End SockAddr.
