(* ===== verification/Chunked.v ===== *)
(** * HTTP/1.1 chunked transfer decoding (src/src/protocols/http/http1_chunked.c) and the body-reader
    interface it feeds (src/include/keel/http_body_reader.h, http_body_reader_buffer.c)

    [BodyReader] is the interface one side promises to the other: a reader accepts or rejects spans
    of the body.  The decoder is verified against the interface; the buffering reader shipped with
    the library is proved to implement it. *)
From S2P Require Import Prelude CStr.
Import CStr.

(** ** The body-reader interface *)

(** [on_data]'s result is its return value (negative: reject) and the reader afterwards.
    [reader_ok] is the reader's own invariant; [reader_eq] relates readers that differ only in
    bookkeeping no caller can observe. *)
Class BodyReader (R : Type) := {
  on_data : R -> list Z -> Z * R;
  reader_ok : R -> Prop;
  reader_eq : relation R
}.

Definition accepts {R} `{BodyReader R} (r : R) (x : list Z) : bool := 0 <=? (on_data r x).1.
Definition after {R} `{BodyReader R} (r : R) (x : list Z) : R := (on_data r x).2.

(** What a reader promises: splitting a span changes neither its acceptance nor its effect. *)
Class BodyReaderLaws (R : Type) `{BodyReader R} := {
  reader_eq_equivalence :: Equivalence reader_eq;
  after_ok : forall r x, reader_ok r -> accepts r x = true -> reader_ok (after r x);
  accepts_proper : forall r r' x, reader_ok r -> reader_ok r' -> reader_eq r r' -> accepts r x = accepts r' x;
  after_proper : forall r r' x, reader_ok r -> reader_ok r' -> reader_eq r r' -> accepts r x = true ->
    reader_eq (after r x) (after r' x);
  accepts_app : forall r x y, reader_ok r -> accepts r (x ++ y) = accepts r x && accepts (after r x) y;
  after_app : forall r x y, reader_ok r -> accepts r (x ++ y) = true ->
    reader_eq (after r (x ++ y)) (after (after r x) y)
}.

(** ** The buffering body reader *)

Module BufReader.

(** [data] is the first [len] bytes of the C buffer; the allocator answers whether a block of the
    requested size can be had. *)
Record KlHttpBufReader := MkBuf { data : list Z; cap : Z; max_size : Z }.

Definition KL_BUF_READER_INIT_CAP : Z := 1024.

Definition len (br : KlHttpBufReader) : Z := Z.of_nat (length (data br)).

Definition buf_grow (br : KlHttpBufReader) (n : Z) : Z :=
  let need := u64 (len br + n) in
  let new_cap := if SIZE_MAX / 2 <? cap br then need else cap br * 2 in
  let new_cap := if new_cap <? need then need else new_cap in
  if (0 <? max_size br) && (max_size br <? new_cap) then max_size br else new_cap.

Definition buf_on_data (realloc_ok : Z -> bool) (br : KlHttpBufReader) (x : list Z) : Z * KlHttpBufReader :=
  let n := Z.of_nat (length x) in
  if (0 <? max_size br) && (u64 (max_size br - len br) <? n) then (-1, br)
  else if u64 (cap br - len br) <? n then
    let new_cap := buf_grow br n in
    if negb (realloc_ok new_cap) then (-1, br)
    else (0, {| data := data br ++ x; cap := new_cap; max_size := max_size br |})
  else (0, {| data := data br ++ x; cap := cap br; max_size := max_size br |}).

(** [struct_ok]: the allocator is usable and the reader struct itself could be allocated. *)
Definition kl_http_body_reader_buffer (struct_ok : bool) (malloc_ok : Z -> bool) (user_data : Z)
    : option KlHttpBufReader :=
  if negb struct_ok then None else
  let init_cap := if (0 <? user_data) && (user_data <? KL_BUF_READER_INIT_CAP) then user_data
                  else KL_BUF_READER_INIT_CAP in
  if negb (malloc_ok init_cap) then None
  else Some {| data := []; cap := init_cap; max_size := user_data |}.

(** The bytes stored fit the block, the block fits the limit. *)
Definition inv (br : KlHttpBufReader) : Prop :=
  0 <= max_size br <= SIZE_MAX /\ len br <= cap br <= SIZE_MAX /\ (0 < max_size br -> cap br <= max_size br).

(** A reader with a limit, on an allocator that does not fail. *)
#[global] Instance buf_reader : BodyReader KlHttpBufReader := {
  on_data := buf_on_data (fun _ => true);
  reader_ok br := inv br /\ 0 < max_size br;
  reader_eq a b := data a = data b /\ max_size a = max_size b
}.

Lemma buf_on_data_spec (br : KlHttpBufReader) (x : list Z) :
  inv br -> 0 < max_size br ->
  if len br + Z.of_nat (length x) <=? max_size br then
    exists c, buf_on_data (fun _ => true) br x = (0, MkBuf (data br ++ x) c (max_size br)) /\
      inv (MkBuf (data br ++ x) c (max_size br))
  else buf_on_data (fun _ => true) br x = (-1, br).
Proof.
  intros (Hm & Hl & Hc) H0. unfold buf_on_data, inv, len in *. specialize (Hc H0). simpl.
  rewrite !u64_small by lia. destruct (Z.ltb_spec 0 (max_size br)); [|lia]. simpl.
  rewrite length_app, Nat2Z.inj_add.
  destruct (Z.leb_spec (Z.of_nat (length (data br)) + Z.of_nat (length x)) (max_size br)),
    (Z.ltb_spec (max_size br - Z.of_nat (length (data br))) (Z.of_nat (length x))); try lia; [|done].
  destruct (Z.ltb_spec (cap br - Z.of_nat (length (data br))) (Z.of_nat (length x))).
  - eexists. split; [done|]. unfold buf_grow, len. rewrite u64_small by lia.
    repeat case_if; breflect; try lia.
    all: match goal with H : _ && _ = false |- _ => apply andb_false_iff in H as [?|?] end; breflect; lia.
  - eexists. split; [done|]. lia.
Qed.

Lemma buffer_fresh max br :
  0 < max <= SIZE_MAX -> kl_http_body_reader_buffer true (fun _ => true) max = Some br ->
  reader_ok br /\ data br = [] /\ max_size br = max.
Proof.
  unfold kl_http_body_reader_buffer, KL_BUF_READER_INIT_CAP. simpl. intros Hm [= <-].
  unfold inv, len. simpl. split; [|done]. repeat case_if; breflect; try lia.
Qed.

Lemma buf_accepts (br : KlHttpBufReader) x :
  reader_ok br -> accepts br x = (len br + Z.of_nat (length x) <=? max_size br).
Proof.
  intros [Hi H0]. pose proof (buf_on_data_spec br x Hi H0) as H. unfold accepts, on_data. simpl.
  case_if; [destruct H as (c & -> & _)|rewrite H]; done.
Qed.

Lemma buf_after (br : KlHttpBufReader) x : reader_ok br -> accepts br x = true ->
  data (after br x) = data br ++ x /\ max_size (after br x) = max_size br /\ reader_ok (after br x).
Proof.
  intros [Hi H0] Ha. rewrite buf_accepts in Ha by done.
  pose proof (buf_on_data_spec br x Hi H0) as H. rewrite Ha in H. destruct H as (c & Heq & Hinv).
  unfold after, on_data. simpl. rewrite Heq. done.
Qed.

#[global] Instance buf_reader_laws : BodyReaderLaws KlHttpBufReader.
Proof.
  assert (Hlen : forall br br' : KlHttpBufReader, data br = data br' -> len br = len br').
  { intros br br' E. unfold len. by rewrite E. }
  split.
  - split; [by intros ?|intros ?? [??]; split; congruence|intros ??? [??] [??]; split; congruence].
  - intros r x Hr Ha. by apply buf_after.
  - intros r r' x Hr Hr' [Ed Em]. rewrite !buf_accepts by done. by rewrite (Hlen _ _ Ed), Em.
  - intros r r' x Hr Hr' [Ed Em] Ha. assert (accepts r' x = true) as Ha'.
    { rewrite buf_accepts in * by done. by rewrite <- (Hlen _ _ Ed), <- Em. }
    destruct (buf_after r x Hr Ha) as (D & M & _), (buf_after r' x Hr' Ha') as (D' & M' & _).
    split; congruence.
  - intros r x y Hr. rewrite (buf_accepts r (x ++ y)), length_app by done.
    destruct (accepts r x) eqn:Ha; simpl.
    + destruct (buf_after r x Hr Ha) as (D & M & Hok). rewrite buf_accepts by done. rewrite M. f_equal.
      unfold len. rewrite D, length_app. lia.
    + rewrite buf_accepts in Ha by done. breflect. apply Z.leb_gt. lia.
  - intros r x y Hr Ha. assert (accepts r x = true /\ accepts (after r x) y = true) as [Hx Hy].
    { destruct (accepts r x) eqn:Hx.
      - split; [done|]. destruct (buf_after r x Hr Hx) as (D & M & Hok). rewrite buf_accepts in * by done.
        breflect. apply Z.leb_le. rewrite M. unfold len in *. rewrite D, !length_app in *. lia.
      - rewrite buf_accepts in * by done. rewrite length_app in Ha. breflect. lia. }
    destruct (buf_after r x Hr Hx) as (D & M & Hok), (buf_after _ y Hok Hy) as (D' & M' & _),
      (buf_after r (x ++ y) Hr Ha) as (D2 & M2 & _).
    split; [rewrite D2, D', D; by rewrite app_assoc|congruence].
Qed.

End BufReader.

(** ** The decoder *)

Module Chunked.

Definition KL_HTTP1_CHUNK_EXT_MAX : Z := 4096.
Definition KL_HTTP1_CHUNK_TRAILER_MAX : Z := 8192.

Inductive KlHttp1ChunkedState :=
  | KL_HTTP1_CHUNK_SIZE | KL_HTTP1_CHUNK_EXT | KL_HTTP1_CHUNK_SIZE_CR | KL_HTTP1_CHUNK_DATA
  | KL_HTTP1_CHUNK_DATA_CR | KL_HTTP1_CHUNK_TRAILER | KL_HTTP1_CHUNK_TRAILER_CR
  | KL_HTTP1_CHUNK_DONE | KL_HTTP1_CHUNK_ERROR.

#[export] Instance KlHttp1ChunkedState_eq_dec : EqDecision KlHttp1ChunkedState.
Proof. solve_decision. Defined.

Record KlHttp1ChunkedDecoder := MkDec {
  state : KlHttp1ChunkedState;
  chunk_remaining : Z;
  total_body : Z;
  size_accum : Z;
  size_digits : Z;
  trailer_cr : bool;
  meta_len : Z
}.

Definition kl_http1_chunked_init : KlHttp1ChunkedDecoder :=
  MkDec KL_HTTP1_CHUNK_SIZE 0 0 0 0 false 0.

Definition chunk_field_byte (ch : Z) : bool :=
  (ch =? c_HTAB) || ((32 <=? ch) && negb (ch =? c_DEL)).

Definition size_digit (ch : Z) : option Z :=
  if (c_0 <=? ch) && (ch <=? c_9) then Some (ch - c_0)
  else if (c_a <=? ch) && (ch <=? c_f) then Some (ch - c_a + 10)
  else if (c_A <=? ch) && (ch <=? c_F) then Some (ch - c_A + 10)
  else None.

Definition set_state (d : KlHttp1ChunkedDecoder) (s : KlHttp1ChunkedState) : KlHttp1ChunkedDecoder :=
  MkDec s (chunk_remaining d) (total_body d) (size_accum d) (size_digits d) (trailer_cr d) (meta_len d).
Definition set_meta (d : KlHttp1ChunkedDecoder) (m : Z) : KlHttp1ChunkedDecoder :=
  MkDec (state d) (chunk_remaining d) (total_body d) (size_accum d) (size_digits d) (trailer_cr d) m.
Definition set_tcr (d : KlHttp1ChunkedDecoder) (b : bool) : KlHttp1ChunkedDecoder :=
  MkDec (state d) (chunk_remaining d) (total_body d) (size_accum d) (size_digits d) b (meta_len d).

Section decode.
  Context {R : Type} `{BR : BodyReader R}.

(** One iteration of the [while] loop: either it goes on with the bytes left, or it returns. *)
Inductive step_result :=
  | Cont (d : KlHttp1ChunkedDecoder) (rest : list Z) (r : option R)
  | Ret (rc : Z) (d : KlHttp1ChunkedDecoder) (r : option R).

Definition fail (d : KlHttp1ChunkedDecoder) (r : option R) : step_result :=
  Ret (-1) (set_state d KL_HTTP1_CHUNK_ERROR) r.

(** [reader->on_data], skipped for a NULL reader or an empty span: acceptance and new reader. *)
Definition forward_to (r : option R) (x : list Z) : bool * option R :=
  match r with
  | Some rd => if (0 <? length x)%nat then (accepts rd x, Some (after rd x)) else (true, r)
  | None => (true, None)
  end.

Definition step_size (d : KlHttp1ChunkedDecoder) (ch : Z) (rest : list Z) (r : option R) : step_result :=
  match size_digit ch with
  | Some digit =>
      if 16 <=? size_digits d then fail d r
      else if SIZE_MAX / 16 <? size_accum d then fail d r
      else Cont (MkDec (state d) (chunk_remaining d) (total_body d)
                   (u64 (Z.lor (u64 (Z.shiftl (size_accum d) 4)) digit)) (size_digits d + 1)
                   (trailer_cr d) (meta_len d)) rest r
  | None =>
      if ch =? c_semi then
        if size_digits d =? 0 then fail d r
        else Cont (set_meta (set_state d KL_HTTP1_CHUNK_EXT) 0) rest r
      else if ch =? c_CR then
        if size_digits d =? 0 then fail d r
        else Cont (set_state d KL_HTTP1_CHUNK_SIZE_CR) rest r
      else fail d r
  end.

Definition step_ext (d : KlHttp1ChunkedDecoder) (ch : Z) (rest : list Z) (r : option R) : step_result :=
  if ch =? c_CR then Cont (set_state d KL_HTTP1_CHUNK_SIZE_CR) rest r
  else if negb (chunk_field_byte ch) then fail d r
  else
    let d1 := set_meta d (u64 (meta_len d + 1)) in
    if KL_HTTP1_CHUNK_EXT_MAX <? meta_len d1 then fail d1 r else Cont d1 rest r.

Definition step_size_cr (d : KlHttp1ChunkedDecoder) (ch : Z) (rest : list Z) (r : option R) : step_result :=
  if negb (ch =? c_LF) then fail d r
  else if size_accum d =? 0 then
    Cont (MkDec KL_HTTP1_CHUNK_TRAILER 0 (total_body d) 0 0 true 0) rest r
  else Cont (MkDec KL_HTTP1_CHUNK_DATA (size_accum d) (total_body d) 0 0 (trailer_cr d) (meta_len d)) rest r.

(** [data] is [ch :: rest], everything available. *)
Definition step_data (d : KlHttp1ChunkedDecoder) (data : list Z) (r : option R) : step_result :=
  let avail := Z.of_nat (length data) in
  let forward := if avail <? chunk_remaining d then avail else chunk_remaining d in
  let '(ok, r1) := forward_to r (take (Z.to_nat forward) data) in
  if negb ok then fail d r1
  else
    let remaining := chunk_remaining d - forward in
    let total := u64 (total_body d + forward) in
    let rest := drop (Z.to_nat forward) data in
    if remaining =? 0 then
      Cont (MkDec KL_HTTP1_CHUNK_DATA_CR 0 total (size_accum d) (size_digits d) false (meta_len d)) rest r1
    else
      Cont (MkDec (state d) remaining total (size_accum d) (size_digits d) (trailer_cr d) (meta_len d)) rest r1.

Definition step_data_cr (d : KlHttp1ChunkedDecoder) (ch : Z) (rest : list Z) (r : option R) : step_result :=
  if trailer_cr d then
    if negb (ch =? c_LF) then fail d r
    else Cont (set_state (set_tcr d false) KL_HTTP1_CHUNK_SIZE) rest r
  else if ch =? c_CR then
    match rest with
    | lf :: rest' =>
        if negb (lf =? c_LF) then fail d r
        else Cont (set_state d KL_HTTP1_CHUNK_SIZE) rest' r
    | [] => Cont (set_tcr d true) [] r
    end
  else fail d r.

Definition step_trailer (d : KlHttp1ChunkedDecoder) (ch : Z) (rest : list Z) (r : option R) : step_result :=
  let d1 := set_meta d (u64 (meta_len d + 1)) in
  if KL_HTTP1_CHUNK_TRAILER_MAX <? meta_len d1 then fail d1 r
  else if ch =? c_CR then Cont (set_state d1 KL_HTTP1_CHUNK_TRAILER_CR) rest r
  else if negb (chunk_field_byte ch) then fail d1 r
  else Cont (set_tcr d1 false) rest r.

Definition step_trailer_cr (d : KlHttp1ChunkedDecoder) (ch : Z) (rest : list Z) (r : option R) : step_result :=
  if negb (ch =? c_LF) then fail d r
  else
    let d1 := set_meta d (u64 (meta_len d + 1)) in
    if KL_HTTP1_CHUNK_TRAILER_MAX <? meta_len d1 then fail d1 r
    else if trailer_cr d then Ret 1 (set_state d1 KL_HTTP1_CHUNK_DONE) r
    else Cont (set_state (set_tcr d1 true) KL_HTTP1_CHUNK_TRAILER) rest r.

Definition decode_step (d : KlHttp1ChunkedDecoder) (ch : Z) (rest : list Z) (r : option R) : step_result :=
  match state d with
  | KL_HTTP1_CHUNK_SIZE => step_size d ch rest r
  | KL_HTTP1_CHUNK_EXT => step_ext d ch rest r
  | KL_HTTP1_CHUNK_SIZE_CR => step_size_cr d ch rest r
  | KL_HTTP1_CHUNK_DATA => step_data d (ch :: rest) r
  | KL_HTTP1_CHUNK_DATA_CR => step_data_cr d ch rest r
  | KL_HTTP1_CHUNK_TRAILER => step_trailer d ch rest r
  | KL_HTTP1_CHUNK_TRAILER_CR => step_trailer_cr d ch rest r
  | KL_HTTP1_CHUNK_DONE => Ret 1 d r
  | KL_HTTP1_CHUNK_ERROR => Ret (-1) d r
  end.

(** The [while (i < len)] loop.  [None] would be an unfinished run. *)
Fixpoint decode_loop (fuel : nat) (d : KlHttp1ChunkedDecoder) (data : list Z) (r : option R)
    : option (Z * KlHttp1ChunkedDecoder * option R) :=
  match data with
  | [] => Some ((match state d with KL_HTTP1_CHUNK_DONE => 1 | _ => 0 end), d, r)
  | ch :: rest =>
      match fuel with
      | O => None
      | S fuel' =>
          match decode_step d ch rest r with
          | Cont d' rest' r' => decode_loop fuel' d' rest' r'
          | Ret rc d' r' => Some (rc, d', r')
          end
      end
  end.

(** Every iteration consumes a byte, except the one that leaves [DATA] with nothing remaining. *)
Definition kl_http1_chunked_decode (d : KlHttp1ChunkedDecoder) (data : list Z) (r : option R)
    : option (Z * KlHttp1ChunkedDecoder * option R) :=
  decode_loop (2 * length data) d data r.

End decode.
(** ** The invariant of the decoder *)

Record wf (d : KlHttp1ChunkedDecoder) : Prop := {
  wf_digits : 0 <= size_digits d <= 16;
  wf_accum : 0 <= size_accum d < 16 ^ size_digits d;
  wf_data : state d = KL_HTTP1_CHUNK_DATA -> 0 < chunk_remaining d <= SIZE_MAX;
  wf_total : 0 <= total_body d <= SIZE_MAX;
  wf_meta : state d <> KL_HTTP1_CHUNK_ERROR -> 0 <= meta_len d <= KL_HTTP1_CHUNK_TRAILER_MAX
}.

Lemma chunked_wf_init : wf kl_http1_chunked_init.
Proof. by split. Qed.

Lemma size_digit_range ch v : size_digit ch = Some v -> 0 <= v < 16.
Proof. unfold size_digit. intros H. repeat case_if; simplify_eq; breflect; lia. Qed.

Lemma pow16_le k : 0 <= k <= 15 -> 16 ^ k <= 1152921504606846976.
Proof. intros Hk. change 1152921504606846976 with (16 ^ 15). apply Z.pow_le_mono_r; lia. Qed.

(** The accumulator of a well-formed decoder never wraps: the [SIZE_MAX / 16] test is redundant
    with the limit of sixteen digits. *)
Lemma size_accum_step d v : wf d -> size_digits d < 16 -> 0 <= v < 16 ->
  (SIZE_MAX / 16 <? size_accum d) = false /\
  u64 (Z.lor (u64 (Z.shiftl (size_accum d) 4)) v) = size_accum d * 16 + v /\
  0 <= size_accum d * 16 + v < 16 ^ (size_digits d + 1).
Proof.
  intros [Hd Ha _ _ _] Hk Hv. pose proof (pow16_le (size_digits d) ltac:(lia)) as Hp.
  change (SIZE_MAX / 16) with 1152921504606846975.
  assert (E : u64 (Z.shiftl (size_accum d) 4) = Z.shiftl (size_accum d) 4).
  { apply u64_small. rewrite Z.shiftl_mul_pow2 by lia. lia. }
  rewrite E, lor_shiftl_add by lia. change (2 ^ 4) with 16.
  rewrite Z.pow_add_r by lia. split_and!; [apply Z.ltb_ge; lia|apply u64_small; lia|lia|lia].
Qed.

(** ** The grammar of RFC 9112 section 7.1, with the limits of the code *)

Definition is_hexdigit (c : Z) : Prop := is_Some (size_digit c).
Definition size_value (v : Z) (ds : list Z) : Z := fold_left (fun v c => v * 16 + default 0 (size_digit c)) ds v.
Definition field_text (l : list Z) : Prop := Forall (fun c => chunk_field_byte c = true) l.
Definition CRLF : list Z := [c_CR; c_LF].

Definition chunk_ext (ext : list Z) : Prop :=
  ext = [] \/ exists e, ext = c_semi :: e /\ field_text e /\ Z.of_nat (length e) <= KL_HTTP1_CHUNK_EXT_MAX.

(** chunk-size [chunk-ext] CRLF: one to sixteen hexadecimal digits. *)
Inductive size_line : list Z -> Z -> Prop :=
  | SizeLine ds ext :
      (0 < length ds <= 16)%nat -> Forall is_hexdigit ds -> chunk_ext ext ->
      size_line (ds ++ ext ++ CRLF) (size_value 0 ds).

(** Non-empty lines, then the empty line. *)
Definition trailer_lines (lines : list (list Z)) : list Z := (lines ≫= fun l => l ++ CRLF) ++ CRLF.
Definition trailer (t : list Z) : Prop :=
  exists lines, Forall (fun l => l <> [] /\ field_text l) lines /\ t = trailer_lines lines /\
    Z.of_nat (length t) <= KL_HTTP1_CHUNK_TRAILER_MAX.

Inductive chunked_body : list Z -> list Z -> Prop :=
  | ChunkLast l t : size_line l 0 -> trailer t -> chunked_body (l ++ t) []
  | ChunkCons l n x raw body :
      size_line l n -> 0 < n -> Z.of_nat (length x) = n -> chunked_body raw body ->
      chunked_body (l ++ x ++ CRLF ++ raw) (x ++ body).

Lemma chunked_body_length raw body : chunked_body raw body -> (length body <= length raw)%nat.
Proof. induction 1; [simpl; lia|]. rewrite !length_app. lia. Qed.

Section decode_facts.
  Context {R : Type} `{BL : BodyReaderLaws R}.

(** The decoder a loop iteration goes on with, or returns. *)
Definition step_dec (x : step_result (R:=R)) : KlHttp1ChunkedDecoder :=
  match x with Cont d _ _ => d | Ret _ d _ => d end.

Lemma fail_wf d d' :
  wf d -> size_digits d' = size_digits d -> size_accum d' = size_accum d -> total_body d' = total_body d ->
  wf (set_state d' KL_HTTP1_CHUNK_ERROR).
Proof. intros [H1 H2 H3 H4 H5] E1 E2 E3. split; simpl; rewrite ?E1, ?E2, ?E3; done. Qed.

Lemma step_data_wf d x (r : option R) : wf d -> state d = KL_HTTP1_CHUNK_DATA -> wf (step_dec (step_data d x r)).
Proof.
  intros Hd Es. pose proof Hd as [H1 H2 H3 H4 H5]. specialize (H3 Es).
  specialize (H5 ltac:(by rewrite Es)). unfold step_data.
  destruct (forward_to r _) as [ok r1]. destruct ok; simpl; [|by apply (fail_wf d)].
  pose proof (u64_range (total_body d + (if Z.of_nat (length x) <? chunk_remaining d then Z.of_nat (length x) else chunk_remaining d))).
  rewrite Es in *.
  repeat case_if; breflect; split; simpl; try done; try lia.
Qed.

Lemma decode_step_wf d ch rest (r : option R) : wf d -> wf (step_dec (decode_step d ch rest r)).
Proof.
  intros Hd. pose proof Hd as [H1 H2 H3 H4 H5]. unfold KL_HTTP1_CHUNK_TRAILER_MAX in *.
  unfold decode_step. destruct (state d) eqn:Es; try done; specialize (H5 ltac:(done)).
  - unfold step_size. destruct (size_digit ch) as [v|] eqn:Ev.
    + destruct (Z.leb_spec 16 (size_digits d)); [by apply (fail_wf d)|].
      destruct (size_accum_step d v Hd ltac:(lia) (size_digit_range _ _ Ev)) as (-> & -> & Ha).
      split; simpl; rewrite ?Es; try done; lia.
    + repeat case_if; try (by apply (fail_wf d)); split; simpl; try done; unfold KL_HTTP1_CHUNK_TRAILER_MAX; lia.
  - unfold step_ext, KL_HTTP1_CHUNK_EXT_MAX. repeat case_if; try (by apply (fail_wf d)); breflect; simpl in *.
    + by split.
    + split; simpl; rewrite ?Es; try done. rewrite u64_small in * by lia.
      unfold KL_HTTP1_CHUNK_TRAILER_MAX. lia.
  - unfold step_size_cr. repeat case_if; try (by apply (fail_wf d)); breflect; split; simpl; try done; try lia.
    pose proof (Z.pow_le_mono_r 16 (size_digits d) 16). change (16 ^ 16) with 18446744073709551616 in *. lia.
  - by apply step_data_wf.
  - unfold step_data_cr. destruct rest; repeat case_if; try (by apply (fail_wf d));
      split; simpl; rewrite ?Es; done.
  - unfold step_trailer. repeat case_if; try (by apply (fail_wf d)); breflect; simpl in *;
      pose proof (u64_range (meta_len d + 1)); split; simpl; rewrite ?Es; try done; lia.
  - unfold step_trailer_cr. repeat case_if; try (by apply (fail_wf d)); breflect; simpl in *;
      pose proof (u64_range (meta_len d + 1)); split; simpl; rewrite ?Es; try done; lia.
Qed.

(** ** The byte machine

    The reference decoder takes one byte at a time; the code's fast path hands whole spans to the
    reader and looks one byte ahead after chunk data. *)

Definition status (d : KlHttp1ChunkedDecoder) : Z :=
  match state d with KL_HTTP1_CHUNK_DONE => 1 | _ => 0 end.

Fixpoint run (d : KlHttp1ChunkedDecoder) (data : list Z) (r : option R) : Z * KlHttp1ChunkedDecoder * option R :=
  match data with
  | [] => (status d, d, r)
  | ch :: rest =>
      match decode_step d ch [] r with
      | Cont d' _ r' => run d' rest r'
      | Ret rc d' r' => (rc, d', r')
      end
  end.

Definition oreader_eq (r r' : option R) : Prop :=
  match r, r' with Some a, Some b => reader_eq a b | None, None => True | _, _ => False end.
Definition oreader_ok (r : option R) : Prop := match r with Some a => reader_ok a | None => True end.

#[local] Instance oreader_eq_equivalence : Equivalence oreader_eq.
Proof.
  split.
  - intros [a|]; simpl; [reflexivity|done].
  - intros [a|] [b|]; simpl; try done; by symmetry.
  - intros [a|] [b|] [c|]; simpl; try done. by transitivity b.
Qed.

(** Two results a caller cannot tell apart: the same return value and, unless it is an error, the
    same decoder and equivalent readers; after an error both decoders are in the error state. *)
Definition agree (x y : Z * KlHttp1ChunkedDecoder * option R) : Prop :=
  let '(k, d, r) := x in
  let '(k', d', r') := y in
  k = k' /\
  if k <? 0 then state d = KL_HTTP1_CHUNK_ERROR /\ state d' = KL_HTTP1_CHUNK_ERROR
  else d = d' /\ oreader_eq r r'.

Lemma forward_proper r r' x : oreader_ok r -> oreader_ok r' -> oreader_eq r r' ->
  (forward_to r x).1 = (forward_to r' x).1 /\
  ((forward_to r x).1 = true -> oreader_eq (forward_to r x).2 (forward_to r' x).2 /\ oreader_ok (forward_to r x).2).
Proof.
  destruct r as [a|], r' as [b|]; simpl; try done. intros Ha Hb He. case_if; simpl; [|done].
  split; [by apply accepts_proper|]. intros Hx. split; [by apply after_proper|by apply after_ok].
Qed.

(** The decoder after [n] bytes of chunk data. *)
Definition data_after (d : KlHttp1ChunkedDecoder) (n : Z) : KlHttp1ChunkedDecoder :=
  if chunk_remaining d - n =? 0 then
    MkDec KL_HTTP1_CHUNK_DATA_CR 0 (u64 (total_body d + n)) (size_accum d) (size_digits d) false (meta_len d)
  else MkDec KL_HTTP1_CHUNK_DATA (chunk_remaining d - n) (u64 (total_body d + n)) (size_accum d) (size_digits d)
         (trailer_cr d) (meta_len d).

Lemma data_after_add d n m : 0 < n -> 0 < m -> n + m <= chunk_remaining d ->
  data_after (data_after d n) m = data_after d (n + m).
Proof.
  intros Hn Hm Hr. unfold data_after at 2. destruct (Z.eqb_spec (chunk_remaining d - n) 0); [lia|].
  unfold data_after. simpl. replace (chunk_remaining d - n - m) with (chunk_remaining d - (n + m)) by lia.
  assert (E : u64 (u64 (total_body d + n) + m) = u64 (total_body d + (n + m))).
  { unfold u64. rewrite Z.add_mod_idemp_l by lia. f_equal. lia. }
  by rewrite E.
Qed.

Lemma step_data_eq d x r : state d = KL_HTTP1_CHUNK_DATA -> 0 < Z.of_nat (length x) <= chunk_remaining d ->
  forall rest, (Z.of_nat (length x) < chunk_remaining d -> rest = []) ->
  step_data d (x ++ rest) r =
  if (forward_to r x).1 then Cont (data_after d (Z.of_nat (length x))) rest (forward_to r x).2
  else fail d (forward_to r x).2.
Proof.
  intros Es Hx rest Hrest. unfold step_data, data_after. rewrite Es.
  set (fw := if Z.of_nat (length (x ++ rest)) <? chunk_remaining d then _ else _).
  assert (Hfw : fw = Z.of_nat (length x)).
  { unfold fw. rewrite length_app. destruct (Z.ltb_spec (Z.of_nat (length x + length rest)) (chunk_remaining d)).
    - rewrite Hrest by lia. simpl. lia.
    - destruct (Z.eq_dec (Z.of_nat (length x)) (chunk_remaining d)); [lia|]. rewrite Hrest in * by lia. simpl in *. lia. }
  rewrite Hfw, Nat2Z.id, take_app_length, drop_app_length.
  destruct (forward_to r x) as [ok r1]. simpl. destruct ok; simpl; [|done]. by case_if.
Qed.

(** A span of chunk data, byte by byte, against the same span handed over at once. *)
Lemma run_data x d r1 r2 :
  state d = KL_HTTP1_CHUNK_DATA -> 0 < Z.of_nat (length x) <= chunk_remaining d ->
  oreader_ok r1 -> oreader_ok r2 -> oreader_eq r1 r2 ->
  if (forward_to r1 x).1 then
    exists r2', oreader_eq (forward_to r1 x).2 r2' /\ oreader_ok r2' /\ oreader_ok (forward_to r1 x).2 /\
      forall rest, run d (x ++ rest) r2 = run (data_after d (Z.of_nat (length x))) rest r2'
  else forall rest, exists d' r', run d (x ++ rest) r2 = (-1, d', r') /\ state d' = KL_HTTP1_CHUNK_ERROR.
Proof.
  revert d r1 r2. induction x as [|c x IH]; intros d r1 r2 Es Hl Ho1 Ho2 He; [simpl in Hl; lia|].
  assert (Hstep : forall rest, run d (c :: (x ++ rest)) r2 =
    if (forward_to r2 [c]).1 then run (data_after d 1) (x ++ rest) (forward_to r2 [c]).2
    else (-1, set_state d KL_HTTP1_CHUNK_ERROR, (forward_to r2 [c]).2)).
  { intros rest. simpl. unfold decode_step. rewrite Es.
    pose proof (step_data_eq d [c] r2 Es ltac:(simpl in *; lia) [] ltac:(done)) as Hs.
    rewrite app_nil_r in Hs. rewrite Hs. by destruct (forward_to r2 [c]).1. }
  destruct (forward_proper r1 r2 [c] Ho1 Ho2 He) as [Hacc Heq].
  assert (Happ : (forward_to r1 (c :: x)).1 = (forward_to r1 [c]).1 && (forward_to (forward_to r1 [c]).2 x).1 /\
    ((forward_to r1 (c :: x)).1 = true -> oreader_ok (forward_to r1 (c :: x)).2 /\
       oreader_eq (forward_to r1 (c :: x)).2 (forward_to (forward_to r1 [c]).2 x).2)).
  { destruct r1 as [a|]; simpl; [|done]. change (c :: x) with ([c] ++ x).
    destruct x as [|c' x]; simpl.
    - rewrite andb_true_r. split; [done|]. intros Ha. split; [by apply after_ok|reflexivity].
    - split; [by apply (accepts_app a [c] (c' :: x))|]. intros Ha.
      split; [by apply after_ok|by apply (after_app a [c] (c' :: x))]. }
  destruct Happ as [-> Happ2]. destruct (forward_to r1 [c]).1 eqn:E1; cbn [andb].
  2: { intros rest. cbn [app]. rewrite Hstep, <- Hacc. eauto. }
  destruct (Heq eq_refl) as [He1 Hok1].
  destruct (forward_proper r2 r1 [c] Ho2 Ho1 ltac:(by symmetry)) as [_ Hok2].
  destruct (Hok2 ltac:(by rewrite <- Hacc)) as [_ Hok2'].
  destruct x as [|c' x].
  { assert (Hf : forward_to (forward_to r1 [c]).2 [] = (true, (forward_to r1 [c]).2)).
    { by destruct (forward_to r1 [c]).2. }
    rewrite Hf. cbn [fst snd]. exists (forward_to r2 [c]).2.
    destruct (Happ2 ltac:(by rewrite Hf)) as [Hk3 Heq3]. rewrite Hf in Heq3. cbn [snd] in Heq3.
    split_and!; [by transitivity (forward_to r1 [c]).2|done|done|].
    intros rest. specialize (Hstep rest). rewrite <- Hacc in Hstep. exact Hstep. }
  specialize (IH (data_after d 1) (forward_to r1 [c]).2 (forward_to r2 [c]).2).
  assert (Hd1 : state (data_after d 1) = KL_HTTP1_CHUNK_DATA /\ chunk_remaining (data_after d 1) = chunk_remaining d - 1).
  { unfold data_after. simpl in Hl. destruct (Z.eqb_spec (chunk_remaining d - 1) 0); [lia|done]. }
  destruct Hd1 as [Hs1 Hr1]. rewrite Hr1 in IH.
  specialize (IH Hs1 ltac:(simpl in *; lia) Hok1 Hok2' He1).
  destruct (forward_to (forward_to r1 [c]).2 (c' :: x)).1 eqn:E2.
  - destruct IH as (r2' & Hq & Hk & Hk' & Hrun). destruct (Happ2 eq_refl) as [Hk3 Heq3].
    exists r2'. split_and!; [by transitivity (forward_to (forward_to r1 [c]).2 (c' :: x)).2|done|done|].
    intros rest. specialize (Hstep rest). rewrite <- Hacc, Hrun, data_after_add in Hstep by (simpl in *; lia).
    change ((c :: c' :: x) ++ rest) with (c :: ((c' :: x) ++ rest)). rewrite Hstep. do 2 f_equal. simpl. lia.
  - intros rest. specialize (Hstep rest). rewrite <- Hacc in Hstep.
    change ((c :: c' :: x) ++ rest) with (c :: ((c' :: x) ++ rest)). rewrite Hstep. apply IH.
Qed.

(** Outside chunk data an iteration looks at one byte and leaves the reader alone. *)
Lemma local_step d ch rest r1 r2 :
  state d <> KL_HTTP1_CHUNK_DATA -> state d <> KL_HTTP1_CHUNK_DATA_CR ->
  match decode_step d ch [] r2 with
  | Cont d' _ r' => r' = r2 /\ decode_step d ch rest r1 = Cont d' rest r1
  | Ret k d' r' => r' = r2 /\ decode_step d ch rest r1 = Ret k d' r1 /\
      (k = -1 /\ state d' = KL_HTTP1_CHUNK_ERROR \/ k = 1 /\ state d' = KL_HTTP1_CHUNK_DONE)
  end.
Proof.
  intros H1 H2. unfold decode_step. destruct (state d) eqn:E; try done;
    unfold step_size, step_ext, step_size_cr, step_trailer, step_trailer_cr, fail;
    try destruct (size_digit ch); repeat case_if; simpl; auto 6.
Qed.

Lemma agree_error d d' (r r' : option R) :
  state d = KL_HTTP1_CHUNK_ERROR -> state d' = KL_HTTP1_CHUNK_ERROR -> agree (-1, d, r) (-1, d', r').
Proof. done. Qed.

(** One iteration of the code against the byte machine on the same bytes. *)
Definition simulates (d : KlHttp1ChunkedDecoder) (ch : Z) (rest : list Z) (r2 : option R) (x : step_result (R:=R)) : Prop :=
  match x with
  | Cont d' rest' r1' =>
      exists r2', run d (ch :: rest) r2 = run d' rest' r2' /\ oreader_eq r1' r2' /\
        oreader_ok r1' /\ oreader_ok r2' /\ (length rest' <= length rest)%nat
  | Ret k d' r1' => agree (k, d', r1') (run d (ch :: rest) r2) /\ (0 <= k -> oreader_ok r1')
  end.

Section one_step.
  Context (d : KlHttp1ChunkedDecoder) (r1 r2 : option R).
  Context (Hd : wf d) (Ho1 : oreader_ok r1) (Ho2 : oreader_ok r2) (He : oreader_eq r1 r2).

Lemma simulates_data ch rest :
  state d = KL_HTTP1_CHUNK_DATA -> simulates d ch rest r2 (step_data d (ch :: rest) r1).
Proof.
  intros Es. pose proof (wf_data d Hd Es) as Hrem.
  set (n := Nat.min (length (ch :: rest)) (Z.to_nat (chunk_remaining d))).
  assert (Hcons : length (ch :: rest) = S (length rest)) by done.
  assert (Hn : (0 < n)%nat) by (unfold n; lia).
  assert (Hlt : length (take n (ch :: rest)) = n) by (rewrite length_take; lia).
  pose proof (step_data_eq d (take n (ch :: rest)) r1 Es ltac:(lia) (drop n (ch :: rest))) as Hstep.
  pose proof (run_data (take n (ch :: rest)) d r1 r2 Es ltac:(lia) Ho1 Ho2 He) as Hrun.
  rewrite take_drop in Hstep. rewrite Hstep by (intros ?; apply drop_ge; lia). clear Hstep.
  destruct (forward_to r1 (take n (ch :: rest))) as [ok r1']. cbn [fst snd] in *. destruct ok.
  - destruct Hrun as (r2' & He' & Hok2 & Hok1 & Hrun). specialize (Hrun (drop n (ch :: rest))).
    rewrite take_drop in Hrun. exists r2'. split_and!; auto. rewrite length_drop. lia.
  - destruct (Hrun (drop n (ch :: rest))) as (d' & r' & Hr & Hs'). rewrite take_drop in Hr.
    unfold fail, simulates. rewrite Hr. split; [by apply agree_error|lia].
Qed.

Lemma simulates_data_cr ch rest :
  state d = KL_HTTP1_CHUNK_DATA_CR -> simulates d ch rest r2 (step_data_cr d ch rest r1).
Proof.
  intros Es. unfold simulates. cbn [run]. unfold decode_step. rewrite Es. unfold step_data_cr.
  destruct (trailer_cr d) eqn:Et.
  { case_test; simpl; [|split; [done|lia]]. exists r2. split_and!; auto. }
  case_test; [|simpl; split; [done|lia]].
  destruct rest as [|lf rest]; [exists r2; split_and!; auto|].
  cbn [run]. unfold decode_step. simpl state. rewrite Es. unfold step_data_cr. simpl trailer_cr. cbv iota.
  case_test; simpl; [|split; [done|lia]]. exists r2. split_and!; auto.
  do 2 f_equal. destruct d; simpl in *. by subst.
Qed.

Lemma simulates_local ch rest :
  state d <> KL_HTTP1_CHUNK_DATA -> state d <> KL_HTTP1_CHUNK_DATA_CR ->
  simulates d ch rest r2 (decode_step d ch rest r1).
Proof.
  intros H1 H2. pose proof (local_step d ch rest r1 r2 H1 H2) as Hs. unfold simulates. cbn [run].
  destruct (decode_step d ch [] r2) as [d' rest' r'|k d' r'].
  - destruct Hs as [-> ->]. exists r2. split_and!; auto.
  - destruct Hs as (-> & -> & Hk). split; [|done]. destruct Hk as [[-> Hk]|[-> Hk]]; split; [done|by split|done|by split].
Qed.

Lemma simulates_step ch rest : simulates d ch rest r2 (decode_step d ch rest r1).
Proof.
  unfold decode_step. destruct (state d) eqn:Es;
    try (by apply simulates_data); try (by apply simulates_data_cr);
    pose proof (simulates_local ch rest) as Hs; unfold decode_step in Hs; rewrite Es in Hs; by apply Hs.
Qed.
End one_step.

(** What [decode_loop] is proved to return. *)
Definition loop_ok (o : option (Z * KlHttp1ChunkedDecoder * option R)) (y : Z * KlHttp1ChunkedDecoder * option R) : Prop :=
  exists k d r, o = Some (k, d, r) /\ agree (k, d, r) y /\ wf d /\ (0 <= k -> oreader_ok r).

Lemma loop_run fuel d data r1 r2 :
  wf d -> oreader_ok r1 -> oreader_ok r2 -> oreader_eq r1 r2 -> (length data <= fuel)%nat ->
  loop_ok (decode_loop fuel d data r1) (run d data r2).
Proof.
  revert d data r1 r2. induction fuel as [|fuel IH]; intros d data r1 r2 Hd Ho1 Ho2 He Hl.
  all: destruct data as [|ch rest];
    [exists (status d), d, r1; split_and!; auto; split; auto; unfold status; by destruct (state d)|].
  { simpl in Hl. lia. }
  cbn [decode_loop]. pose proof (decode_step_wf d ch rest r1 Hd) as Hwf. simpl in Hl.
  pose proof (simulates_step d r1 r2 Hd Ho1 Ho2 He ch rest) as Hs.
  destruct (decode_step d ch rest r1) as [d' rest' r'|k d' r']; simpl in Hwf, Hs |- *.
  - destruct Hs as (r2' & -> & He' & Hk1 & Hk2 & Hlen). apply IH; auto. lia.
  - destruct Hs as [Ha Hk]. exists k, d', r'. auto.
Qed.

Lemma step_ret_code d ch rest r k d' r' : decode_step (R:=R) d ch rest r = Ret k d' r' -> k = -1 \/ k = 1.
Proof.
  unfold decode_step, step_size, step_ext, step_size_cr, step_data, step_data_cr, step_trailer, step_trailer_cr, fail.
  intros H0. destruct (state d); try destruct (forward_to r _); try destruct (size_digit ch); destruct rest;
    repeat case_if; simplify_eq; auto.
Qed.

Lemma run_app d a b r :
  run d (a ++ b) r = let '(k, d1, r1) := run d a r in if k =? 0 then run d1 b r1 else (k, d1, r1).
Proof.
  revert d r. induction a as [|ch a IH]; intros d r; cbn [app run].
  - unfold status. destruct (state d) eqn:E; try done. simpl. destruct b as [|c b]; simpl.
    + unfold status. by rewrite E.
    + unfold decode_step. by rewrite E.
  - destruct (decode_step d ch [] r) as [d' rest' r'|k d' r'] eqn:E; [apply IH|].
    apply step_ret_code in E as [-> | ->]; done.
Qed.

Lemma forward_ok r x : oreader_ok r -> (forward_to r x).1 = true -> oreader_ok (forward_to r x).2.
Proof. destruct r as [a|]; simpl; [|done]. case_if; [|done]. intros Ha Hx. by apply after_ok. Qed.

Lemma step_reader_ok d ch rest r : oreader_ok r ->
  match decode_step d ch rest r with
  | Cont _ _ r' => oreader_ok r'
  | Ret k _ r' => 0 <= k -> oreader_ok r'
  end.
Proof.
  intros Hr. unfold decode_step, step_size, step_ext, step_size_cr, step_data, step_data_cr, step_trailer, step_trailer_cr, fail.
  destruct (state d); [destruct (size_digit ch)| | | |destruct rest| | | |];
    try (repeat case_if; done).
  match goal with |- context [forward_to r ?x] =>
    pose proof (forward_ok r x Hr) as Hf; destruct (forward_to r x) as [ok r1] end.
  simpl in Hf. destruct ok; simpl; [|lia]. destruct (_ =? 0); auto.
Qed.

Lemma run_reader_ok d data r : oreader_ok r -> 0 <= (run d data r).1.1 -> oreader_ok (run d data r).2.
Proof.
  revert d r. induction data as [|ch data IH]; intros d r Hr Hk; simpl in *; [done|].
  pose proof (step_reader_ok d ch [] r Hr) as Hs. destruct (decode_step d ch [] r); auto.
Qed.

Lemma agree_trans x y z : agree x y -> agree y z -> agree x z.
Proof.
  destruct x as [[k d] r], y as [[k' d'] r'], z as [[k2 d2] r2]. unfold agree.
  intros [-> H1] [-> H2]. split; [done|]. destruct (k2 <? 0).
  - by destruct H1, H2.
  - destruct H1 as [-> H1], H2 as [-> H2]. split; [done|]. by transitivity r'.
Qed.

Lemma agree_sym x y : agree x y -> agree y x.
Proof.
  destruct x as [[k d] r], y as [[k' d'] r']. unfold agree. intros [-> H1]. split; [done|].
  destruct (k' <? 0); [by destruct H1|]. destruct H1 as [-> H1]. split; [done|]. by symmetry.
Qed.

(** C31.  Feeding the decoder a buffer in two pieces is indistinguishable from feeding it whole, for
    every split point, every lawful body reader and every decoder state: same return value, same
    decoder, equivalent reader (after an error: the error state).  In particular a chunk boundary, a
    CRLF or a trailer that straddles two socket reads is framed exactly as if it had not. *)
Theorem decode_split_invariant (d : KlHttp1ChunkedDecoder) (a b : list Z) (r : option R)
    (Hd : wf d) (Hr : oreader_ok r) :
  exists whole, kl_http1_chunked_decode d (a ++ b) r = Some whole /\
  exists k1 d1 r1, kl_http1_chunked_decode d a r = Some (k1, d1, r1) /\
    (k1 <> 0 -> agree whole (k1, d1, r1)) /\
    (k1 = 0 -> exists second, kl_http1_chunked_decode d1 b r1 = Some second /\ agree whole second).
Proof.
  unfold kl_http1_chunked_decode.
  pose proof (reflexivity r : oreader_eq r r) as He.
  destruct (loop_run (2 * length (a ++ b)) d (a ++ b) r r) as (k & dk & rk & -> & Hag & _); auto; [lia|].
  exists (k, dk, rk). split; [done|]. rewrite run_app in Hag.
  destruct (loop_run (2 * length a) d a r r) as (k1 & d1 & r1 & -> & Hag1 & Hwf1 & Hok1); auto; [lia|].
  exists k1, d1, r1. split; [done|]. destruct (run d a r) as [[k' d'] r'] eqn:Er.
  assert (k' = k1) by (symmetry; apply Hag1). subst k'. split.
  - intros Hk. apply Z.eqb_neq in Hk. rewrite Hk in Hag. eapply agree_trans; [exact Hag|by apply agree_sym].
  - intros ->. simpl in Hag. destruct Hag1 as [_ [<- He1]].
    assert (Hok' : oreader_ok r').
    { pose proof (run_reader_ok d a r Hr) as Ho. rewrite Er in Ho. by apply Ho. }
    destruct (loop_run (2 * length b) d1 b r1 r') as (k2 & d2 & r2 & -> & Hag2 & _);
      [done|by apply Hok1|done|done|lia|].
    exists (k2, d2, r2). split; [done|]. eapply agree_trans; [exact Hag|by apply agree_sym].
Qed.

(** ** The grammar is accepted *)

Lemma forward_app r x y : oreader_ok r ->
  (forward_to r (x ++ y)).1 = (forward_to r x).1 && (forward_to (forward_to r x).2 y).1 /\
  ((forward_to r (x ++ y)).1 = true -> oreader_eq (forward_to r (x ++ y)).2 (forward_to (forward_to r x).2 y).2).
Proof.
  destruct r as [a|]; simpl; [|done]. intros Ha.
  destruct x as [|c x]; [simpl; split; [by case_if|reflexivity]|].
  destruct y as [|c' y]; simpl.
  - rewrite app_nil_r, andb_true_r. split; [done|reflexivity].
  - split; [by apply (accepts_app a (c :: x) (c' :: y))|by apply (after_app a (c :: x) (c' :: y))].
Qed.

Lemma field_byte_not_cr c : chunk_field_byte c = true -> c <> c_CR /\ c <> c_LF.
Proof.
  unfold chunk_field_byte. intros H0. split; intros ->; discriminate.
Qed.

Lemma run_digits ds d rest r :
  wf d -> state d = KL_HTTP1_CHUNK_SIZE -> Forall is_hexdigit ds ->
  size_digits d + Z.of_nat (length ds) <= 16 ->
  run d (ds ++ rest) r =
  run (MkDec KL_HTTP1_CHUNK_SIZE (chunk_remaining d) (total_body d) (size_value (size_accum d) ds)
         (size_digits d + Z.of_nat (length ds)) (trailer_cr d) (meta_len d)) rest r.
Proof.
  intros Hd Es Hds. revert d Hd Es. induction Hds as [|c ds [v Hv] _ IH]; intros d Hd Es Hl; simpl in *.
  { rewrite Z.add_0_r. destruct d; simpl in *. by subst. }
  pose proof (decode_step_wf d c [] r Hd) as Hwf. unfold decode_step in *. rewrite Es in *.
  unfold step_size in *. rewrite Hv in *.
  destruct (Z.leb_spec 16 (size_digits d)); [lia|].
  destruct (size_accum_step d v Hd ltac:(lia) (size_digit_range _ _ Hv)) as (E1 & E2 & _).
  rewrite E1, E2 in *. rewrite IH; [|done|done|simpl; lia]. simpl. f_equal. f_equal. lia.
Qed.

Lemma run_ext e d rest r :
  state d = KL_HTTP1_CHUNK_EXT -> field_text e -> 0 <= meta_len d ->
  meta_len d + Z.of_nat (length e) <= KL_HTTP1_CHUNK_EXT_MAX ->
  run d (e ++ rest) r = run (set_meta d (meta_len d + Z.of_nat (length e))) rest r.
Proof.
  unfold KL_HTTP1_CHUNK_EXT_MAX. intros Es He. revert d Es.
  induction He as [|c e Hc _ IH]; intros d Es Hm Hl; simpl in *.
  { rewrite Z.add_0_r. by destruct d. }
  unfold decode_step. rewrite Es. unfold step_ext, KL_HTTP1_CHUNK_EXT_MAX.
  destruct (field_byte_not_cr c Hc) as [Hcr _]. apply Z.eqb_neq in Hcr. rewrite Hcr, Hc. simpl.
  rewrite u64_small by lia. destruct (Z.ltb_spec 4096 (meta_len d + 1)); [lia|].
  rewrite IH by (simpl; auto; lia). unfold set_meta. simpl. f_equal. f_equal. lia.
Qed.

(** The decoder after a size line of value [n]. *)
Definition line_after (d : KlHttp1ChunkedDecoder) (n m : Z) : KlHttp1ChunkedDecoder :=
  if n =? 0 then MkDec KL_HTTP1_CHUNK_TRAILER 0 (total_body d) 0 0 true 0
  else MkDec KL_HTTP1_CHUNK_DATA n (total_body d) 0 0 (trailer_cr d) m.

Definition at_size (d : KlHttp1ChunkedDecoder) : Prop :=
  state d = KL_HTTP1_CHUNK_SIZE /\ size_accum d = 0 /\ size_digits d = 0.

Lemma run_crlf_line d rest r :
  state d = KL_HTTP1_CHUNK_SIZE \/ state d = KL_HTTP1_CHUNK_EXT -> 0 < size_digits d ->
  run d (CRLF ++ rest) r = run (line_after d (size_accum d) (meta_len d)) rest r.
Proof.
  intros Es Hd. cbn [CRLF app run].
  assert (decode_step d c_CR [] r = Cont (set_state d KL_HTTP1_CHUNK_SIZE_CR) [] r) as ->.
  { unfold decode_step. destruct Es as [-> | ->].
    - unfold step_size. simpl. destruct (Z.eqb_spec (size_digits d) 0); [lia|done].
    - done. }
  cbn [decode_step set_state state]. unfold step_size_cr, line_after. simpl. by destruct (size_accum d =? 0).
Qed.

Lemma run_size_line l n d rest r :
  wf d -> at_size d -> size_line l n ->
  exists m, 0 <= m <= KL_HTTP1_CHUNK_TRAILER_MAX /\ run d (l ++ rest) r = run (line_after d n m) rest r.
Proof.
  intros Hd (Es & Ea & Ek) Hl. inversion Hl as [ds ext Hds Hhex Hext]; subst l n.
  rewrite <- !app_assoc, run_digits by (auto; lia). rewrite Ea, Ek.
  assert (Hne : state d <> KL_HTTP1_CHUNK_ERROR) by congruence.
  destruct Hext as [->|(e & -> & He & Hle)].
  - exists (meta_len d). split; [by apply wf_meta|]. cbn [app].
    rewrite run_crlf_line by (simpl; auto; lia). done.
  - exists (Z.of_nat (length e)). unfold KL_HTTP1_CHUNK_TRAILER_MAX, KL_HTTP1_CHUNK_EXT_MAX in *. split; [lia|].
    cbn [app run]. unfold decode_step. simpl state. unfold step_size. simpl.
    destruct (Z.eqb_spec (0 + Z.of_nat (length ds)) 0); [lia|].
    change (c_CR :: c_LF :: rest) with (CRLF ++ rest).
    rewrite run_ext by (simpl; auto; unfold KL_HTTP1_CHUNK_EXT_MAX; lia).
    rewrite run_crlf_line by (simpl; auto; lia). done.
Qed.

Lemma run_trailer_text l d rest r :
  state d = KL_HTTP1_CHUNK_TRAILER -> field_text l -> 0 <= meta_len d ->
  meta_len d + Z.of_nat (length l) <= KL_HTTP1_CHUNK_TRAILER_MAX ->
  run d (l ++ rest) r =
  run (MkDec KL_HTTP1_CHUNK_TRAILER (chunk_remaining d) (total_body d) (size_accum d) (size_digits d)
         (match l with [] => trailer_cr d | _ => false end) (meta_len d + Z.of_nat (length l))) rest r.
Proof.
  unfold KL_HTTP1_CHUNK_TRAILER_MAX. intros Es Hl. revert d Es.
  induction Hl as [|c l Hc _ IH]; intros d Es Hm Hle; simpl in *.
  { rewrite Z.add_0_r. destruct d; simpl in *. by subst. }
  unfold decode_step. rewrite Es. unfold step_trailer, KL_HTTP1_CHUNK_TRAILER_MAX.
  destruct (field_byte_not_cr c Hc) as [Hcr _]. apply Z.eqb_neq in Hcr. simpl. rewrite u64_small by lia.
  destruct (Z.ltb_spec 8192 (meta_len d + 1)); [lia|]. rewrite Hcr, Hc. simpl.
  rewrite IH by (simpl; auto; lia). simpl. f_equal. f_equal; [by destruct l|lia].
Qed.

Lemma run_trailer_crlf d rest r :
  state d = KL_HTTP1_CHUNK_TRAILER -> 0 <= meta_len d -> meta_len d + 2 <= KL_HTTP1_CHUNK_TRAILER_MAX ->
  run d (CRLF ++ rest) r =
  let d' s := MkDec s (chunk_remaining d) (total_body d) (size_accum d) (size_digits d) true (meta_len d + 2) in
  if trailer_cr d then (1, d' KL_HTTP1_CHUNK_DONE, r) else run (d' KL_HTTP1_CHUNK_TRAILER) rest r.
Proof.
  unfold KL_HTTP1_CHUNK_TRAILER_MAX. intros Es Hm Hl. cbn [CRLF app run]. unfold decode_step at 1. rewrite Es.
  unfold step_trailer, KL_HTTP1_CHUNK_TRAILER_MAX. simpl. rewrite u64_small by lia.
  destruct (Z.ltb_spec 8192 (meta_len d + 1)); [lia|]. simpl.
  unfold decode_step. simpl. unfold step_trailer_cr, KL_HTTP1_CHUNK_TRAILER_MAX. simpl. rewrite u64_small by lia.
  destruct (Z.ltb_spec 8192 (meta_len d + 1 + 1)); [lia|].
  replace (meta_len d + 1 + 1) with (meta_len d + 2) by lia.
  destruct (trailer_cr d) eqn:Et; unfold set_state, set_tcr, set_meta; simpl; by rewrite ?Et.
Qed.

Lemma run_trailer lines d rest r :
  state d = KL_HTTP1_CHUNK_TRAILER -> trailer_cr d = true -> 0 <= meta_len d ->
  Forall (fun l => l <> [] /\ field_text l) lines ->
  meta_len d + Z.of_nat (length (trailer_lines lines)) <= KL_HTTP1_CHUNK_TRAILER_MAX ->
  exists m, run d (trailer_lines lines ++ rest) r =
    (1, MkDec KL_HTTP1_CHUNK_DONE (chunk_remaining d) (total_body d) (size_accum d) (size_digits d) true m, r).
Proof.
  intros Es Et Hm Hlines. revert d Es Et Hm.
  induction Hlines as [|l lines [Hne Hl] _ IH]; intros d Es Et Hm Hle; unfold trailer_lines in *.
  - simpl in Hle. rewrite run_trailer_crlf by (auto; lia). rewrite Et. eauto.
  - change ((l :: lines) ≫= (fun l => l ++ CRLF)) with ((l ++ CRLF) ++ (lines ≫= (fun l => l ++ CRLF))) in *.
    rewrite !length_app in Hle. simpl in Hle. rewrite <- !app_assoc.
    rewrite run_trailer_text by (auto; lia). rewrite run_trailer_crlf by (simpl; auto; lia).
    destruct l as [|c l]; [done|]. simpl trailer_cr. cbv iota zeta. rewrite app_assoc.
    edestruct (IH (MkDec KL_HTTP1_CHUNK_TRAILER (chunk_remaining d) (total_body d) (size_accum d) (size_digits d)
      true (meta_len d + Z.of_nat (length (c :: l)) + 2))) as [m Hm']; [done|done|simpl; lia|rewrite length_app; simpl in *; lia|].
    exists m. exact Hm'.
Qed.

Lemma line_after_wf d n m : wf d -> 0 <= n <= SIZE_MAX -> 0 <= m <= KL_HTTP1_CHUNK_TRAILER_MAX -> wf (line_after d n m).
Proof.
  intros [H1 H2 H3 H4 H5] Hn Hm. unfold line_after, KL_HTTP1_CHUNK_TRAILER_MAX in *.
  destruct (Z.eqb_spec n 0); split; simpl; try done; try lia; unfold KL_HTTP1_CHUNK_TRAILER_MAX; lia.
Qed.

Lemma size_value_bound v ds : 0 <= v -> Forall is_hexdigit ds ->
  0 <= size_value v ds < (v + 1) * 16 ^ Z.of_nat (length ds).
Proof.
  intros Hv Hds. revert v Hv. induction Hds as [|c ds [x Hx] _ IH]; intros v Hv; simpl; [lia|].
  pose proof (size_digit_range _ _ Hx). rewrite Hx. simpl.
  specialize (IH (v * 16 + x) ltac:(lia)). rewrite Nat2Z.inj_succ, Z.pow_succ_r by lia.
  pose proof (Z.pow_pos_nonneg 16 (Z.of_nat (length ds)) ltac:(lia) ltac:(lia)). nia.
Qed.

Lemma size_line_range l n : size_line l n -> 0 <= n <= SIZE_MAX.
Proof.
  intros Hl. inversion Hl as [ds ext Hds Hhex Hext]; subst.
  pose proof (size_value_bound 0 ds ltac:(lia) Hhex).
  pose proof (Z.pow_le_mono_r 16 (Z.of_nat (length ds)) 16 ltac:(lia) ltac:(lia)).
  change (16 ^ 16) with 18446744073709551616 in *. lia.
Qed.

(** After the last byte of a chunk, CRLF leads back to the next size line. *)
Lemma run_chunk_end d n rest r : state d = KL_HTTP1_CHUNK_DATA -> chunk_remaining d = n ->
  size_accum d = 0 -> size_digits d = 0 ->
  run (data_after d n) (CRLF ++ rest) r =
  run (MkDec KL_HTTP1_CHUNK_SIZE 0 (u64 (total_body d + n)) 0 0 false (meta_len d)) rest r.
Proof.
  intros Es En Ea Ek. unfold data_after. destruct (Z.eqb_spec (chunk_remaining d - n) 0); [|lia].
  rewrite Ea, Ek. done.
Qed.

Lemma next_size_wf d t m : wf d -> 0 <= t <= SIZE_MAX -> 0 <= m <= KL_HTTP1_CHUNK_TRAILER_MAX ->
  wf (MkDec KL_HTTP1_CHUNK_SIZE 0 t 0 0 false m).
Proof. intros Hd Ht Hm. by split. Qed.

Lemma run_complete raw body :
  chunked_body raw body -> forall d r rest,
  wf d -> at_size d -> oreader_ok r -> total_body d + Z.of_nat (length body) <= SIZE_MAX ->
  (forward_to r body).1 = true ->
  exists d' r', run d (raw ++ rest) r = (1, d', r') /\ total_body d' = total_body d + Z.of_nat (length body) /\
    oreader_eq (forward_to r body).2 r'.
Proof.
  induction 1 as [l t Hl Ht|l n x raw body Hl Hn Hx _ IH]; intros d r rest Hd Hat Hr Htot Hacc; rewrite <- !app_assoc.
  - destruct (run_size_line l 0 d (t ++ rest) r Hd Hat Hl) as (m & _ & ->).
    destruct Ht as (lines & Hlines & -> & Hle). unfold line_after. simpl.
    destruct (run_trailer lines (MkDec KL_HTTP1_CHUNK_TRAILER 0 (total_body d) 0 0 true 0) rest r) as [m' ->];
      [done|done|done|done|simpl; lia|].
    eexists _, _. split_and!; [done|simpl; lia|]. by destruct r.
  - pose proof (size_line_range _ _ Hl) as Hrange. pose proof (wf_total d Hd) as Ht0.
    rewrite length_app in Htot.
    destruct (run_size_line l n d (x ++ CRLF ++ raw ++ rest) r Hd Hat Hl) as (m & Hm & ->).
    pose proof (line_after_wf d n m Hd Hrange Hm) as Hwf. unfold line_after in *.
    destruct (Z.eqb_spec n 0); [lia|].
    set (d1 := MkDec KL_HTTP1_CHUNK_DATA n (total_body d) 0 0 (trailer_cr d) m) in *.
    destruct (forward_app r x body Hr) as [E1 E2]. rewrite Hacc in E1. symmetry in E1.
    apply andb_true_iff in E1 as [Ex Eb].
    pose proof (run_data x d1 r r ltac:(done) ltac:(simpl; lia) Hr Hr ltac:(reflexivity)) as Hrun.
    rewrite Ex in Hrun. destruct Hrun as (r2 & He2 & Hok2 & Hok1 & Hrun). rewrite Hrun.
    rewrite run_chunk_end by (auto; simpl; lia). simpl total_body. simpl meta_len.
    rewrite u64_small by lia.
    destruct (forward_proper _ _ body Hok1 Hok2 He2) as [Ep1 Ep2]. rewrite Eb in Ep1, Ep2.
    destruct (IH (MkDec KL_HTTP1_CHUNK_SIZE 0 (total_body d + Z.of_nat (length x)) 0 0 false m) r2 rest)
      as (d' & r' & -> & Htb & He'); [eapply next_size_wf; [exact Hd|lia|exact Hm]|done|done|simpl; lia|done|].
    exists d', r'. split_and!; [done|rewrite Htb, length_app; simpl; lia|].
    transitivity (forward_to (forward_to r x).2 body).2; [by apply E2|].
    transitivity (forward_to r2 body).2; [by apply Ep2|done].
Qed.

(** ** Only the grammar is accepted *)

(** [run] returns 1: the end of the body was found. *)
Definition finds_end (d : KlHttp1ChunkedDecoder) (data : list Z) (r : option R) : Prop := (run d data r).1.1 = 1.

Lemma sound_lf data d r : state d = KL_HTTP1_CHUNK_SIZE_CR -> finds_end d data r -> exists rest, data = c_LF :: rest.
Proof.
  unfold finds_end. intros Es. destruct data as [|c rest]; simpl.
  - unfold status. by rewrite Es.
  - unfold decode_step. rewrite Es. unfold step_size_cr. case_test; [subst; eauto|done].
Qed.

Lemma sound_ext data d r :
  state d = KL_HTTP1_CHUNK_EXT -> 0 <= meta_len d <= KL_HTTP1_CHUNK_EXT_MAX -> finds_end d data r ->
  exists e rest, data = e ++ CRLF ++ rest /\ field_text e /\
    meta_len d + Z.of_nat (length e) <= KL_HTTP1_CHUNK_EXT_MAX.
Proof.
  unfold KL_HTTP1_CHUNK_EXT_MAX, finds_end. revert d.
  induction data as [|c data IH]; intros d Es Hm Hf; simpl in Hf.
  { unfold status in Hf. by rewrite Es in Hf. }
  unfold decode_step in Hf. rewrite Es in Hf. unfold step_ext, KL_HTTP1_CHUNK_EXT_MAX in Hf. case_test.
  - subst. apply sound_lf in Hf as [rest ->]; [|done]. exists [], rest. split_and!; [done|constructor|simpl; lia].
  - destruct (chunk_field_byte c) eqn:Ec; simpl in Hf; [|done]. rewrite u64_small in Hf by lia.
    case_test; [done|]. apply IH in Hf as (e & rest & -> & He & Hl); [|done|simpl; lia].
    exists (c :: e), rest. split_and!; [done|by constructor|simpl in *; lia].
Qed.

Lemma sound_size data d r :
  wf d -> state d = KL_HTTP1_CHUNK_SIZE -> finds_end d data r ->
  exists ds ext rest, data = ds ++ ext ++ CRLF ++ rest /\ Forall is_hexdigit ds /\ chunk_ext ext /\
    0 < size_digits d + Z.of_nat (length ds) <= 16.
Proof.
  unfold finds_end. revert d. induction data as [|c data IH]; intros d Hd Es Hf; simpl in Hf.
  { unfold status in Hf. by rewrite Es in Hf. }
  pose proof (decode_step_wf d c [] r Hd) as Hwf. pose proof (wf_digits d Hd) as Hk.
  unfold decode_step in *. rewrite Es in *. unfold step_size in *.
  destruct (size_digit c) as [v|] eqn:Ev.
  - destruct (Z.leb_spec 16 (size_digits d)); [done|].
    destruct (size_accum_step d v Hd ltac:(lia) (size_digit_range _ _ Ev)) as (E1 & E2 & _).
    rewrite E1, E2 in *. apply IH in Hf as (ds & ext & rest & -> & Hds & Hext & Hl); [|done|done].
    exists (c :: ds), ext, rest. split_and!; [done|constructor; [by exists v|done]|done|simpl in *; lia..].
  - destruct (Z.eqb_spec c c_semi) as [->|Hsemi].
    { destruct (Z.eqb_spec (size_digits d) 0); [done|].
      apply sound_ext in Hf as (e & rest & -> & He & Hl); [|done|simpl; unfold KL_HTTP1_CHUNK_EXT_MAX; lia].
      exists [], (c_semi :: e), rest. split_and!; [done|constructor| |simpl; lia..].
      right. exists e. split_and!; [done|done|simpl in Hl; lia]. }
    destruct (Z.eqb_spec c c_CR) as [->|Hcr]; [|done]. destruct (Z.eqb_spec (size_digits d) 0); [done|].
    apply sound_lf in Hf as [rest ->]; [|done]. exists [], [], rest.
    split_and!; [done|constructor|by left|simpl; lia..].
Qed.

Lemma trailer_lines_cons l lines : trailer_lines (l :: lines) = l ++ CRLF ++ trailer_lines lines.
Proof.
  unfold trailer_lines. change ((l :: lines) ≫= (fun l => l ++ CRLF)) with ((l ++ CRLF) ++ (lines ≫= (fun l => l ++ CRLF))).
  by rewrite <- !app_assoc.
Qed.

Lemma sound_trailer_crlf data d r :
  state d = KL_HTTP1_CHUNK_TRAILER -> 0 <= meta_len d <= KL_HTTP1_CHUNK_TRAILER_MAX -> finds_end d (c_CR :: data) r ->
  exists rest, data = c_LF :: rest /\ meta_len d + 2 <= KL_HTTP1_CHUNK_TRAILER_MAX.
Proof.
  unfold finds_end, KL_HTTP1_CHUNK_TRAILER_MAX. intros Es Hm Hf. cbn [run] in Hf. unfold decode_step at 1 in Hf.
  rewrite Es in Hf. unfold step_trailer, KL_HTTP1_CHUNK_TRAILER_MAX in Hf. simpl in Hf.
  rewrite u64_small in Hf by lia. destruct (Z.ltb_spec 8192 (meta_len d + 1)); [done|]. simpl in Hf.
  destruct data as [|c data]; [done|]. simpl in Hf. unfold decode_step, step_trailer_cr in Hf. simpl in Hf.
  unfold KL_HTTP1_CHUNK_TRAILER_MAX in Hf. destruct (Z.eqb_spec c c_LF); [|done]. subst.
  exists data. split; [done|]. simpl in Hf. rewrite u64_small in Hf by lia.
  destruct (Z.ltb_spec 8192 (meta_len d + 1 + 1)); [done|]. lia.
Qed.

(** The rest of a trailer section: from the start of a line, or from inside one. *)
Lemma sound_trailer (n : nat) data d r :
  (length data <= n)%nat -> state d = KL_HTTP1_CHUNK_TRAILER -> 0 <= meta_len d <= KL_HTTP1_CHUNK_TRAILER_MAX ->
  finds_end d data r ->
  exists l lines rest,
    let text := if trailer_cr d then trailer_lines lines else l ++ CRLF ++ trailer_lines lines in
    data = text ++ rest /\ field_text l /\ Forall (fun l => l <> [] /\ field_text l) lines /\
    meta_len d + Z.of_nat (length text) <= KL_HTTP1_CHUNK_TRAILER_MAX.
Proof.
  revert data d. induction n as [|n IH]; intros data d Hn Es Hm Hf.
  all: destruct data as [|c data]; [unfold finds_end in Hf; simpl in Hf; unfold status in Hf; by rewrite Es in Hf|].
  { simpl in Hn. lia. }
  destruct (Z.eq_dec c c_CR) as [->|Hcr].
  - destruct (sound_trailer_crlf data d r Es Hm Hf) as (rest & -> & Hm2).
    unfold finds_end in Hf. change (c_CR :: c_LF :: rest) with (CRLF ++ rest) in *.
    rewrite run_trailer_crlf in Hf by (auto; lia). cbv zeta in Hf. destruct (trailer_cr d).
    + exists [], [], rest. split_and!; [done|constructor|constructor|simpl; lia].
    + apply IH in Hf as (l & lines & rest' & -> & Hl & Hls & Hle); [|simpl in *; lia|done|simpl; lia].
      simpl in Hle. exists [], lines, rest'. split_and!; [done|constructor|done|].
      simpl. rewrite length_app in *. simpl in *. lia.
  - unfold finds_end in Hf. simpl in Hf. unfold decode_step in Hf. rewrite Es in Hf.
    unfold step_trailer, KL_HTTP1_CHUNK_TRAILER_MAX in *. simpl in Hf. rewrite u64_small in Hf by lia.
    destruct (Z.ltb_spec 8192 (meta_len d + 1)); [done|]. destruct (Z.eqb_spec c c_CR); [done|].
    destruct (chunk_field_byte c) eqn:Ec; [|done]. simpl in Hf.
    apply IH in Hf as (l & lines & rest' & -> & Hl & Hls & Hle); [|simpl in *; lia|done|simpl; lia].
    simpl in Hle. assert (Hcl : field_text (c :: l)) by (by constructor).
    destruct (trailer_cr d).
    + exists [], ((c :: l) :: lines), rest'. cbv zeta. rewrite trailer_lines_cons. simpl.
      split_and!; [done|constructor|by constructor|]. rewrite length_app in *. simpl in *. lia.
    + exists (c :: l), lines, rest'. split_and!; [done|done|done|]. simpl. lia.
Qed.

Lemma sound_data data d r :
  wf d -> state d = KL_HTTP1_CHUNK_DATA -> oreader_ok r -> finds_end d data r ->
  exists x rest, data = x ++ rest /\ Z.of_nat (length x) = chunk_remaining d /\ (forward_to r x).1 = true.
Proof.
  intros Hd Es Hr Hf. pose proof (wf_data d Hd Es) as Hrem. unfold finds_end in Hf.
  set (n := Nat.min (length data) (Z.to_nat (chunk_remaining d))).
  assert (Hlt : length (take n data) = n) by (rewrite length_take; lia).
  destruct data as [|c data]; [simpl in Hf; unfold status in Hf; by rewrite Es in Hf|].
  assert (Hn : (0 < n)%nat) by (unfold n; assert (length (c :: data) = S (length data)) by done; lia).
  pose proof (run_data (take n (c :: data)) d r r Es ltac:(lia) Hr Hr ltac:(reflexivity)) as Hrun.
  destruct ((forward_to r (take n (c :: data))).1) eqn:Ea.
  - destruct Hrun as (r2 & _ & _ & _ & Hrun). specialize (Hrun (drop n (c :: data))).
    rewrite take_drop in Hrun. rewrite Hrun in Hf.
    destruct (Z.eq_dec (Z.of_nat n) (chunk_remaining d)).
    + exists (take n (c :: data)), (drop n (c :: data)). split_and!; [by rewrite take_drop|lia|done].
    + exfalso. rewrite (drop_ge _ n) in Hf by lia. simpl in Hf. unfold data_after in Hf.
      destruct (Z.eqb_spec (chunk_remaining d - Z.of_nat (length (take n (c :: data)))) 0); done.
  - exfalso. destruct (Hrun (drop n (c :: data))) as (d' & r' & He & _). rewrite take_drop in He.
    by rewrite He in Hf.
Qed.

Lemma sound_chunk_end data d r :
  state d = KL_HTTP1_CHUNK_DATA_CR -> trailer_cr d = false -> finds_end d data r -> exists rest, data = CRLF ++ rest.
Proof.
  unfold finds_end. intros Es Et Hf. destruct data as [|c data]; simpl in Hf; [unfold status in Hf; by rewrite Es in Hf|].
  unfold decode_step in Hf. rewrite Es in Hf. unfold step_data_cr in Hf. rewrite Et in Hf.
  destruct (Z.eqb_spec c c_CR); [|done]. destruct data as [|c' data]; simpl in Hf; [unfold status in Hf; simpl in Hf; by rewrite Es in Hf|].
  unfold decode_step in Hf. simpl in Hf. rewrite Es in Hf. unfold step_data_cr in Hf. simpl in Hf.
  destruct (Z.eqb_spec c' c_LF); [|done]. subst. by exists data.
Qed.

Lemma run_sound (n : nat) data d r :
  (length data <= n)%nat -> wf d -> at_size d -> oreader_ok r -> total_body d + Z.of_nat (length data) <= SIZE_MAX ->
  finds_end d data r ->
  exists raw rest body, data = raw ++ rest /\ chunked_body raw body /\ (forward_to r body).1 = true.
Proof.
  revert data d r. induction n as [|n IH]; intros data d r Hn Hd Hat Hr Htot Hf.
  { destruct data; [|simpl in Hn; lia]. destruct Hat as (Es & _). unfold finds_end, run, status in Hf. by rewrite Es in Hf. }
  destruct (sound_size data d r Hd (proj1 Hat) Hf) as (ds & ext & rest & -> & Hds & Hext & Hk).
  assert (Hl : size_line (ds ++ ext ++ CRLF) (size_value 0 ds)).
  { constructor; auto. destruct Hat as (_ & _ & Hz). lia. }
  pose proof (size_line_range _ _ Hl) as Hrange. pose proof (wf_total d Hd) as Ht0.
  unfold finds_end in Hf. rewrite !app_assoc in Hf. rewrite <- (app_assoc ds) in Hf.
  destruct (run_size_line _ _ d rest r Hd Hat Hl) as (m & Hm & Hrun). rewrite Hrun in Hf.
  pose proof (line_after_wf d _ m Hd Hrange Hm) as Hwf. unfold line_after in *.
  destruct (Z.eqb_spec (size_value 0 ds) 0) as [Ez|Hnz].
  - destruct (sound_trailer (length rest) rest (MkDec KL_HTTP1_CHUNK_TRAILER 0 (total_body d) 0 0 true 0) r)
      as (l & lines & rest' & -> & _ & Hls & Hle); [lia|done|by vm_compute|exact Hf|].
    simpl in *. exists (ds ++ ext ++ CRLF ++ trailer_lines lines), rest', [].
    split_and!; [by rewrite <- !app_assoc| |by destruct r].
    pose proof (ChunkLast (ds ++ ext ++ CRLF) (trailer_lines lines)) as Hc. rewrite <- !app_assoc in Hc.
    apply Hc; [by rewrite <- Ez|]. exists lines. auto.
  - set (d1 := MkDec KL_HTTP1_CHUNK_DATA (size_value 0 ds) (total_body d) 0 0 (trailer_cr d) m) in *.
    destruct (sound_data rest d1 r Hwf ltac:(done) Hr Hf) as (x & rest1 & -> & Hx & Ex). simpl in Hx.
    pose proof (run_data x d1 r r ltac:(done) ltac:(simpl; lia) Hr Hr ltac:(reflexivity)) as Hrd.
    rewrite Ex in Hrd. destruct Hrd as (r2 & He2 & Hok2 & Hok1 & Hrd). rewrite Hrd in Hf.
    assert (Hd2 : state (data_after d1 (Z.of_nat (length x))) = KL_HTTP1_CHUNK_DATA_CR /\
      trailer_cr (data_after d1 (Z.of_nat (length x))) = false).
    { unfold data_after. simpl. destruct (Z.eqb_spec (size_value 0 ds - Z.of_nat (length x)) 0); [done|lia]. }
    destruct (sound_chunk_end rest1 _ r2 (proj1 Hd2) (proj2 Hd2) Hf) as (rest2 & ->).
    rewrite run_chunk_end in Hf by (auto; simpl; lia). simpl in Hf.
    rewrite !length_app in Hn, Htot. rewrite u64_small in Hf by lia.
    destruct (IH rest2 (MkDec KL_HTTP1_CHUNK_SIZE 0 (total_body d + Z.of_nat (length x)) 0 0 false m) r2)
      as (raw & rest' & body & -> & Hch & Hfw);
      [simpl in *; lia|eapply next_size_wf; [exact Hd|lia|exact Hm]|done|done|simpl in *; lia|exact Hf|].
    exists ((ds ++ ext ++ CRLF) ++ x ++ CRLF ++ raw), rest', (x ++ body). split_and!.
    + by rewrite <- !app_assoc.
    + eapply ChunkCons; [exact Hl|lia|lia|done].
    + destruct (forward_app r x body Hr) as [-> _]. rewrite Ex. simpl.
      destruct (forward_proper _ _ body Hok1 Hok2 He2) as [-> _]. done.
Qed.

Lemma decode_spec (data : list Z) (r : option R)
    (Hr : oreader_ok r) (Hlen : Z.of_nat (length data) <= SIZE_MAX) :
  exists k d' r', kl_http1_chunked_decode kl_http1_chunked_init data r = Some (k, d', r') /\
    (k = 1 <-> exists raw rest body, data = raw ++ rest /\ chunked_body raw body /\ (forward_to r body).1 = true) /\
    forall raw rest body, data = raw ++ rest -> chunked_body raw body -> (forward_to r body).1 = true ->
      total_body d' = Z.of_nat (length body) /\ oreader_eq (forward_to r body).2 r'.
Proof.
  destruct (loop_run (2 * length data) kl_http1_chunked_init data r r chunked_wf_init Hr Hr ltac:(reflexivity) ltac:(lia))
    as (k & d & rr & Heq & Hag & _ & _).
  exists k, d, rr. split; [exact Heq|].
  assert (Hcomp : forall raw rest body, data = raw ++ rest -> chunked_body raw body -> (forward_to r body).1 = true ->
    k = 1 /\ total_body d = Z.of_nat (length body) /\ oreader_eq (forward_to r body).2 rr).
  { intros raw rest body -> Hc Hf.
    pose proof (chunked_body_length raw body Hc) as Hb. rewrite length_app in Hlen.
    destruct (run_complete raw body Hc kl_http1_chunked_init r rest chunked_wf_init) as (d' & r' & Hrun & Ht & He);
      [done|done|simpl; lia|done|].
    rewrite Hrun in Hag. destruct Hag as [-> [-> He']]. split_and!; [done|done|].
    transitivity r'; [done|by symmetry]. }
  split; [split|].
  - intros ->. apply (run_sound (length data) data kl_http1_chunked_init r); auto using chunked_wf_init; [done|].
    unfold finds_end. destruct (run kl_http1_chunked_init data r) as [[k' d'] r']. by destruct Hag as [<- _].
  - intros (raw & rest & body & He & Hc & Hf). by destruct (Hcomp raw rest body He Hc Hf).
  - intros raw rest body He Hc Hf. by destruct (Hcomp raw rest body He Hc Hf).
Qed.

(** C1.  The decoder implements the chunked coding of RFC 9112: started fresh on any input and any
    lawful reader it always returns, and it reports the end of the body exactly when the input
    starts with a well-formed chunked body whose bytes the reader accepts.  The bytes the reader
    has then received are that body, and [total_body] is its length.  Anything else (a bare LF, a
    control byte, a missing CRLF, more than sixteen size digits, an over-long extension or trailer)
    is never taken for a body. *)
Theorem decode_grammar (data : list Z) (r : option R)
    (Hr : oreader_ok r) (Hlen : Z.of_nat (length data) <= SIZE_MAX) :
  exists k d' r', kl_http1_chunked_decode kl_http1_chunked_init data r = Some (k, d', r') /\
    (k = 1 <-> exists raw rest body, data = raw ++ rest /\ chunked_body raw body /\ (forward_to r body).1 = true) /\
    forall raw rest body, data = raw ++ rest -> chunked_body raw body -> (forward_to r body).1 = true ->
      total_body d' = Z.of_nat (length body) /\ oreader_eq (forward_to r body).2 r'.
Proof. exact (decode_spec data r Hr Hlen). Qed.

End decode_facts.

(** A two-chunk body with an extension and a trailer. *)
Definition sample_body : list Z :=
  bytes "4;x=1" ++ CRLF ++ bytes "Wiki" ++ CRLF ++ bytes "3" ++ CRLF ++ bytes "ped" ++ CRLF ++
  bytes "0" ++ CRLF ++ bytes "T: v" ++ CRLF ++ CRLF.

Definition sample_reader : BufReader.KlHttpBufReader := BufReader.MkBuf [] 16 16.

Definition verdict (o : option (Z * KlHttp1ChunkedDecoder * option BufReader.KlHttpBufReader)) : option Z := (fun x => x.1.1) <$> o.

Lemma sample_first_part : verdict (kl_http1_chunked_decode kl_http1_chunked_init (take 8 sample_body) (Some sample_reader)) = Some 0.
Proof. by vm_compute. Qed.
Lemma sample_pipelined :
  verdict (kl_http1_chunked_decode kl_http1_chunked_init (sample_body ++ bytes "GET /") (Some sample_reader)) = Some 1.
Proof. by vm_compute. Qed.
Lemma sample_whole : verdict (kl_http1_chunked_decode kl_http1_chunked_init sample_body (Some sample_reader)) = Some 1.
Proof. by vm_compute. Qed.

Lemma sample_reader_ok : oreader_ok (Some sample_reader).
Proof. done. Qed.

Lemma decode_split_invariant_witness :
  exists k1 d1 r1, kl_http1_chunked_decode kl_http1_chunked_init (take 8 sample_body) (Some sample_reader) = Some (k1, d1, r1) /\
    k1 = 0 /\ exists second, kl_http1_chunked_decode d1 (drop 8 sample_body) r1 = Some second.
Proof.
  destruct (decode_split_invariant kl_http1_chunked_init (take 8 sample_body) (drop 8 sample_body)
    (Some sample_reader) chunked_wf_init sample_reader_ok) as (w & Hw & k1 & d1 & r1 & H1 & _ & H2).
  exists k1, d1, r1. split; [exact H1|].
  assert (k1 = 0) as E by (pose proof sample_first_part as Hv; rewrite H1 in Hv; by injection Hv).
  split; [exact E|]. destruct (H2 E) as (x & Hx & _). by exists x.
Defined.

Lemma decode_grammar_witness :
  exists d' r', kl_http1_chunked_decode kl_http1_chunked_init (sample_body ++ bytes "GET /") (Some sample_reader) = Some (1, d', r') /\
  exists raw rest body, sample_body ++ bytes "GET /" = raw ++ rest /\ chunked_body raw body.
Proof.
  destruct (decode_grammar (sample_body ++ bytes "GET /") (Some sample_reader) sample_reader_ok ltac:(by vm_compute))
    as (k & d' & r' & Heq & [Hiff _] & _).
  exists d', r'. assert (k = 1) as E by (pose proof sample_pipelined as Hv; rewrite Heq in Hv; by injection Hv).
  split; [rewrite <- E; exact Heq|]. destruct (Hiff E) as (raw & rest & body & He & Hb & _). exact (ex_intro _ raw (ex_intro _ rest (ex_intro _ body (conj He Hb)))).
Defined.

(** End to end, the decoder feeding the library's buffering reader created with a limit: the
    end of the body is reported exactly when the input starts with a well-formed chunked body no
    longer than the limit, and the buffer then holds that body and nothing else.  An over-long or
    malformed body is refused or still incomplete. *)
Lemma decode_into_buffer (data : list Z) (max : Z) (br : BufReader.KlHttpBufReader)
    (Hmax : 0 < max <= SIZE_MAX) (Hlen : Z.of_nat (length data) <= SIZE_MAX)
    (Hbr : BufReader.kl_http_body_reader_buffer true (fun _ => true) max = Some br) :
  exists k d' r', kl_http1_chunked_decode kl_http1_chunked_init data (Some br) = Some (k, d', r') /\
    (k = 1 <-> exists raw rest body, data = raw ++ rest /\ chunked_body raw body /\ Z.of_nat (length body) <= max) /\
    forall raw rest body, data = raw ++ rest -> chunked_body raw body -> Z.of_nat (length body) <= max ->
      total_body d' = Z.of_nat (length body) /\ exists br', r' = Some br' /\ BufReader.data br' = body.
Proof.
  destruct (BufReader.buffer_fresh max br Hmax Hbr) as (Hok & Hd & Hm).
  assert (Hacc : forall body, (forward_to (Some br) body).1 = (Z.of_nat (length body) <=? max)).
  { intros body. simpl. destruct body as [|c body]; [simpl; symmetry; apply Z.leb_le; lia|].
    cbn [length Nat.ltb Nat.leb fst]. rewrite BufReader.buf_accepts by done. unfold BufReader.len.
    by rewrite Hd, Hm. }
  destruct (decode_spec data (Some br) Hok Hlen) as (k & d' & r' & Heq & Hiff & Hres).
  exists k, d', r'. split; [done|]. split.
  - rewrite Hiff. split; intros (raw & rest & body & He & Hb & Hl); exists raw, rest, body; split_and!; auto;
      rewrite Hacc in *; by apply Z.leb_le.
  - intros raw rest body He Hb Hl. apply Z.leb_le in Hl. rewrite <- Hacc in Hl.
    destruct (Hres raw rest body He Hb Hl) as [Ht Hr]. split; [done|].
    destruct r' as [br'|]; [|by destruct body]. exists br'. split; [done|].
    destruct body as [|c body]; [by destruct Hr; congruence|].
    destruct (BufReader.buf_after br (c :: body) Hok Hl) as (Hda & _). destruct Hr as [Hr _].
    rewrite <- Hr. simpl. by rewrite Hda, Hd.
Qed.

End Chunked.
