(* ===== verification/Timer.v ===== *)
(** * The timer heap (src/src/timer.c, src/include/keel/timer.h, src/src/event_ctx_internal.h)

    A binary min-heap of one-shot timers in an array, ordered by deadline and then by id.  The
    clock, the allocator and the user callbacks are an environment [TimerEnv]; a callback is any
    finite program of [kl_timer_add] and [kl_timer_cancel] calls that may depend on their results
    and may look at and change the world of the environment between them. *)
From Stdlib Require Import Sorted.
From stdpp Require Import gmap.
From S2P Require Import Prelude.

Module Timer.

(** ** State *)

Record KlTimerEntry := MkTimer { deadline_ms : Z; cb : Z; user_data : Z; id : Z }.

#[global] Instance KlTimerEntry_eq_dec : EqDecision KlTimerEntry.
Proof. solve_decision. Defined.

(** The timer fields of KlEventCtx: [timers] holds the first [timer_count] slots of the array. *)
Record KlEventCtx := MkCtx { timers : list KlTimerEntry; timer_cap : Z; timer_next_id : Z }.

Definition timer_count (ctx : KlEventCtx) : Z := Z.of_nat (length (timers ctx)).

Definition KL_TIMER_INIT_CAP : Z := 8.
Definition sizeof_KlTimerEntry : Z := 32.

(** Two's-complement [int]. *)
Definition i32 (z : Z) : Z := (z + 2147483648) mod 4294967296 - 2147483648.

(** ** Heap helpers *)

Definition heap_before (a b : KlTimerEntry) : bool :=
  if negb (deadline_ms a =? deadline_ms b) then deadline_ms a <? deadline_ms b
  else id a <? id b.

Definition heap_swap (entries : list KlTimerEntry) (i j : nat) : list KlTimerEntry :=
  match entries !! i, entries !! j with
  | Some a, Some b => <[j := a]> (<[i := b]> entries)
  | _, _ => entries
  end.

Definition before_at (entries : list KlTimerEntry) (i j : nat) : bool :=
  match entries !! i, entries !! j with
  | Some a, Some b => heap_before a b
  | _, _ => false
  end.

(** The [while (idx > 0)] loop; [idx] at least halves, so [idx] steps are enough. *)
Fixpoint sift_up_loop (fuel : nat) (entries : list KlTimerEntry) (idx : nat) : list KlTimerEntry :=
  match fuel with
  | O => entries
  | S fuel' =>
      if (idx =? 0)%nat then entries
      else
        let parent := ((idx - 1) / 2)%nat in
        if negb (before_at entries idx parent) then entries
        else sift_up_loop fuel' (heap_swap entries idx parent) parent
  end.

Definition heap_sift_up (entries : list KlTimerEntry) (idx : nat) : list KlTimerEntry :=
  sift_up_loop idx entries idx.

(** One round of [heap_sift_down]: which of [idx] and its children below [count] is smallest. *)
Definition smallest_of (entries : list KlTimerEntry) (count idx : nat) : nat :=
  let smallest := idx in
  let left := (2 * idx + 1)%nat in
  let right := (2 * idx + 2)%nat in
  let smallest := if (left <? count)%nat && before_at entries left smallest then left else smallest in
  if (right <? count)%nat && before_at entries right smallest then right else smallest.

(** The [while (1)] loop; [idx] grows and stays below [count]. *)
Fixpoint sift_down_loop (fuel : nat) (entries : list KlTimerEntry) (count idx : nat) : list KlTimerEntry :=
  match fuel with
  | O => entries
  | S fuel' =>
      let smallest := smallest_of entries count idx in
      if (smallest =? idx)%nat then entries
      else sift_down_loop fuel' (heap_swap entries idx smallest) count smallest
  end.

Definition heap_sift_down (entries : list KlTimerEntry) (count idx : nat) : list KlTimerEntry :=
  sift_down_loop count entries count idx.

(** ** The environment *)

(** A program that uses the timers: it calls [kl_timer_add] and [kl_timer_cancel], goes on with
    their results, and looks at the world [W] and changes it in between. *)
Inductive cbprog (W A : Type) :=
  | CbRet (a : A)
  | CbAdd (delay_ms cb user_data : Z) (k : Z -> cbprog W A)
  | CbCancel (timer_id : Z) (k : Z -> cbprog W A)
  | CbLook (k : W -> cbprog W A)
  | CbAct (f : W -> W) (k : cbprog W A).
Arguments CbRet {W A}.
Arguments CbAdd {W A}.
Arguments CbCancel {W A}.
Arguments CbLook {W A}.
Arguments CbAct {W A}.

#[global] Instance cbprog_ret W : MRet (cbprog W) := fun A a => CbRet a.
#[global] Instance cbprog_bind W : MBind (cbprog W) := fun A B f =>
  fix bind p := match p with
  | CbRet a => f a
  | CbAdd delay_ms cb user_data k => CbAdd delay_ms cb user_data (fun r => bind (k r))
  | CbCancel timer_id k => CbCancel timer_id (fun r => bind (k r))
  | CbLook k => CbLook (fun w => bind (k w))
  | CbAct act k => CbAct act (bind k)
  end.

(** [clock] is [kl_monotonic_ms], [realloc_ok] whether [kl_realloc] delivers a block of the size,
    [callback cb ud] the code behind a KlTimerFn. *)
Class TimerEnv (W : Type) := {
  clock : W -> Z * W;
  realloc_ok : W -> Z -> bool * W;
  callback : Z -> Z -> W -> cbprog W unit * W
}.

(** What callers may observe: callbacks invoked, timers added and cancelled, in order. *)
Inductive event := Fired (e : KlTimerEntry) | Added (e : KlTimerEntry) | Cancelled (timer_id : Z).

(** ** The public operations *)

Section ops.
  Context {W : Type} `{E : TimerEnv W}.

(** Room for one more entry: the capacity afterwards, or failure. *)
Definition timer_grow (ctx : KlEventCtx) (w : W) : option Z * W :=
  if timer_cap ctx <=? timer_count ctx then
    let new_cap := if timer_cap ctx =? 0 then KL_TIMER_INIT_CAP else i32 (timer_cap ctx * 2) in
    if (new_cap <? timer_cap ctx) || (SIZE_MAX / sizeof_KlTimerEntry <? u64 new_cap) then (None, w)
    else
      let '(ok, w1) := realloc_ok w (u64 new_cap * sizeof_KlTimerEntry) in
      if ok then (Some new_cap, w1) else (None, w1)
  else (Some (timer_cap ctx), w).

Definition kl_timer_add (ctx : KlEventCtx) (delay_ms cb user_data : Z) (w : W)
    : Z * KlEventCtx * W * list event :=
  let '(cap, w1) := timer_grow ctx w in
  match cap with
  | None => (-1, ctx, w1, [])
  | Some cap =>
      let id := timer_next_id ctx in
      let '(now, w2) := clock w1 in
      let deadline := if UINT64_MAX - now <? delay_ms then UINT64_MAX else u64 (now + delay_ms) in
      let e := MkTimer deadline cb user_data id in
      (id, MkCtx (heap_sift_up (timers ctx ++ [e]) (length (timers ctx))) cap (id + 1), w2, [Added e])
  end.

(** The linear scan for an id. *)
Fixpoint scan_id (entries : list KlTimerEntry) (timer_id : Z) (i : nat) : option nat :=
  match entries with
  | [] => None
  | e :: rest => if id e =? timer_id then Some i else scan_id rest timer_id (S i)
  end.

(** The array after [timer_count--] and moving the last entry to [idx], before the heap is fixed. *)
Definition remove_at (entries : list KlTimerEntry) (idx : nat) : list KlTimerEntry :=
  let count := pred (length entries) in
  match entries !! count with
  | Some last => <[idx := last]> (take count entries)
  | None => entries
  end.

Definition kl_timer_cancel (ctx : KlEventCtx) (timer_id : Z) : Z * KlEventCtx * list event :=
  match scan_id (timers ctx) timer_id 0 with
  | None => (-1, ctx, [])
  | Some idx =>
      let count := pred (length (timers ctx)) in
      let entries :=
        if (idx <? count)%nat then
          heap_sift_down (heap_sift_up (remove_at (timers ctx) idx) idx) count idx
        else take count (timers ctx) in
      (0, MkCtx entries (timer_cap ctx) (timer_next_id ctx), [Cancelled timer_id])
  end.

Definition kl_timer_next_timeout (ctx : KlEventCtx) (max_ms : Z) (w : W) : Z * W :=
  match timers ctx with
  | [] => (max_ms, w)
  | top :: _ =>
      let '(now, w1) := clock w in
      let deadline := deadline_ms top in
      (if deadline <=? now then 0
       else
         let rem := deadline - now in
         if max_ms <? 0 then if INT_MAX <? rem then INT_MAX else rem
         else if rem <? max_ms then rem else max_ms, w1)
  end.

(** The timer calls a callback makes; a delay is converted to uint64_t by the call. *)
Fixpoint run_callback {A} (p : cbprog W A) (ctx : KlEventCtx) (w : W) : A * KlEventCtx * W * list event :=
  match p with
  | CbRet a => (a, ctx, w, [])
  | CbAdd delay c ud k =>
      let '(rc, ctx1, w1, ev) := kl_timer_add ctx (u64 delay) c ud w in
      let '(a, ctx2, w2, ev') := run_callback (k rc) ctx1 w1 in (a, ctx2, w2, ev ++ ev')
  | CbCancel timer_id k =>
      let '(rc, ctx1, ev) := kl_timer_cancel ctx timer_id in
      let '(a, ctx2, w2, ev') := run_callback (k rc) ctx1 w in (a, ctx2, w2, ev ++ ev')
  | CbLook k => run_callback (k w) ctx w
  | CbAct f k => run_callback k ctx (f w)
  end.

(** The array after the minimum is popped. *)
Definition pop_top (entries : list KlTimerEntry) : list KlTimerEntry :=
  let count := pred (length entries) in
  if (0 <? count)%nat then heap_sift_down (remove_at entries 0) count 0 else take count entries.

(** The [while] loop of [kl_timer_fire].  [None] would be an unfinished run. *)
Fixpoint fire_loop (fuel : nat) (watermark now fired : Z) (ctx : KlEventCtx) (w : W)
    : option (Z * KlEventCtx * W * list event) :=
  match timers ctx with
  | [] => Some (fired, ctx, w, [])
  | top :: _ =>
      if (deadline_ms top <=? now) && (id top <? watermark) then
        match fuel with
        | O => None
        | S fuel' =>
            let ctx1 := MkCtx (pop_top (timers ctx)) (timer_cap ctx) (timer_next_id ctx) in
            let '(p, w1) := callback (cb top) (user_data top) w in
            let '(_, ctx2, w2, ev) := run_callback p ctx1 w1 in
            let '(now', w3) := clock w2 in
            '(fired', ctx', w', ev') ← fire_loop fuel' watermark now' (fired + 1) ctx2 w3;
            Some (fired', ctx', w', Fired top :: ev ++ ev')
        end
      else Some (fired, ctx, w, [])
  end.

Definition kl_timer_fire (ctx : KlEventCtx) (w : W) : option (Z * KlEventCtx * W * list event) :=
  match timers ctx with
  | [] => Some (0, ctx, w, [])
  | _ =>
      let '(now, w1) := clock w in
      fire_loop (length (timers ctx)) (timer_next_id ctx) now 0 ctx w1
  end.

(** What holds after a program has run. *)
Definition wp {A} (p : cbprog W A) (Q : A -> KlEventCtx -> W -> Prop) (ctx : KlEventCtx) (w : W) : Prop :=
  let '(a, ctx', w', _) := run_callback p ctx w in Q a ctx' w'.

Lemma wp_bind {A B} (p : cbprog W A) (f : A -> cbprog W B) Q ctx w :
  wp p (fun a => wp (f a) Q) ctx w -> wp (p ≫= f) Q ctx w.
Proof.
  revert ctx w. unfold wp. induction p as [a|d c ud k IH|t k IH|k IH|g k IH]; intros ctx w; cbn; auto.
  - destruct (kl_timer_add ctx (u64 d) c ud w) as [[[rc ctx1] w1] ev]. specialize (IH rc ctx1 w1).
    destruct (run_callback (k rc) ctx1 w1) as [[[]]], (run_callback (mbind f (k rc)) ctx1 w1) as [[[]]].
    auto.
  - destruct (kl_timer_cancel ctx t) as [[rc ctx1] ev]. specialize (IH rc ctx1 w).
    destruct (run_callback (k rc) ctx1 w) as [[[]]], (run_callback (mbind f (k rc)) ctx1 w) as [[[]]].
    auto.
  - apply IH.
  - apply IH.
Qed.

Lemma wp_mono {A} (p : cbprog W A) (Q Q' : A -> KlEventCtx -> W -> Prop) ctx w :
  wp p Q ctx w -> (forall a ctx w, Q a ctx w -> Q' a ctx w) -> wp p Q' ctx w.
Proof. unfold wp. destruct (run_callback p ctx w) as [[[]]]. auto. Qed.

Lemma wp_add {A} d c ud (k : Z -> cbprog W A) Q ctx w rc ctx' w' ev :
  kl_timer_add ctx (u64 d) c ud w = (rc, ctx', w', ev) -> wp (k rc) Q ctx' w' -> wp (CbAdd d c ud k) Q ctx w.
Proof. unfold wp. cbn. intros ->. by destruct (run_callback (k rc) ctx' w') as [[[]]]. Qed.

Lemma wp_cancel {A} t (k : Z -> cbprog W A) Q ctx w rc ctx' ev :
  kl_timer_cancel ctx t = (rc, ctx', ev) -> wp (k rc) Q ctx' w -> wp (CbCancel t k) Q ctx w.
Proof. unfold wp. cbn. intros ->. by destruct (run_callback (k rc) ctx' w) as [[[]]]. Qed.

(** A property of the context and the world that every callback preserves is preserved by firing. *)
Definition popped (ctx : KlEventCtx) : KlEventCtx := MkCtx (pop_top (timers ctx)) (timer_cap ctx) (timer_next_id ctx).

Section fire_rule.
  Context (I : KlEventCtx -> W -> Prop).
  Context (Iclock : forall ctx w, I ctx w -> I ctx (clock w).2).
  Context (Icallback : forall top l ctx w, I ctx w -> timers ctx = top :: l ->
    let '(p, w1) := callback (cb top) (user_data top) w in wp p (fun _ => I) (popped ctx) w1).

Lemma fire_loop_rule fuel wm now fired ctx w n ctx' w' ev :
  I ctx w -> fire_loop fuel wm now fired ctx w = Some (n, ctx', w', ev) -> I ctx' w'.
Proof.
  revert now fired ctx w ev. induction fuel as [|fuel IH]; intros now fired ctx w ev HI; cbn [fire_loop].
  all: destruct (timers ctx) as [|top l] eqn:Et; [by intros [= <- <- <- <-]|].
  all: destruct (_ && _); [|by intros [= <- <- <- <-]]; try done.
  pose proof (Icallback top l ctx w HI Et) as Hcb. unfold popped in Hcb. rewrite Et in Hcb.
  destruct (callback (cb top) (user_data top) w) as [p w1]. unfold wp in Hcb.
  destruct (run_callback p _ w1) as [[[u ctx2] w2] ev2]. pose proof (Iclock _ _ Hcb) as Hc2.
  destruct (clock w2) as [now' w3]. destruct (fire_loop fuel wm now' _ ctx2 w3) as [[[[n1 c1] w4] ev3]|] eqn:E1; [|done].
  cbn. intros [= <- <- <- <-]. by eapply IH.
Qed.

Lemma fire_rule ctx w n ctx' w' ev : I ctx w -> kl_timer_fire ctx w = Some (n, ctx', w', ev) -> I ctx' w'.
Proof.
  intros HI. unfold kl_timer_fire. destruct (timers ctx) eqn:Et; [by intros [= <- <- <- <-]|].
  pose proof (Iclock _ _ HI) as Hc. destruct (clock w) as [now w1]. by apply fire_loop_rule.
Qed.

End fire_rule.

End ops.
(** ** The heap order *)

Definition heap_le (a b : KlTimerEntry) : Prop :=
  deadline_ms a < deadline_ms b \/ deadline_ms a = deadline_ms b /\ id a <= id b.

Lemma heap_before_spec a b : if heap_before a b then heap_le a b else heap_le b a.
Proof.
  unfold heap_before, heap_le. destruct (Z.eqb_spec (deadline_ms a) (deadline_ms b)); simpl.
  - destruct (Z.ltb_spec (id a) (id b)); lia.
  - destruct (Z.ltb_spec (deadline_ms a) (deadline_ms b)); lia.
Qed.

#[global] Instance heap_le_preorder : PreOrder heap_le.
Proof. unfold heap_le. split; [intros ?|intros ???]; lia. Qed.

Lemma heap_le_trans a b c : heap_le a b -> heap_le b c -> heap_le a c.
Proof. apply transitivity. Qed.

(** [p] is the array parent of [c]. *)
Definition child_of (p c : nat) : Prop := (c = 2 * p + 1 \/ c = 2 * p + 2)%nat.

Definition edge (l : list KlTimerEntry) (p c : nat) : Prop :=
  forall a b, l !! p = Some a -> l !! c = Some b -> heap_le a b.

Definition heap (l : list KlTimerEntry) : Prop := forall p c, child_of p c -> edge l p c.

(** The heap order holds away from [i], and across [i]. *)
Definition heap_around (l : list KlTimerEntry) (i : nat) : Prop :=
  (forall p c, child_of p c -> p <> i -> c <> i -> edge l p c) /\
  (forall p c, child_of p i -> child_of i c -> edge l p c).

Definition heap_but_up (l : list KlTimerEntry) (i : nat) : Prop :=
  heap_around l i /\ forall c, child_of i c -> edge l i c.
Definition heap_but_down (l : list KlTimerEntry) (i : nat) : Prop :=
  heap_around l i /\ forall p, child_of p i -> edge l p i.

Lemma parent_child i : (0 < i)%nat -> child_of ((i - 1) / 2) i.
Proof.
  intros Hi. unfold child_of. pose proof (Nat.div_mod_eq (i - 1) 2). pose proof (Nat.mod_upper_bound (i - 1) 2). lia.
Qed.

Lemma child_lt p c : child_of p c -> (p < c)%nat.
Proof. unfold child_of. lia. Qed.

Lemma parent_unique p q c : child_of p c -> child_of q c -> p = q.
Proof. unfold child_of. lia. Qed.

Lemma before_at_spec l i j a b : l !! i = Some a -> l !! j = Some b -> before_at l i j = heap_before a b.
Proof. unfold before_at. by intros -> ->. Qed.

Definition transpose (i j k : nat) : nat := if decide (k = i) then j else if decide (k = j) then i else k.

Lemma heap_swap_lookup l i j k : (i < length l)%nat -> (j < length l)%nat ->
  heap_swap l i j !! k = l !! transpose i j k.
Proof.
  intros Hi Hj. unfold heap_swap, transpose.
  destruct (lookup_lt_is_Some_2 l i Hi) as [a Ha], (lookup_lt_is_Some_2 l j Hj) as [b Hb]. rewrite Ha, Hb.
  destruct (decide (k = i)) as [->|Hki].
  - destruct (decide (i = j)) as [->|Hij].
    + rewrite list_lookup_insert_eq by (rewrite length_insert; lia). congruence.
    + rewrite list_lookup_insert_ne by done. by rewrite list_lookup_insert_eq.
  - destruct (decide (k = j)) as [->|Hkj].
    + by rewrite list_lookup_insert_eq by (rewrite length_insert; lia).
    + by rewrite !list_lookup_insert_ne by done.
Qed.

Lemma heap_swap_length l i j : length (heap_swap l i j) = length l.
Proof. unfold heap_swap. repeat case_match; rewrite ?length_insert; done. Qed.

Lemma heap_swap_perm l i j : (i < length l)%nat -> (j < length l)%nat -> heap_swap l i j ≡ₚ l.
Proof.
  intros Hi Hj. apply Permutation_inj. split; [apply heap_swap_length|]. exists (transpose i j). split.
  - intros x y. unfold transpose. repeat case_decide; congruence.
  - intros k. by apply heap_swap_lookup.
Qed.

Lemma edge_swap l i j p c : (i < length l)%nat -> (j < length l)%nat ->
  edge l (transpose i j p) (transpose i j c) -> edge (heap_swap l i j) p c.
Proof. intros Hi Hj He a b. rewrite !heap_swap_lookup by done. apply He. Qed.

Lemma heap_around_of_heap l i : heap l -> heap_around l i.
Proof.
  intros H. split; [auto|]. intros p c Hp Hc a b Ha Hb.
  destruct (lookup_lt_is_Some_2 l i) as [x Hx].
  { apply child_lt in Hc. apply lookup_lt_Some in Hb. lia. }
  transitivity x; [by apply (H p i)|by apply (H i c)].
Qed.
(** Case analysis on the positions a transposition moves. *)
Ltac transposed := unfold transpose; repeat case_decide; subst; try (unfold child_of in *; lia).

Lemma sift_up_step l i q : child_of q i -> (i < length l)%nat -> heap_around l i ->
  before_at l i q = true -> heap_but_up (heap_swap l i q) q.
Proof.
  intros Hq Hi [Hfar Hacross] Hb. pose proof (child_lt _ _ Hq) as Hlt.
  destruct (lookup_lt_is_Some_2 l i Hi) as [v Hv], (lookup_lt_is_Some_2 l q) as [x Hx]; [lia|].
  rewrite (before_at_spec _ _ _ _ _ Hv Hx) in Hb. pose proof (heap_before_spec v x) as Hle. rewrite Hb in Hle.
  assert (Hfrom : forall c y, child_of q c -> c <> i -> l !! c = Some y -> heap_le x y).
  { intros c y Hc Hci Hy. apply (Hfar q c); auto. apply child_lt in Hc. lia. }
  split; [split|].
  - intros p c Hpc Hp Hc. apply edge_swap; [done|lia|]. transposed; [by apply Hacross|by apply Hfar].
  - intros p c Hp Hc. pose proof (child_lt _ _ Hp) as Hpq. apply edge_swap; [done|lia|]. transposed.
    + apply Hfar; [done|lia|lia].
    + intros a b Ha Hb'. transitivity x; [|by eapply Hfrom].
      apply (Hfar p q); auto; lia.
  - intros c Hc. apply edge_swap; [done|lia|]. transposed.
    + intros a b. rewrite Hv, Hx. congruence.
    + intros a b. rewrite Hv. intros [= <-] Hb'. transitivity x; [done|by eapply Hfrom].
Qed.

Lemma sift_up_loop_heap fuel l i : (i <= fuel)%nat -> (i < length l)%nat -> heap_but_up l i ->
  heap (sift_up_loop fuel l i).
Proof.
  revert l i. induction fuel as [|fuel IH]; intros l i Hf Hi Hup; cbn [sift_up_loop].
  { assert (i = 0)%nat by lia. subst. destruct Hup as [[Hfar _] Hbelow]. intros p c Hpc.
    destruct (decide (p = 0)%nat) as [->|]; [auto|]. apply Hfar; auto. apply child_lt in Hpc. lia. }
  destruct (Nat.eqb_spec i 0) as [->|Hi0].
  { destruct Hup as [[Hfar _] Hbelow]. intros p c Hpc.
    destruct (decide (p = 0)%nat) as [->|]; [auto|]. apply Hfar; auto. apply child_lt in Hpc. lia. }
  assert (Hq : child_of ((i - 1) / 2) i) by (apply parent_child; lia).
  set (q := ((i - 1) / 2)%nat) in *. pose proof (child_lt _ _ Hq) as Hlt.
  destruct (before_at l i q) eqn:Hb; simpl.
  - apply IH; [lia|rewrite heap_swap_length; lia|by apply sift_up_step; [..|apply Hup|]].
  - destruct Hup as [[Hfar _] Hbelow]. intros p c Hpc.
    destruct (decide (p = i)) as [->|]; [auto|]. destruct (decide (c = i)) as [->|]; [|auto].
    rewrite (parent_unique _ _ _ Hpc Hq). intros a b Ha Hb'. rewrite (before_at_spec _ _ _ _ _ Hb' Ha) in Hb.
    pose proof (heap_before_spec b a) as H. by rewrite Hb in H.
Qed.

Lemma sift_up_loop_perm fuel l i : (i < length l)%nat -> sift_up_loop fuel l i ≡ₚ l.
Proof.
  revert l i. induction fuel as [|fuel IH]; intros l i Hi; cbn [sift_up_loop]; [done|].
  case_match; [done|]. case_match; [done|].
  assert (((i - 1) / 2 <= i - 1)%nat) by (apply Nat.Div0.div_le_upper_bound; lia).
  rewrite IH by (rewrite heap_swap_length; lia). apply heap_swap_perm; lia.
Qed.

Lemma heap_sift_up_heap l i : (i < length l)%nat -> heap_but_up l i -> heap (heap_sift_up l i).
Proof. intros. by apply sift_up_loop_heap. Qed.

(** Where only [i] is wrong, sifting up leaves at most the children of [i] to fix. *)
Lemma heap_sift_up_around l i : (i < length l)%nat -> heap_around l i -> heap_but_down (heap_sift_up l i) i.
Proof.
  intros Hi Har. unfold heap_sift_up. destruct i as [|i].
  { split; [done|]. intros p Hp. apply child_lt in Hp. lia. }
  cbn [sift_up_loop]. destruct (Nat.eqb_spec (S i) 0); [lia|].
  assert (Hq : child_of ((S i - 1) / 2) (S i)) by (apply parent_child; lia).
  set (q := ((S i - 1) / 2)%nat) in *. pose proof (child_lt _ _ Hq) as Hlt.
  destruct (before_at l (S i) q) eqn:Hb; simpl.
  - assert (Hheap : heap (sift_up_loop i (heap_swap l (S i) q) q)).
    { apply sift_up_loop_heap; [lia|rewrite heap_swap_length; lia|]. by apply sift_up_step. }
    split; [by apply heap_around_of_heap|]. intros p Hp. by apply Hheap.
  - split; [done|]. intros p Hp. rewrite (parent_unique _ _ _ Hp Hq). intros a b Ha Hb'.
    rewrite (before_at_spec _ _ _ _ _ Hb' Ha) in Hb. pose proof (heap_before_spec b a) as H. by rewrite Hb in H.
Qed.
Lemma before_at_edge l i j : before_at l i j = false -> edge l j i.
Proof.
  intros H a b Ha Hb. rewrite (before_at_spec _ _ _ _ _ Hb Ha) in H.
  pose proof (heap_before_spec b a) as Hs. by rewrite H in Hs.
Qed.

Lemma before_at_edge' l i j : before_at l i j = true -> edge l i j.
Proof.
  intros H a b Ha Hb. rewrite (before_at_spec _ _ _ _ _ Ha Hb) in H.
  pose proof (heap_before_spec a b) as Hs. by rewrite H in Hs.
Qed.

Lemma edge_outside l p c : (length l <= c)%nat -> edge l p c.
Proof. intros Hc a b _ Hb. apply lookup_lt_Some in Hb. lia. Qed.

Lemma edge_trans l i j k : (j < length l)%nat -> edge l i j -> edge l j k -> edge l i k.
Proof.
  intros Hj H1 H2 a b Ha Hb. destruct (lookup_lt_is_Some_2 l j Hj) as [x Hx].
  transitivity x; [by apply H1|by apply H2].
Qed.

Lemma smallest_of_spec l i :
  let s := smallest_of l (length l) i in
  s = i /\ (forall c, child_of i c -> edge l i c) \/
  child_of i s /\ (s < length l)%nat /\ edge l s i /\ forall c, child_of i c -> c <> s -> edge l s c.
Proof.
  unfold smallest_of.
  assert (Hl : child_of i (2 * i + 1)) by (left; lia). assert (Hr : child_of i (2 * i + 2)) by (right; lia).
  destruct (Nat.ltb_spec (2 * i + 1) (length l)) as [Hll|Hll]; cbn [andb].
  2:{ destruct (Nat.ltb_spec (2 * i + 2) (length l)) as [Hrl|Hrl]; cbn [andb]; [lia|].
      left. split; [done|]. intros c [-> | ->]; apply edge_outside; lia. }
  destruct (before_at l (2 * i + 1) i) eqn:Hb1.
  - destruct (Nat.ltb_spec (2 * i + 2) (length l)) as [Hrl|Hrl]; cbn [andb].
    + destruct (before_at l (2 * i + 2) (2 * i + 1)) eqn:Hb2; right.
      * split_and!; [done|done| |].
        -- apply (edge_trans _ _ (2 * i + 1)); [done|by apply before_at_edge'..].
        -- intros c [-> | ->] Hc; [by apply before_at_edge'|done].
      * split_and!; [done|done|by apply before_at_edge'|]. intros c [-> | ->] Hc; [done|by apply before_at_edge].
    + right. split_and!; [done|done|by apply before_at_edge'|]. intros c [-> | ->] Hc; [done|by apply edge_outside].
  - destruct (Nat.ltb_spec (2 * i + 2) (length l)) as [Hrl|Hrl]; cbn [andb].
    + destruct (before_at l (2 * i + 2) i) eqn:Hb2.
      * right. split_and!; [done|done|by apply before_at_edge'|]. intros c [-> | ->] Hc; [|done].
        apply (edge_trans _ _ i); [lia|by apply before_at_edge'|by apply before_at_edge].
      * left. split; [done|]. intros c [-> | ->]; by apply before_at_edge.
    + left. split; [done|]. intros c [-> | ->]; [by apply before_at_edge|by apply edge_outside].
Qed.

Lemma sift_down_step l i s : child_of i s -> (s < length l)%nat -> heap_but_down l i ->
  edge l s i -> (forall c, child_of i c -> c <> s -> edge l s c) -> heap_but_down (heap_swap l i s) s.
Proof.
  intros Hs Hl [[Hfar Hacross] Habove] Hle Hmin. pose proof (child_lt _ _ Hs) as Hlt.
  split; [split|].
  - intros p c Hpc Hp Hc. apply edge_swap; [lia|done|]. transposed; [by apply Hmin|by apply Hacross|by apply Hfar].
  - intros p c Hp Hc. pose proof (child_lt _ _ Hc). rewrite (parent_unique _ _ _ Hp Hs).
    apply edge_swap; [lia|done|]. transposed. apply Hfar; [done|lia|lia].
  - intros p Hp. rewrite (parent_unique _ _ _ Hp Hs). apply edge_swap; [lia|done|]. by transposed.
Qed.

Lemma sift_down_loop_heap fuel l i : (length l - i <= fuel)%nat -> (i < length l)%nat -> heap_but_down l i ->
  heap (sift_down_loop fuel l (length l) i).
Proof.
  revert l i. induction fuel as [|fuel IH]; intros l i Hf Hi Hd; cbn [sift_down_loop]; [lia|].
  destruct (smallest_of_spec l i) as [[-> Hc]|(Hs & Hl & Hle & Hmin)].
  - rewrite Nat.eqb_refl. destruct Hd as [[Hfar _] Habove]. intros p c Hpc.
    destruct (decide (p = i)) as [->|]; [auto|]. destruct (decide (c = i)) as [->|]; auto.
  - set (s := smallest_of l (length l) i) in *. pose proof (child_lt _ _ Hs).
    destruct (Nat.eqb_spec s i); [lia|]. rewrite <- (heap_swap_length l i s).
    apply IH; [rewrite heap_swap_length; lia|by rewrite heap_swap_length|by apply sift_down_step].
Qed.

Lemma sift_down_loop_perm fuel l i : (i < length l)%nat -> sift_down_loop fuel l (length l) i ≡ₚ l.
Proof.
  revert l i. induction fuel as [|fuel IH]; intros l i Hi; cbn [sift_down_loop]; [done|].
  destruct (smallest_of_spec l i) as [[-> Hc]|(Hs & Hl & Hle & Hmin)]; [by rewrite Nat.eqb_refl|].
  case_match; [done|]. rewrite <- (heap_swap_length l i (smallest_of l (length l) i)) at 2.
  rewrite IH by by rewrite heap_swap_length. by apply heap_swap_perm.
Qed.

Lemma heap_sift_down_heap l i : (i < length l)%nat -> heap_but_down l i -> heap (heap_sift_down l (length l) i).
Proof. intros. apply sift_down_loop_heap; auto; lia. Qed.

(** ** The root is the minimum *)

Lemma heap_root_le l top i e : heap l -> l !! 0%nat = Some top -> l !! i = Some e -> heap_le top e.
Proof.
  intros Hh Ht. revert e. induction i as [i IH] using lt_wf_ind. intros e He.
  destruct (decide (i = 0%nat)) as [->|Hi]; [replace e with top by congruence; reflexivity|].
  pose proof (parent_child i ltac:(lia)) as Hq. set (q := ((i - 1) / 2)%nat) in *.
  pose proof (child_lt _ _ Hq) as Hlt. pose proof (lookup_lt_Some _ _ _ He).
  destruct (lookup_lt_is_Some_2 l q) as [x Hx]; [lia|].
  transitivity x; [by apply (IH q)|by apply (Hh q i)].
Qed.

Lemma heap_min top l e : heap (top :: l) -> e ∈ top :: l -> heap_le top e.
Proof. intros Hh [i Hi]%list_elem_of_lookup. by eapply heap_root_le. Qed.
(** ** Removing an entry *)

Lemma remove_at_length l i : l <> [] -> length (remove_at l i) = pred (length l).
Proof.
  intros Hl. unfold remove_at. assert (Hn : length l <> 0%nat) by (by intros ?%nil_length_inv).
  destruct (lookup_lt_is_Some_2 l (pred (length l))) as [y ->]; [lia|].
  rewrite length_insert, length_take. lia.
Qed.

Lemma remove_at_perm (l : list KlTimerEntry) i e : l !! i = Some e -> (i < pred (length l))%nat -> l ≡ₚ e :: remove_at l i.
Proof.
  intros He Hi. unfold remove_at. set (n := pred (length l)) in *.
  destruct (lookup_lt_is_Some_2 l n) as [y Hy]; [unfold n; lia|]. rewrite Hy.
  assert (Hl : l = take n l ++ [y]).
  { rewrite (take_drop_at n l y Hy) at 1. f_equal. f_equal. apply nil_length_inv. rewrite length_drop. unfold n. lia. }
  assert (Ht : take n l !! i = Some e) by by rewrite lookup_take_lt.
  rewrite Hl at 1. rewrite (take_drop_at i (take n l) e Ht) at 1.
  rewrite insert_take_drop by (apply lookup_lt_Some in Ht; done). solve_Permutation.
Qed.

Lemma remove_at_around l i : heap l -> (i < pred (length l))%nat -> heap_around (remove_at l i) i.
Proof.
  intros Hh Hi. unfold remove_at. set (n := pred (length l)) in *.
  destruct (lookup_lt_is_Some_2 l n) as [y ->]; [unfold n; lia|].
  assert (Hat : forall k z, k <> i -> <[i := y]> (take n l) !! k = Some z -> l !! k = Some z).
  { intros k z Hk. rewrite list_lookup_insert_ne by done. intros Hz.
    apply lookup_take_Some in Hz. by destruct Hz. }
  destruct (heap_around_of_heap l i Hh) as [Hfar Hacross]. split.
  - intros p c Hpc Hp Hc a b Ha Hb. by apply (Hfar p c); auto.
  - intros p c Hp Hc a b Ha Hb. apply (Hacross p c Hp Hc); apply Hat; auto.
    + apply child_lt in Hp. lia.
    + apply child_lt in Hc. lia.
Qed.

Lemma fix_removed (l : list KlTimerEntry) i e : heap l -> l !! i = Some e -> (i < pred (length l))%nat ->
  let l' := heap_sift_down (heap_sift_up (remove_at l i) i) (pred (length l)) i in
  heap l' /\ l ≡ₚ e :: l'.
Proof.
  intros Hh He Hi. assert (Hne : l <> []) by (intros ->; simpl in Hi; lia).
  set (r := remove_at l i). assert (Hr : length r = pred (length l)) by by apply remove_at_length.
  assert (Hp : heap_sift_up r i ≡ₚ r) by (apply sift_up_loop_perm; lia).
  assert (Hlen : pred (length l) = length (heap_sift_up r i)) by (rewrite (Permutation_length Hp); lia).
  rewrite Hlen. split.
  - apply heap_sift_down_heap; [lia|]. apply heap_sift_up_around; [lia|by apply remove_at_around].
  - rewrite (remove_at_perm l i e He Hi). constructor. fold r. rewrite <- Hp at 1. symmetry. apply sift_down_loop_perm. lia.
Qed.

Lemma take_heap l n : heap l -> heap (take n l).
Proof.
  intros Hh p c Hpc a b [Ha _]%lookup_take_Some [Hb _]%lookup_take_Some. by apply (Hh p c).
Qed.

Lemma drop_last_perm (l : list KlTimerEntry) i e : l !! i = Some e -> ~ (i < pred (length l))%nat -> l ≡ₚ e :: take (pred (length l)) l.
Proof.
  intros He Hi. pose proof (lookup_lt_Some _ _ _ He).
  assert (i = pred (length l)) as -> by lia. rewrite (take_drop_at _ _ _ He) at 1.
  replace (drop (S (pred (length l))) l) with (@nil KlTimerEntry); [solve_Permutation|].
  symmetry. apply nil_length_inv. rewrite length_drop. lia.
Qed.

Lemma pop_top_spec top l : heap (top :: l) ->
  heap (pop_top (top :: l)) /\ top :: l ≡ₚ top :: pop_top (top :: l).
Proof.
  intros Hh. unfold pop_top. destruct (Nat.ltb_spec 0 (pred (length (top :: l)))) as [Hc|Hc].
  - exact (fix_removed (top :: l) 0 top Hh eq_refl Hc).
  - split; [by apply take_heap|]. apply (drop_last_perm _ 0); [done|lia].
Qed.
(** ** The invariant, and what add and cancel do to the set of pending timers *)

Record inv (ctx : KlEventCtx) : Prop := {
  inv_heap : heap (timers ctx);
  inv_ids : NoDup (id <$> timers ctx);
  inv_next : Forall (fun e => id e < timer_next_id ctx) (timers ctx);
  inv_cap : timer_count ctx <= timer_cap ctx <= INT_MAX
}.

Definition kl_timers_init : KlEventCtx := MkCtx [] 0 0.

Lemma timers_inv_init : inv kl_timers_init.
Proof. split; [intros p c _ a b Ha; by destruct p|constructor|constructor|done]. Qed.

(** The pending timers as a finite map from ids. *)
Definition by_id (l : list KlTimerEntry) : gmap Z KlTimerEntry := list_to_map ((fun e => (id e, e)) <$> l).
Definition pending (ctx : KlEventCtx) : gmap Z KlTimerEntry := by_id (timers ctx).

Lemma by_id_keys (l : list KlTimerEntry) : ((fun e => (id e, e)) <$> l).*1 = id <$> l.
Proof. by rewrite <- list_fmap_compose. Qed.

Lemma by_id_perm (l l' : list KlTimerEntry) : NoDup (id <$> l) -> l ≡ₚ l' -> by_id l = by_id l'.
Proof. intros Hn Hp. apply list_to_map_proper; [by rewrite by_id_keys|by rewrite Hp]. Qed.

Lemma by_id_lookup (l : list KlTimerEntry) i e : NoDup (id <$> l) -> by_id l !! i = Some e <-> e ∈ l /\ id e = i.
Proof.
  intros Hn. unfold by_id. rewrite <- elem_of_list_to_map by by rewrite by_id_keys.
  rewrite list_elem_of_fmap. split; [by intros (x & [= -> ->] & Hx)|intros [He <-]; eauto].
Qed.

Lemma by_id_cons e l : by_id (e :: l) = <[id e := e]> (by_id l).
Proof. done. Qed.

Lemma by_id_fresh l i : Forall (fun e => id e < i) l -> by_id l !! i = None.
Proof.
  intros Hf. apply not_elem_of_list_to_map_1. rewrite by_id_keys. intros (e & -> & He)%list_elem_of_fmap.
  rewrite Forall_forall in Hf. specialize (Hf e He). lia.
Qed.

Lemma push_around l e : heap l -> heap_but_up (l ++ [e]) (length l).
Proof.
  intros Hh.
  assert (Hat : forall k z, k <> length l -> (l ++ [e]) !! k = Some z -> l !! k = Some z).
  { intros k z Hk Hz. pose proof (lookup_lt_Some _ _ _ Hz) as Hl. rewrite length_app in Hl. simpl in Hl.
    by rewrite lookup_app_l in Hz by lia. }
  assert (Hout : forall c, child_of (length l) c -> forall p, edge (l ++ [e]) p c).
  { intros c Hc p. apply edge_outside. rewrite length_app. apply child_lt in Hc. simpl. lia. }
  split; [split|]; auto. intros p c Hpc Hp Hc a b Ha Hb. apply (Hh p c); auto.
Qed.

Section facts.
  Context {W : Type} `{E : TimerEnv W}.

Lemma timer_grow_spec ctx w : inv ctx ->
  match (timer_grow ctx w).1 with Some cap => timer_count ctx < cap <= INT_MAX | None => True end.
Proof.
  intros Hi. pose proof (inv_cap ctx Hi) as Hc. assert (0 <= timer_count ctx) by (unfold timer_count; lia).
  unfold timer_grow, KL_TIMER_INIT_CAP. destruct (Z.leb_spec (timer_cap ctx) (timer_count ctx)); simpl; [|lia].
  set (new_cap := if timer_cap ctx =? 0 then 8 else _).
  destruct (Z.ltb_spec new_cap (timer_cap ctx)); simpl; [done|]. case_if; simpl; [done|].
  destruct (realloc_ok w _) as [[] ?]; simpl; [|done]. unfold new_cap in *.
  destruct (Z.eqb_spec (timer_cap ctx) 0); [lia|]. unfold i32 in *.
  Z.to_euclidean_division_equations. lia.
Qed.

Lemma add_spec ctx delay c ud w rc ctx' w' ev :
  inv ctx -> kl_timer_add ctx delay c ud w = (rc, ctx', w', ev) ->
  (rc = -1 /\ ctx' = ctx /\ ev = [] /\ w' = (timer_grow ctx w).2) \/
  exists cap now, timer_grow ctx w = (Some cap, (timer_grow ctx w).2) /\
    clock (timer_grow ctx w).2 = (now, w') /\
    rc = timer_next_id ctx /\ timer_next_id ctx' = rc + 1 /\ inv ctx' /\
    let e := MkTimer (if UINT64_MAX - now <? delay then UINT64_MAX else u64 (now + delay)) c ud rc in
    ev = [Added e] /\ timers ctx' ≡ₚ e :: timers ctx.
Proof.
  intros Hi. pose proof (timer_grow_spec ctx w Hi) as Hg. unfold kl_timer_add.
  destruct (timer_grow ctx w) as [[cap|] w1]; simpl in *; [|by intros [= <- <- <- <-]; left].
  destruct (clock w1) as [now w2] eqn:Ec. intros [= <- <- <- <-]. right. exists cap, now. simpl.
  set (e := MkTimer _ c ud _).
  assert (Hp : heap_sift_up (timers ctx ++ [e]) (length (timers ctx)) ≡ₚ e :: timers ctx).
  { unfold heap_sift_up. rewrite sift_up_loop_perm by (rewrite length_app; simpl; lia). solve_Permutation. }
  split_and!; auto. destruct Hi as [Hh Hn Hx Hc]. split; simpl.
  - apply heap_sift_up_heap; [rewrite length_app; simpl; lia|by apply push_around].
  - rewrite Hp. simpl. constructor; [|done]. intros (x & Hid & Hin)%list_elem_of_fmap.
    rewrite Forall_forall in Hx. specialize (Hx x Hin). simpl in Hid. lia.
  - rewrite Hp. constructor; [simpl; lia|]. apply (Forall_impl _ _ _ Hx). intros x. simpl. lia.
  - unfold timer_count in *. simpl. rewrite Hp. simpl. lia.
Qed.

Lemma scan_id_spec l t i :
  match scan_id l t i with
  | Some j => exists e, (i <= j)%nat /\ l !! (j - i)%nat = Some e /\ id e = t
  | None => Forall (fun e => id e <> t) l
  end.
Proof.
  revert i. induction l as [|x l IH]; intros i; simpl; [constructor|].
  destruct (Z.eqb_spec (id x) t).
  - exists x. rewrite Nat.sub_diag. auto.
  - specialize (IH (S i)). destruct (scan_id l t (S i)) as [j|]; [|by constructor].
    destruct IH as (e & Hj & He & Hid). exists e. split; [lia|]. split; [|done].
    replace (j - i)%nat with (S (j - S i)) by lia. done.
Qed.

Lemma inv_perm_cons ctx e l : inv ctx -> timers ctx ≡ₚ e :: l -> heap l ->
  inv (MkCtx l (timer_cap ctx) (timer_next_id ctx)).
Proof.
  intros [Hh Hn Hx Hc] Hp Hl. rewrite Hp in Hn, Hx. simpl in Hn. apply NoDup_cons in Hn as [_ Hn].
  apply Forall_cons in Hx as [_ Hx]. split; simpl; auto. unfold timer_count in *. rewrite Hp in Hc. simpl in *. lia.
Qed.

Lemma cancel_spec ctx t rc ctx' ev :
  inv ctx -> kl_timer_cancel ctx t = (rc, ctx', ev) ->
  (rc = -1 /\ ctx' = ctx /\ ev = [] /\ Forall (fun e => id e <> t) (timers ctx)) \/
  (rc = 0 /\ inv ctx' /\ ev = [Cancelled t] /\ timer_next_id ctx' = timer_next_id ctx /\
    exists e, id e = t /\ timers ctx ≡ₚ e :: timers ctx').
Proof.
  intros Hi. unfold kl_timer_cancel. pose proof (scan_id_spec (timers ctx) t 0) as Hs.
  destruct (scan_id (timers ctx) t 0) as [j|]; [|by intros [= <- <- <-]; left].
  destruct Hs as (e & _ & He & Hid). rewrite Nat.sub_0_r in He. intros [= <- <- <-]. right.
  assert (Hfix : exists l, (if (j <? pred (length (timers ctx)))%nat
    then heap_sift_down (heap_sift_up (remove_at (timers ctx) j) j) (pred (length (timers ctx))) j
    else take (pred (length (timers ctx))) (timers ctx)) = l /\ heap l /\ timers ctx ≡ₚ e :: l).
  { eexists. split; [done|]. destruct (Nat.ltb_spec j (pred (length (timers ctx)))).
    - by apply fix_removed; [apply Hi|..].
    - split; [apply take_heap, Hi|]. apply (drop_last_perm _ j); [done|lia]. }
  destruct Hfix as (l & -> & Hl & Hp). split_and!; auto; [by eapply inv_perm_cons|]. by exists e.
Qed.

End facts.

(** ** Firing *)

(** The documented behaviour of the clock: it never goes back, whatever callbacks do.  [time] is a
    lower bound on every reading still to come. *)
Fixpoint timely {W A} (time : W -> Z) (p : cbprog W A) : Prop :=
  match p with
  | CbRet _ => True
  | CbAdd _ _ _ k | CbCancel _ k => forall r, timely time (k r)
  | CbLook k => forall w, timely time (k w)
  | CbAct f k => (forall w, time w <= time (f w)) /\ timely time k
  end.

Lemma timely_bind {W A B} (time : W -> Z) (p : cbprog W A) (f : A -> cbprog W B) :
  timely time p -> (forall a, timely time (f a)) -> timely time (p ≫= f).
Proof. intros Hp Hf. induction p; cbn in *; [done|..]; auto. destruct Hp. auto. Qed.

Class TimerEnvLaws (W : Type) `{TimerEnv W} := {
  time : W -> Z;
  clock_law : forall w, time w <= (clock w).1 <= time (clock w).2 /\ 0 <= (clock w).1 <= UINT64_MAX;
  realloc_law : forall w n, time w <= time (realloc_ok w n).2;
  callback_law : forall c ud w, time w <= time (callback c ud w).2 /\ timely time (callback c ud w).1
}.

Section fire_facts.
  Context {W : Type} `{E : TimerEnv W} `{L : !TimerEnvLaws W}.

Lemma grow_time ctx w : time w <= time (timer_grow ctx w).2.
Proof.
  unfold timer_grow. pose proof (realloc_law w) as Hr.
  destruct (timer_cap ctx <=? timer_count ctx); simpl; [|lia]. set (n := if timer_cap ctx =? 0 then _ else _).
  case_if; simpl; [lia|]. specialize (Hr (u64 n * sizeof_KlTimerEntry)).
  destruct (realloc_ok w _) as [[] w1]; simpl in *; lia.
Qed.

(** What the timer calls of one callback can do: old timers only disappear by being cancelled, new
    ones carry new ids and are not due before the calls were made. *)
Lemma run_callback_spec {A} (p : cbprog W A) ctx w a ctx' w' ev :
  inv ctx -> timely time p -> run_callback p ctx w = (a, ctx', w', ev) ->
  inv ctx' /\ timer_next_id ctx <= timer_next_id ctx' /\ time w <= time w' /\ (forall e, Fired e ∉ ev) /\
  (forall e, e ∈ timers ctx' -> e ∈ timers ctx \/ timer_next_id ctx <= id e /\ time w <= deadline_ms e) /\
  (forall e, e ∈ timers ctx -> e ∈ timers ctx' \/ Cancelled (id e) ∈ ev).
Proof.
  revert ctx w a ctx' w' ev. induction p as [a0|delay c ud k IH|t k IH|k IH|f k IH]; intros ctx w a ctx' w' ev Hi Ht; simpl in *.
  - intros [= <- <- <- <-]. split_and!; auto; try lia. intros e. apply not_elem_of_nil.
  - destruct (kl_timer_add ctx (u64 delay) c ud w) as [[[rc ctx1] w1] ev1] eqn:Ea.
    destruct (run_callback (k rc) ctx1 w1) as [[[b ctx2] w2] ev2] eqn:Er. intros [= <- <- <- <-].
    pose proof (grow_time ctx w) as Hg.
    destruct (add_spec ctx (u64 delay) c ud w rc ctx1 w1 ev1 Hi Ea)
      as [(-> & -> & -> & ->)|(cap & now & _ & Hclk & Hrc & Hnext & Hi1 & -> & Hp)].
    + destruct (IH (-1) ctx _ b ctx2 w2 ev2 Hi (Ht _) Er) as (H1 & H2 & H3 & H4 & H5 & H6).
      split_and!; auto; [lia|]. intros e He. destruct (H5 e He) as [|[]]; [auto|right; lia].
    + destruct (IH rc ctx1 w1 b ctx2 w2 ev2 Hi1 (Ht _) Er) as (H1 & H2 & H3 & H4 & H5 & H6).
      pose proof (clock_law (timer_grow ctx w).2) as Hc. rewrite Hclk in Hc. simpl in Hc.
      pose proof (u64_range delay) as Hd.
      split_and!; auto; [lia|lia| | |].
      * intros e [?|?]%elem_of_cons; [done|by apply (H4 e)].
      * intros e He. destruct (H5 e He) as [He1|[]]; [|right; lia].
        rewrite Hp, elem_of_cons in He1. destruct He1 as [->|]; [right; simpl|by left].
        split; [lia|]. destruct (Z.ltb_spec (UINT64_MAX - now) (u64 delay)); [lia|]. rewrite (u64_small (now + _)); lia.
      * intros e He. destruct (H6 e) as [|]; [rewrite Hp; by constructor|by left|right; by constructor].
  - destruct (kl_timer_cancel ctx t) as [[rc ctx1] ev1] eqn:Ec.
    destruct (run_callback (k rc) ctx1 w) as [[[b ctx2] w2] ev2] eqn:Er. intros [= <- <- <- <-].
    destruct (cancel_spec ctx t rc ctx1 ev1 Hi Ec) as [(-> & -> & -> & _)|(-> & Hi1 & -> & Hnext & x & Hid & Hp)].
    + by destruct (IH (-1) ctx w b ctx2 w2 ev2 Hi (Ht _) Er) as (H1 & H2 & H3 & H4 & H5 & H6).
    + destruct (IH 0 ctx1 w b ctx2 w2 ev2 Hi1 (Ht _) Er) as (H1 & H2 & H3 & H4 & H5 & H6). rewrite Hnext in *.
      split_and!; auto.
      * intros e [?|?]%elem_of_cons; [done|by apply (H4 e)].
      * intros e He. destruct (H5 e He) as [He1|]; [left; rewrite Hp; by constructor|by right].
      * intros e. rewrite Hp, elem_of_cons. intros [->|He]; [right; rewrite Hid; by left|].
        destruct (H6 e He); [by left|right; by constructor].
  - by apply IH.
  - destruct Ht as [Hf Ht]. intros Er. specialize (Hf w).
    destruct (IH ctx (f w) a ctx' w' ev Hi Ht Er) as (H1 & H2 & H3 & H4 & H5 & H6).
    split_and!; auto; [lia|]. intros e He. destruct (H5 e He) as [|[]]; [auto|right; lia].
Qed.

Definition fired_of (ev : list event) : list KlTimerEntry :=
  omap (fun x => match x with Fired e => Some e | _ => None end) ev.

Lemma fired_of_app a b : fired_of (a ++ b) = fired_of a ++ fired_of b.
Proof. apply omap_app. Qed.

Lemma fired_of_none ev : (forall e, Fired e ∉ ev) -> fired_of ev = [].
Proof.
  induction ev as [|x ev IH]; intros H; [done|]. unfold fired_of. simpl.
  destruct x as [e|e|t]; [destruct (H e); by left|..]; apply IH; intros e' He'; by apply (H e'); right.
Qed.

Definition old (watermark : Z) (l : list KlTimerEntry) : list KlTimerEntry := filter (fun e => id e < watermark) l.

Lemma old_shrinks wm l l' : NoDup (id <$> l') -> (forall e, e ∈ l' -> e ∈ l \/ wm <= id e) ->
  (length (old wm l') <= length (old wm l))%nat.
Proof.
  intros Hn Hsub. apply submseteq_length, NoDup_submseteq.
  - apply NoDup_filter. by apply NoDup_fmap_1 in Hn.
  - intros e. unfold old. rewrite !list_elem_of_filter. intros [He Hin]. split; [done|].
    destruct (Hsub e Hin); [done|lia].
Qed.

(** [ev] accounts for every timer of [ctx]: what a call of [kl_timer_fire] started at [now0] with
    watermark [wm] does. *)
Record fire_post (wm now0 : Z) (ctx ctx' : KlEventCtx) (w' : W) (ev : list event) : Prop := {
  post_inv : inv ctx';
  post_next : timer_next_id ctx <= timer_next_id ctx';
  post_sorted : StronglySorted heap_le (fired_of ev);
  post_nodup : NoDup (fired_of ev);
  post_fired : forall e, e ∈ fired_of ev ->
    e ∈ timers ctx /\ id e < wm /\ deadline_ms e <= time w' /\ e ∉ timers ctx';
  post_account : forall e, e ∈ timers ctx -> e ∈ fired_of ev \/ Cancelled (id e) ∈ ev \/ e ∈ timers ctx';
  post_left : forall e, e ∈ timers ctx' -> id e < wm -> e ∈ timers ctx /\ now0 < deadline_ms e
}.

Lemma elem_of_old wm l e : e ∈ old wm l <-> id e < wm /\ e ∈ l.
Proof. unfold old. by rewrite list_elem_of_filter. Qed.

(** The loop stops with no old timer due at [now0]. *)
Lemma fire_stop wm now now0 ctx w :
  inv ctx -> now0 <= now -> (forall e, e ∈ timers ctx -> wm <= id e -> now0 <= deadline_ms e) ->
  match timers ctx with [] => True | top :: _ => (deadline_ms top <=? now) && (id top <? wm) = false end ->
  fire_post wm now0 ctx ctx w [].
Proof.
  intros Hi Hn Hnew Hstop. split; auto; try (constructor; fail); try (lia).
  - intros e He. by apply not_elem_of_nil in He.
  - intros e He Hwm. split; [done|]. destruct (timers ctx) as [|top l] eqn:Et; [by apply not_elem_of_nil in He|].
    pose proof (inv_heap _ Hi) as Hh. rewrite Et in Hh. pose proof (heap_min _ _ _ Hh He) as Hle. unfold heap_le in Hle.
    apply andb_false_iff in Hstop as [Hs|Hs]; breflect; [lia|].
    assert (now0 <= deadline_ms top) by (apply Hnew; [by left|lia]). lia.
Qed.

Lemma fire_step wm now0 top l1 ctx ctx2 ctx' w' ev ev' :
  inv ctx -> timers ctx ≡ₚ top :: l1 -> (forall e, e ∈ timers ctx -> heap_le top e) -> id top < wm ->
  deadline_ms top <= time w' -> timer_next_id ctx <= timer_next_id ctx2 -> wm <= timer_next_id ctx ->
  (forall e, Fired e ∉ ev) ->
  (forall e, e ∈ timers ctx2 -> e ∈ l1 \/ timer_next_id ctx <= id e) ->
  (forall e, e ∈ l1 -> e ∈ timers ctx2 \/ Cancelled (id e) ∈ ev) ->
  fire_post wm now0 ctx2 ctx' w' ev' -> fire_post wm now0 ctx ctx' w' (Fired top :: ev ++ ev').
Proof.
  intros Hi Hp Hmin Htop Hdue Hnext Hwm Hev H5 H6 [P1 P2 P3 P4 P5 P6 P7].
  assert (Hfired : fired_of (Fired top :: ev ++ ev') = top :: fired_of ev').
  { change (Fired top :: ev ++ ev') with ([Fired top] ++ ev ++ ev'). rewrite !fired_of_app, (fired_of_none ev Hev). done. }
  assert (Hold : forall e, e ∈ timers ctx2 -> id e < wm -> e ∈ l1) by (intros e He ?; destruct (H5 e He); [done|lia]).
  assert (Htop1 : top ∉ l1).
  { pose proof (inv_ids _ Hi) as Hn. apply NoDup_fmap_1 in Hn. rewrite Hp in Hn. by apply NoDup_cons in Hn as [? _]. }
  assert (Hin : forall e, e ∈ l1 -> e ∈ timers ctx) by (intros e ?; rewrite Hp; by constructor).
  assert (Hf2 : forall e, e ∈ fired_of ev' -> e ∈ l1) by (intros e He; destruct (P5 e He) as (? & ? & _); auto).
  split; rewrite ?Hfired; auto; [lia| | | | |].
  - constructor; [done|]. apply Forall_forall. intros e He. auto.
  - constructor; [|done]. intros ?%Hf2. done.
  - intros e [->|He]%elem_of_cons.
    + split_and!; [rewrite Hp; by left|done|done|]. intros He. apply Htop1. destruct (P7 top He Htop); auto.
    + destruct (P5 e He) as (? & ? & ? & ?). split_and!; auto.
  - intros e. rewrite Hp, elem_of_cons. intros [->|He]; [left; by left|].
    destruct (H6 e He) as [He2|Hc]; [|right; left; right; apply elem_of_app; by left].
    destruct (P6 e He2) as [|[|]]; [left; by right|right; left; right; apply elem_of_app; by right|by right; right].
  - intros e He Hid. destruct (P7 e He Hid). auto.
Qed.

Lemma fire_loop_spec fuel wm now now0 fired ctx w :
  inv ctx -> wm <= timer_next_id ctx -> (length (old wm (timers ctx)) <= fuel)%nat ->
  now0 <= now <= time w -> (forall e, e ∈ timers ctx -> wm <= id e -> now0 <= deadline_ms e) ->
  exists ctx' w' ev,
    fire_loop fuel wm now fired ctx w = Some (fired + Z.of_nat (length (fired_of ev)), ctx', w', ev) /\
    time w <= time w' /\ fire_post wm now0 ctx ctx' w' ev.
Proof.
  revert now fired ctx w. induction fuel as [|fuel IH]; intros now fired ctx w Hi Hwm Hlen Hnow Hnew.
  all: pose proof (fire_stop wm now now0 ctx w Hi ltac:(lia) Hnew) as Hstop; cbn [fire_loop].
  all: destruct (timers ctx) as [|top l] eqn:Et;
    [exists ctx, w, []; rewrite Z.add_0_r; split_and!; auto; lia|].
  all: destruct ((deadline_ms top <=? now) && (id top <? wm)) eqn:Hgo;
    [|exists ctx, w, []; rewrite Z.add_0_r; split_and!; auto; lia].
  all: apply andb_true_iff in Hgo as [Hdue Hid]; breflect.
  { exfalso. assert (top ∈ old wm (top :: l)) as Hin by (apply elem_of_old; split; [done|by left]).
    destruct (old wm (top :: l)); [by apply not_elem_of_nil in Hin|simpl in Hlen; lia]. }
  pose proof (inv_heap _ Hi) as Hh. rewrite Et in Hh. destruct (pop_top_spec top l Hh) as [Hh1 Hp].
  set (l1 := pop_top (top :: l)) in *.
  pose proof (inv_perm_cons ctx top l1 Hi ltac:(by rewrite Et) Hh1) as Hi1.
  pose proof (callback_law (cb top) (user_data top) w) as [Hcb Htp].
  destruct (callback (cb top) (user_data top) w) as [p w1]. simpl in Hcb, Htp.
  destruct (run_callback p _ w1) as [[[u ctx2] w2] ev] eqn:Er.
  destruct (run_callback_spec p _ w1 u ctx2 w2 ev Hi1 Htp Er) as (H1 & H2 & H3 & H4 & H5 & H6). simpl in *.
  pose proof (clock_law w2) as Hclk. destruct (clock w2) as [now' w3]. simpl in Hclk.
  assert (Hlen2 : (length (old wm (timers ctx2)) <= fuel)%nat).
  { pose proof (old_shrinks wm l1 (timers ctx2) (inv_ids _ H1)) as Hs.
    assert (Hcount : length (old wm (top :: l)) = S (length (old wm l1))).
    { unfold old. rewrite Hp. by rewrite filter_cons_True. }
    assert (forall e, e ∈ timers ctx2 -> e ∈ l1 \/ wm <= id e).
    { intros e He. destruct (H5 e He) as [|[]]; [by left|right; lia]. } specialize (Hs H). lia. }
  destruct (IH now' (fired + 1) ctx2 w3 H1 ltac:(lia) Hlen2 ltac:(lia)) as (ctx' & w' & ev' & Heq & Ht & Hpost).
  { intros e He Hge. destruct (H5 e He) as [He1|[]]; [|lia]. apply Hnew; [rewrite Hp; by right|done]. }
  rewrite Heq, bind_Some_l. exists ctx', w', (Fired top :: ev ++ ev'). split; [|split; [lia|]].
  - change (Fired top :: ev ++ ev') with ([Fired top] ++ ev ++ ev'). rewrite !fired_of_app, (fired_of_none ev H4).
    cbn [app]. replace (fired_of [Fired top]) with [top] by done. rewrite length_app. do 4 f_equal. simpl length. lia.
  - eapply fire_step; [exact Hi|rewrite Et; exact Hp| |done|lia|exact H2|done|done| |exact H6|done].
    + rewrite Et. intros e He. by apply (heap_min top l).
    + intros e He. destruct (H5 e He) as [|[]]; auto.
Qed.

Lemma fire_spec ctx w : inv ctx ->
  exists ctx' w' ev, kl_timer_fire ctx w = Some (Z.of_nat (length (fired_of ev)), ctx', w', ev) /\
    fire_post (timer_next_id ctx) (clock w).1 ctx ctx' w' ev.
Proof.
  intros Hi. unfold kl_timer_fire. pose proof (clock_law w) as Hc. destruct (clock w) as [now w1] eqn:Ec. simpl in *.
  assert (Hnew : forall e, e ∈ timers ctx -> timer_next_id ctx <= id e -> now <= deadline_ms e).
  { intros e He ?. pose proof (inv_next _ Hi) as Hx. rewrite Forall_forall in Hx. specialize (Hx e He). lia. }
  destruct (timers ctx) as [|top l] eqn:Et.
  - exists ctx, w, []. split; [done|]. apply (fire_stop _ now); auto; [lia|by rewrite Et|by rewrite Et].
  - destruct (fire_loop_spec (length (timers ctx)) (timer_next_id ctx) now now 0 ctx w1) as (ctx' & w' & ev & Heq & _ & Hpost);
      auto; [lia|apply length_filter|lia|by rewrite Et|].
    rewrite Et in Heq. exists ctx', w', ev. split; [exact Heq|done].
Qed.

(** C24.  [kl_timer_fire] always returns, whatever the callbacks do with the timers, and accounts for
    every timer that was pending on entry.  It fires only timers that were pending on entry, each at
    most once, in order of deadline and then of addition, none before its deadline; a timer a
    callback adds never fires in the same call.  On return no timer pending on entry that was due on
    entry is left: it has fired, or a callback cancelled it.  The result is the number of callbacks
    invoked, and the heap invariant holds again. *)
Theorem timer_fire_spec (ctx : KlEventCtx) (w : W) (Hctx : inv ctx) :
  exists ctx' w' ev, kl_timer_fire ctx w = Some (Z.of_nat (length (fired_of ev)), ctx', w', ev) /\
    inv ctx' /\ StronglySorted heap_le (fired_of ev) /\ NoDup (fired_of ev) /\
    (forall e, e ∈ fired_of ev ->
       e ∈ timers ctx /\ id e < timer_next_id ctx /\ deadline_ms e <= time w' /\ e ∉ timers ctx') /\
    (forall e, e ∈ timers ctx -> e ∈ fired_of ev \/ Cancelled (id e) ∈ ev \/ e ∈ timers ctx') /\
    (forall e, e ∈ timers ctx -> deadline_ms e <= (clock w).1 -> e ∈ fired_of ev \/ Cancelled (id e) ∈ ev).
Proof.
  destruct (fire_spec ctx w Hctx) as (ctx' & w' & ev & Heq & [P1 P2 P3 P4 P5 P6 P7]).
  exists ctx', w', ev. split_and!; auto. intros e He Hd.
  destruct (P6 e He) as [|[|He']]; auto. pose proof (inv_next _ Hctx) as Hx. rewrite Forall_forall in Hx.
  destruct (P7 e He' (Hx e He)). lia.
Qed.

(** The contexts a program can bring about: timers added and cancelled, the next timeout asked for
    and timers fired in any order, time passing in between. *)
Inductive reachable : KlEventCtx -> W -> Prop :=
  | reach_init w : reachable kl_timers_init w
  | reach_idle ctx w w' : reachable ctx w -> reachable ctx w'
  | reach_add ctx w delay c ud rc ctx' w' ev :
      reachable ctx w -> kl_timer_add ctx delay c ud w = (rc, ctx', w', ev) -> reachable ctx' w'
  | reach_cancel ctx w t rc ctx' ev : reachable ctx w -> kl_timer_cancel ctx t = (rc, ctx', ev) -> reachable ctx' w
  | reach_timeout ctx w max_ms : reachable ctx w -> reachable ctx (kl_timer_next_timeout ctx max_ms w).2
  | reach_fire ctx w n ctx' w' ev : reachable ctx w -> kl_timer_fire ctx w = Some (n, ctx', w', ev) -> reachable ctx' w'.

Lemma reachable_inv ctx w : reachable ctx w -> inv ctx.
Proof.
  induction 1 as [w|ctx w w' _ IH|ctx w delay c ud rc ctx' w' ev _ IH Ha|ctx w t rc ctx' ev _ IH Hc|ctx w m _ IH
    |ctx w n ctx' w' ev _ IH Hf]; auto.
  - apply timers_inv_init.
  - by destruct (add_spec _ _ _ _ _ _ _ _ _ IH Ha) as [(_ & -> & _)|(cap & now & _ & _ & _ & _ & ? & _)].
  - by destruct (cancel_spec _ _ _ _ _ IH Hc) as [(_ & -> & _)|(_ & ? & _)].
  - destruct (fire_spec ctx w IH) as (ctx1 & w1 & ev1 & Heq & Hpost). rewrite Hf in Heq.
    injection Heq as -> -> -> ->. apply Hpost.
Qed.

(** In every context a program can reach, the array is a heap on (deadline, id), ids are
    distinct and below the counter (so an id is never reused), and the entries fit the capacity. *)
Lemma timer_reachable_inv (ctx : KlEventCtx) (w : W) (Hreach : reachable ctx w) :
  heap (timers ctx) /\ NoDup (id <$> timers ctx) /\ Forall (fun e => id e < timer_next_id ctx) (timers ctx) /\
  timer_count ctx <= timer_cap ctx <= INT_MAX.
Proof. destruct (reachable_inv ctx w Hreach). auto. Qed.

(** Adding and cancelling implement insertion and deletion in a finite map of pending timers.
    [kl_timer_add] either fails and changes nothing, or inserts under a fresh id an entry whose
    deadline is now + delay, saturated at UINT64_MAX instead of wrapping into the past;
    [kl_timer_cancel] deletes exactly the given id and reports -1 exactly when it is not pending. *)
Lemma timer_map_refinement (ctx : KlEventCtx) (w : W) (delay c ud t : Z)
    (Hctx : inv ctx) (Hdelay : 0 <= delay <= UINT64_MAX) :
  (let '(rc, ctx', w', _) := kl_timer_add ctx delay c ud w in
   (rc = -1 /\ ctx' = ctx) \/
   exists now, 0 <= now <= UINT64_MAX /\ time w <= now /\ inv ctx' /\ pending ctx !! rc = None /\
     pending ctx' = <[rc := MkTimer (Z.min UINT64_MAX (now + delay)) c ud rc]> (pending ctx)) /\
  (let '(rc, ctx', _) := kl_timer_cancel ctx t in
   inv ctx' /\ pending ctx' = delete t (pending ctx) /\ rc = match pending ctx !! t with Some _ => 0 | None => -1 end).
Proof.
  split.
  - destruct (kl_timer_add ctx delay c ud w) as [[[rc ctx'] w'] ev] eqn:Ea.
    destruct (add_spec _ _ _ _ _ _ _ _ _ Hctx Ea) as [(? & ? & _)|(cap & now & _ & Hclk & -> & _ & Hi & _ & Hp)]; [by left|].
    right. exists now. pose proof (clock_law (timer_grow ctx w).2) as Hc. rewrite Hclk in Hc. simpl in Hc.
    pose proof (grow_time ctx w). split_and!; auto; try lia; [by apply by_id_fresh, Hctx|].
    unfold pending. rewrite (by_id_perm _ _ (inv_ids _ Hi) Hp), by_id_cons. simpl. do 2 f_equal.
    destruct (Z.ltb_spec (UINT64_MAX - now) delay); [lia|]. rewrite u64_small; lia.
  - destruct (kl_timer_cancel ctx t) as [[rc ctx'] ev] eqn:Ec.
    destruct (cancel_spec _ _ _ _ _ Hctx Ec) as [(-> & -> & _ & Hno)|(-> & Hi & _ & _ & e & Hid & Hp)].
    + assert (pending ctx !! t = None) as Hn.
      { destruct (pending ctx !! t) as [e|] eqn:He; [|done]. apply by_id_lookup in He as [He Ht]; [|apply Hctx].
        rewrite Forall_forall in Hno. by destruct (Hno e He). }
      rewrite Hn. by rewrite delete_id.
    + unfold pending. rewrite (by_id_perm _ _ (inv_ids _ Hctx) Hp), by_id_cons, Hid, lookup_insert_eq.
      split_and!; [done| |done]. rewrite delete_insert_id; [done|].
      pose proof (inv_ids _ Hctx) as Hn. rewrite Hp in Hn. simpl in Hn. apply NoDup_cons in Hn as [Hn _].
      apply not_elem_of_list_to_map_1. rewrite by_id_keys. by rewrite <- Hid.
Qed.

(** The poll timeout never oversleeps a timer: with no timer pending it is [max_ms]; with one
    due it is 0; otherwise it is the smaller of the time to the earliest deadline and the cap
    ([max_ms], or INT_MAX when [max_ms] is negative). *)
Lemma next_timeout_spec (ctx : KlEventCtx) (w : W) (max_ms : Z) (Hctx : inv ctx) (Hmax : max_ms <= INT_MAX) :
  let now := (clock w).1 in
  let r := (kl_timer_next_timeout ctx max_ms w).1 in
  let cap := if max_ms <? 0 then INT_MAX else max_ms in
  (timers ctx = [] -> r = max_ms) /\
  (forall e, e ∈ timers ctx -> deadline_ms e <= now -> r = 0) /\
  ((forall e, e ∈ timers ctx -> now < deadline_ms e) -> timers ctx <> [] ->
    (forall e, e ∈ timers ctx -> 0 <= r <= Z.min cap (deadline_ms e - now)) /\
    (r = cap \/ exists e, e ∈ timers ctx /\ r = deadline_ms e - now)).
Proof.
  pose proof (inv_heap _ Hctx) as Hh. unfold kl_timer_next_timeout. destruct (clock w) as [now w1]. simpl.
  destruct (timers ctx) as [|top l].
  { split_and!; [done|intros e He; by apply not_elem_of_nil in He|done]. }
  assert (Hmin : forall e, e ∈ top :: l -> deadline_ms top <= deadline_ms e).
  { intros e He. pose proof (heap_min _ _ _ Hh He) as Hle. unfold heap_le in Hle. lia. }
  simpl. split_and!; [done| |].
  - intros e He Hd. specialize (Hmin e He). destruct (Z.leb_spec (deadline_ms top) now); lia.
  - intros Hall _. pose proof (Hall top ltac:(by left)). destruct (Z.leb_spec (deadline_ms top) now); [lia|].
    split; [|destruct (Z.ltb_spec max_ms 0), (Z.ltb_spec INT_MAX (deadline_ms top - now)),
      (Z.ltb_spec (deadline_ms top - now) max_ms); auto; right; exists top; (split; [by left|lia])].
    intros e He. specialize (Hmin e He). specialize (Hall e He).
    destruct (Z.ltb_spec max_ms 0), (Z.ltb_spec INT_MAX (deadline_ms top - now)),
      (Z.ltb_spec (deadline_ms top - now) max_ms); lia.
Qed.

End fire_facts.

(** A concrete environment: a clock that ticks at every reading, an allocator that never fails, and
    callbacks that either re-add themselves with no delay or cancel the timer they are given. *)
Definition ticks (w : Z) : Z := Z.max 0 (Z.min w UINT64_MAX).

#[local] Instance tick_env : TimerEnv Z := {
  clock w := (ticks w, w + 1);
  realloc_ok w _ := (true, w);
  callback c ud w := (if c =? 1 then CbAdd 0 1 ud (fun _ => CbRet tt) else CbCancel ud (fun _ => CbRet tt), w + 1)
}.

#[local] Instance tick_env_laws : TimerEnvLaws Z.
Proof. refine {| time := ticks |}; intros; simpl; try case_if; simpl; unfold ticks; auto with lia. Qed.

(** Three timers: one re-adds itself, one cancels the third, all due at 100. *)
Definition sample_ctx : KlEventCtx :=
  MkCtx [MkTimer 50 1 7 0; MkTimer 60 2 2 1; MkTimer 90 3 9 2] 8 3.

Lemma sample_ctx_inv : inv sample_ctx.
Proof.
  split.
  - intros p c Hpc a b Ha Hb. unfold sample_ctx, child_of, heap_le in *. simpl in *.
    destruct p as [|[|[|p]]]; simpl in Ha; simplify_eq;
      destruct c as [|[|[|c]]]; simpl in Hb; simplify_eq; simpl; lia.
  - apply (bool_decide_unpack _). by vm_compute.
  - repeat constructor.
  - by vm_compute.
Qed.

Lemma sample_fire : (fun r => (r.1.1.1, length (timers r.1.1.2))) <$> kl_timer_fire sample_ctx 100 = Some (2, 1%nat).
Proof. by vm_compute. Qed.

Lemma timer_fire_spec_witness :
  exists ctx' w' ev, kl_timer_fire sample_ctx 100 = Some (2, ctx', w', ev) /\
    NoDup (fired_of ev) /\ length (timers ctx') = 1%nat.
Proof.
  destruct (timer_fire_spec sample_ctx 100 sample_ctx_inv) as (ctx' & w' & ev & Heq & _ & _ & Hn & _).
  pose proof sample_fire as Hr. rewrite Heq in Hr. injection Hr as H1 H2.
  exists ctx', w', ev. rewrite <- H1. auto.
Defined.

End Timer.
