(* ===== verification/Drain.v ===== *)
(** * The backpressure write buffer (src/src/drain.c, src/src/drain_reserve.h, src/include/keel/drain.h)

    A drain sits between a producer and a writer that may accept less than it is offered.  The
    writer, the allocator and the code behind [on_writable] are an environment [DrainEnv]; every
    operation also returns the list of events the outside sees. *)
From S2P Require Import Prelude.

Module Drain.

(** ** State *)

(** [buf] holds the first [buf_len] bytes of the block, [buf_alloc] tells the pointer is not NULL.
    [on_drain] and [on_writable] tell whether the callback is registered. *)
Record KlDrain := MkDrain {
  buf_alloc : bool;
  buf : list Z;
  buf_cap : Z;
  max_size : Z;
  error : bool;
  on_drain : bool;
  prealloc : bool;
  low_water : Z;
  on_writable : bool
}.

Definition buf_len (d : KlDrain) : Z := Z.of_nat (length (buf d)).

Definition DRAIN_INIT_CAP : Z := 4096.

Inductive KlDrainWriteStatus := KL_DRAIN_ACCEPTED | KL_DRAIN_WOULD_BLOCK | KL_DRAIN_TOO_LARGE | KL_DRAIN_WERROR.

#[global] Instance KlDrainWriteStatus_eq_dec : EqDecision KlDrainWriteStatus.
Proof. solve_decision. Defined.

(** Bytes the writer took, bytes a transport took from the front itself, callbacks fired; and, for
    the writes a program issues, what it was told: the span was accepted, or the drain failed on it. *)
Inductive event :=
  | Sent (x : list Z) | Taken (x : list Z) | OnWritable | OnDrain
  | Accepted (x : list Z) | Failed (x : list Z).

(** What [on_writable] may do: issue more writes, with their results. *)
Inductive refill :=
  | RfDone
  | RfWrite (data : list Z) (k : Z -> refill)
  | RfReserve (data : list Z) (k : KlDrainWriteStatus -> refill)
  | RfBuffer (data : list Z) (k : KlDrainWriteStatus -> refill).

(** [write_fn]'s result is any [kl_ssize_t]; a result of [n] bytes within the span means the first
    [n] bytes were taken. *)
Class DrainEnv (W : Type) := {
  write_fn : W -> list Z -> Z * W;
  realloc_ok : W -> Z -> bool * W;
  writable_cb : W -> refill * W
}.

Definition kl_drain_init : KlDrain := MkDrain false [] 0 0 false false false 0 false.

Definition kl_drain_set_max_size (d : KlDrain) (m : Z) : KlDrain :=
  MkDrain (buf_alloc d) (buf d) (buf_cap d) m (error d) (on_drain d) (prealloc d) (low_water d) (on_writable d).
Definition kl_drain_on_drain (d : KlDrain) (cb : bool) : KlDrain :=
  MkDrain (buf_alloc d) (buf d) (buf_cap d) (max_size d) (error d) cb (prealloc d) (low_water d) (on_writable d).
Definition kl_drain_set_low_water (d : KlDrain) (lw : Z) : KlDrain :=
  MkDrain (buf_alloc d) (buf d) (buf_cap d) (max_size d) (error d) (on_drain d) (prealloc d) lw (on_writable d).
Definition kl_drain_on_writable (d : KlDrain) (cb : bool) : KlDrain :=
  MkDrain (buf_alloc d) (buf d) (buf_cap d) (max_size d) (error d) (on_drain d) (prealloc d) (low_water d) cb.

Definition set_buf (d : KlDrain) (b : list Z) : KlDrain :=
  MkDrain (buf_alloc d) b (buf_cap d) (max_size d) (error d) (on_drain d) (prealloc d) (low_water d) (on_writable d).
Definition set_error (d : KlDrain) : KlDrain :=
  MkDrain (buf_alloc d) (buf d) (buf_cap d) (max_size d) true (on_drain d) (prealloc d) (low_water d) (on_writable d).
Definition set_block (d : KlDrain) (cap : Z) : KlDrain :=
  MkDrain true (buf d) cap (max_size d) (error d) (on_drain d) (prealloc d) (low_water d) (on_writable d).

(** ** Growing *)

(** The doubling loop: [Some (Some cap)] is a capacity that fits, [Some None] the overflow exit.
    A block of at least one byte doubles past SIZE_MAX / 2 within 64 rounds. *)
Fixpoint grow_loop (fuel : nat) (cap required : Z) : option (option Z) :=
  if cap <? required then
    match fuel with
    | O => None
    | S fuel' => if SIZE_MAX / 2 <? cap then Some None else grow_loop fuel' (cap * 2) required
    end
  else Some (Some cap).

Section ops.
  Context {W : Type} `{E : DrainEnv W}.

Definition drain_ensure (d : KlDrain) (need : Z) (w : W) : option (Z * KlDrain * W) :=
  let required := u64 (buf_len d + need) in
  if required <? buf_len d then Some (-1, d, w)
  else if (0 <? max_size d) && (max_size d <? required) then Some (-1, set_error d, w)
  else if required <=? buf_cap d then Some (0, d, w)
  else
    let cap := if buf_cap d =? 0 then DRAIN_INIT_CAP else buf_cap d in
    grown ← grow_loop 64 cap required;
    match grown with
    | None => Some (-1, set_error d, w)
    | Some cap =>
        let cap := if (0 <? max_size d) && (max_size d <? cap) then max_size d else cap in
        let '(ok, w1) := realloc_ok w cap in
        if negb ok then Some (-1, set_error d, w1) else Some (0, set_block d cap, w1)
    end.

(** [while (d->buf_len > 0)]: every round that goes on shortens the buffer. *)
Fixpoint push_loop (fuel : nat) (d : KlDrain) (w : W) : option (Z * KlDrain * W * list event) :=
  if buf_len d <=? 0 then Some (0, d, w, [])
  else
    match fuel with
    | O => None
    | S fuel' =>
        let '(n, w1) := write_fn w (buf d) in
        if n <? 0 then Some (-1, set_error d, w1, [])
        else if n =? 0 then Some (0, d, w1, [])
        else if buf_len d <? n then Some (-1, set_error d, w1, [])
        else
          '(rc, d2, w2, ev) ← push_loop fuel' (set_buf d (drop (Z.to_nat n) (buf d))) w1;
          Some (rc, d2, w2, Sent (take (Z.to_nat n) (buf d)) :: ev)
    end.

Definition drain_push (d : KlDrain) (w : W) : option (Z * KlDrain * W * list event) :=
  push_loop (length (buf d)) d w.

(** Append behind what is pending. *)
Definition append_behind (d : KlDrain) (data : list Z) (w : W) : option (Z * KlDrain * W) :=
  '(rc, d1, w1) ← drain_ensure d (Z.of_nat (length data)) w;
  Some (if rc <? 0 then (-1, d1, w1) else (0, set_buf d1 (buf d1 ++ data), w1)).

(** Nothing pending: try the writer, keep the remainder. *)
Definition write_direct (d : KlDrain) (data : list Z) (w : W) : option (Z * KlDrain * W * list event) :=
  let len := Z.of_nat (length data) in
  let '(n, w1) := write_fn w data in
  if n <? 0 then Some (-1, set_error d, w1, [])
  else if len <? n then Some (-1, set_error d, w1, [])
  else if n =? len then Some (0, d, w1, [Sent data])
  else
    '(rc, d2, w2) ← append_behind d (drop (Z.to_nat n) data) w1;
    Some (rc, d2, w2, [Sent (take (Z.to_nat n) data)]).

Definition kl_drain_write (d : KlDrain) (data : list Z) (w : W) : option (Z * KlDrain * W * list event) :=
  if error d then Some (-1, d, w, [])
  else if Z.of_nat (length data) =? 0 then Some (0, d, w, [])
  else if 0 <? buf_len d then
    '(rc, d1, w1, ev) ← drain_push d w;
    if rc <? 0 then Some (-1, d1, w1, ev)
    else if 0 <? buf_len d1 then
      '(rc2, d2, w2) ← append_behind d1 data w1;
      Some (rc2, d2, w2, ev)
    else
      '(rc2, d2, w2, ev2) ← write_direct d1 data w1;
      Some (rc2, d2, w2, ev ++ ev2)
  else write_direct d data w.

(** ** Reservation *)

Definition kl_drain_prealloc (d : KlDrain) (capacity : Z) (w : W) : Z * KlDrain * W :=
  if capacity =? 0 then (-1, d, w)
  else if buf_alloc d || negb (buf_len d =? 0) || negb (buf_cap d =? 0) || prealloc d then (-1, d, w)
  else
    let '(ok, w1) := realloc_ok w capacity in
    if negb ok then (-1, d, w1)
    else (0, MkDrain true (buf d) capacity capacity (error d) (on_drain d) true (low_water d) (on_writable d), w1).

(** The checks both reserving writes share: [None] is "go on". *)
Definition reserve_check (d : KlDrain) (data : list Z) : option (KlDrainWriteStatus * KlDrain) :=
  let len := Z.of_nat (length data) in
  if error d then Some (KL_DRAIN_WERROR, d)
  else if len =? 0 then Some (KL_DRAIN_ACCEPTED, d)
  else if negb (prealloc d) || negb (buf_alloc d) || (buf_cap d =? 0) then Some (KL_DRAIN_WERROR, d)
  else if buf_cap d <? buf_len d then Some (KL_DRAIN_WERROR, set_error d)
  else if buf_cap d <? len then Some (KL_DRAIN_TOO_LARGE, d)
  else if buf_cap d - buf_len d <? len then Some (KL_DRAIN_WOULD_BLOCK, d)
  else None.

Definition kl_drain_reserve_write (d : KlDrain) (data : list Z) (w : W)
    : KlDrainWriteStatus * KlDrain * W * list event :=
  match reserve_check d data with
  | Some (s, d1) => (s, d1, w, [])
  | None =>
      if buf_len d =? 0 then
        let len := Z.of_nat (length data) in
        let '(n, w1) := write_fn w data in
        if n <? 0 then (KL_DRAIN_WERROR, set_error d, w1, [])
        else if len <? n then (KL_DRAIN_WERROR, set_error d, w1, [])
        else if n =? len then (KL_DRAIN_ACCEPTED, d, w1, [Sent data])
        else (KL_DRAIN_ACCEPTED, set_buf d (drop (Z.to_nat n) data), w1, [Sent (take (Z.to_nat n) data)])
      else (KL_DRAIN_ACCEPTED, set_buf d (buf d ++ data), w, [])
  end.

Definition kl_drain_reserve_buffer (d : KlDrain) (data : list Z) : KlDrainWriteStatus * KlDrain :=
  match reserve_check d data with
  | Some r => r
  | None => (KL_DRAIN_ACCEPTED, set_buf d (buf d ++ data))
  end.

(** ** Flushing and notification *)

Definition drain_crossed_low_water (d : KlDrain) (prev_len : Z) : bool :=
  on_writable d && (0 <? low_water d) && (low_water d <? prev_len) && (buf_len d <=? low_water d).

(** What the issuer of a write learns from it. *)
Definition told (ok : bool) (data : list Z) (d d' : KlDrain) : list event :=
  if ok then [Accepted data] else if negb (error d) && error d' then [Failed data] else [].

Definition accepted (s : KlDrainWriteStatus) : bool := match s with KL_DRAIN_ACCEPTED => true | _ => false end.

(** The writes [on_writable] issues. *)
Fixpoint run_refill (p : refill) (d : KlDrain) (w : W) : option (KlDrain * W * list event) :=
  match p with
  | RfDone => Some (d, w, [])
  | RfWrite data k =>
      '(rc, d1, w1, ev) ← kl_drain_write d data w;
      '(d2, w2, ev2) ← run_refill (k rc) d1 w1;
      Some (d2, w2, ev ++ told (rc =? 0) data d d1 ++ ev2)
  | RfReserve data k =>
      let '(s, d1, w1, ev) := kl_drain_reserve_write d data w in
      '(d2, w2, ev2) ← run_refill (k s) d1 w1;
      Some (d2, w2, ev ++ told (accepted s) data d d1 ++ ev2)
  | RfBuffer data k =>
      let '(s, d1) := kl_drain_reserve_buffer d data in
      '(d2, w2, ev2) ← run_refill (k s) d1 w;
      Some (d2, w2, told (accepted s) data d d1 ++ ev2)
  end.

Definition drain_notify (d : KlDrain) (prev_len : Z) (w : W) : option (Z * KlDrain * W * list event) :=
  if drain_crossed_low_water d prev_len then
    let '(p, w1) := writable_cb w in
    '(d2, w2, ev) ← run_refill p d w1;
    Some (if 0 <? buf_len d2 then 1 else 0, d2, w2, OnWritable :: ev)
  else
    let drained := buf_len d =? 0 in
    Some (if drained then 0 else 1, d, w, if drained && on_drain d then [OnDrain] else []).

Definition kl_drain_flush (d : KlDrain) (w : W) : option (Z * KlDrain * W * list event) :=
  if error d then Some (-1, d, w, [])
  else if buf_len d =? 0 then Some (0, d, w, [])
  else
    let prev_len := buf_len d in
    '(rc, d1, w1, ev) ← drain_push d w;
    if rc <? 0 then Some (-1, d1, w1, ev)
    else
      '(rc2, d2, w2, ev2) ← drain_notify d1 prev_len w1;
      Some (rc2, d2, w2, ev ++ ev2).

Definition kl_drain_pending (d : KlDrain) : Z := if 0 <? buf_len d then 1 else 0.
Definition kl_drain_buffered (d : KlDrain) : Z := buf_len d.
Definition kl_drain_data (d : KlDrain) : option (list Z) := if buf_len d =? 0 then None else Some (buf d).

Definition kl_drain_consume (d : KlDrain) (n : Z) (w : W) : option (KlDrain * W * list event) :=
  if n =? 0 then Some (d, w, [])
  else
    let prev_len := buf_len d in
    let '(d1, taken) := if buf_len d <=? n then (set_buf d [], buf d)
                        else (set_buf d (drop (Z.to_nat n) (buf d)), take (Z.to_nat n) (buf d)) in
    '(_, d2, w2, ev) ← drain_notify d1 prev_len w;
    Some (d2, w2, Taken taken :: ev).

Definition kl_drain_free (d : KlDrain) : KlDrain :=
  if buf_alloc d then MkDrain false [] 0 (max_size d) (error d) (on_drain d) false (low_water d) (on_writable d)
  else MkDrain (buf_alloc d) (buf d) (buf_cap d) (max_size d) (error d) (on_drain d) false (low_water d) (on_writable d).

End ops.

(** ** Invariant *)

Record inv (d : KlDrain) : Prop := {
  inv_len : buf_len d <= buf_cap d <= SIZE_MAX;
  inv_block : if buf_alloc d then 0 < buf_cap d else buf_cap d = 0 /\ prealloc d = false;
  inv_max : 0 <= max_size d <= SIZE_MAX
}.

Definition span_ok (data : list Z) : Prop := Z.of_nat (length data) <= SIZE_MAX.

Lemma drain_inv_init : inv kl_drain_init.
Proof. by split. Qed.

Lemma buf_len_nonneg d : 0 <= buf_len d.
Proof. unfold buf_len. lia. Qed.

Lemma set_error_inv d : inv d -> inv (set_error d).
Proof. by intros [H1 H2 H3]; split. Qed.

Lemma set_buf_inv d b : inv d -> Z.of_nat (length b) <= buf_cap d -> inv (set_buf d b).
Proof. intros [H1 H2 H3] Hb. split; [|done|done]. unfold buf_len. simpl. lia. Qed.

Lemma grow_loop_spec fuel cap required :
  0 < cap <= SIZE_MAX -> required <= SIZE_MAX -> SIZE_MAX < cap * 2 ^ Z.of_nat fuel ->
  match grow_loop fuel cap required with
  | Some (Some c) => required <= c <= SIZE_MAX /\ cap <= c
  | Some None => True
  | None => False
  end.
Proof.
  revert cap. induction fuel as [|fuel IH]; intros cap Hc Hr Hf; simpl grow_loop.
  all: destruct (Z.ltb_spec cap required); [|lia].
  { simpl in Hf. lia. }
  change (SIZE_MAX / 2) with 9223372036854775807. case_test; [done|].
  specialize (IH (cap * 2)). rewrite Nat2Z.inj_succ, Z.pow_succ_r in Hf by lia.
  specialize (IH ltac:(lia) Hr ltac:(lia)). destruct (grow_loop fuel (cap * 2) required) as [[c|]|]; auto; lia.
Qed.

(** ** FIFO: what goes out is what came in, in order *)

Definition out_of (ev : list event) : list Z :=
  ev ≫= fun e => match e with Sent x | Taken x => x | _ => [] end.
Definition accepted_of (ev : list event) : list Z := ev ≫= fun e => match e with Accepted x => x | _ => [] end.
Definition offered_of (ev : list event) : list Z :=
  ev ≫= fun e => match e with Accepted x | Failed x => x | _ => [] end.

(** From [d] to [d'] with events [ev]: bytes leave in the order they came, none is lost, repeated or
    invented; a failure is sticky and stops the stream at a prefix. *)
Definition fifo (d d' : KlDrain) (ev : list event) : Prop :=
  if error d then error d' = true /\ out_of ev ++ buf d' = buf d
  else if error d' then out_of ev ++ buf d' `prefix_of` buf d ++ offered_of ev
  else out_of ev ++ buf d' = buf d ++ accepted_of ev /\ offered_of ev = accepted_of ev.

Lemma out_of_app a b : out_of (a ++ b) = out_of a ++ out_of b.
Proof. apply bind_app. Qed.
Lemma accepted_of_app a b : accepted_of (a ++ b) = accepted_of a ++ accepted_of b.
Proof. apply bind_app. Qed.
Lemma offered_of_app a b : offered_of (a ++ b) = offered_of a ++ offered_of b.
Proof. apply bind_app. Qed.

Lemma fifo_refl d : fifo d d [].
Proof. unfold fifo. destruct (error d); simpl; [done|]. by rewrite app_nil_r. Qed.

Lemma fifo_trans d1 d2 d3 ev1 ev2 : fifo d1 d2 ev1 -> fifo d2 d3 ev2 -> fifo d1 d3 (ev1 ++ ev2).
Proof.
  unfold fifo. rewrite out_of_app, accepted_of_app, offered_of_app, <- !app_assoc.
  destruct (error d1), (error d2), (error d3).
  all: try (by intros []). all: try (by intros ? []). 
  - intros [_ H1] [_ H2]. split; [done|]. by rewrite H2.
  - intros H1 [_ H2]. rewrite H2. transitivity (buf d1 ++ offered_of ev1); [done|].
    rewrite app_assoc. by apply prefix_app_r.
  - intros [H1 H1'] H2. rewrite H1'. rewrite (app_assoc (buf d1)), <- H1, <- app_assoc. by apply prefix_app.
  - intros [H1 H1'] [H2 H2']. split; [|congruence]. rewrite H2, (app_assoc (buf d1)), <- H1. by rewrite app_assoc.
Qed.
Section facts.
  Context {W : Type} `{E : DrainEnv W}.

Lemma ensure_spec d need w : inv d -> 0 <= need <= SIZE_MAX ->
  exists rc d' w', drain_ensure d need w = Some (rc, d', w') /\ inv d' /\ buf d' = buf d /\ max_size d' = max_size d /\
    ((rc = 0 /\ error d' = error d /\ buf_len d + need <= buf_cap d' /\
        (0 < max_size d -> buf_len d + need <= max_size d)) \/
     (rc = -1 /\ (error d' = true \/ d' = d /\ SIZE_MAX < buf_len d + need))).
Proof.
  intros Hi Hn. destruct (id Hi) as [[Hl Hc] Hb Hm]. pose proof (buf_len_nonneg d) as H0. unfold drain_ensure.
  set (required := u64 (buf_len d + need)). pose proof (u64_range (buf_len d + need)) as Hr.
  destruct (Z.ltb_spec required (buf_len d)) as [Hlt|Hge].
  { exists (-1), d, w. split_and!; auto. right. split; [done|]. right. split; [done|].
    unfold required, u64 in *. Z.to_euclidean_division_equations. lia. }
  assert (Hreq : required = buf_len d + need).
  { unfold required, u64 in *. Z.to_euclidean_division_equations. lia. }
  assert (Hsum : buf_len d + need <= SIZE_MAX) by (unfold required in Hreq; lia).
  rewrite Hreq in *. clear required Hreq.
  destruct ((0 <? max_size d) && (max_size d <? buf_len d + need)) eqn:Hmax.
  { exists (-1), (set_error d), w. split_and!; auto using set_error_inv. }
  assert (Hle : 0 < max_size d -> buf_len d + need <= max_size d).
  { apply andb_false_iff in Hmax as [?|?]; breflect; lia. }
  destruct (Z.leb_spec (buf_len d + need) (buf_cap d)); [exists 0, d, w; auto 9|].
  set (cap0 := if buf_cap d =? 0 then DRAIN_INIT_CAP else buf_cap d).
  assert (Hc0 : 0 < cap0 <= SIZE_MAX).
  { unfold cap0, DRAIN_INIT_CAP. destruct (Z.eqb_spec (buf_cap d) 0); lia. }
  pose proof (grow_loop_spec 64 cap0 (buf_len d + need) Hc0 ltac:(lia) ltac:(change (2 ^ Z.of_nat 64) with 18446744073709551616; lia)) as Hg.
  destruct (grow_loop 64 cap0 (buf_len d + need)) as [[c|]|]; [|exists (-1), (set_error d), w; split_and!; auto using set_error_inv|done].
  rewrite bind_Some_l. set (c' := if _ && _ then max_size d else c). destruct (realloc_ok w c') as [[] w1]; simpl.
  - assert (Hc' : buf_len d + need <= c' <= SIZE_MAX).
    { unfold c'. case_if; breflect; lia. }
    exists 0, (set_block d c'), w1. split_and!; [done| |done|done|left; simpl; split_and!; auto; lia].
    split; simpl; [unfold buf_len in *; simpl; lia|lia|done].
  - exists (-1), (set_error d), w1. split_and!; auto using set_error_inv.
Qed.

Definition sends (ev : list event) : Prop := Forall (fun e => match e with Sent _ => True | _ => False end) ev.

Lemma sends_silent ev : sends ev -> accepted_of ev = [] /\ offered_of ev = [].
Proof. induction 1 as [|[] ev He _ [IH1 IH2]]; try done. Qed.

Lemma push_spec fuel d w : (length (buf d) <= fuel)%nat ->
  exists rc d' w' ev, push_loop fuel d w = Some (rc, d', w', ev) /\ sends ev /\ out_of ev ++ buf d' = buf d /\
    (rc = 0 /\ d' = set_buf d (buf d') \/ rc = -1 /\ d' = set_error (set_buf d (buf d'))).
Proof.
  assert (Hset : forall d, d = set_buf d (buf d)) by by intros [].
  assert (Hnil : sends []) by constructor.
  revert d w. induction fuel as [|fuel IH]; intros d w Hl; cbn [push_loop].
  all: destruct (Z.leb_spec (buf_len d) 0) as [H0|H0]; [exists 0, d, w, []; auto 9|unfold buf_len in H0].
  { lia. }
  destruct (write_fn w (buf d)) as [n w1]. destruct (Z.ltb_spec n 0).
  { exists (-1), (set_error d), w1, []. by split_and!; auto. }
  destruct (Z.eqb_spec n 0); [exists 0, d, w1, []; auto 9|].
  destruct (Z.ltb_spec (buf_len d) n) as [|Hn].
  { exists (-1), (set_error d), w1, []. by split_and!; auto. }
  destruct (IH (set_buf d (drop (Z.to_nat n) (buf d))) w1) as (rc & d' & w' & ev & -> & Hs & Ho & Hrc).
  { simpl. rewrite length_drop. lia. }
  rewrite bind_Some_l. eexists rc, d', w', _. split; [done|]. split; [by constructor|]. split; [|by destruct d].
  change (out_of (Sent ?x :: ?y)) with (x ++ out_of y). rewrite <- app_assoc, Ho. simpl. apply take_drop.
Qed.

Lemma append_behind_spec d data w : inv d -> span_ok data ->
  exists rc d' w', append_behind d data w = Some (rc, d', w') /\ inv d' /\ max_size d' = max_size d /\
    ((rc = 0 /\ error d' = error d /\ buf d' = buf d ++ data /\ (0 < max_size d -> buf_len d' <= max_size d)) \/
     (rc = -1 /\ buf d' = buf d /\ (error d' = true \/ d' = d /\ SIZE_MAX < buf_len d + Z.of_nat (length data)))).
Proof.
  intros Hi Hd. unfold append_behind, span_ok in *.
  destruct (ensure_spec d (Z.of_nat (length data)) w Hi ltac:(lia))
    as (rc & d' & w' & -> & Hi' & Hb & Hm & [(-> & He & Hc & Hx)|(-> & He)]); rewrite bind_Some_l; simpl.
  - eexists 0, _, w'. split; [done|]. rewrite Hb. split; [apply set_buf_inv; [done|]|].
    { rewrite length_app. unfold buf_len in Hc. lia. }
    split; [done|]. left. split_and!; auto. intros H. unfold buf_len in *. simpl. rewrite length_app. lia.
  - exists (-1), d', w'. auto 9.
Qed.
Lemma fifo_accept d d' ev data : error d = false -> error d' = false -> sends ev ->
  out_of ev ++ buf d' = buf d ++ data -> fifo d d' (ev ++ told true data d d').
Proof.
  intros He He' [Ha Hf]%sends_silent Ho. unfold fifo, told. rewrite He, He', out_of_app, accepted_of_app, offered_of_app, Ha, Hf.
  simpl. by rewrite !app_nil_r.
Qed.

Lemma fifo_fail d d' ev data : error d = false -> error d' = true -> sends ev ->
  out_of ev ++ buf d' `prefix_of` buf d ++ data -> fifo d d' (ev ++ told false data d d').
Proof.
  intros He He' [Ha Hf]%sends_silent Ho. unfold fifo, told. rewrite He, He', out_of_app, offered_of_app, Hf.
  simpl. by rewrite !app_nil_r.
Qed.

Lemma fifo_refuse d d' ev data : error d = false -> error d' = false -> sends ev ->
  out_of ev ++ buf d' = buf d -> fifo d d' (ev ++ told false data d d').
Proof.
  intros He He' [Ha Hf]%sends_silent Ho. unfold fifo, told. rewrite He, He', out_of_app, accepted_of_app, offered_of_app, Ha, Hf.
  simpl. by rewrite !app_nil_r.
Qed.

(** What every write promises: it returns, keeps the invariant, the order and the cap. *)
Definition write_ok (d : KlDrain) (data : list Z) (o : option (Z * KlDrain * W * list event)) : Prop :=
  exists rc d' w' ev, o = Some (rc, d', w', ev) /\ inv d' /\ max_size d' = max_size d /\ sends ev /\
    (rc = 0 /\ (error d = false -> error d' = false) \/ rc = -1) /\ fifo d d' (ev ++ told (rc =? 0) data d d') /\
    (0 < max_size d -> buf_len d' <= Z.max (max_size d) (buf_len d)).

Lemma sends_nil : sends [].
Proof. constructor. Qed.
Lemma sends_one x : sends [Sent x].
Proof. by repeat constructor. Qed.

Lemma prefix_self (l k : list Z) : l `prefix_of` l ++ k.
Proof. by exists k. Qed.

Lemma write_direct_spec d data w : inv d -> span_ok data -> error d = false -> buf d = [] ->
  write_ok d data (write_direct d data w).
Proof.
  intros Hi Hd He Hb. unfold write_direct, write_ok. assert (Hl0 : buf_len d = 0) by (unfold buf_len; by rewrite Hb).
  destruct (write_fn w data) as [n w1].
  assert (Hfail : exists rc d' w' ev, Some (-1, set_error d, w1, []) = Some (rc, d', w', ev) /\ inv d' /\
    max_size d' = max_size d /\ sends ev /\ (rc = 0 /\ (error d = false -> error d' = false) \/ rc = -1) /\ fifo d d' (ev ++ told (rc =? 0) data d d') /\
    (0 < max_size d -> buf_len d' <= Z.max (max_size d) (buf_len d))).
  { exists (-1), (set_error d), w1, []. split_and!; auto using set_error_inv, sends_nil; [|unfold buf_len; simpl; lia].
    apply fifo_fail; auto using sends_nil. simpl. apply prefix_self. }
  destruct (Z.ltb_spec n 0); [done|]. destruct (Z.ltb_spec (Z.of_nat (length data)) n); [done|]. clear Hfail.
  destruct (Z.eqb_spec n (Z.of_nat (length data))).
  { exists 0, d, w1, [Sent data]. split_and!; auto using sends_one; [|lia].
    apply fifo_accept; auto using sends_one. simpl. by rewrite Hb, !app_nil_r. }
  set (rest := drop (Z.to_nat n) data). assert (Hr : span_ok rest) by (unfold span_ok, rest in *; rewrite length_drop; lia).
  destruct (append_behind_spec d rest w1 Hi Hr)
    as (rc & d' & w2 & -> & Hi' & Hm & [(-> & He' & Hb' & Hx)|(-> & Hb' & [He'|[_ Hov]])]); [..|unfold span_ok in *; lia];
    rewrite bind_Some_l; eexists _, _, _, _; (split; [done|]); (split_and!; auto using sends_one).
  - left. split; [done|congruence].
  - apply fifo_accept; auto using sends_one; [congruence|]. rewrite Hb', Hb. simpl. rewrite app_nil_r. apply take_drop.
  - intros Hp. specialize (Hx Hp). lia.
  - apply fifo_fail; auto using sends_one. rewrite Hb', Hb. simpl. rewrite !app_nil_r.
    exists rest. symmetry. apply take_drop.
  - intros _. unfold buf_len. rewrite Hb', Hb. simpl. lia.
Qed.

Lemma write_spec d data w : inv d -> span_ok data -> write_ok d data (kl_drain_write d data w).
Proof.
  intros Hi Hd. unfold kl_drain_write. pose proof (buf_len_nonneg d) as H0.
  destruct (error d) eqn:He.
  { exists (-1), d, w, []. split_and!; auto using sends_nil; [|lia]. unfold fifo, told. rewrite He. done. }
  destruct (Z.eqb_spec (Z.of_nat (length data)) 0) as [Hz|Hz].
  { exists 0, d, w, []. split_and!; auto using sends_nil; [|lia]. apply length_zero in Hz as ->.
    apply fifo_accept; auto using sends_nil. simpl. by rewrite app_nil_r. }
  destruct (Z.ltb_spec 0 (buf_len d)) as [Hp|Hp].
  2:{ apply write_direct_spec; auto. apply length_zero. unfold buf_len in *. lia. }
  unfold drain_push. destruct (push_spec (length (buf d)) d w ltac:(lia)) as (rc & d1 & w1 & ev & -> & Hs & Ho & Hrc).
  rewrite bind_Some_l.
  assert (Hlen : buf_len d1 <= buf_len d).
  { unfold buf_len. rewrite <- Ho, length_app. lia. }
  assert (Hi1 : inv (set_buf d (buf d1))).
  { apply set_buf_inv; [done|]. pose proof (inv_len _ Hi). unfold buf_len in *. lia. }
  destruct Hrc as [[-> Hd1]|[-> Hd1]]; simpl.
  2:{ exists (-1), d1, w1, ev. rewrite Hd1. split_and!; auto using set_error_inv; [|intros _; unfold buf_len in *; simpl; lia].
      apply fifo_fail; auto. simpl. rewrite Ho. apply prefix_self. }
  assert (He1 : error d1 = false) by (rewrite Hd1; exact He). rewrite <- Hd1 in Hi1.
  assert (Hm1 : max_size d1 = max_size d) by (by rewrite Hd1).
  destruct (Z.ltb_spec 0 (buf_len d1)) as [Hp1|Hp1].
  - destruct (append_behind_spec d1 data w1 Hi1 Hd)
      as (rc & d' & w2 & -> & Hi' & Hm & [(-> & He' & Hb' & Hx)|(-> & Hb' & [He'|[-> Hov]])]);
      rewrite bind_Some_l; eexists _, _, _, _; (split; [done|]); (split_and!; auto; try congruence).
    + left. split; [done|congruence].
    + apply fifo_accept; auto; [congruence|]. rewrite Hb', app_assoc. by rewrite Ho.
    + rewrite <- Hm1. intros Hpos. specialize (Hx Hpos). lia.
    + apply fifo_fail; auto. rewrite Hb', Ho. apply prefix_self.
    + intros _. unfold buf_len in *. rewrite Hb'. lia.
    + apply fifo_refuse; auto.
    + lia.
  - assert (Hb1 : buf d1 = []) by (apply length_zero; unfold buf_len in *; lia).
    destruct (write_direct_spec d1 data w1 Hi1 Hd He1 Hb1) as (rc & d' & w2 & ev2 & -> & Hi' & Hm' & Hs2 & Hrc & Hf & Hx).
    rewrite bind_Some_l. exists rc, d', w2, (ev ++ ev2). split_and!; auto; [congruence|by apply Forall_app| | |].
    + destruct Hrc as [[-> Hok]|]; auto.
    + rewrite <- app_assoc. replace (told (rc =? 0) data d d') with (told (rc =? 0) data d1 d')
        by (unfold told; by rewrite He, He1).
      eapply fifo_trans; [|exact Hf]. unfold fifo. rewrite He, He1. destruct (sends_silent ev Hs) as [-> ->].
      by rewrite app_nil_r.
    + rewrite <- Hm1. intros Hpos. specialize (Hx Hpos). lia.
Qed.
(** ** Reserving writes *)

Lemma reserve_check_spec d data : inv d -> span_ok data ->
  match reserve_check d data with
  | Some (s, d1) => d1 = d /\ (s = KL_DRAIN_ACCEPTED -> error d = false /\ data = [])
  | None => error d = false /\ buf_len d + Z.of_nat (length data) <= buf_cap d
  end.
Proof.
  intros Hi Hd. unfold reserve_check. destruct (error d); [done|].
  destruct (Z.eqb_spec (Z.of_nat (length data)) 0) as [Hz|Hz]; [by apply length_zero in Hz|].
  case_if; [done|]. destruct (inv_len _ Hi). destruct (Z.ltb_spec (buf_cap d) (buf_len d)); [lia|].
  destruct (Z.ltb_spec (buf_cap d) (Z.of_nat (length data))); [done|].
  destruct (Z.ltb_spec (buf_cap d - buf_len d) (Z.of_nat (length data))); [done|]. split; [done|lia].
Qed.

Lemma fifo_stay s d data : (s = KL_DRAIN_ACCEPTED -> error d = false /\ data = []) ->
  fifo d d (told (accepted s) data d d).
Proof.
  intros Hs. unfold told. rewrite andb_comm, andb_negb_r. destruct s; simpl; try apply fifo_refl.
  destruct (Hs eq_refl) as [He ->]. unfold fifo. rewrite He. simpl. by rewrite app_nil_r.
Qed.

(** The whole of a reserving write, on a drain that satisfies the invariant. *)
Definition reserve_ok (d : KlDrain) (data : list Z) (s : KlDrainWriteStatus) (d' : KlDrain) (ev : list event) : Prop :=
  inv d' /\ buf_cap d' = buf_cap d /\ max_size d' = max_size d /\ prealloc d' = prealloc d /\ sends ev /\
  fifo d d' (ev ++ told (accepted s) data d d').

Lemma reserve_write_spec d data w : inv d -> span_ok data ->
  let '(s, d', w', ev) := kl_drain_reserve_write d data w in reserve_ok d data s d' ev.
Proof.
  intros Hi Hd. unfold kl_drain_reserve_write, reserve_ok. pose proof (reserve_check_spec d data Hi Hd) as Hc.
  destruct (reserve_check d data) as [[s d1]|].
  { destruct Hc as [-> Hs]. split_and!; auto using sends_nil. by apply fifo_stay. }
  destruct Hc as [He Hfit]. destruct (Z.eqb_spec (buf_len d) 0) as [H0|H0].
  - assert (Hb : buf d = []) by by apply length_zero.
    destruct (write_fn w data) as [n w1].
    destruct (Z.ltb_spec n 0); [|destruct (Z.ltb_spec (Z.of_nat (length data)) n)].
    1-2: split_and!; auto using sends_nil, set_error_inv; apply fifo_fail; auto using sends_nil; simpl; apply prefix_self.
    destruct (Z.eqb_spec n (Z.of_nat (length data))).
    + split_and!; auto using sends_one. apply fifo_accept; auto using sends_one. simpl. by rewrite Hb, !app_nil_r.
    + split_and!; auto using sends_one; [apply set_buf_inv; [done|rewrite length_drop; lia]|].
      apply fifo_accept; auto using sends_one. simpl. rewrite Hb, app_nil_r. apply take_drop.
  - split_and!; auto using sends_nil; [apply set_buf_inv; [done|rewrite length_app; unfold buf_len in *; lia]|].
    apply fifo_accept; auto using sends_nil.
Qed.

Lemma reserve_buffer_spec d data : inv d -> span_ok data ->
  let '(s, d') := kl_drain_reserve_buffer d data in reserve_ok d data s d' [].
Proof.
  intros Hi Hd. unfold kl_drain_reserve_buffer, reserve_ok. pose proof (reserve_check_spec d data Hi Hd) as Hc.
  destruct (reserve_check d data) as [[s d1]|].
  { destruct Hc as [-> Hs]. split_and!; auto using sends_nil. by apply fifo_stay. }
  destruct Hc as [He Hfit].
  split_and!; auto using sends_nil; [apply set_buf_inv; [done|rewrite length_app; unfold buf_len in *; lia]|].
  apply (fifo_accept d _ []); auto using sends_nil.
Qed.

(** ** Callbacks *)

Fixpoint refill_ok (p : refill) : Prop :=
  match p with
  | RfDone => True
  | RfWrite data k => span_ok data /\ forall r, refill_ok (k r)
  | RfReserve data k => span_ok data /\ forall r, refill_ok (k r)
  | RfBuffer data k => span_ok data /\ forall r, refill_ok (k r)
  end.

Definition callbacks (ev : list event) : list event :=
  ev ≫= fun e => match e with OnWritable | OnDrain => [e] | _ => [] end.

Lemma callbacks_app a b : callbacks (a ++ b) = callbacks a ++ callbacks b.
Proof. apply bind_app. Qed.

Lemma callbacks_sends ev : sends ev -> callbacks ev = [].
Proof. by induction 1 as [|[] ev He _ IH]. Qed.

Lemma callbacks_told b data d d' : callbacks (told b data d d') = [].
Proof. unfold told. by repeat case_if. Qed.

Lemma run_refill_spec p d w : inv d -> refill_ok p ->
  exists d' w' ev, run_refill p d w = Some (d', w', ev) /\ inv d' /\ fifo d d' ev /\ callbacks ev = [].
Proof.
  revert d w. induction p as [|data k IH|data k IH|data k IH]; intros d w Hi Hp; simpl in *.
  - exists d, w, []. auto using fifo_refl.
  - destruct Hp as [Hd Hk]. destruct (write_spec d data w Hi Hd) as (rc & d1 & w1 & ev & -> & Hi1 & _ & Hs & _ & Hf & _).
    rewrite bind_Some_l. destruct (IH rc d1 w1 Hi1 (Hk rc)) as (d2 & w2 & ev2 & -> & Hi2 & Hf2 & Hc).
    rewrite bind_Some_l. eexists _, _, _. split; [done|]. split; [done|]. split.
    + rewrite app_assoc. by eapply fifo_trans.
    + by rewrite !callbacks_app, callbacks_told, callbacks_sends, Hc.
  - destruct Hp as [Hd Hk]. pose proof (reserve_write_spec d data w Hi Hd) as Hr.
    destruct (kl_drain_reserve_write d data w) as [[[s d1] w1] ev]. destruct Hr as (Hi1 & _ & _ & _ & Hs & Hf).
    destruct (IH s d1 w1 Hi1 (Hk s)) as (d2 & w2 & ev2 & -> & Hi2 & Hf2 & Hc).
    rewrite bind_Some_l. eexists _, _, _. split; [done|]. split; [done|]. split.
    + rewrite app_assoc. by eapply fifo_trans.
    + by rewrite !callbacks_app, callbacks_told, callbacks_sends, Hc.
  - destruct Hp as [Hd Hk]. pose proof (reserve_buffer_spec d data Hi Hd) as Hr.
    destruct (kl_drain_reserve_buffer d data) as [s d1]. destruct Hr as (Hi1 & _ & _ & _ & _ & Hf).
    destruct (IH s d1 w Hi1 (Hk s)) as (d2 & w2 & ev2 & -> & Hi2 & Hf2 & Hc).
    rewrite bind_Some_l. eexists _, _, _. split; [done|]. split; [done|]. split.
    + by eapply fifo_trans.
    + by rewrite !callbacks_app, callbacks_told, Hc.
Qed.
(** The documented contract of [on_writable]: it only issues writes of real spans. *)
Context (Hcb : forall w, refill_ok (writable_cb w).1).

Lemma notify_spec d prev_len w : inv d ->
  exists rc d' w' ev, drain_notify d prev_len w = Some (rc, d', w', ev) /\ inv d' /\ fifo d d' ev /\
    rc = (if buf_len d' =? 0 then 0 else 1) /\
    callbacks ev = if drain_crossed_low_water d prev_len then [OnWritable]
                   else if (buf_len d =? 0) && on_drain d then [OnDrain] else [].
Proof.
  intros Hi. unfold drain_notify. pose proof (Hcb w) as Hw. destruct (drain_crossed_low_water d prev_len).
  - destruct (writable_cb w) as [p w1]. simpl in Hw.
    destruct (run_refill_spec p d w1 Hi Hw) as (d2 & w2 & ev & -> & Hi2 & Hf & Hc). rewrite bind_Some_l.
    eexists _, _, _, _. split; [done|]. split_and!; auto.
    + pose proof (buf_len_nonneg d2). destruct (Z.ltb_spec 0 (buf_len d2)), (Z.eqb_spec (buf_len d2) 0); lia.
    + change (callbacks (OnWritable :: ev)) with (OnWritable :: callbacks ev). by rewrite Hc.
  - eexists _, _, _, _. split; [done|]. split_and!; auto.
    + unfold fifo. destruct (error d); case_if; simpl; auto; by rewrite app_nil_r.
    + by case_if.
Qed.

Lemma flush_spec d w : inv d ->
  exists rc d' w' ev, kl_drain_flush d w = Some (rc, d', w', ev) /\ inv d' /\ fifo d d' ev /\
    (length (callbacks ev) <= 1)%nat /\ (rc = 0 -> buf d' = []) /\ (rc = -1 -> error d' = true) /\ -1 <= rc <= 1.
Proof.
  intros Hi. unfold kl_drain_flush. destruct (error d) eqn:He.
  { exists (-1), d, w, []. split_and!; auto using fifo_refl; lia. }
  destruct (Z.eqb_spec (buf_len d) 0) as [H0|H0].
  { exists 0, d, w, []. split_and!; auto using fifo_refl; try lia. intros _. by apply length_zero. }
  unfold drain_push. destruct (push_spec (length (buf d)) d w ltac:(lia)) as (rc & d1 & w1 & ev & -> & Hs & Ho & Hrc).
  rewrite bind_Some_l.
  assert (Hi1 : inv (set_buf d (buf d1))).
  { apply set_buf_inv; [done|]. pose proof (inv_len _ Hi). unfold buf_len in *. rewrite <- Ho, length_app in *. lia. }
  destruct (sends_silent ev Hs) as [Ha Hf]. destruct Hrc as [[-> Hd1]|[-> Hd1]]; simpl.
  - rewrite <- Hd1 in Hi1. assert (He1 : error d1 = false) by (rewrite Hd1; exact He).
    destruct (notify_spec d1 (buf_len d) w1 Hi1) as (rc & d2 & w2 & ev2 & -> & Hi2 & Hf2 & Hrc & Hc).
    rewrite bind_Some_l. eexists _, _, _, _. split; [done|]. split_and!; auto.
    + eapply fifo_trans; [|exact Hf2]. unfold fifo. rewrite He, He1, Ha, Hf. by rewrite app_nil_r.
    + rewrite callbacks_app, callbacks_sends, Hc by done. repeat case_if; simpl; lia.
    + intros Hz. apply length_zero. destruct (Z.eqb_spec (buf_len d2) 0); [done|lia].
    + rewrite Hrc. case_if; lia.
    + rewrite Hrc. case_if; lia.
    + rewrite Hrc. case_if; lia.
  - eexists (-1), _, _, _. split; [done|]. rewrite Hd1. split_and!; auto using set_error_inv; try lia.
    + unfold fifo. rewrite He. simpl. rewrite Ho, Hf, app_nil_r. done.
    + rewrite callbacks_sends by done. simpl. lia.
Qed.

Lemma consume_spec d n w : inv d ->
  exists d' w' ev, kl_drain_consume d n w = Some (d', w', ev) /\ inv d' /\ fifo d d' ev /\
    (length (callbacks ev) <= 1)%nat.
Proof.
  intros Hi. unfold kl_drain_consume. destruct (Z.eqb_spec n 0).
  { exists d, w, []. split_and!; auto using fifo_refl. }
  set (p := if buf_len d <=? n then _ else _). assert (Hp : exists b t, p = (set_buf d b, t) /\ t ++ b = buf d).
  { unfold p. case_if; eexists _, _; (split; [done|]); [apply app_nil_r|apply take_drop]. }
  destruct Hp as (b & t & -> & Hb).
  assert (Hi1 : inv (set_buf d b)).
  { apply set_buf_inv; [done|]. pose proof (inv_len _ Hi). unfold buf_len in *. rewrite <- Hb, length_app in *. lia. }
  destruct (notify_spec (set_buf d b) (buf_len d) w Hi1) as (rc & d2 & w2 & ev & -> & Hi2 & Hf & _ & Hc).
  rewrite bind_Some_l. eexists _, _, _. split; [done|]. split_and!; auto.
  - change (Taken t :: ev) with ([Taken t] ++ ev). eapply fifo_trans; [|exact Hf]. unfold fifo. simpl.
    destruct (error d); rewrite !app_nil_r; auto.
  - change (callbacks (Taken t :: ev)) with (callbacks ev). rewrite Hc. repeat case_if; simpl; lia.
Qed.

(** ** Programs that use a drain *)

Inductive op :=
  | OWrite (data : list Z) | OReserve (data : list Z) | OBuffer (data : list Z) | OFlush | OConsume (n : Z)
  | OPrealloc (capacity : Z) | OMaxSize (m : Z) | OLowWater (m : Z) | OOnDrain (b : bool) | OOnWritable (b : bool).

Definition op_ok (o : op) : Prop :=
  match o with
  | OWrite data | OReserve data | OBuffer data => span_ok data
  | OPrealloc m | OMaxSize m => 0 <= m <= SIZE_MAX
  | _ => True
  end.

Definition run_op (o : op) (d : KlDrain) (w : W) : option (KlDrain * W * list event) :=
  match o with
  | OWrite data =>
      '(rc, d1, w1, ev) ← kl_drain_write d data w; Some (d1, w1, ev ++ told (rc =? 0) data d d1)
  | OReserve data =>
      let '(s, d1, w1, ev) := kl_drain_reserve_write d data w in Some (d1, w1, ev ++ told (accepted s) data d d1)
  | OBuffer data => let '(s, d1) := kl_drain_reserve_buffer d data in Some (d1, w, told (accepted s) data d d1)
  | OFlush => '(rc, d1, w1, ev) ← kl_drain_flush d w; Some (d1, w1, ev)
  | OConsume n => kl_drain_consume d n w
  | OPrealloc m => let '(_, d1, w1) := kl_drain_prealloc d m w in Some (d1, w1, [])
  | OMaxSize m => Some (kl_drain_set_max_size d m, w, [])
  | OLowWater m => Some (kl_drain_set_low_water d m, w, [])
  | OOnDrain b => Some (kl_drain_on_drain d b, w, [])
  | OOnWritable b => Some (kl_drain_on_writable d b, w, [])
  end.

Fixpoint run_ops (os : list op) (d : KlDrain) (w : W) : option (KlDrain * W * list event) :=
  match os with
  | [] => Some (d, w, [])
  | o :: os' =>
      '(d1, w1, ev) ← run_op o d w; '(d2, w2, ev2) ← run_ops os' d1 w1; Some (d2, w2, ev ++ ev2)
  end.

Lemma fifo_same d d' : buf d' = buf d -> error d' = error d -> fifo d d' [].
Proof. intros Hb He. unfold fifo. rewrite He, Hb. simpl. destruct (error d); [done|]. by rewrite app_nil_r. Qed.

Lemma prealloc_spec d m w : inv d -> 0 <= m <= SIZE_MAX ->
  let '(_, d', _) := kl_drain_prealloc d m w in inv d' /\ fifo d d' [].
Proof.
  intros Hi Hm. unfold kl_drain_prealloc. destruct (Z.eqb_spec m 0); [auto using fifo_refl|].
  case_if; [auto using fifo_refl|]. destruct (realloc_ok w m) as [[] w1]; simpl; [|auto using fifo_refl].
  split; [|by apply fifo_same]. split; simpl; [|lia|lia].
  repeat match goal with H : _ || _ = false |- _ => apply orb_false_iff in H as [H ?] end.
  match goal with H : negb (buf_len d =? 0) = false |- _ => apply negb_false_iff in H end. breflect.
  unfold buf_len in *. simpl. lia.
Qed.

Lemma run_op_spec o d w : inv d -> op_ok o ->
  exists d' w' ev, run_op o d w = Some (d', w', ev) /\ inv d' /\ fifo d d' ev.
Proof.
  intros Hi Ho. destruct o as [data|data|data| |n|m|m|m|b|b]; simpl in *.
  - destruct (write_spec d data w Hi Ho) as (rc & d1 & w1 & ev & -> & Hi1 & _ & _ & _ & Hf & _). rewrite bind_Some_l. eauto 9.
  - pose proof (reserve_write_spec d data w Hi Ho) as Hr. destruct (kl_drain_reserve_write d data w) as [[[s d1] w1] ev].
    destruct Hr as (Hi1 & _ & _ & _ & _ & Hf). eauto 9.
  - pose proof (reserve_buffer_spec d data Hi Ho) as Hr. destruct (kl_drain_reserve_buffer d data) as [s d1].
    destruct Hr as (Hi1 & _ & _ & _ & _ & Hf). eauto 9.
  - destruct (flush_spec d w Hi) as (rc & d1 & w1 & ev & -> & Hi1 & Hf & _). rewrite bind_Some_l. eauto 9.
  - destruct (consume_spec d n w Hi) as (d1 & w1 & ev & -> & Hi1 & Hf & _). eauto 9.
  - pose proof (prealloc_spec d m w Hi Ho) as Hp. destruct (kl_drain_prealloc d m w) as [[rc d1] w1].
    destruct Hp. eauto 9.
  - eexists _, _, _. split; [done|]. split; [|by apply fifo_same]. by destruct Hi; split.
  - eexists _, _, _. split; [done|]. split; [|by apply fifo_same]. by destruct Hi; split.
  - eexists _, _, _. split; [done|]. split; [|by apply fifo_same]. by destruct Hi; split.
  - eexists _, _, _. split; [done|]. split; [|by apply fifo_same]. by destruct Hi; split.
Qed.

Lemma run_ops_spec os d w : inv d -> Forall op_ok os ->
  exists d' w' ev, run_ops os d w = Some (d', w', ev) /\ inv d' /\ fifo d d' ev.
Proof.
  intros Hi Hos. revert d w Hi. induction Hos as [|o os Ho _ IH]; intros d w Hi; simpl.
  { eauto 9 using fifo_refl. }
  destruct (run_op_spec o d w Hi Ho) as (d1 & w1 & ev & -> & Hi1 & Hf). rewrite bind_Some_l.
  destruct (IH d1 w1 Hi1) as (d2 & w2 & ev2 & -> & Hi2 & Hf2). rewrite bind_Some_l.
  eexists _, _, _. split; [done|]. split; [done|]. by eapply fifo_trans.
Qed.
(** C25.  The drain is a FIFO.  For every program of writes, reserving writes, flushes, consumes and
    settings on a fresh drain, every writer (partial, blocking, failing or lying about its count),
    every allocator and every [on_writable] that refills: all calls return, the buffered bytes fit
    the block, and the bytes that left followed by the bytes still buffered are exactly the bytes of
    the accepted writes, in order.  After a failure they are a prefix of what was offered. *)
Theorem drain_fifo (os : list op) (w : W) (Hos : Forall op_ok os) :
  exists d w' ev, run_ops os kl_drain_init w = Some (d, w', ev) /\ buf_len d <= buf_cap d /\
    if error d then out_of ev ++ buf d `prefix_of` offered_of ev
    else out_of ev ++ buf d = accepted_of ev.
Proof.
  destruct (run_ops_spec os kl_drain_init w drain_inv_init Hos) as (d & w' & ev & Heq & Hi & Hf).
  exists d, w', ev. split; [done|]. split; [apply Hi|]. unfold fifo in Hf. simpl in Hf.
  destruct (error d); [done|apply Hf].
Qed.

(** A flush always returns and fires at most one callback.  It reports 0 only with nothing
    left buffered (also when [on_writable] refilled the drain) and -1 only with the sticky error set;
    on a failed drain it and every write do nothing. *)
Lemma drain_flush_spec (d : KlDrain) (data : list Z) (w : W) (Hd : inv d) :
  (exists rc d' w' ev, kl_drain_flush d w = Some (rc, d', w', ev) /\ inv d' /\ (length (callbacks ev) <= 1)%nat /\
     (rc = 0 -> buf d' = []) /\ (rc = -1 -> error d' = true) /\ -1 <= rc <= 1) /\
  (error d = true -> kl_drain_flush d w = Some (-1, d, w, []) /\ kl_drain_write d data w = Some (-1, d, w, []) /\
     kl_drain_reserve_write d data w = (KL_DRAIN_WERROR, d, w, [])).
Proof.
  split.
  - destruct (flush_spec d w Hd) as (rc & d' & w' & ev & Heq & Hi & _ & Hc & H0 & H1 & Hr). eauto 12.
  - intros He. unfold kl_drain_flush, kl_drain_write, kl_drain_reserve_write, reserve_check. by rewrite He.
Qed.

(** A write returns, keeps the invariant and never grows the buffer past [max_size]; it fires no
    callback, and reports 0 exactly when the whole span was sent or buffered behind what was pending. *)
Lemma drain_write_spec (d : KlDrain) (data : list Z) (w : W)
    (Hd : inv d) (Hlen : Z.of_nat (length data) <= SIZE_MAX) (He : error d = false) :
  exists rc d' w' ev, kl_drain_write d data w = Some (rc, d', w', ev) /\ inv d' /\ callbacks ev = [] /\
    (0 < max_size d -> buf_len d' <= Z.max (max_size d) (buf_len d)) /\
    (rc = 0 /\ error d' = false /\ out_of ev ++ buf d' = buf d ++ data \/
     rc = -1 /\ (error d' = true /\ out_of ev ++ buf d' `prefix_of` buf d ++ data \/
                error d' = false /\ out_of ev ++ buf d' = buf d)).
Proof.
  destruct (write_spec d data w Hd Hlen) as (rc & d' & w' & ev & Heq & Hi & _ & Hs & Hrc & Hf & Hm).
  exists rc, d', w', ev. split_and!; auto using callbacks_sends.
  destruct (sends_silent ev Hs) as [Ha Ho]. unfold fifo, told in Hf. rewrite He in Hf. simpl in Hf.
  rewrite out_of_app, accepted_of_app, offered_of_app, Ha, Ho in Hf.
  destruct Hrc as [[-> Hok] | ->]; simpl in Hf.
  - rewrite (Hok He) in *. simpl in Hf. rewrite !app_nil_r in Hf. left. by destruct Hf.
  - right. split; [done|]. destruct (error d'); simpl in Hf; rewrite !app_nil_r in Hf; [left|right]; tauto.
Qed.

(** A reserving write on a preallocated drain is all or nothing: too large for the capacity or
    no room now means no byte was taken and nothing changed; otherwise either the whole span was
    sent or buffered in order within the capacity fixed at preallocation, or the writer failed and
    the error is sticky.  [kl_drain_reserve_buffer] decides the same way and never calls the writer. *)
Lemma reserve_atomic (d : KlDrain) (data : list Z) (w : W)
    (Hd : inv d) (Hpre : prealloc d = true) (He : error d = false) (Hne : data <> [])
    (Hlen : Z.of_nat (length data) <= SIZE_MAX) :
  let len := Z.of_nat (length data) in
  (buf_cap d < len -> kl_drain_reserve_write d data w = (KL_DRAIN_TOO_LARGE, d, w, []) /\
     kl_drain_reserve_buffer d data = (KL_DRAIN_TOO_LARGE, d)) /\
  (buf_cap d - buf_len d < len <= buf_cap d -> kl_drain_reserve_write d data w = (KL_DRAIN_WOULD_BLOCK, d, w, []) /\
     kl_drain_reserve_buffer d data = (KL_DRAIN_WOULD_BLOCK, d)) /\
  (len <= buf_cap d - buf_len d ->
     kl_drain_reserve_buffer d data = (KL_DRAIN_ACCEPTED, set_buf d (buf d ++ data)) /\
     let '(s, d', w', ev) := kl_drain_reserve_write d data w in
     buf_cap d' = buf_cap d /\ buf_len d' <= buf_cap d /\
     (s = KL_DRAIN_ACCEPTED /\ error d' = false /\ out_of ev ++ buf d' = buf d ++ data \/
      s = KL_DRAIN_WERROR /\ d' = set_error d /\ ev = [])).
Proof.
  set (len := Z.of_nat (length data)). assert (Hz : len <> 0) by (intros ?%length_zero; done).
  pose proof (inv_block _ Hd) as Hblk. pose proof (inv_len _ Hd) as Hl.
  assert (Hal : buf_alloc d = true) by (destruct (buf_alloc d); [done|]; destruct Hblk; congruence). rewrite Hal in Hblk.
  unfold kl_drain_reserve_write, kl_drain_reserve_buffer, reserve_check. rewrite He, Hpre, Hal. fold len.
  destruct (Z.eqb_spec len 0); [lia|]. destruct (Z.eqb_spec (buf_cap d) 0); [lia|]. simpl.
  destruct (Z.ltb_spec (buf_cap d) (buf_len d)); [lia|].
  pose proof (buf_len_nonneg d) as H0.
  split_and!; intros Hcase; destruct (Z.ltb_spec (buf_cap d) len); try lia; auto;
    destruct (Z.ltb_spec (buf_cap d - buf_len d) len); try lia; auto.
  split; [done|]. destruct (Z.eqb_spec (buf_len d) 0) as [Hb0|Hb0].
  - assert (Hb : buf d = []) by by apply length_zero. destruct (write_fn w data) as [k w1].
    destruct (Z.ltb_spec k 0); [by auto 6|]. destruct (Z.ltb_spec len k); [by auto 6|].
    destruct (Z.eqb_spec k len); (split; [done|]); split; try lia.
    + left. simpl. by rewrite Hb, !app_nil_r.
    + unfold buf_len. simpl. rewrite length_drop. lia.
    + left. simpl. rewrite Hb, app_nil_r. split_and!; auto. apply take_drop.
  - split; [done|]. split; [unfold buf_len in *; simpl; rewrite length_app; lia|]. left. auto.
Qed.
End facts.

(** A concrete writer that takes at most three bytes and blocks every third call, and a low-water
    callback that refills once. *)
#[local] Instance slow_writer : DrainEnv nat := {
  write_fn w data := (if (w mod 3 =? 2)%nat then 0 else Z.min 3 (Z.of_nat (length data)), S w);
  realloc_ok w _ := (true, w);
  writable_cb w := (RfWrite (bytes "more") (fun _ => RfDone), w)
}.

Lemma slow_writer_cb (w : nat) : refill_ok (writable_cb w).1.
Proof. split; [by vm_compute|done]. Qed.

Definition sample_ops : list op :=
  [OPrealloc 16; OLowWater 4; OOnWritable true; OReserve (bytes "hello world"); OBuffer (bytes "!"); OFlush; OFlush].

Lemma sample_ops_ok : Forall op_ok sample_ops.
Proof. repeat constructor; by vm_compute. Qed.

Lemma drain_fifo_witness :
  exists d w' ev, run_ops sample_ops kl_drain_init 0%nat = Some (d, w', ev) /\ buf_len d <= buf_cap d.
Proof.
  destruct (drain_fifo slow_writer_cb sample_ops 0%nat sample_ops_ok) as (d & w' & ev & Heq & Hl & _).
  exists d, w', ev. auto.
Defined.

Definition sample_drain : KlDrain := MkDrain true (bytes "pending") 16 16 false true true 4 true.

Lemma sample_drain_inv : inv sample_drain.
Proof. by split. Qed.

End Drain.
