(* ===== verification/Router.v ===== *)
(** * The HTTP router (src/src/protocols/http/http_router.c, http_router_internal.h,
    src/include/keel/http_router.h)

    Route and middleware tables, path matching, and the dispatch pipeline.  A pattern or a path is
    the list of its bytes.  Handlers and middleware are an environment: calling one may change the
    request, the response and anything else, collected in [W]. *)
From S2P Require Import Prelude.

Module Router.

(** ** Data *)

Definition KL_ROUTER_INIT_CAP : Z := 16.
Definition KL_MW_INIT_CAP : Z := 8.
Definition KL_HTTP_ROUTER_MAX_PARAMS : nat := 16.
Definition KL_HTTP_ROUTER_MAX_POST_MIDDLEWARE : Z := 64.

Record KlHttpParam := MkParam { name : list Z; value : list Z }.

(** [handler], [body_reader] and a middleware's [fn] are names of functions; 0 is NULL. *)
Record KlHttpRoute := MkRoute {
  method : list Z;
  pattern : list Z;
  handler : Z;
  user_data : Z;
  body_reader : Z;
  streaming_handler : bool;
  streaming_async : bool
}.

Record KlHttpMiddlewareEntry := MkMw { mw_method : list Z; mw_pattern : list Z; fn : Z; mw_user_data : Z }.

Record KlHttpRouter := MkRouter {
  routes : list KlHttpRoute;
  capacity : Z;
  middleware : list KlHttpMiddlewareEntry;
  mw_capacity : Z;
  post_middleware : list KlHttpMiddlewareEntry;
  post_mw_capacity : Z
}.

(** The fields of KlHttpRequest the router reads or writes; [params] is the first [num_params]. *)
Record KlHttpRequest := MkReq { req_method : list Z; req_path : list Z; params : list KlHttpParam }.

(** ** Registration *)

(** [alloc_ok] is whether the allocator delivers. *)
Definition kl_http_router_init (alloc_ok : bool) : option KlHttpRouter :=
  if alloc_ok then Some (MkRouter [] KL_ROUTER_INIT_CAP [] 0 [] 0) else None.

Definition kl_http_router_add (r : KlHttpRouter) (m p : list Z) (h ud br : Z) (alloc_ok : bool) : option KlHttpRouter :=
  if h =? 0 then None
  else
    let count := Z.of_nat (length (routes r)) in
    let route := MkRoute m p h ud br false false in
    let put cap := Some (MkRouter (routes r ++ [route]) cap (middleware r) (mw_capacity r)
                           (post_middleware r) (post_mw_capacity r)) in
    if capacity r <=? count then
      if INT_MAX / 2 <? capacity r then None
      else if negb alloc_ok then None
      else put (capacity r * 2)
    else put (capacity r).

(** Mark the entry just appended. *)
Definition mark_last (async : bool) (r : KlHttpRouter) : KlHttpRouter :=
  let f rt := MkRoute (method rt) (pattern rt) (handler rt) (user_data rt) (body_reader rt) true
                (async || streaming_async rt) in
  MkRouter (alter f (pred (length (routes r))) (routes r)) (capacity r) (middleware r) (mw_capacity r)
    (post_middleware r) (post_mw_capacity r).

Definition kl_http_router_add_streaming (r : KlHttpRouter) (m p : list Z) (h ud br : Z) (alloc_ok : bool)
    : option KlHttpRouter :=
  if br =? 0 then None else mark_last false <$> kl_http_router_add r m p h ud br alloc_ok.

Definition kl_http_router_add_streaming_async (r : KlHttpRouter) (m p : list Z) (h ud br : Z) (alloc_ok : bool)
    : option KlHttpRouter :=
  if br =? 0 then None else mark_last true <$> kl_http_router_add r m p h ud br alloc_ok.

(** The growth both middleware tables share: the capacity for one more entry. *)
Definition mw_grow (count cap : Z) (alloc_ok : bool) : option Z :=
  if cap <=? count then
    if cap =? 0 then if alloc_ok then Some KL_MW_INIT_CAP else None
    else if INT_MAX / 2 <? cap then None
    else if alloc_ok then Some (cap * 2) else None
  else Some cap.

Definition kl_http_router_use (r : KlHttpRouter) (m p : list Z) (f ud : Z) (alloc_ok : bool) : option KlHttpRouter :=
  if f =? 0 then None
  else
    cap ← mw_grow (Z.of_nat (length (middleware r))) (mw_capacity r) alloc_ok;
    Some (MkRouter (routes r) (capacity r) (middleware r ++ [MkMw m p f ud]) cap
            (post_middleware r) (post_mw_capacity r)).

Definition kl_http_router_use_post (r : KlHttpRouter) (m p : list Z) (f ud : Z) (alloc_ok : bool) : option KlHttpRouter :=
  if f =? 0 then None
  else if KL_HTTP_ROUTER_MAX_POST_MIDDLEWARE <=? Z.of_nat (length (post_middleware r)) then None
  else
    cap ← mw_grow (Z.of_nat (length (post_middleware r))) (post_mw_capacity r) alloc_ok;
    Some (MkRouter (routes r) (capacity r) (middleware r) (mw_capacity r)
            (post_middleware r ++ [MkMw m p f ud]) cap).

(** ** Path matching *)

(** [if (p < end && *p == '/') p++]. *)
Definition skip_slash (l : list Z) : list Z :=
  match l with c :: l' => if c =? c_slash then l' else l | [] => [] end.

(** From the start of a segment: the segment, and the rest from its slash on. *)
Fixpoint segment (l : list Z) : list Z * list Z :=
  match l with
  | [] => ([], [])
  | c :: l' => if c =? c_slash then ([], l) else let '(s, rest) := segment l' in (c :: s, rest)
  end.

(** The [while] loop, [pp] and [rp] being what is left of pattern and path; every round consumes at
    least a byte of the pattern. *)
Fixpoint match_loop (fuel : nat) (pp rp : list Z) (params : list KlHttpParam) : option (bool * list KlHttpParam) :=
  match pp, rp with
  | _ :: _, _ :: _ =>
      match fuel with
      | O => None
      | S fuel' =>
          let '(ps, pp1) := segment pp in
          let '(rs, rp1) := segment rp in
          if (0 <? length ps)%nat && (deref ps =? c_colon) then
            let params1 := if (length params <? KL_HTTP_ROUTER_MAX_PARAMS)%nat
                           then params ++ [MkParam (tail ps) rs] else params in
            match_loop fuel' (skip_slash pp1) (skip_slash rp1) params1
          else if negb (span_eqb ps rs) then Some (false, params)
          else match_loop fuel' (skip_slash pp1) (skip_slash rp1) params
      end
  | _, _ => Some (match pp, rp with [], [] => true | _, _ => false end, params)
  end.

Definition match_path (pattern path : list Z) : option (bool * list KlHttpParam) :=
  match_loop (length pattern) (skip_slash pattern) (skip_slash path) [].

(** ** Middleware *)

Definition is_HEAD (m : list Z) : bool := span_eqb m (bytes "HEAD").
Definition is_GET (m : list Z) : bool := span_eqb m (bytes "GET").

Definition match_middleware_pattern (method mw_method pattern path : list Z) : option bool :=
  let ok := span_eqb mw_method method in
  let ok := ok || (is_HEAD method && is_GET mw_method) in
  if negb (deref mw_method =? c_star) && negb ok then Some false
  else
    let pat_len := length pattern in
    if (2 <=? pat_len)%nat && span_eqb (drop (pat_len - 2) pattern) [c_slash; c_star] then
      let prefix_len := (pat_len - 2)%nat in
      if (prefix_len =? 0)%nat then Some true
      else if (length path <? prefix_len)%nat then Some false
      else if negb (span_eqb (take prefix_len pattern) (take prefix_len path)) then Some false
      else Some ((length path =? prefix_len)%nat || (deref (drop prefix_len path) =? c_slash))
    else '(b, _) ← match_path pattern path; Some b.

Definition mw_matches (mw : KlHttpMiddlewareEntry) (req : KlHttpRequest) : option bool :=
  match_middleware_pattern (req_method req) (mw_method mw) (mw_pattern mw) (req_path req).

(** Bit [i] of the result is entry [i]. *)
Fixpoint post_match_loop (mws : list KlHttpMiddlewareEntry) (req : KlHttpRequest) (i matched : Z) : option Z :=
  match mws with
  | [] => Some matched
  | mw :: rest =>
      b ← mw_matches mw req;
      post_match_loop rest req (i + 1) (if b : bool then Z.lor matched (u64 (Z.shiftl 1 i)) else matched)
  end.

Definition kl_http_router_post_match (r : KlHttpRouter) (req : KlHttpRequest) : option Z :=
  post_match_loop (post_middleware r) req 0 0.

(** ** Route matching *)

Definition method_ok (route : KlHttpRoute) (m : list Z) : bool :=
  (deref (method route) =? c_star) || span_eqb (method route) m || (is_HEAD m && is_GET (method route)).

Fixpoint route_loop (rs : list KlHttpRoute) (m path : list Z) (path_matched : bool)
    : option (Z * option KlHttpRoute * list KlHttpParam) :=
  match rs with
  | [] => Some (if path_matched then 405 else 404, None, [])
  | route :: rest =>
      '(b, ps) ← match_path (pattern route) path;
      if negb b then route_loop rest m path path_matched
      else if method_ok route m then Some (200, Some route, ps)
      else route_loop rest m path true
  end.

Definition kl_http_router_match (r : KlHttpRouter) (m path : list Z)
    : option (Z * option KlHttpRoute * list KlHttpParam) :=
  route_loop (routes r) m path false.

(** ** Running *)

(** The code behind handlers and middleware; a middleware's result is its return value. *)
Class HttpEnv (W : Type) := {
  mw_call : Z -> Z -> KlHttpRequest -> W -> Z * KlHttpRequest * W;
  handler_call : Z -> Z -> KlHttpRequest -> W -> KlHttpRequest * W;
  response_status : Z -> W -> W
}.

(** What ran, in order. *)
Inductive event := MwRan (mw : KlHttpMiddlewareEntry) (rc : Z) | HandlerRan (route : KlHttpRoute) | StatusSet (s : Z).

Section run.
  Context {W : Type} `{E : HttpEnv W}.

Definition result : Type := Z * KlHttpRequest * W * list event.

Fixpoint run_middleware_loop (mws : list KlHttpMiddlewareEntry) (req : KlHttpRequest) (w : W) : option result :=
  match mws with
  | [] => Some (0, req, w, [])
  | mw :: rest =>
      b ← mw_matches mw req;
      if b : bool then
        let '(rc, req1, w1) := mw_call (fn mw) (mw_user_data mw) req w in
        if negb (rc =? 0) then Some (rc, req1, w1, [MwRan mw rc])
        else
          '(rc2, req2, w2, ev) ← run_middleware_loop rest req1 w1;
          Some (rc2, req2, w2, MwRan mw rc :: ev)
      else run_middleware_loop rest req w
  end.

Definition kl_http_router_run_middleware (r : KlHttpRouter) (req : KlHttpRequest) (w : W) : option result :=
  run_middleware_loop (middleware r) req w.

Fixpoint run_post_loop (mws : list KlHttpMiddlewareEntry) (i matched : Z) (req : KlHttpRequest) (w : W) : result :=
  match mws with
  | [] => (0, req, w, [])
  | mw :: rest =>
      if Z.land matched (u64 (Z.shiftl 1 i)) =? 0 then run_post_loop rest (i + 1) matched req w
      else
        let '(rc, req1, w1) := mw_call (fn mw) (mw_user_data mw) req w in
        if negb (rc =? 0) then (rc, req1, w1, [MwRan mw rc])
        else
          let '(rc2, req2, w2, ev) := run_post_loop rest (i + 1) matched req1 w1 in
          (rc2, req2, w2, MwRan mw rc :: ev)
  end.

Definition kl_http_router_run_post_matched (r : KlHttpRouter) (req : KlHttpRequest) (w : W) (matched : Z) : result :=
  run_post_loop (post_middleware r) 0 matched req w.

Definition kl_http_router_run_post_middleware (r : KlHttpRouter) (req : KlHttpRequest) (w : W) : option result :=
  matched ← kl_http_router_post_match r req;
  Some (kl_http_router_run_post_matched r req w matched).

(** The pipeline after matching: handler, or the status of the miss. *)
Definition dispatch_tail (status : Z) (matched : option KlHttpRoute) (req : KlHttpRequest) (w : W) : result :=
  match matched with
  | Some route =>
      if status =? 200 then
        let '(req1, w1) := handler_call (handler route) (user_data route) req w in
        (200, req1, w1, [HandlerRan route])
      else (status, req, response_status status w, [StatusSet status])
  | None => (status, req, response_status status w, [StatusSet status])
  end.

Definition kl_http_router_dispatch_synthetic (r : KlHttpRouter) (req : KlHttpRequest) (w : W) (run_middleware : bool)
    : option result :=
  '(status, matched, ps) ← kl_http_router_match r (req_method req) (req_path req);
  let req := MkReq (req_method req) (req_path req) (take KL_HTTP_ROUTER_MAX_PARAMS ps) in
  let miss := negb (status =? 200) || bool_decide (matched = None) in
  if negb run_middleware && miss then Some (status, req, w, [])
  else if run_middleware then
    '(rc1, req1, w1, ev1) ← kl_http_router_run_middleware r req w;
    if negb (rc1 =? 0) then Some (rc1, req1, w1, ev1)
    else
      '(rc2, req2, w2, ev2) ← kl_http_router_run_post_middleware r req1 w1;
      if negb (rc2 =? 0) then Some (rc2, req2, w2, ev1 ++ ev2)
      else
        let '(rc3, req3, w3, ev3) := dispatch_tail status matched req2 w2 in
        Some (rc3, req3, w3, ev1 ++ ev2 ++ ev3)
  else Some (dispatch_tail status matched req w).

End run.

(** ** Reference: paths as lists of segments *)

(** The text between slashes. *)
Fixpoint split_slash (l : list Z) : list (list Z) :=
  match l with
  | [] => [[]]
  | c :: l' =>
      if c =? c_slash then [] :: split_slash l'
      else match split_slash l' with s :: ss => (c :: s) :: ss | [] => [[c]] end
  end.

(** One trailing slash does not count. *)
Definition trim (ss : list (list Z)) : list (list Z) :=
  match last ss with Some [] => removelast ss | _ => ss end.

Definition segs (l : list Z) : list (list Z) := trim (split_slash l).
Definition segments (path : list Z) : list (list Z) := segs (skip_slash path).

Definition is_param (p : list Z) : bool := match p with c :: _ => c =? c_colon | [] => false end.

Fixpoint segs_match (ps rs : list (list Z)) : bool :=
  match ps, rs with
  | [], [] => true
  | p :: ps', r :: rs' => (is_param p || span_eqb p r) && segs_match ps' rs'
  | _, _ => false
  end.

Fixpoint captures (ps rs : list (list Z)) : list KlHttpParam :=
  match ps, rs with
  | p :: ps', r :: rs' => if is_param p then MkParam (tail p) r :: captures ps' rs' else captures ps' rs'
  | _, _ => []
  end.

(** Does the route serve the path? *)
Definition serves (pattern path : list Z) : bool := segs_match (segments pattern) (segments path).

Lemma split_slash_nonempty l : split_slash l <> [].
Proof. destruct l as [|c l]; simpl; [done|]. case_if; [done|]. by destruct (split_slash l). Qed.

Lemma segment_split l s rest : segment l = (s, rest) ->
  l = s ++ rest /\ (c_slash ∉ s) /\
  match rest with
  | [] => split_slash l = [s]
  | c :: rest' => c = c_slash /\ split_slash l = s :: split_slash rest'
  end.
Proof.
  revert s rest. induction l as [|c l IH]; intros s rest; simpl.
  - intros [= <- <-]. split_and!; [done|apply not_elem_of_nil|done].
  - destruct (Z.eqb_spec c c_slash) as [->|Hc].
    + intros [= <- <-]. split_and!; [done|apply not_elem_of_nil|done|done].
    + destruct (segment l) as [s' rest'] eqn:Es. intros [= <- <-]. destruct (IH s' rest' eq_refl) as (-> & Hin & Hs).
      split_and!; [done|by apply not_elem_of_cons|]. destruct rest' as [|c' r']; [by rewrite Hs|].
      destruct Hs as [-> ->]. done.
Qed.

Lemma trim_cons s ss : ss <> [] -> trim (s :: ss) = s :: trim ss.
Proof.
  intros Hne. unfold trim. destruct ss as [|t ss]; [done|]. change (last (s :: t :: ss)) with (last (t :: ss)).
  destruct (last (t :: ss)) as [[|]|]; done.
Qed.

Lemma segs_step l s rest : l <> [] -> segment l = (s, rest) -> segs l = s :: segs (skip_slash rest).
Proof.
  intros Hl Hs. destruct (segment_split l s rest Hs) as (He & _ & Hsp). unfold segs. destruct rest as [|c r].
  - rewrite Hsp. rewrite app_nil_r in He. subst. destruct s; [done|]. done.
  - destruct Hsp as [-> ->]. simpl. apply trim_cons, split_slash_nonempty.
Qed.

Lemma skip_slash_length l : (length (skip_slash l) <= length l)%nat.
Proof. destruct l; simpl; [lia|]. case_if; simpl; lia. Qed.

(** A round of the loop shortens the pattern. *)
Lemma segment_shrinks l s rest : l <> [] -> segment l = (s, rest) -> (length (skip_slash rest) < length l)%nat.
Proof.
  intros Hl Hs. destruct (segment_split l s rest Hs) as (-> & _ & Hsp). rewrite length_app.
  pose proof (skip_slash_length rest). destruct rest as [|c r].
  - rewrite app_nil_r in Hl. destruct s; [done|]. simpl in *. lia.
  - destruct Hsp as [-> _]. simpl. lia.
Qed.

Lemma match_loop_spec fuel pp rp ps : (length pp <= fuel)%nat -> (length ps <= KL_HTTP_ROUTER_MAX_PARAMS)%nat ->
  exists ps', match_loop fuel pp rp ps = Some (segs_match (segs pp) (segs rp), ps') /\
    (segs_match (segs pp) (segs rp) = true -> ps' = take KL_HTTP_ROUTER_MAX_PARAMS (ps ++ captures (segs pp) (segs rp))).
Proof.
  assert (Hnil : forall ps : list KlHttpParam, (length ps <= KL_HTTP_ROUTER_MAX_PARAMS)%nat -> ps = take KL_HTTP_ROUTER_MAX_PARAMS (ps ++ [])).
  { intros l Hl. by rewrite app_nil_r, take_ge. }
  assert (Hne : forall l, l <> [] -> exists s ss, segs l = s :: ss).
  { intros l Hl. destruct (segment l) as [s rest] eqn:Es. rewrite (segs_step l s rest Hl Es). eauto. }
  revert pp rp ps. induction fuel as [|fuel IH]; intros pp rp ps Hf Hps; cbn [match_loop].
  all: destruct pp as [|c pp], rp as [|c' rp]; change (segs []) with (@nil (list Z));
    [eexists; split; [done|]; intros _; by apply Hnil
    |destruct (Hne (c' :: rp) ltac:(done)) as (s & ss & ->); eexists; by split
    |destruct (Hne (c :: pp) ltac:(done)) as (s & ss & ->); eexists; by split|].
  { simpl in Hf. lia. }
  destruct (segment (c :: pp)) as [s1 r1] eqn:E1, (segment (c' :: rp)) as [s2 r2] eqn:E2.
  rewrite (segs_step (c :: pp) s1 r1 ltac:(done) E1), (segs_step (c' :: rp) s2 r2 ltac:(done) E2). cbn [segs_match captures].
  pose proof (segment_shrinks (c :: pp) s1 r1 ltac:(done) E1) as Hlt.
  assert (Hpar : (0 <? length s1)%nat && (deref s1 =? c_colon) = is_param s1) by by destruct s1.
  rewrite Hpar. destruct (is_param s1) eqn:Ep; cbn [orb andb].
  - destruct (Nat.ltb_spec (length ps) KL_HTTP_ROUTER_MAX_PARAMS) as [Hm|Hm].
    + destruct (IH (skip_slash r1) (skip_slash r2) (ps ++ [MkParam (tail s1) s2])) as (ps' & -> & Hps');
        [lia|rewrite length_app; simpl; lia|]. exists ps'. split; [done|]. by rewrite <- app_assoc in Hps'.
    + destruct (IH (skip_slash r1) (skip_slash r2) ps) as (ps' & -> & Hps'); [lia|done|].
      exists ps'. split; [done|]. intros Hb. rewrite (Hps' Hb), !take_app_le by lia. done.
  - destruct (span_eqb s1 s2); cbn [negb andb]; [|eexists; by split].
    apply IH; [lia|done].
Qed.

Lemma match_path_serves pattern path :
  exists ps, match_path pattern path = Some (serves pattern path, ps) /\
    (serves pattern path = true ->
     ps = take KL_HTTP_ROUTER_MAX_PARAMS (captures (segments pattern) (segments path))).
Proof.
  unfold match_path, serves, segments.
  apply (match_loop_spec (length pattern) (skip_slash pattern) (skip_slash path) []);
    [apply skip_slash_length|simpl; lia].
Qed.
(** Path matching is segment-wise: a pattern serves a path exactly when, one leading and one
    trailing slash aside, they have the same number of segments and every segment of the pattern is
    a [:name] or equal to the path's.  The loop always ends; the parameters are the first sixteen
    captured segments with their names, in order. *)
Lemma match_path_spec (pattern path : list Z) :
  exists ps, match_path pattern path = Some (segs_match (segments pattern) (segments path), ps) /\
    (segs_match (segments pattern) (segments path) = true ->
     ps = take KL_HTTP_ROUTER_MAX_PARAMS (captures (segments pattern) (segments path))).
Proof. exact (match_path_serves pattern path). Qed.

Definition takes (m path : list Z) (rt : KlHttpRoute) : bool := serves (pattern rt) path && method_ok rt m.

Lemma route_loop_spec rs m path pm :
  route_loop rs m path pm =
  Some (match List.find (takes m path) rs with
        | Some rt => (200, Some rt, take KL_HTTP_ROUTER_MAX_PARAMS (captures (segments (pattern rt)) (segments path)))
        | None => (if pm || existsb (fun rt => serves (pattern rt) path) rs then 405 else 404, None, [])
        end).
Proof.
  revert pm. induction rs as [|rt rs IH]; intros pm; simpl; [by rewrite orb_false_r|].
  destruct (match_path_serves (pattern rt) path) as (ps & -> & Hps). rewrite bind_Some_l. unfold takes at 1.
  destruct (serves (pattern rt) path); simpl; [|by rewrite IH].
  destruct (method_ok rt m); [by rewrite Hps|]. rewrite IH. by rewrite orb_true_r.
Qed.

(** C37.  Routing picks the first registered route that serves the path and accepts the method (a
    HEAD request also accepts GET routes), with its parameters; without one the answer is 405 when
    some route serves the path and 404 otherwise. *)
Theorem router_match_spec (r : KlHttpRouter) (m path : list Z) :
  kl_http_router_match r m path =
  Some (match List.find (takes m path) (routes r) with
        | Some rt => (200, Some rt, take KL_HTTP_ROUTER_MAX_PARAMS (captures (segments (pattern rt)) (segments path)))
        | None => (if existsb (fun rt => serves (pattern rt) path) (routes r) then 405 else 404, None, [])
        end).
Proof. apply route_loop_spec. Qed.

(** ** Middleware covers routes *)

(** The text of a list of segments. *)
Fixpoint join (ss : list (list Z)) : list Z :=
  match ss with
  | [] => []
  | [s] => s
  | s :: ss' => s ++ c_slash :: join ss'
  end.

Lemma join_cons s ss : ss <> [] -> join (s :: ss) = s ++ c_slash :: join ss.
Proof. by destruct ss. Qed.

Lemma join_split l : join (split_slash l) = l.
Proof.
  induction l as [|c l IH]; [done|]. simpl. destruct (Z.eqb_spec c c_slash) as [->|Hc].
  - rewrite join_cons by apply split_slash_nonempty. by rewrite IH.
  - destruct (split_slash l) as [|s ss] eqn:Es; [by apply split_slash_nonempty in Es|].
    destruct ss as [|t ss]; simpl in *; by rewrite <- IH.
Qed.

Lemma join_app xs ys : xs <> [] -> ys <> [] -> join (xs ++ ys) = join xs ++ c_slash :: join ys.
Proof.
  intros Hx Hy. induction xs as [|x xs IH]; [done|]. destruct xs as [|x' xs].
  - simpl app. by rewrite join_cons.
  - change ((x :: x' :: xs) ++ ys) with (x :: ((x' :: xs) ++ ys)). rewrite !join_cons by done. rewrite IH by done.
    by rewrite <- app_assoc.
Qed.

Lemma split_slash_app a b : split_slash (a ++ c_slash :: b) = split_slash a ++ split_slash b.
Proof.
  induction a as [|c a IH]; [done|]. cbn [app split_slash]. destruct (c =? c_slash); rewrite IH; [done|].
  destruct (split_slash a) as [|s ss] eqn:Es; [by apply split_slash_nonempty in Es|done].
Qed.

(** A text whose segments start with those of [a] is [a], or goes on with a slash. *)
Lemma split_prefix a q ss : split_slash q = split_slash a ++ ss -> q = a \/ exists b, q = a ++ c_slash :: b.
Proof.
  intros H. apply (f_equal join) in H. rewrite join_split in H. destruct ss as [|s ss].
  - left. by rewrite app_nil_r, join_split in H.
  - right. rewrite join_app, join_split in H; [eauto|apply split_slash_nonempty|done].
Qed.

Lemma trim_split l : exists e, split_slash l = segs l ++ e.
Proof.
  unfold segs, trim. destruct (last (split_slash l)) as [[|c t]|] eqn:El; [|exists []; by rewrite app_nil_r..].
  exists [[]]. apply last_Some in El as [k ->]. by rewrite removelast_last.
Qed.

Lemma trim_keeps xs ys : xs <> [] -> last xs <> Some [] -> exists zs, trim (xs ++ ys) = xs ++ zs.
Proof.
  intros Hx Hl. unfold trim. destruct ys as [|y ys].
  - rewrite app_nil_r. exists []. rewrite app_nil_r. destruct (last xs) as [[]|]; done.
  - destruct (last (xs ++ y :: ys)) as [[|]|]; [|by eexists..].
    exists (removelast (y :: ys)). by rewrite removelast_app.
Qed.

Lemma segs_match_literal xs ys rs : Forall (fun p => is_param p = false) xs -> segs_match (xs ++ ys) rs = true ->
  exists zs, rs = xs ++ zs.
Proof.
  intros Hx. revert rs. induction Hx as [|x xs Hp _ IH]; intros rs; [by exists rs|].
  destruct rs as [|r rs]; [done|]. simpl. rewrite Hp. simpl. rewrite andb_true_iff. intros [He Hm].
  apply span_eqb_true in He as ->. destruct (IH rs Hm) as [zs ->]. by exists zs.
Qed.

(** A literal prefix of a pattern is a prefix of every path it serves, up to a slash. *)
Lemma literal_prefix p rest q :
  Forall (fun s => is_param s = false) (split_slash p) -> last (split_slash p) <> Some [] ->
  segs_match (segs (p ++ rest)) (segs q) = true -> (rest = [] \/ exists rest', rest = c_slash :: rest') ->
  q = p \/ exists b, q = p ++ c_slash :: b.
Proof.
  intros Hlit Hlast Hm Hrest.
  assert (exists zs, segs (p ++ rest) = split_slash p ++ zs) as [zs Hz].
  { destruct Hrest as [->|[rest' ->]]; unfold segs.
    - rewrite app_nil_r. destruct (trim_keeps (split_slash p) []) as [zs Hzs]; [apply split_slash_nonempty|done|].
      rewrite app_nil_r in Hzs. eauto.
    - rewrite split_slash_app. apply trim_keeps; [apply split_slash_nonempty|done]. }
  rewrite Hz in Hm. destruct (segs_match_literal _ _ _ Hlit Hm) as [ys Hy].
  destruct (trim_split q) as [e He]. rewrite Hy, <- app_assoc in He. by eapply split_prefix.
Qed.

(** A middleware pattern guards a route pattern for a request path: everything is guarded, the same
    pattern is, and a literal prefix is for the paths that start with a slash. *)
Inductive guards : list Z -> list Z -> list Z -> Prop :=
  | guards_all pat path : guards [c_slash; c_star] pat path
  | guards_same pat path : (forall p, pat <> p ++ [c_slash; c_star]) -> guards pat pat path
  | guards_prefix p rest q :
      Forall (fun s => is_param s = false) (split_slash p) -> last (split_slash p) <> Some [] ->
      (rest = [] \/ exists rest', rest = c_slash :: rest') ->
      guards (c_slash :: p ++ [c_slash; c_star]) (c_slash :: p ++ rest) (c_slash :: q).

Lemma prefix_pattern_split p :
  (2 <=? length (p ++ [c_slash; c_star]))%nat = true /\
  drop (length (p ++ [c_slash; c_star]) - 2) (p ++ [c_slash; c_star]) = [c_slash; c_star] /\
  take (length (p ++ [c_slash; c_star]) - 2) (p ++ [c_slash; c_star]) = p.
Proof.
  rewrite length_app. change (length [c_slash; c_star]) with 2%nat. replace (length p + 2 - 2)%nat with (length p) by lia.
  split_and!; [apply Nat.leb_le; lia|by rewrite drop_app_length|by rewrite take_app_length].
Qed.

Lemma not_prefix_pattern pat : (forall p, pat <> p ++ [c_slash; c_star]) ->
  (2 <=? length pat)%nat && span_eqb (drop (length pat - 2) pat) [c_slash; c_star] = false.
Proof.
  intros H. destruct (2 <=? length pat)%nat eqn:El; [|done]. simpl.
  destruct (span_eqb _ _) eqn:Es; [|done]. apply span_eqb_true in Es.
  destruct (H (take (length pat - 2) pat)). by rewrite <- Es, take_drop.
Qed.

(** The prefix form, for a path within the prefix. *)
Lemma prefix_guard p q : q = p \/ (exists b, q = p ++ c_slash :: b) -> forall m mwm,
  negb (deref mwm =? c_star) && negb (span_eqb mwm m || (is_HEAD m && is_GET mwm)) = false ->
  match_middleware_pattern m mwm (c_slash :: p ++ [c_slash; c_star]) (c_slash :: q) = Some true.
Proof.
  intros Hq m mwm Hm. unfold match_middleware_pattern. rewrite Hm.
  change (c_slash :: p ++ [c_slash; c_star]) with ((c_slash :: p) ++ [c_slash; c_star]).
  destruct (prefix_pattern_split (c_slash :: p)) as (-> & -> & Ht). rewrite Ht.
  replace (length ((c_slash :: p) ++ [c_slash; c_star]) - 2)%nat with (length (c_slash :: p)) by (rewrite length_app; simpl; lia).
  rewrite (bool_decide_eq_true_2 _ eq_refl : span_eqb [c_slash; c_star] [c_slash; c_star] = true). cbn [andb].
  destruct (Nat.eqb_spec (length (c_slash :: p)) 0); [simpl in *; lia|]. destruct Hq as [->|[b ->]].
  - destruct (Nat.ltb_spec (length (c_slash :: p)) (length (c_slash :: p))); [lia|].
    rewrite take_ge by lia. rewrite (bool_decide_eq_true_2 _ eq_refl : span_eqb (c_slash :: p) (c_slash :: p) = true).
    by rewrite Nat.eqb_refl.
  - change (c_slash :: p ++ c_slash :: b) with ((c_slash :: p) ++ c_slash :: b).
    destruct (Nat.ltb_spec (length ((c_slash :: p) ++ c_slash :: b)) (length (c_slash :: p))) as [Hlt|];
      [rewrite length_app in Hlt; lia|].
    rewrite take_app_length, drop_app_length.
    rewrite (bool_decide_eq_true_2 _ eq_refl : span_eqb (c_slash :: p) (c_slash :: p) = true). simpl.
    by rewrite orb_true_r.
Qed.


(** The prefix form does need the leading slash: a target without one is served, and not guarded. *)
Example relative_target :
  serves (bytes "/admin/keys") (bytes "admin/keys") = true /\
  match_middleware_pattern (bytes "GET") (bytes "*") (bytes "/admin/*") (bytes "admin/keys") = Some false.
Proof. by vm_compute. Qed.

(** ** Routers built by the registration functions *)

Inductive built : KlHttpRouter -> Prop :=
  | built_init r : kl_http_router_init true = Some r -> built r
  | built_add r r' m p h ud br ok : built r -> kl_http_router_add r m p h ud br ok = Some r' -> built r'
  | built_streaming r r' m p h ud br ok : built r -> kl_http_router_add_streaming r m p h ud br ok = Some r' -> built r'
  | built_async r r' m p h ud br ok : built r -> kl_http_router_add_streaming_async r m p h ud br ok = Some r' -> built r'
  | built_use r r' m p f ud ok : built r -> kl_http_router_use r m p f ud ok = Some r' -> built r'
  | built_use_post r r' m p f ud ok : built r -> kl_http_router_use_post r m p f ud ok = Some r' -> built r'.

(** Every entry fits its table, every route and middleware is callable, and a post-body set fits 64 bits. *)
Record inv (r : KlHttpRouter) : Prop := {
  inv_routes : Z.of_nat (length (routes r)) <= capacity r <= INT_MAX /\ 0 < capacity r;
  inv_mw : Z.of_nat (length (middleware r)) <= mw_capacity r <= INT_MAX;
  inv_post : Z.of_nat (length (post_middleware r)) <= post_mw_capacity r <= INT_MAX;
  inv_post_count : Z.of_nat (length (post_middleware r)) <= KL_HTTP_ROUTER_MAX_POST_MIDDLEWARE;
  inv_handlers : Forall (fun rt => handler rt <> 0 /\ (streaming_handler rt = true -> body_reader rt <> 0) /\
                          (streaming_async rt = true -> streaming_handler rt = true)) (routes r);
  inv_fns : Forall (fun mw => fn mw <> 0) (middleware r ++ post_middleware r)
}.

Lemma add_inv r r' m p h ud br ok : inv r -> kl_http_router_add r m p h ud br ok = Some r' -> inv r'.
Proof.
  intros [[H1 H1'] H2 H3 H4 H5 H6]. unfold kl_http_router_add. destruct (Z.eqb_spec h 0); [done|]. change (INT_MAX / 2) with 1073741823.
  assert (Hput : forall cap, Z.of_nat (length (routes r)) < cap <= INT_MAX ->
    inv (MkRouter (routes r ++ [MkRoute m p h ud br false false]) cap (middleware r) (mw_capacity r)
      (post_middleware r) (post_mw_capacity r))).
  { intros cap Hc. split; simpl; auto; [rewrite length_app; simpl; lia|]. apply Forall_app. split; [done|].
    by repeat constructor. }
  destruct (Z.leb_spec (capacity r) (Z.of_nat (length (routes r)))).
  - destruct (Z.ltb_spec 1073741823 (capacity r)); [done|]. destruct ok; simpl; [|done]. intros [= <-]. apply Hput. lia.
  - intros [= <-]. apply Hput. lia.
Qed.

Lemma add_last r r' m p h ud br ok : kl_http_router_add r m p h ud br ok = Some r' ->
  routes r' = routes r ++ [MkRoute m p h ud br false false].
Proof.
  unfold kl_http_router_add. repeat case_if; try done; by intros [= <-].
Qed.

Lemma streaming_inv async r r' m p h ud br ok : inv r -> br <> 0 ->
  mark_last async <$> kl_http_router_add r m p h ud br ok = Some r' -> inv r'.
Proof.
  intros Hi Hbr. destruct (kl_http_router_add r m p h ud br ok) as [r1|] eqn:Ea; [|done]. intros [= <-].
  pose proof (add_last _ _ _ _ _ _ _ _ Ea) as Hl. destruct (add_inv _ _ _ _ _ _ _ _ Hi Ea) as [H1 H2 H3 H4 H5 H6].
  unfold mark_last. split; simpl; auto; [by rewrite length_alter|].
  rewrite Hl in *. apply Forall_app in H5 as [H5 H5']. apply Forall_singleton in H5' as [Hh _]. simpl in Hh.
  rewrite length_app. simpl length. replace (pred (length (routes r) + 1)) with (length (routes r)) by lia.
  rewrite alter_app_r_alt, Nat.sub_diag by lia. simpl. apply Forall_app. split; [done|].
  by repeat constructor.
Qed.

Lemma mw_grow_spec count cap ok c : 0 <= count <= cap -> cap <= INT_MAX -> mw_grow count cap ok = Some c ->
  count < c <= INT_MAX.
Proof.
  unfold mw_grow, KL_MW_INIT_CAP. change (INT_MAX / 2) with 1073741823. intros H1 H2.
  destruct (Z.leb_spec cap count), (Z.eqb_spec cap 0), (Z.ltb_spec 1073741823 cap), ok; intros [= <-]; lia.
Qed.

Lemma use_inv r r' m p f ud ok : inv r -> kl_http_router_use r m p f ud ok = Some r' -> inv r'.
Proof.
  intros [H1 H2 H3 H4 H5 H6]. unfold kl_http_router_use. destruct (Z.eqb_spec f 0); [done|].
  destruct (mw_grow _ _ _) as [c|] eqn:Eg; [|done]. rewrite bind_Some_l. intros [= <-].
  apply mw_grow_spec in Eg; [|lia|lia]. split; simpl; auto; [rewrite length_app; simpl; lia|].
  rewrite Forall_app in *. destruct H6. split; [|done]. apply Forall_app. split; [done|]. by repeat constructor.
Qed.

Lemma use_post_inv r r' m p f ud ok : inv r -> kl_http_router_use_post r m p f ud ok = Some r' -> inv r'.
Proof.
  intros [H1 H2 H3 H4 H5 H6]. unfold kl_http_router_use_post, KL_HTTP_ROUTER_MAX_POST_MIDDLEWARE in *.
  destruct (Z.eqb_spec f 0); [done|]. destruct (Z.leb_spec 64 (Z.of_nat (length (post_middleware r)))); [done|].
  destruct (mw_grow _ _ _) as [c|] eqn:Eg; [|done]. rewrite bind_Some_l. intros [= <-].
  apply mw_grow_spec in Eg; [|lia|lia]. split; simpl; auto;
    [rewrite length_app; simpl; lia|unfold KL_HTTP_ROUTER_MAX_POST_MIDDLEWARE; rewrite length_app; simpl; lia|].
  rewrite app_assoc. apply Forall_app. split; [done|]. by repeat constructor.
Qed.

Lemma built_inv r : built r -> inv r.
Proof.
  induction 1 as [r Hr|r r' m p h ud br ok _ IH Ha|r r' m p h ud br ok _ IH Ha|r r' m p h ud br ok _ IH Ha
    |r r' m p f ud ok _ IH Ha|r r' m p f ud ok _ IH Ha].
  - injection Hr as <-. split; simpl; try done; constructor.
  - by eapply add_inv.
  - unfold kl_http_router_add_streaming in Ha. destruct (Z.eqb_spec br 0); [done|]. by eapply streaming_inv.
  - unfold kl_http_router_add_streaming_async in Ha. destruct (Z.eqb_spec br 0); [done|]. by eapply streaming_inv.
  - by eapply use_inv.
  - by eapply use_post_inv.
Qed.

(** Every router the registration functions can build has its tables within capacity and
    [int] range, only callable handlers and middleware, a body reader on every streaming route, and
    at most 64 post-body middleware. *)
Lemma router_built_inv (r : KlHttpRouter) (Hr : built r) : inv r.
Proof. by apply built_inv. Qed.

(** ** Running middleware *)

Lemma mw_matches_total mw req : exists b, mw_matches mw req = Some b.
Proof.
  unfold mw_matches, match_middleware_pattern. repeat case_if; eauto.
  destruct (match_path_serves (mw_pattern mw) (req_path req)) as (ps & -> & _). rewrite bind_Some_l. eauto.
Qed.

Definition applies (req : KlHttpRequest) (mw : KlHttpMiddlewareEntry) : bool := default false (mw_matches mw req).

Lemma mw_matches_applies mw req : mw_matches mw req = Some (applies req mw).
Proof. unfold applies. by destruct (mw_matches_total mw req) as [b ->]. Qed.

(** The bit set of a list of answers, least significant first. *)
Fixpoint bits (bs : list bool) (i : Z) : Z :=
  match bs with [] => 0 | b :: bs' => Z.lor (if b : bool then Z.shiftl 1 i else 0) (bits bs' (i + 1)) end.

Lemma shiftl_1_testbit i k : 0 <= i -> 0 <= k -> Z.testbit (Z.shiftl 1 i) k = (i =? k).
Proof. intros Hi Hk. rewrite Z.shiftl_1_l. rewrite Z.pow2_bits_eqb by lia. done. Qed.

Lemma bits_testbit bs i k : 0 <= i <= k -> Z.testbit (bits bs i) k = default false (bs !! Z.to_nat (k - i)).
Proof.
  revert i. induction bs as [|b bs IH]; intros i Hk; simpl; [by rewrite Z.testbit_0_l|].
  rewrite Z.lor_spec. destruct (Z.eq_dec i k) as [->|Hne].
  - rewrite Z.sub_diag. simpl. assert (Z.testbit (bits bs (k + 1)) k = false) as ->.
    { clear. assert (forall bs j, k < j -> 0 <= k -> Z.testbit (bits bs j) k = false) as H.
      { induction bs0 as [|b bs0 IH]; intros j Hj Hk; simpl; [apply Z.testbit_0_l|].
        rewrite Z.lor_spec, IH by lia. rewrite orb_false_r. destruct b; [|apply Z.testbit_0_l].
        rewrite shiftl_1_testbit by lia. apply Z.eqb_neq. lia. }
      destruct (Z.le_gt_cases 0 k); [apply H; lia|]. apply Z.testbit_neg_r. lia. }
    rewrite orb_false_r. destruct b; [|apply Z.testbit_0_l]. rewrite shiftl_1_testbit by lia. apply Z.eqb_refl.
  - rewrite IH by lia. replace (Z.to_nat (k - i)) with (S (Z.to_nat (k - (i + 1)))) by lia. simpl.
    destruct b; [|by rewrite Z.testbit_0_l]. rewrite shiftl_1_testbit by lia.
    destruct (Z.eqb_spec i k); [lia|done].
Qed.
Lemma post_match_bits mws req i matched : 0 <= i -> i + Z.of_nat (length mws) <= 64 ->
  post_match_loop mws req i matched = Some (Z.lor matched (bits (applies req <$> mws) i)).
Proof.
  revert i matched. induction mws as [|mw mws IH]; intros i matched Hi Hl; simpl; [by rewrite Z.lor_0_r|].
  rewrite mw_matches_applies, bind_Some_l. simpl in Hl. rewrite IH by lia. f_equal.
  destruct (applies req mw); [|by rewrite Z.lor_0_l]. rewrite <- Z.lor_assoc. f_equal. f_equal.
  apply u64_small. rewrite Z.shiftl_1_l. pose proof (Z.pow_le_mono_r 2 i 63 ltac:(lia) ltac:(lia)).
  change (2 ^ 63) with 9223372036854775808 in *. pose proof (Z.pow_pos_nonneg 2 i). lia.
Qed.

Lemma land_bit matched i : 0 <= i < 64 -> (Z.land matched (u64 (Z.shiftl 1 i)) =? 0) = negb (Z.testbit matched i).
Proof.
  intros Hi. rewrite u64_small.
  2:{ rewrite Z.shiftl_1_l. pose proof (Z.pow_le_mono_r 2 i 63 ltac:(lia) ltac:(lia)).
      change (2 ^ 63) with 9223372036854775808 in *. pose proof (Z.pow_pos_nonneg 2 i). lia. }
  destruct (Z.testbit matched i) eqn:Eb; simpl.
  - apply Z.eqb_neq. intros H. apply (f_equal (fun z => Z.testbit z i)) in H.
    rewrite Z.land_spec, Z.testbit_0_l, shiftl_1_testbit, Z.eqb_refl, Eb in H by lia. done.
  - apply Z.eqb_eq. apply Z.bits_inj_0. intros k. rewrite Z.land_spec.
    destruct (Z.le_gt_cases 0 k); [|by rewrite (Z.testbit_neg_r (Z.shiftl 1 i)), andb_false_r by lia].
    rewrite shiftl_1_testbit by lia. destruct (Z.eqb_spec i k); [subst; by rewrite Eb|apply andb_false_r].
Qed.

Section run_facts.
  Context {W : Type} `{E : HttpEnv W}.

(** Run every entry in turn until one short-circuits. *)
Fixpoint run_all (mws : list KlHttpMiddlewareEntry) (req : KlHttpRequest) (w : W) : result (W:=W) :=
  match mws with
  | [] => (0, req, w, [])
  | mw :: rest =>
      let '(rc, req1, w1) := mw_call (fn mw) (mw_user_data mw) req w in
      if negb (rc =? 0) then (rc, req1, w1, [MwRan mw rc])
      else let '(rc2, req2, w2, ev) := run_all rest req1 w1 in (rc2, req2, w2, MwRan mw rc :: ev)
  end.

Lemma run_post_loop_all mws i matched (sel : KlHttpMiddlewareEntry -> bool) req w :
  0 <= i -> i + Z.of_nat (length mws) <= 64 ->
  (forall k mw, mws !! k = Some mw -> Z.testbit matched (i + Z.of_nat k) = sel mw) ->
  run_post_loop mws i matched req w = run_all (List.filter sel mws) req w.
Proof.
  revert i req w. induction mws as [|mw mws IH]; intros i req w Hi Hl Hsel; simpl; [done|]. simpl in Hl.
  rewrite land_bit by lia. pose proof (Hsel 0%nat mw eq_refl) as H0. rewrite Z.add_0_r in H0. rewrite H0.
  assert (Hnext : forall req w, run_post_loop mws (i + 1) matched req w = run_all (List.filter sel mws) req w).
  { intros req' w'. apply IH; [lia|lia|]. intros k mw' Hk. rewrite <- (Hsel (S k) mw' Hk). f_equal. lia. }
  destruct (sel mw); simpl; [|done]. destruct (mw_call _ _ req w) as [[rc req1] w1]. destruct (rc =? 0); [|done].
  simpl. by rewrite Hnext.
Qed.

Lemma run_post_spec r req w : inv r ->
  kl_http_router_run_post_middleware r req w = Some (run_all (List.filter (applies req) (post_middleware r)) req w).
Proof.
  intros Hi. pose proof (inv_post_count _ Hi) as Hc. unfold KL_HTTP_ROUTER_MAX_POST_MIDDLEWARE in Hc.
  unfold kl_http_router_run_post_middleware, kl_http_router_post_match, kl_http_router_run_post_matched.
  rewrite post_match_bits by lia. rewrite bind_Some_l, Z.lor_0_l. f_equal.
  apply run_post_loop_all; [lia|lia|]. intros k mw Hk. rewrite bits_testbit by lia.
  replace (Z.to_nat (0 + Z.of_nat k - 0)) with k by lia. rewrite list_lookup_fmap, Hk. done.
Qed.

(** Post-body middleware is matched once, into a 64-bit set, and run later from the set.  For
    every router that can be built this runs exactly the registered entries that match the request,
    in registration order, until one short-circuits. *)
Lemma run_post_middleware_spec (r : KlHttpRouter) (req : KlHttpRequest) (w : W) (Hr : built r) :
  kl_http_router_run_post_middleware r req w = Some (run_all (List.filter (applies req) (post_middleware r)) req w).
Proof. apply run_post_spec. by apply built_inv. Qed.

(** Middleware that leave the request line alone. *)
Definition keeps_request_line : Prop :=
  forall f ud req w, let '(_, req', _) := mw_call f ud req w in
    req_method req' = req_method req /\ req_path req' = req_path req.

Lemma applies_line req req' mw : req_method req' = req_method req -> req_path req' = req_path req ->
  applies req' mw = applies req mw.
Proof. intros Hm Hp. unfold applies, mw_matches. by rewrite Hm, Hp. Qed.

Lemma run_pre_spec mws req0 req w : keeps_request_line ->
  req_method req = req_method req0 -> req_path req = req_path req0 ->
  run_middleware_loop mws req w = Some (run_all (List.filter (applies req0) mws) req w) /\
  let '(_, req', _, _) := run_all (List.filter (applies req0) mws) req w in
  req_method req' = req_method req0 /\ req_path req' = req_path req0.
Proof.
  intros Hk. revert req w. induction mws as [|mw mws IH]; intros req w Hm Hp; simpl; [done|].
  rewrite mw_matches_applies, bind_Some_l, (applies_line req0 req) by done.
  destruct (applies req0 mw); simpl; [|by apply IH]. pose proof (Hk (fn mw) (mw_user_data mw) req w) as Hline.
  destruct (mw_call _ _ req w) as [[rc req1] w1]. destruct Hline as [Hm1 Hp1].
  destruct (rc =? 0); simpl; [|split; [done|split; congruence]].
  destruct (IH req1 w1 ltac:(congruence) ltac:(congruence)) as [-> Hline].
  destruct (run_all (List.filter (applies req0) mws) req1 w1) as [[[rc2 req2] w2] ev]. by rewrite bind_Some_l.
Qed.

Lemma run_all_app xs ys req w :
  run_all (xs ++ ys) req w =
  let '(rc, req1, w1, ev) := run_all xs req w in
  if negb (rc =? 0) then (rc, req1, w1, ev)
  else let '(rc2, req2, w2, ev2) := run_all ys req1 w1 in (rc2, req2, w2, ev ++ ev2).
Proof.
  revert req w. induction xs as [|x xs IH]; intros req w; simpl; [by destruct (run_all ys req w) as [[[? ?] ?] ?]|].
  destruct (mw_call _ _ req w) as [[rc req1] w1]. destruct (rc =? 0) eqn:Erc; simpl; [|by rewrite Erc].
  rewrite IH. destruct (run_all xs req1 w1) as [[[rc2 req2] w2] ev]. destruct (rc2 =? 0) eqn:E2; simpl; rewrite ?E2; simpl; [|done].
  by destruct (run_all ys req2 w2) as [[[? ?] ?] ?].
Qed.

(** Dispatch is a pipeline: with middleware that leave the request line alone, a request runs
    exactly the matching pre-body and then the matching post-body middleware in registration order,
    and only when all of them returned 0 the handler of the first matching route (or sets the
    404/405 status); the first non-zero result stops everything after it and is the answer. *)
Lemma dispatch_pipeline (r : KlHttpRouter) (req : KlHttpRequest) (w : W)
    (Hr : built r) (Hkeep : keeps_request_line) :
  exists status matched ps,
    kl_http_router_match r (req_method req) (req_path req) = Some (status, matched, ps) /\
    kl_http_router_dispatch_synthetic r req w true =
    Some (let req1 := MkReq (req_method req) (req_path req) (take KL_HTTP_ROUTER_MAX_PARAMS ps) in
          let '(rc, req2, w2, ev) := run_all (List.filter (applies req) (middleware r ++ post_middleware r)) req1 w in
          if negb (rc =? 0) then (rc, req2, w2, ev)
          else let '(rc3, req3, w3, ev3) := dispatch_tail status matched req2 w2 in (rc3, req3, w3, ev ++ ev3)).
Proof.
  assert (Hmatch : exists x, kl_http_router_match r (req_method req) (req_path req) = Some x)
    by (unfold kl_http_router_match; rewrite route_loop_spec; eauto).
  destruct Hmatch as [[[status matched] ps] Hmatch]. exists status, matched, ps. split; [done|].
  unfold kl_http_router_dispatch_synthetic. rewrite Hmatch, bind_Some_l. cbn [negb andb].
  set (req1 := MkReq _ _ _). unfold kl_http_router_run_middleware.
  destruct (run_pre_spec (middleware r) req req1 w Hkeep eq_refl eq_refl) as [-> Hline].
  rewrite bind_Some_l, List.filter_app, run_all_app.
  destruct (run_all (List.filter (applies req) (middleware r)) req1 w) as [[[rc req2] w2] ev].
  destruct (rc =? 0) eqn:Erc; simpl negb; cbn iota; [|by rewrite Erc].
  destruct Hline as [Hm Hp]. rewrite run_post_spec by by apply built_inv. rewrite bind_Some_l.
  rewrite (List.filter_ext (applies req2) (applies req)) by (intros mw; by apply applies_line).
  destruct (run_all (List.filter (applies req) (post_middleware r)) req2 w2) as [[[rc2 req3] w3] ev2].
  destruct (rc2 =? 0); simpl; [|done]. destruct (dispatch_tail status matched req3 w3) as [[[rc4 req4] w4] ev4].
  by rewrite app_assoc.
Qed.
End run_facts.

(** ** A concrete router *)

Definition sample_router : option KlHttpRouter :=
  r ← kl_http_router_init true;
  r ← kl_http_router_add r (bytes "GET") (bytes "/admin/:id") 1 0 0 true;
  r ← kl_http_router_use r (bytes "*") (bytes "/admin/*") 2 0 true;
  kl_http_router_use_post r (bytes "GET") (bytes "/admin/:id") 3 0 true.

Lemma sample_router_built : exists r, sample_router = Some r /\ built r.
Proof.
  destruct sample_router as [r|] eqn:Er; [|by vm_compute in Er]. exists r. split; [done|]. unfold sample_router in Er.
  apply bind_Some in Er as (r1 & H1 & Er). apply bind_Some in Er as (r2 & H2 & Er). apply bind_Some in Er as (r3 & H3 & H4).
  exact (built_use_post _ _ _ _ _ _ _ (built_use _ _ _ _ _ _ _ (built_add _ _ _ _ _ _ _ _ (built_init _ H1) H2) H3) H4).
Qed.

(** Middleware that pass everything through and count their calls. *)
#[local] Instance counting_env : HttpEnv nat := {
  mw_call _ _ req w := (0, req, S w);
  handler_call _ _ req w := (req, S w);
  response_status _ w := w
}.

Lemma counting_keeps : keeps_request_line (W:=nat).
Proof. by intros f ud req w. Qed.

Definition admin_route : KlHttpRoute := MkRoute (bytes "GET") (bytes "/admin/:id") 1 0 0 false false.


End Router.
