(* ===== verification/WsFrame.v ===== *)
(** * WebSocket framing (src/src/protocols/websocket/websocket.c, src/include/keel/websocket.h), the
    frame writers and the unmasking of http_server_ws.c and websocket_client.c, and the UTF-8
    validator (src/src/utf8.h, ws_close.h) *)
From S2P Require Import Prelude.

Module WsFrame.

(** ** Constants and parser state *)

Definition KL_WS_PROTOCOL_ERROR : Z := 1002.
Definition KL_WS_OPCODE_MASK : Z := 15.
Definition KL_WS_FIN_BIT : Z := 128.
Definition KL_WS_MASK_BIT : Z := 128.
Definition KL_WS_MASK_KEY_LEN : nat := 4.
Definition KL_WS_FRAME_HEADER_MAX : nat := 14.

Inductive KlWsFrameParseState := KL_WS_FRAME_HEADER | KL_WS_FRAME_PAYLOAD | KL_WS_FRAME_COMPLETE.

#[global] Instance KlWsFrameParseState_eq_dec : EqDecision KlWsFrameParseState.
Proof. solve_decision. Defined.

(** [header_buf] is the first [header_len] bytes of the array. *)
Record KlWsFrameParser := MkFp {
  state : KlWsFrameParseState;
  header_buf : list Z;
  header_need : nat;
  fin : Z;
  opcode : Z;
  masked : Z;
  mask_key : list Z;
  payload_len : Z;
  payload_read : Z
}.

Definition header_len (fp : KlWsFrameParser) : nat := length (header_buf fp).

Definition kl_ws_frame_init : KlWsFrameParser := MkFp KL_WS_FRAME_HEADER [] 2 0 0 0 (replicate 4 0) 0 0.

(** Byte [i] of the header. *)
Definition hb (fp : KlWsFrameParser) (i : nat) : Z := nth i (header_buf fp) 0.

(** ** Parsing *)

(** After two bytes: fields and header size; [false] is the protocol error. *)
Definition header_fields (fp : KlWsFrameParser) : bool * KlWsFrameParser :=
  let fin := Z.land (Z.shiftr (hb fp 0) 7) 1 in
  let rsv := Z.land (Z.shiftr (hb fp 0) 4) 7 in
  let opcode := Z.land (hb fp 0) KL_WS_OPCODE_MASK in
  let masked := Z.land (Z.shiftr (hb fp 1) 7) 1 in
  let len7 := Z.land (hb fp 1) 127 in
  let with_need need := MkFp (state fp) (header_buf fp) need fin opcode masked (mask_key fp) (payload_len fp) (payload_read fp) in
  if negb (rsv =? 0) then (false, with_need (header_need fp))
  else if ((2 <? opcode) && (opcode <? 8)) || (10 <? opcode) then (false, with_need (header_need fp))
  else
    let extra := if len7 =? 126 then 2%nat else if len7 =? 127 then 8%nat else 0%nat in
    let extra := if negb (masked =? 0) then (extra + KL_WS_MASK_KEY_LEN)%nat else extra in
    (true, with_need (2 + extra)%nat).

Definition header_byte (fp : KlWsFrameParser) (b : Z) : bool * KlWsFrameParser :=
  let fp1 := MkFp (state fp) (header_buf fp ++ [b]) (header_need fp) (fin fp) (opcode fp) (masked fp)
               (mask_key fp) (payload_len fp) (payload_read fp) in
  if (header_len fp1 =? 2)%nat then header_fields fp1 else (true, fp1).

(** The accumulation loop: success, parser, bytes consumed. *)
Fixpoint header_loop (fp : KlWsFrameParser) (data : list Z) (consumed : Z) : bool * KlWsFrameParser * Z :=
  match data with
  | [] => (true, fp, consumed)
  | b :: rest =>
      if (header_len fp <? header_need fp)%nat then
        let '(ok, fp1) := header_byte fp b in
        if ok then header_loop fp1 rest (consumed + 1) else (false, fp1, consumed + 1)
      else (true, fp, consumed)
  end.

Definition be_bytes (bs : list Z) : Z := fold_left (fun v b => u64 (Z.lor (u64 (Z.shiftl v 8)) b)) bs 0.

(** Payload length and offset of the mask key. *)
Definition decode_length (fp : KlWsFrameParser) : option (Z * nat) :=
  let len7 := Z.land (hb fp 1) 127 in
  if len7 <? 126 then Some (len7, 2%nat)
  else if len7 =? 126 then Some (Z.lor (Z.shiftl (hb fp 2) 8) (hb fp 3), 4%nat)
  else
    let plen := be_bytes (take 8 (drop 2 (header_buf fp))) in
    if negb (Z.shiftr plen 63 =? 0) then None
    else if SIZE_MAX / 2 <? plen then None
    else Some (plen, 10%nat).

(** The complete header: success and parser. *)
Definition header_done (fp : KlWsFrameParser) : bool * KlWsFrameParser :=
  match decode_length fp with
  | None => (false, fp)
  | Some (plen, mask_offset) =>
      let key := if negb (masked fp =? 0) then take KL_WS_MASK_KEY_LEN (drop mask_offset (header_buf fp))
                 else mask_key fp in
      let put st rd := MkFp st (header_buf fp) (header_need fp) (fin fp) (opcode fp) (masked fp) key plen rd in
      if (8 <=? opcode fp) && ((125 <? plen) || (fin fp =? 0)) then (false, put (state fp) (payload_read fp))
      else (true, put (if plen =? 0 then KL_WS_FRAME_COMPLETE else KL_WS_FRAME_PAYLOAD) 0)
  end.

(** The payload phase, [data] being what the header left. *)
Definition payload_phase (fp : KlWsFrameParser) (data : list Z) (consumed : Z) : Z * KlWsFrameParser * Z :=
  match state fp with
  | KL_WS_FRAME_COMPLETE => (1, fp, consumed)
  | KL_WS_FRAME_PAYLOAD =>
      let remaining := payload_len fp - payload_read fp in
      let avail := Z.of_nat (length data) in
      let taken := if avail <? remaining then avail else remaining in
      let put st := MkFp st (header_buf fp) (header_need fp) (fin fp) (opcode fp) (masked fp) (mask_key fp)
                      (payload_len fp) (payload_read fp + taken) in
      if payload_len fp <=? payload_read fp + taken then (1, put KL_WS_FRAME_COMPLETE, consumed + taken)
      else (0, put KL_WS_FRAME_PAYLOAD, consumed + taken)
  | KL_WS_FRAME_HEADER => (0, fp, consumed)
  end.

(** Return value, parser, [*consumed]. *)
Definition kl_ws_frame_parse (fp : KlWsFrameParser) (data : list Z) : Z * KlWsFrameParser * Z :=
  match state fp with
  | KL_WS_FRAME_HEADER =>
      let '(ok, fp1, n) := header_loop fp data 0 in
      if negb ok then (-1, fp1, n)
      else if (header_len fp1 <? header_need fp1)%nat then (0, fp1, n)
      else
        let '(ok, fp2) := header_done fp1 in
        if negb ok then (-1, fp2, n) else payload_phase fp2 (drop (Z.to_nat n) data) n
  | _ => payload_phase fp data 0
  end.

(** ** Writing *)

(** The length bytes both writers produce after the first byte; [bit] is the mask bit or 0. *)
Definition frame_lengths (bit len : Z) : list Z :=
  if len <? 126 then [u8 (Z.lor bit len)]
  else if len <=? 65535 then [u8 (Z.lor bit 126); u8 (Z.shiftr len 8); u8 len]
  else u8 (Z.lor bit 127) :: ((fun s => u8 (Z.shiftr len s)) <$> [56; 48; 40; 32; 24; 16; 8]) ++ [u8 len].

(** ws_send_frame: the header of a server frame. *)
Definition server_header (op len : Z) : list Z :=
  u8 (Z.lor KL_WS_FIN_BIT (Z.land op KL_WS_OPCODE_MASK)) :: frame_lengths 0 len.

(** wsc_send_frame: the header of a client frame with its mask key. *)
Definition client_header (op len : Z) (key : list Z) : list Z :=
  u8 (Z.lor KL_WS_FIN_BIT (Z.land op KL_WS_OPCODE_MASK)) :: frame_lengths KL_WS_MASK_BIT len ++ key.

Definition mask_at (mask : list Z) (i : Z) : Z := nth (Z.to_nat (Z.land i 3)) mask 0.

(** One chunk of the client's payload, from offset [sent]. *)
Fixpoint mask_chunk (mask : list Z) (pos : Z) (chunk : list Z) : list Z :=
  match chunk with [] => [] | b :: rest => Z.lxor b (mask_at mask pos) :: mask_chunk mask (pos + 1) rest end.

(** The chunks the client hands to its drain: at most 4096 bytes each. *)
Fixpoint client_chunks (fuel : nat) (mask : list Z) (sent : Z) (data : list Z) : option (list (list Z)) :=
  match data with
  | [] => Some []
  | _ =>
      match fuel with
      | O => None
      | S fuel' =>
          let chunk := take 4096 data in
          rest ← client_chunks fuel' mask (sent + Z.of_nat (length chunk)) (drop 4096 data);
          Some (mask_chunk mask sent chunk :: rest)
      end
  end.

(** The writes of wsc_send_frame, in order. *)
Definition wsc_send_frame (op : Z) (data key : list Z) : option (list (list Z)) :=
  chunks ← client_chunks (length data) key 0 data;
  Some (client_header op (Z.of_nat (length data)) key :: chunks).

(** ** Unmasking *)

(** Unaligned prefix, from index [i]: the bytes done, the bytes left and the index reached. *)
Fixpoint unmask_prefix (mask : list Z) (start i : Z) (data : list Z) : list Z * list Z * Z :=
  match data with
  | [] => ([], [], i)
  | b :: rest =>
      if Z.land (start + i) 3 =? 0 then ([], data, i)
      else
        let '(out, more, j) := unmask_prefix mask start (i + 1) rest in
        (Z.lxor b (mask_at mask (start + i)) :: out, more, j)
  end.

(** Blocks of four. *)
Fixpoint unmask_blocks (mask : list Z) (start i : Z) (data : list Z) : list Z * list Z * Z :=
  match data with
  | b0 :: b1 :: b2 :: b3 :: rest =>
      let base := Z.land (start + i) 3 in
      let '(out, more, j) := unmask_blocks mask start (i + 4) rest in
      (Z.lxor b0 (nth (Z.to_nat base) mask 0) :: Z.lxor b1 (mask_at mask (base + 1)) ::
       Z.lxor b2 (mask_at mask (base + 2)) :: Z.lxor b3 (mask_at mask (base + 3)) :: out, more, j)
  | _ => ([], data, i)
  end.

Fixpoint unmask_tail (mask : list Z) (start i : Z) (data : list Z) : list Z :=
  match data with [] => [] | b :: rest => Z.lxor b (mask_at mask (start + i)) :: unmask_tail mask start (i + 1) rest end.

Definition ws_unmask (data mask : list Z) (offset : Z) : list Z :=
  let start := Z.land offset 3 in
  let '(p, data1, i) := unmask_prefix mask start 0 data in
  let '(q, data2, j) := if (start =? 0) || (0 <? i) then unmask_blocks mask start i data1 else ([], data1, i) in
  p ++ q ++ unmask_tail mask start j data2.
(** ** UTF-8 *)

Definition KL_UTF8_ACCEPT : Z := 0.
Definition KL_UTF8_REJECT : Z := 12.

Definition kl_utf8_class : list Z :=
  replicate 128 0 ++ replicate 16 1 ++ replicate 16 9 ++ replicate 32 7 ++
  [8; 8] ++ replicate 30 2 ++
  [10; 3; 3; 3; 3; 3; 3; 3; 3; 3; 3; 3; 3; 4; 3; 3; 11; 6; 6; 6; 5; 8; 8; 8; 8; 8; 8; 8; 8; 8; 8; 8].

Definition kl_utf8_trans : list Z := [
  0; 12; 24; 36; 60; 96; 84; 12; 12; 12; 48; 72;    12; 12; 12; 12; 12; 12; 12; 12; 12; 12; 12; 12;
  12; 0; 12; 12; 12; 12; 12; 0; 12; 0; 12; 12;      12; 24; 12; 12; 12; 12; 12; 24; 12; 24; 12; 12;
  12; 12; 12; 12; 12; 12; 12; 24; 12; 12; 12; 12;   12; 24; 12; 12; 12; 12; 12; 12; 12; 24; 12; 12;
  12; 12; 12; 12; 12; 12; 12; 36; 12; 36; 12; 12;   12; 36; 12; 12; 12; 12; 12; 36; 12; 36; 12; 12;
  12; 36; 12; 12; 12; 12; 12; 12; 12; 12; 12; 12].

Definition utf8_step (st b : Z) : Z := nth (Z.to_nat (st + nth (Z.to_nat b) kl_utf8_class 0)) kl_utf8_trans 0.

(** The state afterwards, which is also what the function returns. *)
Fixpoint kl_utf8_validate (st : Z) (data : list Z) : Z :=
  match data with
  | [] => st
  | b :: rest =>
      let st := utf8_step st b in
      if st =? KL_UTF8_REJECT then KL_UTF8_REJECT else kl_utf8_validate st rest
  end.

Definition kl_ws_close_payload_check (p : list Z) : Z :=
  match p with
  | [] => 0
  | [_] => KL_WS_PROTOCOL_ERROR
  | b0 :: b1 :: reason =>
      let code := Z.lor (Z.shiftl b0 8) b1 in
      let ok := ((1000 <=? code) && (code <=? 1003)) || ((1007 <=? code) && (code <=? 1014)) ||
                ((3000 <=? code) && (code <=? 4999)) in
      if negb ok then KL_WS_PROTOCOL_ERROR
      else if kl_utf8_validate KL_UTF8_ACCEPT reason =? KL_UTF8_ACCEPT then 0 else 1007
  end.

Definition valid_opcode (op : Z) : Prop := 0 <= op <= 2 \/ 8 <= op <= 10.

(** ** The parser's invariant *)

Record wf (fp : KlWsFrameParser) : Prop := {
  wf_need : (2 <= header_need fp <= KL_WS_FRAME_HEADER_MAX)%nat;
  wf_short : (header_len fp < 2)%nat -> header_need fp = 2%nat;
  wf_bytes : Forall is_byte (header_buf fp);
  wf_state : match state fp with
             | KL_WS_FRAME_HEADER => (header_len fp < header_need fp)%nat
             | KL_WS_FRAME_PAYLOAD => (header_len fp <= header_need fp)%nat /\ 0 <= payload_read fp < payload_len fp
             | KL_WS_FRAME_COMPLETE => (header_len fp <= header_need fp)%nat
             end
}.

Lemma frame_wf_init : wf kl_ws_frame_init.
Proof. split; simpl; [unfold KL_WS_FRAME_HEADER_MAX; lia|done|constructor|unfold header_len; simpl; lia]. Qed.

(** During accumulation. *)
Record wf_acc (fp : KlWsFrameParser) : Prop := {
  acc_state : state fp = KL_WS_FRAME_HEADER;
  acc_need : (2 <= header_need fp <= KL_WS_FRAME_HEADER_MAX)%nat;
  acc_short : (header_len fp < 2)%nat -> header_need fp = 2%nat;
  acc_bytes : Forall is_byte (header_buf fp);
  acc_len : (header_len fp <= header_need fp)%nat
}.

Lemma header_fields_acc fp ok fp1 : state fp = KL_WS_FRAME_HEADER -> header_len fp = 2%nat ->
  (2 <= header_need fp <= KL_WS_FRAME_HEADER_MAX)%nat -> Forall is_byte (header_buf fp) ->
  header_fields fp = (ok, fp1) -> wf_acc fp1.
Proof.
  unfold header_fields, KL_WS_FRAME_HEADER_MAX, KL_WS_MASK_KEY_LEN. intros Es El Hn Hb.
  repeat case_if; intros [= <- <-]; split; unfold KL_WS_FRAME_HEADER_MAX, header_len in *; simpl; rewrite ?El; auto; lia.
Qed.

Lemma header_byte_acc fp b ok fp1 : wf_acc fp -> is_byte b -> (header_len fp < header_need fp)%nat ->
  header_byte fp b = (ok, fp1) -> wf_acc fp1.
Proof.
  intros [Es Hn Hs Hby Hl] Hb Hlt. unfold header_byte, header_len. simpl. rewrite length_app. simpl length.
  assert (Hb' : Forall is_byte (header_buf fp ++ [b])) by (apply Forall_app; auto).
  destruct (Nat.eqb_spec (length (header_buf fp) + 1) 2) as [E2|E2].
  - apply header_fields_acc; auto. unfold header_len. simpl. by rewrite length_app.
  - intros [= <- <-]. split; unfold header_len in *; simpl; rewrite ?length_app; simpl; auto; lia.
Qed.

Lemma header_loop_acc fp data n ok fp1 n1 : wf_acc fp -> Forall is_byte data ->
  header_loop fp data n = (ok, fp1, n1) -> wf_acc fp1 /\ n <= n1 <= n + Z.of_nat (length data).
Proof.
  intros Hf Hd. revert fp n Hf. induction Hd as [|b data Hb _ IH]; intros fp n Hf; simpl; [intros [= <- <- <-]; split; [done|lia]|].
  destruct (Nat.ltb_spec (header_len fp) (header_need fp)); [|intros [= <- <- <-]; split; [done|lia]].
  destruct (header_byte fp b) as [[] fp2] eqn:Eb; pose proof (header_byte_acc _ _ _ _ Hf Hb H Eb) as Hf2.
  - intros Hl. destruct (IH _ _ Hf2 Hl). split; [done|lia].
  - intros [= <- <- <-]. split; [done|lia].
Qed.

Lemma wf_to_acc fp : wf fp -> state fp = KL_WS_FRAME_HEADER -> wf_acc fp.
Proof. intros [H1 H2 H3 H4] Es. rewrite Es in H4. split; auto; lia. Qed.

Lemma be_bytes_from_range bs v : 0 <= v <= UINT64_MAX ->
  0 <= fold_left (fun v b => u64 (Z.lor (u64 (Z.shiftl v 8)) b)) bs v <= UINT64_MAX.
Proof. revert v. induction bs as [|b bs IH]; intros v Hv; simpl; [done|]. apply IH, u64_range. Qed.

Lemma be_bytes_range bs : 0 <= be_bytes bs <= UINT64_MAX.
Proof. apply be_bytes_from_range. lia. Qed.

Lemma hb_byte fp i : Forall is_byte (header_buf fp) -> is_byte (hb fp i).
Proof.
  intros Hb. unfold hb. destruct (nth_in_or_default i (header_buf fp) 0) as [Hin| ->]; [|unfold is_byte; lia].
  apply list_elem_of_In in Hin. rewrite Forall_forall in Hb. by apply Hb.
Qed.

Lemma decode_length_range fp plen off : Forall is_byte (header_buf fp) -> decode_length fp = Some (plen, off) ->
  0 <= plen <= SIZE_MAX / 2.
Proof.
  intros Hb. pose proof (hb_byte fp 2 Hb) as H2. pose proof (hb_byte fp 3 Hb) as H3. unfold is_byte in *.
  change (SIZE_MAX / 2) with 9223372036854775807. unfold decode_length. change (SIZE_MAX / 2) with 9223372036854775807.
  set (l7 := Z.land (hb fp 1) 127). assert (0 <= l7) by (apply Z.land_nonneg; right; lia).
  destruct (Z.ltb_spec l7 126); [intros [= <- <-]; lia|].
  destruct (Z.eqb_spec l7 126).
  - intros [= <- <-]. rewrite lor_shiftl_add by lia. lia.
  - pose proof (be_bytes_range (take 8 (drop 2 (header_buf fp)))) as Hr. case_if; [done|].
    destruct (Z.ltb_spec 9223372036854775807 (be_bytes (take 8 (drop 2 (header_buf fp))))); [done|].
    intros [= <- <-]. lia.
Qed.

Lemma header_done_wf fp ok fp1 : wf_acc fp -> header_done fp = (ok, fp1) -> ok = true -> wf fp1 /\ state fp1 <> KL_WS_FRAME_HEADER.
Proof.
  intros [Es Hn Hs Hb Hl]. unfold header_done. destruct (decode_length fp) as [[plen off]|] eqn:Ed; [|by intros [= <- <-]].
  pose proof (decode_length_range fp plen off Hb Ed) as Hr. case_if; intros [= <- <-]; [done|]. intros _.
  destruct (Z.eqb_spec plen 0); (split; [split; simpl; auto|done]). split; [done|lia].
Qed.
(** ** Reading in pieces *)

Lemma header_loop_app fp a b n :
  header_loop fp (a ++ b) n =
  let '(ok, fp1, n1) := header_loop fp a n in if ok : bool then header_loop fp1 b n1 else (false, fp1, n1).
Proof.
  revert fp n. induction a as [|c a IH]; intros fp n; simpl; [done|].
  destruct (Nat.ltb_spec (header_len fp) (header_need fp)) as [Hlt|Hge].
  - destruct (header_byte fp c) as [[] fp1]; [apply IH|done].
  - destruct b as [|c' b]; simpl; [done|]. destruct (Nat.ltb_spec (header_len fp) (header_need fp)); [lia|done].
Qed.

Lemma header_loop_shift fp a n :
  header_loop fp a n = let '(ok, fp1, m) := header_loop fp a 0 in (ok, fp1, n + m).
Proof.
  revert fp n. induction a as [|c a IH]; intros fp n; simpl; [by rewrite Z.add_0_r|].
  destruct (header_len fp <? header_need fp)%nat; [|by rewrite Z.add_0_r].
  destruct (header_byte fp c) as [[] fp1]; [|done].
  rewrite (IH fp1 (n + 1)), (IH fp1 (0 + 1)). destruct (header_loop fp1 a 0) as [[ok fp2] m]. f_equal. lia.
Qed.

Lemma header_loop_full fp a n : (header_need fp <= header_len fp)%nat -> header_loop fp a n = (true, fp, n).
Proof. intros H. destruct a; simpl; [done|]. destruct (Nat.ltb_spec (header_len fp) (header_need fp)); [lia|done]. Qed.

(** An incomplete header took every byte. *)
Lemma header_loop_all fp a n fp1 n1 : header_loop fp a n = (true, fp1, n1) -> (header_len fp1 < header_need fp1)%nat ->
  n1 = n + Z.of_nat (length a).
Proof.
  revert fp n. induction a as [|c a IH]; intros fp n; simpl; [intros [= <- <-]; lia|].
  destruct (Nat.ltb_spec (header_len fp) (header_need fp)); [|intros [= <- <-]; lia].
  destruct (header_byte fp c) as [[] fp2]; [|done]. intros Hl Hlt. rewrite (IH fp2 (n + 1) Hl Hlt). lia.
Qed.

Lemma payload_shift fp d n :
  payload_phase fp d n = let '(rc, fp1, m) := payload_phase fp d 0 in (rc, fp1, n + m).
Proof. unfold payload_phase. destruct (state fp); try (by rewrite Z.add_0_r). by case_if. Qed.

Definition in_payload (fp : KlWsFrameParser) : Prop :=
  state fp <> KL_WS_FRAME_HEADER /\ (state fp = KL_WS_FRAME_PAYLOAD -> 0 <= payload_read fp < payload_len fp).

Lemma payload_split fp a b : in_payload fp ->
  let '(rc, fp1, n1) := payload_phase fp a 0 in
  (rc = 0 \/ rc = 1) /\
  (rc = 0 -> n1 = Z.of_nat (length a) /\ state fp1 = KL_WS_FRAME_PAYLOAD /\ 0 <= payload_read fp1 < payload_len fp1 /\
     payload_phase fp (a ++ b) 0 = payload_phase fp1 b n1) /\
  (rc = 1 -> 0 <= n1 <= Z.of_nat (length a) /\ payload_phase fp (a ++ b) 0 = (1, fp1, n1)).
Proof.
  intros [Hh Hp]. unfold payload_phase. destruct (state fp) eqn:Es; [done| |split_and!; [by right|done|intros _; split; [lia|done]]].
  specialize (Hp eq_refl). rewrite length_app, Nat2Z.inj_add.
  set (la := Z.of_nat (length a)) in *. set (lb := Z.of_nat (length b)) in *.
  destruct (Z.ltb_spec la (payload_len fp - payload_read fp)) as [Ha|Ha].
  - destruct (Z.leb_spec (payload_len fp) (payload_read fp + la)); [lia|]. split_and!; [by left| |done].
    intros _. split_and!; auto; simpl; try lia. fold lb.
    destruct (Z.ltb_spec (la + lb) (payload_len fp - payload_read fp)),
      (Z.ltb_spec lb (payload_len fp - (payload_read fp + la))); try lia.
    + rewrite !Z.add_assoc. by destruct (payload_len fp <=? payload_read fp + la + lb).
    + replace (payload_read fp + la + (payload_len fp - (payload_read fp + la))) with (payload_len fp) by lia.
      replace (payload_read fp + (payload_len fp - payload_read fp)) with (payload_len fp) by lia.
      rewrite Z.leb_refl. f_equal. lia.
  - destruct (Z.leb_spec (payload_len fp) (payload_read fp + (payload_len fp - payload_read fp))); [|lia].
    split_and!; [by right|done|]. intros _. split; [lia|].
    destruct (Z.ltb_spec (la + lb) (payload_len fp - payload_read fp)); [lia|].
    destruct (Z.leb_spec (payload_len fp) (payload_read fp + (payload_len fp - payload_read fp))); [done|lia].
Qed.
Lemma payload_wf fp a rc fp1 n1 : wf fp -> in_payload fp -> payload_phase fp a 0 = (rc, fp1, n1) -> wf fp1.
Proof.
  intros [H1 H2 H3 H4] [Hh Hp]. unfold payload_phase. destruct (state fp) eqn:Es; [done| |intros [= <- <- <-]; split; auto; by rewrite Es].
  destruct H4 as [H4 H4']. set (t := if _ <? _ then _ else _).
  assert (0 <= t) by (unfold t; case_test; lia).
  destruct (Z.leb_spec (payload_len fp) (payload_read fp + t)); intros [= <- <- <-]; split; simpl; auto. split; [done|lia].
Qed.

Lemma wf_in_payload fp : wf fp -> state fp <> KL_WS_FRAME_HEADER -> in_payload fp.
Proof. intros Hf Hs. split; [done|]. intros Es. pose proof (wf_state fp Hf) as H. rewrite Es in H. apply H. Qed.

Lemma header_loop_mono fp a n ok fp1 m : header_loop fp a n = (ok, fp1, m) -> n <= m.
Proof.
  revert fp n. induction a as [|c a IH]; intros fp n; simpl; [intros [= <- <- <-]; lia|].
  case_if; [|intros [= <- <- <-]; lia]. destruct (header_byte fp c) as [[] fp2]; [|intros [= <- <- <-]; lia].
  intros Hl. apply IH in Hl. lia.
Qed.

(** What a parse of [a] says about a parse of [a ++ b]. *)
Definition split_ok (fp : KlWsFrameParser) (a b : list Z) : Prop :=
  let '(rc, fp1, n1) := kl_ws_frame_parse fp a in
  (rc = 0 -> wf fp1 /\ n1 = Z.of_nat (length a) /\
     kl_ws_frame_parse fp (a ++ b) = let '(rc2, fp2, n2) := kl_ws_frame_parse fp1 b in (rc2, fp2, n1 + n2)) /\
  (rc <> 0 -> 0 <= n1 <= Z.of_nat (length a) /\ (rc = 1 -> wf fp1) /\ kl_ws_frame_parse fp (a ++ b) = (rc, fp1, n1)).

Lemma split_in_payload fp a b : wf fp -> state fp <> KL_WS_FRAME_HEADER -> split_ok fp a b.
Proof.
  intros Hf Es. assert (Hp : forall d, kl_ws_frame_parse fp d = payload_phase fp d 0).
  { intros d. unfold kl_ws_frame_parse. by destruct (state fp). }
  unfold split_ok. pose proof (wf_in_payload _ Hf Es) as Hip. rewrite !Hp. pose proof (payload_split fp a b Hip) as Hsp.
  destruct (payload_phase fp a 0) as [[rc fp3] m] eqn:Ep. pose proof (payload_wf _ _ _ _ _ Hf Hip Ep) as Hf3.
  destruct Hsp as (Hrc & H0 & H1). split.
  - intros ->. destruct (H0 eq_refl) as (Hm & Hst & _ & Heq). split_and!; [done|done|].
    rewrite Heq, (payload_shift fp3 b m). unfold kl_ws_frame_parse. by rewrite Hst.
  - intros Hne. assert (rc = 1) as -> by (destruct Hrc; [done|auto]). destruct (H1 eq_refl) as (Hm & Heq).
    split_and!; [lia|lia|done|]. by rewrite Heq.
Qed.

(** The header is still incomplete after [a]. *)
Lemma split_header_open fp a b fp1 n1 : state fp = KL_WS_FRAME_HEADER -> wf_acc fp1 ->
  header_loop fp a 0 = (true, fp1, n1) -> (header_len fp1 < header_need fp1)%nat -> split_ok fp a b.
Proof.
  intros Es Hacc El Hinc. pose proof (header_loop_all _ _ _ _ _ El Hinc) as Hall. unfold split_ok, kl_ws_frame_parse.
  rewrite Es, header_loop_app, El. simpl. destruct (Nat.ltb_spec (header_len fp1) (header_need fp1)); [|lia].
  split; [|done]. intros _. split; [destruct Hacc as [E1 E2 E3 E4 E5]; split; auto; by rewrite E1|]. split; [lia|].
  rewrite (acc_state _ Hacc), (header_loop_shift fp1 b n1).
  destruct (header_loop fp1 b 0) as [[ok2 fp2] m] eqn:El2. pose proof (header_loop_mono _ _ _ _ _ _ El2) as Hm.
  destruct ok2; simpl; [|done]. destruct (header_len fp2 <? header_need fp2)%nat; [done|].
  destruct (header_done fp2) as [[] fp3]; simpl; [|done].
  rewrite Hall. replace (Z.to_nat (0 + Z.of_nat (length a) + m)) with (length a + Z.to_nat m)%nat by lia.
  rewrite drop_app_add, (payload_shift fp3 _ (0 + Z.of_nat (length a) + m)), (payload_shift fp3 _ m).
  destruct (payload_phase fp3 _ 0) as [[rc fp4] k]. f_equal. lia.
Qed.

(** [a] completes the header. *)
Lemma split_header_done fp a b fp1 n1 : state fp = KL_WS_FRAME_HEADER -> wf_acc fp1 ->
  header_loop fp a 0 = (true, fp1, n1) -> 0 <= n1 <= Z.of_nat (length a) ->
  (header_need fp1 <= header_len fp1)%nat -> split_ok fp a b.
Proof.
  intros Es Hacc El Hn1 Hfull. unfold split_ok.
  assert (Hab : header_loop fp (a ++ b) 0 = (true, fp1, n1)) by by rewrite header_loop_app, El, header_loop_full.
  assert (Hlt : (header_len fp1 <? header_need fp1)%nat = false) by by apply Nat.ltb_ge.
  destruct (header_done fp1) as [ok2 fp2] eqn:Ed.
  assert (Hparse : forall d, header_loop fp d 0 = (true, fp1, n1) -> kl_ws_frame_parse fp d =
    if ok2 then payload_phase fp2 (drop (Z.to_nat n1) d) n1 else (-1, fp2, n1)).
  { intros d Hd. unfold kl_ws_frame_parse. rewrite Es, Hd, Hlt, Ed. by destruct ok2. }
  rewrite (Hparse a El), (Hparse (a ++ b) Hab). destruct ok2; cycle 1.
  { split; [done|]. intros _. split_and!; [lia|lia|done|done]. }
  destruct (header_done_wf _ _ _ Hacc Ed eq_refl) as [Hf2 Hs2]. pose proof (wf_in_payload _ Hf2 Hs2) as Hip.
  rewrite drop_app_le by lia. pose proof (payload_split fp2 (drop (Z.to_nat n1) a) b Hip) as Hsp.
  rewrite (payload_shift fp2 _ n1), (payload_shift fp2 (drop _ a ++ b) n1).
  destruct (payload_phase fp2 (drop (Z.to_nat n1) a) 0) as [[rc fp3] m] eqn:Ep.
  pose proof (payload_wf _ _ _ _ _ Hf2 Hip Ep) as Hf3.
  destruct Hsp as (Hrc & H0 & H1). rewrite length_drop in *. split.
  - intros ->. destruct (H0 eq_refl) as (Hm & Hst & _ & Heq). split; [done|]. split; [lia|].
    rewrite Heq, (payload_shift fp3 b m). unfold kl_ws_frame_parse. rewrite Hst.
    destruct (payload_phase fp3 b 0) as [[rc2 fp4] k]. f_equal. lia.
  - intros Hne. assert (rc = 1) as -> by (destruct Hrc; [done|auto]). destruct (H1 eq_refl) as (Hm & Heq).
    split_and!; [lia|lia|done|]. by rewrite Heq.
Qed.

Lemma parse_split fp a b : wf fp -> Forall is_byte a -> split_ok fp a b.
Proof.
  intros Hf Ha. destruct (decide (state fp = KL_WS_FRAME_HEADER)) as [Es|Es]; [|by apply split_in_payload].
  destruct (header_loop fp a 0) as [[ok fp1] n1] eqn:El.
  destruct (header_loop_acc _ _ _ _ _ _ (wf_to_acc _ Hf Es) Ha El) as [Hacc Hn1].
  destruct ok.
  - destruct (Nat.lt_ge_cases (header_len fp1) (header_need fp1)).
    + by eapply split_header_open.
    + eapply split_header_done; eauto.
  - unfold split_ok, kl_ws_frame_parse. rewrite Es, header_loop_app, El. simpl. split; [done|].
    intros _. split_and!; [lia|lia|done|done].
Qed.

(** ** What a caller may rely on between two parses *)

(** The fields that hold from the start of a frame. *)
Record acc_ok (fp : KlWsFrameParser) : Prop := {
  ao_key : Forall is_byte (mask_key fp);
  ao_read : payload_read fp = 0;
  ao_op : (2 <= header_len fp)%nat -> valid_opcode (opcode fp)
}.

Record frame_ok (fp : KlWsFrameParser) : Prop := {
  fo_wf : wf fp;
  fo_key : Forall is_byte (mask_key fp);
  fo_state : match state fp with
             | KL_WS_FRAME_HEADER => acc_ok fp
             | _ => valid_opcode (opcode fp) /\ (8 <= opcode fp -> payload_len fp <= 125) /\
                    0 <= payload_read fp <= payload_len fp
             end
}.

Lemma frame_ok_init : frame_ok kl_ws_frame_init.
Proof.
  assert (Forall is_byte (replicate 4 0)) by (repeat constructor; lia).
  split; [apply frame_wf_init|done|]. split; [done|done|]. unfold header_len. simpl. lia.
Qed.

Lemma header_fields_ok fp fp1 : Forall is_byte (mask_key fp) -> payload_read fp = 0 ->
  header_fields fp = (true, fp1) -> acc_ok fp1.
Proof.
  intros Hk Hr. unfold header_fields. case_if; [done|]. case_if; [done|]. intros [= <-].
  split; [done|done|]. intros _. cbn [opcode]. unfold valid_opcode.
  set (op := Z.land (hb fp 0) KL_WS_OPCODE_MASK) in *.
  assert (0 <= op) by (apply Z.land_nonneg; unfold KL_WS_OPCODE_MASK; lia).
  destruct (Z.ltb_spec 2 op), (Z.ltb_spec op 8), (Z.ltb_spec 10 op); simpl in *; try done; lia.
Qed.

Lemma header_byte_ok fp b fp1 : acc_ok fp -> header_byte fp b = (true, fp1) -> acc_ok fp1.
Proof.
  intros [Hk Hr Ho]. unfold header_byte, header_len. cbn [header_buf]. rewrite length_app. cbn [length].
  destruct (Nat.eqb_spec (length (header_buf fp) + 1) 2) as [E2|E2]; [by apply header_fields_ok|].
  intros [= <-]. split; [done|done|]. unfold header_len in *. simpl. rewrite length_app. simpl. intros H2. apply Ho. lia.
Qed.

Lemma header_loop_ok data : forall fp n fp1 n1, acc_ok fp -> header_loop fp data n = (true, fp1, n1) ->
  acc_ok fp1 /\ (data <> [] -> (header_len fp < header_need fp)%nat -> n < n1).
Proof.
  induction data as [|b data IH]; intros fp n fp1 n1 Hf; simpl; [by intros [= <- <-]|].
  destruct (Nat.ltb_spec (header_len fp) (header_need fp)); [|intros [= <- <-]; split; [done|intros _; lia]].
  destruct (header_byte fp b) as [[] fp2] eqn:Eb; [|done]. intros Hl.
  destruct (IH _ _ _ _ (header_byte_ok _ _ _ Hf Eb) Hl). split; [done|]. intros _ _. apply header_loop_mono in Hl. lia.
Qed.

Lemma header_done_ok fp fp1 : acc_ok fp -> wf_acc fp -> (header_need fp <= header_len fp)%nat ->
  header_done fp = (true, fp1) -> frame_ok fp1 /\ state fp1 <> KL_WS_FRAME_HEADER /\ payload_read fp1 = 0 /\
    (state fp1 = KL_WS_FRAME_COMPLETE -> payload_len fp1 = 0).
Proof.
  intros [Hk Hr Ho] Hacc Hfull Hd. destruct (header_done_wf _ _ _ Hacc Hd eq_refl) as [Hwf Hst].
  assert (Hop : valid_opcode (opcode fp)) by (apply Ho; destruct (acc_need _ Hacc); lia).
  unfold header_done in Hd. destruct (decode_length fp) as [[plen off]|] eqn:El; [|done].
  pose proof (decode_length_range _ _ _ (acc_bytes _ Hacc) El) as Hr2. destruct ((8 <=? opcode fp) && _) eqn:Ec; [done|].
  assert (Hc : 8 <= opcode fp -> plen <= 125).
  { intros H8. apply Z.leb_le in H8. rewrite H8 in Ec. simpl in Ec. apply orb_false_iff in Ec as [Ec _].
    by apply Z.ltb_ge in Ec. }
  injection Hd as <-. split; [|split; [done|split; [done|]]].
  - split; [done| |].
    + cbn [mask_key]. case_if; [|done]. apply Forall_take, Forall_drop, Hacc.
    + cbn [state opcode payload_len payload_read]. destruct (plen =? 0); (split; [done|split; [done|lia]]).
  - cbn [state payload_len]. destruct (Z.eqb_spec plen 0); done.
Qed.

(** The result of a parse, on a parser that is not at the end of a frame. *)
Definition parse_result (fp : KlWsFrameParser) (data : list Z) (rc : Z) (fp1 : KlWsFrameParser) (n : Z) : Prop :=
  frame_ok fp1 /\ 0 < n <= Z.of_nat (length data) /\
  (rc = 0 /\ n = Z.of_nat (length data) /\ state fp1 <> KL_WS_FRAME_COMPLETE \/
   rc = 1 /\ state fp1 = KL_WS_FRAME_COMPLETE /\ payload_read fp1 = payload_len fp1) /\
  0 <= payload_read fp1 - payload_read fp <= n /\
  (state fp = KL_WS_FRAME_PAYLOAD -> opcode fp1 = opcode fp /\ state fp1 <> KL_WS_FRAME_HEADER).

Lemma payload_phase_ok fp data n : frame_ok fp -> state fp = KL_WS_FRAME_PAYLOAD ->
  let '(rc, fp1, m) := payload_phase fp data n in
  frame_ok fp1 /\ n <= m <= n + Z.of_nat (length data) /\ (data <> [] -> n < m) /\
  (rc = 0 /\ m = n + Z.of_nat (length data) /\ state fp1 = KL_WS_FRAME_PAYLOAD \/
   rc = 1 /\ state fp1 = KL_WS_FRAME_COMPLETE /\ payload_read fp1 = payload_len fp1) /\
  payload_read fp1 - payload_read fp = m - n /\ opcode fp1 = opcode fp.
Proof.
  intros Hf Es. pose proof (wf_in_payload fp (fo_wf _ Hf) ltac:(by rewrite Es)) as Hip.
  destruct (payload_phase fp data n) as [[rc fp1] m] eqn:Ep. pose proof (payload_shift fp data n) as Hsh.
  destruct (payload_phase fp data 0) as [[rc' fp1'] m'] eqn:Ep0. rewrite Hsh in Ep. injection Ep as -> -> <-.
  pose proof (payload_wf _ _ _ _ _ (fo_wf _ Hf) Hip Ep0) as Hwf1. pose proof (fo_state _ Hf) as Hs. rewrite Es in Hs.
  destruct Hip as [_ Hr]. specialize (Hr Es). destruct Hs as (Ho & Hc & _).
  assert (Hd : data <> [] -> 0 < Z.of_nat (length data)) by (destruct data; simpl; [done|lia]).
  unfold payload_phase in Ep0. rewrite Es in Ep0.
  set (t := if _ <? _ then _ else _) in Ep0.
  assert (Ht : 0 <= t <= Z.of_nat (length data) /\ t <= payload_len fp - payload_read fp /\
    (t < payload_len fp - payload_read fp -> t = Z.of_nat (length data)) /\ (data <> [] -> 0 < t)).
  { unfold t. case_test; repeat split; try lia; auto. }
  clearbody t. destruct Ht as (Ht1 & Ht2 & Ht3 & Ht4).
  destruct (Z.leb_spec (payload_len fp) (payload_read fp + t)); injection Ep0 as <- <- <-; cbn [state payload_read payload_len opcode];
    (split; [split; [done|apply Hf|cbn; split; [done|split; [done|lia]]]|]); (split; [lia|]); (split; [intros Hne; specialize (Ht4 Hne); lia|]);
    (split; [|split; [lia|done]]).
  - right. split; [done|]. split; [done|]. lia.
  - left. split; [done|]. split; [|done]. lia.
Qed.

Lemma parse_ok fp data rc fp1 n : frame_ok fp -> state fp <> KL_WS_FRAME_COMPLETE -> Forall is_byte data -> data <> [] ->
  kl_ws_frame_parse fp data = (rc, fp1, n) -> rc = -1 \/ parse_result fp data rc fp1 n.
Proof.
  intros Hf Hst Hb Hne. unfold kl_ws_frame_parse, parse_result. destruct (state fp) eqn:Es; [| |done].
  - pose proof (fo_state _ Hf) as Ha. rewrite Es in Ha. destruct (header_loop fp data 0) as [[ok fp2] n2] eqn:El.
    destruct ok; cbn [negb]; [|intros [= <- <- <-]; by left].
    destruct (header_loop_acc _ _ _ _ _ _ (wf_to_acc _ (fo_wf _ Hf) Es) Hb El) as [Hacc Hn2].
    destruct (header_loop_ok _ _ _ _ _ Ha El) as [Ha2 Hpos]. pose proof (wf_state _ (fo_wf _ Hf)) as Hlt. rewrite Es in Hlt.
    specialize (Hpos Hne Hlt). destruct (Nat.ltb_spec (header_len fp2) (header_need fp2)) as [Hinc|Hfull].
    { intros [= <- <- <-]. right. pose proof (header_loop_all _ _ _ _ _ El Hinc) as Hall.
      split; [|split; [lia|split; [left; split; [done|]; split; [lia|by rewrite (acc_state _ Hacc)]|]]].
      - destruct (id Hacc) as [E1 E2 E3 E4 E5]. split; [split; auto; by rewrite E1|apply Ha2|by rewrite E1].
      - rewrite (ao_read _ Ha), (ao_read _ Ha2). split; [lia|done]. }
    destruct (header_done fp2) as [[] fp3] eqn:Ed; cbn [negb]; [|intros [= <- <- <-]; by left].
    destruct (header_done_ok _ _ Ha2 Hacc Hfull Ed) as (Hf3 & Hs3 & Hr3 & Hz3). rewrite (ao_read _ Ha).
    destruct (state fp3) eqn:Es3; [done| |].
    + pose proof (payload_phase_ok fp3 (drop (Z.to_nat n2) data) n2 Hf3 Es3) as Hp. intros Heq. rewrite Heq in Hp.
      rewrite length_drop in Hp. destruct Hp as (Hf1 & Hm & _ & Hrc & Hrd & _). right.
      split; [done|]. split; [lia|]. split; [|split; [lia|done]].
      destruct Hrc as [(-> & Hm2 & Hs1)|Hrc]; [left; split; [done|]; split; [lia|by rewrite Hs1]|by right].
    + unfold payload_phase. rewrite Es3. intros [= <- <- <-]. right.
      split; [done|]. split; [lia|]. split; [right; by rewrite Hr3, Hz3|]. split; [lia|done].
  - pose proof (payload_phase_ok fp data 0 Hf Es) as Hp. intros Heq. rewrite Heq in Hp.
    destruct Hp as (Hf1 & Hm & Hpos & Hrc & Hrd & Hop). right. specialize (Hpos Hne).
    split; [done|]. split; [lia|]. split; [|split; [lia|]].
    + destruct Hrc as [(-> & Hm2 & Hs1)|Hrc]; [left; split; [done|]; split; [lia|by rewrite Hs1]|by right].
    + intros _. split; [done|]. destruct Hrc as [(_ & _ & ->)|(_ & -> & _)]; done.
Qed.

(** C23.  The frame parser does not depend on how the bytes arrive: a frame cut anywhere, also inside
    its header, is parsed exactly as if it had come in one piece; a piece that does not finish the
    frame is consumed whole, and the bytes after a finished frame or an error are not looked at.
    The accumulated header never exceeds its 14-byte buffer. *)
Theorem frame_parse_split (fp : KlWsFrameParser) (a b : list Z) (Hfp : wf fp) (Ha : Forall is_byte a) :
  let '(rc, fp1, n1) := kl_ws_frame_parse fp a in
  (rc = 0 -> wf fp1 /\ (header_len fp1 <= KL_WS_FRAME_HEADER_MAX)%nat /\ n1 = Z.of_nat (length a) /\
     kl_ws_frame_parse fp (a ++ b) = let '(rc2, fp2, n2) := kl_ws_frame_parse fp1 b in (rc2, fp2, n1 + n2)) /\
  (rc <> 0 -> 0 <= n1 <= Z.of_nat (length a) /\ kl_ws_frame_parse fp (a ++ b) = (rc, fp1, n1)).
Proof.
  pose proof (parse_split fp a b Hfp Ha) as Hs. unfold split_ok in Hs.
  destruct (kl_ws_frame_parse fp a) as [[rc fp1] n1]. destruct Hs as [H0 H1]. split.
  - intros Hrc. destruct (H0 Hrc) as (Hf1 & Hn & Heq). split_and!; auto. destruct Hf1 as [[_ Hm] _ _ Hst].
    destruct (state fp1); lia.
  - intros Hrc. destruct (H1 Hrc) as (Hn & _ & Heq). auto.
Qed.

Lemma frame_parse_split_witness :
  let '(rc, fp1, n1) := kl_ws_frame_parse kl_ws_frame_init [129; 133] in
  rc = 0 /\ kl_ws_frame_parse kl_ws_frame_init ([129; 133] ++ [1; 2; 3; 4; 73]) =
  let '(rc2, fp2, n2) := kl_ws_frame_parse fp1 [1; 2; 3; 4; 73] in (rc2, fp2, n1 + n2).
Proof.
  pose proof (frame_parse_split kl_ws_frame_init [129; 133] [1; 2; 3; 4; 73] frame_wf_init
    ltac:(apply bytes_ok; reflexivity)) as H.
  destruct (kl_ws_frame_parse kl_ws_frame_init [129; 133]) as [[rc fp1] n1] eqn:Ep.
  assert (rc = 0) as E by (vm_compute in Ep; congruence). split; [exact E|]. apply (proj1 H E).
Defined.

(** ** Masking *)

Lemma land_3 x : Z.land x 3 = x mod 4.
Proof. change 3 with (Z.ones 2). by rewrite Z.land_ones by lia. Qed.

Lemma mask_at_mod mask x y : x mod 4 = y mod 4 -> mask_at mask x = mask_at mask y.
Proof. intros H. unfold mask_at. by rewrite !land_3, H. Qed.

Lemma mask_chunk_app mask pos x y :
  mask_chunk mask pos (x ++ y) = mask_chunk mask pos x ++ mask_chunk mask (pos + Z.of_nat (length x)) y.
Proof.
  revert pos. induction x as [|b x IH]; intros pos; cbn [app mask_chunk]; [by rewrite Z.add_0_r|].
  rewrite IH. simpl length. do 2 f_equal. f_equal. lia.
Qed.

Lemma mask_chunk_mod mask p q x : p mod 4 = q mod 4 -> mask_chunk mask p x = mask_chunk mask q x.
Proof.
  revert p q. induction x as [|b x IH]; intros p q H; cbn [mask_chunk]; [done|].
  rewrite (mask_at_mod mask p q H). f_equal. apply IH. Z.to_euclidean_division_equations. lia.
Qed.

Lemma mask_chunk_length mask p x : length (mask_chunk mask p x) = length x.
Proof. revert p. induction x as [|b x IH]; intros p; cbn [mask_chunk length]; [done|]. by rewrite IH. Qed.

Lemma mask_chunk_bytes mask p x : Forall is_byte x -> Forall is_byte mask -> Forall is_byte (mask_chunk mask p x).
Proof.
  intros Hx Hm. revert p. induction Hx as [|b x Hb _ IH]; intros p; simpl; constructor; [|done].
  assert (Hk : is_byte (mask_at mask p)).
  { unfold mask_at. destruct (nth_in_or_default (Z.to_nat (Z.land p 3)) mask 0) as [Hin| ->]; [|unfold is_byte; lia].
    apply list_elem_of_In in Hin. rewrite Forall_forall in Hm. by apply Hm. }
  unfold is_byte in *. split; [apply Z.lxor_nonneg; lia|].
  destruct (Z.eq_dec (Z.lxor b (mask_at mask p)) 0) as [->|Hnz]; [lia|].
  assert (0 < Z.lxor b (mask_at mask p)) by (pose proof (proj2 (Z.lxor_nonneg b (mask_at mask p)) ltac:(lia)); lia).
  pose proof (Z.log2_lxor b (mask_at mask p) ltac:(lia) ltac:(lia)) as Hl.
  assert (forall z, 0 <= z <= 255 -> Z.log2 z < 8).
  { intros z Hz. destruct (Z.eq_dec z 0) as [->|]; [simpl; lia|]. apply Z.log2_lt_pow2; lia. }
  pose proof (H0 b ltac:(lia)). pose proof (H0 (mask_at mask p) ltac:(lia)).
  assert (Z.lxor b (mask_at mask p) < 2 ^ 8) by (apply Z.log2_lt_pow2; lia). lia.
Qed.

Lemma unmask_prefix_spec mask start i data out more j : unmask_prefix mask start i data = (out, more, j) ->
  exists x, data = x ++ more /\ out = mask_chunk mask (start + i) x /\ j = i + Z.of_nat (length x).
Proof.
  revert i out more j. induction data as [|b data IH]; intros i out more j; cbn [unmask_prefix].
  { intros [= <- <- <-]. exists []. split_and!; [done|done|simpl; lia]. }
  destruct (Z.land (start + i) 3 =? 0).
  { intros [= <- <- <-]. exists []. split_and!; [done|done|simpl; lia]. }
  destruct (unmask_prefix mask start (i + 1) data) as [[out' more'] j'] eqn:Ep. intros [= <- <- <-].
  destruct (IH _ _ _ _ Ep) as (x & -> & -> & ->). exists (b :: x). cbn [app mask_chunk length].
  rewrite Z.add_assoc. split_and!; [done|done|lia].
Qed.

Lemma unmask_blocks_spec mask start i data out more j : unmask_blocks mask start i data = (out, more, j) ->
  exists x, data = x ++ more /\ out = mask_chunk mask (start + i) x /\ j = i + Z.of_nat (length x).
Proof.
  revert i out more j. induction data as [data IH] using (induction_ltof1 _ (@length Z)). unfold ltof in IH.
  intros i out more j.
  assert (Hstop : forall d, ([], d, i) = (out, more, j) ->
    exists x, d = x ++ more /\ out = mask_chunk mask (start + i) x /\ j = i + Z.of_nat (length x)).
  { intros d [= <- <- <-]. exists []. split_and!; [done|done|simpl; lia]. }
  destruct data as [|b0 [|b1 [|b2 [|b3 data]]]]; cbn [unmask_blocks]; auto.
  destruct (unmask_blocks mask start (i + 4) data) as [[out' more'] j'] eqn:Ep. intros [= <- <- <-].
  destruct (IH data ltac:(simpl; lia) _ _ _ _ Ep) as (x & -> & -> & ->). exists (b0 :: b1 :: b2 :: b3 :: x).
  assert (Hm : forall k, mask_at mask (Z.land (start + i) 3 + k) = mask_at mask (start + i + k)).
  { intros k. apply mask_at_mod. rewrite land_3. apply Zplus_mod_idemp_l. }
  cbn [app mask_chunk length]. rewrite !Hm, <- !(Z.add_assoc (start + i)). rewrite (Z.add_assoc start).
  split_and!; [done|done|lia].
Qed.

Lemma unmask_tail_spec mask start i data : unmask_tail mask start i data = mask_chunk mask (start + i) data.
Proof.
  revert i. induction data as [|b data IH]; intros i; cbn [unmask_tail mask_chunk]; [done|].
  rewrite IH. by rewrite Z.add_assoc.
Qed.

Lemma ws_unmask_chunk data mask offset : ws_unmask data mask offset = mask_chunk mask offset data.
Proof.
  unfold ws_unmask. set (start := Z.land offset 3).
  assert (Hs : start mod 4 = offset mod 4) by (unfold start; rewrite land_3; apply Z.mod_mod; lia).
  destruct (unmask_prefix mask start 0 data) as [[p d1] i] eqn:E1.
  destruct (unmask_prefix_spec _ _ _ _ _ _ _ E1) as (x & -> & -> & ->).
  set (blk := if _ || _ then _ else _). destruct blk as [[q d2] j] eqn:E2.
  assert (exists y, d1 = y ++ d2 /\ q = mask_chunk mask (start + Z.of_nat (length x)) y /\ j = Z.of_nat (length x) + Z.of_nat (length y))
    as (y & -> & -> & ->).
  { unfold blk in E2. rewrite Z.add_0_l in E2. case_if; [by apply unmask_blocks_spec in E2|].
    injection E2 as <- <- <-. exists []. split_and!; [done|done|simpl; lia]. }
  rewrite unmask_tail_spec, Z.add_0_r, Z.add_assoc, (mask_chunk_mod mask offset start) by done.
  by rewrite !mask_chunk_app.
Qed.
Lemma mask_chunk_involutive mask pos x : mask_chunk mask pos (mask_chunk mask pos x) = x.
Proof.
  revert pos. induction x as [|b x IH]; intros pos; cbn [mask_chunk]; [done|].
  rewrite IH, Z.lxor_assoc, Z.lxor_nilpotent, Z.lxor_0_r. done.
Qed.

Lemma client_chunks_spec fuel mask sent data : (length data <= fuel)%nat ->
  exists chunks, client_chunks fuel mask sent data = Some chunks /\ concat chunks = mask_chunk mask sent data /\
    Forall (fun c => (length c <= 4096)%nat) chunks.
Proof.
  revert sent data. induction fuel as [|fuel IH]; intros sent data Hf; (destruct data as [|b data]; [by exists []; simpl|]).
  { simpl in Hf. lia. }
  cbn [client_chunks]. set (d := b :: data) in *.
  destruct (IH (sent + Z.of_nat (length (take 4096 d))) (drop 4096 d)) as (chunks & -> & Hc & Hl).
  { rewrite length_drop. unfold d in *. simpl length in *. lia. }
  rewrite bind_Some_l. eexists. split; [done|]. split.
  - rewrite concat_cons, Hc, <- mask_chunk_app. by rewrite take_drop.
  - constructor; [|done]. rewrite mask_chunk_length, length_take. lia.
Qed.

(** ** A written header parses back *)

(** A byte [b1] of a short or extended length, and what the parser reads from it. *)
Definition len_byte_ok (bit v : Z) : bool :=
  let b := u8 (Z.lor bit v) in
  (Z.land (Z.shiftr b 7) 1 =? bit / 128) && (Z.land b 127 =? v) && is_byteb b.

Lemma len_byte bit v : bit = 0 \/ bit = 128 -> 0 <= v <= 127 -> len_byte_ok bit v = true.
Proof.
  intros Hb Hv. assert (Hall : forallb (fun n => len_byte_ok 0 (Z.of_nat n) && len_byte_ok 128 (Z.of_nat n)) (seq 0 128) = true)
    by by vm_compute.
  rewrite forallb_forall in Hall. specialize (Hall (Z.to_nat v)). rewrite Z2Nat.id in Hall by lia.
  apply andb_true_iff in Hall as [H0 H1]; [|apply in_seq; lia]. by destruct Hb as [-> | ->].
Qed.


Definition first_byte_ok (fb op : Z) : bool :=
  let b := u8 (Z.lor fb (Z.land op KL_WS_OPCODE_MASK)) in
  (Z.land (Z.shiftr b 7) 1 =? fb / 128) && (Z.land (Z.shiftr b 4) 7 =? 0) && (Z.land b KL_WS_OPCODE_MASK =? op) && is_byteb b.

Lemma first_byte fb op : fb = 0 \/ fb = 128 -> valid_opcode op -> first_byte_ok fb op = true.
Proof.
  intros Hf Ho. assert (op = 0 \/ op = 1 \/ op = 2 \/ op = 8 \/ op = 9 \/ op = 10) as H by (unfold valid_opcode in Ho; lia).
  by destruct H as [->|[->|[->|[->|[->| ->]]]]], Hf as [->| ->].
Qed.

Lemma header_fill more : forall fp tl n, (2 <= header_len fp)%nat -> (header_len fp + length more = header_need fp)%nat ->
  header_loop fp (more ++ tl) n =
  (true, MkFp (state fp) (header_buf fp ++ more) (header_need fp) (fin fp) (opcode fp) (masked fp) (mask_key fp)
     (payload_len fp) (payload_read fp), n + Z.of_nat (length more)).
Proof.
  induction more as [|b more IH]; intros fp tl n H2 Hn; cbn [app].
  - simpl in Hn. rewrite header_loop_full by lia. rewrite app_nil_r, Z.add_0_r. by destruct fp.
  - simpl in Hn. cbn [header_loop]. destruct (Nat.ltb_spec (header_len fp) (header_need fp)); [|lia].
    unfold header_byte, header_len in *. simpl. rewrite length_app. simpl length.
    destruct (Nat.eqb_spec (length (header_buf fp) + 1) 2); [lia|].
    rewrite IH; simpl; [|rewrite length_app; simpl; lia..]. rewrite <- app_assoc. f_equal. lia.
Qed.

(** The two first bytes [b0], [b1] decoded. *)
Lemma header_two fb op bit v (more tl : list Z) : fb = 0 \/ fb = 128 -> valid_opcode op -> bit = 0 \/ bit = 128 -> 0 <= v <= 127 ->
  let b0 := u8 (Z.lor fb (Z.land op KL_WS_OPCODE_MASK)) in
  let b1 := u8 (Z.lor bit v) in
  let extra := if v =? 126 then 2%nat else if v =? 127 then 8%nat else 0%nat in
  length more = (extra + if (bit =? 0)%Z then 0 else 4)%nat ->
  header_loop kl_ws_frame_init (b0 :: b1 :: more ++ tl) 0 =
  (true, MkFp KL_WS_FRAME_HEADER (b0 :: b1 :: more) (2 + length more) (fb / 128) op (bit / 128) (replicate 4 0) 0 0,
   2 + Z.of_nat (length more)).
Proof.
  intros Hf Ho Hb Hv b0 b1 extra Hm. pose proof (first_byte fb op Hf Ho) as H0. pose proof (len_byte bit v Hb Hv) as H1.
  unfold first_byte_ok, len_byte_ok in *. fold b0 in H0. fold b1 in H1.
  apply andb_true_iff in H0 as [[[Hfin%Z.eqb_eq Hrsv%Z.eqb_eq]%andb_true_iff Hopc%Z.eqb_eq]%andb_true_iff _].
  apply andb_true_iff in H1 as [[Hmask%Z.eqb_eq Hlen7%Z.eqb_eq]%andb_true_iff _].
  cbn [header_loop]. change (header_byte kl_ws_frame_init b0) with
    (true, MkFp KL_WS_FRAME_HEADER [b0] 2 0 0 0 (replicate 4 0) 0 0). cbn iota beta.
  cbn [header_len header_buf length header_need]. unfold header_byte. cbn [header_len header_buf app length Nat.eqb].
  unfold header_fields, hb. cbn [header_buf nth header_len state header_need mask_key payload_len payload_read].
  assert (Hop : ((2 <? op) && (op <? 8)) || (10 <? op) = false).
  { destruct (Z.ltb_spec 2 op), (Z.ltb_spec op 8), (Z.ltb_spec 10 op); unfold valid_opcode in Ho; try done; lia. }
  rewrite Hfin, Hrsv, Hopc, Hmask, Hlen7, Hop. cbn [Nat.ltb Nat.leb negb Z.eqb header_len header_buf length].
  assert (Hneed : (2 + (if negb (bit / 128 =? 0)%Z then extra + KL_WS_MASK_KEY_LEN else extra) = 2 + length more)%nat).
  { rewrite Hm. unfold KL_WS_MASK_KEY_LEN. destruct Hb as [-> | ->]; simpl; lia. }
  fold extra. simpl in Hneed. simpl. rewrite Hneed. rewrite header_fill; simpl; [done|unfold header_len; simpl; lia|unfold header_len; simpl; lia].
Qed.
Lemma be_step v b : 0 <= v < 2 ^ 56 -> is_byte b -> u64 (Z.lor (u64 (Z.shiftl v 8)) b) = v * 256 + b.
Proof.
  intros Hv Hb. change (2 ^ 56) with 72057594037927936 in Hv. unfold is_byte in Hb.
  assert (Z.shiftl v 8 = v * 256) as Hs by (by rewrite Z.shiftl_mul_pow2).
  rewrite (u64_small (Z.shiftl v 8)) by lia. rewrite lor_shiftl_add by lia. rewrite u64_small by lia. lia.
Qed.

Lemma be_shift len s : 0 <= s -> 0 <= len -> len / 2 ^ (s + 8) * 256 + u8 (Z.shiftr len s) = len / 2 ^ s.
Proof.
  intros Hs Hl. rewrite Z.shiftr_div_pow2 by lia. unfold u8. rewrite Z.pow_add_r by lia.
  rewrite <- Z.div_div by (try lia; apply Z.pow_pos_nonneg; lia). change (2 ^ 8) with 256.
  pose proof (Z.div_mod (len / 2 ^ s) 256 ltac:(lia)). lia.
Qed.

Lemma u8_byte z : is_byte (u8 z).
Proof. unfold is_byte, u8. pose proof (Z.mod_pos_bound z 256). lia. Qed.

Lemma be_bytes_len len : 0 <= len <= UINT64_MAX ->
  be_bytes (((fun s => u8 (Z.shiftr len s)) <$> [56; 48; 40; 32; 24; 16; 8]) ++ [u8 len]) = len.
Proof.
  intros Hl. unfold be_bytes. cbn [fmap list_fmap app fold_left].
  assert (Hrange : forall s, 0 <= s -> 8 <= s -> 0 <= len / 2 ^ s < 2 ^ 56).
  { intros s Hs H8. split; [apply Z.div_pos; [lia|apply Z.pow_pos_nonneg; lia]|].
    apply Z.div_lt_upper_bound; [apply Z.pow_pos_nonneg; lia|].
    pose proof (Z.pow_le_mono_r 2 8 s ltac:(lia) H8). change (2 ^ 8) with 256 in *.
    change (2 ^ 56) with 72057594037927936. nia. }
  assert (Hstep : forall s, 0 <= s -> 
    u64 (Z.lor (u64 (Z.shiftl (len / 2 ^ (s + 8)) 8)) (u8 (Z.shiftr len s))) = len / 2 ^ s).
  { intros s Hs. rewrite be_step; [by apply be_shift; lia|apply Hrange; lia|apply u8_byte]. }
  rewrite (be_step 0) by (try apply u8_byte; lia). rewrite Z.mul_0_l, Z.add_0_l.
  assert (u8 (Z.shiftr len 56) = len / 2 ^ 56) as ->.
  { rewrite Z.shiftr_div_pow2 by lia. unfold u8. apply Z.mod_small. change (2 ^ 56) with 72057594037927936.
    split; [apply Z.div_pos; lia|apply Z.div_lt_upper_bound; lia]. }
  assert (Hs : forall s t, 0 <= s -> t = s + 8 ->
    u64 (Z.lor (u64 (Z.shiftl (len / 2 ^ t) 8)) (u8 (Z.shiftr len s))) = len / 2 ^ s).
  { intros s t H ->. by apply Hstep. }
  rewrite (Hs 48 56), (Hs 40 48), (Hs 32 40), (Hs 24 32), (Hs 16 24), (Hs 8 16) by lia.
  pose proof (Hstep 0 ltac:(lia)) as H0. rewrite Z.shiftr_0_r in H0. change (0 + 8) with 8 in H0. rewrite H0.
  by rewrite Z.div_1_r.
Qed.

Lemma payload_all fp payload rest n : payload_len fp = Z.of_nat (length payload) ->
  (state fp = if payload_len fp =? 0 then KL_WS_FRAME_COMPLETE else KL_WS_FRAME_PAYLOAD) -> payload_read fp = 0 ->
  payload_phase fp (payload ++ rest) n =
  (1, MkFp KL_WS_FRAME_COMPLETE (header_buf fp) (header_need fp) (fin fp) (opcode fp) (masked fp) (mask_key fp)
        (payload_len fp) (payload_len fp), n + Z.of_nat (length payload)).
Proof.
  intros Hl Hs Hr. unfold payload_phase. rewrite Hs. destruct (Z.eqb_spec (payload_len fp) 0) as [H0|H0].
  - rewrite <- Hl, H0, Z.add_0_r. destruct fp as [st ? ? ? ? ? ? pl pr]; simpl in *. by rewrite Hs, Hr, H0.
  - rewrite Hr, length_app, Nat2Z.inj_add, Z.sub_0_r. destruct (Z.ltb_spec (Z.of_nat (length payload) + Z.of_nat (length rest)) (payload_len fp)); [lia|].
    rewrite Z.add_0_l, Z.leb_refl. do 2 f_equal. lia.
Qed.

(** The length field: what is written after [b1], and what the parser makes of it. *)
Definition len7_of (len : Z) : Z := if len <? 126 then len else if len <=? 65535 then 126 else 127.
Definition ext_of (len : Z) : list Z :=
  if len <? 126 then [] else if len <=? 65535 then [u8 (Z.shiftr len 8); u8 len]
  else ((fun s => u8 (Z.shiftr len s)) <$> [56; 48; 40; 32; 24; 16; 8]) ++ [u8 len].

Lemma frame_lengths_split bit len : frame_lengths bit len = u8 (Z.lor bit (len7_of len)) :: ext_of len.
Proof. unfold frame_lengths, len7_of, ext_of. by repeat case_if. Qed.

Lemma ext_length len : length (ext_of len) = (if len7_of len =? 126 then 2%nat else if len7_of len =? 127 then 8%nat else 0%nat).
Proof.
  unfold ext_of, len7_of. destruct (Z.ltb_spec len 126); [|by destruct (len <=? 65535)].
  destruct (Z.eqb_spec len 126), (Z.eqb_spec len 127); try lia; done.
Qed.

Lemma decode_written fv op bit len key b0 need :
  valid_opcode op -> bit = 0 \/ bit = 128 -> 0 <= len <= SIZE_MAX / 2 ->
  decode_length (MkFp KL_WS_FRAME_HEADER (b0 :: u8 (Z.lor bit (len7_of len)) :: ext_of len ++ key) need fv op (bit / 128)
    (replicate 4 0) 0 0) = Some (len, (2 + length (ext_of len))%nat).
Proof.
  change (SIZE_MAX / 2) with 9223372036854775807. intros Ho Hb Hl. assert (0 <= len7_of len <= 127) as H7.
  { unfold len7_of. destruct (Z.ltb_spec len 126), (Z.leb_spec len 65535); lia. }
  pose proof (len_byte bit (len7_of len) Hb H7) as H1. unfold len_byte_ok in H1.
  apply andb_true_iff in H1 as [[_ Hlen7%Z.eqb_eq]%andb_true_iff _].
  unfold decode_length, hb. cbn [header_buf nth drop]. rewrite Hlen7. change (SIZE_MAX / 2) with 9223372036854775807.
  rewrite ext_length. unfold len7_of, ext_of.
  destruct (Z.ltb_spec len 126) as [Hs|Hs].
  { destruct (Z.ltb_spec len 126); [|lia]. destruct (Z.eqb_spec len 126), (Z.eqb_spec len 127); try lia; done. }
  destruct (Z.leb_spec len 65535) as [Hm|Hm].
  - change (126 <? 126) with false. change (126 =? 126) with true. cbn iota. cbn [app nth]. do 2 f_equal.
    pose proof (u8_byte len) as Hu. unfold is_byte in Hu. rewrite lor_shiftl_add by (try apply u8_byte; lia).
    pose proof (be_shift len 0 ltac:(lia) ltac:(lia)) as Hbe. rewrite Z.shiftr_0_r in Hbe. change (0 + 8) with 8 in Hbe.
    rewrite Z.shiftr_div_pow2 by lia. unfold u8 at 1. rewrite Z.mod_small; [|change (2 ^ 8) with 256; split;
      [apply Z.div_pos; lia|apply Z.div_lt_upper_bound; lia]]. change (2 ^ 0) with 1 in Hbe. rewrite Z.div_1_r in Hbe. lia.
  - change (127 <? 126) with false. change (127 =? 126) with false. change (127 =? 127) with true. cbn iota.
    rewrite drop_0, take_app_length' by reflexivity. rewrite be_bytes_len by lia.
    assert (Z.shiftr len 63 = 0) as ->.
    { rewrite Z.shiftr_div_pow2 by lia. apply Z.div_small. change (2 ^ 63) with 9223372036854775808. lia. }
    destruct (Z.ltb_spec 9223372036854775807 len); [lia|done].
Qed.
(** The parser inside and after the payload of a written frame; [fb] is the FIN bit or 0. *)
Definition parsing (st : KlWsFrameParseState) (fb op bit len : Z) (key hdr : list Z) (n : Z) : KlWsFrameParser :=
  MkFp st hdr (length hdr) (fb / 128) op (bit / 128) (if bit =? 0 then replicate 4 0 else key) len n.
Definition parsed (op bit len : Z) (key hdr : list Z) : KlWsFrameParser :=
  parsing KL_WS_FRAME_COMPLETE KL_WS_FIN_BIT op bit len key hdr len.

(** The header of a written frame, with whatever follows. *)
Lemma written_header fb op bit len key rest :
  fb = 0 \/ fb = 128 -> valid_opcode op -> (8 <= op -> len <= 125 /\ fb = 128) ->
  bit = 0 /\ key = [] \/ bit = 128 /\ length key = 4%nat -> 0 <= len <= SIZE_MAX / 2 ->
  let hdr := u8 (Z.lor fb (Z.land op KL_WS_OPCODE_MASK)) :: frame_lengths bit len ++ key in
  kl_ws_frame_parse kl_ws_frame_init (hdr ++ rest) =
  payload_phase (parsing (if len =? 0 then KL_WS_FRAME_COMPLETE else KL_WS_FRAME_PAYLOAD) fb op bit len key hdr 0) rest (Z.of_nat (length hdr)).
Proof.
  intros Hf Ho Hctl Hkey Hlen hdr. assert (Hb : bit = 0 \/ bit = 128) by (destruct Hkey as [[-> _]|[-> _]]; auto).
  assert (H7 : 0 <= len7_of len <= 127).
  { unfold len7_of. destruct (Z.ltb_spec len 126), (Z.leb_spec len 65535); lia. }
  assert (Hk : length key = if bit =? 0 then 0%nat else 4%nat) by (by destruct Hkey as [[-> ->]|[-> ->]]).
  set (b0 := u8 (Z.lor fb (Z.land op KL_WS_OPCODE_MASK))) in *.
  assert (Hhdr : hdr = b0 :: u8 (Z.lor bit (len7_of len)) :: ext_of len ++ key).
  { unfold hdr. by rewrite frame_lengths_split. }
  assert (Hm : length (ext_of len ++ key) = ((if (len7_of len =? 126)%Z then 2 else if (len7_of len =? 127)%Z then 8 else 0) + if (bit =? 0)%Z then 0 else 4)%nat).
  { by rewrite length_app, ext_length, Hk. }
  pose proof (header_two fb op bit (len7_of len) (ext_of len ++ key) rest Hf Ho Hb H7 Hm) as Hloop. fold b0 in Hloop.
  unfold kl_ws_frame_parse. change (state kl_ws_frame_init) with KL_WS_FRAME_HEADER. cbn iota.
  assert (Hall : hdr ++ rest = b0 :: u8 (Z.lor bit (len7_of len)) :: (ext_of len ++ key) ++ rest)
    by by rewrite Hhdr.
  rewrite Hall, Hloop. cbn [negb header_len header_buf header_need].
  assert (Hlh : length hdr = (2 + length (ext_of len ++ key))%nat) by by rewrite Hhdr.
  rewrite <- Hhdr, <- Hlh. unfold header_len. cbn [header_buf header_need]. rewrite Nat.ltb_irrefl.
  unfold header_done. rewrite Hhdr at 1. rewrite decode_written by (auto; lia). cbn [opcode fin masked header_buf header_need mask_key state payload_read].
  assert (Hc : (8 <=? op) && ((125 <? len) || (fb / 128 =? 0)) = false).
  { destruct (Z.leb_spec 8 op) as [H8|]; [|done]. destruct (Hctl H8) as [Hl ->]. destruct (Z.ltb_spec 125 len); [lia|done]. }
  rewrite Hc. cbn [negb].
  replace (Z.to_nat (2 + Z.of_nat (length (ext_of len ++ key)))) with (length hdr) by lia.
  rewrite <- Hall, drop_app_length. replace (2 + Z.of_nat (length (ext_of len ++ key))) with (Z.of_nat (length hdr)) by lia.
  unfold parsing. do 2 f_equal. destruct Hkey as [[-> ->]|[-> Hk4]]; [done|]. change (128 / 128) with 1. cbn [negb Z.eqb]. rewrite Hhdr.
  change (b0 :: u8 (Z.lor 128 (len7_of len)) :: ext_of len ++ key) with ([b0; u8 (Z.lor 128 (len7_of len))] ++ ext_of len ++ key).
  rewrite app_assoc, drop_app_length' by (simpl; lia). by rewrite take_ge by (unfold KL_WS_MASK_KEY_LEN; lia).
Qed.

Lemma written_frame op bit key payload rest :
  valid_opcode op -> (8 <= op -> Z.of_nat (length payload) <= 125) ->
  bit = 0 /\ key = [] \/ bit = 128 /\ length key = 4%nat -> Z.of_nat (length payload) <= SIZE_MAX / 2 ->
  let len := Z.of_nat (length payload) in
  let hdr := u8 (Z.lor KL_WS_FIN_BIT (Z.land op KL_WS_OPCODE_MASK)) :: frame_lengths bit len ++ key in
  kl_ws_frame_parse kl_ws_frame_init (hdr ++ payload ++ rest) =
  (1, parsed op bit len key hdr, Z.of_nat (length hdr) + len).
Proof.
  intros Ho Hctl Hkey Hlen len hdr. unfold hdr. rewrite written_header by (auto; lia). by rewrite payload_all.
Qed.

(** Frames survive the wire: whatever the client writes for a message (header, random mask key,
    payload masked in chunks of at most 4096 bytes) the shared parser reads back as one final frame
    with the same opcode, length and key, consuming exactly its bytes whatever follows, and
    unmasking the payload, in any two pieces at their offsets, gives the message.  The header a
    server writes parses back likewise, unmasked. *)
Lemma frame_roundtrip (op : Z) (data key rest : list Z) (cut : nat)
    (Hop : valid_opcode op) (Hctl : 8 <= op -> Z.of_nat (length data) <= 125)
    (Hlen : Z.of_nat (length data) <= SIZE_MAX / 2) (Hkey : length key = 4%nat) :
  (exists hdr chunks, wsc_send_frame op data key = Some (hdr :: chunks) /\
     kl_ws_frame_parse kl_ws_frame_init (hdr ++ concat chunks ++ rest) =
       (1, parsed op KL_WS_MASK_BIT (Z.of_nat (length data)) key hdr, Z.of_nat (length hdr) + Z.of_nat (length data)) /\
     ws_unmask (take cut (concat chunks)) key 0 ++
     ws_unmask (drop cut (concat chunks)) key (Z.of_nat (length (take cut (concat chunks)))) = data) /\
  kl_ws_frame_parse kl_ws_frame_init (server_header op (Z.of_nat (length data)) ++ data ++ rest) =
    (1, parsed op 0 (Z.of_nat (length data)) [] (server_header op (Z.of_nat (length data))),
     Z.of_nat (length (server_header op (Z.of_nat (length data)))) + Z.of_nat (length data)).
Proof.
  split.
  - destruct (client_chunks_spec (length data) key 0 data ltac:(lia)) as (chunks & Hch & Hcat & _).
    exists (client_header op (Z.of_nat (length data)) key), chunks. unfold wsc_send_frame. rewrite Hch, bind_Some_l.
    split; [done|]. rewrite Hcat. split.
    + pose proof (mask_chunk_length key 0 data) as Hml.
      rewrite <- Hml in Hlen, Hctl |- *. by apply written_frame; auto.
    + rewrite !ws_unmask_chunk, <- (Z.add_0_l (Z.of_nat _)), <- mask_chunk_app, take_drop. apply mask_chunk_involutive.
  - unfold server_header. rewrite <- (app_nil_r (frame_lengths 0 (Z.of_nat (length data)))). by apply written_frame; auto.
Qed.

(** ** UTF-8: the automaton decides RFC 3629 *)

Definition within (lo hi b : Z) : bool := (lo <=? b) && (b <=? hi).

(** One encoded character. *)
Inductive utf8_char : list Z -> Prop :=
  | utf8_1 a : within 0 127 a = true -> utf8_char [a]
  | utf8_2 a b : within 194 223 a = true -> within 128 191 b = true -> utf8_char [a; b]
  | utf8_3 a b c : within 225 236 a || within 238 239 a = true -> within 128 191 b = true -> within 128 191 c = true ->
      utf8_char [a; b; c]
  | utf8_3_e0 b c : within 160 191 b = true -> within 128 191 c = true -> utf8_char [224; b; c]
  | utf8_3_ed b c : within 128 159 b = true -> within 128 191 c = true -> utf8_char [237; b; c]
  | utf8_4 a b c d : within 241 243 a = true -> within 128 191 b = true -> within 128 191 c = true ->
      within 128 191 d = true -> utf8_char [a; b; c; d]
  | utf8_4_f0 b c d : within 144 191 b = true -> within 128 191 c = true -> within 128 191 d = true -> utf8_char [240; b; c; d]
  | utf8_4_f4 b c d : within 128 143 b = true -> within 128 191 c = true -> within 128 191 d = true -> utf8_char [244; b; c; d].

Inductive utf8 : list Z -> Prop :=
  | utf8_nil : utf8 []
  | utf8_app c l : utf8_char c -> utf8 l -> utf8 (c ++ l).

(** What each state still accepts: a continuation byte in a range, then the language of another state. *)
Definition then_ (lo hi : Z) (P : list Z -> Prop) (l : list Z) : Prop :=
  match l with b :: l' => within lo hi b = true /\ P l' | [] => False end.

Definition L24 : list Z -> Prop := then_ 128 191 utf8.
Definition L36 : list Z -> Prop := then_ 128 191 L24.

Definition lang (st : Z) : list Z -> Prop :=
  if st =? 0 then utf8 else if st =? 24 then L24 else if st =? 36 then L36
  else if st =? 48 then then_ 160 191 L24 else if st =? 60 then then_ 128 159 L24
  else if st =? 72 then then_ 144 191 L36 else if st =? 84 then then_ 128 191 L36 else if st =? 96 then then_ 128 143 L36
  else fun _ => False.

(** The transitions, by ranges. *)
Definition ref_step (st b : Z) : Z :=
  if st =? 0 then
    if within 0 127 b then 0 else if within 194 223 b then 24 else if b =? 224 then 48 else if b =? 237 then 60
    else if within 225 239 b then 36 else if b =? 240 then 72 else if within 241 243 b then 84
    else if b =? 244 then 96 else 12
  else if st =? 24 then if within 128 191 b then 0 else 12
  else if st =? 36 then if within 128 191 b then 24 else 12
  else if st =? 48 then if within 160 191 b then 24 else 12
  else if st =? 60 then if within 128 159 b then 24 else 12
  else if st =? 72 then if within 144 191 b then 36 else 12
  else if st =? 84 then if within 128 191 b then 36 else 12
  else if st =? 96 then if within 128 143 b then 36 else 12
  else 12.

Definition utf8_states : list Z := [0; 12; 24; 36; 48; 60; 72; 84; 96].

Lemma utf8_step_ref st b : st ∈ utf8_states -> is_byte b -> utf8_step st b = ref_step st b.
Proof.
  intros Hs Hb.
  assert (Hall : forallb (fun n => forallb (fun st => utf8_step st (Z.of_nat n) =? ref_step st (Z.of_nat n)) utf8_states) (seq 0 256) = true)
    by by vm_compute.
  rewrite forallb_forall in Hall. specialize (Hall (Z.to_nat b)). unfold is_byte in Hb. rewrite Z2Nat.id in Hall by lia.
  specialize (Hall ltac:(apply in_seq; lia)). rewrite forallb_forall in Hall.
  apply Z.eqb_eq, Hall. by apply list_elem_of_In.
Qed.

Lemma accept_state : KL_UTF8_ACCEPT ∈ utf8_states.
Proof. apply list_elem_of_In. simpl. auto. Qed.
Lemma reject_state : KL_UTF8_REJECT ∈ utf8_states.
Proof. apply list_elem_of_In. simpl. auto. Qed.

Lemma ref_step_states st b : ref_step st b ∈ utf8_states.
Proof. unfold ref_step. repeat case_if; unfold utf8_states; set_solver. Qed.
Lemma within_spec lo hi b : within lo hi b = true <-> lo <= b <= hi.
Proof. unfold within. rewrite andb_true_iff, !Z.leb_le. done. Qed.

(** The state a first byte leads to. *)
Lemma ref_first b : let st := ref_step 0 b in
  (0 <= b <= 127 <-> st = 0) /\ (194 <= b <= 223 <-> st = 24) /\ (b = 224 <-> st = 48) /\ (b = 237 <-> st = 60) /\
  (225 <= b <= 236 \/ 238 <= b <= 239 <-> st = 36) /\ (b = 240 <-> st = 72) /\ (241 <= b <= 243 <-> st = 84) /\
  (b = 244 <-> st = 96).
Proof.
  unfold ref_step, within. change (0 =? 0) with true. cbv zeta.
  destruct (Z.leb_spec 0 b), (Z.leb_spec b 127); cbn [andb]; try (split_and!; lia).
  all: destruct (Z.leb_spec 194 b), (Z.leb_spec b 223); cbn [andb]; try (split_and!; lia).
  all: destruct (Z.eqb_spec b 224); [split_and!; lia|]. all: destruct (Z.eqb_spec b 237); [split_and!; lia|].
  all: destruct (Z.leb_spec 225 b), (Z.leb_spec b 239); cbn [andb]; try (split_and!; lia).
  all: destruct (Z.eqb_spec b 240); [split_and!; lia|].
  all: destruct (Z.leb_spec 241 b), (Z.leb_spec b 243); cbn [andb]; try (split_and!; lia).
  all: destruct (Z.eqb_spec b 244); split_and!; lia.
Qed.

Lemma utf8_first b l : utf8 (b :: l) <-> lang (ref_step 0 b) l.
Proof.
  destruct (ref_first b) as (H0 & H24 & H48 & H60 & H36 & H72 & H84 & H96). split.
  - intros Hu. inversion Hu as [|c l' Hc Hl Heq].
    destruct Hc as [a Ha|a b' Ha Hb|a b' c Ha Hb Hc|b' c Hb Hc|b' c Hb Hc|a b' c d Ha Hb Hc Hd|b' c d Hb Hc Hd|b' c d Hb Hc Hd];
      injection Heq as Hx Hy; subst; simpl app.
    + apply within_spec, H0 in Ha as ->. done.
    + apply within_spec, H24 in Ha as ->. done.
    + apply orb_true_iff in Ha. rewrite !within_spec in Ha. apply H36 in Ha as ->. done.
    + rewrite (proj1 H48 eq_refl). done.
    + rewrite (proj1 H60 eq_refl). done.
    + apply within_spec, H84 in Ha as ->. done.
    + rewrite (proj1 H72 eq_refl). done.
    + rewrite (proj1 H96 eq_refl). done.
  - pose proof (ref_step_states 0 b) as Hs. unfold utf8_states in Hs. set_unfold in Hs.
    destruct Hs as [E|[E|[E|[E|[E|[E|[E|[E|[E|[]]]]]]]]]]; rewrite E.
    + intros Hl. apply (utf8_app [b]); [|done]. apply utf8_1. by apply within_spec, H0.
    + intros [].
    + destruct l as [|c l]; [intros []|]. intros [Hc Hl]. apply (utf8_app [b; c]); [|done].
      apply utf8_2; [|done]. by apply within_spec, H24.
    + destruct l as [|c [|d l]]; [intros []|intros [_ []]|]. intros (Hc & Hd & Hl). apply (utf8_app [b; c; d]); [|done].
      apply utf8_3; [|done|done]. apply orb_true_iff. rewrite !within_spec. by apply H36.
    + destruct l as [|c [|d l]]; [intros []|intros [_ []]|]. intros (Hc & Hd & Hl). apply H48 in E as ->.
      apply (utf8_app [224; c; d]); [|done]. by apply utf8_3_e0.
    + destruct l as [|c [|d l]]; [intros []|intros [_ []]|]. intros (Hc & Hd & Hl). apply H60 in E as ->.
      apply (utf8_app [237; c; d]); [|done]. by apply utf8_3_ed.
    + destruct l as [|c [|d [|e l]]]; [intros []|intros [_ []]|intros [_ [_ []]]|]. intros (Hc & Hd & He & Hl). apply H72 in E as ->.
      apply (utf8_app [240; c; d; e]); [|done]. by apply utf8_4_f0.
    + destruct l as [|c [|d [|e l]]]; [intros []|intros [_ []]|intros [_ [_ []]]|]. intros (Hc & Hd & He & Hl).
      apply (utf8_app [b; c; d; e]); [|done]. apply utf8_4; [|done..]. by apply within_spec, H84.
    + destruct l as [|c [|d [|e l]]]; [intros []|intros [_ []]|intros [_ [_ []]]|]. intros (Hc & Hd & He & Hl). apply H96 in E as ->.
      apply (utf8_app [244; c; d; e]); [|done]. by apply utf8_4_f4.
Qed.

Lemma lang_step st b l : st ∈ utf8_states -> lang st (b :: l) <-> lang (ref_step st b) l.
Proof.
  intros Hs. unfold utf8_states in Hs. set_unfold in Hs.
  destruct Hs as [->|[->|[->|[->|[->|[->|[->|[->|[->|[]]]]]]]]]]; [apply utf8_first|done|..].
  all: unfold ref_step; cbv [Z.eqb Pos.eqb].
  all: match goal with |- context [within ?lo ?hi ?x] => destruct (within lo hi x) eqn:Hw end.
  all: cbv [lang Z.eqb Pos.eqb L24 L36 then_]; rewrite Hw; intuition done.
Qed.

Lemma validate_lang st l : st ∈ utf8_states -> st <> KL_UTF8_REJECT -> Forall is_byte l ->
  kl_utf8_validate st l = KL_UTF8_ACCEPT <-> lang st l.
Proof.
  intros Hs Hr Hl. revert st Hs Hr. induction Hl as [|b l Hb _ IH]; intros st Hs Hr; cbn [kl_utf8_validate].
  - unfold utf8_states in Hs. set_unfold in Hs.
    destruct Hs as [->|[->|[->|[->|[->|[->|[->|[->|[->|[]]]]]]]]]]; try done. split; [constructor|done].
  - rewrite lang_step, utf8_step_ref by done. destruct (Z.eqb_spec (ref_step st b) KL_UTF8_REJECT) as [->|Hn]; [done|].
    apply IH; [apply ref_step_states|done].
Qed.

Lemma validate_reject l : Forall is_byte l -> kl_utf8_validate KL_UTF8_REJECT l = KL_UTF8_REJECT.
Proof.
  intros Hl. destruct Hl as [|c l Hc _]; cbn [kl_utf8_validate]; [done|].
  rewrite utf8_step_ref by (try done; apply reject_state). done.
Qed.

Lemma validate_app st a b : st ∈ utf8_states -> Forall is_byte a -> Forall is_byte b ->
  kl_utf8_validate st (a ++ b) = kl_utf8_validate (kl_utf8_validate st a) b.
Proof.
  intros Hs Ha Hb. revert st Hs. induction Ha as [|c a Hc _ IH]; intros st Hs; cbn [app kl_utf8_validate]; [done|].
  rewrite utf8_step_ref by done. destruct (Z.eqb_spec (ref_step st c) KL_UTF8_REJECT) as [_|Hn].
  - by rewrite validate_reject.
  - apply IH, ref_step_states.
Qed.

(** C38.  The table-driven UTF-8 validator accepts exactly the byte strings of RFC 3629 (no overlong
    forms, no surrogates, nothing above U+10FFFF), and fed in two pieces it ends in the same state as
    fed whole. *)
Theorem utf8_validate_spec (a b : list Z) (Ha : Forall is_byte a) (Hb : Forall is_byte b) :
  (kl_utf8_validate KL_UTF8_ACCEPT a = KL_UTF8_ACCEPT <-> utf8 a) /\
  kl_utf8_validate (kl_utf8_validate KL_UTF8_ACCEPT a) b = kl_utf8_validate KL_UTF8_ACCEPT (a ++ b).
Proof.
  pose proof accept_state as H0.
  split; [by apply validate_lang|]. symmetry. by apply validate_app.
Qed.

Lemma utf8_validate_spec_witness : utf8 (bytes "caf" ++ [195; 169]).
Proof.
  refine (proj1 (proj1 (utf8_validate_spec (bytes "caf" ++ [195; 169]) [] ltac:(apply bytes_ok; reflexivity) ltac:(constructor))) _).
  reflexivity.
Defined.

(** A CLOSE payload is accepted exactly when it is empty, or a status code a peer may send
    followed by a valid UTF-8 reason; otherwise the answer is 1002 for a bad code or a single byte
    and 1007 for a bad reason. *)
Lemma close_payload_spec (p : list Z) (Hp : Forall is_byte p) :
  let code := be_bytes (take 2 p) in
  let sendable := 1000 <= code <= 1003 \/ 1007 <= code <= 1014 \/ 3000 <= code <= 4999 in
  (kl_ws_close_payload_check p = 0 <-> p = [] \/ (2 <= length p)%nat /\ sendable /\ utf8 (drop 2 p)) /\
  (kl_ws_close_payload_check p = 1007 <-> (2 <= length p)%nat /\ sendable /\ ~ utf8 (drop 2 p)) /\
  (kl_ws_close_payload_check p = 0 \/ kl_ws_close_payload_check p = 1007 \/ kl_ws_close_payload_check p = KL_WS_PROTOCOL_ERROR).
Proof.
  unfold KL_WS_PROTOCOL_ERROR. destruct p as [|b0 [|b1 reason]].
  - split_and!; intuition (try done; try (simpl in *; lia)).
  - unfold kl_ws_close_payload_check, KL_WS_PROTOCOL_ERROR. split_and!; intuition (try done; try (simpl in *; lia)).
  - apply Forall_cons in Hp as [H0 [H1 Hr]%Forall_cons]. unfold is_byte in *.
    assert (Hcode : be_bytes (take 2 (b0 :: b1 :: reason)) = Z.lor (Z.shiftl b0 8) b1).
    { simpl take. rewrite take_0. unfold be_bytes. cbn [fold_left]. rewrite (be_step 0) by (unfold is_byte; lia).
      rewrite be_step by (change (2 ^ 56) with 72057594037927936; unfold is_byte; lia). rewrite lor_shiftl_add by lia. lia. }
    rewrite Hcode. cbn [kl_ws_close_payload_check drop]. rewrite drop_0. set (code := Z.lor (Z.shiftl b0 8) b1).
    assert (Hu : kl_utf8_validate KL_UTF8_ACCEPT reason = KL_UTF8_ACCEPT <-> utf8 reason).
    { apply validate_lang; [apply accept_state|done|done]. }
    unfold KL_WS_PROTOCOL_ERROR. simpl length. set (ok := _ || _ || _).
    assert (Hok : ok = true <-> 1000 <= code <= 1003 \/ 1007 <= code <= 1014 \/ 3000 <= code <= 4999).
    { unfold ok. rewrite !orb_true_iff, !andb_true_iff, !Z.leb_le. tauto. }
    destruct ok; simpl negb; cbn iota; destruct (Z.eqb_spec (kl_utf8_validate KL_UTF8_ACCEPT reason) KL_UTF8_ACCEPT);
      simpl; split_and!; intuition (try done; try lia).
Qed.

End WsFrame.
