(* ===== verification/Url.v ===== *)
(** * URLs (src/src/url.c, src/include/keel/url.h)

    The request-URL parser, the resolution of a Location header against a base URL, and the
    printing of a URL's authority.  A C string is the list of its bytes without the final NUL;
    a pointer into the URL is the suffix it points to.  [KlUrl] holds the texts its pointer and
    length pairs denote.

    The parser is proved to accept exactly a grammar ([url_grammar]), from which come the
    round trip of the authority and the fact that resolving a path never leaves the origin. *)
From S2P Require Import Prelude CStr.
Import CStr.

Module Url.

(** ** Definitions *)

Definition has_crlf (s : list Z) : bool := existsb (fun c => (c =? c_CR) || (c =? c_LF)) s.

Definition has_space_or_ctl (s : list Z) : bool := existsb (fun c => (c <=? 32) || (c =? c_DEL)) s.

Fixpoint without_fragment (s : list Z) : nat :=
  match s with
  | [] => 0
  | c :: s' => if c =? c_hash then 0 else S (without_fragment s')
  end.

Definition scheme_is (url prefix : list Z) : bool := kl_ascii_strncasecmp url prefix (length prefix) =? 0.

Definition hex_val (c : Z) : Z :=
  if (c_0 <=? c) && (c <=? c_9) then c - c_0
  else if (c_a <=? c) && (c <=? c_f) then c - c_a + 10
  else if (c_A <=? c) && (c <=? c_F) then c - c_A + 10
  else -1.

(** [di] bytes are already stored; the result is the bytes stored from [di] on, [None] is -1. *)
Fixpoint pct_decode (src : list Z) (di dstsz : nat) : option (list Z) :=
  let store c rest :=
    if c =? 0 then None
    else if (dstsz <=? di + 1)%nat then None
    else tl ← pct_decode rest (S di) dstsz; Some (c :: tl) in
  match src with
  | [] => Some []
  | c :: src' =>
      if c =? c_percent then
        match src' with
        | h :: l :: rest =>
            let hi := hex_val h in
            let lo := hex_val l in
            if (hi <? 0) || (lo <? 0) then None
            else store (Z.lor (Z.shiftl hi 4) lo) rest
        | _ => None
        end
      else store c src'
  end.

Record KlUrl := mkUrl {
  is_https : bool;
  is_ws : bool;
  is_unix : bool;
  host : list Z;       (* empty for the NULL host of a unix URL *)
  port : Z;
  path : list Z;
  unix_path : list Z;
}.

Definition KL_URL_UNIX_PATH_MAX : nat := 108.

Definition url_path (url : list Z) : option (list Z) :=
  if has_space_or_ctl url then None
  else if deref url =? c_slash then Some (take (without_fragment url) url)
  else if (deref url =? 0) || (deref url =? c_hash) then Some (bytes "/")
  else None.

(** The scheme tests: [is_https], [is_ws], [is_unix] and the URL after the scheme. *)
Definition url_scheme (url : list Z) : option (bool * bool * bool * list Z) :=
  if scheme_is url (bytes "https+unix://") then Some (true, false, true, drop 13 url)
  else if scheme_is url (bytes "http+unix://") then Some (false, false, true, drop 12 url)
  else if scheme_is url (bytes "https://") then Some (true, false, false, drop 8 url)
  else if scheme_is url (bytes "http://") then Some (false, false, false, drop 7 url)
  else if scheme_is url (bytes "wss+unix://") then Some (true, true, true, drop 11 url)
  else if scheme_is url (bytes "ws+unix://") then Some (false, true, true, drop 10 url)
  else if scheme_is url (bytes "wss://") then Some (true, true, false, drop 6 url)
  else if scheme_is url (bytes "ws://") then Some (false, true, false, drop 5 url)
  else None.

(** The loops that advance [url] while it is not at the NUL nor at a stop character: what was
    passed over and where the pointer stands. *)
Fixpoint scan (stop : Z -> bool) (url : list Z) : list Z * list Z :=
  match url with
  | [] => ([], [])
  | c :: url' => if stop c then ([], url) else let '(a, b) := scan stop url' in (c :: a, b)
  end.

Definition auth_stop (c : Z) : bool := (c =? c_slash) || (c =? c_quest) || (c =? c_hash).
Definition host_stop (c : Z) : bool := (c =? c_colon) || auth_stop c.
Definition not_digit (c : Z) : bool := negb ((c_0 <=? c) && (c <=? c_9)).

(** The search for [auth_end], which fails on an '@'; [fst] of the result is the authority. *)
Fixpoint auth_scan (url : list Z) : option (list Z * list Z) :=
  match url with
  | [] => Some ([], [])
  | c :: url' =>
      if auth_stop c then Some ([], url)
      else if c =? c_at then None
      else '(a, b) ← auth_scan url'; Some (c :: a, b)
  end.

Definition zone_char (c : Z) : bool :=
  ((c_a <=? c) && (c <=? c_z)) || ((c_A <=? c) && (c <=? c_Z)) ||
  (c =? c_minus) || (c =? c_under) || (c =? c_tilde).

Definition literal_char (zone : bool) (c : Z) : bool :=
  (0 <=? hex_val c) || (c =? c_colon) || (c =? c_dot) || (zone && zone_char c).

(** The loop from [bracket] to the closing ']', inside the authority [auth]: the literal and what
    follows the ']' in the authority. *)
Fixpoint bracket_scan (zone : bool) (auth : list Z) : option (list Z * list Z) :=
  match auth with
  | [] => None
  | c :: auth' =>
      if c =? c_rbrack then Some ([], auth')
      else if c =? c_percent then '(h, r) ← bracket_scan true auth'; Some (c :: h, r)
      else if negb (literal_char zone c) then None
      else '(h, r) ← bracket_scan zone auth'; Some (c :: h, r)
  end.

(** The host and the URL after it. *)
Definition url_host (url : list Z) : option (list Z * list Z) :=
  '(auth, rest) ← auth_scan url;
  if deref url =? c_lbrack then
    '(h, r) ← bracket_scan false (tail auth); Some (h, r ++ rest)
  else Some (scan host_stop url).

(** The port and the URL after it. *)
Definition url_port (https : bool) (url : list Z) : option (Z * list Z) :=
  if deref url =? c_colon then
    let '(digits, url') := scan not_digit (tail url) in
    p ← kl_parse_u16_decimal digits;
    if p =? 0 then None else Some (p, url')
  else Some (if https then 443 else 80, url).

(** [None] is -1; the contents of [*out] are then unspecified. *)
Definition kl_url_parse (url : list Z) : option KlUrl :=
  '(https, ws, unix, url) ← url_scheme url;
  if unix : bool then
    let '(auth, url) := scan auth_stop url in
    if strlen auth =? 0 then None
    else
      dec ← pct_decode auth 0 KL_URL_UNIX_PATH_MAX;
      if has_crlf dec then None
      else p ← url_path url; Some (mkUrl https ws unix [] 0 p dec)
  else
    '(h, url) ← url_host url;
    if strlen h =? 0 then None
    else if has_space_or_ctl h then None
    else
      '(prt, url) ← url_port https url;
      p ← url_path url;
      Some (mkUrl https ws unix h prt p []).

Fixpoint strip_fragment (s : list Z) : nat :=
  match s with
  | [] => 0
  | c :: s' => if c =? c_hash then 0 else S (strip_fragment s')
  end.

(** The text left in [out] (its NUL is not written out); [None] is -1. *)
Definition kl_url_resolve (base_url location : list Z) (out_size : nat) : option (list Z) :=
  if (out_size =? 0)%nat then None
  else if strlen location =? 0 then None
  else if scheme_is location (bytes "http://") || scheme_is location (bytes "https://") then
    let n := strip_fragment location in
    if (out_size <=? n)%nat then None else Some (take n location)
  else if (deref location =? c_slash) && (deref (tail location) =? c_slash) then
    colon ← kl_strchr base_url c_colon;
    let scheme_len := (length base_url - length colon)%nat in
    if (5 <=? scheme_len)%nat && scheme_is (drop (scheme_len - 5) base_url) (bytes "+unix") then None
    else
      let loc_stripped := strip_fragment location in
      if (out_size <=? scheme_len + 1 + loc_stripped)%nat then None
      else Some (take (scheme_len + 1) base_url ++ take loc_stripped location)
  else if deref location =? c_slash then
    auth ← kl_strstr base_url (bytes "://");
    let auth_end := (scan auth_stop (drop 3 auth)).2 in
    let origin_len := (length base_url - length auth_end)%nat in
    let loc_stripped := strip_fragment location in
    if (out_size <=? origin_len + loc_stripped)%nat then None
    else Some (take origin_len base_url ++ take loc_stripped location)
  else None.

(** The buffer and the returned length; [None] is -1. *)
Definition kl_url_authority (url : KlUrl) (out : list Z) (cap : nat) : option (list Z * nat) :=
  if (cap =? 0)%nat then None
  else
    let v6 := existsb (fun c => c =? c_colon) (host url) in
    let deflt := if is_https url then 443 else 80 in
    st ← (if v6 then kl_buf_append_n cap (out, 0%nat) (bytes "[") else Some (out, 0%nat));
    st ← kl_buf_append_n cap st (host url);
    st ← (if v6 then kl_buf_append_n cap st (bytes "]") else Some st);
    if negb (is_unix url) && negb (port url =? deflt) then
      st ← kl_buf_append_n cap st (bytes ":");
      kl_buf_append_u64 cap st (port url)
    else Some st.

Example parse_v6 :
  kl_url_parse (bytes "HTTPS://[fe80::1%25eth0]:8443/a?b#c") =
  Some (mkUrl true false false (bytes "fe80::1%25eth0") 8443 (bytes "/a?b") []).
Proof. vm_compute. reflexivity. Qed.
Example parse_unix :
  kl_url_parse (bytes "http+unix://%2Frun%2Fapp.sock/v1") =
  Some (mkUrl false false true [] 0 (bytes "/v1") (bytes "/run/app.sock")).
Proof. vm_compute. reflexivity. Qed.
Example parse_userinfo : kl_url_parse (bytes "http://good@evil/") = None.
Proof. vm_compute. reflexivity. Qed.

(** ** The grammar of request URLs *)

Definition lower (s : list Z) : list Z := ascii_lower <$> s.
Arguments lower : simpl never.

Definition scheme_text (https ws unix : bool) : list Z :=
  bytes (if ws then "ws" else "http") ++ (if https then bytes "s" else []) ++
  (if unix then bytes "+unix" else []) ++ bytes "://".

(** Neither a space nor a control byte. *)
Definition clean (c : Z) : Prop := 32 < c /\ c <> c_DEL.

Definition reg_char (c : Z) : Prop := clean c /\ host_stop c = false /\ c <> c_at.

(** What may stand between brackets; the flag says that a zone has started. *)
Inductive literal : bool -> list Z -> Prop :=
| literal_nil zone : literal zone []
| literal_zone zone h : literal true h -> literal zone (c_percent :: h)
| literal_cons zone c h : literal_char zone c = true -> literal zone h -> literal zone (c :: h).

Inductive host_text : list Z -> list Z -> Prop :=
| host_name h : h <> [] -> deref h <> c_lbrack -> Forall reg_char h -> host_text h h
| host_literal h : h <> [] -> literal false h -> host_text h (c_lbrack :: h ++ [c_rbrack]).

Definition default_port (https : bool) : Z := if https then 443 else 80.

Inductive port_text (https : bool) : Z -> list Z -> Prop :=
| port_default : port_text https (default_port https) []
| port_digits ds :
    ds <> [] -> Forall is_digit ds -> 1 <= dec_value ds <= 65535 ->
    port_text https (dec_value ds) (c_colon :: ds).

Definition fragment (frag : list Z) : Prop := frag = [] \/ deref frag = c_hash.

(** What follows the authority, and the path to request. *)
Inductive tail_text : list Z -> list Z -> Prop :=
| tail_path t frag :
    deref t = c_slash -> Forall (fun c => c <> c_hash) t -> Forall clean (t ++ frag) -> fragment frag ->
    tail_text (t ++ frag) t
| tail_empty frag : Forall clean frag -> fragment frag -> tail_text frag (bytes "/").

Inductive pct_text : list Z -> list Z -> Prop :=
| pct_nil : pct_text [] []
| pct_plain c e d : c <> c_percent -> pct_text e d -> pct_text (c :: e) (c :: d)
| pct_escape h l e d :
    0 <= hex_val h -> 0 <= hex_val l -> pct_text e d ->
    pct_text (c_percent :: h :: l :: e) (16 * hex_val h + hex_val l :: d).

(** Bytes of a socket path. *)
Definition sock_char (c : Z) : Prop := c <> 0 /\ c <> c_CR /\ c <> c_LF.

(** The part of a URL before its path, and the URL it is for each path. *)
Inductive url_origin : list Z -> (list Z -> KlUrl) -> Prop :=
| origin_tcp https ws sch h ht prt pt :
    lower sch = scheme_text https ws false -> host_text h ht -> port_text https prt pt ->
    url_origin (sch ++ ht ++ pt) (fun p => mkUrl https ws false h prt p [])
| origin_unix https ws sch enc dec :
    lower sch = scheme_text https ws true ->
    enc <> [] -> Forall (fun c => auth_stop c = false) enc -> pct_text enc dec ->
    Forall sock_char dec -> (length dec < KL_URL_UNIX_PATH_MAX)%nat ->
    url_origin (sch ++ enc) (fun p => mkUrl https ws true [] 0 p dec).

Inductive url_grammar : list Z -> KlUrl -> Prop :=
| grammar o mk tl p : url_origin o mk -> tail_text tl p -> url_grammar (o ++ tl) (mk p).

(** ** Scanning *)

(** The pointer stands at the end of the string or at a stop character. *)
Definition stopped (stop : Z -> bool) (b : list Z) : Prop := b = [] \/ stop (deref b) = true.

Lemma scan_iff stop l a b :
  scan stop l = (a, b) <-> l = a ++ b /\ Forall (fun c => stop c = false) a /\ stopped stop b.
Proof.
  unfold stopped. revert a b. induction l as [|c l IH]; intros a b; simpl.
  - split; [intros [= <- <-]; auto|]. intros (He & _). symmetry in He. by apply app_nil in He as [-> ->].
  - destruct (stop c) eqn:E.
    + split; [intros [= <- <-]; auto|]. intros (He & Ha & _). destruct a; simpl in He; [by subst|].
      injection He as <- _. apply Forall_cons in Ha as [? _]. congruence.
    + destruct (scan stop l) as [a' b'] eqn:Es. split.
      * intros [= <- <-]. destruct (IH a' b') as [(-> & Ha & Hb) _]; [done|]. auto.
      * intros (He & Ha & Hb). destruct a as [|x a]; simpl in He.
        { subst b. destruct Hb as [?|Hb]; [done|]. simpl in Hb. congruence. }
        injection He as <- ->. apply Forall_cons in Ha as [_ Ha].
        destruct (IH a b) as [_ IH2]. assert ((a', b') = (a, b)) by auto. congruence.
Qed.

Definition auth_char (c : Z) : Prop := auth_stop c = false /\ c <> c_at.

Lemma auth_scan_sound l a b :
  auth_scan l = Some (a, b) -> l = a ++ b /\ Forall auth_char a /\ stopped auth_stop b.
Proof.
  unfold stopped, auth_char. revert a b. induction l as [|c l IH]; intros a b; simpl.
  { by intros [= <- <-]; auto. }
  destruct (auth_stop c) eqn:E; [intros [= <- <-]; auto|]. case_test; [done|].
  destruct (auth_scan l) as [[a' b']|]; [|done]. rewrite bind_Some_l. intros [= <- <-].
  destruct (IH a' b') as (-> & Ha & Hb); auto.
Qed.

Lemma auth_scan_complete a b : Forall auth_char a -> stopped auth_stop b -> auth_scan (a ++ b) = Some (a, b).
Proof.
  intros Ha Hb. induction Ha as [|c a [Hc Hat] Ha IH]; simpl.
  - destruct b as [|c b]; [done|]. destruct Hb as [?|Hb]; [done|]. simpl in *. by rewrite Hb.
  - rewrite Hc. case_test; [done|]. by rewrite IH.
Qed.

Lemma auth_stop_false c : auth_stop c = false <-> c <> c_slash /\ c <> c_quest /\ c <> c_hash.
Proof. unfold auth_stop. rewrite !orb_false_iff, !Z.eqb_neq. tauto. Qed.

Lemma host_stop_false c : host_stop c = false <-> c <> c_colon /\ auth_stop c = false.
Proof. unfold host_stop. by rewrite orb_false_iff, Z.eqb_neq. Qed.

Lemma hex_val_nonneg c : 0 <= hex_val c -> 48 <= c <= 57 \/ 97 <= c <= 102 \/ 65 <= c <= 70.
Proof. unfold hex_val. repeat case_if; breflect; lia. Qed.

Lemma literal_char_range zone c : literal_char zone c = true ->
  45 <= c <= 58 /\ c <> 47 \/ 65 <= c <= 90 \/ c = 95 \/ 97 <= c <= 122 \/ c = 126.
Proof.
  unfold literal_char, zone_char.
  rewrite !orb_true_iff, !andb_true_iff, !orb_true_iff, !andb_true_iff, !Z.leb_le, !Z.eqb_eq.
  pose proof (hex_val_nonneg c). lia.
Qed.

Lemma literal_char_ok zone c : literal_char zone c = true ->
  c <> c_rbrack /\ c <> c_percent /\ c <> c_lbrack /\ auth_char c /\ clean c /\ (c <> c_colon -> reg_char c).
Proof.
  intros H%literal_char_range. unfold reg_char, auth_char, clean.
  rewrite host_stop_false, auth_stop_false. lia.
Qed.

Lemma bracket_scan_iff zone l h r :
  bracket_scan zone l = Some (h, r) <-> l = h ++ c_rbrack :: r /\ literal zone h.
Proof.
  split.
  - revert zone h. induction l as [|c l IH]; intros zone h; simpl; [done|]. case_test.
    { intros [= <- <-]. subst. split; [done|constructor]. }
    case_test; [|destruct (literal_char zone c) eqn:E; simpl; [|done]].
    + destruct (bracket_scan true l) as [[h' r']|] eqn:Eb; [|done]. rewrite bind_Some_l.
      intros [= <- <-]. apply IH in Eb as [-> Hl]. subst. split; [done|by constructor].
    + destruct (bracket_scan zone l) as [[h' r']|] eqn:Eb; [|done]. rewrite bind_Some_l.
      intros [= <- <-]. apply IH in Eb as [-> Hl]. split; [done|by constructor].
  - intros [-> Hl]. induction Hl as [zone|zone h Hl IH|zone c h Hc Hl IH]; simpl.
    + done.
    + by rewrite IH.
    + apply literal_char_ok in Hc as Hok. destruct Hok as (H1 & H2 & _).
      do 2 (case_test; [done|]). by rewrite Hc, IH.
Qed.

(** ** Paths, ports and escapes *)

Lemma has_space_or_ctl_false s : has_space_or_ctl s = false <-> Forall clean s.
Proof.
  unfold has_space_or_ctl, clean. induction s as [|c s IH]; simpl; [by split|].
  rewrite orb_false_iff, IH, orb_false_iff, Z.leb_gt, Z.eqb_neq, Forall_cons. done.
Qed.

Lemma without_fragment_app t frag :
  Forall (fun c => c <> c_hash) t -> fragment frag -> without_fragment (t ++ frag) = length t.
Proof.
  intros Ht Hf. induction Ht as [|c t Hc Ht IH]; simpl.
  - destruct frag as [|c frag]; [done|]. destruct Hf as [?|Hf]; [done|]. simpl in *. by rewrite Hf.
  - case_test; [done|]. by rewrite IH.
Qed.

Lemma fragment_split l : exists t frag, l = t ++ frag /\ Forall (fun c => c <> c_hash) t /\ fragment frag.
Proof.
  destruct (scan (fun c => c =? c_hash) l) as [t frag] eqn:E. apply scan_iff in E as (-> & Ht & Hf).
  exists t, frag. split_and!; [done| |].
  - apply (Forall_impl _ _ _ Ht). intros c. by rewrite Z.eqb_neq.
  - destruct Hf as [->|Hf]; [by left|right; by apply Z.eqb_eq].
Qed.

Lemma strip_without s : strip_fragment s = without_fragment s.
Proof. induction s as [|c s IH]; simpl; [done|]. by rewrite IH. Qed.

Lemma url_path_sound tl p : url_path tl = Some p -> tail_text tl p.
Proof.
  unfold url_path. destruct (has_space_or_ctl tl) eqn:E; [done|].
  apply has_space_or_ctl_false in E. case_test.
  - destruct (fragment_split tl) as (t & frag & -> & Ht & Hf).
    rewrite without_fragment_app, take_app_length by done. intros [= <-]. constructor; auto.
    destruct t; [|done]. destruct Hf as [->|Hf]; simpl in *; [done|congruence].
  - case_if; [|done]. intros [= <-]. apply tail_empty; [done|].
    destruct tl as [|c tl]; [by left|right]. apply Forall_cons in E as [Hc _]. unfold clean in Hc.
    simpl in *. apply orb_true_iff in Heqb. rewrite !Z.eqb_eq in Heqb. lia.
Qed.

Lemma url_path_complete tl p : tail_text tl p -> url_path tl = Some p.
Proof.
  unfold url_path. destruct 1 as [t frag Hd Ht Hc Hf|frag Hc Hf].
  - rewrite (proj2 (has_space_or_ctl_false _) Hc), without_fragment_app, take_app_length by done.
    destruct t; simpl in *; [done|]. by rewrite Hd.
  - rewrite (proj2 (has_space_or_ctl_false _) Hc). destruct Hf as [->|Hf]; [done|by rewrite Hf].
Qed.

Lemma tail_text_stopped tl p : tail_text tl p -> tl = [] \/ deref tl = c_slash \/ deref tl = c_hash.
Proof.
  destruct 1 as [t frag Hd _ _ _|frag _ [->|Hf]]; auto. destruct t; simpl in *; [discriminate|auto].
Qed.

Lemma tail_text_path tl p : tail_text tl p ->
  deref p = c_slash /\ Forall clean p /\ Forall (fun c => c <> c_hash) p /\ tail_text p p.
Proof.
  destruct 1 as [t frag Hd Hh Hc Hf|frag Hc Hf].
  - apply Forall_app in Hc as [Hc _]. split_and!; auto. rewrite <- (app_nil_r t) at 1.
    constructor; rewrite ?app_nil_r; auto. by left.
  - rewrite <- (app_nil_r (bytes "/")) at 4. unfold clean. split_and!; [done|by repeat constructor..|].
    constructor; [done|by repeat constructor..|by left].
Qed.

Lemma not_digit_false c : not_digit c = false <-> is_digit c.
Proof. unfold not_digit, is_digit. rewrite negb_false_iff, andb_true_iff, !Z.leb_le. done. Qed.

Lemma url_port_sound https url prt r :
  Forall is_cbyte url -> url_port https url = Some (prt, r) -> exists pt, url = pt ++ r /\ port_text https prt pt.
Proof.
  intros Hb. unfold url_port. case_test.
  - destruct url as [|c url]; [done|]. simpl in *. subst c. apply Forall_cons in Hb as [_ Hb].
    destruct (scan not_digit url) as [ds r'] eqn:E. apply scan_iff in E as (-> & Hd & _).
    apply Forall_app in Hb as [Hb _].
    destruct (kl_parse_u16_decimal ds) as [v|] eqn:Ev; [|done]. rewrite bind_Some_l.
    apply u16_decimal_iff in Ev as (Hne & Hd' & <- & Hle).
    2: by apply cbytes_bytes.
    case_test; [done|]. intros [= <- <-]. pose proof (dec_value_nonneg ds Hd').
    exists (c_colon :: ds). split; [done|]. constructor; auto. lia.
  - intros [= <- <-]. exists []. split; [done|constructor].
Qed.

Lemma url_port_complete https prt pt tl :
  port_text https prt pt -> stopped auth_stop tl -> url_port https (pt ++ tl) = Some (prt, tl).
Proof.
  intros Hp Ht. unfold url_port. destruct Hp as [|ds Hne Hd Hv]; simpl.
  - case_test; [|done]. destruct Ht as [->|Ht]; [done|]. by rewrite e in Ht.
  - rewrite (proj2 (scan_iff not_digit (ds ++ tl) ds tl)).
    + rewrite (proj2 (u16_decimal_iff ds (dec_value ds) (digit_byte ds Hd))) by (split_and!; auto; lia).
      rewrite bind_Some_l. case_test; [lia|done].
    + split_and!; [done|by apply (Forall_impl _ _ _ Hd); intros c ?; apply not_digit_false|].
      destruct Ht as [->|Ht]; [by left|right]. destruct (not_digit (deref tl)) eqn:E; [done|].
      apply not_digit_false in E. unfold is_digit in E.
      rewrite (proj2 (auth_stop_false (deref tl))) in Ht by lia. done.
Qed.

Lemma lor_nibbles h l : 0 <= h -> 0 <= l < 16 -> Z.lor (Z.shiftl h 4) l = 16 * h + l.
Proof. intros Hh Hl. rewrite lor_shiftl_add by (change (2 ^ 4) with 16; lia). lia. Qed.

Lemma hex_val_upper c : hex_val c < 16.
Proof. unfold hex_val. repeat case_if; breflect; lia. Qed.

Definition fits (di : nat) (dec : list Z) (n : nat) : Prop := dec = [] \/ (di + length dec < n)%nat.

Lemma pct_decode_sound k src di n dec :
  (length src <= k)%nat -> pct_decode src di n = Some dec ->
  pct_text src dec /\ Forall (fun c => c <> 0) dec /\ fits di dec n.
Proof.
  unfold fits. revert src di dec. induction k as [|k IH]; intros [|c src] di dec Hk; simpl in Hk |- *;
    try lia; try (intros [= <-]; auto using pct_text).
  assert (Hstore : forall x rest, (length rest <= k)%nat ->
    (if x =? 0 then None else if (n <=? di + 1)%nat then None
     else tl ← pct_decode rest (S di) n; Some (x :: tl)) = Some dec ->
    exists d, dec = x :: d /\ pct_text rest d /\ Forall (fun c => c <> 0) dec /\ (di + length dec < n)%nat).
  { intros x rest Hr. case_test; [done|]. destruct (Nat.leb_spec n (di + 1)); [done|].
    destruct (pct_decode rest (S di) n) as [d|] eqn:Ed; [|done]. intros [= <-].
    apply IH in Ed as (Hp & Hz & Hl); [|done]. exists d. split_and!; auto. simpl.
    destruct Hl as [->|Hl]; simpl; lia. }
  case_test.
  - subst c. destruct src as [|h [|l rest]]; [done|done|]. simpl in Hk.
    case_if; [done|]. breflect. intros Hd. apply Hstore in Hd as (d & -> & Hp & Hz & Hl); [|lia].
    rewrite lor_nibbles in * by (pose proof (hex_val_upper l); lia).
    split_and!; [by constructor|done|by right].
  - intros Hd. apply Hstore in Hd as (d & -> & Hp & Hz & Hl); [|lia].
    split_and!; [by constructor|done|by right].
Qed.

Lemma pct_decode_complete src dec di n :
  pct_text src dec -> Forall (fun c => c <> 0) dec -> fits di dec n -> pct_decode src di n = Some dec.
Proof.
  unfold fits. intros Hp. revert di. induction Hp as [|c e d Hc Hp IH|h l e d Hh Hl Hp IH]; intros di Hz Hf;
    [done| |]; apply Forall_cons in Hz as [Hz0 Hz]; destruct Hf as [?|Hf]; try done; simpl in *.
  - do 2 (case_test; [done|]). destruct (Nat.leb_spec n (di + 1)); [lia|].
    rewrite IH; [done|done|]. destruct d; [by left|right; simpl in *; lia].
  - case_if; breflect; [apply orb_true_iff in Heqb; rewrite !Z.ltb_lt in Heqb; lia|].
    rewrite lor_nibbles by (pose proof (hex_val_upper l); lia). case_test; [done|].
    destruct (Nat.leb_spec n (di + 1)); [lia|].
    rewrite IH; [done|done|]. destruct d; [by left|right; simpl in *; lia].
Qed.

Lemma pct_text_nonempty enc dec : pct_text enc dec -> enc <> [] -> dec <> [].
Proof. by destruct 1. Qed.

Lemma has_crlf_false s : has_crlf s = false <-> Forall (fun c => c <> c_CR /\ c <> c_LF) s.
Proof.
  unfold has_crlf. induction s as [|c s IH]; simpl; [by split|].
  by rewrite orb_false_iff, IH, orb_false_iff, !Z.eqb_neq, Forall_cons.
Qed.

Lemma sock_chars s : Forall sock_char s <-> Forall (fun c => c <> 0) s /\ has_crlf s = false.
Proof. rewrite has_crlf_false, <- Forall_and. unfold sock_char. done. Qed.

(** ** Schemes *)

Lemma ascii_lower_cbyte c : is_cbyte c -> is_cbyte (ascii_lower c).
Proof. unfold is_cbyte, ascii_lower. intros H. case_if; breflect; [rewrite u8_small|]; lia. Qed.

Lemma lower_cbyte s : Forall is_cbyte s -> Forall is_cbyte (lower s).
Proof. intros H. apply Forall_fmap. apply (Forall_impl _ _ _ H), ascii_lower_cbyte. Qed.

Lemma scheme_is_eq url q : Forall is_cbyte url -> Forall is_cbyte q -> lower q = q ->
  scheme_is url q = strstr_here (lower url) q.
Proof.
  intros Hu Hq Hl. apply eq_true_iff_eq. unfold scheme_is.
  rewrite Z.eqb_eq, strncasecmp_zero, strstr_here_prefix by auto using lower_cbyte.
  fold (lower (take (length q) url)) (lower q). rewrite Hl. unfold lower. rewrite fmap_take. split.
  - intros He. exists (drop (length q) (ascii_lower <$> url)). by rewrite <- He at 1; rewrite take_drop.
  - intros [r ->]. by rewrite take_app_length.
Qed.

Lemma scheme_text_cbyte https ws unix : Forall is_cbyte (scheme_text https ws unix).
Proof. apply cbytes_ok. by destruct https, ws, unix. Qed.

Lemma scheme_is_split url https ws unix : Forall is_cbyte url ->
  scheme_is url (scheme_text https ws unix) = true ->
  exists sch, url = sch ++ drop (length (scheme_text https ws unix)) url /\
    lower sch = scheme_text https ws unix.
Proof.
  intros Hu. pose proof (scheme_text_cbyte https ws unix) as Hq. unfold scheme_is.
  rewrite Z.eqb_eq, strncasecmp_zero by done. intros He.
  exists (take (length (scheme_text https ws unix)) url). rewrite take_drop. split; [done|].
  unfold lower. rewrite He. by destruct https, ws, unix.
Qed.

Lemma url_scheme_sound url https ws unix rest : Forall is_cbyte url ->
  url_scheme url = Some (https, ws, unix, rest) ->
  exists sch, url = sch ++ rest /\ lower sch = scheme_text https ws unix.
Proof.
  intros Hu. unfold url_scheme.
  repeat (case_if; [intros [= <- <- <- <-];
    match goal with |- context [scheme_text ?a ?b ?c] => by apply (scheme_is_split url a b c Hu) end|]).
  done.
Qed.

Lemma url_scheme_complete sch rest https ws unix : Forall is_cbyte (sch ++ rest) ->
  lower sch = scheme_text https ws unix -> url_scheme (sch ++ rest) = Some (https, ws, unix, rest).
Proof.
  intros Hu He. assert (Hl : length sch = length (scheme_text https ws unix)).
  { rewrite <- He. unfold lower. by rewrite length_fmap. }
  unfold url_scheme. rewrite !scheme_is_eq by (done || by apply cbytes_ok).
  unfold lower. rewrite fmap_app. fold (lower sch) (lower rest). rewrite He.
  destruct https, ws, unix; cbn [scheme_text] in *; simpl in Hl;
    cbv -[drop app]; do 2 f_equal; by rewrite drop_app_length'.
Qed.

(** ** Hosts *)

Lemma name_in_authority url a b h r :
  url = a ++ b -> Forall auth_char a -> stopped auth_stop b ->
  url = h ++ r -> Forall (fun c => host_stop c = false) h -> Forall auth_char h.
Proof.
  intros -> Ha Hb He Hh. destruct (prefix_weak_total h a (a ++ b)) as [[x ->]|[x ->]].
  - rewrite He. by apply prefix_app_r.
  - by apply prefix_app_r.
  - by apply Forall_app in Ha as [Ha _].
  - apply Forall_app in Hh as [_ Hx]. rewrite <- app_assoc in He. apply app_inv_head in He. subst b.
    destruct x as [|c x]; [by rewrite app_nil_r|]. apply Forall_cons in Hx as [Hc _].
    apply host_stop_false in Hc as [_ Hc]. destruct Hb as [?|Hb]; simpl in *; congruence.
Qed.

Lemma url_host_sound url h r :
  url_host url = Some (h, r) -> h <> [] -> Forall clean h -> exists ht, url = ht ++ r /\ host_text h ht.
Proof.
  unfold url_host. destruct (auth_scan url) as [[a b]|] eqn:Ea; [|done]. rewrite bind_Some_l.
  apply auth_scan_sound in Ea as (Hu & Ha & Hb). intros Hh Hne Hc. revert Hh. case_test.
  - destruct a as [|x a].
    { simpl in Hu. subst b. destruct Hb as [->|Hb]; [done|]. rewrite e in Hb. done. }
    simpl. destruct (bracket_scan false a) as [[h' r']|] eqn:Es; [|done]. rewrite bind_Some_l.
    intros [= -> <-]. apply bracket_scan_iff in Es as [-> Hl]. rewrite Hu in e. simpl in e. subst x.
    exists (c_lbrack :: h ++ [c_rbrack]). split; [|by constructor]. rewrite Hu. by simplify_list_eq.
  - intros [= Es]. apply scan_iff in Es as (Hs & Hh & _). exists h. split; [done|].
    pose proof (name_in_authority url a b h r Hu Ha Hb Hs Hh) as Hat.
    constructor; [done| |].
    + destruct h; [done|]. by rewrite Hs in n.
    + rewrite Forall_forall in Hc, Hh, Hat |- *. intros c Hin. split; [auto|].
      split; [auto|]. by apply Hat.
Qed.

Lemma port_text_chars https prt pt : port_text https prt pt -> Forall auth_char pt.
Proof.
  destruct 1 as [|ds _ Hd _]; [done|]. constructor; [done|]. apply (Forall_impl _ _ _ Hd).
  unfold is_digit, auth_char. intros c Hc. rewrite auth_stop_false. lia.
Qed.

Lemma literal_chars zone h : literal zone h -> Forall auth_char h /\ Forall clean h.
Proof.
  induction 1 as [|zone h _ [IH1 IH2]|zone c h Hc _ [IH1 IH2]]; [done|..].
  - split; constructor; done.
  - apply literal_char_ok in Hc as (_ & _ & _ & Ha & Hc & _). split; by constructor.
Qed.

Lemma host_text_chars h ht : host_text h ht -> h <> [] /\ Forall auth_char ht /\ Forall clean h /\ Forall auth_char h.
Proof.
  destruct 1 as [h Hne _ Hr|h Hne Hl].
  - assert (Ha : Forall auth_char h).
    { apply (Forall_impl _ _ _ Hr). intros c (_ & Hs & Hat). apply host_stop_false in Hs as [_ Hs]. done. }
    split_and!; auto. apply (Forall_impl _ _ _ Hr). by intros c [? _].
  - apply literal_chars in Hl as [Ha Hc]. split_and!; auto.
    constructor; [done|]. apply Forall_app. split; [done|]. by repeat constructor.
Qed.

Lemma tail_auth_stopped tl p : tail_text tl p -> stopped auth_stop tl.
Proof. intros [->|[Ht|Ht]]%tail_text_stopped; [by left|right..]; by rewrite Ht. Qed.

Lemma url_host_complete https h ht prt pt tl :
  host_text h ht -> port_text https prt pt -> stopped auth_stop tl ->
  url_host (ht ++ pt ++ tl) = Some (h, pt ++ tl).
Proof.
  intros Hh Hp Hs. pose proof (port_text_chars _ _ _ Hp) as Hpc.
  destruct (host_text_chars _ _ Hh) as (_ & Hhc & _). unfold url_host.
  rewrite app_assoc, auth_scan_complete, bind_Some_l, <- app_assoc by (rewrite ?Forall_app; done).
  destruct Hh as [h Hne Hd Hr|h Hne Hl].
  - case_test; [destruct h; done|]. f_equal. apply scan_iff. split_and!; [done|..].
    + apply (Forall_impl _ _ _ Hr). by intros c (_ & ? & _).
    + destruct Hp as [|ds]; [|by right]. destruct Hs as [->|Hs]; [by left|right]. simpl.
      unfold host_stop. by rewrite Hs, orb_true_r.
  - simpl. rewrite (proj2 (bracket_scan_iff false _ h pt)); [done|]. by rewrite <- app_assoc.
Qed.

Lemma parse_tcp_sound sch https ws rest u : Forall is_cbyte rest -> lower sch = scheme_text https ws false ->
  ('(h, url) ← url_host rest;
    if strlen h =? 0 then None
    else if has_space_or_ctl h then None
    else
      '(prt, url) ← url_port https url;
      p ← url_path url;
      Some (mkUrl https ws false h prt p [])) = Some u -> url_grammar (sch ++ rest) u.
Proof.
  intros Hu Hs. destruct (url_host rest) as [[h r]|] eqn:Eh; [|done]. rewrite bind_Some_l.
  unfold strlen. case_test; [done|]. destruct (has_space_or_ctl h) eqn:Ec; [done|].
  apply has_space_or_ctl_false in Ec.
  apply url_host_sound in Eh as (ht & -> & Hh); [|by intros ->|done].
  apply Forall_app in Hu as [_ Hu]. destruct (url_port https r) as [[prt tl]|] eqn:Ep; [|done].
  rewrite bind_Some_l. apply url_port_sound in Ep as (pt & -> & Hp); [|done].
  destruct (url_path tl) as [p|] eqn:Et; [|done]. rewrite bind_Some_l. intros [= <-].
  apply url_path_sound in Et. rewrite app_assoc, (app_assoc _ _ tl), <- (app_assoc sch).
  by apply (grammar _ (fun p => mkUrl https ws false h prt p [])); [constructor|].
Qed.

Lemma parse_unix_sound sch https ws rest u : lower sch = scheme_text https ws true ->
  (let '(auth, url) := scan auth_stop rest in
    if strlen auth =? 0 then None
    else
      dec ← pct_decode auth 0 KL_URL_UNIX_PATH_MAX;
      if has_crlf dec then None
      else p ← url_path url; Some (mkUrl https ws true [] 0 p dec)) = Some u ->
  url_grammar (sch ++ rest) u.
Proof.
  intros Hs. destruct (scan auth_stop rest) as [enc tl] eqn:E. apply scan_iff in E as (-> & He & _).
  unfold strlen. case_test; [done|]. destruct (pct_decode enc _ _) as [dec|] eqn:Ed; [|done].
  rewrite bind_Some_l. destruct (has_crlf dec) eqn:Ec; [done|].
  apply (pct_decode_sound (length enc)) in Ed as (Hp & Hz & Hf); [|done].
  destruct (url_path tl) as [p|] eqn:Et; [|done]. rewrite bind_Some_l. intros [= <-].
  apply url_path_sound in Et. assert (Hne : enc <> []) by (by intros ->).
  rewrite app_assoc. apply (grammar _ (fun p => mkUrl https ws true [] 0 p dec)); [|done].
  constructor; auto; [by apply sock_chars|].
  destruct Hf as [Hf|Hf]; [|done]. by apply pct_text_nonempty in Hp.
Qed.

(** A well-formed origin parses whatever follows it; only the path can still be refused. *)
Lemma origin_parse o mk tl : url_origin o mk -> stopped auth_stop tl -> Forall is_cbyte (o ++ tl) ->
  kl_url_parse (o ++ tl) = p ← url_path tl; Some (mk p).
Proof.
  intros Ho Ht Hu. destruct Ho as [https ws sch h ht prt pt Hs Hh Hp|https ws sch enc dec Hs Hne He Hd Hk Hl];
    rewrite <- !app_assoc in *; unfold kl_url_parse; rewrite (url_scheme_complete _ _ _ _ _ Hu Hs), bind_Some_l.
  - destruct (host_text_chars _ _ Hh) as (Hne & _ & Hc & _).
    rewrite (url_host_complete _ _ _ _ _ _ Hh Hp Ht), bind_Some_l.
    unfold strlen. case_test; [by apply length_zero in e|].
    by rewrite (proj2 (has_space_or_ctl_false h) Hc), (url_port_complete _ _ _ _ Hp Ht).
  - apply sock_chars in Hk as [Hz Hcr].
    rewrite (proj2 (scan_iff auth_stop (enc ++ tl) enc tl)) by done.
    unfold strlen. case_test; [by apply length_zero in e|].
    by rewrite (pct_decode_complete _ _ _ _ Hd Hz), bind_Some_l, Hcr by (by right).
Qed.

Lemma parse_iff url u : Forall is_cbyte url -> kl_url_parse url = Some u <-> url_grammar url u.
Proof.
  intros Hu. split.
  - unfold kl_url_parse. destruct (url_scheme url) as [[[[https ws] unix] rest]|] eqn:Es; [|done].
    rewrite bind_Some_l. apply url_scheme_sound in Es as (sch & -> & Hs); [|done].
    apply Forall_app in Hu as [_ Hu]. destruct unix; [by apply parse_unix_sound|by apply parse_tcp_sound].
  - intros Hg. destruct Hg as [o mk tl p Ho Ht].
    rewrite (origin_parse _ _ _ Ho (tail_auth_stopped _ _ Ht) Hu). by rewrite (url_path_complete _ _ Ht).
Qed.

(** C27.  The URL parser accepts exactly the URLs of the grammar, with the components the grammar
    assigns: one of the eight schemes in any letter case; a host name without space, control byte,
    userinfo or delimiter, or a bracketed address literal; an optional decimal port in 1..65535; or
    a percent-encoded socket path shorter than the buffer; then a path that stops before the
    fragment. Nothing else, such as a query without a path, is accepted. *)
Theorem url_parse_grammar (url : list Z) (u : KlUrl) (Hu : Forall is_cbyte url) :
  kl_url_parse url = Some u <-> url_grammar url u.
Proof. by apply parse_iff. Qed.

Lemma url_parse_grammar_witness :
  url_grammar (bytes "https://[::1]:8443/a#b") (mkUrl true false false (bytes "::1") 8443 (bytes "/a") []).
Proof.
  apply (url_parse_grammar (bytes "https://[::1]:8443/a#b")); [by apply cbytes_ok|]. vm_compute. reflexivity.
Defined.

(** ** Resolution *)

Definition scheme_name (https ws unix : bool) : list Z :=
  bytes (if ws then "ws" else "http") ++ (if https then bytes "s" else []) ++
  (if unix then bytes "+unix" else []).

Lemma ascii_lower_punct c x : is_cbyte c -> x <= 64 -> ascii_lower c = x -> c = x.
Proof. unfold is_cbyte, ascii_lower. intros Hc Hx. case_if; breflect; [rewrite u8_small|]; lia. Qed.

Lemma ascii_lower_id c : c <= 64 -> ascii_lower c = c.
Proof. unfold ascii_lower. intros Hc. case_if; breflect; lia. Qed.

Lemma scheme_split sch https ws unix : Forall is_cbyte sch -> lower sch = scheme_text https ws unix ->
  exists pre, sch = pre ++ bytes "://" /\ lower pre = scheme_name https ws unix /\
    Forall (fun c => c <> c_colon) pre.
Proof.
  intros Hb Hs. replace (scheme_text https ws unix) with (scheme_name https ws unix ++ bytes "://") in Hs
    by (unfold scheme_text, scheme_name; by rewrite <- !app_assoc).
  apply fmap_app_inv in Hs as (pre & sep & Hpre & Hsep & ->).
  symmetry in Hpre, Hsep. apply Forall_app in Hb as [_ Hb]. exists pre. split_and!; [|done|].
  - f_equal. destruct sep as [|a [|b [|c [|]]]]; try done. injection Hsep as Ha Hbb Hc.
    rewrite !Forall_cons in Hb. destruct Hb as (? & ? & ? & _). simpl.
    f_equal; [|f_equal; [|f_equal]]; eapply ascii_lower_punct; eauto; lia.
  - assert (Hn : Forall (fun c => c <> c_colon) (lower pre)).
    { unfold lower. rewrite Hpre. destruct https, ws, unix; by repeat constructor. }
    apply (proj1 (Forall_fmap ascii_lower (fun c => c <> c_colon) pre)) in Hn.
    apply (Forall_impl _ _ _ Hn). intros c Hc ->. by apply Hc.
Qed.

Lemma strstr_sep pre rest : Forall is_cbyte pre -> Forall (fun c => c <> c_colon) pre ->
  kl_strstr (pre ++ bytes "://" ++ rest) (bytes "://") = Some (bytes "://" ++ rest).
Proof.
  intros Hb Hc. unfold kl_strstr. cbn [bytes deref]. change (_ =? 0) with false. cbv iota.
  induction pre as [|c pre IH]; [done|]. apply Forall_cons in Hb as [Hb0 Hb], Hc as [Hc0 Hc].
  unfold is_cbyte in Hb0. specialize (IH Hb Hc). revert IH. generalize (pre ++ bytes "://" ++ rest). intros l IH.
  simpl. case_test; [lia|]. change (58 =? 0) with false. cbv iota. case_test; [done|]. exact IH.
Qed.

Lemma strchr_sep pre rest : Forall is_cbyte pre -> Forall (fun c => c <> c_colon) pre ->
  kl_strchr (pre ++ c_colon :: rest) c_colon = Some (c_colon :: rest).
Proof.
  intros Hb Hc. induction pre as [|c pre IH]; [done|].
  apply Forall_cons in Hb as [Hb0 Hb], Hc as [Hc0 Hc]. unfold is_cbyte in Hb0.
  simpl. change (u8 c_colon) with c_colon. case_test; [done|]. case_test; [lia|]. auto.
Qed.

(** A well-formed origin is a scheme name, "://" and an authority without delimiter. *)
Lemma origin_shape o mk : url_origin o mk -> Forall is_cbyte o ->
  exists https ws unix pre auth, o = pre ++ bytes "://" ++ auth /\
    lower pre = scheme_name https ws unix /\ Forall (fun c => c <> c_colon) pre /\
    Forall (fun c => auth_stop c = false) auth /\
    (forall p, is_https (mk p) = https /\ is_ws (mk p) = ws /\ is_unix (mk p) = unix /\ path (mk p) = p).
Proof.
  assert (Hac : forall l, Forall auth_char l -> Forall (fun c => auth_stop c = false) l).
  { intros l Hl. apply (Forall_impl _ _ _ Hl). by intros c [? _]. }
  destruct 1 as [https ws sch h ht prt pt Hs Hh Hp|https ws sch enc dec Hs Hne He Hd Hk Hl];
    intros Hb; apply Forall_app in Hb as [Hb _]; destruct (scheme_split _ _ _ _ Hb Hs) as (pre & -> & Hpre & Hc).
  - exists https, ws, false, pre, (ht ++ pt). split_and!; rewrite ?app_assoc; auto.
    destruct (host_text_chars _ _ Hh) as (_ & Hhc & _). apply port_text_chars in Hp.
    apply Forall_app. split; by apply Hac.
  - exists https, ws, true, pre, enc. split_and!; rewrite ?app_assoc; auto.
Qed.

Lemma strip_fragment_app t frag :
  Forall (fun c => c <> c_hash) t -> fragment frag -> strip_fragment (t ++ frag) = length t.
Proof. rewrite strip_without. apply without_fragment_app. Qed.

Definition set_path (u : KlUrl) (p : list Z) : KlUrl :=
  mkUrl (is_https u) (is_ws u) (is_unix u) (host u) (port u) p (unix_path u).

Lemma origin_set_path o mk p q : url_origin o mk -> set_path (mk p) q = mk q.
Proof. by destruct 1. Qed.

(** The two location forms that a base URL completes; [t] is the location without its fragment. *)
Lemma resolve_path o mk tl t frag sz :
  url_origin o mk -> stopped auth_stop tl -> Forall is_cbyte o ->
  deref t = c_slash -> deref (tail (t ++ frag)) <> c_slash ->
  Forall (fun c => c <> c_hash) t -> fragment frag -> (0 < sz)%nat ->
  kl_url_resolve (o ++ tl) (t ++ frag) sz =
  if (sz <=? length o + length t)%nat then None else Some (o ++ t).
Proof.
  intros Ho Htl Hb Hd Hd2 Ht Hf Hsz. destruct (origin_shape _ _ Ho Hb) as (? & ? & ? & pre & auth & -> & _ & Hc & Ha & _).
  apply Forall_app in Hb as [Hb _]. unfold kl_url_resolve.
  destruct (Nat.eqb_spec sz 0); [lia|]. destruct t as [|y t]; [done|]. cbn [deref] in Hd. subst y.
  unfold strlen. case_test; [done|].
  change (scheme_is ((c_slash :: t) ++ frag) (bytes "http://")) with false.
  change (scheme_is ((c_slash :: t) ++ frag) (bytes "https://")) with false.
  cbn [orb app deref tail] in *. change (c_slash =? c_slash) with true. cbn [andb].
  case_test; [done|]. rewrite <- !app_assoc, strstr_sep, bind_Some_l by done.
  change (drop 3 (bytes "://" ++ auth ++ tl)) with (auth ++ tl).
  rewrite (proj2 (scan_iff auth_stop (auth ++ tl) auth tl)) by done. cbn [snd].
  rewrite app_comm_cons, strip_fragment_app, take_app_length by done.
  rewrite !app_assoc, length_app, Nat.add_sub, take_app_length. done.
Qed.

Lemma unix_suffix pre rest https ws unix :
  Forall is_cbyte (pre ++ rest) -> lower pre = scheme_name https ws unix ->
  (5 <=? length pre)%nat && scheme_is (drop (length pre - 5) (pre ++ rest)) (bytes "+unix") = unix.
Proof.
  intros Hb He. rewrite scheme_is_eq by (done || by apply Forall_drop || by apply cbytes_ok).
  unfold lower in *. rewrite fmap_drop, fmap_app. rewrite <- (length_fmap ascii_lower pre), He.
  by destruct https, ws, unix; vm_compute.
Qed.

Lemma resolve_authority o mk tl t frag sz https ws unix pre auth :
  o = pre ++ bytes "://" ++ auth -> lower pre = scheme_name https ws unix ->
  Forall (fun c => c <> c_colon) pre -> Forall is_cbyte (o ++ tl) -> url_origin o mk ->
  Forall (fun c => c <> c_hash) t -> fragment frag -> (0 < sz)%nat ->
  kl_url_resolve (o ++ tl) (c_slash :: c_slash :: t ++ frag) sz =
  if unix || (sz <=? length pre + 3 + length t)%nat then None else Some (pre ++ bytes "://" ++ t).
Proof.
  intros -> Hpre Hc Hb Ho Ht Hf Hsz. unfold kl_url_resolve. destruct (Nat.eqb_spec sz 0); [lia|].
  unfold strlen. case_test; [done|].
  change (scheme_is (c_slash :: _) (bytes "http://")) with false.
  change (scheme_is (c_slash :: c_slash :: t ++ frag) (bytes "https://")) with false.
  cbn [orb deref tail]. change (c_slash =? c_slash) with true. cbn [andb].
  rewrite <- app_assoc in *. pose proof (unix_suffix _ _ _ _ _ Hb Hpre) as Hux.
  change (bytes "://" ++ auth) with (c_colon :: c_slash :: c_slash :: auth) in *. cbn [app] in *.
  apply Forall_app in Hb as [Hb _]. rewrite strchr_sep, bind_Some_l by done.
  rewrite length_app, Nat.add_sub, Hux. destruct unix; [done|]. cbn [orb].
  change (c_slash :: c_slash :: t ++ frag) with ((c_slash :: c_slash :: t) ++ frag).
  rewrite strip_fragment_app, take_app_length by (done || (do 2 (constructor; [done|]); done)). cbn [length].
  replace (length pre + 1 + S (S (length t)))%nat with (length pre + 3 + length t)%nat by lia.
  case_if; [done|]. rewrite take_app_add. by rewrite <- app_assoc.
Qed.

Lemma parse_scheme sch rest https ws u : Forall is_cbyte (sch ++ rest) ->
  lower sch = scheme_text https ws false -> kl_url_parse (sch ++ rest) = Some u ->
  is_https u = https /\ is_ws u = ws /\ is_unix u = false.
Proof.
  intros Hb Hs. unfold kl_url_parse. rewrite (url_scheme_complete _ _ _ _ _ Hb Hs), bind_Some_l.
  destruct (url_host rest) as [[h r]|]; [|done]. rewrite bind_Some_l. do 2 (case_if; [done|]).
  destruct (url_port https r) as [[prt tl]|]; [|done]. rewrite bind_Some_l.
  destruct (url_path tl); [|done]. by intros [= <-].
Qed.

Lemma resolve_authority_ok o mk tl p t frag sz :
  url_origin o mk -> Forall is_cbyte (o ++ tl) -> Forall is_cbyte (c_slash :: c_slash :: t) ->
  Forall (fun c => c <> c_hash) (c_slash :: c_slash :: t) -> fragment frag -> (0 < sz)%nat ->
  match kl_url_resolve (o ++ tl) ((c_slash :: c_slash :: t) ++ frag) sz with
  | Some out =>
      (length out < sz)%nat /\ is_unix (mk p) = false /\
      forall u, kl_url_parse out = Some u ->
        is_https u = is_https (mk p) /\ is_ws u = is_ws (mk p) /\ is_unix u = false
  | None =>
      (deref (tail ((c_slash :: c_slash :: t) ++ frag)) = c_slash /\ is_unix (mk p) = true) \/
      (sz <= length (o ++ tl) + length (c_slash :: c_slash :: t))%nat
  end.
Proof.
  intros Ho Hb Hl Ht Hf Hsz. apply Forall_app in Hb as Hbo. destruct Hbo as [Hbo _].
  destruct (origin_shape _ _ Ho Hbo) as (https & ws & unix & pre & auth & He & Hpre & Hc & _ & Hmk).
  destruct (Hmk p) as (-> & -> & -> & _). rewrite !Forall_cons in Ht. destruct Ht as (_ & _ & Ht).
  cbn [app]. rewrite (resolve_authority o mk tl t frag sz https ws unix pre auth) by done.
  destruct unix; cbn [orb]; [by left|]. case_if; breflect.
  { right. apply Nat.leb_le in Heqb. rewrite He, !length_app. simpl. lia. }
  apply Nat.leb_gt in Heqb. split; [rewrite !length_app; simpl; lia|]. split; [done|].
  rewrite !Forall_cons in Hl. destruct Hl as (_ & _ & Hl). rewrite He in Hbo. apply Forall_app in Hbo as [Hp _].
  intros u. rewrite app_assoc. apply parse_scheme.
  - rewrite !Forall_app. split_and!; [done|by apply cbytes_ok|done].
  - unfold lower in *. rewrite fmap_app, Hpre. by destruct https, ws.
Qed.

(** Resolving a Location that starts with a slash against a URL that parses: a path location
    keeps the base's scheme, host, port and socket path, so that the result parses to the base with
    only its path replaced by the location without its fragment (or is refused when that path holds
    a space or control byte); a location that starts with two slashes keeps the base's scheme and
    is refused for a socket base; the result always fits the output buffer and the call fails
    otherwise only for lack of room. *)
Lemma resolve_spec (base loc : list Z) (sz : nat) (ub : KlUrl)
    (Hb : Forall is_cbyte base) (Hl : Forall is_cbyte loc) (Hsz : (0 < sz)%nat)
    (Hub : kl_url_parse base = Some ub) (Hs : deref loc = c_slash) :
  let t := take (without_fragment loc) loc in
  match kl_url_resolve base loc sz with
  | Some out =>
      (length out < sz)%nat /\
      if deref (tail loc) =? c_slash then
        is_unix ub = false /\
        forall u, kl_url_parse out = Some u ->
          is_https u = is_https ub /\ is_ws u = is_ws ub /\ is_unix u = false
      else kl_url_parse out = if has_space_or_ctl t then None else Some (set_path ub t)
  | None => (deref (tail loc) = c_slash /\ is_unix ub = true) \/ (sz <= length base + length t)%nat
  end.
Proof.
  apply parse_iff in Hub; [|done]. destruct Hub as [o mk tl p Ho Htl].
  destruct (fragment_split loc) as (t & frag & -> & Ht & Hf). apply tail_auth_stopped in Htl.
  rewrite without_fragment_app, take_app_length by done. cbv zeta.
  apply Forall_app in Hl as [Hl _]. apply Forall_app in Hb as Hbo. destruct Hbo as [Hbo _].
  destruct t as [|y t]; [destruct Hf as [->|Hf]; simpl in *; [done|congruence]|].
  cbn [app deref] in Hs. subst y. case_test.
  - cbn [app tail] in e. destruct t as [|y t]; [destruct Hf as [->|Hf]; simpl in *; [done|congruence]|].
    cbn [app deref] in e. subst y. by apply resolve_authority_ok.
  - rewrite (resolve_path o mk) by done. destruct (Nat.leb_spec sz (length o + length (c_slash :: t))).
    { right. rewrite length_app. lia. }
    rewrite length_app. split; [done|]. rewrite (origin_parse o mk); [|done|by right|by apply Forall_app].
    rewrite (origin_set_path o mk) by done. unfold url_path. case_if; [done|].
    cbn [deref]. change (c_slash =? c_slash) with true. cbv iota. rewrite bind_Some_l.
    rewrite <- (app_nil_r (c_slash :: t)) at 1 2. rewrite without_fragment_app by (done || by left).
    by rewrite take_app_length.
Qed.

(** ** The authority *)

Definition is_v6 (h : list Z) : bool := existsb (fun c => c =? c_colon) h.

Definition host_printed (h : list Z) : list Z := if is_v6 h then c_lbrack :: h ++ [c_rbrack] else h.

Definition port_printed (https : bool) (prt : Z) : list Z :=
  if prt =? default_port https then [] else c_colon :: decs prt.

Lemma is_v6_false h : is_v6 h = false <-> Forall (fun c => c <> c_colon) h.
Proof.
  unfold is_v6. induction h as [|c h IH]; simpl; [by split|].
  by rewrite orb_false_iff, IH, Z.eqb_neq, Forall_cons.
Qed.

Lemma literal_name zone h : literal zone h -> Forall (fun c => c <> c_colon) h -> Forall reg_char h.
Proof.
  induction 1 as [|zone h _ IH|zone c h Hc _ IH]; intros Hn; [done|apply Forall_cons in Hn as [Hn0 Hn]..].
  - constructor; [by unfold reg_char, clean|auto].
  - apply literal_char_ok in Hc as (_ & _ & _ & _ & _ & Hr). auto.
Qed.

Lemma literal_head zone h : literal zone h -> deref h <> c_lbrack.
Proof. destruct 1 as [| |zone c h Hc _]; [done|done|]. by apply literal_char_ok in Hc as (_ & _ & ? & _). Qed.

Lemma host_printed_text h ht : host_text h ht -> host_text h (host_printed h).
Proof.
  unfold host_printed. destruct 1 as [h Hne Hd Hr|h Hne Hl].
  - rewrite (proj2 (is_v6_false h)); [by constructor|].
    apply (Forall_impl _ _ _ Hr). by intros c (_ & [? _]%host_stop_false & _).
  - destruct (is_v6 h) eqn:E; [by constructor|]. apply is_v6_false in E.
    constructor; eauto using literal_head, literal_name.
Qed.

Lemma port_text_range https prt pt : port_text https prt pt -> 1 <= prt <= 65535.
Proof. destruct 1; [destruct https; simpl; lia|done]. Qed.

Lemma port_printed_text https prt pt : port_text https prt pt -> port_text https prt (port_printed https prt).
Proof.
  intros Hp. apply port_text_range in Hp as Hr. unfold port_printed. case_test; [subst; constructor|].
  destruct (decs_repr 5 prt) as (_ & (Hd & Hne & Hv & _) & _); [lia|simpl; lia|lia|].
  rewrite <- Hv at 1. by constructor; rewrite ?Hv.
Qed.

Lemma port_append cap st txt https prt : holds cap st txt -> 1 <= prt <= 65535 -> (length txt + 6 < cap)%nat ->
  exists st', (if negb (prt =? default_port https) then
      st ← kl_buf_append_n cap st (bytes ":"); kl_buf_append_u64 cap st prt
    else Some st) = Some st' /\ holds cap st' (txt ++ port_printed https prt).
Proof.
  intros Hst Hp Hl. unfold port_printed. case_test; cbn [negb]; [exists st; by rewrite app_nil_r|].
  destruct (append_holds cap st txt (bytes ":") Hst) as (st1 & -> & H1); [simpl; lia|]. rewrite bind_Some_l.
  destruct (append_u64_holds cap st1 _ 5 prt H1) as (st2 & -> & H2 & _);
    [lia|simpl; lia|lia|rewrite length_app; simpl; lia|].
  exists st2. split; [done|]. by rewrite <- app_assoc in H2.
Qed.

Lemma authority_text u out cap : (cap <= length out)%nat -> is_unix u = false -> 1 <= port u <= 65535 ->
  (length (host u) + 8 < cap)%nat ->
  exists st, kl_url_authority u out cap = Some st /\
    holds cap st (host_printed (host u) ++ port_printed (is_https u) (port u)).
Proof.
  intros Ho Hx Hp Hc. unfold kl_url_authority, host_printed. fold (is_v6 (host u)).
  destruct (Nat.eqb_spec cap 0); [lia|]. rewrite Hx. cbn [negb andb]. fold (default_port (is_https u)).
  assert (H0 : holds cap (out, 0%nat) []) by (split; [done|split; done]).
  destruct (is_v6 (host u)).
  - destruct (append_holds cap _ _ (bytes "[") H0) as (st1 & -> & H1); [simpl; lia|]. rewrite bind_Some_l.
    destruct (append_holds cap _ _ (host u) H1) as (st2 & -> & H2); [simpl; lia|]. rewrite bind_Some_l.
    destruct (append_holds cap _ _ (bytes "]") H2) as (st3 & -> & H3); [rewrite !length_app; simpl; lia|].
    rewrite bind_Some_l. apply (port_append cap st3); [by rewrite <- app_assoc in H3|done|].
    simpl. rewrite length_app. simpl. lia.
  - rewrite bind_Some_l. destruct (append_holds cap _ _ (host u) H0) as (st1 & -> & H1); [simpl; lia|].
    rewrite bind_Some_l. apply (port_append cap st1); [done|done|lia].
Qed.

Lemma printed_length https h prt : 1 <= prt <= 65535 ->
  (length (host_printed h ++ port_printed https prt) <= length h + 8)%nat.
Proof.
  intros Hp. unfold host_printed, port_printed. rewrite length_app.
  destruct (decs_repr 5 prt) as (_ & _ & Hl); [lia|simpl; lia|lia|].
  case_test; destruct (is_v6 h); simpl; rewrite ?length_app; simpl; lia.
Qed.

Lemma printed_cbyte https h ht prt : host_text h ht -> Forall is_cbyte ht -> 1 <= prt <= 65535 ->
  Forall is_cbyte (host_printed h ++ port_printed https prt).
Proof.
  intros Hh Hb Hp. assert (Hhb : Forall is_cbyte h).
  { destruct Hh; [done|]. apply Forall_cons in Hb as [_ Hb]. by apply Forall_app in Hb as [Hb _]. }
  apply Forall_app. split.
  - unfold host_printed. destruct (is_v6 h); [|done]. constructor; [done|]. apply Forall_app. split; [done|].
    by repeat constructor.
  - unfold port_printed. case_test; [done|]. constructor; [done|].
    destruct (decs_repr 5 prt) as (_ & (Hd & _) & _); [lia|simpl; lia|lia|].
    apply (Forall_impl _ _ _ Hd). unfold is_digit, is_cbyte. lia.
Qed.

Lemma tail_text_cbyte tl p : tail_text tl p -> Forall is_cbyte tl -> Forall is_cbyte p.
Proof. destruct 1; [by intros [? _]%Forall_app|]. intros _. by apply cbytes_ok. Qed.

(** The authority printed for the Host header identifies the URL's origin: for every URL that
    parses to a host and port, printing into a large enough buffer succeeds, and the scheme, the
    printed authority and the path, put together, parse back to the same URL.  Brackets are put
    back exactly where they are needed, and the port is omitted only when it is the default. *)
Lemma authority_roundtrip (url : list Z) (u : KlUrl) (out : list Z) (cap : nat)
    (Hu : Forall is_cbyte url) (Hp : kl_url_parse url = Some u) (Hx : is_unix u = false)
    (Ho : (cap <= length out)%nat) (Hc : (length (host u) + 8 < cap)%nat) :
  exists buf n, kl_url_authority u out cap = Some (buf, n) /\ (n < cap)%nat /\
    kl_url_parse (scheme_text (is_https u) (is_ws u) false ++ take n buf ++ path u) = Some u.
Proof.
  apply parse_iff in Hp; [|done]. destruct Hp as [o mk tl p Ho' Ht].
  destruct Ho' as [https ws sch h ht prt pt Hs Hh Hpt|]; [|done]. cbn [is_https is_ws is_unix host port path] in *.
  apply port_text_range in Hpt as Hr. destruct (tail_text_path _ _ Ht) as (_ & _ & _ & Hpp).
  destruct (authority_text (mkUrl https ws false h prt p []) out cap) as ([buf n] & He & _ & Htxt & Hn); [done..|].
  exists buf, n. cbn [is_https is_ws is_unix host port path fst snd] in *. rewrite Htxt. split; [done|]. split.
  { rewrite Hn. pose proof (printed_length https h prt Hr). lia. }
  rewrite !Forall_app in Hu. destruct Hu as ((_ & Hhb & _) & Htb).
  pose proof (printed_cbyte https h ht prt Hh Hhb Hr) as Hb. apply (tail_text_cbyte tl p) in Htb; [|done].
  apply host_printed_text in Hh. apply port_printed_text in Hpt. rewrite app_assoc.
  rewrite (origin_parse _ (fun p => mkUrl https ws false h prt p [])).
  - by rewrite (url_path_complete _ _ Hpp).
  - constructor; auto. by destruct https, ws.
  - by eapply tail_auth_stopped.
  - apply Forall_app. split; [|done]. apply Forall_app. split; [apply scheme_text_cbyte|done].
Qed.

End Url.
