(* ===== verification/Proxy.v ===== *)
(** * PROXY protocol headers and CIDR trust lists (src/src/protocols/proxy_protocol/proxy_protocol.c)

    The parser of the v1 (text) and v2 (binary) headers a load balancer puts in front of a
    connection, and the list of networks such a header is trusted from.  [inet_pton] belongs to the
    platform: it is an argument of the model ([InetPton]), with its documented contract as a class
    of laws ([InetPtonLaws]).  The out-parameters [consumed] and [peer] are threaded as a pair, so
    that a path of the code that leaves them alone leaves them alone here. *)
From S2P Require Import Prelude CStr SockAddr.
Import CStr SockAddr.

Module Proxy.

(** ** The platform's address parser *)

(** [Some b] is the return value 1 with [b] stored; [None] any other return value. *)
Class InetPton := {
  inet_pton4 : list Z -> option (list Z);
  inet_pton6 : list Z -> option (list Z);
}.

Class InetPtonLaws `{InetPton} := {
  pton4_bytes s b : inet_pton4 s = Some b -> length b = 4%nat /\ Forall is_byte b;
  pton6_bytes s b : inet_pton6 s = Some b -> length b = 16%nat /\ Forall is_byte b;
}.

(** ** Headers *)

Inductive KlProxyResult := KL_PROXY_NONE | KL_PROXY_NEED_MORE | KL_PROXY_OK | KL_PROXY_INVALID.

Definition KL_PROXY_HEADER_MAX : Z := 536.

Definition V2SIG : list Z := [13; 10; 13; 10; 0; 13; 10; 81; 85; 73; 84; 10].
Definition V1SIG : list Z := bytes "PROXY ".

(** The out-parameters [*consumed] and [*peer]. *)
Definition outs : Type := nat * KlSockAddr.

Definition at_ (buf : list Z) (i : nat) : Z := default 0 (buf !! i).

Fixpoint v1_port_loop (s : list Z) (n : nat) (v : Z) : option (nat * Z) :=
  match s with
  | [] => Some (n, v)
  | c :: s' =>
      if (5 <=? n)%nat || (c <? c_0) || (c_9 <? c) then None
      else v1_port_loop s' (S n) (u64 (v * 10 + (c - c_0)))
  end.

Definition v1_port (s : list Z) : option Z :=
  '(n, v) ← v1_port_loop s 0 0;
  if (n =? 0)%nat || (65535 <? v) || ((1 <? n)%nat && (deref s =? c_0)) then None
  else Some (u16 v).

(** [strchr (s, ' ')]: the text before the first space and, when there is one, the text after. *)
Fixpoint split_space (s : list Z) : list Z * option (list Z) :=
  match s with
  | [] => ([], None)
  | c :: s' => if c =? c_SP then ([], Some s') else let '(a, b) := split_space s' in (c :: a, b)
  end.

(** The field ([None] is NULL) and the new value of [*p] ([None] is NULL). *)
Definition v1_field (p : option (list Z)) : option (list Z) * option (list Z) :=
  match p with
  | None => (None, None)
  | Some start =>
      if (deref start =? 0) || (deref start =? c_SP) then (None, p)
      else let '(f, rest) := split_space start in (Some f, rest)
  end.

Section parser.
Context `{InetPton}.

Definition v1_addresses (v4 : bool) (src dst : list Z) (sp : Z) : option KlSockAddr :=
  if v4 then
    b ← inet_pton4 src; _ ← inet_pton4 dst; Some (kl_sockaddr_from_ipv4 b sp)
  else
    b ← inet_pton6 src; _ ← inet_pton6 dst; Some (kl_sockaddr_from_ipv6 b sp 0).

(** The fields of [line]: the peer, or [None] for KL_PROXY_INVALID. *)
Definition v1_line (line : list Z) : option KlSockAddr :=
  let '(tok, cur) := v1_field (Some line) in
  let '(proto, cur) := v1_field cur in
  match tok, proto with
  | Some _, Some proto =>
      if span_eqb proto (bytes "UNKNOWN") then Some zero_addr
      else if span_eqb proto (bytes "TCP4") || span_eqb proto (bytes "TCP6") then
        let '(src, cur) := v1_field cur in
        let '(dst, cur) := v1_field cur in
        let '(sport, cur) := v1_field cur in
        let '(dport, cur) := v1_field cur in
        match src, dst, sport, dport, cur with
        | Some src, Some dst, Some sport, Some dport, None =>
            sp ← v1_port sport; _ ← v1_port dport;
            v1_addresses (span_eqb proto (bytes "TCP4")) src dst sp
        | _, _, _, _, _ => None
        end
      else None
  | _, _ => None
  end.

(** The search for the CRLF inside the first 107 bytes. *)
Definition find_crlf (buf : list Z) : option nat :=
  let max := Nat.min (length buf) 107 in
  List.find (fun i => (at_ buf i =? c_CR) && (at_ buf (i + 1) =? c_LF)) (seq 5 (max - 6)).

Definition parse_v1 (buf : list Z) (o : outs) : KlProxyResult * outs :=
  match find_crlf buf with
  | None => (if (107 <=? length buf)%nat then KL_PROXY_INVALID else KL_PROXY_NEED_MORE, o)
  | Some nl =>
      if existsb (fun c => c =? 0) (take nl buf) then (KL_PROXY_INVALID, o)
      else
        let line := take nl buf in
        match v1_line line with
        | Some peer => (KL_PROXY_OK, (nl + 2, peer)%nat)
        | None => (KL_PROXY_INVALID, (nl + 2, o.2)%nat)
        end
  end.

(** The address block [a] behind the fixed part of a v2 header. *)
Definition v2_addresses (fam blocklen : Z) (a : list Z) : option KlSockAddr :=
  if fam =? 1 then
    if blocklen <? 12 then None
    else Some (kl_sockaddr_from_ipv4 a (256 * at_ a 8 + at_ a 9))
  else if fam =? 2 then
    if blocklen <? 36 then None
    else Some (kl_sockaddr_from_ipv6 a (256 * at_ a 32 + at_ a 33) 0)
  else Some zero_addr.

Definition parse_v2 (buf : list Z) (o : outs) : KlProxyResult * outs :=
  let ver_cmd := at_ buf 12 in
  if negb (Z.shiftr ver_cmd 4 =? 2) then (KL_PROXY_INVALID, o)
  else
    let cmd := Z.land ver_cmd 15 in
    let fam := u8 (Z.shiftr (at_ buf 13) 4) in
    let blocklen := u16 (Z.lor (Z.shiftl (at_ buf 14) 8) (at_ buf 15)) in
    let total := 16 + blocklen in
    if KL_PROXY_HEADER_MAX <? total then (KL_PROXY_INVALID, o)
    else if strlen buf <? total then (KL_PROXY_NEED_MORE, o)
    else
      let o1 := (Z.to_nat total, zero_addr) in
      if cmd =? 0 then (KL_PROXY_OK, o1)
      else if negb (cmd =? 1) then (KL_PROXY_INVALID, o1)
      else match v2_addresses fam blocklen (drop 16 buf) with
           | None => (KL_PROXY_INVALID, o1)
           | Some peer => (KL_PROXY_OK, (o1.1, peer))
           end.

Definition kl_proxy_parse (buf : list Z) (o : outs) : KlProxyResult * outs :=
  let len := length buf in
  if (len =? 0)%nat then (KL_PROXY_NEED_MORE, o)
  else if span_eqb (take 12 buf) (take (Nat.min len 12) V2SIG) then
    if (len <? 16)%nat then (KL_PROXY_NEED_MORE, o) else parse_v2 buf o
  else if span_eqb (take 6 buf) (take (Nat.min len 6) V1SIG) then
    if (len <? 6)%nat then (KL_PROXY_NEED_MORE, o) else parse_v1 buf o
  else (KL_PROXY_NONE, o).

End parser.

(** ** Trust lists *)

Definition is_v4_mapped (a : list Z) : bool :=
  span_eqb (take 12 a) [0; 0; 0; 0; 0; 0; 0; 0; 0; 0; 255; 255].

(** [family] is AF_INET or AF_INET6. *)
Record KlCidr := mkCidr { cidr_family : KlAddrFamily; cidr_addr : list Z; cidr_bits : Z }.

(** [strtol (s, &end, 10)] on a platform with a 64-bit [long]: the value and the text at [end],
    [None] when nothing is converted ([end] is then [s]). *)
Definition LONG_MAX : Z := 9223372036854775807.

Definition isspace (c : Z) : bool := (c =? c_SP) || ((9 <=? c) && (c <=? 13)).

Fixpoint skip_while (f : Z -> bool) (s : list Z) : list Z :=
  match s with
  | [] => []
  | c :: s' => if f c then skip_while f s' else s
  end.

Fixpoint digits (s : list Z) (v : Z) : Z * list Z :=
  match s with
  | [] => (v, [])
  | c :: s' => if is_dec_digit c then digits s' (v * 10 + (c - c_0)) else (v, s)
  end.

Definition strtol (s : list Z) : option (Z * list Z) :=
  let s := skip_while isspace s in
  let neg := deref s =? c_minus in
  let s := if neg || (deref s =? 43) then tail s else s in
  if is_dec_digit (deref s) then
    let '(v, rest) := digits s 0 in
    Some (if neg then Z.max (- v) (- LONG_MAX - 1) else Z.min v LONG_MAX, rest)
  else None.

Definition is_sep (c : Z) : bool := (c =? c_SP) || (c =? c_comma) || (c =? c_HTAB).

(** The text before the first stop character and the text from it on. *)
Fixpoint token (stop : Z -> bool) (s : list Z) : list Z * list Z :=
  match s with
  | [] => ([], [])
  | c :: s' => if stop c then ([], s) else let '(a, b) := token stop s' in (c :: a, b)
  end.

Section cidr.
Context `{InetPton}.

(** One entry of the list; [None] is the return value -1. *)
Definition cidr_entry (tok : list Z) : option KlCidr :=
  let '(host, slash) := token (fun c => c =? c_slash) tok in
  '(family, maxbits, abuf) ←
    match inet_pton4 host with
    | Some b => Some (KL_AF_INET, 32, b ++ replicate 12 0)
    | None =>
        match inet_pton6 host with
        | Some b => Some (KL_AF_INET6, 128, b)
        | None => None
        end
    end;
  bits ←
    match slash with
    | [] => Some maxbits
    | _ :: txt =>
        '(b, end_) ← strtol txt;
        if negb (deref end_ =? 0) || (b <? 0) || (maxbits <? b) then None else Some b
    end;
  if bool_decide (family = KL_AF_INET6) && (96 <=? bits) && is_v4_mapped abuf then
    Some (mkCidr KL_AF_INET (take 4 (drop 12 abuf) ++ replicate 12 0) (bits - 96))
  else Some (mkCidr family abuf bits).

(** The loop over the list; the outer [None] is out of fuel, the inner one the return value -1. *)
Fixpoint cidr_loop (fuel : nat) (p : list Z) (cap : nat) (out : list KlCidr) : option (option (list KlCidr)) :=
  match fuel with
  | O => None
  | S fuel' =>
      let p := skip_while is_sep p in
      match p with
      | [] => Some (Some out)
      | _ :: _ =>
          let '(tok, rest) := token is_sep p in
          let tl := length tok in
          if (tl =? 0)%nat || (128 <=? tl)%nat then Some None
          else match cidr_entry tok with
               | None => Some None
               | Some e =>
                   if (cap <=? length out)%nat then Some None
                   else cidr_loop fuel' rest cap (out ++ [e])
               end
      end
  end.

Definition kl_cidr_parse_list (s : list Z) (cap : nat) : option (option (list KlCidr)) :=
  cidr_loop (S (length s)) s cap [].

End cidr.

Definition prefix_match (a b : list Z) (bits alen : Z) : bool :=
  let full := bits / 8 in
  let rem := bits mod 8 in
  if alen <? full then false
  else if (0 <? full) && negb (span_eqb (take (Z.to_nat full) a) (take (Z.to_nat full) b)) then false
  else if negb (rem =? 0) then
    let mask := u8 (Z.shiftl 255 (8 - rem)) in
    Z.land (at_ a (Z.to_nat full)) mask =? Z.land (at_ b (Z.to_nat full)) mask
  else true.

(** The family, length and bytes a peer is matched with. *)
Definition match_key (sa : KlSockAddr) : option (KlAddrFamily * Z * list Z) :=
  match kl_sockaddr_family sa with
  | KL_AF_INET => Some (KL_AF_INET, 4, u sa)
  | KL_AF_INET6 =>
      if is_v4_mapped (u sa) then Some (KL_AF_INET, 4, drop 12 (u sa)) else Some (KL_AF_INET6, 16, u sa)
  | _ => None
  end.

Definition kl_cidr_match (l : list KlCidr) (sa : KlSockAddr) : bool :=
  match match_key sa with
  | None => false
  | Some (fam, alen, a) =>
      existsb (fun e => bool_decide (cidr_family e = fam) && prefix_match a (cidr_addr e) (cidr_bits e) alen) l
  end.

(** ** The parser is incremental and bounded *)

Lemma at_app buf e i : (i < length buf)%nat -> at_ (buf ++ e) i = at_ buf i.
Proof. intros Hi. unfold at_. by rewrite lookup_app_l. Qed.

Lemma find_seq_ext (f g : nat -> bool) a n m i :
  (n <= m)%nat -> (forall j, (a <= j < a + n)%nat -> f j = g j) ->
  List.find f (seq a n) = Some i -> List.find g (seq a m) = Some i.
Proof.
  revert a m. induction n as [|n IH]; intros a m Hm Hfg; [done|]. destruct m as [|m]; [lia|]. simpl.
  rewrite <- Hfg by lia. destruct (f a); [done|]. apply IH; [lia|]. intros j Hj. apply Hfg. lia.
Qed.

Lemma find_seq_same (f g : nat -> bool) a n :
  (forall j, (a <= j < a + n)%nat -> f j = g j) -> List.find f (seq a n) = List.find g (seq a n).
Proof.
  revert a. induction n as [|n IH]; intros a Hfg; [done|]. simpl. rewrite <- Hfg by lia.
  destruct (f a); [done|]. apply IH. intros j Hj. apply Hfg. lia.
Qed.

Lemma find_crlf_range buf nl : find_crlf buf = Some nl -> (5 <= nl /\ nl + 2 <= Nat.min (length buf) 107)%nat.
Proof. intros Hf. apply List.find_some in Hf as [Hin _]. apply in_seq in Hin. lia. Qed.

Lemma find_crlf_app buf e nl : find_crlf buf = Some nl -> find_crlf (buf ++ e) = Some nl.
Proof.
  apply find_seq_ext; [rewrite length_app; lia|]. intros j Hj. by rewrite !at_app by lia.
Qed.

Lemma find_crlf_full buf e : (107 <= length buf)%nat -> find_crlf (buf ++ e) = find_crlf buf.
Proof.
  intros Hl. unfold find_crlf. rewrite length_app, !Nat.min_r by lia. apply find_seq_same.
  intros j Hj. by rewrite !at_app by lia.
Qed.

Section incremental.
Context `{InetPton}.

Lemma parse_v1_app buf e o : (parse_v1 buf o).1 <> KL_PROXY_NEED_MORE -> parse_v1 (buf ++ e) o = parse_v1 buf o.
Proof.
  unfold parse_v1. destruct (find_crlf buf) as [nl|] eqn:E.
  - intros _. rewrite (find_crlf_app _ _ _ E). apply find_crlf_range in E. by rewrite take_app_le by lia.
  - destruct (Nat.leb_spec 107 (length buf)) as [Hl|]; [|done]. intros _.
    rewrite find_crlf_full, E by done. rewrite length_app. by destruct (Nat.leb_spec 107 (length buf + length e)); [|lia].
Qed.

Lemma v2_addresses_app fam blocklen a e : (Z.to_nat blocklen <= length a)%nat ->
  v2_addresses fam blocklen (a ++ e) = v2_addresses fam blocklen a.
Proof.
  intros Hl. unfold v2_addresses, kl_sockaddr_from_ipv4, kl_sockaddr_from_ipv6. repeat case_test; try done;
    by rewrite !at_app, take_app_le by lia.
Qed.

Lemma parse_v2_app buf e o : (16 <= length buf)%nat ->
  (parse_v2 buf o).1 <> KL_PROXY_NEED_MORE -> parse_v2 (buf ++ e) o = parse_v2 buf o.
Proof.
  intros Hl. unfold parse_v2. rewrite !at_app by lia. case_if; [done|].
  set (bl := u16 _). assert (Hbl : 0 <= bl) by apply Z.mod_pos_bound, eq_refl. case_if; [done|].
  unfold strlen. rewrite length_app. destruct (Z.ltb_spec (Z.of_nat (length buf)) (16 + bl)); [done|]. intros _.
  destruct (Z.ltb_spec (Z.of_nat (length buf + length e)) (16 + bl)); [lia|].
  do 2 (case_if; [done|]). by rewrite drop_app_le, v2_addresses_app by (rewrite ?length_drop; lia).
Qed.

Lemma sig_app (sig buf e : list Z) (k : nat) : length sig = k ->
  span_eqb (take k buf) (take (Nat.min (length buf) k) sig) = false ->
  span_eqb (take k (buf ++ e)) (take (Nat.min (length (buf ++ e)) k) sig) = false.
Proof.
  intros Hk Hf. apply not_true_iff_false. rewrite span_eqb_true. intros He.
  apply not_true_iff_false in Hf. apply Hf, span_eqb_true.
  rewrite length_app in He. apply (f_equal (take (length buf))) in He. rewrite !take_take in He.
  rewrite take_app_le in He by lia.
  replace (take k buf) with (take (Nat.min (length buf) k) buf).
  - rewrite He. f_equal. lia.
  - destruct (Nat.le_ge_cases k (length buf)); [by rewrite Nat.min_r|].
    by rewrite Nat.min_l, !take_ge by lia.
Qed.

Lemma parse_stable buf e o :
  (kl_proxy_parse buf o).1 <> KL_PROXY_NEED_MORE -> kl_proxy_parse (buf ++ e) o = kl_proxy_parse buf o.
Proof.
  unfold kl_proxy_parse. rewrite length_app. destruct (Nat.eqb_spec (length buf) 0); [done|].
  destruct (Nat.eqb_spec (length buf + length e) 0); [lia|].
  destruct (span_eqb (take 12 buf) _) eqn:E2.
  { destruct (Nat.ltb_spec (length buf) 16); [done|]. rewrite Nat.min_r in * by lia.
    rewrite take_app_le, E2 by lia. destruct (Nat.ltb_spec (length buf + length e) 16); [lia|].
    by apply parse_v2_app. }
  apply (sig_app V2SIG buf e 12) in E2; [|done]. rewrite length_app in E2. rewrite E2.
  destruct (span_eqb (take 6 buf) _) eqn:E1.
  { destruct (Nat.ltb_spec (length buf) 6); [done|]. rewrite Nat.min_r in * by lia.
    rewrite take_app_le, E1 by lia. destruct (Nat.ltb_spec (length buf + length e) 6); [lia|].
    apply parse_v1_app. }
  apply (sig_app V1SIG buf e 6) in E1; [|done]. rewrite length_app in E1. by rewrite E1.
Qed.

Lemma parse_v1_bounds buf o :
  ((parse_v1 buf o).1 = KL_PROXY_OK -> ((parse_v1 buf o).2.1 <= Nat.min (length buf) 107)%nat) /\
  ((107 <= length buf)%nat -> (parse_v1 buf o).1 <> KL_PROXY_NEED_MORE).
Proof.
  unfold parse_v1. destruct (find_crlf buf) as [nl|] eqn:E.
  - apply find_crlf_range in E. case_if; [done|]. destruct (v1_line _); simpl; split; (lia || done).
  - destruct (Nat.leb_spec 107 (length buf)); split; (done || lia).
Qed.

Lemma parse_v2_bounds buf o :
  ((parse_v2 buf o).1 = KL_PROXY_OK -> ((parse_v2 buf o).2.1 <= length buf)%nat /\
     Z.of_nat (parse_v2 buf o).2.1 <= KL_PROXY_HEADER_MAX) /\
  (KL_PROXY_HEADER_MAX <= strlen buf -> (parse_v2 buf o).1 <> KL_PROXY_NEED_MORE).
Proof.
  unfold parse_v2. case_if; [done|]. set (bl := u16 _).
  assert (Hbl : 0 <= bl) by apply Z.mod_pos_bound, eq_refl. unfold KL_PROXY_HEADER_MAX, strlen.
  destruct (Z.ltb_spec 536 (16 + bl)); [done|]. destruct (Z.ltb_spec (Z.of_nat (length buf)) (16 + bl)).
  { split; [done|lia]. }
  case_if; [simpl; split; [lia|done]|]. case_if; [done|].
  destruct (v2_addresses _ _ _); simpl; split; (lia || done).
Qed.

(** The PROXY header decision is final: once the parser has said anything but "need more" on
    some bytes, it says the same, consumes the same number of bytes and reports the same peer
    whatever arrives after them; when it accepts, what it consumes has been received and is at most
    536 bytes; and it never asks for more once 536 bytes are there, so that a peer can not make the
    server buffer more. *)
Lemma proxy_decision_stable (buf e : list Z) (o : outs) :
  ((kl_proxy_parse buf o).1 <> KL_PROXY_NEED_MORE -> kl_proxy_parse (buf ++ e) o = kl_proxy_parse buf o) /\
  ((kl_proxy_parse buf o).1 = KL_PROXY_OK ->
    ((kl_proxy_parse buf o).2.1 <= length buf)%nat /\ Z.of_nat (kl_proxy_parse buf o).2.1 <= KL_PROXY_HEADER_MAX) /\
  (KL_PROXY_HEADER_MAX <= strlen buf -> (kl_proxy_parse buf o).1 <> KL_PROXY_NEED_MORE).
Proof.
  split; [apply parse_stable|]. unfold kl_proxy_parse, KL_PROXY_HEADER_MAX, strlen.
  destruct (Nat.eqb_spec (length buf) 0); [split; [done|lia]|]. case_if.
  { destruct (Nat.ltb_spec (length buf) 16); [split; [done|lia]|]. apply parse_v2_bounds. }
  case_if; [|done]. destruct (Nat.ltb_spec (length buf) 6); [split; [done|lia]|].
  destruct (parse_v1_bounds buf o) as [H1 H2]. split; [intros Hok; specialize (H1 Hok); lia|].
  intros Hl. apply H2. lia.
Qed.

End incremental.

(** ** The grammar of v1 headers *)

(** A field of a v1 line, and a line made of a field and what follows it. *)
Definition field (f : list Z) : Prop := f <> [] /\ Forall (fun c => c <> c_SP) f.

Definition line_of (f : list Z) (r : option (list Z)) : list Z :=
  f ++ match r with None => [] | Some t => c_SP :: t end.

Definition nul_free (s : list Z) : Prop := Forall (fun c => c <> 0) s.

Lemma split_space_iff s f r : split_space s = (f, r) <-> Forall (fun c => c <> c_SP) f /\ s = line_of f r.
Proof.
  unfold line_of. revert f. induction s as [|c s IH]; intros f; simpl.
  - split; [intros [= <- <-]; done|]. intros [_ He]. destruct f; [|done]. by destruct r.
  - case_test.
    + split; [intros [= <- <-]; by subst|]. intros [Hf He]. destruct f as [|y f].
      * destruct r; [|done]. by injection He as -> ->.
      * injection He as -> _. apply Forall_cons in Hf as [? _]. done.
    + destruct (split_space s) as [f' r'] eqn:E. split.
      * intros [= <- <-]. destruct (IH f') as [(Hf & ->) _]; [done|]. auto.
      * intros [Hf He]. destruct f as [|y f]; [destruct r; simpl in He; congruence|].
        injection He as <- ->. apply Forall_cons in Hf as [_ Hf].
        assert ((f', r') = (f, r)) by (apply IH; auto). congruence.
Qed.

Lemma v1_field_iff s f r : nul_free s -> v1_field (Some s) = (Some f, r) <-> field f /\ s = line_of f r.
Proof.
  intros Hs. unfold v1_field, field. destruct s as [|c s].
  { split; [done|]. intros [[Hne _] He]. unfold line_of in He. destruct f; done. }
  apply Forall_cons in Hs as [Hc _]. cbn [deref]. destruct (Z.eqb_spec c 0); [done|]. cbn [orb]. case_test.
  - split; [done|]. intros [[Hne Hf] He]. destruct f as [|y f]; [done|]. injection He as <- _.
    apply Forall_cons in Hf as [? _]. done.
  - destruct (split_space (c :: s)) as [f' r'] eqn:E. apply split_space_iff in E as E'. destruct E' as [Hf' He'].
    split.
    + intros [= -> ->]. split_and!; [|done|done]. intros ->. unfold line_of in He'. destruct r; simpl in He'; congruence.
    + intros [[_ Hf] He]. rewrite (proj2 (split_space_iff (c :: s) f r)) in E by done. congruence.
Qed.

Lemma v1_field_line f r : field f -> nul_free (line_of f r) -> v1_field (Some (line_of f r)) = (Some f, r).
Proof. intros Hf Hn. by apply v1_field_iff. Qed.

Lemma nul_free_line f r : nul_free (line_of f r) -> match r with Some t => nul_free t | None => True end.
Proof. unfold line_of. intros [_ Hr]%Forall_app. destruct r; [|done]. by apply Forall_cons in Hr as [_ ?]. Qed.

Lemma v1_port_loop_iff s n v m w : (n <= 5)%nat -> 0 <= v < 10 ^ Z.of_nat n ->
  v1_port_loop s n v = Some (m, w) <->
  Forall is_digit s /\ m = (n + length s)%nat /\ (m <= 5)%nat /\ w = dec_value_from v s.
Proof.
  revert n v. induction s as [|c s IH]; intros n v Hn Hv; cbn [v1_port_loop length].
  - split; [intros [= <- <-]; split_and!; auto; lia|]. intros (_ & -> & _ & ->). by rewrite Nat.add_0_r.
  - destruct (Nat.leb_spec 5 n); cbn [orb].
    { split; [done|]. intros (_ & -> & ? & _). lia. }
    unfold is_digit. case_if; breflect.
    { apply orb_true_iff in Heqb. rewrite !Z.ltb_lt in Heqb. split; [done|].
      intros ([Hd _]%Forall_cons & _). lia. }
    assert (Hv' : 0 <= v * 10 + (c - 48) < 10 ^ Z.of_nat (S n)).
    { rewrite Nat2Z.inj_succ, Z.pow_succ_r by lia. lia. }
    assert (10 ^ Z.of_nat (S n) <= 10 ^ 5) by (apply Z.pow_le_mono_r; lia).
    rewrite u64_small by (change (10 ^ 5) with 100000 in *; lia).
    rewrite IH, Forall_cons by (done || lia). unfold is_digit.
    replace (S n + length s)%nat with (n + S (length s))%nat by lia. intuition lia.
Qed.

Lemma dec_repr_lead s : Forall is_digit s -> s <> [] ->
  (deref s = c_0 -> length s = 1%nat) <-> dec_repr (dec_value s) s.
Proof.
  intros Hd Hne. unfold dec_repr. destruct s as [|c s]; [done|]. cbn [deref length].
  apply Forall_cons in Hd as Hd'. destruct Hd' as [Hc Hs]. unfold is_digit in Hc.
  assert (Hone : c = c_0 -> length s = 0%nat -> s = []) by (destruct s; done).
  assert (Hpos : c <> c_0 -> 0 < dec_value (c :: s)).
  { intros Hn. pose proof (dec_value_lower c s ltac:(lia) Hs).
    pose proof (Z.pow_pos_nonneg 10 (Z.of_nat (length s)) ltac:(lia) ltac:(lia)). lia. }
  split.
  - intros Hl. split_and!; [done..| |].
    + intros Hv ->. rewrite Hone in Hv by (specialize (Hl eq_refl); lia). done.
    + intros Hv. assert (c = c_0) as -> by lia. rewrite Hone by (specialize (Hl eq_refl); lia). done.
  - intros (_ & _ & _ & Hnz & Hz) ->. destruct (Z.eq_dec (dec_value (c_0 :: s)) 0) as [He|He].
    + by injection (Hz He) as ->.
    + by destruct (Hnz He).
Qed.

Lemma v1_port_iff s v : v1_port s = Some v <-> dec_repr v s /\ v <= 65535.
Proof.
  unfold v1_port. destruct (v1_port_loop s 0 0) as [[n w]|] eqn:E.
  - apply v1_port_loop_iff in E as (Hd & -> & Hn & ->); [|lia|simpl; lia].
    pose proof (dec_value_nonneg s Hd) as Hv0. fold (dec_value s). rewrite bind_Some_l. cbn [Nat.add] in *.
    destruct (Nat.eqb_spec (length s) 0) as [Hl|Hl]; cbn [orb].
    { split; [done|]. intros [(_ & Hne & _) _]. by destruct s. }
    assert (Hne : s <> []) by (by intros ->). pose proof (dec_repr_lead s Hd Hne) as Hlead.
    destruct (Z.ltb_spec 65535 (dec_value s)); cbn [orb].
    { split; [done|]. intros [(_ & _ & <- & _) ?]. lia. }
    rewrite u16_small by lia. destruct (Nat.ltb_spec 1 (length s)); cbn [andb].
    + case_test.
      * split; [done|]. intros [(_ & _ & <- & Hr) _].
        assert (length s = 1%nat) by (apply Hlead; [repeat split; tauto|done]). lia.
      * split; [intros [= <-]; split; [by apply Hlead|lia]|]. by intros [(_ & _ & <- & _) _].
    + split; [intros [= <-]; split; [apply Hlead; lia|lia]|]. by intros [(_ & _ & <- & _) _].
  - split; [done|]. intros [Hr Hv]. destruct Hr as (Hd & Hne & Hval & Hr').
    pose proof (dec_value_nonneg s Hd) as Hv0.
    pose proof (dec_repr_length v s 5 (conj Hd (conj Hne (conj Hval Hr'))) ltac:(simpl; lia) ltac:(lia)).
    rewrite (proj2 (v1_port_loop_iff s 0 0 (length s) (dec_value s) ltac:(lia) ltac:(simpl; lia))) in E; [done|].
    split_and!; auto.
Qed.

Section grammar.
Context `{InetPton}.

(** A v1 line: six fields separated by single spaces, the ports canonical decimals. *)
Definition v1_fields (tok proto src dst sport dport : list Z) : list Z :=
  line_of tok (Some (line_of proto (Some (line_of src (Some (line_of dst (Some (line_of sport (Some (line_of dport None)))))))))).

Inductive v1_grammar : list Z -> KlSockAddr -> Prop :=
| v1_unknown tok r : field tok -> v1_grammar (line_of tok (Some (line_of (bytes "UNKNOWN") r))) zero_addr
| v1_tcp4 tok src dst sport dport sp dp b d :
    field tok -> field src -> field dst -> dec_repr sp sport -> sp <= 65535 -> dec_repr dp dport -> dp <= 65535 ->
    inet_pton4 src = Some b -> inet_pton4 dst = Some d ->
    v1_grammar (v1_fields tok (bytes "TCP4") src dst sport dport) (kl_sockaddr_from_ipv4 b sp)
| v1_tcp6 tok src dst sport dport sp dp b d :
    field tok -> field src -> field dst -> dec_repr sp sport -> sp <= 65535 -> dec_repr dp dport -> dp <= 65535 ->
    inet_pton6 src = Some b -> inet_pton6 dst = Some d ->
    v1_grammar (v1_fields tok (bytes "TCP6") src dst sport dport) (kl_sockaddr_from_ipv6 b sp 0).

Lemma port_field v s : dec_repr v s -> field s.
Proof.
  intros (Hd & Hne & _). split; [done|]. apply (Forall_impl _ _ _ Hd). unfold is_digit. lia.
Qed.

(** The next field of a NUL-free rest. *)
Lemma v1_field_cases cur : match cur with Some t => nul_free t | None => True end ->
  match v1_field cur with
  | (Some f, r) => cur = Some (line_of f r) /\ field f /\ match r with Some t => nul_free t | None => True end
  | (None, _) => True
  end.
Proof.
  intros Hn. destruct cur as [t|]; [|done]. destruct (v1_field (Some t)) as [[f|] r] eqn:E; [|done].
  apply v1_field_iff in E as [Hf ->]; [|done]. split_and!; [done..|]. by eapply nul_free_line.
Qed.

Lemma v1_addresses_grammar v4 tok src dst sport dport sp dp p :
  field tok -> field src -> field dst -> v1_port sport = Some sp -> v1_port dport = Some dp ->
  v1_addresses v4 src dst sp = Some p ->
  v1_grammar (v1_fields tok (if v4 then bytes "TCP4" else bytes "TCP6") src dst sport dport) p.
Proof.
  intros Ht Hs Hd [Hsp Hsp']%v1_port_iff [Hdp Hdp']%v1_port_iff. unfold v1_addresses. destruct v4.
  - destruct (inet_pton4 src) as [b|] eqn:Eb; [|done]. rewrite bind_Some_l.
    destruct (inet_pton4 dst) as [d|] eqn:Ed; [|done]. intros [= <-]. by eapply v1_tcp4.
  - destruct (inet_pton6 src) as [b|] eqn:Eb; [|done]. rewrite bind_Some_l.
    destruct (inet_pton6 dst) as [d|] eqn:Ed; [|done]. intros [= <-]. by eapply v1_tcp6.
Qed.

Lemma v1_line_sound line p : nul_free line -> v1_line line = Some p -> v1_grammar line p.
Proof.
  intros Hn. unfold v1_line. pose proof (v1_field_cases (Some line) Hn) as H1.
  destruct (v1_field (Some line)) as [[tok|] c1]; [|by destruct (v1_field c1)].
  destruct H1 as (He & Htok & Hn1). injection He as ->.
  pose proof (v1_field_cases c1 Hn1) as H2. destruct (v1_field c1) as [[proto|] c2]; [|done].
  destruct H2 as (-> & Hproto & Hn2).
  destruct (span_eqb proto (bytes "UNKNOWN")) eqn:Eu.
  { apply span_eqb_true in Eu as ->. intros [= <-]. by constructor. }
  destruct (span_eqb proto (bytes "TCP4") || span_eqb proto (bytes "TCP6")) eqn:Et; [|done].
  pose proof (v1_field_cases c2 Hn2) as H3. destruct (v1_field c2) as [osrc c3].
  destruct osrc as [src|].
  2: by destruct (v1_field c3) as [? c4], (v1_field c4) as [? c5], (v1_field c5) as [? c6].
  destruct H3 as (-> & Hsrc & Hn3). pose proof (v1_field_cases c3 Hn3) as H4.
  destruct (v1_field c3) as [[dst|] c4].
  2: by destruct (v1_field c4) as [? c5], (v1_field c5) as [? c6].
  destruct H4 as (-> & Hdst & Hn4). pose proof (v1_field_cases c4 Hn4) as H5.
  destruct (v1_field c4) as [[sport|] c5]; [|by destruct (v1_field c5) as [? c6]].
  destruct H5 as (-> & Hsport & Hn5). pose proof (v1_field_cases c5 Hn5) as H6.
  destruct (v1_field c5) as [[dport|] [c6|]]; [done| |done|done]. destruct H6 as (-> & _ & _).
  destruct (v1_port sport) as [sp|] eqn:Esp; [|done]. rewrite bind_Some_l.
  destruct (v1_port dport) as [dp|] eqn:Edp; [|done]. rewrite bind_Some_l. intros Ha.
  apply (v1_addresses_grammar _ tok src dst sport dport sp dp) in Ha; [|done..]. unfold v1_fields in Ha.
  assert (Hp : (if span_eqb proto (bytes "TCP4") then bytes "TCP4" else bytes "TCP6") = proto).
  { destruct (span_eqb proto (bytes "TCP4")) eqn:E4; [by apply span_eqb_true in E4|].
    cbn [orb] in Et. by apply span_eqb_true in Et. }
  by rewrite Hp in Ha.
Qed.

Lemma v1_fields_line proto tok src dst sport dport sp dp :
  (proto = bytes "TCP4" \/ proto = bytes "TCP6") ->
  nul_free (v1_fields tok proto src dst sport dport) ->
  field tok -> field src -> field dst -> v1_port sport = Some sp -> v1_port dport = Some dp ->
  v1_line (v1_fields tok proto src dst sport dport) = v1_addresses (span_eqb proto (bytes "TCP4")) src dst sp.
Proof.
  intros Hp Hn Ht Hs Hd Hsp Hdp. pose proof (port_field _ _ (proj1 (proj1 (v1_port_iff _ _) Hsp))) as Hfs.
  pose proof (port_field _ _ (proj1 (proj1 (v1_port_iff _ _) Hdp))) as Hfd.
  assert (Hfp : field proto) by (destruct Hp as [-> | ->]; split; by repeat constructor).
  unfold v1_fields in *. pose proof (nul_free_line _ _ Hn) as Hn1. pose proof (nul_free_line _ _ Hn1) as Hn2.
  pose proof (nul_free_line _ _ Hn2) as Hn3. pose proof (nul_free_line _ _ Hn3) as Hn4.
  pose proof (nul_free_line _ _ Hn4) as Hn5. unfold v1_line.
  rewrite !v1_field_line by done. rewrite Hsp, Hdp. by destruct Hp as [-> | ->].
Qed.

Lemma v1_line_complete line p : nul_free line -> v1_grammar line p -> v1_line line = Some p.
Proof.
  intros Hn Hg. destruct Hg as [tok r Ht|tok src dst sport dport sp dp b d Ht Hs Hd Hsp Hsl Hdp Hdl Hb Hdd
    |tok src dst sport dport sp dp b d Ht Hs Hd Hsp Hsl Hdp Hdl Hb Hdd].
  - pose proof (nul_free_line _ _ Hn) as Hn1. unfold v1_line.
    rewrite !v1_field_line by (done || split; by repeat constructor). done.
  - rewrite (v1_fields_line _ _ _ _ _ _ sp dp) by (done || (by left) || by apply v1_port_iff).
    simpl. by rewrite Hb, bind_Some_l, Hdd.
  - rewrite (v1_fields_line _ _ _ _ _ _ sp dp) by (done || (by right) || by apply v1_port_iff).
    simpl. by rewrite Hb, bind_Some_l, Hdd.
Qed.

Definition first_crlf (buf : list Z) (nl : nat) : Prop :=
  buf !! nl = Some c_CR /\ buf !! (nl + 1)%nat = Some c_LF /\
  forall j, (j < nl)%nat -> ~ (buf !! j = Some c_CR /\ buf !! (j + 1)%nat = Some c_LF).

Lemma find_seq_iff (f : nat -> bool) a n i :
  List.find f (seq a n) = Some i <->
  (a <= i < a + n)%nat /\ f i = true /\ forall j, (a <= j < i)%nat -> f j = false.
Proof.
  revert a. induction n as [|n IH]; intros a; simpl.
  { split; [done|]. lia. }
  destruct (f a) eqn:E.
  - split; [intros [= <-]; split_and!; auto; lia|]. intros (Hi & Hf & Hj).
    destruct (decide (a = i)) as [->|]; [done|]. rewrite Hj in E by lia. done.
  - rewrite IH. split; intros (Hi & Hf & Hj); split_and!; auto; try lia.
    + intros j Hj'. destruct (decide (a = j)) as [->|]; [done|]. apply Hj. lia.
    + destruct (decide (a = i)) as [->|]; [congruence|lia].
    + intros j Hj'. apply Hj. lia.
Qed.

Lemma at_byte buf i x : x <> 0 -> at_ buf i = x <-> buf !! i = Some x.
Proof. intros Hx. unfold at_. destruct (buf !! i); simpl; split; congruence. Qed.

Lemma find_crlf_iff buf nl : take 6 buf = V1SIG ->
  find_crlf buf = Some nl <-> first_crlf buf nl /\ (nl + 2 <= 107)%nat.
Proof.
  intros Hsig. assert (Hlow : forall j, (j < 6)%nat -> buf !! j <> Some c_CR).
  { intros j Hj. rewrite <- (lookup_take_lt _ _ _ Hj), Hsig. do 6 (destruct j; [done|]). lia. }
  assert (Hf : forall j, ((at_ buf j =? c_CR) && (at_ buf (j + 1) =? c_LF) = true) <->
    buf !! j = Some c_CR /\ buf !! (j + 1)%nat = Some c_LF).
  { intros j. rewrite andb_true_iff, !Z.eqb_eq, !at_byte by done. done. }
  unfold find_crlf, first_crlf. rewrite find_seq_iff, Hf. split.
  - intros (Hi & Hcr & Hj). split_and!; [tauto|tauto| |lia]. intros j Hlt Hc.
    destruct (decide (j < 6)%nat); [by destruct (Hlow j ltac:(lia)), Hc|].
    apply Hf in Hc. rewrite Hj in Hc by lia. done.
  - intros ((Hc & Hl & Hj) & Hmax). apply lookup_lt_Some in Hl as Hlt.
    assert (~ (nl < 6)%nat) by (intros Hx; by destruct (Hlow nl Hx)).
    split_and!; [lia|lia|done|done|]. intros j Hj'. apply not_true_iff_false. rewrite Hf. apply Hj. lia.
Qed.

Lemma parse_is_v1 buf o : take 6 buf = V1SIG -> kl_proxy_parse buf o = parse_v1 buf o.
Proof.
  intros Hsig. assert (Hl : (6 <= length buf)%nat).
  { destruct (Nat.le_gt_cases 6 (length buf)); [done|]. rewrite take_ge in Hsig by lia. by rewrite Hsig. }
  unfold kl_proxy_parse. destruct (Nat.eqb_spec (length buf) 0); [lia|].
  destruct (span_eqb (take 12 buf) _) eqn:E.
  { exfalso. apply span_eqb_true in E. apply (f_equal (take 1)) in E. rewrite !take_take in E.
    apply (f_equal (take 1)) in Hsig. rewrite take_take in Hsig. simpl (Nat.min 1 _) in *.
    rewrite Hsig in E. by destruct (length buf). }
  rewrite Hsig, Nat.min_r by done. destruct (Nat.ltb_spec (length buf) 6); [lia|]. done.
Qed.

(** C39.  A version 1 PROXY header is accepted exactly when its line is well formed: the first CRLF
    comes within 107 bytes, the line before it has no NUL, and it is either an UNKNOWN line or six
    fields separated by single spaces, with both addresses valid for the family and both ports
    canonical decimals up to 65535.  The peer reported is then the source address and port. *)
Theorem proxy_v1_grammar (buf : list Z) (o : outs) (n : nat) (p : KlSockAddr) (Hsig : take 6 buf = V1SIG) :
  kl_proxy_parse buf o = (KL_PROXY_OK, (n, p)) <->
  exists nl, first_crlf buf nl /\ n = (nl + 2)%nat /\ (n <= 107)%nat /\
    nul_free (take nl buf) /\ v1_grammar (take nl buf) p.
Proof.
  pose proof (parse_is_v1 buf o Hsig) as Hp.
  assert (Hnul : forall nl, existsb (fun c => c =? 0) (take nl buf) = false <-> nul_free (take nl buf)).
  { intros nl. unfold nul_free. induction (take nl buf) as [|c l IH]; simpl; [by split|].
    by rewrite orb_false_iff, IH, Z.eqb_neq, Forall_cons. }
  rewrite Hp. unfold parse_v1. split.
  - destruct (find_crlf buf) as [nl|] eqn:E; [|by case_if].
    apply find_crlf_iff in E as [Hf Hm]; [|done]. case_if; [done|]. apply Hnul in Heqb.
    destruct (v1_line (take nl buf)) as [q|] eqn:El; [|done]. intros [= <- <-].
    exists nl. split_and!; auto. by apply v1_line_sound.
  - intros (nl & Hf & -> & Hm & Hn & Hg). rewrite (proj2 (find_crlf_iff buf nl Hsig)) by done.
    by rewrite (proj2 (Hnul nl) Hn), (v1_line_complete _ _ Hn Hg).
Qed.

End grammar.

Definition demo_pton : InetPton := {| inet_pton4 := parse_ipv4; inet_pton6 := parse_ipv6 |}.

Lemma proxy_v1_grammar_witness :
  let buf := bytes "PROXY TCP4 10.1.2.3 10.0.0.1 51000 443" ++ [13; 10] ++ bytes "GET" in
  exists nl, first_crlf buf nl /\ 40%nat = (nl + 2)%nat /\ (40 <= 107)%nat /\
    nul_free (take nl buf) /\
    @v1_grammar demo_pton (take nl buf) (kl_sockaddr_from_ipv4 [10; 1; 2; 3] 51000).
Proof.
  apply (proj1 (@proxy_v1_grammar demo_pton
    (bytes "PROXY TCP4 10.1.2.3 10.0.0.1 51000 443" ++ [13; 10] ++ bytes "GET") (0%nat, zero_addr) 40
    (kl_sockaddr_from_ipv4 [10; 1; 2; 3] 51000) eq_refl)).
  vm_compute. reflexivity.
Defined.

(** ** CIDR matching, bit by bit *)

(** Bit [i] of an address in network order. *)
Definition addr_bit (a : list Z) (i : nat) : bool := Z.testbit (at_ a (i / 8)) (7 - Z.of_nat (i mod 8)).

Definition agree (a b : list Z) (n : nat) : Prop := forall i, (i < n)%nat -> addr_bit a i = addr_bit b i.

Lemma addr_bit_at a k j : (j < 8)%nat -> addr_bit a (8 * k + j) = Z.testbit (at_ a k) (7 - Z.of_nat j).
Proof.
  intros Hj. unfold addr_bit. rewrite Nat.mul_comm, Nat.div_add_l, Nat.div_small, Nat.add_0_r by lia.
  by rewrite Nat.add_comm, Nat.Div0.mod_add, Nat.mod_small by lia.
Qed.

Lemma at_is_byte a i : Forall is_byte a -> is_byte (at_ a i).
Proof.
  intros Ha. unfold at_. destruct (a !! i) eqn:E; simpl; [by eapply Forall_lookup_1|]. unfold is_byte. lia.
Qed.

Lemma byte_bits x y : is_byte x -> is_byte y ->
  x = y <-> forall j, (j < 8)%nat -> Z.testbit x (7 - Z.of_nat j) = Z.testbit y (7 - Z.of_nat j).
Proof.
  intros Hx Hy. split; [by intros ->|]. intros Hj. apply Z.bits_inj'. intros n Hn.
  destruct (Z.lt_ge_cases n 8).
  - specialize (Hj (Z.to_nat (7 - n)) ltac:(lia)). by replace (7 - Z.of_nat (Z.to_nat (7 - n))) with n in Hj by lia.
  - unfold is_byte in *.
    rewrite <- (Z.mod_small x (2 ^ 8)), <- (Z.mod_small y (2 ^ 8)) by (change (2 ^ 8) with 256; lia).
    by rewrite !Z.mod_pow2_bits_high by lia.
Qed.

Lemma agree_bytes a b k : Forall is_byte a -> Forall is_byte b -> (k <= length a)%nat -> (k <= length b)%nat ->
  agree a b (8 * k) <-> take k a = take k b.
Proof.
  intros Ha Hb Hla Hlb. split.
  - intros Hag. apply list_eq. intros i. destruct (decide (i < k)%nat) as [Hi|Hi].
    + rewrite !lookup_take_lt by done. destruct (lookup_lt_is_Some_2 a i) as [x Hx]; [lia|].
      destruct (lookup_lt_is_Some_2 b i) as [y Hy]; [lia|]. rewrite Hx, Hy. f_equal.
      apply byte_bits; [exact (Forall_lookup_1 _ _ _ _ Ha Hx)|exact (Forall_lookup_1 _ _ _ _ Hb Hy)|]. intros j Hj. specialize (Hag (8 * i + j)%nat ltac:(lia)).
      rewrite !addr_bit_at in Hag by done. unfold at_ in Hag. by rewrite Hx, Hy in Hag.
    + by rewrite !lookup_take_ge by lia.
  - intros He i Hi. unfold addr_bit, at_. assert (i / 8 < k)%nat by (apply Nat.Div0.div_lt_upper_bound; lia).
    by rewrite <- (lookup_take_lt a k), He, lookup_take_lt by done.
Qed.

Lemma agree_split a b k r : (r < 8)%nat ->
  agree a b (8 * k + r) <-> agree a b (8 * k) /\
    forall j, (j < r)%nat -> Z.testbit (at_ a k) (7 - Z.of_nat j) = Z.testbit (at_ b k) (7 - Z.of_nat j).
Proof.
  intros Hr. split.
  - intros Hag. split; [intros i Hi; apply Hag; lia|]. intros j Hj.
    rewrite <- !addr_bit_at by lia. apply Hag. lia.
  - intros [H1 H2] i Hi. destruct (decide (i < 8 * k)%nat); [by apply H1|].
    replace i with (8 * k + (i - 8 * k))%nat by lia. rewrite !addr_bit_at by lia. apply H2. lia.
Qed.

Lemma mask_bit r n : 0 < r < 8 -> 0 <= n ->
  Z.testbit (u8 (Z.shiftl 255 (8 - r))) n = (8 - r <=? n) && (n <? 8).
Proof.
  intros Hr Hn. unfold u8. change 256 with (2 ^ 8). destruct (Z.ltb_spec n 8).
  - rewrite Z.mod_pow2_bits_low, Z.shiftl_spec by lia. rewrite andb_true_r. destruct (Z.leb_spec (8 - r) n).
    + change 255 with (Z.ones 8). rewrite Z.testbit_ones_nonneg by lia. apply Z.ltb_lt. lia.
    + by apply Z.testbit_neg_r; lia.
  - rewrite Z.mod_pow2_bits_high by lia. by rewrite andb_false_r.
Qed.

Lemma masked_eq x y r : (0 < r < 8)%nat -> is_byte x -> is_byte y ->
  let mask := u8 (Z.shiftl 255 (8 - Z.of_nat r)) in
  Z.land x mask = Z.land y mask <->
  forall j, (j < r)%nat -> Z.testbit x (7 - Z.of_nat j) = Z.testbit y (7 - Z.of_nat j).
Proof.
  intros Hr Hx Hy mask. split.
  - intros He j Hj. apply (f_equal (fun z => Z.testbit z (7 - Z.of_nat j))) in He.
    rewrite !Z.land_spec in He. unfold mask in He. rewrite mask_bit in He by lia.
    assert (Hm : (8 - Z.of_nat r <=? 7 - Z.of_nat j) && (7 - Z.of_nat j <? 8) = true)
      by (apply andb_true_iff; rewrite Z.leb_le, Z.ltb_lt; lia).
    by rewrite Hm, !andb_true_r in He.
  - intros Hj. apply Z.bits_inj'. intros n Hn. rewrite !Z.land_spec. unfold mask. rewrite mask_bit by lia.
    destruct (Z.leb_spec (8 - Z.of_nat r) n), (Z.ltb_spec n 8); cbn [andb]; rewrite ?andb_false_r; try done.
    specialize (Hj (Z.to_nat (7 - n)) ltac:(lia)).
    replace (7 - Z.of_nat (Z.to_nat (7 - n))) with n in Hj by lia. by rewrite Hj.
Qed.

Lemma prefix_match_iff a b bits alen : Forall is_byte a -> Forall is_byte b ->
  (Z.to_nat alen <= length a)%nat -> (Z.to_nat alen <= length b)%nat -> 0 <= bits <= 8 * alen ->
  prefix_match a b bits alen = true <-> agree a b (Z.to_nat bits).
Proof.
  intros Ha Hb Hla Hlb Hbits. unfold prefix_match.
  pose proof (Z.div_mod bits 8 ltac:(lia)) as Hdm. pose proof (Z.mod_pos_bound bits 8 ltac:(lia)) as Hrem.
  set (full := bits / 8) in *. set (rem := bits mod 8) in *.
  assert (Hfull : 0 <= full <= alen) by (unfold full; split; [apply Z.div_pos|apply Z.div_le_upper_bound]; lia).
  replace (Z.to_nat bits) with (8 * Z.to_nat full + Z.to_nat rem)%nat by lia.
  rewrite agree_split, (agree_bytes a b (Z.to_nat full)) by (done || lia).
  destruct (Z.ltb_spec alen full); [lia|].
  assert (Hcmp : (0 <? full) && negb (span_eqb (take (Z.to_nat full) a) (take (Z.to_nat full) b)) = false <->
    take (Z.to_nat full) a = take (Z.to_nat full) b).
  { rewrite <- span_eqb_true. destruct (Z.ltb_spec 0 full); cbn [andb]; [by rewrite negb_false_iff|].
    replace full with 0 by lia. done. }
  destruct ((0 <? full) && _) eqn:E.
  { split; [done|]. intros [He _]. by apply Hcmp in He. }
  assert (He := proj1 Hcmp eq_refl). case_test; cbn [negb].
  - split; [|done]. intros _. split; [done|]. lia.
  - rewrite Z.eqb_eq. replace (8 - rem) with (8 - Z.of_nat (Z.to_nat rem)) by lia.
    rewrite masked_eq by (lia || by apply at_is_byte). tauto.
Qed.

(** ** Trust lists *)

Section trust.
Context `{P : InetPton} `{L : !InetPtonLaws}.

Definition cidr_wf (e : KlCidr) : Prop :=
  length (cidr_addr e) = 16%nat /\ Forall is_byte (cidr_addr e) /\
  ((cidr_family e = KL_AF_INET /\ 0 <= cidr_bits e <= 32) \/
   (cidr_family e = KL_AF_INET6 /\ 0 <= cidr_bits e <= 128)).

Lemma zeros_bytes n : Forall is_byte (replicate n 0).
Proof. apply Forall_replicate. unfold is_byte. lia. Qed.

Lemma cidr_entry_wf tok e : cidr_entry tok = Some e -> cidr_wf e.
Proof.
  unfold cidr_entry. destruct (token _ tok) as [host slash].
  assert (Hpton : forall fam mb abuf,
    match inet_pton4 host with
    | Some b => Some (KL_AF_INET, 32, b ++ replicate 12 0)
    | None => match inet_pton6 host with Some b => Some (KL_AF_INET6, 128, b) | None => None end
    end = Some (fam, mb, abuf) ->
    length abuf = 16%nat /\ Forall is_byte abuf /\ ((fam = KL_AF_INET /\ mb = 32) \/ (fam = KL_AF_INET6 /\ mb = 128))).
  { intros fam mb abuf. destruct (inet_pton4 host) as [b|] eqn:E4.
    - intros [= <- <- <-]. apply pton4_bytes in E4 as [Hl Hb]. rewrite length_app, Hl.
      split_and!; [done| |by left]. apply Forall_app. split; [done|apply (zeros_bytes 12)].
    - destruct (inet_pton6 host) as [b|] eqn:E6; [|done]. intros [= <- <- <-].
      apply pton6_bytes in E6 as [Hl Hb]. split_and!; auto. }
  destruct (match inet_pton4 host with Some _ => _ | None => _ end) as [[[fam mb] abuf]|]; [|done].
  destruct (Hpton fam mb abuf eq_refl) as (Hl & Hb & Hf). rewrite bind_Some_l.
  destruct (match slash with [] => _ | _ => _ end) as [bits|] eqn:Eb; [|done]. rewrite bind_Some_l.
  assert (Hbits : 0 <= bits <= mb).
  { destruct slash as [|? txt]; [injection Eb as <-; destruct Hf as [[_ ->]|[_ ->]]; lia|].
    destruct (strtol txt) as [[v end_]|]; [|done]. rewrite bind_Some_l in Eb.
    case_if; [done|]. injection Eb as <-. breflect. lia. }
  unfold cidr_wf. case_if; intros [= <-]; cbn [cidr_addr cidr_family cidr_bits].
  - breflect. split_and!.
    + rewrite length_app, length_take, length_drop, Hl. done.
    + apply Forall_app. split; [apply Forall_take, Forall_drop; done|apply (zeros_bytes 12)].
    + left. destruct Hf as [[-> _]|[_ ->]]; [done|]. split; [done|lia].
  - split_and!; [done|done|]. destruct Hf as [[-> ->]|[-> ->]]; auto.
Qed.

Lemma skip_while_shorter f s : (length (skip_while f s) <= length s)%nat.
Proof. induction s as [|c s IH]; simpl; [lia|]. destruct (f c); simpl; lia. Qed.

Lemma token_split stop s : let '(a, b) := token stop s in s = a ++ b.
Proof. induction s as [|c s IH]; simpl; [done|]. destruct (stop c); [done|]. destruct (token stop s). by subst. Qed.

Lemma cidr_loop_ok fuel p cap out : (length p < fuel)%nat -> Forall cidr_wf out -> (length out <= cap)%nat ->
  match cidr_loop fuel p cap out with
  | None => False
  | Some None => True
  | Some (Some l) => Forall cidr_wf l /\ (length l <= cap)%nat
  end.
Proof.
  revert p out. induction fuel as [|fuel IH]; intros p out Hp Hout Hcap; [lia|]. simpl.
  pose proof (skip_while_shorter is_sep p) as Hs. destruct (skip_while is_sep p) as [|c q]; [done|].
  pose proof (token_split is_sep (c :: q)) as Ht. destruct (token is_sep (c :: q)) as [tok rest].
  destruct (Nat.eqb_spec (length tok) 0); cbn [orb]; [done|]. case_if; [done|].
  destruct (cidr_entry tok) as [e|] eqn:Ee; [|done]. destruct (Nat.leb_spec cap (length out)); [done|].
  apply IH.
  - apply (f_equal length) in Ht. rewrite length_app in Ht. simpl in *. lia.
  - apply Forall_app. split; [done|]. constructor; [by eapply cidr_entry_wf|done].
  - rewrite length_app. simpl. lia.
Qed.

Definition in_network (e : KlCidr) (sa : KlSockAddr) : Prop :=
  exists alen a, match_key sa = Some (cidr_family e, alen, a) /\ agree a (cidr_addr e) (Z.to_nat (cidr_bits e)).

Lemma match_key_ok sa fam alen a : wf sa -> match_key sa = Some (fam, alen, a) ->
  Forall is_byte a /\ (Z.to_nat alen <= length a)%nat /\
  ((fam = KL_AF_INET /\ alen = 4) \/ (fam = KL_AF_INET6 /\ alen = 16)).
Proof.
  intros (_ & Hl & Hb & _). unfold match_key, KL_UNIX_PATH_MAX in *. destruct (kl_sockaddr_family sa); try done.
  - intros [= <- <- <-]. rewrite Hl. split_and!; [done|lia|auto].
  - case_if; intros [= <- <- <-]; rewrite ?length_drop, Hl; split_and!; auto using Forall_drop; lia.
Qed.

Lemma entry_match_iff e sa fam alen a : cidr_wf e -> wf sa -> match_key sa = Some (fam, alen, a) ->
  bool_decide (cidr_family e = fam) && prefix_match a (cidr_addr e) (cidr_bits e) alen = true <->
  cidr_family e = fam /\ agree a (cidr_addr e) (Z.to_nat (cidr_bits e)).
Proof.
  intros (Hl & Hb & Hf) Hsa Hk. destruct (match_key_ok _ _ _ _ Hsa Hk) as (Ha & Hla & Hfam).
  rewrite andb_true_iff, bool_decide_eq_true.
  assert (Hpm : cidr_family e = fam ->
    prefix_match a (cidr_addr e) (cidr_bits e) alen = true <-> agree a (cidr_addr e) (Z.to_nat (cidr_bits e))).
  { intros He. apply prefix_match_iff; auto; destruct Hfam as [[-> ->]|[-> ->]], Hf as [[Hx ?]|[Hx ?]];
      rewrite Hx in He; try done; lia. }
  tauto.
Qed.

Lemma match_iff l sa : Forall cidr_wf l -> wf sa ->
  kl_cidr_match l sa = true <-> exists e, e ∈ l /\ in_network e sa.
Proof.
  intros Hl Hsa. unfold kl_cidr_match, in_network. rewrite Forall_forall in Hl.
  destruct (match_key sa) as [[[fam alen] a]|] eqn:E.
  - rewrite existsb_exists. split.
    + intros (e & Hin & He). apply list_elem_of_In in Hin.
      apply (entry_match_iff e sa fam alen a) in He as [<- Hag]; auto.
      exists e. split; [done|]. by exists alen, a.
    + intros (e & Hin & alen' & a' & [= -> -> ->] & Hag). exists e. split; [by apply list_elem_of_In|].
      by apply (entry_match_iff e sa _ alen' a'); auto.
  - split; [done|]. by intros (e & _ & ? & ? & ? & _).
Qed.

Lemma agree_prefix a a' b n k : Forall is_byte a -> Forall is_byte a' ->
  (k <= length a)%nat -> (k <= length a')%nat -> take k a = take k a' -> (n <= 8 * k)%nat ->
  agree a b n <-> agree a' b n.
Proof.
  intros Ha Ha' Hl Hl' He Hn. apply (agree_bytes a a' k) in He; [|done..].
  split; intros Hag i Hi; rewrite <- (Hag i Hi); [symmetry|]; apply He; lia.
Qed.

Lemma mapped_match l b p p' scope : Forall cidr_wf l -> length b = 4%nat -> Forall is_byte b ->
  kl_cidr_match l (kl_sockaddr_from_ipv6 (replicate 10 0 ++ [255; 255] ++ b) p scope) =
  kl_cidr_match l (kl_sockaddr_from_ipv4 b p').
Proof.
  intros Hl Hlen Hb. destruct b as [|b0 [|b1 [|b2 [|b3 [|]]]]]; try done.
  unfold kl_cidr_match, match_key. cbn [kl_sockaddr_family family kl_sockaddr_from_ipv6 kl_sockaddr_from_ipv4 u].
  change (is_v4_mapped _) with true. cbv iota.
  assert (Hx : forall n, Forall is_byte ([b0; b1; b2; b3] ++ replicate n 0)).
  { intros n. apply Forall_app. split; [done|apply zeros_bytes]. }
  change (drop 12 _) with ([b0; b1; b2; b3] ++ replicate 92 0).
  change (mem_write zero_u 0 (take 4 [b0; b1; b2; b3])) with ([b0; b1; b2; b3] ++ replicate 104 0).
  induction Hl as [|e l (He & Hbe & Hf) _ IH]; [done|]. cbn [existsb]. f_equal; [|done].
  case_bool_decide as Hfam; [|done]. cbn [andb]. apply eq_true_iff_eq.
  assert (0 <= cidr_bits e <= 32) by (destruct Hf as [[? ?]|[? ?]]; [done|congruence]).
  rewrite !prefix_match_iff by (done || (rewrite ?length_app, ?length_replicate, ?He; simpl; lia)).
  apply (agree_prefix _ _ _ _ 4); try done; simpl; lia.
Qed.

(** C40.  The trust decision.  The CIDR list parser always returns, with at most as many entries as
    there is room for; for the list it returns, a peer is trusted exactly when the leading bits of
    its address agree with an entry of its family, for as many bits as the entry's prefix length;
    and an IPv4 peer that a dual-stack listener reports as an IPv4-mapped IPv6 address is trusted
    exactly when the plain IPv4 address is. *)
Theorem cidr_trust_spec (s : list Z) (cap : nat) :
  match kl_cidr_parse_list s cap with
  | None => False
  | Some None => True
  | Some (Some l) =>
      (length l <= cap)%nat /\
      (forall sa, wf sa -> kl_cidr_match l sa = true <-> exists e, e ∈ l /\ in_network e sa) /\
      (forall b p p' scope, length b = 4%nat -> Forall is_byte b ->
        kl_cidr_match l (kl_sockaddr_from_ipv6 (replicate 10 0 ++ [255; 255] ++ b) p scope) =
        kl_cidr_match l (kl_sockaddr_from_ipv4 b p'))
  end.
Proof.
  pose proof (cidr_loop_ok (S (length s)) s cap [] ltac:(lia) ltac:(done) ltac:(simpl; lia)) as Hok.
  unfold kl_cidr_parse_list. destruct (cidr_loop _ s cap []) as [[l|]|]; [|done|done].
  destruct Hok as [Hwf Hlen]. split; [done|]. split.
  - intros sa Hsa. by apply match_iff.
  - intros b p p' scope Hl Hb. by apply mapped_match.
Qed.

End trust.

(** A platform that knows two addresses. *)
Definition table_pton : InetPton :=
  {| inet_pton4 s := if span_eqb s (bytes "10.0.0.0") then Some [10; 0; 0; 0] else None;
     inet_pton6 s := if span_eqb s (bytes "::1") then Some (replicate 15 0 ++ [1]) else None |}.

Lemma table_laws : @InetPtonLaws table_pton.
Proof.
  split; simpl; intros s b; case_if; try done; intros [= <-]; (split; [done|]); by apply bytes_ok.
Qed.

Example trusted_peer :
  @kl_cidr_parse_list table_pton (bytes "::1, 10.0.0.0/8") 4 =
    Some (Some [mkCidr KL_AF_INET6 (replicate 15 0 ++ [1]) 128; mkCidr KL_AF_INET (10 :: replicate 15 0) 8]) /\
  kl_cidr_match [mkCidr KL_AF_INET (10 :: replicate 15 0) 8] (kl_sockaddr_from_ipv4 [10; 1; 2; 3] 80) = true /\
  kl_cidr_match [mkCidr KL_AF_INET (10 :: replicate 15 0) 8] (kl_sockaddr_from_ipv4 [11; 1; 2; 3] 80) = false.
Proof. vm_compute. done. Qed.

Lemma cidr_trust_spec_witness :
  match @kl_cidr_parse_list table_pton (bytes "::1, 10.0.0.0/8") 4 with
  | None => False
  | Some None => True
  | Some (Some l) =>
      (length l <= 4)%nat /\
      (forall sa, wf sa -> kl_cidr_match l sa = true <-> exists e, e ∈ l /\ in_network e sa) /\
      (forall b p p' scope, length b = 4%nat -> Forall is_byte b ->
        kl_cidr_match l (kl_sockaddr_from_ipv6 (replicate 10 0 ++ [255; 255] ++ b) p scope) =
        kl_cidr_match l (kl_sockaddr_from_ipv4 b p'))
  end.
Proof. exact (@cidr_trust_spec table_pton table_laws (bytes "::1, 10.0.0.0/8") 4). Defined.

End Proxy.
