(* ===== verification/Slots.v ===== *)
(** * Packet-slot storage of the datagram transport (src/src/datagram_slots.c, datagram_slots.h)

    The pool of outbound packet slots carved out of one allocation, with its free-list, and the
    single inbound slot.  A pointer into the block is its offset; a [KlDgramSlot *] is the index of
    the slot in this pool, or a foreign pointer ([Foreign]).  The allocator is an argument: it only
    says whether a request succeeds.  [sizeof(KlDgramSlot)] depends on the platform and is an
    argument too; a [size_t] has 8 bytes. *)
From stdpp Require Import gmap.
From S2P Require Import Prelude CStr SockAddr.
Import CStr SockAddr.

Module Slots.

(** ** Overflow-checked size arithmetic *)

Definition sz_mul (a b : Z) : option Z :=
  if negb (a =? 0) && (SIZE_MAX / a <? b) then None else Some (u64 (a * b)).

Definition sz_add (a b : Z) : option Z :=
  if SIZE_MAX - b <? a then None else Some (u64 (a + b)).

Definition sz_align_up (x align : Z) : option Z :=
  let m := u64 (align - 1) in
  if SIZE_MAX - m <? x then None else Some (Z.land (u64 (x + m)) (u64 (Z.lnot m))).

(** ** Data *)

Record KlDgramSlot := mkSlot {
  peer : KlSockAddr;
  local : KlSockAddr;
  len : Z;
  cap : Z;
  tos : Z;
  flags : Z;
  recoverable : Z;
  gso_ext : Z;
  gso_head : Z;
  gso_last : Z;
  gso_mode : Z;
  gso_total : Z;
  gso_seg : Z;
  gso_owner : Z;
  in_use : bool;
  data : Z;
}.

Record KlDgramSlots := mkSlots {
  block : bool;          (* the block pointer is not NULL *)
  block_size : Z;
  out : list KlDgramSlot;
  slot_count : Z;
  out_cap : Z;
  freelist : list nat;
  free_n : nat;
}.

(** The zeroed object every failure leaves. *)
Definition zero_slots : KlDgramSlots := mkSlots false 0 [] 0 0 [] 0.

Inductive slot_ptr := Own (i : nat) | Foreign.

Section pool.
Context (sizeof_slot : Z) (malloc_ok : Z -> bool).

(** One round of the initialisation loop: slot [i] and its free-list entry. *)
Definition init_slot (pay cap_ : Z) (i : nat) : KlDgramSlot :=
  mkSlot zero_addr zero_addr 0 cap_ (-1) 0 0 0 0 0 0 0 0 0 false (u64 (pay + u64 (Z.of_nat i * cap_))).

(** The sizes of the sections: metadata and whole block. *)
Definition block_layout (slot_count_ out_cap_ : Z) : option (Z * Z) :=
  slots_bytes ← sz_mul slot_count_ sizeof_slot;
  free_bytes ← sz_mul slot_count_ 8;
  outpay_bytes ← sz_mul slot_count_ out_cap_;
  slots_bytes ← sz_align_up slots_bytes 8;
  meta_bytes ← sz_add slots_bytes free_bytes;
  total ← sz_add meta_bytes outpay_bytes;
  Some (meta_bytes, total).

(** The object and whether the call returned 0. *)
Definition kl_dgram_slots_init (slot_count_ out_cap_ : Z) : KlDgramSlots * bool :=
  if (slot_count_ =? 0) || (out_cap_ =? 0) then (zero_slots, false)
  else match block_layout slot_count_ out_cap_ with
       | None => (zero_slots, false)
       | Some (meta_bytes, total) =>
           if negb (malloc_ok total) then (zero_slots, false)
           else
             let n := Z.to_nat slot_count_ in
             (mkSlots true total (init_slot meta_bytes out_cap_ <$> seq 0 n) slot_count_ out_cap_
                ((fun i => n - 1 - i)%nat <$> seq 0 n) n, true)
       end.

(** The object and the size handed to the allocator's free, if any. *)
Definition kl_dgram_slots_free (s : KlDgramSlots) : KlDgramSlots * option Z :=
  (zero_slots, if block s then Some (block_size s) else None).

Definition reset_slot (slot : KlDgramSlot) : KlDgramSlot :=
  mkSlot zero_addr zero_addr 0 (cap slot) (-1) 0 0 0 0 0 0 0 0 0 true (data slot).

(** [None] is NULL.  An index outside the arrays would be undefined behaviour; [default] and
    [alter] never meet one in a well-formed pool. *)
Definition kl_dgram_slots_acquire (s : KlDgramSlots) : KlDgramSlots * option nat :=
  if (free_n s =? 0)%nat then (s, None)
  else
    let n := (free_n s - 1)%nat in
    let idx := default 0%nat (freelist s !! n) in
    (mkSlots (block s) (block_size s) (alter reset_slot idx (out s)) (slot_count s) (out_cap s) (freelist s) n,
     Some idx).

Definition clear_in_use (slot : KlDgramSlot) : KlDgramSlot :=
  mkSlot (peer slot) (local slot) (len slot) (cap slot) (tos slot) (flags slot) (recoverable slot)
    (gso_ext slot) (gso_head slot) (gso_last slot) (gso_mode slot) (gso_total slot) (gso_seg slot)
    (gso_owner slot) false (data slot).

(** The scan of the slot array for the pointer: its index, or [slot_count]. *)
Definition find_slot (s : KlDgramSlots) (p : slot_ptr) : nat :=
  let n := Z.to_nat (slot_count s) in
  default n (List.find (fun i => match p with Own j => (i =? j)%nat | Foreign => false end) (seq 0 n)).

Definition kl_dgram_slots_release (s : KlDgramSlots) (p : slot_ptr) : KlDgramSlots :=
  let idx := find_slot s p in
  if (idx =? Z.to_nat (slot_count s))%nat then s
  else match out s !! idx with
       | None => s
       | Some slot =>
           if negb (in_use slot) then s
           else if (Z.to_nat (slot_count s) <=? free_n s)%nat then s
           else mkSlots (block s) (block_size s) (alter clear_in_use idx (out s)) (slot_count s) (out_cap s)
                  (<[free_n s := idx]> (freelist s)) (S (free_n s))
       end.

Definition kl_dgram_slots_free_count (s : KlDgramSlots) : nat := free_n s.

(** ** The inbound slot *)

Record KlDgramInbound := mkInbound { in_block : bool; in_block_size : Z; slot : KlDgramSlot }.

Definition zero_slot : KlDgramSlot := mkSlot zero_addr zero_addr 0 0 0 0 0 0 0 0 0 0 0 0 false 0.

Definition kl_dgram_inbound_init (cap_ : Z) : KlDgramInbound * bool :=
  if (cap_ =? 0) then (mkInbound false 0 zero_slot, false)
  else if negb (malloc_ok cap_) then (mkInbound false 0 zero_slot, false)
  else (mkInbound true cap_ (mkSlot zero_addr zero_addr 0 cap_ (-1) 0 0 0 0 0 0 0 0 0 false 0), true).

Definition kl_dgram_inbound_free (i : KlDgramInbound) : KlDgramInbound * option Z :=
  (mkInbound false 0 zero_slot, if in_block i then Some (in_block_size i) else None).

End pool.

(** ** Size arithmetic is exact *)

Lemma sz_mul_eq a b : 0 <= a <= SIZE_MAX -> 0 <= b ->
  sz_mul a b = if a * b <=? SIZE_MAX then Some (a * b) else None.
Proof.
  intros Ha Hb. unfold sz_mul. destruct (Z.eqb_spec a 0) as [->|Hn]; cbn [negb andb].
  { by destruct (Z.leb_spec (0 * b) SIZE_MAX); [|lia]. }
  pose proof (Z.mul_div_le SIZE_MAX a). pose proof (Z.div_le_lower_bound SIZE_MAX a b).
  destruct (Z.ltb_spec (SIZE_MAX / a) b), (Z.leb_spec (a * b) SIZE_MAX); try done; [lia| |nia].
  by rewrite u64_small by nia.
Qed.

Lemma sz_add_eq a b : 0 <= a -> 0 <= b <= SIZE_MAX ->
  sz_add a b = if a + b <=? SIZE_MAX then Some (a + b) else None.
Proof.
  intros Ha Hb. unfold sz_add. destruct (Z.ltb_spec (SIZE_MAX - b) a), (Z.leb_spec (a + b) SIZE_MAX); try done; try lia.
  by rewrite u64_small by lia.
Qed.

Lemma land_round y : 0 <= y <= SIZE_MAX -> Z.land y (u64 (Z.lnot 7)) = 8 * (y / 8).
Proof.
  intros Hy. change (u64 (Z.lnot 7)) with (Z.shiftl (Z.ones 61) 3).
  replace (8 * (y / 8)) with (Z.shiftl (Z.shiftr y 3) 3)
    by (rewrite Z.shiftl_mul_pow2, Z.shiftr_div_pow2 by lia; change (2 ^ 3) with 8; lia).
  apply Z.bits_inj'. intros n Hn. rewrite Z.land_spec, !Z.shiftl_spec by lia.
  destruct (Z.ltb_spec n 3).
  - rewrite !(Z.testbit_neg_r _ (n - 3)) by lia. apply andb_false_r.
  - rewrite Z.shiftr_spec, Z.sub_add, Z.testbit_ones_nonneg by lia. destruct (Z.ltb_spec (n - 3) 61); [apply andb_true_r|].
    rewrite andb_false_r. rewrite <- (Z.mod_small y (2 ^ 64)) by lia.
    by rewrite Z.mod_pow2_bits_high by lia.
Qed.

Definition round8 (x : Z) : Z := 8 * ((x + 7) / 8).

Lemma round8_bounds x : x <= round8 x < x + 8.
Proof. unfold round8. pose proof (Z.div_mod (x + 7) 8). pose proof (Z.mod_pos_bound (x + 7) 8). lia. Qed.

Lemma sz_align_up_eq x : 0 <= x ->
  sz_align_up x 8 = if x + 7 <=? SIZE_MAX then Some (round8 x) else None.
Proof.
  intros Hx. unfold sz_align_up. change (u64 (8 - 1)) with 7.
  destruct (Z.ltb_spec (SIZE_MAX - 7) x), (Z.leb_spec (x + 7) SIZE_MAX); try done; try lia.
  by rewrite u64_small, land_round by lia.
Qed.

(** ** Layout of the block *)

Section layout.
Context (sizeof_slot : Z) (malloc_ok : Z -> bool) (Hsz : 0 < sizeof_slot).

(** Sizes of the metadata and of the whole block, in unbounded arithmetic. *)
Definition meta_size (n : Z) : Z := round8 (n * sizeof_slot) + 8 * n.
Definition total_size (n c : Z) : Z := meta_size n + n * c.

Lemma block_layout_spec n c : 0 < n <= SIZE_MAX -> 0 < c <= SIZE_MAX ->
  block_layout sizeof_slot n c =
  if total_size n c <=? SIZE_MAX then Some (meta_size n, total_size n c) else None.
Proof.
  intros Hn Hc. unfold block_layout, total_size, meta_size.
  pose proof (round8_bounds (n * sizeof_slot)) as Hr.
  assert (0 < n * sizeof_slot /\ 0 < n * c) as [Hs Hp] by nia.
  rewrite !sz_mul_eq, (Z.mul_comm n 8) by lia.
  destruct (Z.leb_spec (round8 (n * sizeof_slot) + 8 * n + n * c) SIZE_MAX) as [Ht|Ht].
  - do 3 rewrite (proj2 (Z.leb_le _ SIZE_MAX)) by lia. rewrite !bind_Some_l.
    rewrite sz_align_up_eq, (proj2 (Z.leb_le _ SIZE_MAX)), bind_Some_l by lia.
    by do 2 rewrite sz_add_eq, (proj2 (Z.leb_le _ SIZE_MAX)), bind_Some_l by lia.
  - destruct (Z.leb_spec (n * sizeof_slot) SIZE_MAX); [rewrite bind_Some_l|done].
    destruct (Z.leb_spec (8 * n) SIZE_MAX); [rewrite bind_Some_l|done].
    destruct (Z.leb_spec (n * c) SIZE_MAX); [rewrite bind_Some_l|done].
    rewrite sz_align_up_eq by lia. case_if; [rewrite bind_Some_l; breflect|done].
    rewrite sz_add_eq by lia. case_if; [rewrite bind_Some_l; breflect|done].
    rewrite sz_add_eq by lia. case_if; [breflect; lia|done].
Qed.

(** ** Operations and reachable pools *)

(** What the owner of a slot may store in it: everything but the pool's own fields. *)
Definition write_slot (new slot : KlDgramSlot) : KlDgramSlot :=
  mkSlot (peer new) (local new) (len new) (cap slot) (tos new) (flags new) (recoverable new)
    (gso_ext new) (gso_head new) (gso_last new) (gso_mode new) (gso_total new) (gso_seg new)
    (gso_owner new) (in_use slot) (data slot).

Inductive pool_op := OpAcquire | OpRelease (p : slot_ptr) | OpWrite (i : nat) (new : KlDgramSlot).

Definition with_out (s : KlDgramSlots) (o : list KlDgramSlot) : KlDgramSlots :=
  mkSlots (block s) (block_size s) o (slot_count s) (out_cap s) (freelist s) (free_n s).

Definition run_op (s : KlDgramSlots) (op : pool_op) : KlDgramSlots * option nat :=
  match op with
  | OpAcquire => kl_dgram_slots_acquire s
  | OpRelease p => (kl_dgram_slots_release s p, None)
  | OpWrite i new => (with_out s (alter (write_slot new) i (out s)), None)
  end.

Inductive reach (n c : Z) : KlDgramSlots -> Prop :=
| reach_init s : kl_dgram_slots_init sizeof_slot malloc_ok n c = (s, true) -> reach n c s
| reach_op s op : reach n c s -> reach n c (run_op s op).1.

(** ** The invariant *)

Definition slot_free (o : list KlDgramSlot) (i : nat) : bool :=
  match o !! i with Some sl => negb (in_use sl) | None => false end.

Definition free_idx (o : list KlDgramSlot) : list nat := List.filter (slot_free o) (seq 0 (length o)).

(** The indices of the slots in use: the abstract state of the pool. *)
Definition used (s : KlDgramSlots) : gset nat :=
  list_to_set (List.filter (fun i => negb (slot_free (out s) i)) (seq 0 (length (out s)))).

Record pool_inv (n c : Z) (s : KlDgramSlots) : Prop := {
  inv_count : slot_count s = n;
  inv_block : block_size s = total_size n c;
  inv_out : length (out s) = Z.to_nat n;
  inv_list : length (freelist s) = Z.to_nat n;
  inv_free : take (free_n s) (freelist s) ≡ₚ free_idx (out s);
  inv_free_n : (free_n s <= Z.to_nat n)%nat;
  inv_data i sl : out s !! i = Some sl -> cap sl = c /\ data sl = meta_size n + Z.of_nat i * c;
}.

Lemma free_idx_elem o i : i ∈ free_idx o <-> slot_free o i = true.
Proof.
  unfold free_idx. rewrite list_elem_of_In, List.filter_In, in_seq. split; [tauto|]. intros Hf.
  split; [|done]. unfold slot_free in Hf. destruct (o !! i) eqn:E; [|done].
  apply lookup_lt_Some in E. lia.
Qed.

Lemma free_idx_NoDup o : NoDup (free_idx o).
Proof. unfold free_idx. apply NoDup_ListNoDup, List.NoDup_filter, seq_NoDup. Qed.

Lemma free_idx_same o o' :
  length o = length o' -> (forall i, slot_free o i = slot_free o' i) -> free_idx o = free_idx o'.
Proof. intros Hl Hf. unfold free_idx. rewrite Hl. apply List.filter_ext. auto. Qed.

Lemma used_elem s i : i ∈ used s <-> exists sl, out s !! i = Some sl /\ in_use sl = true.
Proof.
  unfold used. rewrite elem_of_list_to_set, list_elem_of_In, List.filter_In, in_seq. unfold slot_free. split.
  - intros [Hi Hf]. destruct (out s !! i) as [sl|] eqn:E.
    + exists sl. split; [done|]. by destruct (in_use sl).
    + apply lookup_ge_None in E. lia.
  - intros (sl & He & Hu). rewrite He, Hu. apply lookup_lt_Some in He. split; [lia|done].
Qed.

Lemma slot_free_alter f o i j :
  slot_free (alter f i o) j =
  if decide (i = j) then match o !! j with Some sl => negb (in_use (f sl)) | None => false end else slot_free o j.
Proof.
  unfold slot_free. destruct (decide (i = j)) as [->|Hn].
  - rewrite list_lookup_alter_eq. by destruct (o !! j).
  - by rewrite list_lookup_alter_ne.
Qed.

Lemma lookup_alter_cases (f : KlDgramSlot -> KlDgramSlot) (i : nat) (o : list KlDgramSlot) (j : nat) y :
  alter f i o !! j = Some y -> exists z, o !! j = Some z /\ (y = z \/ y = f z).
Proof.
  destruct (decide (i = j)) as [->|Hn].
  - rewrite list_lookup_alter_eq. intros (z & Hz & ->)%fmap_Some. eauto.
  - rewrite list_lookup_alter_ne by done. eauto.
Qed.

Lemma inv_free_elem n c s i : pool_inv n c s -> i ∈ take (free_n s) (freelist s) <-> slot_free (out s) i = true.
Proof. intros Hi. rewrite (inv_free _ _ _ Hi). apply free_idx_elem. Qed.

Lemma inv_free_NoDup n c s : pool_inv n c s -> NoDup (take (free_n s) (freelist s)).
Proof. intros Hi. rewrite (inv_free _ _ _ Hi). apply free_idx_NoDup. Qed.

Lemma init_lookup pay c n i sl : (init_slot pay c <$> seq 0 n) !! i = Some sl -> (i < n)%nat /\ sl = init_slot pay c i.
Proof.
  rewrite list_lookup_fmap. intros (j & Hj & ->)%fmap_Some. apply lookup_seq in Hj as [-> Hj]. done.
Qed.

Lemma init_inv n c s : 0 <= n <= SIZE_MAX -> 0 <= c <= SIZE_MAX ->
  kl_dgram_slots_init sizeof_slot malloc_ok n c = (s, true) ->
  pool_inv n c s /\ 0 < n /\ 0 < c /\ total_size n c <= SIZE_MAX.
Proof.
  intros Hn Hc. unfold kl_dgram_slots_init. destruct (Z.eqb_spec n 0), (Z.eqb_spec c 0); try done. cbn [orb].
  rewrite block_layout_spec by lia. destruct (Z.leb_spec (total_size n c) SIZE_MAX) as [Ht|]; [|done].
  case_if; [done|]. intros [= <-]. split; [|lia].
  assert (Hm : 0 <= meta_size n).
  { unfold meta_size. pose proof (round8_bounds (n * sizeof_slot)). nia. }
  split; cbn [slot_count block_size out freelist free_n]; try done.
  - by rewrite length_fmap, length_seq.
  - by rewrite length_fmap, length_seq.
  - rewrite take_ge by (rewrite length_fmap, length_seq; done). apply NoDup_Permutation.
    + apply NoDup_fmap_2_strong; [|apply NoDup_ListNoDup, seq_NoDup].
      intros x y Hx Hy. apply elem_of_seq in Hx, Hy. lia.
    + apply free_idx_NoDup.
    + intros i. rewrite free_idx_elem, list_elem_of_fmap. unfold slot_free. rewrite list_lookup_fmap.
      split.
      * intros (j & -> & Hj%elem_of_seq). by rewrite lookup_seq_lt by lia.
      * intros Hi. destruct (seq 0 (Z.to_nat n) !! i) eqn:E; [|done]. apply lookup_seq in E as [_ E].
        exists (Z.to_nat n - 1 - i)%nat. split; [lia|]. apply elem_of_seq. lia.
  - intros i sl [Hi ->]%init_lookup. split; [done|]. cbn [data init_slot]. unfold total_size in Ht.
    assert (0 <= Z.of_nat i * c <= n * c) by nia. rewrite (u64_small (_ * c)), u64_small by lia. done.
Qed.

Lemma acquire_inv n c s : pool_inv n c s -> pool_inv n c (kl_dgram_slots_acquire s).1.
Proof.
  intros Hi. unfold kl_dgram_slots_acquire. destruct (Nat.eqb_spec (free_n s) 0) as [|Hne]; [done|].
  destruct (lookup_lt_is_Some_2 (freelist s) (free_n s - 1)) as [idx Hidx];
    [rewrite (inv_list _ _ _ Hi); pose proof (inv_free_n _ _ _ Hi); lia|]. rewrite Hidx. cbn [default from_option id fst].
  assert (Htake : take (free_n s) (freelist s) = take (free_n s - 1) (freelist s) ++ [idx]).
  { rewrite <- (take_S_r _ _ _ Hidx). f_equal. lia. }
  assert (Hnd := inv_free_NoDup _ _ _ Hi). rewrite Htake in Hnd. apply NoDup_app in Hnd as (Hnd & Hdis & _).
  split; cbn [slot_count block_size out freelist free_n].
  - apply Hi.
  - apply Hi.
  - rewrite length_alter. apply Hi.
  - apply Hi.
  - apply NoDup_Permutation; [done|apply free_idx_NoDup|]. intros i.
    rewrite free_idx_elem, slot_free_alter. pose proof (inv_free_elem _ _ _ i Hi) as He.
    rewrite Htake, elem_of_app, list_elem_of_singleton in He. case_decide as Hd.
    + subst i. split; [intros Hin; destruct (Hdis _ Hin); by apply list_elem_of_singleton|].
      by destruct (out s !! idx).
    + rewrite <- He. intuition congruence.
  - pose proof (inv_free_n _ _ _ Hi). lia.
  - intros i sl (y & Hy & [-> | ->])%lookup_alter_cases; by apply (inv_data _ _ _ Hi) in Hy.
Qed.

Lemma find_slot_eq s p :
  find_slot s p =
  match p with
  | Own j => if (j <? Z.to_nat (slot_count s))%nat then j else Z.to_nat (slot_count s)
  | Foreign => Z.to_nat (slot_count s)
  end.
Proof.
  unfold find_slot. set (n := Z.to_nat (slot_count s)). destruct p as [j|].
  - destruct (List.find (fun i => (i =? j)%nat) (seq 0 n)) as [k|] eqn:E; cbn [default from_option id].
    + apply List.find_some in E as [Hin He]. apply in_seq in Hin. apply Nat.eqb_eq in He as ->.
      by destruct (Nat.ltb_spec j n); [|lia].
    + destruct (Nat.ltb_spec j n) as [Hl|]; [|done]. exfalso.
      pose proof (List.find_none _ _ E j) as Hf. cbv beta in Hf. rewrite Nat.eqb_refl in Hf.
      discriminate Hf. apply in_seq. lia.
  - induction (seq 0 n); done.
Qed.

Lemma used_lt n c s i : pool_inv n c s -> i ∈ used s -> (i < Z.to_nat n)%nat.
Proof. intros Hi (sl & He & _)%used_elem. apply lookup_lt_Some in He. by rewrite (inv_out _ _ _ Hi) in He. Qed.

Lemma free_count_used n c s : pool_inv n c s -> (free_n s + size (used s) = Z.to_nat n)%nat.
Proof.
  intros Hi. unfold used. rewrite size_list_to_set by apply NoDup_ListNoDup, List.NoDup_filter, seq_NoDup.
  assert (Hlen : free_n s = length (free_idx (out s))).
  { rewrite <- (inv_free _ _ _ Hi), length_take, (inv_list _ _ _ Hi). pose proof (inv_free_n _ _ _ Hi). lia. }
  rewrite Hlen. unfold free_idx. rewrite (List.filter_length (slot_free (out s))), length_seq. apply Hi.
Qed.

Lemma used_room n c s i : pool_inv n c s -> i ∈ used s -> (free_n s < Z.to_nat n)%nat.
Proof.
  intros Hi Hin. pose proof (free_count_used n c s Hi). destruct (size (used s)) eqn:E; [|lia].
  apply size_empty_inv in E. apply (E i) in Hin. by apply elem_of_empty in Hin.
Qed.

Lemma release_cases n c s p : pool_inv n c s ->
  (kl_dgram_slots_release s p = s /\ match p with Own i => i ∉ used s | Foreign => True end) \/
  exists i sl, p = Own i /\ out s !! i = Some sl /\ in_use sl = true /\ (free_n s < Z.to_nat n)%nat /\
    kl_dgram_slots_release s p =
    mkSlots (block s) (block_size s) (alter clear_in_use i (out s)) (slot_count s) (out_cap s)
      (<[free_n s := i]> (freelist s)) (S (free_n s)).
Proof.
  intros Hi. unfold kl_dgram_slots_release. rewrite find_slot_eq, (inv_count _ _ _ Hi).
  destruct p as [i|]; [|by rewrite Nat.eqb_refl; left].
  destruct (Nat.ltb_spec i (Z.to_nat n)).
  2: { rewrite Nat.eqb_refl. left. split; [done|]. intros Hu%(used_lt n c); [lia|done]. }
  destruct (Nat.eqb_spec i (Z.to_nat n)); [lia|]. pose proof (used_elem s i) as Hu.
  destruct (out s !! i) as [sl|] eqn:E.
  2: { left. split; [done|]. intros (sl & Hsl & _)%Hu. done. }
  destruct (in_use sl) eqn:Eu; cbn [negb].
  2: { left. split; [done|]. intros (y & [= <-] & Hy)%Hu. congruence. }
  assert (Hroom : (free_n s < Z.to_nat n)%nat) by (apply (used_room n c s i Hi), Hu; eauto).
  right. exists i, sl. split_and!; try done. by destruct (Nat.leb_spec (Z.to_nat n) (free_n s)); [lia|].
Qed.

Lemma release_inv n c s p : pool_inv n c s -> pool_inv n c (kl_dgram_slots_release s p).
Proof.
  intros Hi. destruct (release_cases n c s p Hi) as [[-> _]|(i & sl & -> & Hsl & Hu & Hf & ->)]; [done|].
  assert (Htake : take (S (free_n s)) (<[free_n s := i]> (freelist s)) = take (free_n s) (freelist s) ++ [i]).
  { rewrite (take_S_r _ _ i) by (apply list_lookup_insert_eq; rewrite (inv_list _ _ _ Hi); lia).
    by rewrite take_insert_ge. }
  assert (Hnot : i ∉ take (free_n s) (freelist s)).
  { rewrite (inv_free_elem _ _ _ i Hi). unfold slot_free. by rewrite Hsl, Hu. }
  split; cbn [slot_count block_size out freelist free_n].
  - apply Hi.
  - apply Hi.
  - rewrite length_alter. apply Hi.
  - rewrite length_insert. apply Hi.
  - rewrite Htake. apply NoDup_Permutation; [|apply free_idx_NoDup|].
    + apply NoDup_app. split_and!; [by eapply inv_free_NoDup| |apply NoDup_singleton].
      intros x Hx ->%list_elem_of_singleton. done.
    + intros x. rewrite elem_of_app, list_elem_of_singleton, free_idx_elem, slot_free_alter.
      rewrite (inv_free_elem _ _ _ x Hi). case_decide as Hd; [|intuition congruence].
      subst x. rewrite Hsl. split; [done|by right].
  - lia.
  - intros j y (z & Hz & [-> | ->])%lookup_alter_cases; by apply (inv_data _ _ _ Hi) in Hz.
Qed.

Lemma write_inv n c s i new : pool_inv n c s -> pool_inv n c (run_op s (OpWrite i new)).1.
Proof.
  intros Hi. split; cbn [slot_count block_size out freelist free_n run_op fst with_out]; try apply Hi.
  - rewrite length_alter. apply Hi.
  - rewrite (inv_free _ _ _ Hi). erewrite free_idx_same; [done|by rewrite length_alter|].
    intros j. rewrite slot_free_alter. unfold slot_free. case_decide; [|done]. by destruct (out s !! j).
  - intros j y (z & Hz & [-> | ->])%lookup_alter_cases; by apply (inv_data _ _ _ Hi) in Hz.
Qed.

Lemma reach_inv n c s : 0 <= n <= SIZE_MAX -> 0 <= c <= SIZE_MAX -> reach n c s ->
  pool_inv n c s /\ 0 < n /\ 0 < c /\ total_size n c <= SIZE_MAX.
Proof.
  intros Hn Hc. induction 1 as [s Hs|s op _ (IH & Hnc)]; [by apply init_inv|]. split; [|done].
  destruct op; [by apply acquire_inv|by apply release_inv|by apply write_inv].
Qed.

(** ** The abstract pool: the set of slots in use *)

(** What an operation may answer and do to the set of slots in use. *)
Definition pool_spec (n : nat) (U : gset nat) (op : pool_op) (r : option nat) (U' : gset nat) : Prop :=
  match op with
  | OpAcquire =>
      match r with
      | None => U' = U /\ forall i, (i < n)%nat -> i ∈ U
      | Some i => (i < n)%nat /\ (i ∉ U) /\ U' = {[i]} ∪ U
      end
  | OpRelease (Own i) => r = None /\ U' = U ∖ {[i]}
  | OpRelease Foreign | OpWrite _ _ => r = None /\ U' = U
  end.

Lemma used_alter s o i f : o = alter f i (out s) ->
  forall j, j ∈ used (with_out s o) <->
    if decide (i = j) then exists sl, out s !! j = Some sl /\ in_use (f sl) = true else j ∈ used s.
Proof.
  intros -> j. rewrite used_elem. cbn [with_out out]. case_decide as Hd.
  - subst. rewrite list_lookup_alter_eq. split.
    + intros (sl & (z & Hz & ->)%fmap_Some & Hu). eauto.
    + intros (sl & Hsl & Hu). rewrite Hsl. eauto.
  - rewrite list_lookup_alter_ne by done. by rewrite used_elem.
Qed.

Lemma used_out s s' : out s = out s' -> used s = used s'.
Proof. unfold used. by intros ->. Qed.

Lemma acquire_spec n c s : pool_inv n c s ->
  pool_spec (Z.to_nat n) (used s) OpAcquire (kl_dgram_slots_acquire s).2 (used (kl_dgram_slots_acquire s).1).
Proof.
  intros Hi. unfold kl_dgram_slots_acquire. destruct (Nat.eqb_spec (free_n s) 0) as [Hz|Hne]; cbn [fst snd pool_spec].
  - split; [done|]. intros i Hlt. apply used_elem. rewrite <- (inv_out _ _ _ Hi) in Hlt.
    apply lookup_lt_is_Some_2 in Hlt as [sl Hsl]. exists sl. split; [done|]. destruct (in_use sl) eqn:E; [done|].
    pose proof (inv_free_elem _ _ _ i Hi) as He. rewrite Hz in He. unfold slot_free in He. rewrite Hsl, E in He.
    exfalso. apply (not_elem_of_nil i), He. done.
  - destruct (lookup_lt_is_Some_2 (freelist s) (free_n s - 1)) as [idx Hidx];
      [rewrite (inv_list _ _ _ Hi); pose proof (inv_free_n _ _ _ Hi); lia|]. rewrite Hidx. cbn [default from_option id].
    assert (Hf : slot_free (out s) idx = true).
    { apply (inv_free_elem _ _ _ idx Hi). apply list_elem_of_lookup. exists (free_n s - 1)%nat.
      by rewrite lookup_take_lt by lia. }
    unfold slot_free in Hf. destruct (out s !! idx) as [sl|] eqn:Esl; [|done].
    split_and!.
    + apply lookup_lt_Some in Esl. by rewrite (inv_out _ _ _ Hi) in Esl.
    + rewrite used_elem, Esl. intros (y & [= ->] & Hu). by rewrite Hu in Hf.
    + rewrite (used_out _ (with_out s (alter reset_slot idx (out s)))) by done.
      apply set_eq. intros j. rewrite (used_alter _ _ idx reset_slot) by done.
      rewrite elem_of_union, elem_of_singleton. case_decide as Hd; [|intuition congruence].
      subst j. split; [by left|]. intros _. by exists sl.
Qed.

Lemma release_spec n c s p : pool_inv n c s ->
  pool_spec (Z.to_nat n) (used s) (OpRelease p) None (used (kl_dgram_slots_release s p)).
Proof.
  intros Hi. destruct (release_cases n c s p Hi) as [[-> Hp]|(i & sl & -> & Hsl & Hu & Hf & ->)].
  - destruct p as [i|]; [|done]. split; [done|]. set_solver.
  - split; [done|]. rewrite (used_out _ (with_out s (alter clear_in_use i (out s)))) by done.
    apply set_eq. intros j. rewrite (used_alter _ _ i clear_in_use) by done.
    rewrite elem_of_difference, elem_of_singleton. case_decide as Hd; [|intuition congruence].
    subst j. split; [by intros (y & _ & ?)|tauto].
Qed.

Lemma slot_write_spec n s i new : pool_spec n (used s) (OpWrite i new) None (used (run_op s (OpWrite i new)).1).
Proof.
  split; [done|]. cbn [run_op fst]. apply set_eq. intros j. rewrite (used_alter _ _ i (write_slot new)) by done.
  case_decide; [|done]. cbn [write_slot in_use]. by rewrite used_elem.
Qed.

(** C28.  The packet pool refines the set of its slots in use.  In every pool reached from a
    successful initialisation, an acquire hands out a slot that nobody holds, and answers NULL only
    when all slots are in use; a release gives back exactly the slot named, and is a no-op for a
    foreign pointer or a slot already free; storing into a slot changes neither; and the free count
    is the number of slots not in use.  The defensive test of a full free-list never fires. *)
Theorem slots_refine (n c : Z) (s : KlDgramSlots) (op : pool_op)
    (Hn : 0 <= n <= SIZE_MAX) (Hc : 0 <= c <= SIZE_MAX) (Hs : reach n c s) :
  pool_spec (Z.to_nat n) (used s) op (run_op s op).2 (used (run_op s op).1) /\
  (kl_dgram_slots_free_count s + size (used s) = Z.to_nat n)%nat.
Proof.
  apply reach_inv in Hs as (Hi & _); [|done..]. split; [|by eapply free_count_used].
  destruct op as [|p|i new]; [by eapply acquire_spec|by eapply release_spec|by apply slot_write_spec].
Qed.

(** Initialisation of the packet pool.  It succeeds exactly when both counts are positive, the
    size of the block, computed without wrap-around, fits a [size_t], and the allocator grants it;
    otherwise the object is left zeroed.  In every pool reached afterwards the payload of each slot
    lies behind the metadata, inside the block, and the payloads of two slots never overlap. *)
Lemma slots_layout (n c : Z) (Hn : 0 <= n <= SIZE_MAX) (Hc : 0 <= c <= SIZE_MAX) :
  ((kl_dgram_slots_init sizeof_slot malloc_ok n c).2 = true <->
    0 < n /\ 0 < c /\ total_size n c <= SIZE_MAX /\ malloc_ok (total_size n c) = true) /\
  ((kl_dgram_slots_init sizeof_slot malloc_ok n c).2 = false ->
    (kl_dgram_slots_init sizeof_slot malloc_ok n c).1 = zero_slots) /\
  (forall s i sl, reach n c s -> out s !! i = Some sl ->
    n * sizeof_slot + 8 * n <= data sl /\ data sl + cap sl <= block_size s /\
    forall j sl', out s !! j = Some sl' -> i <> j ->
      data sl + cap sl <= data sl' \/ data sl' + cap sl' <= data sl).
Proof.
  split; [|split].
  - unfold kl_dgram_slots_init. destruct (Z.eqb_spec n 0), (Z.eqb_spec c 0); cbn [orb snd]; try (split; [done|lia]).
    rewrite block_layout_spec by lia. destruct (Z.leb_spec (total_size n c) SIZE_MAX); [|split; [done|lia]].
    destruct (malloc_ok (total_size n c)); cbn [negb snd]; (split; [|tauto]); [lia|done].
  - unfold kl_dgram_slots_init. case_if; [done|]. destruct (block_layout _ _ _) as [[m t]|]; [|done]. by case_if.
  - intros s i sl Hs Hsl. apply reach_inv in Hs as (Hi & ? & ? & ?); [|done..].
    pose proof (inv_data _ _ _ Hi _ _ Hsl) as [-> ->]. pose proof (round8_bounds (n * sizeof_slot)).
    pose proof (lookup_lt_Some _ _ _ Hsl) as Hlt. rewrite (inv_out _ _ _ Hi) in Hlt.
    rewrite (inv_block _ _ _ Hi). unfold total_size, meta_size in *. split_and!; [nia|nia|].
    intros j sl' Hsl' Hne. pose proof (inv_data _ _ _ Hi _ _ Hsl') as [-> ->]. unfold meta_size. nia.
Qed.

End layout.

Definition demo_pool : KlDgramSlots := (kl_dgram_slots_init 440 (fun _ => true) 2 1500).1.

Lemma slots_refine_witness :
  pool_spec 2 (used (run_op demo_pool OpAcquire).1) OpAcquire (Some 1%nat)
    (used (run_op (run_op demo_pool OpAcquire).1 OpAcquire).1) /\
  (1 + size (used (run_op demo_pool OpAcquire).1) = 2)%nat.
Proof.
  apply (slots_refine 440 (fun _ => true) ltac:(lia) 2 1500 (run_op demo_pool OpAcquire).1 OpAcquire); [lia|lia|].
  apply reach_op, reach_init. reflexivity.
Defined.

End Slots.
