(* ===== verification/Multipart.v ===== *)
(** * Streaming multipart/form-data reader (src/src/protocols/http/http_body_reader_multipart.c)

    The push/pull parser: [mp_on_data] appends received bytes to an input buffer, and
    [kl_http_multipart_next] consumes it, one event per call.  A buffer is the list of its valid
    bytes, with its capacity beside it; the borrowed slice of a PART_DATA event is its contents at
    the time of the call.  The allocator is an oracle: [alloc_ok k] says whether the [k]-th request
    made by the reader is granted, and [allocs] counts the requests.

    This file holds the model, the header parser's lemmas, and the invariants that hold for every
    configuration and allocator; MultipartStream.v has the functional specification. *)
From S2P Require Import Prelude CStr.
Import CStr.

Module Multipart.

(** ** Data *)

Inductive KlHttpMultipartParserState :=
| KL_HTTP_MP_S_PREAMBLE | KL_HTTP_MP_S_AFTER_BOUNDARY | KL_HTTP_MP_S_HEADERS
| KL_HTTP_MP_S_BODY | KL_HTTP_MP_S_DONE | KL_HTTP_MP_S_ERROR.

#[global] Instance KlHttpMultipartParserState_eq_dec : EqDecision KlHttpMultipartParserState.
Proof. solve_decision. Defined.

Inductive KlHttpMultipartErrorCode :=
| KL_HTTP_MP_ERR_NONE | KL_HTTP_MP_ERR_MALFORMED | KL_HTTP_MP_ERR_PART_TOO_LARGE
| KL_HTTP_MP_ERR_TOTAL_TOO_LARGE | KL_HTTP_MP_ERR_TOO_MANY_PARTS | KL_HTTP_MP_ERR_HEADERS_TOO_LARGE
| KL_HTTP_MP_ERR_INPUT_OVERFLOW | KL_HTTP_MP_ERR_PREMATURE_EOF | KL_HTTP_MP_ERR_NOMEM.

#[global] Instance KlHttpMultipartErrorCode_eq_dec : EqDecision KlHttpMultipartErrorCode.
Proof. solve_decision. Defined.

Definition KL_HTTP_MP_MAX_BOUNDARY : nat := 70.

Record KlHttpMultipartConfig := mkConfig {
  max_part_size : Z;
  max_total_size : Z;
  max_parts : Z;
  max_headers_size : Z;
  max_input_buffer : Z;
}.

(** [None] is a NULL string. *)
Record KlHttpMultipartPartMeta := mkMeta {
  m_name : option (list Z);
  m_filename : option (list Z);
  m_content_type : option (list Z);
}.

Inductive KlHttpMultipartEvent :=
| KL_HTTP_MP_EVT_PART_BEGIN (meta : KlHttpMultipartPartMeta)
| KL_HTTP_MP_EVT_PART_DATA (data : list Z)
| KL_HTTP_MP_EVT_PART_END
| KL_HTTP_MP_EVT_DONE
| KL_HTTP_MP_EVT_NEED_DATA
| KL_HTTP_MP_EVT_ERROR.

Record KlHttpMultipartReader := mkReader {
  delimiter : list Z;
  config : KlHttpMultipartConfig;
  state : KlHttpMultipartParserState;
  last_error : KlHttpMultipartErrorCode;
  input : list Z;
  input_cap : Z;
  input_consumed : nat;
  stream_ended : bool;
  total_received : Z;
  current_part_size : Z;
  parts_begun : Z;
  hdr : list Z;
  hdr_cap : Z;
  cur : KlHttpMultipartPartMeta;
  allocs : nat;
}.

Definition input_len (r : KlHttpMultipartReader) : Z := strlen (input r).
Definition hdr_len (r : KlHttpMultipartReader) : Z := strlen (hdr r).

(** Field updates. *)
Definition set_state st r := mkReader (delimiter r) (config r) st (last_error r) (input r) (input_cap r)
  (input_consumed r) (stream_ended r) (total_received r) (current_part_size r) (parts_begun r) (hdr r) (hdr_cap r) (cur r) (allocs r).
Definition set_error e r := mkReader (delimiter r) (config r) (state r) e (input r) (input_cap r)
  (input_consumed r) (stream_ended r) (total_received r) (current_part_size r) (parts_begun r) (hdr r) (hdr_cap r) (cur r) (allocs r).
Definition set_input i r := mkReader (delimiter r) (config r) (state r) (last_error r) i (input_cap r)
  (input_consumed r) (stream_ended r) (total_received r) (current_part_size r) (parts_begun r) (hdr r) (hdr_cap r) (cur r) (allocs r).
Definition set_consumed n r := mkReader (delimiter r) (config r) (state r) (last_error r) (input r) (input_cap r)
  n (stream_ended r) (total_received r) (current_part_size r) (parts_begun r) (hdr r) (hdr_cap r) (cur r) (allocs r).
Definition set_ended r := mkReader (delimiter r) (config r) (state r) (last_error r) (input r) (input_cap r)
  (input_consumed r) true (total_received r) (current_part_size r) (parts_begun r) (hdr r) (hdr_cap r) (cur r) (allocs r).
Definition set_total n r := mkReader (delimiter r) (config r) (state r) (last_error r) (input r) (input_cap r)
  (input_consumed r) (stream_ended r) n (current_part_size r) (parts_begun r) (hdr r) (hdr_cap r) (cur r) (allocs r).
Definition set_part_size n r := mkReader (delimiter r) (config r) (state r) (last_error r) (input r) (input_cap r)
  (input_consumed r) (stream_ended r) (total_received r) n (parts_begun r) (hdr r) (hdr_cap r) (cur r) (allocs r).
Definition set_parts n r := mkReader (delimiter r) (config r) (state r) (last_error r) (input r) (input_cap r)
  (input_consumed r) (stream_ended r) (total_received r) (current_part_size r) n (hdr r) (hdr_cap r) (cur r) (allocs r).
Definition set_hdr h r := mkReader (delimiter r) (config r) (state r) (last_error r) (input r) (input_cap r)
  (input_consumed r) (stream_ended r) (total_received r) (current_part_size r) (parts_begun r) h (hdr_cap r) (cur r) (allocs r).
Definition set_caps icap hcap n r := mkReader (delimiter r) (config r) (state r) (last_error r) (input r) icap
  (input_consumed r) (stream_ended r) (total_received r) (current_part_size r) (parts_begun r) (hdr r) hcap (cur r) n.
Definition set_cur m n r := mkReader (delimiter r) (config r) (state r) (last_error r) (input r) (input_cap r)
  (input_consumed r) (stream_ended r) (total_received r) (current_part_size r) (parts_begun r) (hdr r) (hdr_cap r) m n.

(** ** Helpers *)

(** The offset of the first occurrence; [None] is NULL. *)
Fixpoint mp_memmem (hay needle : list Z) : option nat :=
  if span_eqb (take (length needle) hay) needle then Some 0%nat
  else match hay with
       | [] => None
       | _ :: hay' => S <$> mp_memmem hay' needle
       end.

(** The offset of the closing quote; [None] is NULL. *)
Fixpoint mp_quote_close (p : list Z) : option nat :=
  match p with
  | [] => None
  | c :: p' =>
      if c =? 92 then
        match p' with
        | [] => None
        | _ :: p'' => (fun k => S (S k)) <$> mp_quote_close p''
        end
      else if c =? 34 then Some 0%nat
      else S <$> mp_quote_close p'
  end.

Definition param_sep (c : Z) : bool := (c =? c_semi) || (c =? c_SP) || (c =? c_HTAB).

(** The search loop from index [i]; the outer [None] is out of fuel, the inner one NULL. *)
Fixpoint find_param_loop (fuel : nat) (val needle : list Z) (i : nat) : option (option (list Z)) :=
  match fuel with
  | O => None
  | S fuel' =>
      if (length val - length needle <? i)%nat then Some None
      else if (deref (drop i val) =? 34) then
        match mp_quote_close (drop (i + 1) val) with
        | None => Some None
        | Some k => find_param_loop fuel' val needle (i + 1 + k + 1)
        end
      else if (0 <? i)%nat && negb (param_sep (deref (drop (i - 1) val))) then
        find_param_loop fuel' val needle (S i)
      else if kl_ascii_strncasecmp (drop i val) needle (length needle) =? 0 then
        Some (Some (drop (i + length needle) val))
      else find_param_loop fuel' val needle (S i)
  end.

(** The text after the '='; [None] is NULL. *)
Definition mp_find_param (val needle : list Z) : option (option (list Z)) :=
  if (length needle =? 0)%nat || (length val <? length needle)%nat then Some None
  else find_param_loop (S (S (length val))) val needle 0.

Definition mp_has_ctl (s : list Z) : bool := existsb (fun c => (c <? 32) || (c =? 127)) s.

Fixpoint grow_cap (fuel : nat) (new_cap need : Z) : option Z :=
  match fuel with
  | O => None
  | S fuel' =>
      if new_cap <? need then
        if SIZE_MAX / 2 <? new_cap then Some need else grow_cap fuel' (new_cap * 2) need
      else Some new_cap
  end.

(** [memchr (s, c, n)] as an offset. *)
Fixpoint mem_chr (s : list Z) (c : Z) : option nat :=
  match s with
  | [] => None
  | x :: s' => if x =? c then Some 0%nat else S <$> mem_chr s' c
  end.

(** The loops that drop trailing blanks. *)
Fixpoint strip_lws (s : list Z) : list Z :=
  match s with
  | [] => []
  | c :: s' =>
      match strip_lws s' with
      | [] => if (c =? c_SP) || (c =? c_HTAB) then [] else [c]
      | t => c :: t
      end
  end.

Section reader.
Context (alloc_ok : nat -> bool).

(** A copy of [s], made by allocation number [k]; [None] is NULL. *)
Definition mp_strdup (k : nat) (s : list Z) : option (list Z) :=
  if SIZE_MAX - 1 <? strlen s then None else if alloc_ok k then Some s else None.

(** The new capacity and whether an allocation was made; the outer [None] is out of fuel, the inner
    one the return value -1. *)
Definition mp_grow_buf (cap cur_len additional cap_limit : Z) (k : nat) : option (option Z * nat) :=
  if SIZE_MAX - cur_len <? additional then Some (None, k)
  else
    let need := cur_len + additional in
    if (0 <? cap_limit) && (cap_limit <? need) then Some (None, k)
    else if need <=? cap then Some (Some cap, k)
    else
      new_cap ← (if cap =? 0 then Some need else grow_cap 65 cap need);
      let new_cap := if (0 <? cap_limit) && (cap_limit <? new_cap) then cap_limit else new_cap in
      if new_cap <? need then Some (None, k)
      else Some (if alloc_ok k then Some new_cap else None, S k).

(** The reader after a reserve, and whether it returned 0. *)
Definition mp_input_reserve (r : KlHttpMultipartReader) (additional : Z) : option (KlHttpMultipartReader * bool) :=
  '(c, k) ← mp_grow_buf (input_cap r) (input_len r) additional (max_input_buffer (config r)) (allocs r);
  Some (match c with
        | Some cap => (set_caps cap (hdr_cap r) k r, true)
        | None => (set_caps (input_cap r) (hdr_cap r) k r, false)
        end).

Definition mp_hdr_reserve (r : KlHttpMultipartReader) (additional : Z) : option (KlHttpMultipartReader * bool) :=
  '(c, k) ← mp_grow_buf (hdr_cap r) (hdr_len r) additional (max_headers_size (config r)) (allocs r);
  Some (match c with
        | Some cap => (set_caps (input_cap r) cap k r, true)
        | None => (set_caps (input_cap r) (hdr_cap r) k r, false)
        end).

Definition mp_apply_consume (r : KlHttpMultipartReader) : KlHttpMultipartReader :=
  if (input_consumed r =? 0)%nat then r
  else set_consumed 0 (if (length (input r) <=? input_consumed r)%nat then set_input [] r
                       else set_input (drop (input_consumed r) (input r)) r).

(** ** Header parsing *)

(** The return values of the header parsers; [RC_NOMEM] is -1 with [last_error] set to NOMEM. *)
Inductive mp_rc := RC_OK | RC_BAD | RC_NOMEM.

(** The value of a parameter, quoted or up to the next ';'; [None] for an unterminated quote. *)
Definition param_value (p : list Z) : option (list Z) :=
  match p with
  | c :: p' =>
      if c =? 34 then k ← mp_quote_close p'; Some (take k p')
      else Some (strip_lws (match mem_chr p c_semi with Some k => take k p | None => p end))
  | [] => Some []
  end.

Definition mp_parse_disposition (m : KlHttpMultipartPartMeta) (k : nat) (val : list Z)
    : option (mp_rc * KlHttpMultipartPartMeta * nat) :=
  let m := mkMeta None None (m_content_type m) in
  np ← mp_find_param val (bytes "name=");
  match np with
  | None => Some (RC_BAD, m, k)
  | Some np =>
      match param_value np with
      | None => Some (RC_BAD, m, k)
      | Some name =>
          if strlen name =? 0 then Some (RC_BAD, m, k)
          else if mp_has_ctl name then Some (RC_BAD, m, k)
          else match mp_strdup k name with
               | None => Some (RC_NOMEM, m, S k)
               | Some name =>
                   let m := mkMeta (Some name) None (m_content_type m) in
                   fp ← mp_find_param val (bytes "filename=");
                   match fp with
                   | None => Some (RC_OK, m, S k)
                   | Some fp =>
                       match param_value fp with
                       | None => Some (RC_BAD, m, S k)
                       | Some fn =>
                           if mp_has_ctl fn then Some (RC_BAD, m, S k)
                           else match mp_strdup (S k) fn with
                                | None => Some (RC_NOMEM, m, S (S k))
                                | Some fn => Some (RC_OK, mkMeta (m_name m) (Some fn) (m_content_type m), S (S k))
                                end
                       end
                   end
               end
      end
  end.

Fixpoint skip_sp (s : list Z) : list Z :=
  match s with
  | c :: s' => if c =? c_SP then skip_sp s' else s
  | [] => []
  end.

(** One header line: the return value of the branch taken, [true] for a Content-Disposition. *)
Definition header_line (m : KlHttpMultipartPartMeta) (k : nat) (line : list Z)
    : option (mp_rc * KlHttpMultipartPartMeta * nat * bool) :=
  match mem_chr line c_colon with
  | None => Some (RC_OK, m, k, false)
  | Some name_len =>
      let val := skip_sp (drop (name_len + 1) line) in
      if (name_len =? 19)%nat && (kl_ascii_strncasecmp line (bytes "Content-Disposition") 19 =? 0) then
        '(rc, m', k') ← mp_parse_disposition m k val; Some (rc, m', k', true)
      else if (name_len =? 12)%nat && (kl_ascii_strncasecmp line (bytes "Content-Type") 12 =? 0) then
        match mp_strdup k val with
        | None => Some (RC_NOMEM, mkMeta (m_name m) (m_filename m) None, S k, false)
        | Some v => Some (RC_OK, mkMeta (m_name m) (m_filename m) (Some v), S k, false)
        end
      else Some (RC_OK, m, k, false)
  end.

Fixpoint headers_loop (fuel : nat) (buf : list Z) (m : KlHttpMultipartPartMeta) (k : nat) (got : bool)
    : option (mp_rc * KlHttpMultipartPartMeta * nat) :=
  match fuel with
  | O => None
  | S fuel' =>
      let eol := mp_memmem buf [c_CR; c_LF] in
      let line_len := default (length buf) eol in
      if (line_len =? 0)%nat then Some (if got then RC_OK else RC_BAD, m, k)
      else
        '(rc, m, k, disp) ← header_line m k (take line_len buf);
        match rc with
        | RC_OK =>
            match eol with
            | Some _ => headers_loop fuel' (drop (line_len + 2) buf) m k (got || disp)
            | None => Some (if got || disp then RC_OK else RC_BAD, m, k)
            end
        | _ => Some (rc, m, k)
        end
  end.

Definition mp_parse_headers (h : list Z) (m : KlHttpMultipartPartMeta) (k : nat)
    : option (mp_rc * KlHttpMultipartPartMeta * nat) :=
  headers_loop (S (length h)) h (mkMeta (m_name m) (m_filename m) None) k false.

(** ** Pushing *)

(** The reader and the return value ([false] is -1). *)
Definition mp_on_data (r : KlHttpMultipartReader) (data : list Z) : option (KlHttpMultipartReader * bool) :=
  let fail e := Some (set_error e (set_state KL_HTTP_MP_S_ERROR r), false) in
  match state r with
  | KL_HTTP_MP_S_ERROR => Some (r, false)
  | KL_HTTP_MP_S_DONE => Some (r, true)
  | _ =>
      if strlen data =? 0 then Some (r, true)
      else if SIZE_MAX - total_received r <? strlen data then fail KL_HTTP_MP_ERR_TOTAL_TOO_LARGE
      else if (0 <? max_total_size (config r)) && (max_total_size (config r) <? total_received r + strlen data) then
        fail KL_HTTP_MP_ERR_TOTAL_TOO_LARGE
      else
        '(r1, ok) ← mp_input_reserve r (strlen data);
        if negb ok then Some (set_error KL_HTTP_MP_ERR_INPUT_OVERFLOW (set_state KL_HTTP_MP_S_ERROR r1), false)
        else Some (set_total (total_received r1 + strlen data) (set_input (input r1 ++ data) r1), true)
  end.

Definition mp_on_complete (r : KlHttpMultipartReader) : KlHttpMultipartReader := set_ended r.

Definition mp_on_error (r : KlHttpMultipartReader) : KlHttpMultipartReader :=
  match state r with
  | KL_HTTP_MP_S_DONE => r
  | _ =>
      let r := set_state KL_HTTP_MP_S_ERROR r in
      if bool_decide (last_error r = KL_HTTP_MP_ERR_NONE) then set_error KL_HTTP_MP_ERR_PREMATURE_EOF r else r
  end.

(** The sizes handed to the allocator, the reader itself last. *)
Definition mp_destroy (sizeof_reader : Z) (r : KlHttpMultipartReader) : list Z :=
  let str s := match s with Some t => [strlen t + 1] | None => [] end in
  str (m_name (cur r)) ++ str (m_filename (cur r)) ++ str (m_content_type (cur r)) ++
  (if input_cap r =? 0 then [] else [input_cap r]) ++ (if hdr_cap r =? 0 then [] else [hdr_cap r]) ++ [sizeof_reader].

(** ** Pulling *)

Definition mp_fail (e : KlHttpMultipartErrorCode) (r : KlHttpMultipartReader) : KlHttpMultipartReader * KlHttpMultipartEvent :=
  (set_error e (set_state KL_HTTP_MP_S_ERROR r), KL_HTTP_MP_EVT_ERROR).

Definition mp_fail_or_keep (fallback : KlHttpMultipartErrorCode) (r : KlHttpMultipartReader)
    : KlHttpMultipartReader * KlHttpMultipartEvent :=
  let r := set_state KL_HTTP_MP_S_ERROR r in
  (if bool_decide (last_error r = KL_HTTP_MP_ERR_NONE) then set_error fallback r else r, KL_HTTP_MP_EVT_ERROR).

Definition mp_need_or_eof (r : KlHttpMultipartReader) : KlHttpMultipartReader * KlHttpMultipartEvent :=
  if stream_ended r then mp_fail KL_HTTP_MP_ERR_PREMATURE_EOF r else (r, KL_HTTP_MP_EVT_NEED_DATA).

(** The outcome of one round of the loop: [inl] is [continue], [inr] is [return]. *)
Definition round : Type := KlHttpMultipartReader + KlHttpMultipartReader * KlHttpMultipartEvent.

Definition do_consume (n : nat) (r : KlHttpMultipartReader) : KlHttpMultipartReader :=
  mp_apply_consume (set_consumed n r).

Definition mp_preamble (r : KlHttpMultipartReader) : round :=
  let needle := drop 2 (delimiter r) in
  let nlen := length needle in
  if (length (input r) <? nlen)%nat then inr (mp_need_or_eof r)
  else match mp_memmem (input r) needle with
       | Some k => inl (set_state KL_HTTP_MP_S_AFTER_BOUNDARY (do_consume (k + nlen) r))
       | None =>
           let keep := (nlen - 1)%nat in
           let r := if (keep <? length (input r))%nat then do_consume (length (input r) - keep) r else r in
           inr (mp_need_or_eof r)
       end.

Definition mp_after_boundary (r : KlHttpMultipartReader) : round :=
  match input r with
  | a :: b :: _ =>
      if (a =? c_minus) && (b =? c_minus) then
        inr (set_state KL_HTTP_MP_S_DONE (do_consume 2 r), KL_HTTP_MP_EVT_DONE)
      else if (a =? c_CR) && (b =? c_LF) then
        if (0 <? max_parts (config r)) && (max_parts (config r) <=? parts_begun r) then
          inr (mp_fail KL_HTTP_MP_ERR_TOO_MANY_PARTS r)
        else inl (set_part_size 0 (set_hdr [] (set_state KL_HTTP_MP_S_HEADERS (do_consume 2 r))))
      else inr (mp_fail KL_HTTP_MP_ERR_MALFORMED r)
  | _ => inr (mp_need_or_eof r)
  end.

(** The end of the headers state: [hdr] holds a terminator that ends at [hdr_end]. *)
Definition mp_headers_found (r : KlHttpMultipartReader) (hdr_end : nat) : option (KlHttpMultipartReader * KlHttpMultipartEvent) :=
  let overshoot := drop hdr_end (hdr r) in
  '(r, ok) ← (if (0 <? length overshoot)%nat then
                '(r1, ok) ← mp_input_reserve r (strlen overshoot);
                Some (if ok : bool then (set_input (overshoot ++ input r1) r1, true) else (r1, false))
              else Some (r, true));
  if negb ok then Some (mp_fail KL_HTTP_MP_ERR_INPUT_OVERFLOW r)
  else
    let r := set_hdr (take hdr_end (hdr r)) r in
    '(rc, m, k) ← mp_parse_headers (hdr r) (cur r) (allocs r);
    let r := set_cur m k r in
    match rc with
    | RC_OK =>
        let r := set_hdr [] (set_state KL_HTTP_MP_S_BODY (set_parts (parts_begun r + 1) r)) in
        Some (r, KL_HTTP_MP_EVT_PART_BEGIN (cur r))
    | RC_NOMEM => Some (mp_fail_or_keep KL_HTTP_MP_ERR_MALFORMED (set_error KL_HTTP_MP_ERR_NOMEM r))
    | RC_BAD => Some (mp_fail_or_keep KL_HTTP_MP_ERR_MALFORMED r)
    end.

Definition mp_headers (r : KlHttpMultipartReader) : option (KlHttpMultipartReader * KlHttpMultipartEvent) :=
  if (length (input r) =? 0)%nat then Some (mp_need_or_eof r)
  else
    let cap_limit := max_headers_size (config r) in
    let available := if 0 <? cap_limit then (if hdr_len r <? cap_limit then cap_limit - hdr_len r else 0) else SIZE_MAX in
    if (0 <? cap_limit) && (available =? 0) then Some (mp_fail KL_HTTP_MP_ERR_HEADERS_TOO_LARGE r)
    else
      let tk := if input_len r <? available then input_len r else available in
      '(r1, ok) ← mp_hdr_reserve r tk;
      if negb ok then Some (mp_fail KL_HTTP_MP_ERR_HEADERS_TOO_LARGE r1)
      else
        let n := Z.to_nat tk in
        let r2 := do_consume n (set_hdr (hdr r1 ++ take n (input r1)) r1) in
        match mp_memmem (hdr r2) [c_CR; c_LF; c_CR; c_LF] with
        | None =>
            if (0 <? cap_limit) && (cap_limit <=? hdr_len r2) && (0 <? input_len r2) then
              Some (mp_fail KL_HTTP_MP_ERR_HEADERS_TOO_LARGE r2)
            else Some (mp_need_or_eof r2)
        | Some e => mp_headers_found r2 (e + 4)
        end.

(** Emission of [n] body bytes, unless they exceed the part's cap. *)
Definition mp_emit (n : nat) (r : KlHttpMultipartReader) : KlHttpMultipartReader * KlHttpMultipartEvent :=
  let cap := max_part_size (config r) in
  if (0 <? cap) && ((cap <? Z.of_nat n) || (cap - Z.of_nat n <? current_part_size r)) then
    mp_fail KL_HTTP_MP_ERR_PART_TOO_LARGE r
  else (set_consumed n (set_part_size (current_part_size r + Z.of_nat n) r),
        KL_HTTP_MP_EVT_PART_DATA (take n (input r))).

Definition mp_body (r : KlHttpMultipartReader) : KlHttpMultipartReader * KlHttpMultipartEvent :=
  if (length (input r) =? 0)%nat then mp_need_or_eof r
  else match mp_memmem (input r) (delimiter r) with
       | Some body_len =>
           if (0 <? body_len)%nat then mp_emit body_len r
           else (set_state KL_HTTP_MP_S_AFTER_BOUNDARY (do_consume (length (delimiter r)) r), KL_HTTP_MP_EVT_PART_END)
       | None =>
           let keep := (length (delimiter r) - 1)%nat in
           if (keep <? length (input r))%nat then mp_emit (length (input r) - keep) r
           else mp_need_or_eof r
       end.

Definition mp_round (r : KlHttpMultipartReader) : option round :=
  match state r with
  | KL_HTTP_MP_S_ERROR => Some (inr (r, KL_HTTP_MP_EVT_ERROR))
  | KL_HTTP_MP_S_DONE => Some (inr (r, KL_HTTP_MP_EVT_DONE))
  | KL_HTTP_MP_S_PREAMBLE => Some (mp_preamble r)
  | KL_HTTP_MP_S_AFTER_BOUNDARY => Some (mp_after_boundary r)
  | KL_HTTP_MP_S_HEADERS => inr <$> mp_headers r
  | KL_HTTP_MP_S_BODY => Some (inr (mp_body r))
  end.

Fixpoint next_loop (fuel : nat) (r : KlHttpMultipartReader) : option (KlHttpMultipartReader * KlHttpMultipartEvent) :=
  match fuel with
  | O => None
  | S fuel' =>
      x ← mp_round r;
      match x with
      | inl r' => next_loop fuel' r'
      | inr res => Some res
      end
  end.

(** The loop goes at most from the preamble through a boundary into the headers. *)
Definition kl_http_multipart_next (r : KlHttpMultipartReader) : option (KlHttpMultipartReader * KlHttpMultipartEvent) :=
  next_loop 4 (mp_apply_consume r).

Definition kl_http_multipart_last_error (r : KlHttpMultipartReader) : KlHttpMultipartErrorCode := last_error r.

(** ** The factory *)

Fixpoint boundary_token (p : list Z) : list Z :=
  match p with
  | [] => []
  | c :: p' => if param_sep c || (c =? c_CR) || (c =? c_LF) then [] else c :: boundary_token p'
  end.

Definition boundary_of (bp : list Z) : option (list Z) :=
  if deref bp =? 34 then k ← mp_quote_close (tail bp); Some (take k (tail bp)) else Some (boundary_token bp).

(** [ct] is the request's Content-Type, if any; the outer [None] is out of fuel, the inner one NULL. *)
Definition kl_http_body_reader_multipart (ct : option (list Z)) (cfg : KlHttpMultipartConfig)
    : option (option KlHttpMultipartReader) :=
  match ct with
  | None => Some None
  | Some ct =>
      let prefix := bytes "multipart/form-data" in
      if (length ct <? 19)%nat then Some None
      else if negb (kl_ascii_strncasecmp ct prefix 19 =? 0) then Some None
      else if (19 <? length ct)%nat &&
              negb (param_sep (deref (drop 19 ct)) || (deref (drop 19 ct) =? c_CR) || (deref (drop 19 ct) =? c_LF)) then
        Some None
      else
        bp ← mp_find_param ct (bytes "boundary=");
        match bp with
        | None => Some None
        | Some bp =>
            match boundary_of bp with
            | None => Some None
            | Some bnd =>
                if (length bnd =? 0)%nat || (KL_HTTP_MP_MAX_BOUNDARY <? length bnd)%nat then Some None
                else if negb (alloc_ok 0%nat) then Some None
                else Some (Some (mkReader ([c_CR; c_LF; c_minus; c_minus] ++ bnd) cfg KL_HTTP_MP_S_PREAMBLE
                       KL_HTTP_MP_ERR_NONE [] 0 0 false 0 0 0 [] 0 (mkMeta None None None) 1))
            end
        end
  end.

End reader.

(** A body in one piece, read to the end. *)
Definition demo_body : list Z :=
  bytes "junk--XyZ" ++ [13; 10] ++
  bytes "Content-Disposition: form-data; filename=_; name=a " ++ [13; 10; 13; 10] ++
  bytes "hello" ++ [13; 10] ++ bytes "--XyZ--".

Fixpoint demo_pull (n : nat) (r : KlHttpMultipartReader) : list KlHttpMultipartEvent :=
  match n with
  | O => []
  | S n' => match kl_http_multipart_next (fun _ => true) r with
            | Some (r', ev) => ev :: demo_pull n' r'
            | None => []
            end
  end.

Example demo_run :
  (r0 ← kl_http_body_reader_multipart (fun _ => true) (Some (bytes "multipart/form-data; boundary=XyZ")) (mkConfig 0 0 0 0 0);
   r0 ← r0;
   '(r1, _) ← mp_on_data (fun _ => true) r0 demo_body;
   Some (demo_pull 5 r1)) =
  Some [KL_HTTP_MP_EVT_PART_BEGIN (mkMeta (Some (bytes "a")) (Some (bytes "_")) None);
        KL_HTTP_MP_EVT_PART_DATA (bytes "hello"); KL_HTTP_MP_EVT_PART_END; KL_HTTP_MP_EVT_DONE; KL_HTTP_MP_EVT_DONE].
Proof. vm_compute. reflexivity. Qed.

(** ** Searching *)

(** [needle] stands at offset [k] of [hay]. *)
Definition occurs (needle hay : list Z) (k : nat) : Prop := take (length needle) (drop k hay) = needle.

(** [k] is the first offset where [needle] stands. *)
Definition first_at (needle hay : list Z) (k : nat) : Prop :=
  occurs needle hay k /\ forall j, (j < k)%nat -> ~ occurs needle hay j.

Lemma memmem_Some hay needle k : mp_memmem hay needle = Some k <-> first_at needle hay k.
Proof.
  unfold first_at, occurs. revert k. induction hay as [|c hay IH]; intros k; cbn [mp_memmem].
  - destruct (span_eqb _ needle) eqn:E.
    + apply span_eqb_true in E. split; [intros [= <-]; split; [done|lia]|]. intros [_ Hj]. destruct k; [done|].
      exfalso. by apply (Hj 0%nat); [lia|].
    + split; [done|]. intros [Ho _]. rewrite drop_nil in Ho. by rewrite (proj2 (span_eqb_true _ _)) in E.
  - destruct (span_eqb (take (length needle) (c :: hay)) needle) eqn:E.
    + apply span_eqb_true in E. split; [intros [= <-]; split; [done|lia]|]. intros [_ Hj]. destruct k; [done|].
      exfalso. by apply (Hj 0%nat); [lia|].
    + apply not_true_iff_false in E. rewrite span_eqb_true in E. rewrite fmap_Some. split.
      * intros (j & Hj & ->). apply IH in Hj as [Ho Hj]. split; [done|]. intros [|i] Hi; [done|]. apply Hj. lia.
      * intros [Ho Hj]. destruct k as [|k]; [done|]. exists k. split; [|done]. apply IH. split; [done|].
        intros i Hi. apply (Hj (S i)). lia.
Qed.

Lemma memmem_None hay needle : mp_memmem hay needle = None <-> forall k, ~ occurs needle hay k.
Proof.
  unfold occurs. induction hay as [|c hay IH]; cbn [mp_memmem].
  - destruct (span_eqb _ needle) eqn:E.
    + apply span_eqb_true in E. split; [done|]. intros Hk. by destruct (Hk 0%nat).
    + apply not_true_iff_false in E. rewrite span_eqb_true in E. split; [|done]. intros _ k. by rewrite drop_nil.
  - destruct (span_eqb (take (length needle) (c :: hay)) needle) eqn:E.
    + apply span_eqb_true in E. split; [done|]. intros Hk. by destruct (Hk 0%nat).
    + apply not_true_iff_false in E. rewrite span_eqb_true in E. rewrite fmap_None, IH. split.
      * intros Hk [|k]; [done|apply Hk].
      * intros Hk k. apply (Hk (S k)).
Qed.

Lemma occurs_bound needle hay k : needle <> [] -> occurs needle hay k -> (k + length needle <= length hay)%nat.
Proof.
  intros Hne Ho. apply (f_equal length) in Ho. rewrite length_take, length_drop in Ho.
  assert (length needle <> 0%nat) by (by destruct needle). lia.
Qed.

Lemma occurs_app_l needle hay x k : (k + length needle <= length hay)%nat ->
  occurs needle (hay ++ x) k <-> occurs needle hay k.
Proof. intros Hk. unfold occurs. rewrite drop_app_le, take_app_le by (rewrite ?length_drop; lia). done. Qed.

Lemma occurs_drop needle hay n k : occurs needle (drop n hay) k <-> occurs needle hay (n + k).
Proof. unfold occurs. by rewrite drop_drop. Qed.

Lemma first_at_app needle hay x k : needle <> [] -> first_at needle hay k -> first_at needle (hay ++ x) k.
Proof.
  intros Hne [Ho Hj]. pose proof (occurs_bound _ _ _ Hne Ho). split; [by apply occurs_app_l|].
  intros j Hlt Hoj. apply (Hj j Hlt). apply occurs_app_l in Hoj; [done|lia].
Qed.

Lemma first_at_fun needle hay k k' : first_at needle hay k -> first_at needle hay k' -> k = k'.
Proof.
  intros [H1 H2] [H3 H4]. destruct (Nat.lt_trichotomy k k') as [Hl|[|Hl]]; [|done|].
  - by destruct (H4 k Hl).
  - by destruct (H2 k' Hl).
Qed.

(** When [needle] is not in [hay], what precedes the last [length needle - 1] bytes can be dropped. *)
Lemma first_at_skip needle hay x n k : needle <> [] -> (forall j, ~ occurs needle hay j) ->
  (n + (length needle - 1) <= length hay)%nat ->
  first_at needle (hay ++ x) (n + k) <-> first_at needle (drop n hay ++ x) k.
Proof.
  intros Hne Hno Hn. assert (Hnl : (0 < length needle)%nat) by (destruct needle; simpl; [done|lia]).
  assert (Hd : drop n hay ++ x = drop n (hay ++ x)) by (by rewrite drop_app_le by lia).
  rewrite Hd. unfold first_at. rewrite occurs_drop. split; intros [Ho Hj]; (split; [done|]).
  - intros j Hlt. rewrite occurs_drop. apply Hj. lia.
  - intros j Hlt Hoj. destruct (decide (j < n)%nat) as [Hs|Hs].
    + apply (Hno j). apply occurs_app_l in Hoj; [done|lia].
    + apply (Hj (j - n)%nat); [lia|]. apply occurs_drop. by replace (n + (j - n))%nat with j by lia.
Qed.

Lemma never_skip needle hay x n : needle <> [] -> (forall j, ~ occurs needle hay j) ->
  (n + (length needle - 1) <= length hay)%nat ->
  (forall j, ~ occurs needle (hay ++ x) j) <-> (forall j, ~ occurs needle (drop n hay ++ x) j).
Proof.
  intros Hne Hno Hn. assert (Hnl : (0 < length needle)%nat) by (destruct needle; simpl; [done|lia]).
  assert (Hd : drop n hay ++ x = drop n (hay ++ x)) by (by rewrite drop_app_le by lia).
  rewrite Hd. split; intros Hx j Ho.
  - apply occurs_drop in Ho. by apply Hx in Ho.
  - destruct (decide (j < n)%nat) as [Hs|Hs].
    + apply (Hno j). apply occurs_app_l in Ho; [done|lia].
    + apply (Hx (j - n)%nat). apply occurs_drop. by replace (n + (j - n))%nat with j by lia.
Qed.

(** ** Every operation returns *)

Lemma quote_close_lt p k : mp_quote_close p = Some k -> (k < length p)%nat.
Proof.
  revert k. induction p as [p IH] using (induction_ltof1 _ (@length Z)). unfold ltof in IH. intros k.
  destruct p as [|c p]; cbn [mp_quote_close]; [done|]. case_test.
  - destruct p as [|d p]; [done|]. intros (j & Hj & ->)%fmap_Some. apply IH in Hj; simpl; lia.
  - case_test; [intros [= <-]; simpl; lia|]. intros (j & Hj & ->)%fmap_Some. apply IH in Hj; simpl; lia.
Qed.

Lemma find_param_loop_total fuel val needle i :
  (i <= S (length val))%nat -> (S (length val) - i < fuel)%nat -> exists x, find_param_loop fuel val needle i = Some x.
Proof.
  revert i. induction fuel as [|fuel IH]; intros i Hi Hf; [lia|]. cbn [find_param_loop].
  destruct (Nat.ltb_spec (length val - length needle) i); [eauto|]. case_test.
  - destruct (mp_quote_close (drop (i + 1) val)) as [k|] eqn:E; [|eauto].
    apply quote_close_lt in E. rewrite length_drop in E. apply IH; lia.
  - assert (i < S (length val))%nat by lia. case_if; [apply IH; lia|]. case_if; [eauto|]. apply IH; lia.
Qed.

Lemma find_param_total val needle : exists x, mp_find_param val needle = Some x.
Proof. unfold mp_find_param. case_if; [eauto|]. apply find_param_loop_total; lia. Qed.

Lemma grow_cap_spec fuel cap need : 0 < cap -> need <= SIZE_MAX -> cap <= SIZE_MAX -> need <= cap * 2 ^ Z.of_nat fuel ->
  exists c, grow_cap (S fuel) cap need = Some c /\ need <= c <= SIZE_MAX /\ cap <= Z.max c need.
Proof.
  revert cap. induction fuel as [|fuel IH]; intros cap Hc Hn Hcm Hf; cbn [grow_cap].
  - destruct (Z.ltb_spec cap need); [simpl in Hf; lia|]. eexists; split; [done|]. lia.
  - destruct (Z.ltb_spec cap need); [|eexists; split; [done|]; lia].
    destruct (Z.ltb_spec (SIZE_MAX / 2) cap); [eexists; split; [done|]; lia|].
    rewrite Nat2Z.inj_succ, Z.pow_succ_r in Hf by lia. change (SIZE_MAX / 2) with 9223372036854775807 in *.
    destruct (IH (cap * 2)) as (c & Hg & Hc'); [lia..|]. exists c. split; [exact Hg|]. lia.
Qed.

Section oracle.
Context (alloc_ok : nat -> bool).

Lemma grow_buf_spec cap cur_len additional limit k :
  0 <= cur_len <= cap -> cap <= SIZE_MAX -> 0 < additional -> 0 <= limit ->
  exists res k', mp_grow_buf alloc_ok cap cur_len additional limit k = Some (res, k') /\
    match res with
    | Some c => cur_len + additional <= c <= SIZE_MAX /\ (0 < limit -> cap <= limit -> c <= limit)
    | None => SIZE_MAX < cur_len + additional \/ (0 < limit /\ limit < cur_len + additional) \/
        (alloc_ok k = false /\ cap < cur_len + additional)
    end.
Proof.
  intros Hcur Hcap Hadd Hlim. unfold mp_grow_buf. destruct (Z.ltb_spec (SIZE_MAX - cur_len) additional).
  { do 2 eexists. split; [done|]. cbv iota. lia. }
  destruct ((0 <? limit) && (limit <? cur_len + additional)) eqn:El.
  { breflect. do 2 eexists. split; [done|]. cbv iota. lia. }
  destruct (Z.leb_spec (cur_len + additional) cap). { do 2 eexists. split; [done|]. cbv iota. lia. }
  assert (Hg : exists c, (if cap =? 0 then Some (cur_len + additional) else grow_cap 65 cap (cur_len + additional)) = Some c /\
    cur_len + additional <= c <= SIZE_MAX).
  { case_test; [eexists; split; [done|]; lia|].
    destruct (grow_cap_spec 64 cap (cur_len + additional)) as (c & Hc & ?); [lia..|]. exists c. split; [done|lia]. }
  destruct Hg as (c & -> & Hc). rewrite bind_Some_l.
  destruct ((0 <? limit) && (limit <? c)) eqn:Ec.
  - destruct (Z.ltb_spec limit (cur_len + additional)).
    { destruct (Z.ltb_spec 0 limit); simpl in *; breflect; lia. }
    do 2 eexists. split; [done|]. destruct (alloc_ok k) eqn:Ea; [|auto]. breflect. lia.
  - destruct (Z.ltb_spec c (cur_len + additional)); [lia|]. do 2 eexists. split; [done|].
    destruct (alloc_ok k) eqn:Ea; [|auto]. split; [lia|]. intros Hl _.
    apply andb_false_iff in Ec. rewrite !Z.ltb_ge in Ec. lia.
Qed.

Lemma disposition_total m k val : exists x, mp_parse_disposition alloc_ok m k val = Some x.
Proof.
  unfold mp_parse_disposition. destruct (find_param_total val (bytes "name=")) as [np ->]. rewrite bind_Some_l.
  destruct np as [np|]; [|eauto]. destruct (param_value np); [|eauto]. do 2 (case_if; [eauto|]).
  destruct (mp_strdup alloc_ok k l); [|eauto].
  destruct (find_param_total val (bytes "filename=")) as [fp ->]. rewrite bind_Some_l.
  destruct fp as [fp|]; [|eauto]. destruct (param_value fp); [|eauto]. case_if; [eauto|].
  destruct (mp_strdup _ _ _); eauto.
Qed.

Lemma header_line_total m k line : exists x, header_line alloc_ok m k line = Some x.
Proof.
  unfold header_line. destruct (mem_chr line c_colon) as [n|]; [|eauto]. case_if.
  - destruct (disposition_total m k (skip_sp (drop (n + 1) line))) as [[[rc m'] k'] ->]. rewrite bind_Some_l. eauto.
  - case_if; [|eauto]. destruct (mp_strdup _ _ _); eauto.
Qed.

Lemma headers_loop_total fuel buf m k got : (length buf < fuel)%nat ->
  exists x, headers_loop alloc_ok fuel buf m k got = Some x.
Proof.
  revert buf m k got. induction fuel as [|fuel IH]; intros buf m k got Hf; [lia|]. cbn [headers_loop].
  case_if; [eauto|]. apply Nat.eqb_neq in Heqb.
  destruct (header_line_total m k (take (default (length buf) (mp_memmem buf [c_CR; c_LF])) buf)) as [[[[rc m'] k'] d] ->].
  rewrite bind_Some_l. destruct rc; [|eauto|eauto]. destruct (mp_memmem buf [c_CR; c_LF]) as [n|] eqn:E; [|eauto].
  cbn [default from_option id] in *. apply memmem_Some in E as [Ho _]. apply occurs_bound in Ho; [|done].
  apply IH. rewrite length_drop. simpl in Ho. lia.
Qed.

Lemma parse_headers_total h m k : exists x, mp_parse_headers alloc_ok h m k = Some x.
Proof. apply headers_loop_total. lia. Qed.

(** ** The invariant *)

Abbreviation CRLFCRLF := [c_CR; c_LF; c_CR; c_LF] (only parsing).

(** Bytes received and not yet delivered or discarded. *)
Definition unread (r : KlHttpMultipartReader) : Z :=
  (if bool_decide (state r = KL_HTTP_MP_S_HEADERS) then hdr_len r else 0) + input_len r - Z.of_nat (input_consumed r).

Record wf (r : KlHttpMultipartReader) : Prop := {
  wf_delim : (5 <= length (delimiter r))%nat;
  wf_config : 0 <= max_input_buffer (config r) /\ 0 <= max_headers_size (config r);
  wf_input : input_len r <= input_cap r <= SIZE_MAX /\
    (0 < max_input_buffer (config r) -> input_cap r <= max_input_buffer (config r));
  wf_hdr : hdr_len r <= hdr_cap r <= SIZE_MAX /\
    (0 < max_headers_size (config r) -> hdr_cap r <= max_headers_size (config r));
  wf_consumed : (input_consumed r <= length (input r))%nat;
  wf_held : Z.of_nat (input_consumed r) <= current_part_size r;
  wf_total : total_received r <= SIZE_MAX /\
    (0 < max_total_size (config r) -> total_received r <= max_total_size (config r));
  wf_count : 0 <= current_part_size r /\ current_part_size r + unread r <= total_received r;
  wf_parts : 0 <= parts_begun r /\
    (0 < max_parts (config r) -> parts_begun r <= max_parts (config r) /\
       (state r = KL_HTTP_MP_S_HEADERS -> parts_begun r < max_parts (config r)));
  wf_part : 0 < max_part_size (config r) -> current_part_size r <= max_part_size (config r);
  wf_err : state r = KL_HTTP_MP_S_ERROR <-> last_error r <> KL_HTTP_MP_ERR_NONE;
  wf_headers : state r = KL_HTTP_MP_S_HEADERS ->
    mp_memmem (hdr r) CRLFCRLF = None /\ current_part_size r = 0;
}.

(** What an event says about the step that returned it. *)
Definition effect (r : KlHttpMultipartReader) (ev : KlHttpMultipartEvent) (r' : KlHttpMultipartReader) : Prop :=
  match ev with
  | KL_HTTP_MP_EVT_PART_BEGIN _ =>
      state r' = KL_HTTP_MP_S_BODY /\ current_part_size r' = 0 /\ parts_begun r' = parts_begun r + 1
  | KL_HTTP_MP_EVT_PART_DATA d =>
      state r = KL_HTTP_MP_S_BODY /\ state r' = KL_HTTP_MP_S_BODY /\ d <> [] /\
      current_part_size r' = current_part_size r + strlen d /\ parts_begun r' = parts_begun r
  | KL_HTTP_MP_EVT_PART_END => state r' = KL_HTTP_MP_S_AFTER_BOUNDARY /\ parts_begun r' = parts_begun r
  | KL_HTTP_MP_EVT_DONE => state r' = KL_HTTP_MP_S_DONE /\ parts_begun r' = parts_begun r
  | KL_HTTP_MP_EVT_NEED_DATA =>
      state r' <> KL_HTTP_MP_S_ERROR /\ state r' <> KL_HTTP_MP_S_DONE /\ parts_begun r' = parts_begun r /\
      (state r' = KL_HTTP_MP_S_BODY -> state r = KL_HTTP_MP_S_BODY /\ current_part_size r' = current_part_size r)
  | KL_HTTP_MP_EVT_ERROR => state r' = KL_HTTP_MP_S_ERROR /\ parts_begun r' = parts_begun r
  end.

Lemma consume_eq n r : do_consume n r = set_consumed 0 (set_input (drop n (input r)) r).
Proof.
  unfold do_consume, mp_apply_consume. destruct r; cbn. destruct n; cbn; [by rewrite drop_0|].
  destruct (Nat.leb_spec (length input0) (S n)); [|done]. by rewrite drop_ge.
Qed.

Lemma apply_consume_eq r : mp_apply_consume r = set_consumed 0 (set_input (drop (input_consumed r) (input r)) r).
Proof. rewrite <- consume_eq. unfold do_consume. by destruct r. Qed.

Ltac wf_fields := cbn [delimiter config state last_error input input_cap input_consumed stream_ended total_received
  current_part_size parts_begun hdr hdr_cap cur allocs set_state set_error set_input set_consumed set_ended set_total
  set_part_size set_parts set_hdr set_caps set_cur] in *.

Ltac wf_solve :=
  split; unfold unread, input_len, hdr_len, strlen in *; wf_fields;
  autorewrite with keel_len in *;
  repeat case_bool_decide; try lia; try done; try (intuition (congruence || lia)).

Lemma wf_consume n r : wf r -> (input_consumed r <= n <= length (input r))%nat -> wf (do_consume n r).
Proof. intros [] Hn. rewrite consume_eq. wf_solve. Qed.

Lemma wf_apply_consume r : wf r -> wf (mp_apply_consume r).
Proof. intros Hw. pose proof (wf_consumed r Hw). destruct Hw. rewrite apply_consume_eq. wf_solve. Qed.

Lemma wf_complete r : wf r -> wf (mp_on_complete r).
Proof. intros []. unfold mp_on_complete. wf_solve. Qed.

Lemma fail_or_keep_bad r : last_error r = KL_HTTP_MP_ERR_NONE ->
  mp_fail_or_keep KL_HTTP_MP_ERR_MALFORMED r = mp_fail KL_HTTP_MP_ERR_MALFORMED r.
Proof. intros He. unfold mp_fail_or_keep. cbn [last_error set_state]. by rewrite He, bool_decide_true. Qed.

Lemma fail_or_keep_nomem r :
  mp_fail_or_keep KL_HTTP_MP_ERR_MALFORMED (set_error KL_HTTP_MP_ERR_NOMEM r) = mp_fail KL_HTTP_MP_ERR_NOMEM r.
Proof. done. Qed.

Lemma wf_fail e r : e <> KL_HTTP_MP_ERR_NONE -> wf r -> wf (set_error e (set_state KL_HTTP_MP_S_ERROR r)).
Proof. intros He []. wf_solve. Qed.

(** One round is good: it keeps the invariant, and it either goes on to a later state or returns an
    event that means what it says. *)
Definition rank (st : KlHttpMultipartParserState) : nat :=
  match st with KL_HTTP_MP_S_PREAMBLE => 2 | KL_HTTP_MP_S_AFTER_BOUNDARY => 1 | _ => 0 end.

Definition good_round (r : KlHttpMultipartReader) (x : round) : Prop :=
  match x with
  | inl r' => wf r' /\ input_consumed r' = 0%nat /\ (rank (state r') < rank (state r))%nat /\
      parts_begun r' = parts_begun r /\ state r' <> KL_HTTP_MP_S_BODY /\ config r' = config r
  | inr (r', ev) => wf r' /\ effect r ev r' /\ config r' = config r
  end.

Lemma need_or_eof_good r r' : wf r' -> state r' = state r -> state r <> KL_HTTP_MP_S_ERROR ->
  state r <> KL_HTTP_MP_S_DONE -> config r' = config r ->
  parts_begun r' = parts_begun r -> current_part_size r' = current_part_size r ->
  good_round r (inr (mp_need_or_eof r')).
Proof.
  intros Hw Hs Hne Hnd Hc Hp Hz. unfold mp_need_or_eof. destruct (stream_ended r'); cbn.
  - split_and!; auto using wf_fail.
  - split_and!; auto; intuition congruence.
Qed.

Lemma fail_good e r r' : e <> KL_HTTP_MP_ERR_NONE -> wf r' -> parts_begun r' = parts_begun r -> config r' = config r ->
  good_round r (inr (mp_fail e r')).
Proof. intros He Hw Hp Hc. cbn. split_and!; auto using wf_fail. Qed.

Lemma preamble_good r : wf r -> input_consumed r = 0%nat -> state r = KL_HTTP_MP_S_PREAMBLE -> good_round r (mp_preamble r).
Proof.
  intros Hw Hc Hs. unfold mp_preamble.
  destruct (Nat.ltb_spec (length (input r)) (length (drop 2 (delimiter r)))).
  { apply need_or_eof_good; congruence. }
  pose proof (wf_delim r Hw) as Hd. destruct (mp_memmem (input r) (drop 2 (delimiter r))) as [k|] eqn:E.
  - apply memmem_Some in E as [Ho _]. apply occurs_bound in Ho.
    2: { intros He. apply (f_equal length) in He. rewrite length_drop in He. simpl in He. lia. }
    pose proof (wf_consume (k + length (drop 2 (delimiter r))) r Hw ltac:(lia)) as Hw'. rewrite consume_eq in *.
    cbn. rewrite Hs. split_and!; try done; try (simpl; lia). destruct Hw'. wf_solve.
  - rewrite length_drop in *. case_if; [|apply need_or_eof_good; congruence]. apply Nat.ltb_lt in Heqb.
    pose proof (wf_consume (length (input r) - (length (delimiter r) - 2 - 1)) r Hw ltac:(lia)) as Hw'.
    rewrite consume_eq in *. apply need_or_eof_good; done || (cbn; congruence).
Qed.

Lemma after_boundary_good r : wf r -> input_consumed r = 0%nat -> state r = KL_HTTP_MP_S_AFTER_BOUNDARY ->
  good_round r (mp_after_boundary r).
Proof.
  intros Hw Hc Hs. unfold mp_after_boundary. destruct (input r) as [|a [|b rest]] eqn:Ei;
    [apply need_or_eof_good; congruence..|].
  assert (Hw2 : wf (do_consume 2 r)) by (apply wf_consume; [done|rewrite Ei, Hc; simpl; lia]).
  rewrite consume_eq in *. destruct ((a =? c_minus) && (b =? c_minus));
    [|destruct ((a =? c_CR) && (b =? c_LF)); [destruct (_ && _) eqn:Em|]].
  - cbn. split_and!; try done. destruct Hw2. wf_solve.
  - by apply fail_good.
  - cbn. rewrite Hs. split_and!; try done; try (simpl; lia). apply andb_false_iff in Em.
    rewrite Z.ltb_ge, Z.leb_gt in Em. destruct Hw2. wf_solve.
  - by apply fail_good.
Qed.

Lemma emit_good n r : wf r -> input_consumed r = 0%nat -> state r = KL_HTTP_MP_S_BODY -> (0 < n <= length (input r))%nat ->
  good_round r (inr (mp_emit n r)).
Proof.
  intros Hw Hc Hs Hn. unfold mp_emit. case_if; [by apply fail_good|]. cbn. rewrite Hs. unfold strlen.
  rewrite length_take, Nat.min_l by lia. split_and!; try done.
  - apply andb_false_iff in Heqb. rewrite orb_false_iff, !Z.ltb_ge in Heqb. destruct Hw. wf_solve.
  - destruct (input r); [simpl in *; lia|]. destruct n; [lia|done].
Qed.

Lemma body_good r : wf r -> input_consumed r = 0%nat -> state r = KL_HTTP_MP_S_BODY -> good_round r (inr (mp_body r)).
Proof.
  intros Hw Hc Hs. unfold mp_body. destruct (Nat.eqb_spec (length (input r)) 0); [apply need_or_eof_good; congruence|].
  pose proof (wf_delim r Hw) as Hd. destruct (mp_memmem (input r) (delimiter r)) as [k|] eqn:E.
  - apply memmem_Some in E as [Ho _]. apply occurs_bound in Ho; [|by intros He; rewrite He in Hd; simpl in Hd; lia].
    destruct (Nat.ltb_spec 0 k); [apply emit_good; done || lia|].
    assert (Hw2 : wf (do_consume (length (delimiter r)) r)) by (apply wf_consume; [done|lia]).
    rewrite consume_eq in *. cbn. split_and!; try done. destruct Hw2. wf_solve.
  - destruct (Nat.ltb_spec (length (delimiter r) - 1) (length (input r))); [apply emit_good; done || lia|].
    apply need_or_eof_good; congruence.
Qed.

(** The reader once the bytes behind the header block have been pushed back to the input. *)
Definition pushed_back (r : KlHttpMultipartReader) (hdr_end : nat) : KlHttpMultipartReader :=
  set_hdr (take hdr_end (hdr r)) (set_input (drop hdr_end (hdr r) ++ input r) r).

(** The end of the headers state when the bytes pushed back fit where they came from, which
    [headers_split] shows to be always the case: the reserve can not fail. *)
Definition headers_done (r : KlHttpMultipartReader) (hdr_end : nat) : option (KlHttpMultipartReader * KlHttpMultipartEvent) :=
  '(rc, m, k) ← mp_parse_headers alloc_ok (take hdr_end (hdr r)) (cur r) (allocs r);
  let r := set_cur m k (pushed_back r hdr_end) in
  match rc with
  | RC_OK =>
      Some (set_hdr [] (set_state KL_HTTP_MP_S_BODY (set_parts (parts_begun r + 1) r)), KL_HTTP_MP_EVT_PART_BEGIN m)
  | RC_NOMEM => Some (mp_fail_or_keep KL_HTTP_MP_ERR_MALFORMED (set_error KL_HTTP_MP_ERR_NOMEM r))
  | RC_BAD => Some (mp_fail_or_keep KL_HTTP_MP_ERR_MALFORMED r)
  end.

Lemma headers_found_eq r e : strlen (drop e (hdr r)) + input_len r <= input_cap r <= SIZE_MAX ->
  (0 < max_input_buffer (config r) -> input_cap r <= max_input_buffer (config r)) ->
  mp_headers_found alloc_ok r e = headers_done r e.
Proof.
  intros Hfit Hlim. unfold mp_headers_found, headers_done, pushed_back. unfold input_len, strlen in *.
  destruct (Nat.ltb_spec 0 (length (drop e (hdr r)))) as [Ho|Ho].
  - unfold mp_input_reserve, mp_grow_buf, input_len, strlen.
    destruct (Z.ltb_spec (SIZE_MAX - Z.of_nat (length (input r))) (Z.of_nat (length (drop e (hdr r))))); [lia|].
    destruct (_ && _) eqn:E; [breflect; lia|].
    destruct (Z.leb_spec (Z.of_nat (length (input r)) + Z.of_nat (length (drop e (hdr r)))) (input_cap r)); [|lia].
    rewrite !bind_Some_l. cbn [negb]. by destruct r.
  - rewrite bind_Some_l. cbn [negb]. assert (Hn : drop e (hdr r) = []) by (apply nil_length_inv; lia).
    rewrite Hn. by destruct r.
Qed.

(** A terminator found after appending [x] to a terminator-free [h] ends behind [h]. *)
Lemma terminator_late h x e : mp_memmem h CRLFCRLF = None -> mp_memmem (h ++ x) CRLFCRLF = Some e ->
  (length h < e + 4 <= length h + length x)%nat.
Proof.
  intros Hn Hs. apply memmem_Some in Hs as [Ho _]. pose proof (occurs_bound CRLFCRLF (h ++ x) e ltac:(done) Ho) as Hb.
  rewrite length_app in Hb. simpl in Hb. split; [|lia]. destruct (Nat.le_gt_cases (e + 4) (length h)); [|done].
  exfalso. apply (proj1 (memmem_None h CRLFCRLF) Hn e). apply occurs_app_l in Ho; [done|simpl; lia].
Qed.

(** The reader once [n] bytes have moved from the input to the header accumulator. *)
Definition pulled (n : nat) (c : Z) (k : nat) (r : KlHttpMultipartReader) : KlHttpMultipartReader :=
  set_input (drop n (input r)) (set_hdr (hdr r ++ take n (input r)) (set_caps (input_cap r) c k r)).

Lemma pulled_eq n c k r : input_consumed r = 0%nat ->
  do_consume n (set_hdr (hdr r ++ take n (input r)) (set_caps (input_cap r) c k r)) = pulled n c k r.
Proof. intros Hc. rewrite consume_eq. unfold pulled. destruct r; cbn in *. by rewrite Hc. Qed.

Definition headers_step (r : KlHttpMultipartReader) (n : nat) (c : Z) (k : nat)
    : option (KlHttpMultipartReader * KlHttpMultipartEvent) :=
  let lim := max_headers_size (config r) in
  match mp_memmem (hdr r ++ take n (input r)) CRLFCRLF with
  | None => Some (if (0 <? lim) && (lim <=? hdr_len r + Z.of_nat n) && (Z.of_nat n <? input_len r) then
                    mp_fail KL_HTTP_MP_ERR_HEADERS_TOO_LARGE (pulled n c k r)
                  else mp_need_or_eof (pulled n c k r))
  | Some e => headers_done (pulled n c k r) (e + 4)
  end.

Lemma headers_step_eq r n c k : wf r -> input_consumed r = 0%nat -> state r = KL_HTTP_MP_S_HEADERS ->
  (0 < n <= length (input r))%nat -> hdr_len r + Z.of_nat n <= c ->
  (let r2 := pulled n c k r in
   match mp_memmem (hdr r2) CRLFCRLF with
   | None =>
       if (0 <? max_headers_size (config r)) && (max_headers_size (config r) <=? hdr_len r2) && (0 <? input_len r2) then
         Some (mp_fail KL_HTTP_MP_ERR_HEADERS_TOO_LARGE r2)
       else Some (mp_need_or_eof r2)
   | Some e => mp_headers_found alloc_ok r2 (e + 4)
   end) = headers_step r n c k.
Proof.
  intros Hw Hc Hs Hn Hcap. unfold headers_step. cbv zeta. change (hdr (pulled n c k r)) with (hdr r ++ take n (input r)).
  destruct (mp_memmem _ CRLFCRLF) as [e|] eqn:E.
  - apply (terminator_late (hdr r)) in E as Hlate; [|by apply wf_headers]. rewrite length_take in Hlate.
    pose proof (wf_input r Hw). apply headers_found_eq; [|apply Hw].
    unfold pulled, input_len, strlen in *. cbn. rewrite !length_drop, length_app, length_take. lia.
  - replace (hdr_len (pulled n c k r)) with (hdr_len r + Z.of_nat n)
      by (unfold pulled, hdr_len, strlen; cbn; rewrite length_app, length_take; lia).
    replace (0 <? input_len (pulled n c k r)) with (Z.of_nat n <? input_len r); [by case_if|].
    unfold pulled, input_len, strlen. cbn. rewrite length_drop.
    destruct (Z.ltb_spec (Z.of_nat n) (Z.of_nat (length (input r)))); symmetry; [apply Z.ltb_lt|apply Z.ltb_ge]; lia.
Qed.

Lemma headers_split r : wf r -> input_consumed r = 0%nat -> state r = KL_HTTP_MP_S_HEADERS -> input r <> [] ->
  let lim := max_headers_size (config r) in
  (0 < lim /\ lim <= hdr_len r /\ mp_headers alloc_ok r = Some (mp_fail KL_HTTP_MP_ERR_HEADERS_TOO_LARGE r)) \/
  (exists k, alloc_ok (allocs r) = false /\
     mp_headers alloc_ok r = Some (mp_fail KL_HTTP_MP_ERR_HEADERS_TOO_LARGE (set_caps (input_cap r) (hdr_cap r) k r))) \/
  (exists n c k, (0 < n <= length (input r))%nat /\ (n = length (input r) \/ (0 < lim /\ hdr_len r + Z.of_nat n = lim)) /\
     (0 < lim -> hdr_len r + Z.of_nat n <= lim) /\ hdr_len r + Z.of_nat n <= c <= SIZE_MAX /\ (0 < lim -> c <= lim) /\
     mp_headers alloc_ok r = headers_step r n c k).
Proof.
  intros Hw Hc Hs Hne lim. unfold mp_headers. assert (Hpos : length (input r) <> 0%nat) by (by destruct (input r)).
  destruct (Nat.eqb_spec (length (input r)) 0); [done|]. fold lim.
  assert (Hcount : hdr_len r + input_len r <= SIZE_MAX).
  { pose proof (proj1 (wf_total r Hw)) as Ht. destruct (wf_count r Hw) as [Hz Hcnt]. unfold unread in Hcnt. rewrite bool_decide_true, Hc in Hcnt by done. lia. }
  assert (Hil : input_len r = Z.of_nat (length (input r))) by done.
  assert (Hhl : 0 <= hdr_len r) by (unfold hdr_len, strlen; lia).
  set (available := if 0 <? lim then if hdr_len r <? lim then lim - hdr_len r else 0 else SIZE_MAX).
  assert (Hav : (0 < lim /\ available = Z.max 0 (lim - hdr_len r)) \/ (lim <= 0 /\ available = SIZE_MAX)).
  { unfold available. destruct (Z.ltb_spec 0 lim), (Z.ltb_spec (hdr_len r) lim); lia. }
  clearbody available. destruct ((0 <? lim) && (available =? 0)) eqn:E0; [left; breflect; split_and!; [lia|lia|done]|].
  right. set (tk := if input_len r <? available then input_len r else available).
  assert (Htk : 0 < tk <= input_len r /\ (tk = input_len r \/ (0 < lim /\ hdr_len r + tk = lim)) /\ (0 < lim -> hdr_len r + tk <= lim)).
  { unfold tk. apply andb_false_iff in E0. rewrite Z.ltb_ge, Z.eqb_neq in E0. destruct (Z.ltb_spec (input_len r) available); lia. }
  clearbody tk. unfold mp_hdr_reserve. fold lim. destruct (wf_hdr r Hw) as [Hh Hhl'], (wf_config r Hw) as [_ Hcf].
  destruct (grow_buf_spec (hdr_cap r) (hdr_len r) tk lim (allocs r)) as (res & k & -> & Hres); [lia..|].
  rewrite !bind_Some_l. destruct res as [c|]; cbn [negb].
  - right. exists (Z.to_nat tk), c, k. split_and!; try lia. cbn [input hdr set_caps].
    rewrite pulled_eq by done. apply headers_step_eq; done || lia.
  - left. exists k. destruct Hres as [?|[?|[? _]]]; [lia..|]. done.
Qed.

Lemma wf_no_error r : wf r -> state r <> KL_HTTP_MP_S_ERROR -> last_error r = KL_HTTP_MP_ERR_NONE.
Proof.
  intros Hw Hs. destruct (decide (last_error r = KL_HTTP_MP_ERR_NONE)); [done|]. by destruct Hs; apply (wf_err r Hw).
Qed.

(** The readers the headers state leaves when the header block ends at [e]. *)
Lemma pushed_back_wf r n c k e m k' : wf r -> input_consumed r = 0%nat -> state r = KL_HTTP_MP_S_HEADERS ->
  (0 < n <= length (input r))%nat -> hdr_len r + Z.of_nat n <= c <= SIZE_MAX ->
  (0 < max_headers_size (config r) -> c <= max_headers_size (config r)) ->
  (length (hdr r) < e + 4 <= length (hdr r) + n)%nat ->
  let r' := set_cur m k' (pushed_back (pulled n c k r) (e + 4)) in
  wf (set_hdr [] (set_state KL_HTTP_MP_S_BODY (set_parts (parts_begun r' + 1) r'))) /\
  forall e0, e0 <> KL_HTTP_MP_ERR_NONE -> wf (set_error e0 (set_state KL_HTTP_MP_S_ERROR r')).
Proof.
  intros Hw Hc Hs Hn Hcap Hlim Hlate. pose proof (wf_no_error r Hw ltac:(congruence)) as Hle.
  unfold pushed_back, pulled. destruct Hw. split; [wf_solve|]. intros e0 He0. wf_solve.
Qed.

Lemma headers_done_good r n c k e : wf r -> input_consumed r = 0%nat -> state r = KL_HTTP_MP_S_HEADERS ->
  (0 < n <= length (input r))%nat -> hdr_len r + Z.of_nat n <= c <= SIZE_MAX ->
  (0 < max_headers_size (config r) -> c <= max_headers_size (config r)) ->
  mp_memmem (hdr r ++ take n (input r)) CRLFCRLF = Some e ->
  exists r' ev, headers_done (pulled n c k r) (e + 4) = Some (r', ev) /\ good_round r (inr (r', ev)).
Proof.
  intros Hw Hc Hs Hn Hcap Hlim He. apply (terminator_late (hdr r)) in He; [|by apply wf_headers].
  rewrite length_take, Nat.min_l in He by lia. pose proof (wf_no_error r Hw ltac:(congruence)) as Hle.
  unfold headers_done.
  destruct (parse_headers_total (take (e + 4) (hdr (pulled n c k r))) (cur (pulled n c k r)) (allocs (pulled n c k r)))
    as [[[rc m] k'] ->]. rewrite bind_Some_l.
  destruct (pushed_back_wf r n c k e m k' Hw Hc Hs Hn Hcap Hlim He) as [Hok Hbad].
  destruct (wf_headers r Hw Hs) as [_ Hz]. cbv zeta. destruct rc.
  - do 2 eexists. split; [reflexivity|]. cbn [good_round effect].
    split_and!; [exact Hok|reflexivity|exact Hz|reflexivity|reflexivity].
  - rewrite fail_or_keep_bad by exact Hle. do 2 eexists. split; [reflexivity|].
    exact (conj (Hbad KL_HTTP_MP_ERR_MALFORMED ltac:(done)) (conj (conj eq_refl eq_refl) eq_refl)).
  - rewrite fail_or_keep_nomem. do 2 eexists. split; [reflexivity|].
    exact (conj (Hbad KL_HTTP_MP_ERR_NOMEM ltac:(done)) (conj (conj eq_refl eq_refl) eq_refl)).
Qed.

Lemma headers_good r : wf r -> input_consumed r = 0%nat -> state r = KL_HTTP_MP_S_HEADERS ->
  exists r' ev, mp_headers alloc_ok r = Some (r', ev) /\ good_round r (inr (r', ev)).
Proof.
  intros Hw Hc Hs. destruct (decide (input r = [])) as [Hi|Hi].
  { unfold mp_headers. rewrite Hi. cbn [length Nat.eqb]. destruct (mp_need_or_eof r) as [r' ev] eqn:E.
    exists r', ev. split; [done|]. rewrite <- E. apply need_or_eof_good; congruence. }
  destruct (headers_split r Hw Hc Hs Hi) as [(_ & _ & ->)|[(k & _ & ->)|(n & c & k & Hn & Hn2 & Hl & Hcap & Hcl & ->)]].
  - do 2 eexists. split; [done|]. by apply (fail_good KL_HTTP_MP_ERR_HEADERS_TOO_LARGE).
  - do 2 eexists. split; [done|]. apply (fail_good KL_HTTP_MP_ERR_HEADERS_TOO_LARGE); try done. destruct Hw. wf_solve.
  - unfold headers_step. destruct (mp_memmem _ CRLFCRLF) as [e|] eqn:E; [by apply headers_done_good|].
    assert (Hw' : wf (pulled n c k r)).
    { unfold pulled. destruct Hw. wf_solve. }
    case_if.
    + do 2 eexists. split; [done|]. by apply (fail_good KL_HTTP_MP_ERR_HEADERS_TOO_LARGE).
    + destruct (mp_need_or_eof (pulled n c k r)) as [r' ev] eqn:E2. exists r', ev. split; [done|].
      rewrite <- E2. apply need_or_eof_good; done || congruence.
Qed.

Lemma round_good r : wf r -> input_consumed r = 0%nat -> exists x, mp_round alloc_ok r = Some x /\ good_round r x.
Proof.
  intros Hw Hc. unfold mp_round. destruct (state r) eqn:Hs.
  - eexists. split; [done|]. by apply preamble_good.
  - eexists. split; [done|]. by apply after_boundary_good.
  - destruct (headers_good r Hw Hc Hs) as (r' & ev & -> & Hg). by exists (inr (r', ev)).
  - eexists. split; [done|]. by apply body_good.
  - eexists. split; [done|]. by cbn.
  - eexists. split; [done|]. by cbn.
Qed.

Lemma effect_later s s' ev r' : parts_begun s' = parts_begun s -> state s' <> KL_HTTP_MP_S_BODY ->
  effect s' ev r' -> effect s ev r'.
Proof. intros Hp Hb. destruct ev; cbn; rewrite Hp; tauto. Qed.

Lemma next_loop_good fuel s : wf s -> input_consumed s = 0%nat -> (rank (state s) < fuel)%nat ->
  exists r' ev, next_loop alloc_ok fuel s = Some (r', ev) /\ wf r' /\ effect s ev r' /\ config r' = config s.
Proof.
  revert s. induction fuel as [|fuel IH]; intros s Hws Hcs Hr; [lia|]. cbn [next_loop].
  destruct (round_good s Hws Hcs) as ([s'|[r' ev]] & -> & Hg); rewrite bind_Some_l; [|by exists r', ev].
  destruct Hg as (Hw' & Hc' & Hlt & Hp & Hb & Hcf). destruct (IH s' Hw' Hc' ltac:(lia)) as (r' & ev & He & Hwr & Hef & Hcf').
  exists r', ev. split_and!; [done|done|by eapply effect_later|congruence].
Qed.

(** Every pull returns an event, keeps the invariant and means what it says. *)
Lemma next_good r : wf r -> exists r' ev, kl_http_multipart_next alloc_ok r = Some (r', ev) /\
  wf r' /\ effect r ev r' /\ config r' = config r.
Proof.
  intros Hw. unfold kl_http_multipart_next. apply wf_apply_consume in Hw. revert Hw. rewrite apply_consume_eq. intros Hw.
  destruct (next_loop_good 4 _ Hw) as (r' & ev & He & Hwr & Hef & Hcf); [done|cbn; destruct (state r); simpl; lia|].
  exists r', ev. split_and!; [done|done| |done]. by destruct ev.
Qed.

Lemma on_data_good r data : wf r -> exists r' ok, mp_on_data alloc_ok r data = Some (r', ok) /\
  wf r' /\ config r' = config r /\ parts_begun r' = parts_begun r /\ current_part_size r' = current_part_size r /\
  if ok : bool then state r' = state r /\ state r <> KL_HTTP_MP_S_ERROR else state r' = KL_HTTP_MP_S_ERROR.
Proof.
  intros Hw. unfold mp_on_data. destruct (decide (state r = KL_HTTP_MP_S_ERROR)) as [Hs|Hs].
  { rewrite Hs. by exists r, false. }
  destruct (decide (state r = KL_HTTP_MP_S_DONE)) as [Hd|Hd].
  { rewrite Hd. by exists r, true. }
  replace (match state r with KL_HTTP_MP_S_ERROR => _ | KL_HTTP_MP_S_DONE => _ | _ => _ end) with
    (if strlen data =? 0 then Some (r, true)
      else if SIZE_MAX - total_received r <? strlen data then
        Some (set_error KL_HTTP_MP_ERR_TOTAL_TOO_LARGE (set_state KL_HTTP_MP_S_ERROR r), false)
      else if (0 <? max_total_size (config r)) && (max_total_size (config r) <? total_received r + strlen data) then
        Some (set_error KL_HTTP_MP_ERR_TOTAL_TOO_LARGE (set_state KL_HTTP_MP_S_ERROR r), false)
      else
        '(r1, ok) ← mp_input_reserve alloc_ok r (strlen data);
        if negb ok then Some (set_error KL_HTTP_MP_ERR_INPUT_OVERFLOW (set_state KL_HTTP_MP_S_ERROR r1), false)
        else Some (set_total (total_received r1 + strlen data) (set_input (input r1 ++ data) r1), true))
    by (destruct (state r); done).
  destruct (Z.eqb_spec (strlen data) 0); [by exists r, true|].
  destruct (Z.ltb_spec (SIZE_MAX - total_received r) (strlen data)).
  { do 2 eexists. split; [reflexivity|]. split; [by apply wf_fail|done]. }
  destruct ((0 <? max_total_size (config r)) && _) eqn:Et.
  { do 2 eexists. split; [reflexivity|]. split; [by apply wf_fail|done]. }
  assert (0 < strlen data) by (unfold strlen in *; lia).
  unfold mp_input_reserve. pose proof (wf_input r Hw) as [Hi _]. pose proof (wf_config r Hw) as [Hcf _].
  destruct (grow_buf_spec (input_cap r) (input_len r) (strlen data) (max_input_buffer (config r)) (allocs r)) as (res & k & -> & Hres);
    [unfold input_len, strlen in *; lia|lia|lia|lia|].
  rewrite !bind_Some_l. apply andb_false_iff in Et. rewrite !Z.ltb_ge in Et.
  destruct res as [c|]; cbn [negb]; (do 2 eexists; split; [reflexivity|]).
  - split; [|done]. destruct Hw. wf_solve.
  - split; [|done]. apply wf_fail; [done|]. destruct Hw. wf_solve.
Qed.

Lemma on_error_good r : wf r -> wf (mp_on_error r) /\ config (mp_on_error r) = config r /\
  parts_begun (mp_on_error r) = parts_begun r /\ current_part_size (mp_on_error r) = current_part_size r /\
  (state (mp_on_error r) = KL_HTTP_MP_S_DONE /\ mp_on_error r = r \/ state (mp_on_error r) = KL_HTTP_MP_S_ERROR) /\
  (state r = KL_HTTP_MP_S_ERROR -> last_error (mp_on_error r) = last_error r).
Proof.
  intros Hw. unfold mp_on_error.
  destruct (decide (state r = KL_HTTP_MP_S_DONE)) as [Hd|Hd]; [rewrite Hd; split_and!; auto|].
  replace (match state r with KL_HTTP_MP_S_DONE => r | _ => _ end) with
    (if bool_decide (last_error (set_state KL_HTTP_MP_S_ERROR r) = KL_HTTP_MP_ERR_NONE)
     then set_error KL_HTTP_MP_ERR_PREMATURE_EOF (set_state KL_HTTP_MP_S_ERROR r)
     else set_state KL_HTTP_MP_S_ERROR r) by (destruct (state r); done).
  cbn [last_error set_state]. pose proof (wf_err r Hw) as He. case_bool_decide as Hn.
  - split_and!; auto using wf_fail. intros Hs%He. done.
  - split_and!; auto. destruct Hw. wf_solve.
Qed.

(** ** Sessions *)

(** What the server and the handler may do with a reader, and what they observe. *)
Inductive op := OpPush (data : list Z) | OpPull | OpComplete | OpAbort.
Inductive obs := Pushed (ok : bool) | Pulled (ev : KlHttpMultipartEvent).

Definition apply_op (r : KlHttpMultipartReader) (o : op) : option (KlHttpMultipartReader * list obs) :=
  match o with
  | OpPush d => '(r', ok) ← mp_on_data alloc_ok r d; Some (r', [Pushed ok])
  | OpPull => '(r', ev) ← kl_http_multipart_next alloc_ok r; Some (r', [Pulled ev])
  | OpComplete => Some (mp_on_complete r, [])
  | OpAbort => Some (mp_on_error r, [])
  end.

Fixpoint run (r : KlHttpMultipartReader) (os : list op) : option (KlHttpMultipartReader * list obs) :=
  match os with
  | [] => Some (r, [])
  | o :: os' =>
      '(r1, t1) ← apply_op r o;
      '(r2, t2) ← run r1 os';
      Some (r2, t1 ++ t2)
  end.

(** The number of parts begun, and the bytes delivered since the last one began. *)
Definition count_obs (acc : Z * Z) (o : obs) : Z * Z :=
  match o with
  | Pulled (KL_HTTP_MP_EVT_PART_BEGIN _) => (acc.1 + 1, 0)
  | Pulled (KL_HTTP_MP_EVT_PART_DATA d) => (acc.1, acc.2 + strlen d)
  | _ => acc
  end.

Definition tally (t : list obs) : Z * Z := fold_left count_obs t (0, 0).

(** The reader's counters agree with what has been observed. *)
Definition agrees (acc : Z * Z) (r : KlHttpMultipartReader) : Prop :=
  acc.1 = parts_begun r /\ (state r = KL_HTTP_MP_S_BODY -> acc.2 = current_part_size r) /\
  (0 < max_part_size (config r) -> acc.2 <= max_part_size (config r)).

Lemma agrees_step acc r o : wf r -> agrees acc r -> exists r' t, apply_op r o = Some (r', t) /\
  wf r' /\ config r' = config r /\ agrees (fold_left count_obs t acc) r'.
Proof.
  intros Hw (Hp & Hb & Hm). unfold agrees. destruct o as [d| | |]; cbn [apply_op].
  - destruct (on_data_good r d Hw) as (r' & ok & -> & Hw' & Hcf & Hp' & Hz & Hs). rewrite bind_Some_l.
    do 2 eexists. split; [reflexivity|]. cbn [fold_left count_obs]. rewrite Hcf, Hp', Hz.
    split_and!; auto. destruct ok; [by destruct Hs as [-> _]|by rewrite Hs].
  - destruct (next_good r Hw) as (r' & ev & -> & Hw' & Hef & Hcf). rewrite bind_Some_l.
    do 2 eexists. split; [reflexivity|]. split_and!; [done|done|..];
      destruct ev; cbn in *; pose proof (wf_part r' Hw'); rewrite ?Hcf in *; intuition (congruence || lia).
  - do 2 eexists. split; [reflexivity|]. split_and!; auto using wf_complete.
  - destruct (on_error_good r Hw) as (Hw' & Hcf & Hp' & Hz & Hs & _).
    do 2 eexists. split; [reflexivity|]. cbn [fold_left]. rewrite Hcf, Hp', Hz. split_and!; auto.
    destruct Hs as [[Hs _]|Hs]; by rewrite Hs.
Qed.

Lemma agrees_run acc r os : wf r -> agrees acc r -> exists r' t, run r os = Some (r', t) /\
  wf r' /\ config r' = config r /\ agrees (fold_left count_obs t acc) r'.
Proof.
  revert acc r. induction os as [|o os IH]; intros acc r Hw Ha; [by exists r, []|]. cbn [run].
  destruct (agrees_step acc r o Hw Ha) as (r1 & t1 & -> & Hw1 & Hc1 & Ha1). rewrite bind_Some_l.
  destruct (IH _ r1 Hw1 Ha1) as (r2 & t2 & -> & Hw2 & Hc2 & Ha2). rewrite bind_Some_l.
  exists r2, (t1 ++ t2). rewrite fold_left_app. split_and!; auto. congruence.
Qed.

Definition config_ok (cfg : KlHttpMultipartConfig) : Prop :=
  0 <= max_input_buffer cfg /\ 0 <= max_headers_size cfg.

Lemma factory_good ct cfg : config_ok cfg ->
  match kl_http_body_reader_multipart alloc_ok ct cfg with
  | None => False
  | Some None => True
  | Some (Some r) => wf r /\ config r = cfg /\ agrees (0, 0) r /\ state r = KL_HTTP_MP_S_PREAMBLE /\ input r = [] /\
      input_consumed r = 0%nat /\ stream_ended r = false /\ total_received r = 0
  end.
Proof.
  intros [Hi Hh]. unfold kl_http_body_reader_multipart. destruct ct as [ct|]; [|done]. do 3 (case_if; [done|]).
  destruct (find_param_total ct (bytes "boundary=")) as [bp ->]. rewrite bind_Some_l.
  destruct bp as [bp|]; [|done]. destruct (boundary_of bp) as [bnd|]; [|done].
  destruct (Nat.eqb_spec (length bnd) 0) as [|Hl]; [done|]. cbn [orb]. do 2 (case_if; [done|]).
  unfold agrees. split_and!; try done; cbn; try lia.
  split; unfold unread, input_len, hdr_len, strlen; cbn; rewrite ?bool_decide_false by done; try lia; try done.
Qed.

(** The limits of a multipart reader hold on every session, whatever the bytes, their split
    into pushes, the order of pushes and pulls and the allocator's answers: every call returns; the
    parts begun stay within [max_parts]; the bytes handed out for a part stay within
    [max_part_size]; the bytes accepted stay within [max_total_size]; and the two buffers the
    reader holds stay within [max_input_buffer] and [max_headers_size]. *)
Lemma multipart_limits (ct : option (list Z)) (cfg : KlHttpMultipartConfig) (os : list op) (Hcfg : config_ok cfg) :
  match kl_http_body_reader_multipart alloc_ok ct cfg with
  | None => False
  | Some None => True
  | Some (Some r0) =>
      exists r t, run r0 os = Some (r, t) /\
        (0 < max_parts cfg -> (tally t).1 <= max_parts cfg) /\
        (0 < max_part_size cfg -> (tally t).2 <= max_part_size cfg) /\
        (0 < max_total_size cfg -> total_received r <= max_total_size cfg) /\
        (0 < max_input_buffer cfg -> input_len r <= input_cap r <= max_input_buffer cfg) /\
        (0 < max_headers_size cfg -> hdr_len r <= hdr_cap r <= max_headers_size cfg)
  end.
Proof.
  pose proof (factory_good ct cfg Hcfg) as Hf.
  destruct (kl_http_body_reader_multipart alloc_ok ct cfg) as [[r0|]|]; [|done..].
  destruct Hf as (Hw & Hc & Ha & _). destruct (agrees_run _ r0 os Hw Ha) as (r & t & Hr & Hw' & Hc' & Hp & _ & Hm).
  exists r, t. unfold tally. rewrite Hc in Hc'. rewrite Hc' in Hm. destruct Hw'. rewrite Hc' in *.
  split_and!; [done| |done|tauto|intuition|intuition]. rewrite Hp. tauto.
Qed.

Lemma apply_op_good r o : wf r -> exists r' t, apply_op r o = Some (r', t) /\ wf r' /\
  (Pushed false ∈ t \/ Pulled KL_HTTP_MP_EVT_ERROR ∈ t -> state r' = KL_HTTP_MP_S_ERROR).
Proof.
  intros Hw. destruct o as [d| | |]; cbn [apply_op].
  - destruct (on_data_good r d Hw) as (r' & ok & -> & Hw' & _ & _ & _ & Hs). rewrite bind_Some_l.
    do 2 eexists. split; [reflexivity|]. split; [done|]. rewrite !list_elem_of_singleton.
    intros [[= <-]|?]; [done|discriminate].
  - destruct (next_good r Hw) as (r' & ev & -> & Hw' & Hef & _). rewrite bind_Some_l.
    do 2 eexists. split; [reflexivity|]. split; [done|]. rewrite !list_elem_of_singleton.
    intros [?|[= <-]]; [discriminate|]. apply Hef.
  - do 2 eexists. split; [reflexivity|]. split; [by apply wf_complete|].
    intros [H|H]; by apply not_elem_of_nil in H.
  - do 2 eexists. split; [reflexivity|]. split; [by apply on_error_good|].
    intros [H|H]; by apply not_elem_of_nil in H.
Qed.

(** In the error state every operation answers with the error and nothing changes the cause. *)
Lemma error_step r o r' t : state r = KL_HTTP_MP_S_ERROR -> wf r -> apply_op r o = Some (r', t) ->
  state r' = KL_HTTP_MP_S_ERROR /\ last_error r' = last_error r /\
  Forall (fun x => x = Pushed false \/ x = Pulled KL_HTTP_MP_EVT_ERROR) t.
Proof.
  intros Hs Hw. destruct o as [d| | |]; cbn [apply_op].
  - unfold mp_on_data. rewrite Hs, bind_Some_l. intros [= <- <-]. auto.
  - unfold kl_http_multipart_next. rewrite apply_consume_eq. cbn [next_loop]. unfold mp_round.
    cbn [state set_consumed set_input]. rewrite Hs, !bind_Some_l. intros [= <- <-]. auto.
  - intros [= <- <-]. auto.
  - intros [= <- <-]. destruct (on_error_good r Hw) as (_ & _ & _ & _ & Hst & He).
    split_and!; [|by apply He|done]. destruct Hst as [[Hd Heq]|]; [|done]. congruence.
Qed.

Lemma error_stays r os r' t : state r = KL_HTTP_MP_S_ERROR -> wf r -> run r os = Some (r', t) ->
  state r' = KL_HTTP_MP_S_ERROR /\ last_error r' = last_error r /\
  Forall (fun x => x = Pushed false \/ x = Pulled KL_HTTP_MP_EVT_ERROR) t.
Proof.
  revert r t. induction os as [|o os IH]; intros r t Hs Hw; cbn [run]; [by intros [= <- <-]|].
  destruct (apply_op r o) as [[r1 t1]|] eqn:E; [|done]. rewrite bind_Some_l.
  destruct (run r1 os) as [[r2 t2]|] eqn:E2; [|done]. intros [= <- <-].
  destruct (error_step _ _ _ _ Hs Hw E) as (Hs1 & He1 & Ht1).
  assert (Hw1 : wf r1).
  { destruct (apply_op_good r o Hw) as (r1' & t1' & Heq & Hw' & _). congruence. }
  apply IH in E2 as (Hs2 & He2 & Ht2); [|done..]. split_and!; [done|congruence|]. by apply Forall_app.
Qed.

Lemma error_seen r os r' t : wf r -> run r os = Some (r', t) ->
  Pushed false ∈ t \/ Pulled KL_HTTP_MP_EVT_ERROR ∈ t -> state r' = KL_HTTP_MP_S_ERROR.
Proof.
  revert r t. induction os as [|o os IH]; intros r t Hw; cbn [run].
  { intros [= <- <-] [H|H]; by apply not_elem_of_nil in H. }
  destruct (apply_op_good r o Hw) as (r1 & t1 & -> & Hw1 & Herr). rewrite bind_Some_l.
  destruct (run r1 os) as [[r2 t2]|] eqn:E2; [|done]. intros [= <- <-]. rewrite !elem_of_app. intros Hin.
  destruct (decide (state r1 = KL_HTTP_MP_S_ERROR)) as [Hs|Hs]; [by eapply error_stays in E2 as (? & _)|].
  eapply IH; [done|exact E2|]. destruct Hin as [[Hin|Hin]|[Hin|Hin]]; auto; exfalso; apply Hs, Herr; auto.
Qed.

(** C33.  Errors of the multipart reader are final.  Once a session has seen a failed push or an
    ERROR event, the reader has a definite cause other than NONE; every later push fails, every
    later pull answers ERROR, and the cause reported never changes. *)
Theorem multipart_error_final (ct : option (list Z)) (cfg : KlHttpMultipartConfig) (os1 os2 : list op)
    (r0 r1 r2 : KlHttpMultipartReader) (t1 t2 : list obs) (Hcfg : config_ok cfg)
    (Hf : kl_http_body_reader_multipart alloc_ok ct cfg = Some (Some r0))
    (H1 : run r0 os1 = Some (r1, t1)) (H2 : run r1 os2 = Some (r2, t2))
    (Herr : Pushed false ∈ t1 \/ Pulled KL_HTTP_MP_EVT_ERROR ∈ t1) :
  kl_http_multipart_last_error r1 <> KL_HTTP_MP_ERR_NONE /\
  kl_http_multipart_last_error r2 = kl_http_multipart_last_error r1 /\
  Forall (fun x => x = Pushed false \/ x = Pulled KL_HTTP_MP_EVT_ERROR) t2.
Proof.
  pose proof (factory_good ct cfg Hcfg) as Hg. rewrite Hf in Hg. destruct Hg as (Hw0 & _ & Ha0 & _).
  destruct (agrees_run _ r0 os1 Hw0 Ha0) as (r & t & Hr & Hw1 & _). rewrite Hr in H1. injection H1 as -> ->.
  pose proof (error_seen r0 os1 r1 t1 Hw0 Hr Herr) as Hs1.
  split; [by apply (wf_err r1 Hw1)|]. by apply error_stays in H2 as (_ & ? & ?).
Qed.

End oracle.

(** ** A session that ends in an error: the part exceeds its cap *)

Definition demo_ok : nat -> bool := fun _ => true.
Definition demo_ct : option (list Z) := Some (bytes "multipart/form-data; boundary=XyZ").
Definition demo_cfg : KlHttpMultipartConfig := mkConfig 4 0 1 0 4096.
Definition demo_reader : KlHttpMultipartReader :=
  mkReader ([13; 10; 45; 45] ++ bytes "XyZ") demo_cfg KL_HTTP_MP_S_PREAMBLE KL_HTTP_MP_ERR_NONE
    [] 0 0 false 0 0 0 [] 0 (mkMeta None None None) 1.
Definition demo_run1 : KlHttpMultipartReader * list obs :=
  default (demo_reader, []) (run demo_ok demo_reader [OpPush demo_body; OpPull; OpPull]).
Definition demo_run2 : KlHttpMultipartReader * list obs :=
  default (demo_reader, []) (run demo_ok demo_run1.1 [OpPush (bytes "x"); OpPull]).

Lemma multipart_error_final_witness :
  KL_HTTP_MP_ERR_PART_TOO_LARGE <> KL_HTTP_MP_ERR_NONE /\
  kl_http_multipart_last_error demo_run2.1 = KL_HTTP_MP_ERR_PART_TOO_LARGE /\
  Forall (fun x => x = Pushed false \/ x = Pulled KL_HTTP_MP_EVT_ERROR) [Pushed false; Pulled KL_HTTP_MP_EVT_ERROR].
Proof.
  apply (multipart_error_final demo_ok demo_ct demo_cfg [OpPush demo_body; OpPull; OpPull] [OpPush (bytes "x"); OpPull]
    demo_reader demo_run1.1 demo_run2.1 demo_run1.2 [Pushed false; Pulled KL_HTTP_MP_EVT_ERROR]).
  - by vm_compute.
  - vm_compute. reflexivity.
  - vm_compute. reflexivity.
  - vm_compute. reflexivity.
  - right. vm_compute. do 2 apply list_elem_of_further. apply list_elem_of_here.
Defined.

End Multipart.
