(* ===== verification/MultipartStream.v ===== *)
(** * What a multipart reader delivers (functional specification of Multipart.v)

    The grammar [mp_spec] assigns to a complete body the sequence of parts, bytes and the final
    outcome that a reader must deliver.  The first theorem of this file says that a handler which pulls
    after every push sees exactly that sequence, however the body is cut into pushes, or the beginning
    of it and then the error of a size limit that the body exceeds, for every boundary and every
    setting of the limits.  The second one says that the parts of a form, written with their names, file
    names and types, are what is read back. *)
From S2P Require Import Prelude CStr Multipart.
Import CStr Multipart.

Module MultipartStream.

(** ** The grammar *)

(** What is delivered, with the body of a part byte by byte. *)
Inductive atom :=
| ABegin (m : KlHttpMultipartPartMeta)
| AByte (c : Z)
| AEnd
| ADone
| AError (e : KlHttpMultipartErrorCode).

Abbreviation CRLFCRLF := [c_CR; c_LF; c_CR; c_LF] (only parsing).

(** The metadata of a header block, and whether the block is acceptable. *)
Definition block (h : list Z) : mp_rc * KlHttpMultipartPartMeta :=
  match mp_parse_headers (fun _ => true) h (mkMeta None None None) 0 with
  | Some (rc, m, _) => (rc, m)
  | None => (RC_BAD, mkMeta None None None)
  end.

Definition block_error (rc : mp_rc) : KlHttpMultipartErrorCode :=
  match rc with RC_NOMEM => KL_HTTP_MP_ERR_NOMEM | _ => KL_HTTP_MP_ERR_MALFORMED end.

(** The header block ends behind offset [k + 4], within the limit. *)
Definition header_end (lim : Z) (inp : list Z) (k : nat) : Prop :=
  first_at CRLFCRLF inp k /\ (0 < lim -> Z.of_nat k + 4 <= lim).

Definition no_header_end (lim : Z) (inp : list Z) : Prop := forall k, ~ header_end lim inp k.

Section grammar.
Context (d : list Z) (cfg : KlHttpMultipartConfig).

(** [mp_spec st n inp t]: in state [st], after [n] parts, the rest [inp] of the body delivers [t]. *)
Inductive mp_spec : KlHttpMultipartParserState -> Z -> list Z -> list atom -> Prop :=
| spec_first n inp k t :
    first_at (drop 2 d) inp k ->
    mp_spec KL_HTTP_MP_S_AFTER_BOUNDARY n (drop (k + length (drop 2 d)) inp) t ->
    mp_spec KL_HTTP_MP_S_PREAMBLE n inp t
| spec_no_first n inp :
    (forall k, ~ occurs (drop 2 d) inp k) ->
    mp_spec KL_HTTP_MP_S_PREAMBLE n inp [AError KL_HTTP_MP_ERR_PREMATURE_EOF]
| spec_close n rest :
    mp_spec KL_HTTP_MP_S_AFTER_BOUNDARY n (c_minus :: c_minus :: rest) [ADone]
| spec_part n rest t :
    (0 < max_parts cfg -> n < max_parts cfg) ->
    mp_spec KL_HTTP_MP_S_HEADERS n rest t ->
    mp_spec KL_HTTP_MP_S_AFTER_BOUNDARY n (c_CR :: c_LF :: rest) t
| spec_many n rest :
    0 < max_parts cfg <= n ->
    mp_spec KL_HTTP_MP_S_AFTER_BOUNDARY n (c_CR :: c_LF :: rest) [AError KL_HTTP_MP_ERR_TOO_MANY_PARTS]
| spec_bad n a b rest :
    (a, b) <> (c_minus, c_minus) -> (a, b) <> (c_CR, c_LF) ->
    mp_spec KL_HTTP_MP_S_AFTER_BOUNDARY n (a :: b :: rest) [AError KL_HTTP_MP_ERR_MALFORMED]
| spec_cut n inp :
    (length inp < 2)%nat ->
    mp_spec KL_HTTP_MP_S_AFTER_BOUNDARY n inp [AError KL_HTTP_MP_ERR_PREMATURE_EOF]
| spec_headers n inp k m t :
    header_end (max_headers_size cfg) inp k -> block (take (k + 4) inp) = (RC_OK, m) ->
    mp_spec KL_HTTP_MP_S_BODY (n + 1) (drop (k + 4) inp) t ->
    mp_spec KL_HTTP_MP_S_HEADERS n inp (ABegin m :: t)
| spec_headers_bad n inp k :
    header_end (max_headers_size cfg) inp k -> (block (take (k + 4) inp)).1 <> RC_OK ->
    mp_spec KL_HTTP_MP_S_HEADERS n inp [AError (block_error (block (take (k + 4) inp)).1)]
| spec_headers_long n inp :
    no_header_end (max_headers_size cfg) inp -> 0 < max_headers_size cfg < strlen inp ->
    mp_spec KL_HTTP_MP_S_HEADERS n inp [AError KL_HTTP_MP_ERR_HEADERS_TOO_LARGE]
| spec_headers_cut n inp :
    no_header_end (max_headers_size cfg) inp -> (0 < max_headers_size cfg -> strlen inp <= max_headers_size cfg) ->
    mp_spec KL_HTTP_MP_S_HEADERS n inp [AError KL_HTTP_MP_ERR_PREMATURE_EOF]
| spec_body n inp k t :
    first_at d inp k ->
    mp_spec KL_HTTP_MP_S_AFTER_BOUNDARY n (drop (k + length d) inp) t ->
    mp_spec KL_HTTP_MP_S_BODY n inp ((AByte <$> take k inp) ++ AEnd :: t)
| spec_body_cut n inp :
    (forall k, ~ occurs d inp k) ->
    mp_spec KL_HTTP_MP_S_BODY n inp
      ((AByte <$> take (length inp - (length d - 1)) inp) ++ [AError KL_HTTP_MP_ERR_PREMATURE_EOF]).

End grammar.

(** ** The grammar is a function *)

Lemma header_end_fun lim inp k k' : header_end lim inp k -> header_end lim inp k' -> k = k'.
Proof. intros [H _] [H' _]. by eapply first_at_fun. Qed.

Lemma mp_spec_fun d cfg st n inp t1 t2 : mp_spec d cfg st n inp t1 -> mp_spec d cfg st n inp t2 -> t1 = t2.
Proof.
  intros H. revert t2.
  induction H as [n inp k t1 Hf _ IH|n inp Hno|n rest|n rest t1 Hn _ IH|n rest Hn|n a b rest Ha Hb|n inp Hl
    |n inp k m t1 He Hb _ IH|n inp k He Hb|n inp Hno Hl|n inp Hno Hl|n inp k t1 Hf _ IH|n inp Hno];
    intros t2 H2; inversion H2; subst; try done; try lia; try (simpl in *; lia);
    repeat match goal with
    | H : first_at ?d ?i ?k, H' : first_at ?d ?i ?k' |- _ => assert (k' = k) as -> by (by eapply first_at_fun); clear H'
    | H : header_end ?d ?i ?k, H' : header_end ?d ?i ?k' |- _ => assert (k' = k) as -> by (by eapply header_end_fun); clear H'
    | H : forall k, ~ occurs ?d ?i k, H' : first_at ?d ?i _ |- _ => destruct (H _ (proj1 H'))
    | H : no_header_end ?l ?i, H' : header_end ?l ?i _ |- _ => destruct (H _ H')
    | H : block ?h = _, H' : context [block ?h] |- _ => rewrite H in H'; cbn in H'
    end; try done; try congruence; try (f_equal; auto); auto.
  all: try (simplify_eq; f_equal; auto).
Qed.

(** Every body means something. *)
Lemma mp_spec_total d cfg st n inp : drop 2 d <> [] -> st <> KL_HTTP_MP_S_ERROR -> st <> KL_HTTP_MP_S_DONE -> exists t, mp_spec d cfg st n inp t.
Proof.
  intros Hd. assert (Hd1 : (0 < length (drop 2 d))%nat) by (destruct (drop 2 d); [done|simpl; lia]).
  assert (Hd2 : (0 < length d)%nat) by (rewrite length_drop in Hd1; lia).
  remember (length inp) as l eqn:El. revert st n inp El. induction l as [l IH] using lt_wf_ind. intros st n inp -> He Hn.
  assert (Hrest : forall st' n' k, (0 < k)%nat -> (k <= length inp)%nat -> st' <> KL_HTTP_MP_S_ERROR -> st' <> KL_HTTP_MP_S_DONE ->
    exists t, mp_spec d cfg st' n' (drop k inp) t) by (intros; eapply IH; [|done..]; rewrite length_drop; lia).
  destruct st; try done.
  - destruct (mp_memmem inp (drop 2 d)) as [k|] eqn:E.
    + apply memmem_Some in E. pose proof (occurs_bound _ _ _ Hd (proj1 E)).
      destruct (Hrest KL_HTTP_MP_S_AFTER_BOUNDARY n (k + length (drop 2 d))%nat) as [t Ht]; [lia..|done|done|]. exists t. by eapply spec_first.
    + eexists. apply spec_no_first. by apply memmem_None.
  - destruct inp as [|a [|b rest]]; [eexists; apply spec_cut; simpl; lia..|].
    destruct (decide ((a, b) = (c_minus, c_minus))) as [[= -> ->]|H1]; [eexists; by apply spec_close|].
    destruct (decide ((a, b) = (c_CR, c_LF))) as [[= -> ->]|H2]; [|eexists; by apply spec_bad].
    destruct (decide (0 < max_parts cfg <= n)); [eexists; by apply spec_many|].
    destruct (Hrest KL_HTTP_MP_S_HEADERS n 2%nat) as [t Ht]; [lia|simpl; lia|done|done|]. exists t. apply spec_part; [lia|done].
  - assert (Hlong : no_header_end (max_headers_size cfg) inp -> exists t, mp_spec d cfg KL_HTTP_MP_S_HEADERS n inp t).
    { intros Hx. destruct (decide (0 < max_headers_size cfg < strlen inp)); eexists; [by apply spec_headers_long|].
      apply spec_headers_cut; [done|]. lia. }
    destruct (mp_memmem inp CRLFCRLF) as [k|] eqn:E; [|apply Hlong; intros k [[Ho _] _]; by apply (proj1 (memmem_None _ _) E k)].
    apply memmem_Some in E. pose proof (occurs_bound CRLFCRLF _ _ ltac:(done) (proj1 E)) as Hb. simpl in Hb.
    destruct (decide (0 < max_headers_size cfg < Z.of_nat k + 4)) as [Hl|Hl].
    { apply Hlong. intros k' [Hk' Hl']. assert (k' = k) as -> by by eapply first_at_fun. lia. }
    assert (Hend : header_end (max_headers_size cfg) inp k) by (split; [done|lia]).
    destruct (block (take (k + 4) inp)) as [rc m] eqn:Eb. destruct rc.
    + destruct (Hrest KL_HTTP_MP_S_BODY (n + 1) (k + 4)%nat) as [t Ht]; [lia..|done|done|]. eexists. by eapply spec_headers.
    + eexists. apply spec_headers_bad; [done|]. by rewrite Eb.
    + eexists. apply spec_headers_bad; [done|]. by rewrite Eb.
  - assert (Hne : d <> []) by (destruct d; [simpl in Hd2; lia|done]). destruct (mp_memmem inp d) as [k|] eqn:E.
    + apply memmem_Some in E. pose proof (occurs_bound _ _ _ Hne (proj1 E)).
      destruct (Hrest KL_HTTP_MP_S_AFTER_BOUNDARY n (k + length d)%nat) as [t Ht]; [lia..|done|done|]. eexists. by eapply spec_body.
    + eexists. apply spec_body_cut. by apply memmem_None.
Qed.

(** ** The header block does not depend on the parts before it *)

Section pure.
Abbreviation granted := (fun _ : nat => true) (only parsing).

Lemma strdup_pure k s : mp_strdup granted k s = mp_strdup granted 0 s.
Proof. done. Qed.

Lemma disposition_pure val : exists rc n f j, forall m k,
  mp_parse_disposition granted m k val = Some (rc, mkMeta n f (m_content_type m), (k + j)%nat).
Proof.
  destruct (disposition_total granted (mkMeta None None None) 0 val) as [[[rc m0] j] E].
  exists rc, (m_name m0), (m_filename m0), j. intros m k. revert E. unfold mp_parse_disposition.
  destruct (find_param_total val (bytes "name=")) as [np ->]. rewrite !bind_Some_l.
  assert (Hret : forall c a b i, Some (c, mkMeta a b None, i) = Some (rc, m0, j) ->
    Some (c, mkMeta a b (m_content_type m), (k + i)%nat) = Some (rc, mkMeta (m_name m0) (m_filename m0) (m_content_type m), (k + j)%nat)).
  { by intros c a b i [= <- <- <-]. }
  pose proof (fun c a b => Hret c a b 0%nat) as H0. pose proof (fun c a b => Hret c a b 1%nat) as H1.
  pose proof (fun c a b => Hret c a b 2%nat) as H2. setoid_rewrite Nat.add_0_r in H0.
  setoid_rewrite Nat.add_1_r in H1. setoid_rewrite (Nat.add_comm k 2) in H2. cbn [Nat.add] in H2. clear Hret.
  destruct np as [np|]; [|apply H0]. destruct (param_value np) as [name|]; [|apply H0]. do 2 (case_if; [apply H0|]).
  rewrite (strdup_pure k). destruct (mp_strdup granted 0 name) as [nm|]; [|apply H1].
  destruct (find_param_total val (bytes "filename=")) as [fp ->]. rewrite !bind_Some_l.
  destruct fp as [fp|]; [|apply H1]. destruct (param_value fp) as [fn|]; [|apply H1]. case_if; [apply H1|].
  rewrite (strdup_pure (S k)), (strdup_pure 1). destruct (mp_strdup granted 0 fn); apply H2.
Qed.

(** Two metadata records that a header block will make equal. *)
Definition alike (got : bool) (m1 m2 : KlHttpMultipartPartMeta) : Prop :=
  m_content_type m1 = m_content_type m2 /\
  (got = true -> m_name m1 = m_name m2 /\ m_filename m1 = m_filename m2).

Lemma header_line_pure line : exists rc disp g j,
  (forall m k, header_line granted m k line = Some (rc, g m, (k + j)%nat, disp)) /\
  (forall got m1 m2, alike got m1 m2 -> alike (got || disp) (g m1) (g m2)).
Proof.
  unfold header_line. destruct (mem_chr line c_colon) as [n|].
  2: { exists RC_OK, false, id, 0%nat. split; [intros; by rewrite Nat.add_0_r|]. intros got m1 m2. by rewrite orb_false_r. }
  case_if; [|case_if].
  - destruct (disposition_pure (skip_sp (drop (n + 1) line))) as (rc & nm & f & j & Hd).
    exists rc, true, (fun m => mkMeta nm f (m_content_type m)), j. split; [intros m k; by rewrite Hd|].
    intros got m1 m2 [Hc _]. by split.
  - destruct (mp_strdup granted 0 (skip_sp (drop (n + 1) line))) as [v|] eqn:E.
    + exists RC_OK, false, (fun m => mkMeta (m_name m) (m_filename m) (Some v)), 1%nat.
      split; [intros m k; by rewrite (strdup_pure k), E, Nat.add_1_r|].
      intros got m1 m2 [_ Hg]. rewrite orb_false_r. by split.
    + exists RC_NOMEM, false, (fun m => mkMeta (m_name m) (m_filename m) None), 1%nat.
      split; [intros m k; by rewrite (strdup_pure k), E, Nat.add_1_r|].
      intros got m1 m2 [_ Hg]. rewrite orb_false_r. by split.
  - exists RC_OK, false, id, 0%nat. split; [intros; by rewrite Nat.add_0_r|]. intros got m1 m2. by rewrite orb_false_r.
Qed.

Lemma headers_loop_pure fuel buf got m1 m2 k1 k2 rc1 m1' k1' rc2 m2' k2' : alike got m1 m2 ->
  headers_loop granted fuel buf m1 k1 got = Some (rc1, m1', k1') ->
  headers_loop granted fuel buf m2 k2 got = Some (rc2, m2', k2') ->
  rc1 = rc2 /\ (rc1 = RC_OK -> m1' = m2').
Proof.
  revert buf got m1 m2 k1 k2. induction fuel as [|fuel IH]; intros buf got m1 m2 k1 k2 Ha; cbn [headers_loop]; [done|].
  assert (Hend : forall g a b, alike g a b -> (if g then RC_OK else RC_BAD) = RC_OK -> a = b).
  { intros g [] [] [Hc Hg] Hr. destruct g; [|done]. cbn in *. destruct (Hg eq_refl). congruence. }
  case_if. { intros [= <- <- <-] [= <- <- <-]. split; [done|]. by apply Hend. }
  set (line := take _ buf). destruct (header_line_pure line) as (rc & disp & g & j & Hl & Hg).
  rewrite !Hl, !bind_Some_l. specialize (Hg got m1 m2 Ha).
  destruct rc; [|intros [= <- <- <-] [= <- <- <-]; done..].
  destruct (mp_memmem buf [c_CR; c_LF]); [by apply IH|].
  intros [= <- <- <-] [= <- <- <-]. split; [done|]. by apply Hend.
Qed.

(** With every allocation granted, the parser's answer on [h] is [block h]. *)
Lemma parse_headers_block h m k : exists m' k',
  mp_parse_headers granted h m k = Some ((block h).1, m', k') /\ ((block h).1 = RC_OK -> m' = (block h).2).
Proof.
  unfold block. destruct (parse_headers_total granted h m k) as [[[rc m'] k'] H1].
  destruct (parse_headers_total granted h (mkMeta None None None) 0) as [[[rc0 m0] k0] H0].
  rewrite H0. cbn [fst snd]. exists m', k'. rewrite H1.
  assert (Ha : alike false (mkMeta (m_name m) (m_filename m) None) (mkMeta None None None)) by (by split).
  destruct (headers_loop_pure _ _ _ _ _ _ _ _ _ _ _ _ _ Ha H1 H0) as [-> Hm]. split; [done|exact Hm].
Qed.

End pure.

(** ** Each round follows the grammar *)

(** The bytes a reader holds that it has not delivered. *)
Definition pend (r : KlHttpMultipartReader) : list Z :=
  (if bool_decide (state r = KL_HTTP_MP_S_HEADERS) then hdr r else []) ++ drop (input_consumed r) (input r).

(** [denotes r f t]: when [f] is still to come, the reader [r] must deliver [t]. *)
Definition denotes (r : KlHttpMultipartReader) (f : list Z) (t : list atom) : Prop :=
  mp_spec (delimiter r) (config r) (state r) (parts_begun r) (pend r ++ f) t.

(** The most bytes of one part in [t], which goes on with [c] bytes of a part delivered. *)
Fixpoint largest (c : Z) (t : list atom) : Z :=
  match t with
  | [] => c
  | AByte _ :: t' => largest (c + 1) t'
  | ABegin _ :: t' => Z.max c (largest 0 t')
  | _ :: t' => largest c t'
  end.

Lemma largest_ge c t : c <= largest c t.
Proof. revert c. induction t as [|[] t IH]; intros c'; cbn; try lia; [specialize (IH (c' + 1)); lia|apply IH..]. Qed.

Lemma largest_mono c c' t : c <= c' -> largest c t <= largest c' t.
Proof. revert c c'. induction t as [|[] t IH]; intros x y Hxy; cbn; auto with lia. Qed.

Lemma largest_bytes c l t : largest c ((AByte <$> l) ++ t) = largest (c + strlen l) t.
Proof.
  revert c. induction l as [|b l IH]; intros c; unfold strlen in *; cbn; [by rewrite Z.add_0_r|]. rewrite IH. f_equal. lia.
Qed.

(** The part that is being delivered, or a later one, is longer than the limit. *)
Definition over (r : KlHttpMultipartReader) (t : list atom) : Prop :=
  0 < max_part_size (config r) < largest (current_part_size r) t.

Definition atoms (r' : KlHttpMultipartReader) (ev : KlHttpMultipartEvent) : list atom :=
  match ev with
  | KL_HTTP_MP_EVT_PART_BEGIN m => [ABegin m]
  | KL_HTTP_MP_EVT_PART_DATA d => AByte <$> d
  | KL_HTTP_MP_EVT_PART_END => [AEnd]
  | KL_HTTP_MP_EVT_DONE => [ADone]
  | KL_HTTP_MP_EVT_NEED_DATA => []
  | KL_HTTP_MP_EVT_ERROR => [AError (last_error r')]
  end.

Definition final (ev : KlHttpMultipartEvent) : bool :=
  match ev with KL_HTTP_MP_EVT_DONE | KL_HTTP_MP_EVT_ERROR => true | _ => false end.

Definition needs (ev : KlHttpMultipartEvent) : bool :=
  match ev with KL_HTTP_MP_EVT_NEED_DATA => true | _ => false end.

(** The settings of a reader, which no operation changes. *)
Definition same_settings (r r' : KlHttpMultipartReader) : Prop :=
  delimiter r' = delimiter r /\ config r' = config r /\ stream_ended r' = stream_ended r /\
  total_received r' = total_received r.

(** What an outcome owes to the grammar, for every continuation [f] of the body: it delivers what the
    grammar says, or finds a part too large that is. *)
Definition follows (r : KlHttpMultipartReader) (x : round) : Prop :=
  forall f, (stream_ended r = true -> f = []) ->
  match x with
  | inl r' => same_settings r r' /\ (forall t, denotes r' f t -> denotes r f t) /\ (length (pend r') <= length (pend r))%nat /\
      current_part_size r' <= current_part_size r
  | inr (r', ev) =>
      same_settings r r' /\
      if final ev then denotes r f (atoms r' ev) \/
        atoms r' ev = [AError KL_HTTP_MP_ERR_PART_TOO_LARGE] /\ forall t, denotes r f t -> over r t
      else (forall t, denotes r' f t -> denotes r f (atoms r' ev ++ t)) /\
        (forall t, largest (current_part_size r') t <= largest (current_part_size r) (atoms r' ev ++ t)) /\
        if needs ev then stream_ended r = false /\ (length (pend r') <= length (pend r))%nat
        else (length (pend r') < length (pend r))%nat
  end.

Lemma pend_plain r : state r <> KL_HTTP_MP_S_HEADERS -> input_consumed r = 0%nat -> pend r = input r.
Proof. intros Hs Hc. unfold pend. by rewrite bool_decide_false, Hc, drop_0. Qed.

Lemma pend_headers r : state r = KL_HTTP_MP_S_HEADERS -> input_consumed r = 0%nat -> pend r = hdr r ++ input r.
Proof. intros Hs Hc. unfold pend. by rewrite bool_decide_true, Hc, drop_0. Qed.

(** Waiting for data, or the end of the stream in the middle of something. *)
Lemma need_follows r r' : same_settings r r' ->
  (forall f t, denotes r' f t -> denotes r f t) -> (length (pend r') <= length (pend r))%nat -> current_part_size r' = current_part_size r ->
  denotes r [] [AError KL_HTTP_MP_ERR_PREMATURE_EOF] -> follows r (inr (mp_need_or_eof r')).
Proof.
  intros Hset Hd Hl Hcp He f Hf. unfold mp_need_or_eof. destruct (stream_ended r') eqn:Ee.
  - cbn. assert (Hr : stream_ended r = true) by (destruct Hset as (_ & _ & Hs & _); congruence).
    rewrite (Hf Hr). split; [|by left]. destruct Hset as (? & ? & ? & ?). by repeat split.
  - cbn [final atoms app needs]. split; [done|]. split_and!; [by apply Hd|by rewrite Hcp| |done].
    destruct Hset as (_ & _ & Hs & _). congruence.
Qed.

Lemma delim_first r : wf r -> drop 2 (delimiter r) <> [].
Proof. intros Hw He. apply (f_equal length) in He. rewrite length_drop in He. pose proof (wf_delim r Hw). simpl in He. lia. Qed.

Lemma short_no_occurs needle hay k : needle <> [] -> (length hay < length needle)%nat -> ~ occurs needle hay k.
Proof. intros Hne Hl Ho. apply occurs_bound in Ho; [lia|done]. Qed.

Lemma preamble_follows r : wf r -> input_consumed r = 0%nat -> state r = KL_HTTP_MP_S_PREAMBLE -> follows r (mp_preamble r).
Proof.
  intros Hw Hc Hs. pose proof (delim_first r Hw) as Hne. assert (Hp : pend r = input r) by (apply pend_plain; congruence).
  unfold mp_preamble. destruct (Nat.ltb_spec (length (input r)) (length (drop 2 (delimiter r)))) as [Hl|Hl].
  { apply need_follows; [done|done|done|done|]. unfold denotes. rewrite Hs, Hp, app_nil_r. constructor.
    intros k. by apply short_no_occurs. }
  destruct (mp_memmem (input r) (drop 2 (delimiter r))) as [k|] eqn:E.
  - apply memmem_Some in E as Hfirst. pose proof (occurs_bound _ _ _ Hne (proj1 Hfirst)) as Hb.
    intros f _. rewrite consume_eq. split; [done|]. split_and!; [| |done].
    + intros t Ht. unfold denotes in *. rewrite Hs, Hp. apply (spec_first _ _ _ _ k); [by apply first_at_app|].
      unfold pend in Ht. cbn -[app drop] in Ht. rewrite bool_decide_false in Ht by done.
      by rewrite drop_app_le by lia.
    + unfold pend. cbn -[drop]. rewrite Hs, !bool_decide_false, Hc by done. cbn. rewrite drop_0, !length_drop. lia.
  - pose proof (proj1 (memmem_None _ _) E) as Hno. set (n := (length (input r) - (length (drop 2 (delimiter r)) - 1))%nat).
    assert (Hn : (n + (length (drop 2 (delimiter r)) - 1) <= length (input r))%nat) by lia.
    assert (Heof : denotes r [] [AError KL_HTTP_MP_ERR_PREMATURE_EOF]).
    { unfold denotes. rewrite Hs, Hp, app_nil_r. by constructor. }
    case_if; [|by apply need_follows]. rewrite consume_eq. apply need_follows; [done| | |done|done].
    + intros f t Ht. unfold denotes in *. rewrite Hs, Hp. unfold pend in Ht. cbn -[app drop] in Ht.
      rewrite Hs, bool_decide_false in Ht by done. cbn [app] in Ht. rewrite drop_0 in Ht.
      inversion Ht as [? ? k ? Hfi Hrest|? ? Hnone| | | | | | | | | | | ]; subst.
      * apply (spec_first _ _ _ _ (n + k)); [by apply first_at_skip|].
        assert (Heq : drop n (input r) ++ f = drop n (input r ++ f)) by (by rewrite drop_app_le by lia).
        fold n in Hrest. rewrite Heq, drop_drop in Hrest. by rewrite <- Nat.add_assoc.
      * apply spec_no_first. by apply (never_skip _ _ _ n).
    + unfold pend. cbn -[drop]. rewrite Hs, !bool_decide_false, Hc by done. cbn. rewrite !drop_0, length_drop. lia.
Qed.

Lemma after_boundary_follows r : wf r -> input_consumed r = 0%nat -> state r = KL_HTTP_MP_S_AFTER_BOUNDARY ->
  follows r (mp_after_boundary r).
Proof.
  intros Hw Hc Hs. assert (Hp : pend r = input r) by (apply pend_plain; congruence).
  unfold mp_after_boundary. destruct (input r) as [|a [|b rest]] eqn:Ei.
  1,2: apply need_follows; [done|done|done|done|]; unfold denotes; rewrite Hs, Hp; apply spec_cut; simpl; lia.
  rewrite consume_eq, Ei. cbn [drop]. destruct ((a =? c_minus) && (b =? c_minus)) eqn:E1.
  { breflect. subst. intros f _. split; [done|]. cbn [final atoms]. left. unfold denotes. rewrite Hs, Hp. apply spec_close. }
  destruct ((a =? c_CR) && (b =? c_LF)) eqn:E2.
  - breflect. subst. destruct ((0 <? max_parts (config r)) && _) eqn:Em.
    + breflect. intros f _. split; [done|]. cbn [final atoms]. left. unfold denotes. rewrite Hs, Hp. by apply spec_many.
    + apply andb_false_iff in Em. rewrite Z.ltb_ge, Z.leb_gt in Em. intros f _. split; [done|]. split_and!; [| |cbn; by destruct (wf_count r Hw)].
      * intros t Ht. unfold denotes in *. rewrite Hs, Hp. apply spec_part; [lia|].
        unfold pend in Ht. cbn -[app drop] in Ht. rewrite bool_decide_true in Ht by done. exact Ht.
      * rewrite Hp. unfold pend. cbn -[drop]. rewrite bool_decide_true by done. cbn [app]. rewrite !drop_0. lia.
  - intros f _. split; [done|]. cbn [final atoms mp_fail]. left. unfold denotes. rewrite Hs, Hp. apply spec_bad.
    + intros [= -> ->]. done.
    + intros [= -> ->]. done.
Qed.

Lemma delim_nonempty r : wf r -> delimiter r <> [].
Proof. intros Hw He. pose proof (wf_delim r Hw) as Hd. rewrite He in Hd. simpl in Hd. lia. Qed.

Lemma denotes_total r f : wf r -> state r <> KL_HTTP_MP_S_ERROR -> state r <> KL_HTTP_MP_S_DONE -> exists t, denotes r f t.
Proof. intros Hw He Hd. apply mp_spec_total; [by apply delim_first|done..]. Qed.

Lemma emit_follows n r : wf r -> state r = KL_HTTP_MP_S_BODY -> input_consumed r = 0%nat -> (0 < n <= length (input r))%nat ->
  (forall f t, mp_spec (delimiter r) (config r) KL_HTTP_MP_S_BODY (parts_begun r) (drop n (input r) ++ f) t ->
     mp_spec (delimiter r) (config r) KL_HTTP_MP_S_BODY (parts_begun r) (input r ++ f) ((AByte <$> take n (input r)) ++ t)) ->
  follows r (inr (mp_emit n r)).
Proof.
  intros Hw Hs Hc Hn Hspec f _. assert (Hp : pend r = input r) by (apply pend_plain; congruence).
  assert (Hlen : strlen (take n (input r)) = Z.of_nat n) by (unfold strlen; rewrite length_take; lia).
  unfold mp_emit. destruct ((0 <? max_part_size (config r)) && _) eqn:Hx.
  - split; [done|]. cbn [final atoms mp_fail last_error]. right. split; [done|]. intros t Ht. unfold denotes in Ht. rewrite Hs, Hp in Ht.
    destruct (mp_spec_total (delimiter r) (config r) KL_HTTP_MP_S_BODY (parts_begun r) (drop n (input r) ++ f)) as [t1 Ht1]; [by apply delim_first|done..|].
    rewrite (mp_spec_fun _ _ _ _ _ _ _ Ht (Hspec _ _ Ht1)). unfold over. rewrite largest_bytes, Hlen.
    pose proof (largest_ge (current_part_size r + Z.of_nat n) t1). apply andb_true_iff in Hx as [Hx1%Z.ltb_lt Hx2%orb_true_iff].
    rewrite !Z.ltb_lt in Hx2. pose proof (wf_count r Hw). lia.
  - split; [done|]. cbn [final atoms needs]. split_and!.
    + intros t Ht. unfold denotes in *. rewrite Hs, Hp. apply Hspec. unfold pend in Ht. cbn -[app drop] in Ht.
      rewrite Hs, bool_decide_false in Ht by done. exact Ht.
    + intros t. rewrite largest_bytes, Hlen. done.
    + rewrite Hp. unfold pend. cbn -[drop]. rewrite Hs, bool_decide_false by done. cbn [app]. rewrite length_drop. lia.
Qed.

(** Bytes in front of the last [length d - 1] of a delimiter-free input are body bytes. *)
Lemma body_skip d cfg np inp n f t : d <> [] -> (forall k, ~ occurs d inp k) -> (n + (length d - 1) <= length inp)%nat ->
  mp_spec d cfg KL_HTTP_MP_S_BODY np (drop n inp ++ f) t ->
  mp_spec d cfg KL_HTTP_MP_S_BODY np (inp ++ f) ((AByte <$> take n inp) ++ t).
Proof.
  intros Hne Hno Hn Ht. assert (Heq : drop n inp ++ f = drop n (inp ++ f)) by (by rewrite drop_app_le by lia).
  assert (Htk : forall j, take (n + j) (inp ++ f) = take n inp ++ take j (drop n inp ++ f)).
  { intros j. rewrite Heq, <- (take_app_le inp f n) by lia. by rewrite take_take_drop. }
  inversion Ht as [ | | | | | | | | | | |? ? k t' Hfi Hrest|? ? Hnone]; subst.
  - rewrite app_assoc, <- fmap_app, <- Htk. apply spec_body; [by apply first_at_skip|].
    rewrite Heq, drop_drop in Hrest. by rewrite <- Nat.add_assoc.
  - rewrite app_assoc, <- fmap_app, <- Htk.
    replace (n + (length (drop n inp ++ f) - (length d - 1)))%nat with (length (inp ++ f) - (length d - 1))%nat
      by (rewrite !length_app, length_drop; lia).
    apply spec_body_cut. by apply (never_skip _ _ _ n).
Qed.

Lemma body_follows r : wf r -> input_consumed r = 0%nat -> state r = KL_HTTP_MP_S_BODY ->
  follows r (inr (mp_body r)).
Proof.
  intros Hw Hc Hs. pose proof (delim_nonempty r Hw) as Hne. pose proof (wf_delim r Hw) as Hd.
  assert (Hp : pend r = input r) by (apply pend_plain; congruence).
  assert (Hcut : forall l, (forall k, ~ occurs (delimiter r) l k) -> (length l <= length (delimiter r) - 1)%nat ->
    mp_spec (delimiter r) (config r) KL_HTTP_MP_S_BODY (parts_begun r) l [AError KL_HTTP_MP_ERR_PREMATURE_EOF]).
  { intros l Hno Hl. pose proof (spec_body_cut (delimiter r) (config r) (parts_begun r) l Hno) as Hx.
    replace (length l - (length (delimiter r) - 1))%nat with 0%nat in Hx by lia. exact Hx. }
  unfold mp_body. destruct (Nat.eqb_spec (length (input r)) 0) as [Hz|Hz].
  { apply need_follows; [done|done|done|done|]. unfold denotes. rewrite Hs, Hp, app_nil_r. apply Hcut; [|lia].
    intros k. apply short_no_occurs; [done|lia]. }
  destruct (mp_memmem (input r) (delimiter r)) as [k|] eqn:E.
  - apply memmem_Some in E as Hfirst. pose proof (occurs_bound _ _ _ Hne (proj1 Hfirst)) as Hb.
    destruct (Nat.ltb_spec 0 k) as [Hk|Hk].
    + apply emit_follows; [done|done|done|lia|]. intros f t Ht.
      assert (Heq : drop k (input r) ++ f = drop k (input r ++ f)) by (by rewrite drop_app_le by lia).
      pose proof (first_at_app _ _ f _ Hne Hfirst) as Hf.
      inversion Ht as [ | | | | | | | | | | |? ? k' t' Hfi Hrest|? ? Hnone]; subst.
      * assert (Hk' : k' = 0%nat).
        { eapply first_at_fun; [exact Hfi|]. rewrite Heq. split; [|lia]. apply occurs_drop. rewrite Nat.add_0_r. apply Hf. }
        subst k'. rewrite Heq, drop_drop in Hrest. cbn [take fmap list_fmap app].
        rewrite <- (take_app_le (input r) f) by lia. by apply spec_body.
      * exfalso. apply (Hnone 0%nat). rewrite Heq. apply occurs_drop. rewrite Nat.add_0_r. apply Hf.
    + assert (k = 0%nat) as -> by lia. intros f _. rewrite consume_eq. split; [done|]. cbn [final atoms needs]. split_and!; [|done|].
      * intros t Ht. unfold denotes in *. rewrite Hs, Hp. unfold pend in Ht. cbn -[app drop] in Ht.
        rewrite bool_decide_false, drop_0 in Ht by done. cbn [app] in Ht.
        apply (spec_body _ _ _ _ 0 t); [by apply first_at_app|]. by rewrite drop_app_le by lia.
      * rewrite Hp. unfold pend. cbn -[drop]. rewrite bool_decide_false by done. cbn [app]. rewrite drop_0, length_drop. lia.
  - pose proof (proj1 (memmem_None _ _) E) as Hno.
    destruct (Nat.ltb_spec (length (delimiter r) - 1) (length (input r))) as [Hl|Hl].
    + set (n := (length (input r) - (length (delimiter r) - 1))%nat).
      apply emit_follows; [done|done|done|lia|]. intros f t Ht. apply body_skip; [done|done|lia|done].
    + apply need_follows; [done|done|done|done|]. unfold denotes. rewrite Hs, Hp, app_nil_r. by apply Hcut.
Qed.

Abbreviation granted := (fun _ : nat => true).

(** A terminator-free prefix at least as long as the limit rules out an acceptable header block. *)
Lemma no_end_prefix lim h x : mp_memmem h CRLFCRLF = None -> 0 < lim <= strlen h -> no_header_end lim (h ++ x).
Proof.
  intros Hn Hl k [[Ho _] Hk]. apply (proj1 (memmem_None _ _) Hn k). apply occurs_app_l in Ho; [done|].
  unfold strlen in Hl. specialize (Hk ltac:(lia)). simpl. lia.
Qed.

Lemma no_end_whole lim h : mp_memmem h CRLFCRLF = None -> no_header_end lim h.
Proof. intros Hn k [[Ho _] _]. by apply (proj1 (memmem_None _ _) Hn k). Qed.

Lemma pulled_pend r n c k : state r = KL_HTTP_MP_S_HEADERS -> input_consumed r = 0%nat -> (n <= length (input r))%nat ->
  pend (pulled n c k r) = pend r.
Proof.
  intros Hs Hc Hn. rewrite (pend_headers r) by done. unfold pend, pulled. cbn -[app drop take].
  rewrite Hs, bool_decide_true, Hc, drop_0, <- app_assoc by done. by rewrite take_drop.
Qed.

(** The header block has been found: the outcome of the headers state. *)
Lemma headers_done_follows r n c k e : wf r -> input_consumed r = 0%nat -> state r = KL_HTTP_MP_S_HEADERS ->
  (0 < n <= length (input r))%nat ->
  (0 < max_headers_size (config r) -> hdr_len r + Z.of_nat n <= max_headers_size (config r)) ->
  mp_memmem (hdr r ++ take n (input r)) CRLFCRLF = Some e ->
  exists r' ev, headers_done granted (pulled n c k r) (e + 4) = Some (r', ev) /\ follows r (inr (r', ev)).
Proof.
  intros Hw Hc Hs Hn Hlim He. pose proof (terminator_late _ _ _ (proj1 (wf_headers r Hw Hs)) He) as Hlate.
  rewrite length_take, Nat.min_l in Hlate by lia. apply memmem_Some in He.
  pose proof (wf_no_error r Hw ltac:(congruence)) as Hle.
  set (h := hdr r ++ take n (input r)) in *. assert (Hh : length h = (length (hdr r) + n)%nat).
  { unfold h. rewrite length_app, length_take. lia. }
  assert (Hpend : forall f, pend r ++ f = h ++ drop n (input r) ++ f).
  { intros f. rewrite (pend_headers r) by done. unfold h. by rewrite <- (take_drop n (input r)) at 1; rewrite <- !app_assoc. }
  assert (Hend : forall f, header_end (max_headers_size (config r)) (pend r ++ f) e).
  { intros f. rewrite Hpend. split; [by apply first_at_app|]. intros Hl. unfold hdr_len, strlen in Hlim. specialize (Hlim Hl). lia. }
  assert (Htk : forall f, take (e + 4) (pend r ++ f) = take (e + 4) h).
  { intros f. by rewrite Hpend, take_app_le by lia. }
  unfold headers_done. change (hdr (pulled n c k r)) with h.
  destruct (parse_headers_block (take (e + 4) h) (cur (pulled n c k r)) (allocs (pulled n c k r))) as (m & k' & -> & Hm).
  rewrite bind_Some_l. cbv zeta. destruct (block (take (e + 4) h)) as [rc m0] eqn:Eb. cbn [fst snd] in *. destruct rc.
  - specialize (Hm eq_refl). subst m0. do 2 eexists. split; [reflexivity|]. intros f _.
    split; [by repeat split|]. cbn [final atoms needs app]. split_and!; [|intros t; cbn -[largest]; destruct (wf_headers r Hw Hs) as [_ Hz]; cbn; rewrite ?Hz; lia|].
    + intros t Ht. unfold denotes in *. rewrite Hs. apply (spec_headers _ _ _ _ e); [done|by rewrite Htk|].
      unfold pend in Ht. cbn -[app drop take] in Ht. rewrite bool_decide_false in Ht by done.
      rewrite Hc, drop_0 in Ht. cbn [app] in Ht. rewrite Hpend, drop_app_le by lia.
      rewrite <- app_assoc in Ht. exact Ht.
    + rewrite (pend_headers r) by done. unfold pend. cbn -[app drop take]. rewrite bool_decide_false, Hc, drop_0 by done.
      cbn [app]. fold h. rewrite !length_app, !length_drop, Hh. lia.
  - rewrite fail_or_keep_bad by exact Hle. do 2 eexists. split; [reflexivity|]. intros f _.
    split; [by repeat split|]. cbn [final atoms mp_fail]. left. unfold denotes. rewrite Hs.
    pose proof (spec_headers_bad (delimiter r) (config r) (parts_begun r) (pend r ++ f) e (Hend f)) as Hx.
    rewrite Htk, Eb in Hx. by apply Hx.
  - rewrite fail_or_keep_nomem. do 2 eexists. split; [reflexivity|]. intros f _.
    split; [by repeat split|]. cbn [final atoms mp_fail]. left. unfold denotes. rewrite Hs.
    pose proof (spec_headers_bad (delimiter r) (config r) (parts_begun r) (pend r ++ f) e (Hend f)) as Hx.
    rewrite Htk, Eb in Hx. by apply Hx.
Qed.

Lemma headers_follows r : wf r -> input_consumed r = 0%nat -> state r = KL_HTTP_MP_S_HEADERS ->
  exists r' ev, mp_headers granted r = Some (r', ev) /\ follows r (inr (r', ev)).
Proof.
  intros Hw Hc Hs. destruct (wf_headers r Hw Hs) as [Hno _]. pose proof (pend_headers r Hs Hc) as Hp.
  destruct (wf_hdr r Hw) as [Hcap Hcl].
  assert (Heof : forall l, mp_memmem l CRLFCRLF = None -> (0 < max_headers_size (config r) -> strlen l <= max_headers_size (config r)) ->
    pend r = l -> denotes r [] [AError KL_HTTP_MP_ERR_PREMATURE_EOF]).
  { intros l Hl Hm Hpl. unfold denotes. rewrite Hs, Hpl, app_nil_r. apply spec_headers_cut; [by apply no_end_whole|done]. }
  destruct (decide (input r = [])) as [Hi|Hi].
  { unfold mp_headers. rewrite Hi. cbn [length Nat.eqb]. destruct (mp_need_or_eof r) as [r' ev] eqn:E.
    exists r', ev. split; [done|]. rewrite <- E. apply need_follows; [done|done|done|done|].
    apply (Heof (hdr r)); [done| |by rewrite Hp, Hi, app_nil_r]. unfold hdr_len in Hcap. lia. }
  destruct (headers_split granted r Hw Hc Hs Hi) as [(Hl & Hle & ->)|[(k & Hf & _)|(n & c & k & Hn & Hn2 & Hlim & _ & _ & ->)]].
  - do 2 eexists. split; [reflexivity|]. intros f _. split; [done|]. cbn [final atoms mp_fail]. left. unfold denotes.
    rewrite Hs, Hp, <- app_assoc. apply spec_headers_long; [by apply no_end_prefix|].
    assert (length (input r) <> 0%nat) by (by destruct (input r)).
    unfold hdr_len, strlen in *. rewrite !length_app. lia.
  - done.
  - unfold headers_step. destruct (mp_memmem (hdr r ++ take n (input r)) CRLFCRLF) as [e|] eqn:E; [by apply headers_done_follows|].
    assert (Hpend : pend r = (hdr r ++ take n (input r)) ++ drop n (input r)).
    { rewrite Hp, <- app_assoc. by rewrite take_drop. }
    assert (Hhl : strlen (hdr r ++ take n (input r)) = hdr_len r + Z.of_nat n).
    { unfold strlen, hdr_len, strlen. rewrite length_app, length_take. lia. }
    destruct (_ && _) eqn:El.
    + breflect. do 2 eexists. split; [reflexivity|]. intros f _. split; [done|]. cbn [final atoms mp_fail]. left. unfold denotes.
      rewrite Hs, Hpend, <- app_assoc. apply spec_headers_long; [apply no_end_prefix; [done|lia]|].
      unfold strlen, input_len, strlen in *. rewrite length_app. rewrite (length_app (drop n (input r))), length_drop. lia.
    + destruct (mp_need_or_eof (pulled n c k r)) as [r' ev] eqn:E2. exists r', ev. split; [done|]. rewrite <- E2.
      assert (Hpp : pend (pulled n c k r) = pend r) by (apply pulled_pend; done || lia).
      apply need_follows; [done| |by rewrite Hpp|done|].
      * intros f t. unfold denotes. by rewrite Hpp.
      * assert (Hall : n = length (input r)).
        { destruct Hn2 as [|[Hl1 Hl2]]; [done|]. rewrite Hl2, Z.leb_refl, andb_true_r in El.
          apply andb_false_iff in El. rewrite !Z.ltb_ge in El. unfold input_len, strlen in El. lia. }
        apply (Heof (hdr r ++ take n (input r))); [done|rewrite Hhl; done|].
        rewrite Hpend, drop_ge, app_nil_r by lia. done.
Qed.

(** ** A pull follows the grammar *)

(** The reader still expects input. *)
Definition live (r : KlHttpMultipartReader) : Prop :=
  state r <> KL_HTTP_MP_S_ERROR /\ state r <> KL_HTTP_MP_S_DONE.

Lemma round_follows r : wf r -> input_consumed r = 0%nat -> live r ->
  exists x, mp_round granted r = Some x /\ follows r x.
Proof.
  intros Hw Hc [He Hd]. unfold mp_round. destruct (state r) eqn:Hs; [..|done|done].
  - eexists. split; [done|]. by apply preamble_follows.
  - eexists. split; [done|]. by apply after_boundary_follows.
  - destruct (headers_follows r Hw Hc Hs) as (r' & ev & -> & Hf). by eexists.
  - eexists. split; [done|]. by apply body_follows.
Qed.

Lemma round_live r r' : mp_round granted r = Some (inl r') -> live r'.
Proof.
  unfold mp_round, mp_preamble, mp_after_boundary, live.
  destruct (state r); try done; repeat case_match; try done; try (by intros [= <-]).
  all: destruct (mp_headers _ _); done.
Qed.

Lemma next_loop_follows fuel r : wf r -> input_consumed r = 0%nat -> live r -> (rank (state r) < fuel)%nat ->
  exists x, next_loop granted fuel r = Some x /\ follows r (inr x).
Proof.
  revert r. induction fuel as [|fuel IH]; intros r Hw Hc Hl Hr; [lia|]. cbn [next_loop].
  destruct (round_follows r Hw Hc Hl) as (x & Hx & Hf). rewrite Hx, bind_Some_l.
  destruct x as [r'|x]; [|by eexists].
  destruct (round_good granted r Hw Hc) as (x & Hx' & Hg). simplify_eq. destruct Hg as (Hw' & Hc' & Hlt & _).
  destruct (IH r' Hw' Hc' (round_live _ _ Hx) ltac:(lia)) as ([r2 ev] & -> & Hf2). eexists. split; [done|].
  intros f Hf0. destruct (Hf f Hf0) as (Hset & Hd & Hlen & Hcp). pose proof Hset as (Hs1 & Hs2 & Hs3 & Hs4).
  destruct (Hf2 f ltac:(by rewrite Hs3)) as ((? & ? & ? & ?) & Hrest). split; [split_and!; congruence|].
  destruct (final ev).
  { destruct Hrest as [Hr2|[Ha Hov]]; [left; by apply Hd|right]. split; [done|]. intros t Ht.
    destruct (denotes_total r' f Hw') as [t' Ht']; [apply (round_live _ _ Hx)..|].
    assert (t = t') as -> by (eapply mp_spec_fun; [exact Ht|by apply Hd]). specialize (Hov t' Ht').
    unfold over in *. rewrite Hs2 in Hov. pose proof (largest_mono _ _ t' Hcp). lia. }
  destruct Hrest as (Hd2 & Hla & Hm). split; [auto|]. split.
  { intros t. etrans; [apply Hla|]. by apply largest_mono. }
  destruct (needs ev); [|lia]. rewrite Hs3 in Hm. split; [tauto|]. destruct Hm. lia.
Qed.

(** A pull on a live reader follows the grammar and leaves a live reader unless it is the last. *)
Lemma next_follows r : wf r -> live r -> exists r' ev, kl_http_multipart_next granted r = Some (r', ev) /\
  follows r (inr (r', ev)) /\ wf r' /\ (final ev = false -> live r').
Proof.
  intros Hw Hl. destruct (next_good granted r Hw) as (r' & ev & He & Hw' & Hef & _).
  exists r', ev. split; [done|]. unfold kl_http_multipart_next in He. rewrite apply_consume_eq in He.
  set (r0 := set_consumed 0 (set_input (drop (input_consumed r) (input r)) r)) in *.
  assert (Hp : pend r0 = pend r) by (unfold pend, r0; cbn -[drop]; by rewrite drop_0).
  assert (Hw0 : wf r0) by (unfold r0; rewrite <- apply_consume_eq; by apply wf_apply_consume).
  destruct (next_loop_follows 4 r0 Hw0 eq_refl Hl) as (x & Hx & Hf); [cbn; destruct (state r); simpl; lia|].
  rewrite He in Hx. injection Hx as <-.
  assert (Hf' : follows r (inr (r', ev))).
  { intros f Hfe. specialize (Hf f Hfe). unfold denotes in *. rewrite Hp in Hf. exact Hf. }
  split_and!; [done|done|].
  - destruct ev; cbn in Hef; try done; unfold live; intros _; try (destruct Hef as (Hs & _); rewrite Hs; done).
    + destruct Hef as (_ & Hs & _). by rewrite Hs.
    + tauto.
Qed.

(** ** A session *)

(** Pull until the reader needs data or is finished: the reader, what was delivered, finished. *)
Fixpoint drain (fuel : nat) (r : KlHttpMultipartReader) : option (KlHttpMultipartReader * list atom * bool) :=
  match fuel with
  | O => None
  | S fuel' =>
      '(r', ev) ← kl_http_multipart_next granted r;
      if final ev then Some (r', atoms r' ev, true)
      else if needs ev then Some (r', [], false)
      else '(r'', t, fin) ← drain fuel' r'; Some (r'', atoms r' ev ++ t, fin)
  end.

(** Every event but [KL_HTTP_MP_EVT_NEED_DATA] uses up a byte, or is the last. *)
Definition drain_all (r : KlHttpMultipartReader) : option (KlHttpMultipartReader * list atom * bool) :=
  drain (S (length (hdr r) + length (input r))) r.

(** Push the chunks one after the other, pulling after each push and after the end of the body. *)
Fixpoint session (r : KlHttpMultipartReader) (cs : list (list Z)) : option (list atom) :=
  match cs with
  | [] => '(_, t, _) ← drain_all (mp_on_complete r); Some t
  | c :: cs' =>
      '(r1, _) ← mp_on_data granted r c;
      '(r2, t, fin) ← drain_all r1;
      if (fin : bool) then Some t else t' ← session r2 cs'; Some (t ++ t')
  end.

(** The limit that the error [e] reports is exceeded by what the grammar assigns to the body. *)
Definition exceeds (r : KlHttpMultipartReader) (f : list Z) (e : KlHttpMultipartErrorCode) (t : list atom) : Prop :=
  match e with
  | KL_HTTP_MP_ERR_PART_TOO_LARGE => over r t
  | KL_HTTP_MP_ERR_TOTAL_TOO_LARGE => 0 < max_total_size (config r) < total_received r + strlen f
  | KL_HTTP_MP_ERR_INPUT_OVERFLOW => 0 < max_input_buffer (config r) < total_received r + strlen f
  | _ => False
  end.

(** What the grammar assigns to the body is delivered, or the beginning of it and the report of a limit
    that is exceeded. *)
Definition delivers (r : KlHttpMultipartReader) (f : list Z) (t : list atom) : Prop :=
  denotes r f t \/ exists a e, t = a ++ [AError e] /\ forall t0, denotes r f t0 -> a `prefix_of` t0 /\ exceeds r f e t0.

Lemma delivers_step r r' f a t : same_settings r r' -> wf r' -> live r' -> (forall t, denotes r' f t -> denotes r f (a ++ t)) ->
  (forall t, largest (current_part_size r') t <= largest (current_part_size r) (a ++ t)) -> delivers r' f t -> delivers r f (a ++ t).
Proof.
  intros (Hs1 & Hs2 & Hs3 & Hs4) Hw [Hl1 Hl2] Hd Hla [Ht|(b & e & -> & He)]; [left; auto|right].
  exists (a ++ b), e. split; [by rewrite app_assoc|]. intros t0 Ht0. destruct (denotes_total r' f Hw Hl1 Hl2) as [t' Ht'].
  rewrite (mp_spec_fun _ _ _ _ _ _ _ Ht0 (Hd _ Ht')). destruct (He t' Ht') as [Hp Hx]. split; [by apply prefix_app|].
  destruct e; try done; cbn in *; rewrite ?Hs2, ?Hs4 in Hx; [|done..]. unfold over in *. rewrite Hs2 in Hx. specialize (Hla t'). lia.
Qed.

Lemma drain_follows fuel r : wf r -> live r -> (length (pend r) < fuel)%nat ->
  exists r' t fin, drain fuel r = Some (r', t, fin) /\ wf r' /\ same_settings r r' /\
    (fin = false -> live r' /\ stream_ended r = false) /\
    forall f, (stream_ended r = true -> f = []) ->
      if fin then delivers r f t
      else (forall t', denotes r' f t' -> denotes r f (t ++ t')) /\
        (forall t', largest (current_part_size r') t' <= largest (current_part_size r) (t ++ t')).
Proof.
  revert r. induction fuel as [|fuel IH]; intros r Hw Hl Hm; [lia|]. cbn [drain].
  destruct (next_follows r Hw Hl) as (r' & ev & -> & Hf & Hw' & Hl'). rewrite bind_Some_l.
  assert (Hset : same_settings r r') by (by destruct (Hf []) as [? _]).
  destruct (final ev) eqn:Ef.
  { exists r', (atoms r' ev), true. split_and!; try done. intros f Hfe. destruct (Hf f Hfe) as [_ Hx]. rewrite Ef in Hx.
    destruct Hx as [Hx|[-> Hx]]; [by left|right]. exists [], KL_HTTP_MP_ERR_PART_TOO_LARGE. split; [done|]. intros t0 Ht0.
    split; [apply prefix_nil|by apply Hx]. }
  specialize (Hl' eq_refl). destruct (needs ev) eqn:En.
  { exists r', [], false. split_and!; try done.
    - intros _. split; [done|]. destruct (Hf []) as (_ & Hx); [done|]. rewrite Ef, En in Hx. apply Hx.
    - intros f Hfe. destruct (Hf f Hfe) as (_ & Hx). rewrite Ef in Hx. destruct ev; try done. by destruct Hx as (? & ? & _). }
  assert (Hlt : (length (pend r') < length (pend r))%nat).
  { destruct (Hf []) as (_ & Hx); [done|]. rewrite Ef, En in Hx. apply Hx. }
  destruct (IH r' Hw' Hl' ltac:(lia)) as (r2 & t & fin & -> & Hw2 & Hset2 & Hfin & Hd). rewrite bind_Some_l.
  pose proof Hset as (Hs1 & Hs2 & Hs3 & Hs4). pose proof Hset2 as (Ht1 & Ht2 & Ht3 & Ht4). rewrite Hs3 in *.
  exists r2, (atoms r' ev ++ t), fin. split_and!; try done; [split_and!; congruence|].
  intros f Hfe. destruct (Hf f Hfe) as (_ & Hx). rewrite Ef in Hx. destruct Hx as (Hx & Hla & _). specialize (Hd f Hfe).
  destruct fin; [by eapply delivers_step|]. destruct Hd as [Hd Hla2]. split; intros t'; rewrite <- app_assoc; [auto|].
  etrans; [apply Hla2|]. apply Hla.
Qed.

Lemma drain_all_follows r : wf r -> live r ->
  exists r' t fin, drain_all r = Some (r', t, fin) /\ wf r' /\ same_settings r r' /\
    (fin = false -> live r' /\ stream_ended r = false) /\
    forall f, (stream_ended r = true -> f = []) ->
      if fin then delivers r f t
      else (forall t', denotes r' f t' -> denotes r f (t ++ t')) /\
        (forall t', largest (current_part_size r') t' <= largest (current_part_size r) (t ++ t')).
Proof.
  intros Hw Hl. apply drain_follows; [done|done|]. unfold pend. rewrite length_app, length_drop.
  case_bool_decide; simpl; lia.
Qed.

(** A failed reader only reports. *)
Lemma drain_failed r : state r = KL_HTTP_MP_S_ERROR -> exists r', drain_all r = Some (r', [AError (last_error r)], true).
Proof.
  intros Hs. unfold drain_all. cbn [drain]. unfold kl_http_multipart_next. rewrite apply_consume_eq. cbn [next_loop]. unfold mp_round.
  cbn [state set_consumed set_input]. rewrite Hs, !bind_Some_l. cbn. by eexists.
Qed.

(** What holds behind a push that was accepted: the bytes held have grown. *)
Lemma on_data_grown r data r' : wf r -> live r -> wf r' -> state r' = state r -> parts_begun r' = parts_begun r -> pend r' = pend r ++ data ->
  same_settings (set_total (total_received r + strlen data) r) r' -> live r' /\ (forall f t, denotes r' f t <-> denotes r (data ++ f) t).
Proof.
  intros Hw Hl Hw' Hst Hpb Hpe (Hs1 & Hs2 & _). cbn in Hs1, Hs2. split; [unfold live; by rewrite Hst|].
  intros f t. unfold denotes. by rewrite Hs1, Hs2, Hst, Hpb, Hpe, <- app_assoc.
Qed.

(** A push is accepted and only adds to the bytes held, or it exceeds a limit and the reader has failed. *)
Lemma on_data_follows r data : wf r -> live r -> total_received r + strlen data <= SIZE_MAX ->
  exists r' ok, mp_on_data granted r data = Some (r', ok) /\ wf r' /\ current_part_size r' = current_part_size r /\
    if (ok : bool) then live r' /\ same_settings (set_total (total_received r + strlen data) r) r' /\ (forall f t, denotes r' f t <-> denotes r (data ++ f) t)
    else state r' = KL_HTTP_MP_S_ERROR /\ forall f t, exceeds r (data ++ f) (last_error r') t.
Proof.
  intros Hw Hl Hfit. destruct (on_data_good granted r data Hw) as (r' & ok & Hr & Hw' & _ & _ & Hcp & Hok).
  exists r', ok. split; [done|]. split; [done|]. split; [done|]. revert Hr. unfold mp_on_data.
  assert (Hmatch : forall (x y z : option (KlHttpMultipartReader * bool)),
    match state r with KL_HTTP_MP_S_ERROR => x | KL_HTTP_MP_S_DONE => y | _ => z end = z) by (intros; destruct Hl; by destruct (state r)).
  rewrite Hmatch. destruct (Z.eqb_spec (strlen data) 0) as [Hz|Hz].
  { assert (data = []) as -> by (destruct data; [done|unfold strlen in Hz; simpl in Hz; lia]).
    intros [= <- <-]. split; [done|]. split; [|done]. rewrite Z.add_0_r. by destruct r. }
  assert (Hpos : 0 < strlen data) by (unfold strlen in *; lia).
  assert (Hsum : forall f, strlen (data ++ f) = strlen data + strlen f) by (intros f; unfold strlen; rewrite length_app; lia).
  destruct (Z.ltb_spec (SIZE_MAX - total_received r) (strlen data)); [lia|]. destruct (_ && _) eqn:Htot.
  { breflect. intros [= <- <-]. split; [done|]. intros f t. cbn. rewrite Hsum. unfold strlen in *. lia. }
  unfold mp_input_reserve. pose proof (wf_input r Hw) as [Hi _]. pose proof (wf_config r Hw) as [Hcf _]. pose proof (wf_held r Hw) as Hh.
  pose proof (wf_count r Hw) as [Hps Hcnt]. pose proof (wf_consumed r Hw) as Hcl.
  assert (Hin : input_len r <= total_received r) by (unfold unread, hdr_len, strlen in *; case_bool_decide; lia).
  destruct (grow_buf_spec granted (input_cap r) (input_len r) (strlen data) (max_input_buffer (config r)) (allocs r))
    as (res & k & -> & Hres); [unfold input_len, strlen in *; lia..|].
  rewrite !bind_Some_l. destruct res as [c|]; cbn [negb]; intros [= <- <-].
  - destruct (on_data_grown r data (set_total (total_received r + strlen data) (set_input (input r ++ data) (set_caps c (hdr_cap r) k r)))); auto; try done.
    unfold pend. cbn -[drop app]. rewrite drop_app_le by done. by rewrite app_assoc.
  - split; [done|]. intros f t. cbn. rewrite Hsum. destruct Hres as [Hres|[Hres|[Hres _]]]; [lia|unfold strlen in *; lia|done].
Qed.

Lemma session_follows cs r : wf r -> live r -> stream_ended r = false ->
  total_received r + strlen (concat cs) <= SIZE_MAX ->
  exists t, session r cs = Some t /\ delivers r (concat cs) t.
Proof.
  revert r. induction cs as [|c cs IH]; intros r Hw Hl He Hlen; cbn [session].
  { destruct (drain_all_follows (mp_on_complete r)) as (r' & t & fin & -> & _ & _ & Hfin & Hd); [by apply wf_complete|done|].
    rewrite bind_Some_l. exists t. split; [done|]. destruct fin; [by apply (Hd [])|]. by destruct (Hfin eq_refl). }
  cbn [concat] in *. assert (Hsum : strlen (c ++ concat cs) = strlen c + strlen (concat cs)) by (unfold strlen; rewrite length_app; lia).
  assert (0 <= strlen (concat cs)) by (unfold strlen; lia).
  destruct (on_data_follows r c Hw Hl ltac:(lia)) as (r1 & ok & -> & Hw1 & Hcp1 & Hok). rewrite bind_Some_l. destruct ok; cycle 1.
  { destruct Hok as [Hs1 Hx]. destruct (drain_failed r1 Hs1) as (r2 & ->). rewrite bind_Some_l. exists [AError (last_error r1)]. split; [done|].
    right. exists [], (last_error r1). split; [done|]. intros t0 _. split; [apply prefix_nil|apply Hx]. }
  destruct Hok as (Hl1 & (Hs1 & Hs2 & Hs3 & Hs4) & Hd1). cbn in Hs1, Hs2, Hs3, Hs4.
  assert (Hback : forall t, delivers r1 (concat cs) t -> delivers r (c ++ concat cs) t).
  { intros t [Ht|(a & e & -> & Ht)]; [left; by apply Hd1|right]. exists a, e. split; [done|]. intros t0 Ht0%Hd1. destruct (Ht t0 Ht0) as [? Hx].
    split; [done|]. unfold exceeds, over in *. rewrite Hs2, Hs4, Hcp1 in Hx. destruct e; try done; rewrite Hsum; lia. }
  destruct (drain_all_follows r1 Hw1 Hl1) as (r2 & t & fin & -> & Hw2 & Hset2 & Hfin & Hd2). rewrite bind_Some_l.
  specialize (Hd2 (concat cs) ltac:(congruence)). destruct fin; [by eauto|]. destruct (Hfin eq_refl) as [Hl2 _]. pose proof Hset2 as (_ & _ & He2 & Ht2).
  destruct (IH r2 Hw2 Hl2 ltac:(congruence) ltac:(lia)) as (t' & -> & Hd'). rewrite bind_Some_l. exists (t ++ t'). split; [done|].
  apply Hback. destruct Hd2 as [Hd2 Hla2]. by eapply delivers_step.
Qed.

(** ** Writing a body *)

(** A part to send: its header block with the empty line, what the block says, its content. *)
Record part := mkPart { p_block : list Z; p_meta : KlHttpMultipartPartMeta; p_content : list Z }.

(** What stands behind a delimiter. *)
Fixpoint render (d : list Z) (ps : list part) : list Z :=
  match ps with
  | [] => [c_minus; c_minus]
  | p :: ps' => [c_CR; c_LF] ++ p_block p ++ p_content p ++ d ++ render d ps'
  end.

Definition deliver (ps : list part) : list atom :=
  concat ((fun p => ABegin (p_meta p) :: (AByte <$> p_content p) ++ [AEnd]) <$> ps) ++ [ADone].

(** A part that can be sent: the block ends with its first empty line, fits the limit and is
    acceptable, and the delimiter behind the content is the first one. *)
Definition part_ok (d : list Z) (lim : Z) (p : part) : Prop :=
  (exists k, length (p_block p) = (k + 4)%nat /\ first_at CRLFCRLF (p_block p) k) /\
  (0 < lim -> strlen (p_block p) <= lim) /\ block (p_block p) = (RC_OK, p_meta p) /\
  first_at d (p_content p ++ d) (length (p_content p)).

Lemma render_spec d cfg ps n rest : d <> [] -> Forall (part_ok d (max_headers_size cfg)) ps ->
  (0 < max_parts cfg -> n + Z.of_nat (length ps) <= max_parts cfg) ->
  mp_spec d cfg KL_HTTP_MP_S_AFTER_BOUNDARY n (render d ps ++ rest) (deliver ps).
Proof.
  intros Hd Hps. revert n. induction Hps as [|p ps ((k & Hk & Hb) & Hlim & Hm & Hc) Hps IH]; intros n Hn; [apply spec_close|].
  cbn [render app]. rewrite <- !app_assoc. apply spec_part; [simpl in Hn; lia|].
  set (tl := p_content p ++ d ++ render d ps ++ rest).
  assert (Hx : deliver (p :: ps) = ABegin (p_meta p) :: (AByte <$> p_content p) ++ AEnd :: deliver ps).
  { unfold deliver. cbn. by rewrite <- !app_assoc. }
  rewrite Hx. apply (spec_headers _ _ _ _ k).
  - split; [by apply first_at_app|]. unfold strlen in Hlim. lia.
  - by rewrite <- Hk, take_app_length.
  - rewrite <- Hk, drop_app_length. unfold tl.
    rewrite <- (take_app_length (p_content p) (d ++ render d ps ++ rest)) at 2. apply spec_body.
    + rewrite app_assoc. by apply first_at_app.
    + rewrite app_assoc, <- length_app, drop_app_length. apply IH. simpl in Hn. lia.
Qed.

(** ** Parts of a form *)

(** A part of a form as its sender thinks of it. *)
Record form_part := mkForm { f_name : list Z; f_filename : option (list Z); f_type : option (list Z); f_content : list Z }.

Definition quoted (s : list Z) : list Z := 34 :: s ++ [34].
Abbreviation CRLF := [c_CR; c_LF] (only parsing).

Definition disposition (p : form_part) : list Z :=
  bytes "form-data; name=" ++ quoted (f_name p) ++ match f_filename p with Some fn => bytes "; filename=" ++ quoted fn | None => [] end.

(** Its header block, with the empty line. *)
Definition form_headers (p : form_part) : list Z :=
  bytes "Content-Disposition: " ++ disposition p ++ CRLF ++
  match f_type p with Some ct => bytes "Content-Type: " ++ ct ++ CRLF | None => [] end ++ CRLF.

(** Text that needs no escapes; the rest of a line. *)
Definition quotable (s : list Z) : Prop := Forall (fun c => 32 <= c /\ c <> 127 /\ c <> 34 /\ c <> 92) s.
Definition printable (s : list Z) : Prop := Forall (fun c => 32 <= c) s.

Definition form_ok (p : form_part) : Prop :=
  f_name p <> [] /\ quotable (f_name p) /\ (forall fn, f_filename p = Some fn -> quotable fn) /\
  (forall ct, f_type p = Some ct -> printable ct /\ head ct <> Some c_SP).

Lemma quote_close_clean q rest : quotable q -> mp_quote_close (q ++ 34 :: rest) = Some (length q).
Proof.
  induction 1 as [|c q (H1 & H2 & H3 & H4) _ IH]; cbn; [done|]. destruct (Z.eqb_spec c 92); [done|]. destruct (Z.eqb_spec c 34); [done|]. by rewrite IH.
Qed.

(** *** Searching a parameter *)

(** The search passes over [w]: no quote, and the needle starts nowhere in it. *)
Fixpoint walks (prev : option Z) (w B needle : list Z) : bool :=
  match w with
  | [] => true
  | c :: w' =>
      negb (c =? 34) &&
      (match prev with Some x => negb (param_sep x) | None => false end || negb (kl_ascii_strncasecmp (c :: w' ++ B) needle (length needle) =? 0)) &&
      walks (Some c) w' B needle
  end.

Lemma find_skip fuel A c B needle : (length needle <= length (c :: B))%nat -> c <> 34 ->
  match last A with Some x => negb (param_sep x) | None => false end || negb (kl_ascii_strncasecmp (c :: B) needle (length needle) =? 0) = true ->
  find_param_loop (S fuel) (A ++ c :: B) needle (length A) = find_param_loop fuel ((A ++ [c]) ++ B) needle (length (A ++ [c])).
Proof.
  intros Hn Hc Hx. rewrite <- app_assoc. cbn [app find_param_loop]. rewrite !length_app. cbn [length].
  destruct (Nat.ltb_spec (length A + S (length B) - length needle) (length A)); [simpl in Hn; lia|]. rewrite drop_app_length. cbn [deref].
  destruct (Z.eqb_spec c 34); [done|]. rewrite Nat.add_1_r.
  destruct ((0 <? length A)%nat && _) eqn:Ha; [done|]. destruct (kl_ascii_strncasecmp (c :: B) needle (length needle) =? 0); [|done].
  rewrite orb_false_r in Hx. destruct (last A) as [x|] eqn:El; [|done]. apply last_Some in El as [A' ->]. rewrite length_app in Ha. cbn in Ha.
  rewrite <- app_assoc in Ha. cbn in Ha. replace (length A' + 1 - 1)%nat with (length A') in Ha by lia. rewrite drop_app_length in Ha. cbn in Ha.
  rewrite Nat.add_1_r in Ha. cbn in Ha. by rewrite Hx in Ha.
Qed.

Lemma find_walk w fuel A B needle : walks (last A) w B needle = true -> (length needle <= S (length B))%nat ->
  find_param_loop (length w + fuel) (A ++ w ++ B) needle (length A) = find_param_loop fuel ((A ++ w) ++ B) needle (length (A ++ w)).
Proof.
  revert A. induction w as [|c w IH]; intros A; cbn [walks length Nat.add app]; [by rewrite app_nil_r|]. intros Hw Hn.
  apply andb_true_iff in Hw as [[Hc%negb_true_iff%Z.eqb_neq Hx]%andb_true_iff Hw].
  rewrite find_skip; [|simpl; rewrite length_app; lia|done|done].
  rewrite IH; [|by rewrite last_snoc|done]. by rewrite <- !(app_assoc A).
Qed.

Lemma find_end fuel val needle i : (length val - length needle < i)%nat -> find_param_loop (S fuel) val needle i = Some None.
Proof. intros Hi. cbn [find_param_loop]. by destruct (Nat.ltb_spec (length val - length needle) i); [|lia]. Qed.

(** The search that finds nothing behind [w] finds nothing. *)
Lemma find_walk_none w fuel A B needle : walks (last A) w B needle = true -> (length needle <= length (A ++ w ++ B))%nat ->
  find_param_loop (S fuel) ((A ++ w) ++ B) needle (length (A ++ w)) = Some None ->
  find_param_loop (length w + S fuel) (A ++ w ++ B) needle (length A) = Some None.
Proof.
  revert A. induction w as [|c w IH]; intros A; cbn [walks length Nat.add app]; [by rewrite app_nil_r|]. intros Hw Hall Hend.
  apply andb_true_iff in Hw as [[Hc%negb_true_iff%Z.eqb_neq Hx]%andb_true_iff Hw].
  destruct (decide (length needle <= length (c :: w ++ B))%nat) as [Hn|Hn].
  - rewrite find_skip by done. apply IH; [by rewrite last_snoc| |]; by rewrite <- !(app_assoc A) in *.
  - apply find_end. rewrite length_app in *. simpl in *. lia.
Qed.

Lemma find_quote fuel A q B needle : quotable q -> (length needle <= length (quoted q ++ B))%nat ->
  find_param_loop (S fuel) (A ++ quoted q ++ B) needle (length A) = find_param_loop fuel ((A ++ quoted q) ++ B) needle (length (A ++ quoted q)).
Proof.
  intros Hq Hn. rewrite <- app_assoc. cbn [find_param_loop]. rewrite length_app.
  destruct (Nat.ltb_spec (length A + length (quoted q ++ B) - length needle) (length A)); [lia|]. rewrite drop_app_length. cbn [quoted deref app Z.eqb].
  change (34 =? 34) with true. cbv iota. rewrite drop_app_ge by lia. replace (length A + 1 - length A)%nat with 1%nat by lia. rewrite skipn_cons, drop_0.
  rewrite <- app_assoc. cbn [app]. rewrite quote_close_clean by done. f_equal. rewrite length_app. cbn. rewrite length_app. cbn. lia.
Qed.

Lemma find_found fuel A needle R : match last A with Some x => param_sep x | None => true end = true -> deref (needle ++ R) <> 34 ->
  kl_ascii_strncasecmp (needle ++ R) needle (length needle) = 0 ->
  find_param_loop (S fuel) (A ++ needle ++ R) needle (length A) = Some (Some R).
Proof.
  intros Hs Hq Hc. cbn [find_param_loop]. rewrite !length_app. destruct (Nat.ltb_spec (length A + (length needle + length R) - length needle) (length A)); [lia|].
  rewrite drop_app_length. destruct (Z.eqb_spec (deref (needle ++ R)) 34); [done|]. rewrite Hc. change (0 =? 0) with true. cbv iota.
  assert (Hd : drop (length A + length needle) (A ++ needle ++ R) = R) by (by rewrite app_assoc, <- length_app, drop_app_length). rewrite Hd.
  destruct ((0 <? length A)%nat && _) eqn:Ha; [|done]. apply andb_true_iff in Ha as [Hpos%Nat.ltb_lt Ha%negb_true_iff]. exfalso.
  destruct (last A) as [x|] eqn:El; [|apply last_None in El; subst; simpl in Hpos; lia]. apply last_Some in El as [A' ->].
  rewrite length_app, <- app_assoc in Ha. cbn in Ha. replace (length A' + 1 - 1)%nat with (length A') in Ha by lia. rewrite drop_app_length in Ha. cbn in Ha. congruence.
Qed.

Lemma find_param_at val needle fuel i : (length needle <> 0)%nat -> (length needle <= length val)%nat ->
  find_param_loop (S (S (length val))) val needle 0 = find_param_loop fuel val needle i ->
  mp_find_param val needle = find_param_loop fuel val needle i.
Proof.
  intros H0 Hl Hf. unfold mp_find_param. destruct (Nat.eqb_spec (length needle) 0); [done|].
  by destruct (Nat.ltb_spec (length val) (length needle)); [lia|].
Qed.

Lemma find_name R : mp_find_param (bytes "form-data; name=" ++ R) (bytes "name=") = Some (Some R).
Proof.
  change (bytes "form-data; name=" ++ R) with (bytes "form-data; " ++ bytes "name=" ++ R). set (val := bytes "form-data; " ++ _).
  rewrite (find_param_at val (bytes "name=") (S (length R + 6)) 11).
  - apply (find_found _ (bytes "form-data; ")); [reflexivity|discriminate|reflexivity].
  - discriminate.
  - unfold val. rewrite !length_app. cbn. lia.
  - replace (S (S (length val))) with (length (bytes "form-data; ") + S (length R + 6))%nat by (unfold val; rewrite !length_app; cbn; lia).
    apply (find_walk (bytes "form-data; ") _ []); [reflexivity|cbn; lia].
Qed.

(** The parameter behind the quoted name. *)
Lemma find_filename name fn : quotable name ->
  mp_find_param (bytes "form-data; name=" ++ quoted name ++ bytes "; filename=" ++ quoted fn) (bytes "filename=") = Some (Some (quoted fn)).
Proof.
  intros Hq. set (P := bytes "form-data; name="). set (Q := bytes "; "). set (N := bytes "filename=").
  change (bytes "; filename=" ++ quoted fn) with (Q ++ N ++ quoted fn). set (val := P ++ quoted name ++ Q ++ N ++ quoted fn).
  assert (Hlen : length val = (length P + length (quoted name) + length Q + length N + length (quoted fn))%nat) by (unfold val; rewrite !length_app; lia).
  rewrite (find_param_at val N (S (length (quoted name) + length N + length (quoted fn))) (length ((P ++ quoted name) ++ Q))).
  - unfold val. rewrite (app_assoc P), (app_assoc (P ++ quoted name)). apply find_found; [|discriminate|reflexivity].
    change Q with ([c_semi] ++ [c_SP]). by rewrite app_assoc, last_snoc.
  - discriminate.
  - lia.
  - rewrite Hlen. replace (S (S _)) with (length P + S (length Q + S (length (quoted name) + length N + length (quoted fn))))%nat by lia.
    unfold val. etransitivity; [apply (find_walk P _ []); [reflexivity|rewrite !length_app; cbn; lia]|]. rewrite app_nil_l.
    rewrite find_quote; [|done|rewrite !length_app; cbn; lia]. rewrite find_walk; [by rewrite <- !app_assoc| |rewrite length_app; lia].
    replace (last (P ++ quoted name)) with (Some 34); [reflexivity|]. change (quoted name) with ((34 :: name) ++ [34]). by rewrite app_assoc, last_snoc.
Qed.

Lemma find_no_filename name : quotable name -> mp_find_param (bytes "form-data; name=" ++ quoted name) (bytes "filename=") = Some None.
Proof.
  intros Hq. set (P := bytes "form-data; name="). set (N := bytes "filename="). unfold mp_find_param. cbn [length Nat.eqb orb].
  destruct (Nat.ltb_spec (length (P ++ quoted name)) (length N)) as [|Hl]; [done|]. rewrite <- (app_nil_r (quoted name)) in *.
  replace (S (S (length _))) with (length P + S (S (length (quoted name))))%nat by (rewrite !length_app; cbn; lia).
  apply (find_walk_none P _ []); [reflexivity|done|]. rewrite app_nil_l. destruct (decide (length N <= length (quoted name ++ []))%nat) as [Hn|Hn].
  - rewrite find_quote by done. apply find_end. rewrite !length_app. change (length N) with 9%nat. change (length P) with 16%nat. cbn. lia.
  - apply find_end. rewrite !length_app in *. change (length P) with 16%nat in *. lia.
Qed.

(** *** Reading the header block *)

Lemma param_quoted q R : quotable q -> param_value (quoted q ++ R) = Some q.
Proof. intros Hq. cbn. rewrite <- app_assoc. cbn. by rewrite quote_close_clean, bind_Some_l, take_app_length. Qed.

Lemma no_ctl q : quotable q -> mp_has_ctl q = false.
Proof. unfold mp_has_ctl. induction 1 as [|c q Hc _ IH]; cbn; [done|]. rewrite IH. lia. Qed.

Lemma strdup_granted k s : strlen s < SIZE_MAX -> mp_strdup (fun _ => true) k s = Some s.
Proof. intros Hs. unfold mp_strdup. by destruct (Z.ltb_spec (SIZE_MAX - 1) (strlen s)); [lia|]. Qed.

Lemma form_disposition p ty k : form_ok p -> strlen (disposition p) < SIZE_MAX -> exists k',
  mp_parse_disposition (fun _ => true) (mkMeta None None ty) k (disposition p) = Some (RC_OK, mkMeta (Some (f_name p)) (f_filename p) ty, k').
Proof.
  intros (Hne & Hq & Hf & _) Hlen. unfold mp_parse_disposition. unfold disposition in *. unfold strlen in Hlen. rewrite !length_app in Hlen. unfold quoted in Hlen at 1.
  cbn [length] in Hlen. rewrite length_app in Hlen. rewrite find_name, bind_Some_l, param_quoted, no_ctl by done.
  destruct (Z.eqb_spec (strlen (f_name p)) 0) as [H0|_]; [unfold strlen in H0; destruct (f_name p); [done|simpl in H0; lia]|].
  rewrite strdup_granted by (unfold strlen; lia). destruct (f_filename p) as [fn|].
  - specialize (Hf fn eq_refl). rewrite find_filename, bind_Some_l, <- (app_nil_r (quoted fn)), param_quoted, no_ctl by done.
    rewrite strdup_granted; [eauto|]. rewrite length_app in Hlen. unfold quoted, strlen in *. cbn [length] in Hlen. rewrite length_app in Hlen. lia.
  - rewrite app_nil_r, find_no_filename, bind_Some_l by done. eauto.
Qed.

(** A needle that starts with CR is not found in a line. *)
Lemma memmem_line l hay needle : Forall (fun c => c <> c_CR) l -> mp_memmem (l ++ hay) (c_CR :: needle) = (fun k => (length l + k)%nat) <$> mp_memmem hay (c_CR :: needle).
Proof.
  induction 1 as [|c l Hc _ IH]; cbn [app length Nat.add]; [by destruct (mp_memmem hay _)|]. cbn [mp_memmem length].
  assert (span_eqb (take (S (length needle)) (c :: l ++ hay)) (c_CR :: needle) = false) as ->.
  { apply not_true_iff_false. intros He%span_eqb_true. cbn in He. by injection He. }
  rewrite IH. by destruct (mp_memmem hay _).
Qed.

Lemma line_end l rest : Forall (fun c => c <> c_CR) l -> mp_memmem (l ++ CRLF ++ rest) CRLF = Some (length l).
Proof. intros Hl. rewrite memmem_line by done. change (mp_memmem _ CRLF) with (Some 0%nat). cbn. f_equal. lia. Qed.

Lemma headers_line fuel l rest m k got m' k' disp : Forall (fun c => c <> c_CR) l -> l <> [] ->
  header_line (fun _ => true) m k l = Some (RC_OK, m', k', disp) ->
  headers_loop (fun _ => true) (S fuel) (l ++ CRLF ++ rest) m k got = headers_loop (fun _ => true) fuel rest m' k' (got || disp).
Proof.
  intros Hl Hne Hh. cbn [headers_loop]. rewrite line_end by done. unfold default, id. destruct (Nat.eqb_spec (length l) 0) as [H0|_]; [by destruct l|].
  rewrite take_app_length, Hh, bind_Some_l. f_equal. rewrite app_assoc. apply drop_app_length'. by rewrite length_app.
Qed.

Lemma quotable_line q : quotable q -> Forall (fun c => c <> c_CR) q.
Proof. intros Hq. refine (Forall_impl _ _ _ Hq _). intros c Hc. cbn in Hc. lia. Qed.

Lemma form_lines p : form_ok p ->
  Forall (fun c => c <> c_CR) (bytes "Content-Disposition: " ++ disposition p) /\
  forall ct, f_type p = Some ct -> Forall (fun c => c <> c_CR) (bytes "Content-Type: " ++ ct).
Proof.
  intros (_ & Hq & Hf & Ht). unfold disposition, quoted. split.
  - rewrite !Forall_app. split_and!; try (apply (bool_decide_unpack _); vm_compute; exact I).
    + rewrite Forall_cons, Forall_app. split_and!; [done|by apply quotable_line|by repeat constructor].
    + destruct (f_filename p) as [fn|]; [|by constructor]. rewrite Forall_app, Forall_cons, Forall_app.
      split_and!; [apply (bool_decide_unpack _); vm_compute; exact I|done|by apply quotable_line, Hf|by repeat constructor].
  - intros ct Hct. destruct (Ht ct Hct) as [Hp _]. rewrite Forall_app. split; [apply (bool_decide_unpack _); vm_compute; exact I|].
    refine (Forall_impl _ _ _ Hp _). intros c Hc. cbn in Hc. lia.
Qed.

Definition to_part (p : form_part) : part := mkPart (form_headers p) (mkMeta (Some (f_name p)) (f_filename p) (f_type p)) (f_content p).

Lemma line_disposition p : form_ok p -> strlen (disposition p) < SIZE_MAX -> exists k,
  header_line (fun _ => true) (mkMeta None None None) 0 (bytes "Content-Disposition: " ++ disposition p) =
  Some (RC_OK, mkMeta (Some (f_name p)) (f_filename p) None, k, true).
Proof.
  intros Hp Hl. destruct (form_disposition p None 0 Hp Hl) as [k Hd]. exists k. unfold header_line.
  change (mem_chr _ c_colon) with (Some 19%nat). cbv beta iota. change (skip_sp _) with (disposition p). rewrite Hd. reflexivity.
Qed.

Lemma line_type m k ct : head ct <> Some c_SP -> strlen ct < SIZE_MAX ->
  header_line (fun _ => true) m k (bytes "Content-Type: " ++ ct) = Some (RC_OK, mkMeta (m_name m) (m_filename m) (Some ct), S k, false).
Proof.
  intros Hh Hl. unfold header_line. change (mem_chr _ c_colon) with (Some 12%nat). cbv beta iota.
  change (skip_sp _) with (skip_sp ct). replace (skip_sp ct) with ct; [by rewrite strdup_granted|].
  destruct ct as [|c ct]; [done|]. cbn in *. by destruct (Z.eqb_spec c c_SP) as [->|].
Qed.

(** The header block of a form part is read as its name, file name and type. *)
Lemma form_block p : form_ok p -> strlen (form_headers p) <= SIZE_MAX -> block (form_headers p) = (RC_OK, p_meta (to_part p)).
Proof.
  intros Hp Hl. destruct (form_lines p Hp) as [Hl1 Hl2]. pose proof Hp as (_ & _ & _ & Ht).
  assert (Hlen : length (form_headers p) = (21 + length (disposition p) + 2 + length (match f_type p with Some ct => bytes "Content-Type: " ++ ct ++ CRLF | None => [] end) + 2)%nat)
    by (unfold form_headers; rewrite !length_app; cbn; lia).
  unfold strlen in Hl. destruct (line_disposition p Hp ltac:(unfold strlen; lia)) as [k Hd].
  unfold block, mp_parse_headers, to_part. cbn [m_name m_filename p_meta]. destruct (length (form_headers p)) as [|[|[|n]]] eqn:En; try lia.
  unfold form_headers in *. rewrite app_assoc. rewrite (headers_line _ _ _ _ _ _ _ _ _ Hl1) by done.
  destruct (f_type p) as [ct|]; [|done]. destruct (Ht ct eq_refl) as [_ Hh]. rewrite !length_app in Hlen.
  replace ((bytes "Content-Type: " ++ ct ++ CRLF) ++ CRLF) with ((bytes "Content-Type: " ++ ct) ++ CRLF ++ CRLF) by (by rewrite <- !app_assoc).
  rewrite (headers_line _ _ _ _ _ _ _ _ _ (Hl2 ct eq_refl) ltac:(done) (line_type _ _ _ Hh ltac:(unfold strlen; lia))). done.
Qed.

Lemma empty_line_later l : l <> [] -> head l <> Some c_CR -> mp_memmem (CRLF ++ l) CRLFCRLF = (fun k => S (S k)) <$> mp_memmem l CRLFCRLF.
Proof.
  intros Hl Hc. destruct l as [|c l]; [done|]. cbn [app]. set (m := mp_memmem (c :: l) CRLFCRLF).
  assert (H1 : span_eqb (take 4 (c_CR :: c_LF :: c :: l)) CRLFCRLF = false).
  { apply not_true_iff_false. intros He%span_eqb_true. cbn in *. congruence. }
  assert (Hs : forall x hay, span_eqb (take 4 (x :: hay)) CRLFCRLF = false -> mp_memmem (x :: hay) CRLFCRLF = S <$> mp_memmem hay CRLFCRLF).
  { intros x hay Hx. cbn [mp_memmem]. change (length CRLFCRLF) with 4%nat. by rewrite Hx. }
  rewrite Hs, Hs by done. fold m. by destruct m.
Qed.

(** Its first empty line is its end. *)
Lemma form_block_end p : form_ok p -> exists k, length (form_headers p) = (k + 4)%nat /\ first_at CRLFCRLF (form_headers p) k.
Proof.
  intros Hp. destruct (form_lines p Hp) as [Hl1 Hl2]. exists (length (form_headers p) - 4)%nat. split.
  - unfold form_headers. rewrite !length_app. change (length (bytes "Content-Disposition: ")) with 21%nat. lia.
  - apply memmem_Some. unfold form_headers. rewrite app_assoc, memmem_line by done. destruct (f_type p) as [ct|].
    + replace (CRLF ++ (bytes "Content-Type: " ++ ct ++ CRLF) ++ CRLF) with (CRLF ++ (bytes "Content-Type: " ++ ct) ++ CRLFCRLF) by (by rewrite <- !app_assoc).
      rewrite empty_line_later; [|done|by intros H; cbn in H].
      rewrite memmem_line by auto. change (mp_memmem CRLFCRLF CRLFCRLF) with (Some 0%nat). cbn [fmap option_fmap option_map]. f_equal. rewrite !length_app. cbn [length]. lia.
    + change (mp_memmem _ CRLFCRLF) with (Some 0%nat). cbn [fmap option_fmap option_map]. f_equal. rewrite !length_app. cbn [length]. lia.
Qed.

(** A form part that can be sent to a reader with this delimiter and these limits. *)
Definition sendable (d : list Z) (cfg : KlHttpMultipartConfig) (p : form_part) : Prop :=
  form_ok p /\ first_at d (f_content p ++ d) (length (f_content p)) /\
  (0 < max_headers_size cfg -> strlen (form_headers p) <= max_headers_size cfg) /\
  (0 < max_part_size cfg -> strlen (f_content p) <= max_part_size cfg).

Lemma render_blocks d ps m : strlen (render d ps) <= m -> Forall (fun p => strlen (p_block p) <= m) ps.
Proof.
  unfold strlen. induction ps as [|p ps IH]; intros Hm; constructor; cbn [render] in Hm; rewrite !length_app in Hm; [lia|apply IH; lia].
Qed.

Lemma sendable_parts d cfg ps : Forall (sendable d cfg) ps -> strlen (render d (to_part <$> ps)) <= SIZE_MAX ->
  Forall (part_ok d (max_headers_size cfg)) (to_part <$> ps).
Proof.
  intros Hs Hb%render_blocks. rewrite Forall_fmap in *. induction Hs as [|p ps (Hf & Hc & Hh & _) _ IH]; [done|].
  apply Forall_cons in Hb as [Hb1 Hb2]. constructor; [|auto]. split_and!; [by apply form_block_end|done|by apply form_block|done].
Qed.

(** ** The theorems *)

(** The limit that the error [e] reports is exceeded by the body, which means [t]: [max_part_size] by the
    content of a part, [max_total_size] and [max_input_buffer] by the body. *)
Definition limit_hit (cfg : KlHttpMultipartConfig) (body : list Z) (t : list atom) (e : KlHttpMultipartErrorCode) : Prop :=
  match e with
  | KL_HTTP_MP_ERR_PART_TOO_LARGE => 0 < max_part_size cfg < largest 0 t
  | KL_HTTP_MP_ERR_TOTAL_TOO_LARGE => 0 < max_total_size cfg < strlen body
  | KL_HTTP_MP_ERR_INPUT_OVERFLOW => 0 < max_input_buffer cfg < strlen body
  | _ => False
  end.

Lemma factory_session ct cfg r0 cs : config_ok cfg -> kl_http_body_reader_multipart granted ct cfg = Some (Some r0) ->
  strlen (concat cs) <= SIZE_MAX ->
  wf r0 /\ exists t0 t, mp_spec (delimiter r0) cfg KL_HTTP_MP_S_PREAMBLE 0 (concat cs) t0 /\ session r0 cs = Some t /\
    (t = t0 \/ exists a e, t = a ++ [AError e] /\ a `prefix_of` t0 /\ limit_hit cfg (concat cs) t0 e).
Proof.
  intros Hcfg Hr Hlen. pose proof (factory_good granted ct cfg Hcfg) as Hg. rewrite Hr in Hg.
  destruct Hg as (Hw & Hc & Ha & Hs & Hin & Hic & Hse & Htot). split; [done|].
  assert (Hl : live r0) by (by split; rewrite Hs). assert (Hcp : current_part_size r0 = 0).
  { pose proof (wf_count r0 Hw) as Hcnt. unfold unread, input_len, strlen in Hcnt. rewrite Hin, Hic, Hs, Htot, bool_decide_false in Hcnt by done. cbn in Hcnt. lia. }
  destruct (session_follows cs r0 Hw Hl Hse ltac:(lia)) as (t & Hts & Hd). destruct (denotes_total r0 (concat cs) Hw (proj1 Hl) (proj2 Hl)) as [t0 Ht0].
  exists t0, t. split.
  { unfold denotes, pend in Ht0. rewrite Hs, bool_decide_false, Hin, drop_nil, Hc in Ht0 by done. destruct Ha as (Ha & _). cbn in Ha. by rewrite <- Ha in Ht0. }
  split; [done|]. destruct Hd as [Hd|(a & e & -> & Hx)]; [left; by eapply mp_spec_fun|right]. exists a, e. destruct (Hx t0 Ht0) as [Hpre He].
  split_and!; [done|done|]. unfold exceeds, over, limit_hit in *. rewrite Hc, Htot, Hcp in He. destruct e; try done; lia.
Qed.

(** C2.  What a multipart reader delivers is a function of the body alone, up to the size limits: with memory
    granted and a body of at most [SIZE_MAX] bytes, a handler that pushes the body in any pieces and pulls
    after each of them is answered in finitely many calls, and sees exactly the one sequence of
    parts, content bytes and outcome (done, malformed, too many parts, headers too large, premature
    end) that the grammar [mp_spec] assigns to the concatenation of the pieces; or it sees the beginning of
    that sequence and then an error that names a limit which is set and which the body exceeds
    ([limit_hit]: a part, the whole body, or what has to be buffered of it). *)
Theorem multipart_stream_spec (ct : option (list Z)) (cfg : KlHttpMultipartConfig) (r0 : KlHttpMultipartReader)
    (cs : list (list Z)) (Hcfg : config_ok cfg) (Hr : kl_http_body_reader_multipart granted ct cfg = Some (Some r0))
    (Hlen : strlen (concat cs) <= SIZE_MAX) :
  exists t0 t, (forall t', mp_spec (delimiter r0) cfg KL_HTTP_MP_S_PREAMBLE 0 (concat cs) t' <-> t' = t0) /\ session r0 cs = Some t /\
    (t = t0 \/ exists a e, t = a ++ [AError e] /\ a `prefix_of` t0 /\ limit_hit cfg (concat cs) t0 e).
Proof.
  destruct (factory_session ct cfg r0 cs Hcfg Hr Hlen) as (_ & t0 & t & Hd & Hs & Ht). exists t0, t. split; [|done].
  intros t'. split; [|by intros ->]. intros Hd'. by eapply mp_spec_fun.
Qed.

(** A body of parts within the limits is read back as these parts. *)
Lemma parts_read_back ct cfg r0 cs pre epilogue ps : config_ok cfg -> kl_http_body_reader_multipart granted ct cfg = Some (Some r0) ->
  strlen (concat cs) <= SIZE_MAX -> concat cs = pre ++ drop 2 (delimiter r0) ++ render (delimiter r0) ps ++ epilogue ->
  first_at (drop 2 (delimiter r0)) (pre ++ drop 2 (delimiter r0)) (length pre) ->
  Forall (part_ok (delimiter r0) (max_headers_size cfg)) ps -> (0 < max_parts cfg -> Z.of_nat (length ps) <= max_parts cfg) ->
  (forall e, ~ limit_hit cfg (concat cs) (deliver ps) e) -> session r0 cs = Some (deliver ps).
Proof.
  intros Hcfg Hr Hlen Hcs Hpre Hps Hn Hno. destruct (factory_session ct cfg r0 cs Hcfg Hr Hlen) as (Hw & t0 & t & Hd & Hs & Ht).
  assert (t0 = deliver ps) as ->.
  { eapply mp_spec_fun; [exact Hd|]. rewrite Hcs. apply (spec_first _ _ _ _ (length pre)).
    - rewrite app_assoc. apply first_at_app; [by apply delim_first|done].
    - rewrite app_assoc, <- length_app, drop_app_length. apply render_spec; [by apply delim_nonempty|done|done]. }
  destruct Ht as [->|(a & e & _ & _ & He)]; [done|]. by destruct (Hno e).
Qed.

Lemma largest_deliver ps c m : c <= m -> 0 <= m -> Forall (fun p => strlen (p_content p) <= m) ps -> largest c (deliver ps) <= m.
Proof.
  intros Hc Hm Hps. revert c Hc. unfold deliver. induction Hps as [|p ps Hp Hps IH]; intros c Hc; cbn; [lia|].
  rewrite <- !app_assoc, largest_bytes. cbn. pose proof (IH (0 + strlen (p_content p)) ltac:(lia)). lia.
Qed.

(** C32.  What a client sends as the parts of a form is what the handler gets: with memory granted, a body
    that consists of a preamble without the boundary, the parts - each a Content-Disposition with the
    quoted name and, where there is one, the quoted file name, the Content-Type where there is one, the
    empty line and a content in which the delimiter does not occur - and any epilogue is delivered as
    exactly these names, file names, types and contents, in order, and then the end, however the body is
    cut into pieces; provided that names and file names need no escapes ([form_ok]) and that the body and
    its parts keep the limits that are set. *)
Theorem multipart_roundtrip (ct : option (list Z)) (cfg : KlHttpMultipartConfig) (r0 : KlHttpMultipartReader)
    (cs : list (list Z)) (pre epilogue : list Z) (ps : list form_part) (Hcfg : config_ok cfg)
    (Hr : kl_http_body_reader_multipart granted ct cfg = Some (Some r0)) (Hlen : strlen (concat cs) <= SIZE_MAX)
    (Hcs : concat cs = pre ++ drop 2 (delimiter r0) ++ render (delimiter r0) (to_part <$> ps) ++ epilogue)
    (Hpre : first_at (drop 2 (delimiter r0)) (pre ++ drop 2 (delimiter r0)) (length pre))
    (Hps : Forall (sendable (delimiter r0) cfg) ps) (Hn : 0 < max_parts cfg -> Z.of_nat (length ps) <= max_parts cfg)
    (Htot : 0 < max_total_size cfg -> strlen (concat cs) <= max_total_size cfg)
    (Hbuf : 0 < max_input_buffer cfg -> strlen (concat cs) <= max_input_buffer cfg) :
  session r0 cs = Some (deliver (to_part <$> ps)).
Proof.
  apply (parts_read_back ct cfg r0 cs pre epilogue); try done.
  - apply sendable_parts; [done|]. rewrite Hcs in Hlen. unfold strlen in *. rewrite !length_app in Hlen. lia.
  - by rewrite length_fmap.
  - intros e He. unfold limit_hit in He. destruct e; try done; [|lia|lia].
    assert (largest 0 (deliver (to_part <$> ps)) <= max_part_size cfg); [|lia]. apply largest_deliver; [lia|lia|]. rewrite Forall_fmap.
    refine (Forall_impl _ _ _ Hps _). intros p (_ & _ & _ & Hp). apply Hp. lia.
Qed.

(** A file and a field in three pieces, the first cut inside the delimiter; every limit set. *)
Definition sample_config : KlHttpMultipartConfig := mkConfig 16 512 2 128 512.

Definition sample_reader : KlHttpMultipartReader :=
  mkReader ([13; 10] ++ bytes "--XyZ") sample_config KL_HTTP_MP_S_PREAMBLE KL_HTTP_MP_ERR_NONE [] 0 0 false 0 0 0 [] 0
    (mkMeta None None None) 1.

Definition sample_parts : list form_part :=
  [mkForm (bytes "a") (Some (bytes "x; name=y.txt")) (Some (bytes "text/plain")) (bytes "he" ++ [13; 10] ++ bytes "--llo");
   mkForm (bytes "filename=") None None []].

Definition sample_body : list Z :=
  bytes "pre" ++ drop 2 (delimiter sample_reader) ++ render (delimiter sample_reader) (to_part <$> sample_parts) ++ bytes "bye".

Definition sample_chunks : list (list Z) := [take 5 sample_body; take 60 (drop 5 sample_body); drop 65 sample_body].

Lemma sample_limits_ok : config_ok sample_config.
Proof. unfold config_ok. cbn. lia. Qed.

Lemma multipart_stream_spec_witness :
  kl_http_body_reader_multipart granted (Some (bytes "multipart/form-data; boundary=XyZ")) sample_config = Some (Some sample_reader) /\
  exists t0 t, (forall t', mp_spec (delimiter sample_reader) sample_config KL_HTTP_MP_S_PREAMBLE 0 (concat sample_chunks) t' <-> t' = t0) /\
    session sample_reader sample_chunks = Some t /\
    (t = t0 \/ exists a e, t = a ++ [AError e] /\ a `prefix_of` t0 /\ limit_hit sample_config (concat sample_chunks) t0 e).
Proof.
  split; [vm_compute; reflexivity|].
  apply (multipart_stream_spec (Some (bytes "multipart/form-data; boundary=XyZ")) sample_config sample_reader sample_chunks
    sample_limits_ok); vm_compute; [reflexivity|discriminate].
Defined.

Lemma sample_parts_sendable : Forall (sendable (delimiter sample_reader) sample_config) sample_parts.
Proof.
  assert (Hq : forall s, bool_decide (Forall (fun c => 32 <= c /\ c <> 127 /\ c <> 34 /\ c <> 92) s) = true -> quotable s) by (intros s; apply bool_decide_eq_true).
  unfold sample_parts. apply Forall_cons. split; [|apply Forall_cons; split; [|by apply Forall_nil]].
  all: unfold sendable, form_ok; cbn [f_name f_filename f_type f_content];
    split_and!; [done|apply Hq; vm_compute; reflexivity| | |apply memmem_Some; vm_compute; reflexivity|vm_compute; discriminate|vm_compute; discriminate].
  - intros fn [= <-]. apply Hq. vm_compute. reflexivity.
  - intros ct [= <-]. split; [apply (bool_decide_unpack _); vm_compute; exact I|done].
  - done.
  - done.
Qed.

(** A name may look like a parameter, a file name may contain one. *)
Lemma multipart_roundtrip_witness : session sample_reader sample_chunks = Some (deliver (to_part <$> sample_parts)).
Proof.
  apply (multipart_roundtrip (Some (bytes "multipart/form-data; boundary=XyZ")) sample_config sample_reader sample_chunks
    (bytes "pre") (bytes "bye") sample_parts sample_limits_ok); [vm_compute; reflexivity|vm_compute; discriminate
    |vm_compute; reflexivity|apply memmem_Some; vm_compute; reflexivity|exact sample_parts_sendable|vm_compute; discriminate
    |vm_compute; discriminate|vm_compute; discriminate].
Defined.

(** A part over the limit is refused. *)
Example part_limit_cuts :
  session (mkReader (delimiter sample_reader) (mkConfig 4 0 0 0 0) KL_HTTP_MP_S_PREAMBLE KL_HTTP_MP_ERR_NONE
    [] 0 0 false 0 0 0 [] 0 (mkMeta None None None) 1) sample_chunks =
  Some [ABegin (p_meta (to_part (mkForm (bytes "a") (Some (bytes "x; name=y.txt")) (Some (bytes "text/plain")) [])));
        AError KL_HTTP_MP_ERR_PART_TOO_LARGE].
Proof. vm_compute. reflexivity. Qed.

End MultipartStream.
