(* ===== verification/Dns.v ===== *)
(** * DNS messages (src/src/protocols/dns/dns_resolver.c)

    The wire format of the built-in resolver: the response parser, the check of the echoed question,
    and the scan for the EDNS0 OPT record with its cookie.

    A packet is the list of its bytes and an offset is a [nat]: a C object is far smaller than
    [SIZE_MAX], so the sums of an offset and a 16-bit length do not wrap.  Every read of the packet
    goes through a checked access, and [None] is a read outside of it: the theorems show that no
    packet leads there.  [SOCK_STREAM] is a constant of the platform. *)
From S2P Require Import Prelude CStr SockAddr.
Import CStr SockAddr.

Module Dns.

(** ** Constants and data *)

Definition KL_RESOLVE_MAX_ADDRS : nat := 8.
Definition KL_DNS_TYPE_A : Z := 1.
Definition KL_DNS_TYPE_AAAA : Z := 28.
Definition DNS_NAME_MAX : nat := 256.
Definition DNS_RND_POOL_SIZE : nat := 256.
Definition DNS_TYPE_OPT : Z := 41.
Definition DNS_EDNS_UDP_SIZE : Z := 1232.
Definition DNS_OPT_RR_LEN : nat := 11.
Definition DNS_OPT_COOKIE : Z := 10.
Definition DNS_COOKIE_CLIENT : nat := 8.
Definition DNS_COOKIE_SRV_MAX : nat := 32.
Definition DNS_MAX_CAND : nat := 8.

Record KlResolveResult := mkResult {
  addrs : list KlSockAddr;
  naddrs : nat;
  ai_socktype : Z;
  ai_protocol : Z;
}.

#[global] Instance result_eq_dec : EqDecision KlResolveResult.
Proof. solve_decision. Defined.

(** A result cleared with [memset]. *)
Definition zero_result : KlResolveResult := mkResult (replicate KL_RESOLVE_MAX_ADDRS zero_addr) 0 0 0.

(** ** Checked reads *)

(** [(uint16_t)((pkt[i] << 8) | pkt[i + 1])]. *)
Definition rd16 (pkt : list Z) (i : nat) : option Z :=
  hi ← pkt !! i; lo ← pkt !! (i + 1)%nat; Some (u16 (Z.lor (Z.shiftl hi 8) lo)).

(** The [n] bytes a [memcpy] or [memcmp] reads at [i]. *)
Definition rdn (pkt : list Z) (i n : nat) : option (list Z) :=
  if (i + n <=? length pkt)%nat then Some (take n (drop i pkt)) else None.

(** ** Names *)

(** The inner [None] is the return value -1; 129 rounds reach the label cap. *)
Fixpoint skip_name_loop (fuel : nat) (pkt : list Z) (off : nat) (labels : Z) : option (option nat) :=
  match fuel with
  | O => None
  | S fuel' =>
      if (length pkt <=? off)%nat then Some None
      else
        b ← pkt !! off;
        if Z.land b 192 =? 192 then
          if (length pkt <? off + 2)%nat then Some None else Some (Some (off + 2)%nat)
        else if negb (Z.land b 192 =? 0) then Some None
        else if b =? 0 then Some (Some (off + 1)%nat)
        else
          if 128 <? labels + 1 then Some None
          else skip_name_loop fuel' pkt (off + (1 + Z.to_nat b)) (labels + 1)
  end.

Definition dns_skip_name (pkt : list Z) (off : nat) : option (option nat) := skip_name_loop 129 pkt off 0.

(** ** The response parser *)

(** The loop over [qd] questions. *)
Fixpoint skip_questions (qd : nat) (pkt : list Z) (off : nat) : option (option nat) :=
  match qd with
  | O => Some (Some off)
  | S qd' =>
      o ← dns_skip_name pkt off;
      match o with
      | None => Some None
      | Some off => if (length pkt <? off + 4)%nat then Some None else skip_questions qd' pkt (off + 4)
      end
  end.

(** [out->addrs[out->naddrs] = a; out->naddrs++]. *)
Definition push_addr (a : KlSockAddr) (out : KlResolveResult) : KlResolveResult :=
  mkResult (<[naddrs out := a]> (addrs out)) (naddrs out + 1) (ai_socktype out) (ai_protocol out).

(** The loop over [an] answers, left for good as soon as a record does not fit. *)
Fixpoint walk_answers (an : nat) (pkt : list Z) (want_qtype : Z) (off : nat) (out : KlResolveResult)
    : option KlResolveResult :=
  match an with
  | O => Some out
  | S an' =>
      if negb (naddrs out <? KL_RESOLVE_MAX_ADDRS)%nat then Some out
      else
        o ← dns_skip_name pkt off;
        match o with
        | None => Some out
        | Some off =>
            if (length pkt <? off + 10)%nat then Some out
            else
              rtype ← rd16 pkt off;
              rdlen ← rd16 pkt (off + 8);
              let off := (off + 10)%nat in
              let n := Z.to_nat rdlen in
              if (length pkt <? off + n)%nat then Some out
              else
                out ← (if (rtype =? want_qtype) && (want_qtype =? KL_DNS_TYPE_A) && (rdlen =? 4) then
                         ip ← rdn pkt off 4; Some (push_addr (kl_sockaddr_from_ipv4 ip 0) out)
                       else if (rtype =? want_qtype) && (want_qtype =? KL_DNS_TYPE_AAAA) && (rdlen =? 16) then
                         ip ← rdn pkt off 16; Some (push_addr (kl_sockaddr_from_ipv6 ip 0 0) out)
                       else Some out);
                walk_answers an' pkt want_qtype (off + n) out
        end
  end.

(** The outer [None] is a read outside of the packet; [true] is the return value 0. *)
Definition kl_dns_parse_response (SOCK_STREAM : Z) (pkt : list Z) (expect_id want_qtype : Z)
    (expect_q : option (list Z)) (out : KlResolveResult) : option (bool * KlResolveResult) :=
  if (length pkt <? 12)%nat then Some (false, out)
  else
    id ← rd16 pkt 0;
    if negb (id =? expect_id) then Some (false, out)
    else
      b2 ← pkt !! 2%nat;
      if Z.land b2 128 =? 0 then Some (false, out)
      else
        b3 ← pkt !! 3%nat;
        if negb (Z.land b3 15 =? 0) then Some (false, out)
        else
          qd ← rd16 pkt 4;
          an ← rd16 pkt 6;
          o ← skip_questions (Z.to_nat qd) pkt 12;
          match o with
          | None => Some (false, out)
          | Some off =>
              same ← (match expect_q with
                      | None => Some true
                      | Some q =>
                          if negb (off - 12 =? length q)%nat then Some false
                          else s ← rdn pkt 12 (length q); Some (span_eqb s q)
                      end);
              if negb same then Some (false, out)
              else
                out ← walk_answers (Z.to_nat an) pkt want_qtype off (mkResult (addrs out) 0 SOCK_STREAM 0);
                Some ((0 <? naddrs out)%nat, out)
          end.

(** ** Question check and the OPT record *)

Definition dns_question_matches (pkt eq : list Z) : option bool :=
  if (length pkt <? 12)%nat then Some false
  else
    qd ← rd16 pkt 4;
    if qd <? 1 then Some false
    else
      o ← dns_skip_name pkt 12;
      match o with
      | None => Some false
      | Some off =>
          if (length pkt <? off + 4)%nat then Some false
          else if negb (off + 4 - 12 =? length eq)%nat then Some false
          else s ← rdn pkt 12 (length eq); Some (span_eqb s eq)
      end.

(** The out-parameters of [dns_extract_opt]; [client_out] and [server_out] are the caller's arrays. *)
Record opt_out := mkOpt {
  ext_rcode : Z; client_out : list Z; server_out : list Z; server_len_out : Z; have_cookie : bool;
}.

(** The loop over the EDNS options between [o] and [e]. *)
Fixpoint opt_options (fuel : nat) (pkt : list Z) (o e : nat) (st : opt_out) : option opt_out :=
  match fuel with
  | O => None
  | S fuel' =>
      if (o + 4 <=? e)%nat then
        oc ← rd16 pkt o;
        ol ← rd16 pkt (o + 2);
        let o := (o + 4)%nat in
        if (e <? o + Z.to_nat ol)%nat then Some st
        else
          st ← (if (oc =? DNS_OPT_COOKIE) &&
                    ((ol =? Z.of_nat DNS_COOKIE_CLIENT) ||
                     ((Z.of_nat DNS_COOKIE_CLIENT + 8 <=? ol) &&
                      (ol <=? Z.of_nat DNS_COOKIE_CLIENT + Z.of_nat DNS_COOKIE_SRV_MAX))) then
                  c ← rdn pkt o DNS_COOKIE_CLIENT;
                  let sl := u8 (ol - Z.of_nat DNS_COOKIE_CLIENT) in
                  srv ← (if sl =? 0 then Some (server_out st)
                         else s ← rdn pkt (o + DNS_COOKIE_CLIENT) (Z.to_nat sl); Some (mem_write (server_out st) 0 s));
                  Some (mkOpt (ext_rcode st) (mem_write (client_out st) 0 c) srv sl true)
                else Some st);
          opt_options fuel' pkt (o + Z.to_nat ol) e st
      else Some st
  end.

(** The loop over answer and authority records. *)
Fixpoint skip_records (n : nat) (pkt : list Z) (off : nat) : option (option nat) :=
  match n with
  | O => Some (Some off)
  | S n' =>
      o ← dns_skip_name pkt off;
      match o with
      | None => Some None
      | Some off =>
          if (length pkt <? off + 10)%nat then Some None
          else
            rdlen ← rd16 pkt (off + 8);
            let off := (off + 10)%nat in
            if (length pkt <? off + Z.to_nat rdlen)%nat then Some None
            else skip_records n' pkt (off + Z.to_nat rdlen)
      end
  end.

(** The loop over additional records; [true] is the return value 0. *)
Fixpoint find_opt (ar : nat) (pkt : list Z) (off : nat) (st : opt_out) : option (bool * opt_out) :=
  match ar with
  | O => Some (false, st)
  | S ar' =>
      o ← dns_skip_name pkt off;
      match o with
      | None => Some (false, st)
      | Some off =>
          if (length pkt <? off + 10)%nat then Some (false, st)
          else
            rtype ← rd16 pkt off;
            rdlen ← rd16 pkt (off + 8);
            if rtype =? DNS_TYPE_OPT then
              ext ← pkt !! (off + 4)%nat;
              let st := mkOpt ext (client_out st) (server_out st) (server_len_out st) (have_cookie st) in
              let rd := (off + 10)%nat in
              let e := (rd + Z.to_nat rdlen)%nat in
              if (length pkt <? e)%nat then Some (false, st)
              else st ← opt_options (S (length pkt)) pkt rd e st; Some (true, st)
            else if (length pkt <? off + 10 + Z.to_nat rdlen)%nat then Some (false, st)
            else find_opt ar' pkt (off + (10 + Z.to_nat rdlen)) st
      end
  end.

Definition dns_extract_opt (pkt client server : list Z) : option (bool * opt_out) :=
  let st := mkOpt 0 client server 0 false in
  if (length pkt <? 12)%nat then Some (false, st)
  else
    qd ← rd16 pkt 4;
    an ← rd16 pkt 6;
    nscount ← rd16 pkt 8;
    ar ← rd16 pkt 10;
    o ← skip_questions (Z.to_nat qd) pkt 12;
    match o with
    | None => Some (false, st)
    | Some off =>
        o ← skip_records (Z.to_nat (u32 (an + nscount))) pkt off;
        match o with
        | None => Some (false, st)
        | Some off => find_opt (Z.to_nat ar) pkt off st
        end
    end.

(** ** The wire grammar *)

(** [dname n s]: [s] is an encoded name of at most [n] labels, ended by the root or by a pointer. *)
Inductive dname : nat -> list Z -> Prop :=
| dname_root n : dname n [0]
| dname_ptr n a b : 192 <= a <= 255 -> dname n [a; b]
| dname_label n l lab rest : 1 <= l <= 63 -> strlen lab = l -> dname n rest -> dname (S n) (l :: lab ++ rest).

(** A 16-bit field on the wire. *)
Definition be16 (v : Z) (s : list Z) : Prop := 0 <= v <= 65535 /\ s = [v / 256; v mod 256].

(** A question: a name, a type and a class. *)
Definition dquestion (s : list Z) : Prop := exists name t, dname 128 name /\ length t = 4%nat /\ s = name ++ t.

(** A resource record of type [ty], class and time to live [cls], and data [rdata]. *)
Definition dfields (ty : Z) (cls rdata s : list Z) : Prop :=
  exists name t n, dname 128 name /\ be16 ty t /\ length cls = 6%nat /\ be16 (strlen rdata) n /\
    s = name ++ t ++ cls ++ n ++ rdata.

Definition drecord (ty : Z) (rdata s : list Z) : Prop := exists cls, dfields ty cls rdata s.

(** ** Checked reads stay inside *)

Lemma rd16_at pkt pre a b rest : Forall is_byte pkt -> pkt = pre ++ a :: b :: rest -> rd16 pkt (length pre) = Some (a * 256 + b).
Proof.
  intros Hb ->. apply Forall_app in Hb as [_ Hb]. inversion_clear Hb as [|? ? Ha Hb']. inversion_clear Hb' as [|? ? Hb _].
  unfold rd16, is_byte in *. rewrite (list_lookup_middle pre (b :: rest) a (length pre)) by reflexivity. rewrite bind_Some_l.
  replace (pre ++ a :: b :: rest) with ((pre ++ [a]) ++ b :: rest) by (by rewrite <- app_assoc).
  rewrite (list_lookup_middle (pre ++ [a]) rest b) by (rewrite length_app; simpl; lia). rewrite bind_Some_l, lor_shiftl_add by lia.
  rewrite u16_small by lia. done.
Qed.

(** Splitting a packet at an offset that leaves room for two bytes. *)
Lemma split_two {A} (s : list A) : (2 <= length s)%nat -> exists a b s', s = a :: b :: s'.
Proof. destruct s as [|a [|b s']]; simpl; try lia. eauto. Qed.

Lemma rd16_in pkt i : Forall is_byte pkt -> (i + 2 <= length pkt)%nat ->
  exists v, rd16 pkt i = Some v /\ be16 v (take 2 (drop i pkt)).
Proof.
  intros Hb Hi. destruct (split_two (drop i pkt)) as (a & b & s' & Hs); [rewrite length_drop; lia|].
  assert (Hp : pkt = take i pkt ++ a :: b :: s') by (by rewrite <- Hs, take_drop).
  pose proof (rd16_at pkt (take i pkt) a b s' Hb Hp) as Hr. rewrite length_take, Nat.min_l in Hr by lia.
  exists (a * 256 + b). split; [done|]. rewrite Hp in Hb. apply Forall_app in Hb as [_ Hb].
  inversion_clear Hb as [|? ? Ha Hb']. inversion_clear Hb' as [|? ? Hb0 _]. unfold is_byte in *.
  rewrite Hs. split; [lia|]. cbn [take]. rewrite Z.div_add_l by lia. rewrite (Z.div_small b) by lia.
  rewrite Z.add_0_r, (Z.add_comm (a * 256)), Z.mod_add, Z.mod_small by lia. done.
Qed.

Lemma rdn_in pkt i n : (i + n <= length pkt)%nat -> rdn pkt i n = Some (take n (drop i pkt)).
Proof. intros H. unfold rdn. by rewrite (proj2 (Nat.leb_le _ _) H). Qed.

(** ** Names *)

Lemma label_kind b : is_byte b -> (Z.land b 192 =? 192) = (192 <=? b) /\ (Z.land b 192 =? 0) = (b <? 64).
Proof.
  intros Hb. assert (H : forallb (fun n => let b := Z.of_nat n in
    eqb (Z.land b 192 =? 192) (192 <=? b) && eqb (Z.land b 192 =? 0) (b <? 64)) (seq 0 256) = true) by (vm_compute; reflexivity).
  rewrite forallb_forall in H. specialize (H (Z.to_nat b)). unfold is_byte in Hb. rewrite Z2Nat.id in H by lia.
  cbv zeta in H. rewrite andb_true_iff, !eqb_true_iff in H. apply H, list_elem_of_In, elem_of_seq. lia.
Qed.

Lemma dname_nonempty n s : dname n s -> (1 <= length s)%nat.
Proof. destruct 1; simpl; lia. Qed.

(** The name at [off], when there is one, ends at the offset the loop returns. *)
Lemma skip_name_loop_spec n pkt off : Forall is_byte pkt ->
  exists o, skip_name_loop (S n) pkt off (128 - Z.of_nat n) = Some o /\
    match o with
    | Some off' => exists s, dname n s /\ drop off pkt = s ++ drop off' pkt /\ off' = (off + length s)%nat /\ (off' <= length pkt)%nat
    | None => forall s rest, dname n s -> drop off pkt <> s ++ rest
    end.
Proof.
  intros Hb. revert off. induction n as [n IH] using lt_wf_ind. intros off. cbn [skip_name_loop].
  destruct (Nat.leb_spec (length pkt) off) as [Hl|Hl].
  { exists None. split; [done|]. intros s rest Hs. rewrite drop_ge by done. by destruct Hs. }
  destruct (lookup_lt_is_Some_2 pkt off Hl) as [b Hlk]. rewrite Hlk, bind_Some_l.
  assert (Hby : is_byte b) by (by eapply Forall_lookup_1).
  pose proof (drop_S pkt b off Hlk) as Hd. destruct (label_kind b Hby) as [-> ->]. unfold is_byte in Hby.
  destruct (Z.leb_spec 192 b) as [H1|H1].
  { destruct (Nat.ltb_spec (length pkt) (off + 2)) as [H2|H2].
    - exists None. split; [done|]. intros s rest Hs. rewrite Hd, drop_ge by lia. intros Heq.
      destruct Hs; simplify_list_eq; lia.
    - destruct (split_two (drop off pkt)) as (x & y & s' & Hs'); [rewrite length_drop; lia|].
      rewrite Hs' in Hd. injection Hd as -> Hd. eexists. split; [done|]. exists [b; y].
      rewrite <- drop_drop, Hs'. split_and!; [constructor; lia|done|simpl; lia|lia]. }
  destruct (Z.ltb_spec b 64) as [H2|H2]; cbn [negb].
  2: { exists None. split; [done|]. intros s rest Hs. rewrite Hd. intros Heq. destruct Hs; simplify_list_eq; lia. }
  destruct (Z.eqb_spec b 0) as [->|H3].
  { eexists. split; [done|]. exists [0]. rewrite Nat.add_1_r. split_and!; [constructor|done|simpl; lia|lia]. }
  destruct (Z.ltb_spec 128 (128 - Z.of_nat n + 1)) as [H4|H4].
  { exists None. split; [done|]. intros s rest Hs. rewrite Hd. intros Heq. inversion Hs; subst; simplify_list_eq; lia. }
  destruct n as [|n]; [lia|]. replace (128 - Z.of_nat (S n) + 1) with (128 - Z.of_nat n) by lia.
  destruct (IH n ltac:(lia) (off + (1 + Z.to_nat b))%nat) as (o & -> & Ho). exists o. split; [done|].
  assert (Hdd : drop (off + (1 + Z.to_nat b)) pkt = drop (Z.to_nat b) (drop (S off) pkt)).
  { rewrite drop_drop. f_equal. lia. }
  rewrite Hdd in Ho. destruct o as [off'|].
  - destruct Ho as (s & Hs & Heq & Ho & Hle). pose proof (dname_nonempty _ _ Hs) as Hne.
    exists (b :: take (Z.to_nat b) (drop (S off) pkt) ++ s).
    assert (Hlen : length (take (Z.to_nat b) (drop (S off) pkt)) = Z.to_nat b) by (rewrite length_take, length_drop; lia).
    split_and!; [constructor; [lia| |done]; unfold strlen; lia| |simpl; rewrite length_app; lia|done].
    rewrite Hd. cbn [app]. f_equal. by rewrite <- app_assoc, <- Heq, take_drop.
  - intros s rest Hs. rewrite Hd. intros Heq. inversion Hs as [| |? l lab s' Hl1 Hl2 Hs']; subst; injection Heq as Hx Heq; [lia|lia|].
    apply (Ho s' rest Hs'). unfold strlen in *. rewrite Heq, <- app_assoc, drop_app_length' by lia. done.
Qed.

Lemma skip_name_spec pkt off : Forall is_byte pkt ->
  exists o, dns_skip_name pkt off = Some o /\
    match o with
    | Some off' => exists s, dname 128 s /\ drop off pkt = s ++ drop off' pkt /\ off' = (off + length s)%nat /\ (off' <= length pkt)%nat
    | None => forall s rest, dname 128 s -> drop off pkt <> s ++ rest
    end.
Proof. apply (skip_name_loop_spec 128). Qed.

(** No encoded name is a proper prefix of another. *)
Lemma dname_prefix n s n' s' t t' : dname n s -> dname n' s' -> s ++ t = s' ++ t' -> s = s' /\ t = t'.
Proof.
  intros Hs. revert n' s'. induction Hs as [n|n a b Ha|n l lab s Hl Hlab Hs IH]; intros n' s' Hs' Heq;
    destruct Hs' as [m|m a' b' Ha'|m l' lab' s' Hl' Hlab' Hs'];
    try (simplify_list_eq; lia); try (by simplify_list_eq).
  cbn [app] in Heq. rewrite <- !app_assoc in Heq. injection Heq as -> Heq. unfold strlen in *.
  apply app_inj_1 in Heq as [-> Heq]; [|lia]. by destruct (IH _ _ Hs' Heq) as [-> ->].
Qed.

(** ** Sections of a message *)

Lemma question_prefix q q' t t' : dquestion q -> dquestion q' -> q ++ t = q' ++ t' -> q = q' /\ t = t'.
Proof.
  intros (s & x & Hs & Hx & ->) (s' & x' & Hs' & Hx' & ->). rewrite <- !app_assoc. intros Heq.
  apply (dname_prefix _ _ _ _ _ _ Hs Hs') in Heq as [-> Heq]. apply app_inj_1 in Heq as [-> ->]; [done|lia].
Qed.

Lemma fields_prefix ty cls rdata s ty' cls' rdata' s' t t' : dfields ty cls rdata s -> dfields ty' cls' rdata' s' ->
  s ++ t = s' ++ t' -> s = s' /\ ty = ty' /\ cls = cls' /\ rdata = rdata' /\ t = t'.
Proof.
  intros (nm & x & n & Hnm & [Hr1 ->] & Hc & [Hr2 ->] & ->) (nm' & x' & n' & Hnm' & [Hr1' ->] & Hc' & [Hr2' ->] & ->).
  rewrite <- !app_assoc. intros Heq. apply (dname_prefix _ _ _ _ _ _ Hnm Hnm') in Heq as [-> Heq].
  cbn [app] in Heq. injection Heq as H1 H2 Heq. apply app_inj_1 in Heq as [-> Heq]; [|lia].
  cbn [app] in Heq. injection Heq as H3 H4 Heq.
  assert (Hty : ty = ty') by (rewrite (Z.div_mod ty 256), (Z.div_mod ty' 256) by lia; congruence).
  assert (Hn : strlen rdata = strlen rdata').
  { rewrite (Z.div_mod (strlen rdata) 256), (Z.div_mod (strlen rdata') 256) by lia. congruence. }
  subst ty'. apply app_inj_1 in Heq as [-> ->]; [done|]. unfold strlen in Hn. lia.
Qed.

Lemma record_prefix ty rdata s ty' rdata' s' t t' : drecord ty rdata s -> drecord ty' rdata' s' -> s ++ t = s' ++ t' ->
  s = s' /\ ty = ty' /\ rdata = rdata' /\ t = t'.
Proof.
  intros [cls H] [cls' H'] Heq. destruct (fields_prefix _ _ _ _ _ _ _ _ _ _ H H' Heq) as (? & ? & _ & ? & ?). done.
Qed.

Lemma skip_questions_spec qd pkt off : Forall is_byte pkt -> (off <= length pkt)%nat ->
  exists o, skip_questions qd pkt off = Some o /\
    match o with
    | Some off' => exists qs, length qs = qd /\ Forall dquestion qs /\ drop off pkt = concat qs ++ drop off' pkt /\
        off' = (off + length (concat qs))%nat /\ (off' <= length pkt)%nat
    | None => forall qs rest, length qs = qd -> Forall dquestion qs -> drop off pkt <> concat qs ++ rest
    end.
Proof.
  intros Hb. revert off. induction qd as [|qd IH]; intros off Hoff; cbn [skip_questions].
  { eexists. split; [done|]. exists []. split_and!; done || (simpl; lia). }
  destruct (skip_name_spec pkt off Hb) as (o & -> & Ho). rewrite bind_Some_l. destruct o as [o1|].
  2: { exists None. split; [done|]. intros [|q qs] rest; [done|]. intros _ Hq. inversion_clear Hq as [|? ? (s & t & Hs & _ & ->) _].
       cbn [concat]. rewrite <- !app_assoc. by apply Ho. }
  destruct Ho as (s & Hs & Hd & -> & Hle). destruct (Nat.ltb_spec (length pkt) (off + length s + 4)) as [Hl|Hl].
  { exists None. split; [done|]. intros [|q qs] rest; [done|]. intros _ Hq. inversion_clear Hq as [|? ? (s' & t & Hs' & Ht & ->) _].
    cbn [concat]. rewrite <- !app_assoc, Hd. intros Heq. apply (dname_prefix _ _ _ _ _ _ Hs Hs') in Heq as [_ Heq].
    apply (f_equal length) in Heq. rewrite length_drop, length_app in Heq. lia. }
  assert (Hq : dquestion (s ++ take 4 (drop (off + length s) pkt))).
  { exists s, (take 4 (drop (off + length s) pkt)). split_and!; try done. rewrite length_take, length_drop. lia. }
  assert (Hd2 : drop off pkt = (s ++ take 4 (drop (off + length s) pkt)) ++ drop (off + length s + 4) pkt).
  { rewrite <- app_assoc, <- (drop_drop pkt 4 (off + length s)), take_drop. done. }
  destruct (IH (off + length s + 4)%nat ltac:(lia)) as (o & -> & Ho). exists o. split; [done|]. destruct o as [o2|].
  - destruct Ho as (qs & Hlen & Hqs & Hd3 & -> & Hle2). exists ((s ++ take 4 (drop (off + length s) pkt)) :: qs).
    cbn [concat length]. split_and!; [lia|by constructor| | |done].
    + rewrite Hd2, Hd3 at 1. by rewrite <- !app_assoc.
    + rewrite !length_app, length_take, length_drop. lia.
  - intros [|q qs] rest; [done|]. intros Hlen Hqs. inversion_clear Hqs as [|? ? Hq' Hqs']. cbn [concat]. rewrite <- app_assoc, Hd2.
    intros Heq. apply (question_prefix _ _ _ _ Hq Hq') in Heq as [_ Heq]. apply (Ho qs rest); [simpl in Hlen; lia|done|done].
Qed.

(** No record starts here. *)
Definition no_record (s : list Z) : Prop := forall ty rdata rc rest, drecord ty rdata rc -> s <> rc ++ rest.

(** The steps the three record loops have in common. *)
Lemma record_spec pkt off : Forall is_byte pkt ->
  exists o, dns_skip_name pkt off = Some o /\
    match o with
    | None => no_record (drop off pkt)
    | Some o1 =>
        if (length pkt <? o1 + 10)%nat then no_record (drop off pkt)
        else exists ty n, rd16 pkt o1 = Some ty /\ rd16 pkt (o1 + 8) = Some n /\ 0 <= n /\ (o1 + 10 <= length pkt)%nat /\
          if (length pkt <? o1 + 10 + Z.to_nat n)%nat then no_record (drop off pkt)
          else exists rc, dfields ty (take 6 (drop (o1 + 2) pkt)) (take (Z.to_nat n) (drop (o1 + 10) pkt)) rc /\
            drop off pkt = rc ++ drop (o1 + 10 + Z.to_nat n) pkt
    end.
Proof.
  intros Hb. destruct (skip_name_spec pkt off Hb) as (o & -> & Ho). exists o. split; [done|]. destruct o as [o1|].
  2: { intros ty rdata rc rest (c & nm & t & n & Hnm & _ & _ & _ & ->). rewrite <- !app_assoc. by apply Ho. }
  destruct Ho as (s & Hs & Hd & -> & Hle). set (o1 := (off + length s)%nat) in *.
  assert (Hno : forall ty rdata rc rest, drecord ty rdata rc -> drop off pkt = rc ++ rest ->
    exists t c n, drop o1 pkt = t ++ c ++ n ++ rdata ++ rest /\ be16 ty t /\ length c = 6%nat /\ be16 (strlen rdata) n).
  { intros ty rdata rc rest (c & nm & t & n & Hnm & Ht & Hc & Hn & ->). rewrite <- !app_assoc, Hd. intros Heq.
    apply (dname_prefix _ _ _ _ _ _ Hs Hnm) in Heq as [_ Heq]. by exists t, c, n. }
  destruct (Nat.ltb_spec (length pkt) (o1 + 10)) as [Hl|Hl].
  { intros ty rdata rc rest Hrc Heq. destruct (Hno _ _ _ _ Hrc Heq) as (t & c & n & Heq' & [_ ->] & Hc & [_ ->]).
    apply (f_equal length) in Heq'. rewrite length_drop, !length_app in Heq'. simpl in Heq'. lia. }
  destruct (rd16_in pkt o1 Hb ltac:(lia)) as (ty & Ht & Hty). destruct (rd16_in pkt (o1 + 8) Hb ltac:(lia)) as (n & Hn & Hnb).
  exists ty, n. split_and!; [done|done|apply Hnb|done|]. destruct Hnb as [Hnr Hnb].
  assert (Hsplit : drop o1 pkt = take 2 (drop o1 pkt) ++ take 6 (drop (o1 + 2) pkt) ++ take 2 (drop (o1 + 8) pkt) ++ drop (o1 + 10) pkt).
  { rewrite <- (take_drop 2 (drop o1 pkt)) at 1. f_equal. rewrite drop_drop.
    rewrite <- (take_drop 6 (drop (o1 + 2) pkt)) at 1. f_equal. rewrite drop_drop.
    replace (o1 + 2 + 6)%nat with (o1 + 8)%nat by lia. rewrite <- (take_drop 2 (drop (o1 + 8) pkt)) at 1. f_equal.
    rewrite drop_drop. f_equal. lia. }
  destruct (Nat.ltb_spec (length pkt) (o1 + 10 + Z.to_nat n)) as [Hl2|Hl2].
  - intros ty' rdata rc rest Hrc Heq. destruct (Hno _ _ _ _ Hrc Heq) as (t & c & n' & Heq' & [_ ->] & Hc & [Hr ->]).
    destruct Hty as [_ Hty]. rewrite Hsplit, Hnb, Hty in Heq'. cbn [app] in Heq'. injection Heq' as _ _ Heq'.
    apply app_inj_1 in Heq' as [_ Heq']; [|rewrite length_take, length_drop; lia].
    cbn [app] in Heq'. injection Heq' as H1 H2 Heq'. apply (f_equal length) in Heq'. rewrite length_drop, length_app in Heq'.
    assert (n = strlen rdata) by (rewrite (Z.div_mod n 256), (Z.div_mod (strlen rdata) 256) by lia; congruence).
    unfold strlen in *. lia.
  - eexists. split.
    + exists s, (take 2 (drop o1 pkt)), (take 2 (drop (o1 + 8) pkt)). split_and!; [done|done| | |reflexivity].
      * rewrite length_take, length_drop. lia.
      * assert (Hln : strlen (take (Z.to_nat n) (drop (o1 + 10) pkt)) = n).
        { unfold strlen. rewrite length_take, length_drop. lia. }
        rewrite Hln. split; [lia|done].
    + rewrite Hd, Hsplit at 1. rewrite <- !app_assoc. do 4 f_equal. by rewrite <- (drop_drop pkt (Z.to_nat n) (o1 + 10)), take_drop.
Qed.

(** ** The answer section *)

(** The address a record of type [ty] contributes to a query for [want]. *)
Definition address_of (want ty : Z) (rdata : list Z) : option KlSockAddr :=
  if (ty =? want) && (want =? KL_DNS_TYPE_A) && (strlen rdata =? 4) then Some (kl_sockaddr_from_ipv4 rdata 0)
  else if (ty =? want) && (want =? KL_DNS_TYPE_AAAA) && (strlen rdata =? 16) then Some (kl_sockaddr_from_ipv6 rdata 0 0)
  else None.

(** [answers want an room s l]: of at most [an] records at the start of [s], the first [room]
    addresses are [l]; the section ends early where no record follows. *)
Inductive answers (want : Z) : nat -> nat -> list Z -> list KlSockAddr -> Prop :=
| ans_end room s : answers want 0 room s []
| ans_full an s : answers want an 0 s []
| ans_addr an room ty rdata rc rest a l : drecord ty rdata rc -> address_of want ty rdata = Some a ->
    answers want an room rest l -> answers want (S an) (S room) (rc ++ rest) (a :: l)
| ans_skip an room ty rdata rc rest l : drecord ty rdata rc -> address_of want ty rdata = None ->
    answers want an (S room) rest l -> answers want (S an) (S room) (rc ++ rest) l
| ans_cut an room s : no_record s -> answers want (S an) (S room) s [].

Lemma answers_fun want an room s l l' : answers want an room s l -> answers want an room s l' -> l = l'.
Proof.
  intros H. revert l'.
  induction H as [room s|an s|an room ty rdata rc rest a l Hrc Ha _ IH|an room ty rdata rc rest l Hrc Ha _ IH|an room s Hno];
    intros l' H'; inversion H' as [| |? ? ty' rdata' rc' rest' a' l'' Hrc' Ha' Hl' E1 E2 Heq|? ? ty' rdata' rc' rest' l'' Hrc' Ha' Hl' E1 E2 Heq|? ? ? Hno'];
    subst; try done.
  all: try (by destruct (Hno _ _ _ _ Hrc' eq_refl)).
  all: try (by destruct (Hno' _ _ _ _ Hrc eq_refl)).
  all: apply (record_prefix _ _ _ _ _ _ _ _ Hrc' Hrc) in Heq as (-> & -> & -> & ->); simplify_eq; f_equal; auto.
Qed.

(** A result under construction: the array keeps its size. *)
Definition out_ok (out : KlResolveResult) : Prop :=
  length (addrs out) = KL_RESOLVE_MAX_ADDRS /\ (naddrs out <= KL_RESOLVE_MAX_ADDRS)%nat.

Definition reported (out : KlResolveResult) : list KlSockAddr := take (naddrs out) (addrs out).

Lemma push_addr_ok a out : out_ok out -> (naddrs out < KL_RESOLVE_MAX_ADDRS)%nat ->
  out_ok (push_addr a out) /\ reported (push_addr a out) = reported out ++ [a].
Proof.
  intros [Hl Hn] Hlt. unfold out_ok, reported, push_addr. cbn. rewrite length_insert. split; [lia|].
  rewrite Nat.add_1_r, (take_S_r _ _ a) by (rewrite list_lookup_insert_eq; [done|lia]).
  by rewrite take_insert_ge by lia.
Qed.

(** The branch on the record's type and length, as [address_of]. *)
Lemma walk_branch pkt want ty n off out : 0 <= n -> (off + Z.to_nat n <= length pkt)%nat ->
  (if (ty =? want) && (want =? KL_DNS_TYPE_A) && (n =? 4) then
     ip ← rdn pkt off 4; Some (push_addr (kl_sockaddr_from_ipv4 ip 0) out)
   else if (ty =? want) && (want =? KL_DNS_TYPE_AAAA) && (n =? 16) then
     ip ← rdn pkt off 16; Some (push_addr (kl_sockaddr_from_ipv6 ip 0 0) out)
   else Some out) =
  Some (match address_of want ty (take (Z.to_nat n) (drop off pkt)) with Some a => push_addr a out | None => out end).
Proof.
  intros Hn Hl. assert (Hs : strlen (take (Z.to_nat n) (drop off pkt)) = n).
  { unfold strlen. rewrite length_take, length_drop. lia. }
  unfold address_of. rewrite Hs. case_if.
  { breflect. subst n. change (Z.to_nat 4) with 4%nat in *. by rewrite rdn_in, bind_Some_l by lia. }
  case_if; [|done]. breflect. subst n. change (Z.to_nat 16) with 16%nat in *. by rewrite rdn_in, bind_Some_l by lia.
Qed.

Lemma walk_answers_spec an pkt want off out : Forall is_byte pkt -> out_ok out ->
  exists out' l, walk_answers an pkt want off out = Some out' /\ out_ok out' /\
    answers want an (KL_RESOLVE_MAX_ADDRS - naddrs out) (drop off pkt) l /\ reported out' = reported out ++ l /\
    naddrs out' = (naddrs out + length l)%nat /\ ai_socktype out' = ai_socktype out /\ ai_protocol out' = ai_protocol out.
Proof.
  intros Hb. revert off out. induction an as [|an IH]; intros off out Hok; cbn [walk_answers].
  { exists out, []. rewrite app_nil_r, Nat.add_0_r. split_and!; try done. constructor. }
  destruct (Nat.ltb_spec (naddrs out) KL_RESOLVE_MAX_ADDRS) as [Hlt|Hge]; cbn [negb].
  2: { exists out, []. rewrite app_nil_r, Nat.add_0_r. destruct Hok.
       replace (KL_RESOLVE_MAX_ADDRS - naddrs out)%nat with 0%nat by lia. split_and!; try done. constructor. }
  assert (Hroom : (KL_RESOLVE_MAX_ADDRS - naddrs out = S (KL_RESOLVE_MAX_ADDRS - naddrs out - 1))%nat) by lia.
  assert (Hcut : no_record (drop off pkt) -> exists out' l, Some out = Some out' /\ out_ok out' /\
    answers want (S an) (KL_RESOLVE_MAX_ADDRS - naddrs out) (drop off pkt) l /\ reported out' = reported out ++ l /\
    naddrs out' = (naddrs out + length l)%nat /\ ai_socktype out' = ai_socktype out /\ ai_protocol out' = ai_protocol out).
  { intros Hno. exists out, []. rewrite app_nil_r, Nat.add_0_r, Hroom. split_and!; try done. by constructor. }
  destruct (record_spec pkt off Hb) as (o & -> & Ho). rewrite bind_Some_l. destruct o as [o1|]; [|by apply Hcut].
  destruct (Nat.ltb_spec (length pkt) (o1 + 10)) as [Hl|Hl]; [by apply Hcut|].
  destruct Ho as (ty & n & -> & -> & Hn & _ & Ho). rewrite !bind_Some_l. cbv zeta.
  destruct (Nat.ltb_spec (length pkt) (o1 + 10 + Z.to_nat n)) as [Hl2|Hl2]; [by apply Hcut|].
  destruct Ho as (rc & Hf & Hd). assert (Hrc : drecord ty (take (Z.to_nat n) (drop (o1 + 10) pkt)) rc) by (by eexists).
  rewrite walk_branch by lia. rewrite bind_Some_l.
  destruct (address_of want ty _) as [a|] eqn:Ea.
  - destruct (push_addr_ok a out Hok Hlt) as [Hok' Hrep].
    destruct (IH (o1 + 10 + Z.to_nat n)%nat _ Hok') as (out' & l & -> & Hok2 & Hans & Hr & Hna & Hs1 & Hs2).
    exists out', (a :: l). rewrite Hr, Hrep, Hna, <- app_assoc. split_and!; try done; [|cbn; lia].
    rewrite Hroom, Hd. eapply ans_addr; [done|done|]. cbn [naddrs push_addr] in Hans.
    by replace (KL_RESOLVE_MAX_ADDRS - naddrs out - 1)%nat with (KL_RESOLVE_MAX_ADDRS - (naddrs out + 1))%nat by lia.
  - destruct (IH (o1 + 10 + Z.to_nat n)%nat _ Hok) as (out' & l & -> & Hok2 & Hans & Hr & Hna & Hs1 & Hs2).
    exists out', l. split_and!; try done. rewrite Hroom, Hd. eapply ans_skip; [done|done|]. by rewrite <- Hroom.
Qed.

(** ** Responses *)

(** [response id want q pkt l]: [pkt] is a positive response to transaction [id] whose question
    section is [q] (any, for [None]) and whose answers hold the addresses [l]. *)
Definition response (id want : Z) (q : option (list Z)) (pkt : list Z) (l : list KlSockAddr) : Prop :=
  exists i1 i2 f1 f2 q1 q2 n1 n2 x1 x2 x3 x4 qs body,
    pkt = [i1; i2; f1; f2; q1; q2; n1; n2; x1; x2; x3; x4] ++ concat qs ++ body /\
    id = i1 * 256 + i2 /\ 128 <= f1 /\ f2 mod 16 = 0 /\
    Z.of_nat (length qs) = q1 * 256 + q2 /\ Forall dquestion qs /\ match q with Some q => concat qs = q | None => True end /\
    answers want (Z.to_nat (n1 * 256 + n2)) KL_RESOLVE_MAX_ADDRS body l.

Lemma land_128 b : is_byte b -> (Z.land b 128 =? 0) = (b <? 128).
Proof.
  intros Hb. assert (H : forallb (fun n => let b := Z.of_nat n in eqb (Z.land b 128 =? 0) (b <? 128)) (seq 0 256) = true) by (vm_compute; reflexivity).
  rewrite forallb_forall in H. specialize (H (Z.to_nat b)). unfold is_byte in Hb. rewrite Z2Nat.id in H by lia.
  cbv zeta in H. rewrite eqb_true_iff in H. apply H, list_elem_of_In, elem_of_seq. lia.
Qed.

Lemma land_15 b : Z.land b 15 = b mod 16.
Proof. change 15 with (Z.ones 4). by rewrite Z.land_ones by lia. Qed.

Lemma split_12 (pkt : list Z) : (12 <= length pkt)%nat ->
  exists a b c d e f g h i j k l rest, pkt = [a; b; c; d; e; f; g; h; i; j; k; l] ++ rest.
Proof. intros H. do 12 (destruct pkt as [|? pkt]; [simpl in H; lia|]). repeat eexists. Qed.

(** Sections made of self-delimiting items are determined by the packet and the number of items. *)
Lemma concat_fun (P : list Z -> Prop) qs qs' t t' :
  (forall q q' t t', P q -> P q' -> q ++ t = q' ++ t' -> q = q' /\ t = t') ->
  Forall P qs -> Forall P qs' -> length qs = length qs' -> concat qs ++ t = concat qs' ++ t' -> qs = qs' /\ t = t'.
Proof.
  intros HP H. revert qs'. induction H as [|q qs Hq Hqs IH]; intros [|q' qs'] H' Hlen Heq; try done.
  inversion_clear H' as [|? ? Hq' Hqs']. cbn [concat] in Heq. rewrite <- !app_assoc in Heq.
  apply (HP _ _ _ _ Hq Hq') in Heq as [-> Heq]. injection Hlen as Hlen. by destruct (IH _ Hqs' Hlen Heq) as [-> ->].
Qed.

Lemma questions_fun qs qs' t t' : Forall dquestion qs -> Forall dquestion qs' -> length qs = length qs' ->
  concat qs ++ t = concat qs' ++ t' -> qs = qs' /\ t = t'.
Proof. apply concat_fun, question_prefix. Qed.

(** The comparison of the echoed question. *)
Lemma echo_branch pkt off (q : option (list Z)) : (12 <= off <= length pkt)%nat ->
  match q with
  | None => Some true
  | Some q => if negb (off - 12 =? length q)%nat then Some false else s ← rdn pkt 12 (length q); Some (span_eqb s q)
  end = Some (match q with None => true | Some q => span_eqb (take (off - 12) (drop 12 pkt)) q end).
Proof.
  intros Hoff. destruct q as [q|]; [|done]. destruct (Nat.eqb_spec (off - 12) (length q)) as [Hl|Hl]; cbn [negb].
  - by rewrite <- Hl, rdn_in, bind_Some_l by lia.
  - f_equal. symmetry. apply not_true_is_false. intros Hq%span_eqb_true. apply Hl. rewrite <- Hq, length_take, length_drop. lia.
Qed.

(** A packet with a complete header, section by section. *)
Lemma response_inv id want q i1 i2 f1 f2 q1 q2 n1 n2 x1 x2 x3 x4 rest l :
  response id want q ([i1; i2; f1; f2; q1; q2; n1; n2; x1; x2; x3; x4] ++ rest) l ->
  id = i1 * 256 + i2 /\ 128 <= f1 /\ f2 mod 16 = 0 /\
  exists qs body, rest = concat qs ++ body /\ Z.of_nat (length qs) = q1 * 256 + q2 /\ Forall dquestion qs /\
    match q with Some q => concat qs = q | None => True end /\
    answers want (Z.to_nat (n1 * 256 + n2)) KL_RESOLVE_MAX_ADDRS body l.
Proof.
  intros (? & ? & ? & ? & ? & ? & ? & ? & ? & ? & ? & ? & qs & body & Heq & ? & ? & ? & ? & ? & ? & ?).
  cbn [app] in Heq. simplify_eq. split_and!; try done. by exists qs, body.
Qed.

(** What the parser owes to the packet. *)
Definition parsed (SOCK_STREAM id want : Z) (q : option (list Z)) (pkt : list Z) (ok : bool) (out' : KlResolveResult) : Prop :=
  out_ok out' /\
  if ok then response id want q pkt (reported out') /\ reported out' <> [] /\ ai_socktype out' = SOCK_STREAM /\ ai_protocol out' = 0
  else forall l, response id want q pkt l -> l = [].

(** The part behind the header: the question check and the answers. *)
Lemma parse_sections SOCK_STREAM id want q i1 i2 f1 f2 q1 q2 n1 n2 x1 x2 x3 x4 rest qs body out :
  let pkt := [i1; i2; f1; f2; q1; q2; n1; n2; x1; x2; x3; x4] ++ rest in
  Forall is_byte pkt -> out_ok out -> id = i1 * 256 + i2 -> 128 <= f1 -> f2 mod 16 = 0 ->
  rest = concat qs ++ body -> Z.of_nat (length qs) = q1 * 256 + q2 -> Forall dquestion qs ->
  exists ok out',
    (same ← Some (match q with None => true | Some q => span_eqb (concat qs) q end);
     if negb same then Some (false, out)
     else
       out ← walk_answers (Z.to_nat (n1 * 256 + n2)) pkt want (12 + length (concat qs)) (mkResult (addrs out) 0 SOCK_STREAM 0);
       Some ((0 <? naddrs out)%nat, out)) = Some (ok, out') /\ parsed SOCK_STREAM id want q pkt ok out'.
Proof.
  intros pkt Hb Hok Hid H1 H2 Hrest Hlen Hqs. rewrite bind_Some_l.
  assert (Hd : drop (12 + length (concat qs)) pkt = body).
  { unfold pkt. rewrite <- drop_drop, Hrest. cbn [app drop]. by rewrite drop_0, drop_app_length. }
  assert (Hinv : forall l, response id want q pkt l -> match q with Some q => concat qs = q | None => True end /\
    answers want (Z.to_nat (n1 * 256 + n2)) KL_RESOLVE_MAX_ADDRS body l).
  { intros l (_ & _ & _ & qs' & body' & Heq & Hlen' & Hqs' & Hq & Ha)%response_inv.
    destruct (questions_fun qs qs' body body') as [-> <-]; [done|done|lia|congruence|done]. }
  destruct (match q with None => true | Some q => span_eqb (concat qs) q end) eqn:Eq; cbn [negb].
  2: { exists false, out. split; [done|]. split; [done|]. intros l Hr. destruct (Hinv l Hr) as [Hq _]. destruct q as [q|]; [|done].
       apply (proj2 (span_eqb_true _ _)) in Hq. congruence. }
  assert (Hok0 : out_ok (mkResult (addrs out) 0 SOCK_STREAM 0)) by (split; [apply Hok|cbn; lia]).
  destruct (walk_answers_spec (Z.to_nat (n1 * 256 + n2)) pkt want (12 + length (concat qs)) _ Hb Hok0)
    as (out' & l & -> & Hok' & Hans & Hr & Hn & Hs1 & Hs2).
  rewrite bind_Some_l, Hd in *. unfold reported in Hr. cbn [naddrs addrs] in Hr, Hn, Hans. rewrite take_0 in Hr. cbn [app] in Hr.
  fold (reported out') in Hr. do 2 eexists. split; [done|]. split; [done|]. destruct (Nat.ltb_spec 0 (naddrs out')) as [Hpos|Hz].
  - rewrite Hr. split_and!; [|by destruct l; [simpl in Hn; lia|]|done|done].
    exists i1, i2, f1, f2, q1, q2, n1, n2, x1, x2, x3, x4, qs, body.
    split_and!; try done; [by rewrite <- Hrest|]. destruct q; [by apply span_eqb_true|done].
  - intros l' Hr'. destruct (Hinv l' Hr') as [_ Ha]. rewrite (answers_fun _ _ _ _ _ _ Ha Hans). destruct l; [done|simpl in Hn; lia].
Qed.

Lemma parse_response_spec SOCK_STREAM pkt id want q out : Forall is_byte pkt -> out_ok out ->
  exists ok out', kl_dns_parse_response SOCK_STREAM pkt id want q out = Some (ok, out') /\ parsed SOCK_STREAM id want q pkt ok out'.
Proof.
  intros Hb Hok. unfold kl_dns_parse_response.
  assert (Hrej : (forall l, response id want q pkt l -> l = []) ->
    exists ok out', Some (false, out) = Some (ok, out') /\ parsed SOCK_STREAM id want q pkt ok out').
  { intros H. exists false, out. by split. }
  destruct (Nat.ltb_spec (length pkt) 12) as [Hl|Hl].
  { apply Hrej. intros l (? & ? & ? & ? & ? & ? & ? & ? & ? & ? & ? & ? & ? & ? & -> & _). rewrite length_app in Hl. simpl in Hl. lia. }
  destruct (split_12 pkt Hl) as (i1 & i2 & f1 & f2 & q1 & q2 & n1 & n2 & x1 & x2 & x3 & x4 & rest & Hp).
  rewrite (rd16_at pkt [] i1 i2 _ Hb Hp : rd16 pkt 0 = _).
  rewrite (rd16_at pkt [i1; i2; f1; f2] q1 q2 _ Hb Hp : rd16 pkt 4 = _).
  rewrite (rd16_at pkt [i1; i2; f1; f2; q1; q2] n1 n2 _ Hb Hp : rd16 pkt 6 = _).
  assert (Hf : is_byte f1 /\ is_byte q1 /\ is_byte q2).
  { rewrite Hp in Hb. split_and!;
      [apply (Forall_lookup_1 _ _ 2 _ Hb)|apply (Forall_lookup_1 _ _ 4 _ Hb)|apply (Forall_lookup_1 _ _ 5 _ Hb)]; done. }
  destruct Hf as (Hf1 & Hq1 & Hq2). replace (pkt !! 2%nat) with (Some f1) by (by rewrite Hp).
  replace (pkt !! 3%nat) with (Some f2) by (by rewrite Hp). rewrite !bind_Some_l, land_128, land_15 by done. unfold is_byte in *.
  destruct (Z.eqb_spec (i1 * 256 + i2) id) as [Hid|Hid]; cbn [negb];
    [|apply Hrej; rewrite Hp; intros l (? & _)%response_inv; congruence].
  destruct (Z.ltb_spec f1 128) as [H1|H1]; [apply Hrej; rewrite Hp; intros l (_ & ? & _)%response_inv; lia|].
  destruct (Z.eqb_spec (f2 mod 16) 0) as [H2|H2]; cbn [negb];
    [|apply Hrej; rewrite Hp; intros l (_ & _ & ? & _)%response_inv; congruence].
  assert (Hd : drop 12 pkt = rest) by (by rewrite Hp).
  destruct (skip_questions_spec (Z.to_nat (q1 * 256 + q2)) pkt 12 Hb Hl) as (o & -> & Ho). rewrite bind_Some_l, Hd in *.
  destruct o as [off|].
  2: { apply Hrej. rewrite Hp. intros l (_ & _ & _ & qs & body & Heq & Hlen & Hqs & _)%response_inv.
       destruct (Ho qs body); [lia|done|done]. }
  destruct Ho as (qs & Hlen & Hqs & Hrest & -> & Hle). rewrite echo_branch, Hd by lia.
  replace (12 + length (concat qs) - 12)%nat with (length (concat qs)) by lia.
  assert (Htk : take (length (concat qs)) rest = concat qs) by (by rewrite Hrest, take_app_length). rewrite Htk. subst pkt.
  eapply parse_sections; try done; lia.
Qed.

Lemma response_fun id want q pkt l l' : response id want q pkt l -> response id want q pkt l' -> l = l'.
Proof.
  intros (i1 & i2 & f1 & f2 & q1 & q2 & n1 & n2 & x1 & x2 & x3 & x4 & qs & body & -> & _ & _ & _ & Hlen & Hqs & _ & Ha).
  intros (_ & _ & _ & qs' & body' & Heq & Hlen' & Hqs' & _ & Ha')%response_inv.
  destruct (questions_fun qs qs' body body') as [_ <-]; [done|done|lia|done|]. by eapply answers_fun.
Qed.

(** ** The OPT record *)

(** [options s l]: the EDNS options at the start of [s], up to the first one that does not fit. *)
Inductive options : list Z -> list (Z * list Z) -> Prop :=
| opts_cons code data c n rest l : be16 code c -> be16 (strlen data) n -> options rest l ->
    options (c ++ n ++ data ++ rest) ((code, data) :: l)
| opts_end s : (forall code data c n rest, be16 code c -> be16 (strlen data) n -> s <> c ++ n ++ data ++ rest) -> options s [].

(** The lengths a COOKIE option may have. *)
Definition cookie_len (n : Z) : bool :=
  (n =? Z.of_nat DNS_COOKIE_CLIENT) ||
  ((Z.of_nat DNS_COOKIE_CLIENT + 8 <=? n) && (n <=? Z.of_nat DNS_COOKIE_CLIENT + Z.of_nat DNS_COOKIE_SRV_MAX)).

(** The effect of one option on the out-parameters. *)
Definition apply_option (st : opt_out) (o : Z * list Z) : opt_out :=
  let '(code, data) := o in
  if (code =? DNS_OPT_COOKIE) && cookie_len (strlen data) then
    mkOpt (ext_rcode st) (mem_write (client_out st) 0 (take DNS_COOKIE_CLIENT data))
      (mem_write (server_out st) 0 (drop DNS_COOKIE_CLIENT data)) (strlen data - Z.of_nat DNS_COOKIE_CLIENT) true
  else st.

Lemma be16_range v s : be16 v s -> 0 <= v <= 65535.
Proof. by intros []. Qed.

Lemma mem_write_nil buf o : (o <= length buf)%nat -> mem_write buf o [] = buf.
Proof. intros H. unfold mem_write. by rewrite Nat.add_0_r, app_nil_l, take_drop. Qed.

(** The cookie branch of the option loop, as [apply_option]. *)
Lemma option_branch pkt o code n data st : 0 <= n -> (o + Z.to_nat n <= length pkt)%nat ->
  data = take (Z.to_nat n) (drop o pkt) ->
  (if (code =? DNS_OPT_COOKIE) && cookie_len n then
     c ← rdn pkt o DNS_COOKIE_CLIENT;
     let sl := u8 (n - Z.of_nat DNS_COOKIE_CLIENT) in
     srv ← (if sl =? 0 then Some (server_out st)
            else s ← rdn pkt (o + DNS_COOKIE_CLIENT) (Z.to_nat sl); Some (mem_write (server_out st) 0 s));
     Some (mkOpt (ext_rcode st) (mem_write (client_out st) 0 c) srv sl true)
   else Some st) = Some (apply_option st (code, data)).
Proof.
  intros Hn Hl Hd. assert (Hs : strlen data = n) by (rewrite Hd; unfold strlen; rewrite length_take, length_drop; lia).
  unfold apply_option. rewrite Hs. destruct (code =? DNS_OPT_COOKIE); [|done]. cbn [andb]. destruct (cookie_len n) eqn:Ec; [|done].
  assert (Hr : 8 <= n <= 40).
  { unfold cookie_len, DNS_COOKIE_CLIENT, DNS_COOKIE_SRV_MAX in Ec. apply orb_true_iff in Ec as [Ec|Ec]; breflect; lia. }
  unfold DNS_COOKIE_CLIENT in *. rewrite (rdn_in pkt o 8), bind_Some_l by lia. cbv zeta. rewrite u8_small by lia.
  assert (Htk : take 8 (drop o pkt) = take 8 data) by (rewrite Hd, take_take; f_equal; lia).
  assert (Hdk : drop 8 data = take (Z.to_nat (n - Z.of_nat 8)) (drop (o + 8) pkt)).
  { rewrite Hd, skipn_firstn_comm, drop_drop. f_equal. lia. }
  rewrite Htk, Hdk. destruct (Z.eqb_spec (n - Z.of_nat 8) 0) as [Hz|Hz]; rewrite ?bind_Some_l.
  - rewrite Hz. cbn [Z.to_nat]. rewrite take_0, mem_write_nil by lia. done.
  - rewrite rdn_in by lia. done.
Qed.

Lemma be16_inj v v' s : be16 v s -> be16 v' s -> v = v'.
Proof.
  intros [? ->] [? Heq]. injection Heq as H1 H2. rewrite (Z.div_mod v 256), (Z.div_mod v' 256) by lia. congruence.
Qed.

Lemma be16_length v s : be16 v s -> length s = 2%nat.
Proof. by intros [_ ->]. Qed.

Lemma options_fun s l l' : options s l -> options s l' -> l = l'.
Proof.
  intros H. revert l'. induction H as [code data c n rest l Hc Hn _ IH|s Hno]; intros l' H'.
  - inversion H' as [code' data' c' n' rest' l'' Hc' Hn' Hl' Heq|? Hno']; subst; [|by destruct (Hno' _ _ _ _ _ Hc Hn eq_refl)].
    apply app_inj_1 in Heq as [-> Heq]; [|by rewrite (be16_length _ _ Hc), (be16_length _ _ Hc')].
    apply app_inj_1 in Heq as [-> Heq]; [|by rewrite (be16_length _ _ Hn), (be16_length _ _ Hn')].
    assert (Hlen : strlen data = strlen data') by (by eapply be16_inj). unfold strlen in Hlen.
    apply app_inj_1 in Heq as [-> ->]; [|lia]. f_equal; [f_equal; by eapply be16_inj|by apply IH].
  - inversion H'; subst; [|done]. by eapply Hno in H.
Qed.

(** Two fields and a rest. *)
Lemma split_fields (s : list Z) : (4 <= length s)%nat -> s = take 2 s ++ take 2 (drop 2 s) ++ drop 4 s.
Proof.
  intros H. rewrite <- (take_drop 2 s) at 1. f_equal. rewrite <- (take_drop 2 (drop 2 s)) at 1. by rewrite drop_drop.
Qed.

Lemma opt_options_spec fuel pkt o e st : Forall is_byte pkt -> (o <= e <= length pkt)%nat -> (e - o < fuel)%nat ->
  exists l, options (take (e - o) (drop o pkt)) l /\ opt_options fuel pkt o e st = Some (fold_left apply_option l st).
Proof.
  intros Hb. revert o st. induction fuel as [|fuel IH]; intros o st Hoe Hf; [lia|]. cbn [opt_options].
  set (s := take (e - o) (drop o pkt)). assert (Hs : length s = (e - o)%nat) by (unfold s; rewrite length_take, length_drop; lia).
  destruct (Nat.leb_spec (o + 4) e) as [Hl|Hl].
  2: { exists []. split; [|done]. constructor. intros code data c n rest Hc Hn Heq. apply (f_equal length) in Heq.
       rewrite !length_app, (be16_length _ _ Hc), (be16_length _ _ Hn) in Heq. lia. }
  destruct (rd16_in pkt o Hb ltac:(lia)) as (code & -> & Hcode). destruct (rd16_in pkt (o + 2) Hb ltac:(lia)) as (n & -> & Hn).
  rewrite !bind_Some_l. cbv zeta. pose proof (be16_range _ _ Hn) as Hnr.
  assert (Hspl : s = take 2 (drop o pkt) ++ take 2 (drop (o + 2) pkt) ++ drop 4 s).
  { rewrite (split_fields s) at 1 by lia. unfold s. rewrite skipn_firstn_comm, !take_take, !drop_drop.
    replace (2 `min` (e - o))%nat with 2%nat by lia. by replace (2 `min` (e - o - 2))%nat with 2%nat by lia. }
  assert (Hd4 : drop 4 s = take (e - (o + 4)) (drop (o + 4) pkt)).
  { unfold s. rewrite skipn_firstn_comm, drop_drop. f_equal. lia. }
  destruct (Nat.ltb_spec e (o + 4 + Z.to_nat n)) as [Hl2|Hl2].
  { exists []. split; [|done]. constructor. intros code' data c n' rest Hc Hn' Heq. rewrite Hspl in Heq.
    apply app_inj_1 in Heq as [_ Heq]; [|by rewrite (be16_length _ _ Hc), (be16_length _ _ Hcode)].
    apply app_inj_1 in Heq as [Hx Heq]; [|by rewrite (be16_length _ _ Hn), (be16_length _ _ Hn')].
    rewrite Hx in Hn. pose proof (be16_inj _ _ _ Hn Hn') as Hlen. apply (f_equal length) in Heq.
    rewrite length_drop, length_app in Heq. unfold strlen in Hlen. lia. }
  change ((n =? Z.of_nat DNS_COOKIE_CLIENT) || _) with (cookie_len n).
  set (data := take (Z.to_nat n) (drop (o + 4) pkt)).
  assert (Hdl : strlen data = n) by (unfold data, strlen; rewrite length_take, length_drop; lia).
  pose proof (option_branch pkt (o + 4) code n data st ltac:(lia) ltac:(lia) eq_refl) as Hob. cbv zeta in Hob.
  rewrite Hob, bind_Some_l.
  destruct (IH (o + 4 + Z.to_nat n)%nat (apply_option st (code, data)) ltac:(lia) ltac:(lia)) as (l & Hopt & ->).
  exists ((code, data) :: l). split; [|done]. rewrite Hspl.
  assert (Hrest : drop 4 s = data ++ take (e - (o + 4 + Z.to_nat n)) (drop (o + 4 + Z.to_nat n) pkt)).
  { rewrite Hd4. unfold data. rewrite <- (drop_drop pkt (Z.to_nat n) (o + 4)).
    replace (e - (o + 4))%nat with (Z.to_nat n + (e - (o + 4 + Z.to_nat n)))%nat by lia. by rewrite take_take_drop. }
  rewrite Hrest. apply opts_cons; [done|by rewrite Hdl|done].
Qed.

Definition any_record (s : list Z) : Prop := exists ty rdata, drecord ty rdata s.
Definition plain_record (s : list Z) : Prop := exists ty rdata, ty <> DNS_TYPE_OPT /\ drecord ty rdata s.

(** An OPT record with extended response code [ext]. *)
Definition dopt (ext : Z) (rdata s : list Z) : Prop := exists cls, dfields DNS_TYPE_OPT cls rdata s /\ cls !! 2%nat = Some ext.

Lemma skip_records_spec n pkt off : Forall is_byte pkt -> (off <= length pkt)%nat ->
  exists o, skip_records n pkt off = Some o /\
    match o with
    | Some off' => exists rs, length rs = n /\ Forall any_record rs /\ drop off pkt = concat rs ++ drop off' pkt /\ (off' <= length pkt)%nat
    | None => forall rs rest, length rs = n -> Forall any_record rs -> drop off pkt <> concat rs ++ rest
    end.
Proof.
  intros Hb. revert off. induction n as [|n IH]; intros off Hoff; cbn [skip_records].
  { eexists. split; [done|]. exists []. by split_and!. }
  assert (Hno : no_record (drop off pkt) -> forall rs rest, length rs = S n -> Forall any_record rs -> drop off pkt <> concat rs ++ rest).
  { intros Hno [|r rs] rest; [done|]. intros _ Hr. inversion_clear Hr as [|? ? (ty & rdata & Hrec) _]. cbn [concat].
    rewrite <- app_assoc. by apply (Hno ty rdata). }
  destruct (record_spec pkt off Hb) as (o & -> & Ho). rewrite bind_Some_l.
  destruct o as [o1|]; [|by exists None; auto]. destruct (Nat.ltb_spec (length pkt) (o1 + 10)); [by exists None; auto|].
  destruct Ho as (ty & m & _ & -> & Hm & _ & Ho). rewrite bind_Some_l. cbv zeta.
  destruct (Nat.ltb_spec (length pkt) (o1 + 10 + Z.to_nat m)); [by exists None; auto|].
  destruct Ho as (rc & Hf & Hd). assert (Hrc : drecord ty (take (Z.to_nat m) (drop (o1 + 10) pkt)) rc) by (by eexists).
  destruct (IH (o1 + 10 + Z.to_nat m)%nat ltac:(lia)) as (o & -> & Ho). exists o. split; [done|]. destruct o as [off'|].
  - destruct Ho as (rs & Hlen & Hrs & Hd' & Hle). exists (rc :: rs). cbn [concat length]. split_and!; [lia| | |done].
    + constructor; [|done]. by do 2 eexists.
    + by rewrite Hd, Hd', <- app_assoc.
  - intros [|r rs] rest; [done|]. intros Hlen Hr. inversion_clear Hr as [|? ? (ty' & rdata' & Hrec) Hrs]. cbn [concat].
    rewrite <- app_assoc, Hd. intros Heq. apply (record_prefix _ _ _ _ _ _ _ _ Hrc Hrec) in Heq as (_ & _ & _ & Heq).
    apply (Ho rs rest); [simpl in Hlen; lia|done|done].
Qed.

Definition with_ext (ext : Z) (st : opt_out) : opt_out :=
  mkOpt ext (client_out st) (server_out st) (server_len_out st) (have_cookie st).

(** The additional section [s] of at most [ar] records holds an OPT record. *)
Definition opt_in (ar : nat) (s : list Z) (ext : Z) (rdata : list Z) : Prop :=
  exists pre rc rest, (length pre < ar)%nat /\ Forall plain_record pre /\ dopt ext rdata rc /\ s = concat pre ++ rc ++ rest.

Lemma dopt_record ext rdata s : dopt ext rdata s -> drecord DNS_TYPE_OPT rdata s.
Proof. intros (cls & H & _). by exists cls. Qed.

(** One record further. *)
Lemma opt_in_cons ar ty rdata rc s ext rd : drecord ty rdata rc -> ty <> DNS_TYPE_OPT ->
  opt_in (S ar) (rc ++ s) ext rd <-> opt_in ar s ext rd.
Proof.
  intros Hrc Hty. split.
  - intros ([|p pre] & rc' & rest & Hl & Hp & Ho & Heq).
    + cbn [concat app] in Heq. apply (record_prefix _ _ _ _ _ _ _ _ Hrc (dopt_record _ _ _ Ho)) in Heq as (_ & ? & _). done.
    + inversion_clear Hp as [|? ? (ty' & rd' & _ & Hr') Hp']. cbn [concat] in Heq. rewrite <- app_assoc in Heq.
      apply (record_prefix _ _ _ _ _ _ _ _ Hrc Hr') in Heq as (_ & _ & _ & ->). exists pre, rc', rest.
      split_and!; try done. simpl in Hl. lia.
  - intros (pre & rc' & rest & Hl & Hp & Ho & ->). exists (rc :: pre), rc', rest. split_and!; [simpl; lia| |done|].
    + constructor; [|done]. by exists ty, rdata.
    + cbn [concat]. by rewrite <- app_assoc.
Qed.

Lemma opt_in_none ar s ext rd : no_record s -> ~ opt_in ar s ext rd.
Proof.
  intros Hno (pre & rc & rest & _ & Hp & Ho & Heq). destruct pre as [|p pre].
  - by apply (Hno _ _ _ rest (dopt_record _ _ _ Ho)).
  - inversion_clear Hp as [|? ? (ty & rd' & _ & Hr) _]. cbn [concat] in Heq. rewrite <- app_assoc in Heq. by apply (Hno _ _ _ _ Hr) in Heq.
Qed.

Lemma find_opt_spec ar pkt off st : Forall is_byte pkt ->
  exists ok st', find_opt ar pkt off st = Some (ok, st') /\
    if ok then exists ext rdata l, opt_in ar (drop off pkt) ext rdata /\ options rdata l /\ st' = fold_left apply_option l (with_ext ext st)
    else (forall ext rdata, ~ opt_in ar (drop off pkt) ext rdata) /\ have_cookie st' = have_cookie st.
Proof.
  intros Hb. revert off. induction ar as [|ar IH]; intros off; cbn [find_opt].
  { exists false, st. split_and!; try done. intros ext rdata (? & ? & ? & ? & _). lia. }
  assert (Hno : no_record (drop off pkt) -> forall st', have_cookie st' = have_cookie st -> exists ok st'', Some (false, st') = Some (ok, st'') /\
    if ok : bool then exists ext rdata l, opt_in (S ar) (drop off pkt) ext rdata /\ options rdata l /\ st'' = fold_left apply_option l (with_ext ext st)
    else (forall ext rdata, ~ opt_in (S ar) (drop off pkt) ext rdata) /\ have_cookie st'' = have_cookie st).
  { intros Hno st' Hst. exists false, st'. split_and!; try done. intros. by apply opt_in_none. }
  destruct (record_spec pkt off Hb) as (o & -> & Ho). rewrite bind_Some_l. destruct o as [o1|]; [|by apply Hno].
  destruct (Nat.ltb_spec (length pkt) (o1 + 10)); [by apply Hno|].
  destruct Ho as (ty & n & -> & -> & Hn & Hle & Ho). rewrite !bind_Some_l.
  destruct (Z.eqb_spec ty DNS_TYPE_OPT) as [->|Hty].
  - destruct (lookup_lt_is_Some_2 pkt (o1 + 4)) as [ext Hext]; [lia|]. rewrite Hext, bind_Some_l. cbv zeta.
    destruct (Nat.ltb_spec (length pkt) (o1 + 10 + Z.to_nat n)); [by apply Hno|]. destruct Ho as (rc & Hf & Hd).
    destruct (opt_options_spec (S (length pkt)) pkt (o1 + 10) (o1 + 10 + Z.to_nat n) (with_ext ext st) Hb) as (l & Hl & Heq); [lia|lia|].
    unfold with_ext in Heq at 1. rewrite Heq, bind_Some_l. do 2 eexists. split; [done|].
    replace (o1 + 10 + Z.to_nat n - (o1 + 10))%nat with (Z.to_nat n) in Hl by lia. do 3 eexists. split_and!; [|done|done].
    exists [], rc, (drop (o1 + 10 + Z.to_nat n) pkt). split_and!; [simpl; lia|done| |done]. eexists. split; [done|].
    rewrite lookup_take_lt, lookup_drop by lia. by replace (o1 + 2 + 2)%nat with (o1 + 4)%nat by lia.
  - destruct (Nat.ltb_spec (length pkt) (o1 + 10 + Z.to_nat n)); [by apply Hno|]. destruct Ho as (rc & Hf & Hd).
    assert (Hrc : drecord ty (take (Z.to_nat n) (drop (o1 + 10) pkt)) rc) by (by eexists).
    replace (o1 + (10 + Z.to_nat n))%nat with (o1 + 10 + Z.to_nat n)%nat by lia.
    destruct (IH (o1 + 10 + Z.to_nat n)%nat) as (ok & st' & -> & Hx). exists ok, st'. split; [done|]. rewrite Hd. destruct ok.
    + destruct Hx as (ext & rdata & l & Hin & Hrest). exists ext, rdata, l. split; [by apply (opt_in_cons _ _ _ _ _ _ _ Hrc Hty)|done].
    + destruct Hx as [Hx ?]. split; [|done]. intros ext rdata Hin. by apply (opt_in_cons _ _ _ _ _ _ _ Hrc Hty), Hx in Hin.
Qed.

Lemma any_record_prefix s s' t t' : any_record s -> any_record s' -> s ++ t = s' ++ t' -> s = s' /\ t = t'.
Proof. intros (? & ? & H) (? & ? & H') Heq. by destruct (record_prefix _ _ _ _ _ _ _ _ H H' Heq) as (? & _ & _ & ?). Qed.

Lemma opt_in_fun ar s ext rd ext' rd' : opt_in ar s ext rd -> opt_in ar s ext' rd' -> ext = ext' /\ rd = rd'.
Proof.
  intros (pre & rc & rest & Hl & Hp & (cls & Hf & Hx) & Heq) H'. revert ar s Hl Heq H'.
  induction Hp as [|p pre (ty & rdata & Hty & Hr) Hp IH]; intros ar s Hl -> H'.
  - destruct H' as ([|p' pre'] & rc' & rest' & _ & Hp' & (cls' & Hf' & Hx') & Heq); cbn [concat app] in Heq.
    + apply (fields_prefix _ _ _ _ _ _ _ _ _ _ Hf Hf') in Heq as (_ & _ & <- & <- & _). split; congruence.
    + inversion_clear Hp' as [|? ? (ty' & rd0 & Hty' & Hr') _]. rewrite <- app_assoc in Heq.
      assert (Hr : drecord DNS_TYPE_OPT rd rc) by (by exists cls).
      by apply (record_prefix _ _ _ _ _ _ _ _ Hr Hr') in Heq as (_ & <- & _).
  - destruct ar as [|ar]; [simpl in Hl; lia|]. cbn [concat] in H'. rewrite <- app_assoc in H'.
    apply (proj1 (opt_in_cons _ _ _ _ _ _ _ Hr Hty)) in H'. by eapply IH; [|reflexivity|exact H']; simpl in Hl; lia.
Qed.

(** [pkt] is a message whose additional section holds an OPT record. *)
Definition opt_message (pkt : list Z) (ext : Z) (rdata : list Z) : Prop :=
  exists i1 i2 f1 f2 q1 q2 n1 n2 s1 s2 a1 a2 qs rs add,
    pkt = [i1; i2; f1; f2; q1; q2; n1; n2; s1; s2; a1; a2] ++ concat qs ++ concat rs ++ add /\
    Z.of_nat (length qs) = q1 * 256 + q2 /\ Forall dquestion qs /\
    Z.of_nat (length rs) = n1 * 256 + n2 + (s1 * 256 + s2) /\ Forall any_record rs /\
    opt_in (Z.to_nat (a1 * 256 + a2)) add ext rdata.

Lemma opt_message_inv i1 i2 f1 f2 q1 q2 n1 n2 s1 s2 a1 a2 rest ext rdata :
  opt_message ([i1; i2; f1; f2; q1; q2; n1; n2; s1; s2; a1; a2] ++ rest) ext rdata ->
  exists qs rs add, rest = concat qs ++ concat rs ++ add /\
    Z.of_nat (length qs) = q1 * 256 + q2 /\ Forall dquestion qs /\ Z.of_nat (length rs) = n1 * 256 + n2 + (s1 * 256 + s2) /\
    Forall any_record rs /\ opt_in (Z.to_nat (a1 * 256 + a2)) add ext rdata.
Proof.
  intros (? & ? & ? & ? & ? & ? & ? & ? & ? & ? & ? & ? & qs & rs & add & Heq & ?). cbn [app] in Heq. simplify_eq. by exists qs, rs, add.
Qed.

Lemma opt_message_fun pkt ext rdata ext' rdata' : opt_message pkt ext rdata -> opt_message pkt ext' rdata' -> ext = ext' /\ rdata = rdata'.
Proof.
  intros (? & ? & ? & ? & ? & ? & ? & ? & ? & ? & ? & ? & qs & rs & add & -> & Hlq & Hqs & Hlr & Hrs & Hin).
  intros (qs' & rs' & add' & Heq & Hlq' & Hqs' & Hlr' & Hrs' & Hin')%opt_message_inv.
  destruct (questions_fun _ _ _ _ Hqs Hqs' ltac:(lia) Heq) as [-> Heq'].
  destruct (concat_fun any_record rs rs' add add' any_record_prefix Hrs Hrs' ltac:(lia) Heq') as [_ <-]. by eapply opt_in_fun.
Qed.

Lemma extract_opt_spec pkt client server : Forall is_byte pkt ->
  exists ok st, dns_extract_opt pkt client server = Some (ok, st) /\
    if ok then exists ext rdata l, opt_message pkt ext rdata /\ options rdata l /\
      st = fold_left apply_option l (mkOpt ext client server 0 false)
    else (forall ext rdata, ~ opt_message pkt ext rdata) /\ have_cookie st = false.
Proof.
  intros Hb. unfold dns_extract_opt. set (st0 := mkOpt 0 client server 0 false).
  assert (Hno : (forall ext rdata, ~ opt_message pkt ext rdata) -> exists ok st, Some (false, st0) = Some (ok, st) /\
    if ok : bool then exists ext rdata l, opt_message pkt ext rdata /\ options rdata l /\
      st = fold_left apply_option l (mkOpt ext client server 0 false)
    else (forall ext rdata, ~ opt_message pkt ext rdata) /\ have_cookie st = false) by (intros; by exists false, st0).
  destruct (Nat.ltb_spec (length pkt) 12) as [Hl|Hl].
  { apply Hno. intros ext rdata (? & ? & ? & ? & ? & ? & ? & ? & ? & ? & ? & ? & ? & ? & ? & -> & _). rewrite length_app in Hl. simpl in Hl. lia. }
  destruct (split_12 pkt Hl) as (i1 & i2 & f1 & f2 & q1 & q2 & n1 & n2 & s1 & s2 & a1 & a2 & rest & Hp).
  rewrite (rd16_at pkt [i1; i2; f1; f2] q1 q2 _ Hb Hp : rd16 pkt 4 = _).
  rewrite (rd16_at pkt [i1; i2; f1; f2; q1; q2] n1 n2 _ Hb Hp : rd16 pkt 6 = _).
  rewrite (rd16_at pkt [i1; i2; f1; f2; q1; q2; n1; n2] s1 s2 _ Hb Hp : rd16 pkt 8 = _).
  rewrite (rd16_at pkt [i1; i2; f1; f2; q1; q2; n1; n2; s1; s2] a1 a2 _ Hb Hp : rd16 pkt 10 = _). rewrite !bind_Some_l.
  assert (Hf : is_byte q1 /\ is_byte q2 /\ is_byte n1 /\ is_byte n2 /\ is_byte s1 /\ is_byte s2).
  { pose proof Hb as Hb'. rewrite Hp in Hb'. split_and!; [apply (Forall_lookup_1 _ _ 4 _ Hb')|apply (Forall_lookup_1 _ _ 5 _ Hb')|apply (Forall_lookup_1 _ _ 6 _ Hb')
      |apply (Forall_lookup_1 _ _ 7 _ Hb')|apply (Forall_lookup_1 _ _ 8 _ Hb')|apply (Forall_lookup_1 _ _ 9 _ Hb')]; done. }
  unfold is_byte in Hf. assert (Hd : drop 12 pkt = rest) by (by rewrite Hp).
  assert (Hu : u32 (n1 * 256 + n2 + (s1 * 256 + s2)) = n1 * 256 + n2 + (s1 * 256 + s2)) by (unfold u32; apply Z.mod_small; lia).
  rewrite Hu. destruct (skip_questions_spec (Z.to_nat (q1 * 256 + q2)) pkt 12 Hb Hl) as (o & -> & Ho). rewrite bind_Some_l, Hd in *.
  pose proof (opt_message_inv i1 i2 f1 f2 q1 q2 n1 n2 s1 s2 a1 a2 rest) as Hinv. rewrite <- Hp in Hinv.
  destruct o as [off|].
  2: { apply Hno. intros ext rdata (qs & rs & add & Heq & Hlen & Hqs & _)%Hinv. by apply (Ho qs (concat rs ++ add)); [lia| |]. }
  destruct Ho as (qs & Hlen & Hqs & Hrest & -> & Hle).
  destruct (skip_records_spec (Z.to_nat (n1 * 256 + n2 + (s1 * 256 + s2))) pkt (12 + length (concat qs)) Hb Hle) as (o & -> & Ho).
  rewrite bind_Some_l. destruct o as [off|].
  2: { apply Hno. intros ext rdata (qs' & rs & add & Heq & Hlen' & Hqs' & Hlr & Hrs & _)%Hinv. rewrite Hrest in Heq.
       destruct (questions_fun _ _ _ _ Hqs Hqs' ltac:(lia) Heq) as [-> Heq']. by apply (Ho rs add); [lia| |]. }
  destruct Ho as (rs & Hlr & Hrs & Hadd & Hle').
  destruct (find_opt_spec (Z.to_nat (a1 * 256 + a2)) pkt off st0 Hb) as (ok & st & -> & Hx). exists ok, st. split; [done|]. destruct ok.
  - destruct Hx as (ext & rdata & l & Hin & Hl' & ->). exists ext, rdata, l. split_and!; [|done|done].
    exists i1, i2, f1, f2, q1, q2, n1, n2, s1, s2, a1, a2, qs, rs, (drop off pkt). split_and!; try done; try lia.
    by rewrite <- Hadd, <- Hrest.
  - destruct Hx as [Hx Hh]. split; [|done]. intros ext rdata (qs' & rs' & add & Heq & Hlen' & Hqs' & Hlr' & Hrs' & Hin)%Hinv.
    rewrite Hrest in Heq. destruct (questions_fun _ _ _ _ Hqs Hqs' ltac:(lia) Heq) as [<- Heq']. rewrite Hadd in Heq'.
    destruct (concat_fun any_record rs rs' (drop off pkt) add any_record_prefix Hrs Hrs' ltac:(lia) Heq') as [_ <-]. by apply (Hx ext rdata).
Qed.

(** ** The theorems *)

(** C3.  The response parser is total and memory safe on every packet, and accepts exactly the
    positive responses: it never reads outside of the packet, it returns 0 exactly when the packet is
    a response with the expected transaction id, response bit, NOERROR code and (if given) exactly
    the expected question section, and its answers hold at least one address of the wanted type;
    it then reports exactly the first eight such addresses in order, from records that lie inside
    the packet, stopping at the first record that does not. *)
Theorem dns_response_spec (SOCK_STREAM : Z) (pkt : list Z) (id want : Z) (q : option (list Z)) (out : KlResolveResult)
    (Hb : Forall is_byte pkt) (Hout : out_ok out) :
  exists ok out', kl_dns_parse_response SOCK_STREAM pkt id want q out = Some (ok, out') /\
    (ok = true <-> exists l, l <> [] /\ response id want q pkt l) /\
    (ok = true -> forall l, response id want q pkt l <-> l = reported out').
Proof.
  destruct (parse_response_spec SOCK_STREAM pkt id want q out Hb Hout) as (ok & out' & Hp & _ & Hr). exists ok, out'. split; [done|].
  destruct ok.
  - destruct Hr as (Hr & Hne & _). split; [split; [|done]; intros _; by eexists|]. intros _ l. split; [|by intros ->].
    intros Hl. by eapply response_fun.
  - split; [|done]. split; [done|]. intros (l & Hne & Hl). by destruct (Hne (Hr l Hl)).
Qed.

Definition sample_out : KlResolveResult := zero_result.

(** A response to a query for a.b with an address, a cut record and an OPT record with a cookie. *)
Definition sample_question : list Z := [1; 97; 1; 98; 0; 0; 1; 0; 1].
Definition sample_packet : list Z :=
  [18; 52; 129; 128; 0; 1; 0; 1; 0; 0; 0; 1] ++ sample_question ++
  [192; 12; 0; 1; 0; 1; 0; 0; 0; 60; 0; 4; 10; 0; 0; 7] ++
  [0; 0; 41; 4; 208; 1; 0; 0; 0; 0; 12; 0; 10; 0; 8; 1; 2; 3; 4; 5; 6; 7; 8].

Lemma dns_response_spec_witness :
  exists ok out', kl_dns_parse_response 1 sample_packet 4660 KL_DNS_TYPE_A (Some sample_question) sample_out = Some (ok, out') /\
    (ok = true <-> exists l, l <> [] /\ response 4660 KL_DNS_TYPE_A (Some sample_question) sample_packet l) /\
    (ok = true -> forall l, response 4660 KL_DNS_TYPE_A (Some sample_question) sample_packet l <-> l = reported out').
Proof.
  apply (dns_response_spec 1 sample_packet 4660 KL_DNS_TYPE_A (Some sample_question) sample_out).
  - apply bytes_ok. vm_compute. reflexivity.
  - split; [reflexivity|]. apply Nat.le_0_l.
Defined.

(** The server cookie always fits the caller's array. *)
Lemma apply_options_ok l st : length (client_out st) = DNS_COOKIE_CLIENT -> length (server_out st) = DNS_COOKIE_SRV_MAX ->
  0 <= server_len_out st <= Z.of_nat DNS_COOKIE_SRV_MAX ->
  let st' := fold_left apply_option l st in
  length (client_out st') = DNS_COOKIE_CLIENT /\ length (server_out st') = DNS_COOKIE_SRV_MAX /\
  0 <= server_len_out st' <= Z.of_nat DNS_COOKIE_SRV_MAX.
Proof.
  revert st. induction l as [|[code data] l IH]; intros st Hc Hs Hl; [done|]. cbn [fold_left]. apply IH;
    unfold apply_option; destruct (_ && _) eqn:E; try done; breflect;
    unfold cookie_len, DNS_COOKIE_CLIENT, DNS_COOKIE_SRV_MAX in *; cbn [client_out server_out server_len_out];
    match goal with H : _ || _ = true |- _ => apply orb_true_iff in H as [H|H]; breflect end;
    unfold mem_write, strlen in *; rewrite ?length_app, ?length_take, ?length_drop; rewrite ?length_take, ?length_drop; lia.
Qed.

(** The scan for the EDNS0 OPT record is total and memory safe on every packet: it never reads
    outside of the packet nor writes outside of the caller's 8-byte and 32-byte arrays; it returns 0
    exactly when the additional section, behind the questions and the answer and authority records
    the header announces, holds an OPT record, and then reports the extended code of the first one and
    the cookie of its last well-formed COOKIE option; without an OPT record it reports no cookie. *)
Lemma dns_opt_spec (pkt client server : list Z) (Hb : Forall is_byte pkt)
    (Hc : length client = DNS_COOKIE_CLIENT) (Hs : length server = DNS_COOKIE_SRV_MAX) :
  exists ok st, dns_extract_opt pkt client server = Some (ok, st) /\
    (ok = true <-> exists ext rdata, opt_message pkt ext rdata) /\
    (ok = false -> have_cookie st = false) /\
    (forall ext rdata l, opt_message pkt ext rdata -> options rdata l ->
      st = fold_left apply_option l (mkOpt ext client server 0 false) /\
      length (client_out st) = DNS_COOKIE_CLIENT /\ length (server_out st) = DNS_COOKIE_SRV_MAX /\
      0 <= server_len_out st <= Z.of_nat DNS_COOKIE_SRV_MAX).
Proof.
  destruct (extract_opt_spec pkt client server Hb) as (ok & st & He & Hok). exists ok, st. split; [done|]. destruct ok.
  - destruct Hok as (ext & rdata & l & Hm & Ho & ->). split_and!; [split; [|done]; intros _; by do 2 eexists|done|].
    intros ext' rdata' l' Hm' Ho'. destruct (opt_message_fun _ _ _ _ _ Hm Hm') as [-> ->].
    rewrite (options_fun _ _ _ Ho Ho'). split; [done|]. by apply apply_options_ok.
  - destruct Hok as [Hno Hh]. split_and!; [split; [done|]|done|].
    + intros (ext & rdata & Hm). by destruct (Hno ext rdata).
    + intros ext rdata l Hm. by destruct (Hno ext rdata).
Qed.

End Dns.
