(* ===== verification/DnsQuery.v ===== *)
(** * DNS queries and resolver configuration (src/src/protocols/dns/dns_resolver.c)

    The query builder with its entropy pool and cookies, the candidate names of a host, the literal
    and localhost shortcuts, and the selection of nameservers.  The entropy source is an argument:
    the bytes its k-th call delivers, or its failure. *)
From S2P Require Import Prelude CStr SockAddr Dns.
Import CStr SockAddr Dns.

Module DnsQuery.

Definition DNS_QUERY_MAX : nat := 512.

(** ** Resolver state used by the query builder *)

Record KlDnsCookie := mkCookie { client : list Z; server : list Z; server_len : Z; have_client : bool }.

(** The fields the builder and the configuration use.  [rnd_fills] counts the calls of the entropy
    source. *)
Record KlDnsResolver := mkDns {
  disable_0x20 : bool; disable_edns : bool; disable_cookies : bool;
  ns : list KlSockAddr;
  cookie : list KlDnsCookie;
  search : list (list Z);
  ndots : Z;
  rnd_pool : list Z; rnd_off : nat; rnd_failed : bool; rnd_fills : nat;
}.

Definition set_rnd (pool : list Z) (off : nat) (failed : bool) (fills : nat) (r : KlDnsResolver) : KlDnsResolver :=
  mkDns (disable_0x20 r) (disable_edns r) (disable_cookies r) (ns r) (cookie r) (search r) (ndots r) pool off failed fills.
Definition set_cookie (c : list KlDnsCookie) (r : KlDnsResolver) : KlDnsResolver :=
  mkDns (disable_0x20 r) (disable_edns r) (disable_cookies r) (ns r) c (search r) (ndots r)
    (rnd_pool r) (rnd_off r) (rnd_failed r) (rnd_fills r).

Section entropy.

(** The entropy source: the bytes its [k]-th call puts into the pool, [None] when it fails. *)
Context (fill : nat -> option (list Z)).

Definition dns_rand_byte (r : KlDnsResolver) : KlDnsResolver * Z :=
  let draw r := (set_rnd (rnd_pool r) (rnd_off r + 1) (rnd_failed r) (rnd_fills r) r, default 0 (rnd_pool r !! rnd_off r)) in
  if (DNS_RND_POOL_SIZE <=? rnd_off r)%nat then
    match fill (rnd_fills r) with
    | None => (set_rnd (rnd_pool r) (rnd_off r) true (S (rnd_fills r)) r, 0)
    | Some pool => draw (set_rnd pool 0 (rnd_failed r) (S (rnd_fills r)) r)
    end
  else draw r.

Definition dns_rand_u16 (r : KlDnsResolver) : KlDnsResolver * Z :=
  let '(r, hi) := dns_rand_byte r in
  let '(r, lo) := dns_rand_byte r in
  (r, u16 (Z.lor (Z.shiftl hi 8) lo)).

(** [n] draws in a row. *)
Fixpoint rand_bytes (n : nat) (r : KlDnsResolver) : KlDnsResolver * list Z :=
  match n with
  | O => (r, [])
  | S n' =>
      let '(r, b) := dns_rand_byte r in
      let '(r, bs) := rand_bytes n' r in
      (r, b :: bs)
  end.

Definition no_cookie : KlDnsCookie :=
  mkCookie (replicate DNS_COOKIE_CLIENT 0) (replicate DNS_COOKIE_SRV_MAX 0) 0 false.

Definition dns_cookie_client (r : KlDnsResolver) (ns_idx : nat) : KlDnsResolver * list Z :=
  let c := default no_cookie (cookie r !! ns_idx) in
  if have_client c then (r, client c)
  else
    let '(r, bs) := rand_bytes DNS_COOKIE_CLIENT r in
    (set_cookie (<[ns_idx := mkCookie bs (server c) (server_len c) (negb (rnd_failed r))]> (cookie r)) r, bs).

(** ** The query builder *)

(** The bytes of a label with the case of its letters drawn at random. *)
Fixpoint case_label (use_0x20 : bool) (lab : list Z) (r : KlDnsResolver) : KlDnsResolver * list Z :=
  match lab with
  | [] => (r, [])
  | c :: lab' =>
      let lower := Z.lor c 32 in
      let '(r, c) := (if use_0x20 && (c_a <=? lower) && (lower <=? c_z) then
                        let '(r, b) := dns_rand_byte r in
                        (r, if negb (Z.land b 1 =? 0) then lower else Z.land c 223)
                      else (r, c)) in
      let '(r, out) := case_label use_0x20 lab' r in
      (r, c :: out)
  end.

(** The loop over the labels of [p]: [out] is what [buf] holds so far.  The outer [None] is out of
    fuel, the inner one -1. *)
Fixpoint query_labels (fuel : nat) (use_0x20 : bool) (cap : nat) (p out : list Z) (r : KlDnsResolver)
    : option (KlDnsResolver * option (list Z)) :=
  match fuel with
  | O => None
  | S fuel' =>
      match p with
      | [] => Some (r, Some out)
      | _ =>
          let dot := kl_strchr p c_dot in
          let lab := match dot with Some d => (length p - length d)%nat | None => length p end in
          if (lab =? 0)%nat || (63 <? lab)%nat then Some (r, None)
          else if (cap <? length out + 1 + lab)%nat then Some (r, None)
          else
            let '(r, cs) := case_label use_0x20 (take lab p) r in
            let out := out ++ Z.of_nat lab :: cs in
            match dot with
            | None => Some (r, Some out)
            | Some d => query_labels fuel' use_0x20 cap (tail d) out r
            end
      end
  end.

(** [v] as two bytes, high first. *)
Definition hi_lo (v : Z) : list Z := [u8 (Z.shiftr v 8); u8 (Z.land v 255)].

(** The OPT record behind the question; [None] when it does not fit. *)
Definition query_opt (cap : nat) (ns_idx : Z) (out : list Z) (r : KlDnsResolver)
    : KlDnsResolver * option (list Z) :=
  let use := negb (disable_cookies r) && (0 <=? ns_idx) && (ns_idx <? Z.of_nat (length (ns r))) in
  let c := default no_cookie (cookie r !! Z.to_nat ns_idx) in
  let srv_len := if use then server_len c else 0 in
  let optlen := if use then Z.of_nat DNS_COOKIE_CLIENT + srv_len else 0 in
  let rdlen := if use then 4 + optlen else 0 in
  if (cap <? length out + DNS_OPT_RR_LEN + Z.to_nat rdlen)%nat then (r, None)
  else
    let out := <[11%nat := 1]> out ++ [0] ++ hi_lo DNS_TYPE_OPT ++ hi_lo DNS_EDNS_UDP_SIZE ++ [0; 0; 0; 0] ++ hi_lo rdlen in
    if use then
      let '(r, cc) := dns_cookie_client r (Z.to_nat ns_idx) in
      (r, Some (out ++ hi_lo DNS_OPT_COOKIE ++ hi_lo optlen ++ cc ++
                (if srv_len =? 0 then [] else take (Z.to_nat srv_len) (server c))))
    else (r, Some out).

(** The packet and its question section, which starts at offset 12; the outer [None] is out of
    fuel, the inner one -1. *)
Definition dns_build_query (r : KlDnsResolver) (cap : nat) (id : Z) (host : list Z) (qtype ns_idx : Z)
    : option (KlDnsResolver * option (list Z * list Z)) :=
  if (cap <? 12)%nat then Some (r, None)
  else
    let header := hi_lo id ++ [1; 0; 0; 1; 0; 0; 0; 0; 0; 0] in
    '(r, o) ← query_labels (S (length host)) (negb (disable_0x20 r)) cap host header r;
    match o with
    | None => Some (r, None)
    | Some out =>
        if (cap <? length out + 5)%nat then Some (r, None)
        else
          let out := out ++ [0] ++ hi_lo qtype ++ [0; 1] in
          let question := drop 12 out in
          let '(r, o) := (if disable_edns r then (r, Some out) else query_opt cap ns_idx out r) in
          match o with
          | None => Some (r, None)
          | Some out => Some (r, if rnd_failed r then None else Some (out, question))
          end
    end.

End entropy.

(** ** Shortcuts *)

(** The literal address, if [host] is one. *)
Definition dns_is_literal (SOCK_STREAM : Z) (host : list Z) (port : Z) : option KlResolveResult :=
  a ← kl_sockaddr_parse host (u16 port);
  Some (mkResult (<[0%nat := a]> (addrs zero_result)) 1 SOCK_STREAM 0).

Fixpoint dns_ci_eq (a b : list Z) : bool :=
  match a, b with
  | x :: a', y :: b' => if negb (Z.lor x 32 =? Z.lor y 32) then false else dns_ci_eq a' b'
  | [], [] => true
  | _, _ => false
  end.

Definition dns_is_localhost (SOCK_STREAM : Z) (host : list Z) (port : Z) (prefer_ipv6 : bool) : option KlResolveResult :=
  if negb (dns_ci_eq host (bytes "localhost")) then None
  else dns_is_literal SOCK_STREAM (if prefer_ipv6 then bytes "::1" else bytes "127.0.0.1") port.

(** ** Candidate names *)

Definition dns_copy (cap : nat) (a : list Z) : option (list Z) :=
  if (cap <? length a + 1)%nat then None else Some a.

Definition dns_join (cap : nat) (a b : list Z) : option (list Z) :=
  if (cap <? length a + 1 + length b + 1)%nat then None else Some (a ++ c_dot :: b).

Definition dns_add_cand (cand : list (list Z)) (name : list Z) : list (list Z) :=
  if (length cand <? DNS_MAX_CAND)%nat then
    match dns_copy DNS_NAME_MAX name with Some n => cand ++ [n] | None => cand end
  else cand.

(** The loop over the search domains. *)
Definition add_searches (search : list (list Z)) (base : list Z) (cand : list (list Z)) : list (list Z) :=
  fold_left (fun cand d => match dns_join DNS_NAME_MAX base d with Some j => dns_add_cand cand j | None => cand end) search cand.

Definition dns_build_candidates (r : KlDnsResolver) (host : list Z) : list (list Z) :=
  match dns_copy DNS_NAME_MAX host with
  | None => []
  | Some base =>
      let bl := length base in
      let absolute := (0 <? bl)%nat && (default 0 (base !! (bl - 1)%nat) =? c_dot) in
      let base := if absolute then take (bl - 1) base else base in
      let dots := strlen (filter (fun c => c = c_dot) base) in
      if absolute || (length (search r) =? 0)%nat then dns_add_cand [] base
      else if ndots r <=? dots then add_searches (search r) base (dns_add_cand [] base)
      else dns_add_cand (add_searches (search r) base []) base
  end.

(** ** Nameserver selection *)

Definition dns_parse_ns (s : list Z) (defport : Z) : option KlSockAddr :=
  if (80 <=? length s)%nat then None
  else
    match kl_strchr s c_hash with
    | None => kl_sockaddr_parse s defport
    | Some hash =>
        let port := match kl_parse_u16_decimal (tail hash) with
                    | Some p => if 0 <? p then p else defport
                    | None => defport
                    end in
        kl_sockaddr_parse (take (length s - length hash) s) port
    end.

(** fe80::/10 without a scope. *)
Definition unscoped_link_local (a : KlSockAddr) : bool :=
  bool_decide (kl_sockaddr_family a = KL_AF_INET6) && (scope_id a =? 0) &&
  (default 0 (u a !! 0%nat) =? 254) && (Z.land (default 0 (u a !! 1%nat)) 192 =? 128).

(** The loop over the candidate strings: the nameservers kept so far and their family. *)
Fixpoint select_ns_loop (ns : list (list Z)) (defport : Z) (max : nat) (out : list KlSockAddr) (fam : KlAddrFamily)
    : list KlSockAddr * KlAddrFamily :=
  match ns with
  | [] => (out, fam)
  | s :: ns' =>
      if negb (length out <? max)%nat then (out, fam)
      else
        match dns_parse_ns s defport with
        | None => select_ns_loop ns' defport max out fam
        | Some a =>
            let f := kl_sockaddr_family a in
            if unscoped_link_local a then select_ns_loop ns' defport max out fam
            else if bool_decide (fam = KL_AF_UNSPEC) || bool_decide (f = fam) then
              let fam := if bool_decide (fam = KL_AF_UNSPEC) then f else fam in
              if existsb (kl_sockaddr_equal a) out then select_ns_loop ns' defport max out fam
              else select_ns_loop ns' defport max (out ++ [a]) fam
            else select_ns_loop ns' defport max out fam
        end
  end.

Definition kl_dns_select_ns (ns : list (list Z)) (defport : Z) (max : nat) : list KlSockAddr * KlAddrFamily :=
  select_ns_loop ns defport max [] KL_AF_UNSPEC.

(** The source a datagram must come from. *)
Definition dns_ns_index (r : KlDnsResolver) (src : KlSockAddr) : option nat :=
  fst <$> list_find (fun a => kl_sockaddr_equal src a = true) (ns r).

(** ** Host names *)

(** A label that can be encoded. *)
Definition good_label (l : list Z) : Prop := (1 <= length l <= 63)%nat /\ c_dot ∉ l.

(** [host_labels host labs]: the labels of a host name, with or without the final dot. *)
Inductive host_labels : list Z -> list (list Z) -> Prop :=
| hl_nil : host_labels [] []
| hl_last l : good_label l -> host_labels l [l]
| hl_dot l rest labs : good_label l -> host_labels rest labs -> host_labels (l ++ c_dot :: rest) (l :: labs).

(** The wire form of the labels. *)
Definition encode (labs : list (list Z)) : list Z := concat ((fun l => strlen l :: l) <$> labs).

Lemma encode_cons l labs : encode (l :: labs) = strlen l :: l ++ encode labs.
Proof. done. Qed.

Lemma length_encode_cons l labs : length (encode (l :: labs)) = S (length l + length (encode labs)).
Proof. rewrite encode_cons. simpl. by rewrite length_app. Qed.

(** Equal up to the case of ASCII letters. *)
Definition same_letters : list Z -> list Z -> Prop := Forall2 (fun c c' => is_byte c' /\ ascii_lower c' = ascii_lower c).

Lemma dot_split (l rest l' rest' : list Z) : c_dot ∉ l -> c_dot ∉ l' -> l ++ c_dot :: rest = l' ++ c_dot :: rest' -> l = l' /\ rest = rest'.
Proof.
  revert l'. induction l as [|x l IH]; intros [|x' l'] Hl Hl' Heq; cbn [app] in Heq.
  - by simplify_eq.
  - injection Heq as <- _. by rewrite not_elem_of_cons in Hl'; destruct Hl'.
  - injection Heq as -> _. by rewrite not_elem_of_cons in Hl; destruct Hl.
  - injection Heq as -> Heq. rewrite not_elem_of_cons in Hl, Hl'. by destruct (IH l') as [-> ->]; [tauto|tauto| |].
Qed.

Lemma host_labels_dot l rest labs : c_dot ∉ l -> host_labels (l ++ c_dot :: rest) labs ->
  exists labs', labs = l :: labs' /\ good_label l /\ host_labels rest labs'.
Proof.
  intros Hl H. inversion H as [Heq|l' [_ Hd]|l' rest' labs' Hg Hr Heq]; subst.
  - by destruct l.
  - exfalso. apply Hd. apply elem_of_app. right. apply elem_of_cons. by left.
  - apply dot_split in Heq as [-> ->]; [|apply Hg|done]. by exists labs'.
Qed.

Lemma host_labels_last l labs : c_dot ∉ l -> l <> [] -> host_labels l labs -> labs = [l] /\ good_label l.
Proof.
  intros Hl Hne H. inversion H as [Heq|l' Hg|l' rest' labs' Hg Hr Heq]; subst; try done.
  exfalso. apply Hl. apply elem_of_app. right. apply elem_of_cons. by left.
Qed.

Lemma host_labels_fun p labs labs' : host_labels p labs -> host_labels p labs' -> labs = labs'.
Proof.
  intros H. revert labs'. induction H as [|l Hg|l rest labs Hg H IH]; intros labs' H'.
  - inversion H' as [|? [Hl _]|l ? ? ? ? Heq]; subst; [done|simpl in Hl; lia|by destruct l].
  - destruct Hg as [Hl Hd]. apply host_labels_last in H' as [-> _]; [done|done|by destruct l; simpl in Hl; [lia|]].
  - apply host_labels_dot in H' as (ls & -> & _ & H'); [|apply Hg]. f_equal. by apply IH.
Qed.

(** ** Entropy *)

(** Only the pool changed, and a failure is not forgotten. *)
Definition rnd_only (r r' : KlDnsResolver) : Prop :=
  exists pool off failed fills, r' = set_rnd pool off failed fills r /\ (rnd_failed r = true -> failed = true).

Lemma rnd_only_refl r : rnd_only r r.
Proof. exists (rnd_pool r), (rnd_off r), (rnd_failed r), (rnd_fills r). by destruct r. Qed.

Lemma rnd_only_trans r r1 r2 : rnd_only r r1 -> rnd_only r1 r2 -> rnd_only r r2.
Proof. intros (p1 & o1 & f1 & k1 & -> & H1) (p2 & o2 & f2 & k2 & -> & H2). exists p2, o2, f2, k2. split; [done|auto]. Qed.

#[local] Hint Resolve rnd_only_refl : keel.

Section entropy_lemmas.
Context (fill : nat -> option (list Z)).

Lemma rand_byte_only r : rnd_only r (dns_rand_byte fill r).1.
Proof.
  unfold dns_rand_byte. repeat case_match; cbn; unfold rnd_only; (do 4 eexists); (split; [reflexivity|]); cbn; auto.
Qed.

Lemma rand_bytes_only n r : rnd_only r (rand_bytes fill n r).1 /\ length (rand_bytes fill n r).2 = n.
Proof.
  revert r. induction n as [|n IH]; intros r; cbn [rand_bytes]; [split; [apply rnd_only_refl|done]|].
  pose proof (rand_byte_only r) as H. destruct (dns_rand_byte fill r) as [r1 b]. specialize (IH r1).
  destruct (rand_bytes fill n r1) as [r2 bs]. destruct IH as [H2 Hl]. split; [by eapply rnd_only_trans|cbn in *; lia].
Qed.

(** Both cases of a letter are that letter. *)
Lemma case_of_letter c : is_byte c -> c_a <= Z.lor c 32 <= c_z ->
  (is_byte (Z.lor c 32) /\ ascii_lower (Z.lor c 32) = ascii_lower c) /\
  (is_byte (Z.land c 223) /\ ascii_lower (Z.land c 223) = ascii_lower c).
Proof.
  intros Hb Hl. assert (H : forallb (fun n => let c := Z.of_nat n in
    negb ((c_a <=? Z.lor c 32) && (Z.lor c 32 <=? c_z)) ||
    (is_byteb (Z.lor c 32) && (ascii_lower (Z.lor c 32) =? ascii_lower c) &&
     (is_byteb (Z.land c 223) && (ascii_lower (Z.land c 223) =? ascii_lower c)))) (seq 0 256) = true) by (vm_compute; reflexivity).
  rewrite forallb_forall in H. specialize (H (Z.to_nat c)). unfold is_byte in Hb. rewrite Z2Nat.id in H by lia. cbv zeta in H.
  rewrite (proj2 (Z.leb_le _ _)), (proj2 (Z.leb_le _ _)) in H by lia. cbn [andb negb orb] in H.
  unfold is_byteb in H. rewrite !andb_true_iff, !Z.eqb_eq, !Z.leb_le in H. unfold is_byte. apply H, list_elem_of_In, elem_of_seq. lia.
Qed.

Lemma case_label_spec use lab r : Forall is_byte lab ->
  rnd_only r (case_label fill use lab r).1 /\ same_letters lab (case_label fill use lab r).2.
Proof.
  intros Hb. revert r. induction Hb as [|c lab Hc Hb IH]; intros r; cbn [case_label]; [split; [apply rnd_only_refl|constructor]|].
  set (d := if _ && _ then _ else _).
  assert (Hd : rnd_only r d.1 /\ is_byte d.2 /\ ascii_lower d.2 = ascii_lower c).
  { unfold d. destruct (use && (c_a <=? Z.lor c 32) && (Z.lor c 32 <=? c_z)) eqn:E; [|split; [apply rnd_only_refl|done]].
    breflect. pose proof (rand_byte_only r) as Hr. destruct (dns_rand_byte fill r) as [r1 b]. split; [done|]. cbn [snd].
    destruct (case_of_letter c Hc) as [Hlo Hup]; [lia|]. by case_if. }
  destruct d as [r1 c']. specialize (IH r1). destruct (case_label fill use lab r1) as [r2 out]. cbn [fst snd] in *.
  destruct Hd as [Hd1 Hd2], IH as [IH1 IH2]. split; [by eapply rnd_only_trans|]. by constructor.
Qed.

Lemma same_letters_length l l' : same_letters l l' -> length l' = length l.
Proof. intros H. symmetry. by eapply Forall2_length. Qed.

Lemma encode_length labs labs' : Forall2 same_letters labs labs' -> length (encode labs') = length (encode labs).
Proof.
  induction 1 as [|l l' labs labs' Hl H IH]; [done|]. by rewrite !length_encode_cons, IH, (same_letters_length _ _ Hl).
Qed.

(** The label loop: it writes the labels of the name, or there are none, or they do not fit. *)
Lemma query_labels_spec fuel use cap p out r : Forall is_cbyte p -> (length p < fuel)%nat ->
  exists r' o, query_labels fill fuel use cap p out r = Some (r', o) /\ rnd_only r r' /\
    match o with
    | Some out' => exists labs labs', host_labels p labs /\ Forall2 same_letters labs labs' /\ out' = out ++ encode labs'
    | None => forall labs, host_labels p labs -> (cap < length out + length (encode labs))%nat
    end.
Proof.
  revert p out r. induction fuel as [|fuel IH]; intros p out r Hp Hf; [lia|]. cbn [query_labels].
  destruct p as [|c p']; [do 2 eexists; split; [done|]; split; [apply rnd_only_refl|]; exists [], []; rewrite app_nil_r; by split_and!; [constructor|constructor|]|].
  set (p := c :: p') in *. pose proof (strchr_spec p c_dot Hp ltac:(by unfold is_cbyte)) as Hdot.
  pose proof cbytes_bytes as Hb.
  destruct (kl_strchr p c_dot) as [d|].
  - destruct Hdot as (l & rest & Hpe & Hl & ->). replace (length p - length (c_dot :: rest))%nat with (length l) by (rewrite Hpe, length_app; simpl; lia).
    assert (Htk : take (length l) p = l) by (by rewrite Hpe, take_app_length). rewrite Htk.
    rewrite Hpe in Hp. apply Forall_app in Hp as [Hpl Hpr]. inversion_clear Hpr as [|? ? _ Hrest].
    destruct ((length l =? 0)%nat || (63 <? length l)%nat) eqn:E1.
    { do 2 eexists. split; [done|]. split; [apply rnd_only_refl|]. rewrite Hpe. intros labs Hh.
      apply host_labels_dot in Hh as (labs' & _ & [Hg _] & _); [|done]. apply orb_true_iff in E1. rewrite Nat.eqb_eq, Nat.ltb_lt in E1. lia. }
    apply orb_false_iff in E1. rewrite Nat.eqb_neq, Nat.ltb_ge in E1.
    destruct (Nat.ltb_spec cap (length out + 1 + length l)) as [Hcap|Hcap].
    { do 2 eexists. split; [done|]. split; [apply rnd_only_refl|]. rewrite Hpe. intros labs Hh.
      apply host_labels_dot in Hh as (labs' & -> & _); [|done]. rewrite length_encode_cons. lia. }
    destruct (case_label_spec use l r (Hb _ Hpl)) as [Hr1 Hs1]. destruct (case_label fill use l r) as [r1 cs]. cbn [fst snd] in *.
    pose proof (same_letters_length _ _ Hs1) as Hlen.
    destruct (IH rest (out ++ Z.of_nat (length l) :: cs) r1 Hrest) as (r' & o & He & Hr' & Ho).
    { apply (f_equal length) in Hpe. rewrite length_app in Hpe. cbn [length] in Hpe. lia. }
    exists r', o. cbn [tail]. split; [done|]. split; [by eapply rnd_only_trans|]. rewrite Hpe.
    assert (Hg : good_label l) by (split; [lia|done]). destruct o as [out'|].
    + destruct Ho as (labs & labs' & Hh & Hs & ->). exists (l :: labs), (cs :: labs'). split_and!; [by constructor|by constructor|].
      rewrite encode_cons. unfold strlen. by rewrite Hlen, <- app_assoc.
    + intros labs Hh. apply host_labels_dot in Hh as (labs' & -> & _ & Hh); [|done]. specialize (Ho labs' Hh).
      rewrite length_encode_cons. rewrite length_app in Ho. simpl in Ho. lia.
  - rewrite firstn_all. destruct ((length p =? 0)%nat || (63 <? length p)%nat) eqn:E1.
    { do 2 eexists. split; [done|]. split; [apply rnd_only_refl|]. intros labs Hh.
      apply host_labels_last in Hh as (_ & Hg & _); [|done|done]. apply orb_true_iff in E1. rewrite Nat.eqb_eq, Nat.ltb_lt in E1. lia. }
    apply orb_false_iff in E1. rewrite Nat.eqb_neq, Nat.ltb_ge in E1.
    destruct (Nat.ltb_spec cap (length out + 1 + length p)) as [Hcap|Hcap].
    { do 2 eexists. split; [done|]. split; [apply rnd_only_refl|]. intros labs Hh.
      apply host_labels_last in Hh as (-> & _); [|done|done]. rewrite length_encode_cons. change (length (encode [])) with 0%nat. lia. }
    destruct (case_label_spec use p r (Hb _ Hp)) as [Hr1 Hs1]. destruct (case_label fill use p r) as [r1 cs]. cbn [fst snd] in *.
    pose proof (same_letters_length _ _ Hs1) as Hlen. do 2 eexists. split; [done|]. split; [done|].
    exists [p], [cs]. split_and!; [constructor; split; [lia|done]|by repeat constructor|].
    rewrite encode_cons. unfold strlen. by rewrite Hlen, app_nil_r.
Qed.

(** ** The query builder *)

(** The cookie state of a nameserver. *)
Definition cookie_ok (c : KlDnsCookie) : Prop :=
  length (client c) = DNS_COOKIE_CLIENT /\ length (server c) = DNS_COOKIE_SRV_MAX /\ 0 <= server_len c <= Z.of_nat DNS_COOKIE_SRV_MAX.

(** Whether a cookie goes with a query to nameserver [ns_idx], and the size of the OPT record. *)
Definition sends_cookie (r : KlDnsResolver) (ns_idx : Z) : bool :=
  negb (disable_cookies r) && (0 <=? ns_idx) && (ns_idx <? Z.of_nat (length (ns r))).

Definition opt_room (r : KlDnsResolver) (ns_idx : Z) : nat :=
  if disable_edns r then 0
  else DNS_OPT_RR_LEN +
    (if sends_cookie r ns_idx then 4 + DNS_COOKIE_CLIENT + Z.to_nat (server_len (default no_cookie (cookie r !! Z.to_nat ns_idx))) else 0).

Lemma no_cookie_ok : cookie_ok no_cookie.
Proof. by vm_compute. Qed.

Lemma cookie_at_ok r i : Forall cookie_ok (cookie r) -> cookie_ok (default no_cookie (cookie r !! i)).
Proof. intros H. destruct (cookie r !! i) as [c|] eqn:E; [by eapply Forall_lookup_1|apply no_cookie_ok]. Qed.

Lemma cookie_client_spec r i : Forall cookie_ok (cookie r) ->
  length (dns_cookie_client fill r i).2 = DNS_COOKIE_CLIENT /\ Forall cookie_ok (cookie (dns_cookie_client fill r i).1) /\
  (rnd_failed r = true -> rnd_failed (dns_cookie_client fill r i).1 = true).
Proof.
  intros Hc. pose proof (cookie_at_ok r i Hc) as Hi. unfold dns_cookie_client. set (c := default no_cookie (cookie r !! i)) in *.
  destruct (have_client c); [split_and!; [apply Hi|done|done]|].
  destruct (rand_bytes_only DNS_COOKIE_CLIENT r) as [(p & o & f & k & Hr & Hf) Hl].
  destruct (rand_bytes fill DNS_COOKIE_CLIENT r) as [r1 bs]. cbn [fst snd] in *. subst r1. split_and!; [done| |done].
  apply Forall_insert; [done|]. destruct Hi as (_ & Hs & Hsl). exact (conj Hl (conj Hs Hsl)).
Qed.

Lemma query_opt_spec cap ns_idx out r : Forall cookie_ok (cookie r) -> disable_edns r = false ->
  exists r' o, query_opt fill cap ns_idx out r = (r', o) /\ Forall cookie_ok (cookie r') /\ (rnd_failed r = true -> rnd_failed r' = true) /\
    match o with
    | Some out' => exists extra, out' = <[11%nat := 1]> out ++ extra /\ length extra = opt_room r ns_idx /\ (length out + opt_room r ns_idx <= cap)%nat
    | None => (cap < length out + opt_room r ns_idx)%nat
    end.
Proof.
  intros Hc He. unfold query_opt, opt_room. rewrite He. change (negb (disable_cookies r) && _ && _) with (sends_cookie r ns_idx).
  pose proof (cookie_at_ok r (Z.to_nat ns_idx) Hc) as (_ & Hs & Hl). set (c := default no_cookie (cookie r !! Z.to_nat ns_idx)) in *.
  unfold DNS_COOKIE_CLIENT, DNS_COOKIE_SRV_MAX, DNS_OPT_RR_LEN in *. destruct (sends_cookie r ns_idx).
  - replace (Z.to_nat (4 + (Z.of_nat 8 + server_len c))) with (4 + 8 + Z.to_nat (server_len c))%nat by lia.
    destruct (Nat.ltb_spec cap (length out + 11 + (4 + 8 + Z.to_nat (server_len c)))).
    { do 2 eexists. split; [reflexivity|]. split_and!; [done|done|lia]. }
    destruct (cookie_client_spec r (Z.to_nat ns_idx) Hc) as (Hlen & Hc' & Hf).
    destruct (dns_cookie_client fill r (Z.to_nat ns_idx)) as [r1 cc]. cbn [fst snd] in *. do 2 eexists. split; [reflexivity|].
    split_and!; [done|done|]. rewrite <- app_assoc. eexists. split_and!; [reflexivity| |lia].
    rewrite !length_app. destruct (Z.eqb_spec (server_len c) 0) as [->|Hn]; cbn [length hi_lo]; rewrite ?length_take; unfold DNS_COOKIE_CLIENT in *; lia.
  - change (Z.to_nat 0) with 0%nat. destruct (Nat.ltb_spec cap (length out + 11 + 0)).
    { do 2 eexists. split; [reflexivity|]. split_and!; [done|done|lia]. }
    do 2 eexists. split; [reflexivity|]. split_and!; [done|done|]. eexists. split_and!; [reflexivity|done|lia].
Qed.

(** The header of a query. *)
Definition query_header (id : Z) (arcount : Z) : list Z := hi_lo id ++ [1; 0; 0; 1; 0; 0; 0; 0; 0; arcount].

Lemma build_query_spec r cap id host qtype ns_idx : Forall cookie_ok (cookie r) -> Forall is_cbyte host ->
  exists r' o, dns_build_query fill r cap id host qtype ns_idx = Some (r', o) /\ Forall cookie_ok (cookie r') /\
    match o with
    | Some (pkt, q) => rnd_failed r' = false /\ (length pkt <= cap)%nat /\
        exists labs labs' ar extra, host_labels host labs /\ Forall2 same_letters labs labs' /\
          q = encode labs' ++ [0] ++ hi_lo qtype ++ [0; 1] /\ pkt = query_header id ar ++ q ++ extra /\ length extra = opt_room r ns_idx
    | None => rnd_failed r' = true \/
        forall labs, host_labels host labs -> (cap < 12 + length (encode labs) + 5 + opt_room r ns_idx)%nat
    end.
Proof.
  intros Hc Hh. unfold dns_build_query. destruct (Nat.ltb_spec cap 12); [do 2 eexists; split; [done|]; split; [done|]; right; intros; lia|].
  change (hi_lo id ++ _) with (query_header id 0).
  destruct (query_labels_spec (S (length host)) (negb (disable_0x20 r)) cap host (query_header id 0) r Hh ltac:(lia)) as (r1 & o & -> & Hr1 & Ho).
  rewrite bind_Some_l. destruct Hr1 as (pl & rof & fl & rfi & -> & Hfl). set (r1 := set_rnd pl rof fl rfi r) in *.
  assert (Hroom : opt_room r1 ns_idx = opt_room r ns_idx) by done.
  destruct o as [out|]; [|do 2 eexists; split; [done|]; split; [done|]; right; intros labs Hl; specialize (Ho labs Hl); cbn in Ho; lia].
  destruct Ho as (labs & labs' & Hl & Hs & ->). rewrite length_app, (encode_length _ _ Hs). change (length (query_header id 0)) with 12%nat.
  assert (Hfun : forall labs', host_labels host labs' -> labs' = labs) by (intros; by eapply host_labels_fun).
  destruct (Nat.ltb_spec cap (12 + length (encode labs) + 5)).
  { do 2 eexists. split; [done|]. split; [done|]. right. intros l Hl'. rewrite (Hfun l Hl'). lia. }
  cbv zeta. set (q := encode labs' ++ [0] ++ hi_lo qtype ++ [0; 1]).
  assert (Hq : (query_header id 0 ++ encode labs') ++ [0] ++ hi_lo qtype ++ [0; 1] = query_header id 0 ++ q) by (by rewrite <- app_assoc).
  assert (Hlq : length q = (length (encode labs) + 5)%nat) by (unfold q; rewrite length_app, (encode_length _ _ Hs); done).
  rewrite Hq. change (drop 12 (query_header id 0 ++ q)) with q. destruct (disable_edns r1) eqn:Ee.
  - do 2 eexists. split; [done|]. split; [done|]. change (rnd_failed r1) with fl. destruct fl; [by left|].
    assert (Hz : opt_room r ns_idx = 0%nat) by (unfold opt_room; by rewrite (Ee : disable_edns r = true)).
    split; [done|]. split; [rewrite length_app; cbn; lia|]. exists labs, labs', 0, []. rewrite app_nil_r. by split_and!.
  - destruct (query_opt_spec cap ns_idx (query_header id 0 ++ q) r1 Hc Ee) as (r2 & o & -> & Hc2 & Hf2 & Ho).
    rewrite Hroom, length_app, Hlq in Ho. change (length (query_header id 0)) with 12%nat in Ho. destruct o as [out|].
    2: { do 2 eexists. split; [done|]. split; [done|]. right. intros l Hl'. rewrite (Hfun l Hl'). lia. }
    destruct Ho as (extra & -> & Hlx & Hcap). do 2 eexists. split; [done|]. split; [done|]. destruct (rnd_failed r2) eqn:Ef; [by left|].
    change (<[11%nat := 1]> (query_header id 0 ++ q)) with (query_header id 1 ++ q). rewrite <- app_assoc.
    split; [done|]. split; [rewrite !length_app, Hlq, Hlx; cbn; lia|]. exists labs, labs', 1, extra. by split_and!.
Qed.

End entropy_lemmas.

(** ** Queries and their answers *)

Lemma host_labels_good p labs : host_labels p labs -> Forall good_label labs /\ (2 * length labs <= length p + 1)%nat.
Proof.
  induction 1 as [|l Hg|l rest labs Hg H [IH1 IH2]].
  - split; [constructor|simpl; lia].
  - split; [by apply Forall_singleton|]. destruct Hg. simpl. lia.
  - split; [by constructor|]. destruct Hg. rewrite length_app. simpl. lia.
Qed.

Lemma encode_name labs labs' n : Forall good_label labs -> Forall2 same_letters labs labs' -> (length labs <= n)%nat ->
  dname n (encode labs' ++ [0]).
Proof.
  intros Hg H. revert n. induction H as [|l l' labs labs' Hl H IH]; intros n Hn; [constructor|].
  inversion_clear Hg as [|? ? [Hg1 _] Hg']. destruct n as [|n]; [simpl in Hn; lia|]. rewrite encode_cons. cbn [app]. rewrite <- app_assoc.
  pose proof (same_letters_length _ _ Hl). unfold strlen. constructor; [lia|done|]. apply IH; [done|simpl in Hn; lia].
Qed.

Lemma encode_bytes labs labs' : Forall good_label labs -> Forall2 same_letters labs labs' -> Forall is_byte (encode labs').
Proof.
  intros Hg H. induction H as [|l l' labs labs' Hl H IH]; [constructor|]. inversion_clear Hg as [|? ? [Hg1 _] Hg'].
  rewrite encode_cons. pose proof (same_letters_length _ _ Hl). constructor; [unfold is_byte, strlen; lia|].
  apply Forall_app. split; [|by apply IH]. clear -Hl. induction Hl as [|c c' l l' [Hc _] _ IH]; by constructor.
Qed.

Lemma hi_lo_bytes v : Forall is_byte (hi_lo v).
Proof.
  unfold hi_lo, u8, is_byte. pose proof (Z.mod_pos_bound (Z.shiftr v 8) 256). pose proof (Z.mod_pos_bound (Z.land v 255) 256).
  do 2 (constructor; [lia|]). constructor.
Qed.

Lemma hi_lo_eq v : 0 <= v <= 65535 -> hi_lo v = [v / 256; v mod 256].
Proof.
  intros Hv. unfold hi_lo. rewrite shiftr_8, land_255, !u8_small; [done| |].
  - pose proof (Z.mod_pos_bound v 256 ltac:(lia)). lia.
  - assert (0 <= v / 256) by (apply Z.div_pos; lia). assert (v / 256 < 256) by (apply Z.div_lt_upper_bound; lia). lia.
Qed.

(** The addresses of a list of records, each with its type, its data and its wire form. *)
Definition record_addrs (want : Z) (recs : list (Z * list Z * list Z)) : list KlSockAddr :=
  omap (fun '(ty, rdata, _) => address_of want ty rdata) recs.

Lemma answers_records want recs room : Forall (fun '(ty, rdata, s) => drecord ty rdata s) recs ->
  answers want (length recs) room (concat (snd <$> recs)) (take room (record_addrs want recs)).
Proof.
  intros H. revert room. induction H as [|[[ty rdata] s] recs Hr H IH]; intros room; [change (record_addrs want []) with (@nil KlSockAddr); rewrite take_nil; constructor|].
  destruct room as [|room]; [rewrite take_0; constructor|]. cbn [length fmap list_fmap concat snd]. unfold record_addrs. cbn [omap list_omap].
  destruct (address_of want ty rdata) as [a|] eqn:E.
  - cbn [take]. eapply ans_addr; [done|done|apply IH].
  - eapply ans_skip; [done|done|apply IH].
Qed.

(** The response of a server that answers question [q] of transaction [id] with [recs]. *)
Definition reply (id : Z) (q : list Z) (recs : list (Z * list Z * list Z)) : list Z :=
  hi_lo id ++ [129; 128; 0; 1] ++ hi_lo (Z.of_nat (length recs)) ++ [0; 0; 0; 0] ++ q ++ concat (snd <$> recs).

Lemma reply_response id want q recs : 0 <= id <= 65535 -> dquestion q -> Z.of_nat (length recs) <= 65535 ->
  Forall (fun '(ty, rdata, s) => drecord ty rdata s) recs ->
  response id want (Some q) (reply id q recs) (take KL_RESOLVE_MAX_ADDRS (record_addrs want recs)).
Proof.
  intros Hid Hq Hn Hr. unfold reply, response. rewrite !hi_lo_eq by lia.
  exists (id / 256), (id mod 256), 129, 128, 0, 1, (Z.of_nat (length recs) / 256), (Z.of_nat (length recs) mod 256), 0, 0, 0, 0, [q], (concat (snd <$> recs)).
  cbn [concat]. rewrite app_nil_r. split_and!; try done.
  - rewrite Z.mul_comm. by apply Z.div_mod.
  - by apply Forall_singleton.
  - rewrite Z.mul_comm, <- Z.div_mod, Nat2Z.id by lia. by apply answers_records.
Qed.

Lemma reply_parsed SOCK_STREAM id want q recs out : 0 <= id <= 65535 -> dquestion q -> Forall is_byte q ->
  Z.of_nat (length recs) <= 65535 -> Forall (fun '(ty, rdata, s) => drecord ty rdata s /\ Forall is_byte s) recs -> out_ok out ->
  exists out', kl_dns_parse_response SOCK_STREAM (reply id q recs) id want (Some q) out =
      Some (bool_decide (record_addrs want recs <> []), out') /\
    (record_addrs want recs <> [] -> reported out' = take KL_RESOLVE_MAX_ADDRS (record_addrs want recs)).
Proof.
  intros Hid Hq Hbq Hn Hr Hout.
  assert (Hr1 : Forall (fun '(ty, rdata, s) => drecord ty rdata s) recs) by (apply (Forall_impl _ _ _ Hr); by intros [[] ?] []).
  assert (Hb : Forall is_byte (reply id q recs)).
  { unfold reply. apply Forall_app. split; [apply hi_lo_bytes|]. apply Forall_app. split; [by apply bytes_ok|].
    apply Forall_app. split; [apply hi_lo_bytes|]. apply Forall_app. split; [by apply bytes_ok|]. apply Forall_app. split; [done|].
    clear -Hr. induction Hr as [|[[] s] recs [_ Hs] _ IH]; [constructor|]. by apply Forall_app. }
  pose proof (reply_response id want q recs Hid Hq Hn Hr1) as Hresp.
  destruct (parse_response_spec SOCK_STREAM (reply id q recs) id want (Some q) out Hb Hout) as (ok & out' & -> & _ & Hx).
  exists out'. destruct ok.
  - destruct Hx as (Hx & Hne & _). rewrite (response_fun _ _ _ _ _ _ Hx Hresp) in *.
    rewrite bool_decide_true; [done|]. intros He. rewrite He in Hne. done.
  - specialize (Hx _ Hresp). assert (He : record_addrs want recs = []) by (by destruct (record_addrs want recs)).
    rewrite He, bool_decide_false; [done|]. tauto.
Qed.

Lemma encode_host_length p labs : host_labels p labs -> (length (encode labs) <= length p + 1)%nat.
Proof.
  induction 1 as [|l Hg|l rest labs Hg H IH]; [simpl; lia|rewrite length_encode_cons; change (length (encode [])) with 0%nat; lia|].
  rewrite length_encode_cons, length_app. simpl. lia.
Qed.

Lemma opt_room_bound r ns_idx : Forall cookie_ok (cookie r) -> (opt_room r ns_idx <= 55)%nat.
Proof.
  intros Hc. pose proof (cookie_at_ok r (Z.to_nat ns_idx) Hc) as (_ & _ & Hl). unfold opt_room, DNS_OPT_RR_LEN, DNS_COOKIE_CLIENT, DNS_COOKIE_SRV_MAX in *.
  destruct (disable_edns r); [lia|]. destruct (sends_cookie r ns_idx); lia.
Qed.

(** Every host name the resolver can hold is asked for: with the resolver's 512-byte buffer the
    builder always returns, writes inside the buffer and keeps the cookie state well formed; it
    refuses only when a draw found no entropy or the name has an empty or over-long label; and the
    packet it returns is a header with the transaction id and one question, whose name is the
    host's labels up to the random case of their letters, followed by at most an OPT record. *)
Lemma dns_query_spec (fill : nat -> option (list Z)) (r : KlDnsResolver) (id : Z) (host : list Z) (qtype ns_idx : Z)
    (Hc : Forall cookie_ok (cookie r)) (Hh : Forall is_cbyte host) (Hl : (length host < DNS_NAME_MAX)%nat) :
  exists r' o, dns_build_query fill r DNS_QUERY_MAX id host qtype ns_idx = Some (r', o) /\ Forall cookie_ok (cookie r') /\
    match o with
    | Some (pkt, q) => rnd_failed r' = false /\ (length pkt <= DNS_QUERY_MAX)%nat /\
        exists labs labs' ar extra, host_labels host labs /\ Forall2 same_letters labs labs' /\
          q = encode labs' ++ [0] ++ hi_lo qtype ++ [0; 1] /\ pkt = query_header id ar ++ q ++ extra /\ length extra = opt_room r ns_idx
    | None => rnd_failed r' = true \/ forall labs, ~ host_labels host labs
    end.
Proof.
  destruct (build_query_spec fill r DNS_QUERY_MAX id host qtype ns_idx Hc Hh) as (r' & o & Hq & Hc' & Ho). exists r', o. split_and!; [done|done|].
  destruct o as [[pkt q]|]; [done|]. destruct Ho as [Ho|Ho]; [by left|right]. intros labs Hlabs. specialize (Ho labs Hlabs).
  pose proof (encode_host_length _ _ Hlabs). pose proof (opt_room_bound r ns_idx Hc). unfold DNS_QUERY_MAX, DNS_NAME_MAX in *. lia.
Qed.

(** A resolver with one nameserver, no learned cookie and an entropy source. *)
Definition sample_resolver : KlDnsResolver :=
  mkDns false false false [kl_sockaddr_from_ipv4 [10; 0; 0; 53] 53] (replicate 3 no_cookie) [] 1 [] DNS_RND_POOL_SIZE false 0.
Definition sample_fill : nat -> option (list Z) := fun _ => Some (Z.of_nat <$> seq 0 256).
Definition sample_host : list Z := bytes "Www.Example.org".

Lemma sample_cookies : Forall cookie_ok (cookie sample_resolver).
Proof. repeat (apply Forall_cons; split; [apply no_cookie_ok|]). apply Forall_nil. done. Qed.

(** C34.  Query and response agree: when a query has been built for a host, the reply that echoes its
    question and carries any records is accepted for that transaction and question exactly when one
    of the records is an address of the queried type, and yields the first eight of these addresses
    in order; and a packet whose question section differs from the query's in any byte, in
    particular in the random case of a letter, is never accepted. *)
Theorem dns_query_answered (fill : nat -> option (list Z)) (SOCK_STREAM : Z) (r r' : KlDnsResolver) (cap : nat) (id : Z) (host : list Z)
    (qtype ns_idx : Z) (pkt q : list Z) (recs : list (Z * list Z * list Z)) (out : KlResolveResult)
    (Hq : dns_build_query fill r cap id host qtype ns_idx = Some (r', Some (pkt, q)))
    (Hc : Forall cookie_ok (cookie r)) (Hh : Forall is_cbyte host) (Hl : (length host < DNS_NAME_MAX)%nat) (Hid : 0 <= id <= 65535)
    (Hr : Forall (fun '(ty, rdata, s) => drecord ty rdata s /\ Forall is_byte s) recs) (Hn : Z.of_nat (length recs) <= 65535) (Hout : out_ok out) :
  (exists out', kl_dns_parse_response SOCK_STREAM (reply id q recs) id qtype (Some q) out =
      Some (bool_decide (record_addrs qtype recs <> []), out') /\
    (record_addrs qtype recs <> [] -> reported out' = take KL_RESOLVE_MAX_ADDRS (record_addrs qtype recs))) /\
  (forall p, Forall is_byte p -> take (length q) (drop 12 p) <> q ->
    exists out', kl_dns_parse_response SOCK_STREAM p id qtype (Some q) out = Some (false, out')).
Proof.
  destruct (build_query_spec fill r cap id host qtype ns_idx Hc Hh) as (r1 & o & Hb & _ & Ho). rewrite Hb in Hq. injection Hq as -> ->.
  destruct Ho as (_ & _ & labs & labs' & ar & extra & Hlabs & Hs & Hqe & _). destruct (host_labels_good _ _ Hlabs) as [Hg Hcount].
  unfold DNS_NAME_MAX in Hl. split.
  - assert (Hdq : dquestion q).
    { exists (encode labs' ++ [0]), (hi_lo qtype ++ [0; 1]). split_and!; [apply (encode_name labs); [done|done|lia]|done|]. rewrite Hqe. by rewrite <- !app_assoc. }
    assert (Hbq : Forall is_byte q).
    { rewrite Hqe. apply Forall_app. split; [by eapply encode_bytes|]. apply (Forall_app _ [0]). split; [by repeat constructor|].
      apply Forall_app. split; [apply hi_lo_bytes|]. by repeat constructor. }
    apply reply_parsed; try done.
  - intros p Hp Hne. destruct (parse_response_spec SOCK_STREAM p id qtype (Some q) out Hp Hout) as ([] & out' & He & _ & Hx); [|by exists out'].
    destruct Hx as ((? & ? & ? & ? & ? & ? & ? & ? & ? & ? & ? & ? & qs & body & -> & _ & _ & _ & _ & _ & Hqs & _) & _).
    destruct Hne. rewrite <- Hqs. cbn [app drop]. by rewrite drop_0, take_app_length.
Qed.

Definition sample_built : KlDnsResolver * option (list Z * list Z) :=
  default (sample_resolver, None) (dns_build_query sample_fill sample_resolver DNS_QUERY_MAX 4660 sample_host KL_DNS_TYPE_A 0).
Definition sample_pkt : list Z := (default ([], []) sample_built.2).1.
Definition sample_q : list Z := (default ([], []) sample_built.2).2.
Definition sample_recs : list (Z * list Z * list Z) :=
  [(5, [192; 12], [192; 12; 0; 5; 0; 1; 0; 0; 0; 60; 0; 2; 192; 12]);
   (KL_DNS_TYPE_A, [10; 0; 0; 7], [192; 12; 0; 1; 0; 1; 0; 0; 0; 60; 0; 4; 10; 0; 0; 7])].

Lemma sample_recs_ok : Forall (fun '(ty, rdata, s) => drecord ty rdata s /\ Forall is_byte s) sample_recs.
Proof.
  unfold sample_recs. apply Forall_cons. split; [|apply Forall_cons; split; [|by apply Forall_nil]];
    (split; [|apply bytes_ok; vm_compute; reflexivity]); exists [0; 1; 0; 0; 0; 60]; exists [192; 12]; eexists; eexists;
    (split_and!; [constructor; lia|split; [vm_compute; split; discriminate|vm_compute; reflexivity]|reflexivity
      |split; [vm_compute; split; discriminate|vm_compute; reflexivity]|vm_compute; reflexivity]).
Qed.

Lemma dns_query_answered_witness :
  (exists out', kl_dns_parse_response 1 (reply 4660 sample_q sample_recs) 4660 KL_DNS_TYPE_A (Some sample_q) sample_out =
      Some (bool_decide (record_addrs KL_DNS_TYPE_A sample_recs <> []), out') /\
    (record_addrs KL_DNS_TYPE_A sample_recs <> [] -> reported out' = take KL_RESOLVE_MAX_ADDRS (record_addrs KL_DNS_TYPE_A sample_recs))) /\
  (forall p, Forall is_byte p -> take (length sample_q) (drop 12 p) <> sample_q ->
    exists out', kl_dns_parse_response 1 p 4660 KL_DNS_TYPE_A (Some sample_q) sample_out = Some (false, out')).
Proof.
  apply (dns_query_answered sample_fill 1 sample_resolver sample_built.1 DNS_QUERY_MAX 4660 sample_host KL_DNS_TYPE_A 0 sample_pkt).
  - vm_compute. reflexivity.
  - exact sample_cookies.
  - apply cbytes_ok. vm_compute. reflexivity.
  - apply Nat.ltb_lt. vm_compute. reflexivity.
  - lia.
  - exact sample_recs_ok.
  - vm_compute. discriminate.
  - split; [reflexivity|apply Nat.le_0_l].
Defined.

(** ** Nameservers *)

(** The usable ones among the configured strings. *)
Definition usable_ns (ns : list (list Z)) (defport : Z) : list KlSockAddr :=
  filter (fun a => unscoped_link_local a = false) (omap (fun s => dns_parse_ns s defport) ns).

(** The addresses of [l] that are not among the ones kept before. *)
Fixpoint keep_new (kept l : list KlSockAddr) : list KlSockAddr :=
  match l with
  | [] => kept
  | a :: l' => keep_new (if existsb (kl_sockaddr_equal a) kept then kept else kept ++ [a]) l'
  end.

Definition first_family (l : list KlSockAddr) : KlAddrFamily :=
  match l with [] => KL_AF_UNSPEC | a :: _ => family a end.

Lemma keep_new_prefix kept l : exists l', keep_new kept l = kept ++ l'.
Proof.
  revert kept. induction l as [|a l IH]; intros kept; cbn [keep_new]; [exists []; by rewrite app_nil_r|].
  case_if; [apply IH|]. destruct (IH (kept ++ [a])) as [l' ->]. exists (a :: l'). by rewrite <- app_assoc.
Qed.

Lemma take_keep_new max kept l : length kept = max -> take max (keep_new kept l) = kept.
Proof. intros <-. destruct (keep_new_prefix kept l) as [l' ->]. by rewrite take_app_length. Qed.

Lemma parse_ns_family s defport a : dns_parse_ns s defport = Some a -> family a <> KL_AF_UNSPEC.
Proof.
  unfold dns_parse_ns, kl_sockaddr_parse. intros H. repeat (case_match; try done); simplify_option_eq; done.
Qed.

(** Once the family is known. *)
Lemma select_known ns defport max out fam : fam <> KL_AF_UNSPEC -> (length out <= max)%nat ->
  select_ns_loop ns defport max out fam = (take max (keep_new out (filter (fun a => family a = fam) (usable_ns ns defport))), fam).
Proof.
  intros Hf. revert out. induction ns as [|s ns IH]; intros out Hl; cbn [select_ns_loop].
  { unfold usable_ns. cbn. by rewrite take_ge. }
  destruct (Nat.ltb_spec (length out) max) as [Hlt|Hge]; cbn [negb]; [|by rewrite take_keep_new by lia].
  unfold usable_ns in *. cbn [omap list_omap]. destruct (dns_parse_ns s defport) as [a|]; [|by apply IH].
  rewrite (bool_decide_false (fam = KL_AF_UNSPEC)) by done. cbn [orb]. unfold kl_sockaddr_family.
  destruct (unscoped_link_local a) eqn:El; [rewrite filter_cons_False by congruence; by apply IH|].
  rewrite (filter_cons_True (fun a => unscoped_link_local a = false)) by done. case_bool_decide as Hfa.
  - rewrite filter_cons_True by done. cbn [keep_new]. case_if; [by apply IH|]. apply IH. rewrite length_app. simpl. lia.
  - rewrite filter_cons_False by done. by apply IH.
Qed.

Lemma select_ns_spec ns defport max : (0 < max)%nat ->
  let us := usable_ns ns defport in
  kl_dns_select_ns ns defport max = (take max (keep_new [] (filter (fun a => family a = first_family us) us)), first_family us).
Proof.
  intros Hm us. unfold us, kl_dns_select_ns. induction ns as [|s ns IH]; [by destruct max|]. cbn [select_ns_loop length].
  rewrite (proj2 (Nat.ltb_lt _ _) Hm). cbn [negb]. unfold usable_ns in *. cbn [omap list_omap].
  destruct (dns_parse_ns s defport) as [a|] eqn:Ep; [|apply IH].
  destruct (unscoped_link_local a) eqn:El; [rewrite filter_cons_False by congruence; apply IH|].
  rewrite (bool_decide_true (KL_AF_UNSPEC = KL_AF_UNSPEC)) by done. cbn [orb existsb app].
  rewrite !(filter_cons_True (fun a => unscoped_link_local a = false)) by done. cbn [first_family].
  rewrite select_known by (simpl; lia || by eapply parse_ns_family). unfold usable_ns, kl_sockaddr_family.
  by rewrite filter_cons_True by done.
Qed.

(** No address equals an earlier one. *)
Definition distinct (l : list KlSockAddr) : Prop :=
  forall i j a b, (i < j)%nat -> l !! i = Some a -> l !! j = Some b -> kl_sockaddr_equal b a = false.

Lemma keep_new_distinct kept l : distinct kept -> distinct (keep_new kept l).
Proof.
  revert kept. induction l as [|a l IH]; intros kept Hk; cbn [keep_new]; [done|]. destruct (existsb _ _) eqn:E; [by apply IH|].
  apply IH. intros i j x y Hij Hi Hj. apply lookup_snoc_Some in Hj as [[Hj Hy]|[-> ->]].
  - apply (Hk i j); [done| |done]. rewrite lookup_app_l in Hi by lia. done.
  - rewrite lookup_app_l in Hi by lia. apply not_true_is_false. intros Heq. apply not_true_iff_false in E. apply E.
    apply existsb_exists. exists x. split; [|done]. apply list_elem_of_In. by eapply list_elem_of_lookup_2.
Qed.

Lemma keep_new_elem kept l a : a ∈ keep_new kept l -> a ∈ kept \/ a ∈ l.
Proof.
  revert kept. induction l as [|b l IH]; intros kept; cbn [keep_new]; [by left|]. intros [H|H]%IH; [|right; by apply elem_of_cons; right].
  case_if; [by left|]. apply elem_of_app in H as [H|H]; [by left|right]. apply list_elem_of_singleton in H as ->. apply elem_of_cons. by left.
Qed.

Lemma usable_ns_family ns defport a : a ∈ usable_ns ns defport -> family a <> KL_AF_UNSPEC /\ unscoped_link_local a = false.
Proof.
  intros [Hl H]%list_elem_of_filter. apply list_elem_of_omap in H as (s & _ & Hs). split; [by eapply parse_ns_family|done].
Qed.

(** Nameserver selection keeps, in order and up to the limit, the configured addresses of the
    first usable one's family without duplicates; unparsable entries and link-local addresses
    without a scope are skipped and never decide the family.  As a consequence a datagram from a
    selected nameserver is attributed to exactly that nameserver, and a datagram that compares equal
    to none of them to none. *)
Lemma dns_select_ns_spec (nss : list (list Z)) (defport : Z) (max : nat) (Hmax : (0 < max)%nat) :
  let us := usable_ns nss defport in
  let sel := take max (keep_new [] (filter (fun a => family a = first_family us) us)) in
  kl_dns_select_ns nss defport max = (sel, first_family us) /\
  (forall a, a ∈ sel -> family a = first_family us /\ unscoped_link_local a = false) /\
  forall r, ns r = sel ->
    (forall i a, sel !! i = Some a -> dns_ns_index r a = Some i) /\
    (forall a, dns_ns_index r a = None <-> forall b, b ∈ sel -> kl_sockaddr_equal a b = false).
Proof.
  intros us sel. assert (Hel : forall a, a ∈ sel -> a ∈ us /\ family a = first_family us).
  { intros a Ha. assert (Ha' : a ∈ keep_new [] (filter (fun a => family a = first_family us) us)).
    { unfold sel in Ha. rewrite <- (take_drop max (keep_new [] _)). apply elem_of_app. by left. }
    apply keep_new_elem in Ha' as [Ha'|Ha']; [by apply not_elem_of_nil in Ha'|]. by apply list_elem_of_filter in Ha' as []. }
  split_and!; [by apply select_ns_spec| |].
  - intros a [Hu Hf]%Hel. split; [done|]. by apply usable_ns_family in Hu as [_ ?].
  - intros r Hr. unfold dns_ns_index. rewrite Hr. split.
    + intros i a Hi. destruct (Hel a) as [Hu _]; [by eapply list_elem_of_lookup_2|]. apply usable_ns_family in Hu as [Hu _].
      rewrite (proj2 (list_find_Some _ _ i a)); [done|]. split_and!; [done|by apply sockaddr_equal_refl|]. intros j y Hj Hji.
      unfold sel in Hi, Hj. apply lookup_take_Some in Hi as [Hi _], Hj as [Hj _].
      rewrite (keep_new_distinct [] _ ltac:(by intros ? ? ? ? ?) j i y a Hji Hj Hi). done.
    + intros a. rewrite fmap_None, list_find_None, Forall_forall. split; intros H b Hb; specialize (H b Hb); by destruct (kl_sockaddr_equal a b).
Qed.

End DnsQuery.
