(* ===== verification/ResolverCache.v ===== *)
(** * The caching resolver (src/src/resolver_cache.c, src/include/keel/resolver.h)

    A decorator around another resolver: a flat array of answers with deadlines, and one heap-allocated
    handle per request.  Handles are entries of a finite map, so that an access to a freed handle or a
    second free is a [Fault].  The caller's callbacks are programs that may start and cancel requests,
    clear the cache and read the result they were given; the wrapped resolver may fail, answer inside
    the call or answer later.  Passing a handle that is no longer valid to [cancel] is the caller's
    fault ([Misuse]), as resolver.h says.  The clock is an argument. *)
From stdpp Require Import gmap.
From S2P Require Import Prelude CStr SockAddr Dns.
Import CStr SockAddr Dns.

Module ResolverCache.

(** ** Data *)

Definition KL_RESOLVER_CACHE_HOSTNAME_MAX : nat := 256.
Definition KL_RESCACHE_DEFAULT_CAPACITY : Z := 64.
Definition KL_RESCACHE_DEFAULT_TTL_MS : Z := 60000.

Record KlResCacheEntry := mkEntry {
  e_host : list Z; e_port : Z; e_result : KlResolveResult; deadline_ms : Z; occupied : bool;
}.

(** The capacity is the length of [entries]. *)
Record KlResolverCache := mkCache { entries : list KlResCacheEntry; count : Z; ttl_ms : Z }.

(** [e->occupied && e->port == port && strcmp (e->host, host) == 0]. *)
Definition entry_is (host : list Z) (port : Z) (e : KlResCacheEntry) : bool :=
  occupied e && (e_port e =? port) && span_eqb (e_host e) host.

Definition clear_occupied (e : KlResCacheEntry) : KlResCacheEntry :=
  mkEntry (e_host e) (e_port e) (e_result e) (deadline_ms e) false.

(** The first index from [i] whose entry satisfies [p]. *)
Fixpoint find_entry (p : KlResCacheEntry -> bool) (l : list KlResCacheEntry) (i : nat) : option nat :=
  match l with
  | [] => None
  | e :: l' => if p e then Some i else find_entry p l' (S i)
  end.

(** ** Lookup and insertion *)

(** The index of the entry returned, if any. *)
Definition cache_lookup (c : KlResolverCache) (now : Z) (host : list Z) (port : Z) : KlResolverCache * option nat :=
  match find_entry (entry_is host port) (entries c) 0 with
  | None => (c, None)
  | Some i =>
      match entries c !! i with
      | None => (c, None)
      | Some e =>
          if now <? deadline_ms e then (c, Some i)
          else (mkCache (<[i := clear_occupied e]> (entries c)) (count c - 1) (ttl_ms c), None)
      end
  end.

(** The loop of step 4 from index [i]. *)
Fixpoint find_victim (l : list KlResCacheEntry) (i victim : nat) (min_deadline : Z) : nat :=
  match l with
  | [] => victim
  | e :: l' =>
      if deadline_ms e <? min_deadline then find_victim l' (S i) i (deadline_ms e)
      else find_victim l' (S i) victim min_deadline
  end.

Definition cache_insert (c : KlResolverCache) (now : Z) (host : list Z) (port : Z) (result : KlResolveResult) : KlResolverCache :=
  if (KL_RESOLVER_CACHE_HOSTNAME_MAX <=? length host)%nat then c
  else
    let deadline := if UINT64_MAX / 2 <? ttl_ms c then UINT64_MAX else u64 (now + ttl_ms c) in
    let put i n := mkCache (<[i := mkEntry host port result deadline true]> (entries c)) n (ttl_ms c) in
    match find_entry (entry_is host port) (entries c) 0 with
    | Some i => put i (count c)
    | None =>
        match find_entry (fun e => negb (occupied e)) (entries c) 0 with
        | Some i => put i (count c + 1)
        | None =>
            match find_entry (fun e => deadline_ms e <=? now) (entries c) 0 with
            | Some i => put i (count c)
            | None =>
                match entries c with
                | [] => c
                | e0 :: l => put (find_victim l 1 0 (deadline_ms e0)) (count c)
                end
            end
        end
    end.

Definition kl_resolver_cache_clear (c : KlResolverCache) : KlResolverCache :=
  mkCache (clear_occupied <$> entries c) 0 (ttl_ms c).

Definition kl_resolver_cache_count (c : KlResolverCache) : Z := count c.

(** [cfg] is the capacity and the time to live of the configuration, if there is one; [alloc1] and
    [alloc2] tell whether the two allocations succeed. *)
Definition kl_resolver_cache_create (sizeof_entry : Z) (alloc1 alloc2 : bool) (cfg : option (Z * Z)) : option KlResolverCache :=
  let capacity := match cfg with Some (c, _) => if 0 <? c then c else KL_RESCACHE_DEFAULT_CAPACITY | None => KL_RESCACHE_DEFAULT_CAPACITY end in
  let ttl := match cfg with Some (_, t) => if 0 <? t then t else KL_RESCACHE_DEFAULT_TTL_MS | None => KL_RESCACHE_DEFAULT_TTL_MS end in
  if SIZE_MAX / sizeof_entry <? capacity then None
  else if negb alloc1 then None
  else if negb alloc2 then None
  else Some (mkCache (replicate (Z.to_nat capacity) (mkEntry [] 0 zero_result 0 false)) 0 ttl).

(** ** Outcomes, callers and the wrapped resolver *)

Inductive outcome (A : Type) := Ok (a : A) | Fault | Misuse.
Arguments Ok {A}.
Arguments Fault {A}.
Arguments Misuse {A}.

#[global] Instance outcome_bind : MBind outcome := fun A B f x =>
  match x with Ok a => f a | Fault => Fault | Misuse => Misuse end.

(** The result a callback receives points into the cache, or is the wrapped resolver's own. *)
Inductive ptr := InSlot (i : nat) | Given (r : KlResolveResult).

(** What the wrapped resolver does with a request: it can not start it, answers it inside the call
    (and returns a handle or NULL), or answers later ([Complete] below).  Its cancel does not call the
    request's [done_fn], and neither of its functions answers another request on the way. *)
Inductive inner_ans := IFail | ISync (result : option KlResolveResult) (error : Z) (ret : bool) | IAsync.

(** The caller's code. *)
Inductive prog :=
| Ret
| Resolve (alloc_ok : bool) (host : list Z) (port : Z) (ans : inner_ans)
    (done : nat -> option ptr -> Z -> prog) (k : option nat -> prog)
| Cancel (h : nat) (k : prog)
| Clear (k : prog)
| Read (p : ptr) (k : option KlResolveResult -> prog).

Record KlResCacheReq := mkReq {
  inner_req : bool; user_done : nat -> option ptr -> Z -> prog; r_host : list Z; r_port : Z;
  in_resolve : bool; completed : bool; in_user_done : bool; cancel_deferred : bool;
}.

(** What happens to a request. *)
Inductive event := EDone (h : nat) | EFree (h : nat) | EInnerCancel (h : nat).

#[global] Instance event_eq_dec : EqDecision event.
Proof. solve_decision. Defined.

Record St := mkSt { cache : KlResolverCache; reqs : gmap nat KlResCacheReq; fresh : nat; ticks : nat; log : list event }.

Definition set_cache (c : KlResolverCache) (s : St) : St := mkSt c (reqs s) (fresh s) (ticks s) (log s).
Definition set_reqs (m : gmap nat KlResCacheReq) (s : St) : St := mkSt (cache s) m (fresh s) (ticks s) (log s).
Definition tick (s : St) : St := mkSt (cache s) (reqs s) (fresh s) (S (ticks s)) (log s).
Definition emit (e : event) (s : St) : St := mkSt (cache s) (reqs s) (fresh s) (ticks s) (e :: log s).

(** Accesses through a handle. *)
Definition get (h : nat) (s : St) : outcome KlResCacheReq :=
  match reqs s !! h with Some r => Ok r | None => Fault end.
Definition modify (h : nat) (f : KlResCacheReq -> KlResCacheReq) (s : St) : outcome St :=
  r ← get h s; Ok (set_reqs (<[h := f r]> (reqs s)) s).
Definition free_req (h : nat) (s : St) : outcome St :=
  _ ← get h s; Ok (emit (EFree h) (set_reqs (delete h (reqs s)) s)).

Definition set_in_resolve b r := mkReq (inner_req r) (user_done r) (r_host r) (r_port r) b (completed r) (in_user_done r) (cancel_deferred r).
Definition set_completed r := mkReq (inner_req r) (user_done r) (r_host r) (r_port r) (in_resolve r) true (in_user_done r) (cancel_deferred r).
Definition set_in_user_done b r := mkReq (inner_req r) (user_done r) (r_host r) (r_port r) (in_resolve r) (completed r) b (cancel_deferred r).
Definition set_deferred r := mkReq (inner_req r) (user_done r) (r_host r) (r_port r) (in_resolve r) (completed r) (in_user_done r) true.
Definition set_inner b r := mkReq b (user_done r) (r_host r) (r_port r) (in_resolve r) (completed r) (in_user_done r) (cancel_deferred r).

Section requests.
Context (clock : nat -> Z).

(** ** The handle's life *)

(** [run] is the call of the user's callback. *)
Definition inner_done_fn (run : St -> outcome St) (h : nat) (result : option KlResolveResult) (error : Z) (s : St) : outcome St :=
  cr ← get h s;
  let s := match result with
           | Some res =>
               if error =? 0 then set_cache (cache_insert (cache s) (clock (ticks s)) (r_host cr) (r_port cr) res) (tick s) else s
           | None => s
           end in
  cr ← get h s;
  let was_sync := in_resolve cr in
  s ← modify h set_completed s;
  s ← modify h (set_in_user_done true) s;
  s ← run (emit (EDone h) s);
  s ← modify h (set_in_user_done false) s;
  if was_sync then Ok s else free_req h s.

Definition cache_resolve (run : nat -> option ptr -> Z -> St -> outcome St) (alloc_ok : bool) (host : list Z) (port : Z)
    (ans : inner_ans) (done : nat -> option ptr -> Z -> prog) (s : St) : outcome (St * option nat) :=
  if (length host =? 0)%nat || (KL_RESOLVER_CACHE_HOSTNAME_MAX <=? length host)%nat then Ok (s, None)
  else if negb alloc_ok then Ok (s, None)
  else
    let h := fresh s in
    let s := mkSt (cache s) (<[h := mkReq false done host port false false false false]> (reqs s)) (S h) (ticks s) (log s) in
    let '(c, cached) := cache_lookup (cache s) (clock (ticks s)) host port in
    let s := set_cache c (tick s) in
    match cached with
    | Some i =>
        s ← modify h (set_inner false) s;
        s ← modify h (set_in_resolve true) s;
        s ← modify h (set_in_user_done true) s;
        s ← modify h set_completed s;
        s ← run h (Some (InSlot i)) 0 (emit (EDone h) s);
        s ← modify h (set_in_user_done false) s;
        s ← modify h (set_in_resolve false) s;
        s ← free_req h s;
        Ok (s, None)
    | None =>
        s ← modify h (set_in_resolve true) s;
        '(s, inner) ← match ans with
                      | IFail => Ok (s, false)
                      | ISync result error ret =>
                          s ← inner_done_fn (run h (Given <$> result) error) h result error s; Ok (s, ret)
                      | IAsync => Ok (s, true)
                      end;
        s ← modify h (set_in_resolve false) s;
        cr ← get h s;
        if negb inner || completed cr then s ← free_req h s; Ok (s, None)
        else s ← modify h (set_inner true) s; Ok (s, Some h)
    end.

(** [inner_cancel] is what the wrapped resolver's cancel does. *)
Definition cache_cancel (inner_cancel : St -> outcome St) (h : nat) (s : St) : outcome St :=
  cr ← get h s;
  if in_user_done cr then modify h set_deferred s
  else
    s ← (if inner_req cr && negb (completed cr) then inner_cancel (emit (EInnerCancel h) s) else Ok s);
    free_req h s.

Definition read_ptr (p : ptr) (s : St) : option KlResolveResult :=
  match p with InSlot i => e_result <$> entries (cache s) !! i | Given r => Some r end.

(** A caller's program; a handle that is not valid any more must not be passed to [cancel]. *)
Fixpoint exec (p : prog) (s : St) : outcome St :=
  match p with
  | Ret => Ok s
  | Resolve alloc_ok host port ans done k =>
      '(s, h) ← cache_resolve (fun h res err => exec (done h res err)) alloc_ok host port ans done s;
      exec (k h) s
  | Cancel h k => match reqs s !! h with None => Misuse | Some _ => s ← cache_cancel Ok h s; exec k s end
  | Clear k => exec k (set_cache (kl_resolver_cache_clear (cache s)) s)
  | Read p k => exec (k (read_ptr p s)) s
  end.

(** The event loop: the caller runs, or the wrapped resolver completes a request it has accepted. *)
Inductive op := Do (p : prog) | Complete (h : nat) (result : option KlResolveResult) (error : Z).

Definition step (s : St) (o : op) : outcome St :=
  match o with
  | Do p => exec p s
  | Complete h result error =>
      match reqs s !! h with
      | None => Misuse
      | Some cr => inner_done_fn (exec (user_done cr h (Given <$> result) error)) h result error s
      end
  end.

Fixpoint steps (os : list op) (s : St) : outcome St :=
  match os with [] => Ok s | o :: os' => s ← step s o; steps os' s end.

(** ** The handles stay valid *)

Definition times (e : event) (s : St) : nat := length (filter (fun x => x = e) (log s)).

(** The state of a request: in flight, or with its callback on the stack. *)
Definition req_ok (on_stack : bool) (r : KlResCacheReq) : Prop :=
  if on_stack then completed r = true /\ in_user_done r = true
  else inner_req r = true /\ completed r = false /\ in_user_done r = false /\ in_resolve r = false /\ cancel_deferred r = false.

(** The state of handle [h] when [S] are the requests whose callbacks are running: a live request has
    not been freed nor cancelled, and its callback has been called exactly if it is running; a
    dead one has been freed once, and has been completed or cancelled at most once. *)
Definition handle_ok (S : gset nat) (s : St) (h : nat) : Prop :=
  match reqs s !! h with
  | Some r => (h < fresh s)%nat /\ req_ok (bool_decide (h ∈ S)) r /\ times (EFree h) s = 0%nat /\ times (EInnerCancel h) s = 0%nat /\
      times (EDone h) s = (if bool_decide (h ∈ S) then 1 else 0)%nat
  | None => (h ∉ S) /\
      if (h <? fresh s)%nat then times (EFree h) s = 1%nat /\ (times (EDone h) s + times (EInnerCancel h) s <= 1)%nat
      else times (EFree h) s = 0%nat /\ times (EDone h) s = 0%nat /\ times (EInnerCancel h) s = 0%nat
  end.

Definition inv (S : gset nat) (s : St) : Prop := forall h, handle_ok S s h.

Lemma times_emit e e' s : times e (emit e' s) = ((if decide (e' = e) then 1 else 0) + times e s)%nat.
Proof. unfold times, emit. cbn [log]. rewrite filter_cons. by case_decide. Qed.

Lemma times_set_reqs e m s : times e (set_reqs m s) = times e s.
Proof. done. Qed.

(** Only handle [h] is concerned. *)
Lemma inv_frame h S s S' s' : inv S s ->
  (forall h', h' <> h -> reqs s' !! h' = reqs s !! h' /\ (h' ∈ S' <-> h' ∈ S) /\ (h' < fresh s' <-> h' < fresh s)%nat /\
     times (EFree h') s' = times (EFree h') s /\ times (EDone h') s' = times (EDone h') s /\
     times (EInnerCancel h') s' = times (EInnerCancel h') s) ->
  handle_ok S' s' h -> inv S' s'.
Proof.
  intros Hi Hf Hh h'. destruct (decide (h' = h)) as [->|Hne]; [done|]. specialize (Hi h').
  destruct (Hf h' Hne) as (Hr & HS & Hfr & H1 & H2 & H3). unfold handle_ok in *. rewrite Hr, H1, H2, H3.
  assert (Hb : bool_decide (h' ∈ S') = bool_decide (h' ∈ S)) by (by apply bool_decide_ext).
  destruct (reqs s !! h') as [r|]; [by rewrite Hb, Hfr|]. rewrite HS.
  replace (h' <? fresh s')%nat with (h' <? fresh s)%nat; [done|]. apply eq_true_iff_eq. by rewrite !Nat.ltb_lt.
Qed.

Lemma in_top (h : nat) (S : gset nat) : h ∈ {[h]} ∪ S.
Proof. set_solver. Qed.

(** Solves the frame condition. *)
Ltac frame_solve :=
  intros h' Hne; cbn [reqs fresh emit set_reqs]; rewrite ?times_emit, ?times_set_reqs, ?times_emit, ?lookup_insert_ne, ?lookup_delete_ne by done;
  repeat (rewrite decide_False by congruence); cbn [Nat.add]; split_and!; try done; try lia; clear -Hne; rewrite ?elem_of_union, ?elem_of_singleton; tauto.

(** The counts at the handle an event is about. *)
Ltac counts := rewrite ?times_emit, ?times_set_reqs, ?times_emit; repeat (case_decide; [try congruence|try congruence]); unfold times in *; cbn [log set_reqs emit]; split_and!; try done; try lia.

Lemma fresh_ok S s : inv S s -> reqs s !! fresh s = None /\ (fresh s ∉ S) /\ times (EFree (fresh s)) s = 0%nat /\
  times (EDone (fresh s)) s = 0%nat /\ times (EInnerCancel (fresh s)) s = 0%nat.
Proof.
  intros Hi. specialize (Hi (fresh s)). unfold handle_ok in Hi. destruct (reqs s !! fresh s); [lia|].
  rewrite Nat.ltb_irrefl in Hi. destruct Hi as (? & ? & ? & ?). by split_and!.
Qed.

(** The cache and the clock do not matter. *)
Lemma inv_cache S s c t : inv S s -> inv S (mkSt c (reqs s) (fresh s) t (log s)).
Proof. done. Qed.

(** A new request whose callback starts at once. *)
Lemma inv_push S s r c t : inv S s -> req_ok true r ->
  inv ({[fresh s]} ∪ S) (emit (EDone (fresh s)) (mkSt c (<[fresh s := r]> (reqs s)) (Datatypes.S (fresh s)) t (log s))).
Proof.
  intros Hi Hr. destruct (fresh_ok S s Hi) as (Hn & HS & H1 & H2 & H3). apply (inv_frame (fresh s) S s); [done|frame_solve|].
  unfold handle_ok. cbn [reqs fresh emit]. rewrite lookup_insert_eq, bool_decide_true by apply in_top. counts.
Qed.

(** A new request the wrapped resolver answers later. *)
Lemma inv_start S s r c t : inv S s -> req_ok false r ->
  inv S (mkSt c (<[fresh s := r]> (reqs s)) (Datatypes.S (fresh s)) t (log s)).
Proof.
  intros Hi Hr. destruct (fresh_ok S s Hi) as (Hn & HS & H1 & H2 & H3). apply (inv_frame (fresh s) S s); [done|frame_solve|].
  unfold handle_ok. cbn [reqs fresh]. rewrite lookup_insert_eq, bool_decide_false by done. split_and!; [lia|done|done|done|done].
Qed.

(** A new request that is dropped again. *)
Lemma inv_drop S s c t : inv S s -> inv S (emit (EFree (fresh s)) (mkSt c (reqs s) (Datatypes.S (fresh s)) t (log s))).
Proof.
  intros Hi. destruct (fresh_ok S s Hi) as (Hn & HS & H1 & H2 & H3). apply (inv_frame (fresh s) S s); [done|frame_solve|].
  unfold handle_ok. cbn [reqs fresh emit]. rewrite Hn, (proj2 (Nat.ltb_lt _ _)) by lia. counts.
Qed.

(** The callback of a request in flight starts. *)
Lemma inv_complete S s h r r' c t : inv S s -> reqs s !! h = Some r -> h ∉ S -> req_ok true r' ->
  inv ({[h]} ∪ S) (emit (EDone h) (mkSt c (<[h := r']> (reqs s)) (fresh s) t (log s))).
Proof.
  intros Hi Hh HS Hr. pose proof (Hi h) as Hx. unfold handle_ok in Hx. rewrite Hh, bool_decide_false in Hx by done.
  destruct Hx as (H0 & _ & H1 & H2 & H3). apply (inv_frame h S s); [done|frame_solve|].
  unfold handle_ok. cbn [reqs fresh emit]. rewrite lookup_insert_eq, bool_decide_true by apply in_top. counts.
Qed.

(** The end of a callback: the request is still there, and is freed. *)
Lemma inv_pop S s h : inv ({[h]} ∪ S) s -> h ∉ S -> exists r, reqs s !! h = Some r /\ req_ok true r /\
  inv S (emit (EFree h) (set_reqs (delete h (reqs s)) s)).
Proof.
  intros Hi HS. pose proof (Hi h) as Hx. unfold handle_ok in Hx. rewrite bool_decide_true in Hx by apply in_top.
  destruct (reqs s !! h) as [r|] eqn:Eh; [|by destruct Hx as [[] _]; apply in_top]. destruct Hx as (H0 & Hr & H1 & H2 & H3). exists r. split_and!; [done|done|].
  apply (inv_frame h ({[h]} ∪ S) s); [done|frame_solve|]. unfold handle_ok. cbn [reqs fresh emit set_reqs].
  rewrite lookup_delete_eq, (proj2 (Nat.ltb_lt _ _)) by done. counts.
Qed.

(** A request in flight is cancelled. *)
Lemma inv_cancel S s h r : inv S s -> reqs s !! h = Some r -> h ∉ S ->
  inv S (emit (EFree h) (set_reqs (delete h (reqs s)) (emit (EInnerCancel h) s))).
Proof.
  intros Hi Hh HS. pose proof (Hi h) as Hx. unfold handle_ok in Hx. rewrite Hh, bool_decide_false in Hx by done.
  destruct Hx as (H0 & _ & H1 & H2 & H3). apply (inv_frame h S s); [done|frame_solve|].
  unfold handle_ok. cbn [reqs fresh emit set_reqs]. rewrite lookup_delete_eq, (proj2 (Nat.ltb_lt _ _)) by done. counts.
Qed.

(** A cancellation from inside the callback is only noted. *)
Lemma inv_defer S s h r : inv S s -> reqs s !! h = Some r -> h ∈ S -> inv S (set_reqs (<[h := set_deferred r]> (reqs s)) s).
Proof.
  intros Hi Hh HS. pose proof (Hi h) as Hx. unfold handle_ok in Hx. rewrite Hh, bool_decide_true in Hx by done.
  apply (inv_frame h S s); [done|frame_solve|].
  unfold handle_ok. cbn [reqs fresh set_reqs]. rewrite lookup_insert_eq, bool_decide_true by done. exact Hx.
Qed.

(** ** No fault *)

(** An outcome without a fault, and with [P] when it is a state. *)
Definition good {A} (P : A -> Prop) (x : outcome A) : Prop :=
  match x with Ok a => P a | Fault => False | Misuse => True end.

Lemma good_bind {A B} (P : A -> Prop) (Q : B -> Prop) (x : outcome A) (f : A -> outcome B) :
  good P x -> (forall a, P a -> good Q (f a)) -> good Q (x ≫= f).
Proof. destruct x; cbn; auto. Qed.

Lemma ok_bind {A B} (a : A) (f : A -> outcome B) : Ok a ≫= f = f a.
Proof. done. Qed.

Lemma modify_at h f c m r fr t l : modify h f (mkSt c (<[h := r]> m) fr t l) = Ok (mkSt c (<[h := f r]> m) fr t l).
Proof. unfold modify, get. cbn [reqs]. rewrite lookup_insert_eq, ok_bind. unfold set_reqs. cbn. by rewrite insert_insert_eq. Qed.

Lemma get_at h c m r fr t l : get h (mkSt c (<[h := r]> m) fr t l) = Ok r.
Proof. unfold get. cbn [reqs]. by rewrite lookup_insert_eq. Qed.

(** The end of a callback, with the flags the code clears before it frees the handle. *)
Lemma pop_good S s h (b : bool) : inv ({[h]} ∪ S) s -> h ∉ S ->
  good (inv S) (s ← modify h (set_in_user_done false) s; s ← (if b then modify h (set_in_resolve false) s else Ok s); free_req h s).
Proof.
  intros Hi HS. destruct (inv_pop S s h Hi HS) as (r & Hr & _ & Hp). destruct s as [c m fr t l]. cbn [reqs] in *.
  rewrite <- (insert_id m h r Hr) at 1. rewrite modify_at, ok_bind. destruct b.
  - rewrite modify_at, ok_bind. unfold free_req. rewrite get_at, ok_bind. unfold set_reqs, emit in *. cbn in *. by rewrite delete_insert_eq.
  - rewrite ok_bind. unfold free_req. rewrite get_at, ok_bind. unfold set_reqs, emit in *. cbn in *. by rewrite delete_insert_eq.
Qed.

Lemma cancel_good S s h r : inv S s -> reqs s !! h = Some r -> good (inv S) (cache_cancel Ok h s).
Proof.
  intros Hi Hh. pose proof (Hi h) as Hx. unfold handle_ok in Hx. rewrite Hh in Hx. unfold cache_cancel, get. rewrite Hh, ok_bind.
  destruct (bool_decide_reflect (h ∈ S)) as [HS|HS]; destruct Hx as (_ & Hx & _).
  - destruct Hx as [_ ->]. unfold modify, get. rewrite Hh, ok_bind. by apply inv_defer.
  - destruct Hx as (-> & -> & -> & _). cbn [andb negb]. rewrite ok_bind. unfold free_req, get. cbn [reqs emit]. rewrite Hh, ok_bind. by eapply inv_cancel.
Qed.

(** Up to the call of the callback, only the cache, the clock and the flags of the handle change. *)
Lemma inner_done_eq run h result error c m r fr t l : exists c' t',
  inner_done_fn run h result error (mkSt c (<[h := r]> m) fr t l) =
  (s ← run (emit (EDone h) (mkSt c' (<[h := set_in_user_done true (set_completed r)]> m) fr t' l));
   s ← modify h (set_in_user_done false) s;
   if in_resolve r then Ok s else free_req h s).
Proof.
  unfold inner_done_fn. rewrite get_at, ok_bind. destruct result as [res|]; [destruct (error =? 0)|];
    unfold set_cache, tick; cbn [cache reqs fresh ticks log]; rewrite get_at, ok_bind; cbv zeta; rewrite modify_at, ok_bind, modify_at, ok_bind; eauto.
Qed.

Lemma complete_good S s h r run result error : inv S s -> reqs s !! h = Some r -> h ∉ S ->
  (forall s', inv ({[h]} ∪ S) s' -> good (inv ({[h]} ∪ S)) (run s')) -> good (inv S) (inner_done_fn run h result error s).
Proof.
  intros Hi Hh HS Hrun. pose proof (Hi h) as Hx. unfold handle_ok in Hx. rewrite Hh, bool_decide_false in Hx by done.
  destruct Hx as (_ & (_ & _ & _ & Hres & _) & _). destruct s as [c m fr t l]. cbn [reqs] in *.
  rewrite <- (insert_id m h r Hh) at 1. destruct (inner_done_eq run h result error c m r fr t l) as (c' & t' & ->). rewrite Hres.
  apply (good_bind (inv ({[h]} ∪ S))); [|intros s' Hs'; by apply (pop_good S s' h false)].
  apply Hrun. by apply (inv_complete S (mkSt c m fr t l) h r).
Qed.

Lemma resolve_good S s run alloc_ok host port ans done : inv S s ->
  (forall h res err S' s', inv S' s' -> good (inv S') (run h res err s')) ->
  good (fun x => inv S x.1) (cache_resolve run alloc_ok host port ans done s).
Proof.
  intros Hi Hrun. unfold cache_resolve. case_if; [done|]. destruct alloc_ok; [|done]. cbn [negb].
  destruct (fresh_ok S s Hi) as (Hn & HS & _). destruct s as [c m fr t l]. cbn [cache reqs fresh ticks log] in *.
  destruct (cache_lookup c (clock t) host port) as [c1 [i|]]; unfold set_cache, tick; cbn [cache reqs fresh ticks log].
  - do 4 rewrite modify_at, ok_bind. apply (good_bind (inv ({[fr]} ∪ S))).
    { apply Hrun. by apply (inv_push S (mkSt c m fr t l)). }
    intros s' Hs'. pose proof (pop_good S s' fr true Hs' HS) as Hp. revert Hp.
    destruct (modify fr (set_in_user_done false) s') as [s2| |]; cbn; [|done|done].
    destruct (modify fr (set_in_resolve false) s2) as [s3| |]; cbn; [|done|done]. destruct (free_req fr s3); cbn; done.
  - rewrite modify_at, ok_bind. set (r := set_in_resolve true (mkReq false done host port false false false false)).
    destruct ans as [|result error ret|].
    + rewrite ok_bind, modify_at, ok_bind, get_at, ok_bind. cbn [negb orb]. unfold free_req. rewrite get_at, ok_bind, ok_bind.
      unfold set_reqs. cbn [cache reqs fresh ticks log]. rewrite delete_insert_id by done. by apply (inv_drop S (mkSt c m fr t l)).
    + destruct (inner_done_eq (run fr (Given <$> result) error) fr result error c1 m r (Datatypes.S fr) (Datatypes.S t) l) as (c' & t' & ->).
      change (in_resolve r) with true. assert (Hs1 : good (inv ({[fr]} ∪ S)) (run fr (Given <$> result) error
        (emit (EDone fr) (mkSt c' (<[fr := set_in_user_done true (set_completed r)]> m) (Datatypes.S fr) t' l)))).
      { apply Hrun. by apply (inv_push S (mkSt c m fr t l)). }
      destruct (run fr _ error _) as [s2| |]; [|done|done]. rewrite ok_bind. destruct (inv_pop S s2 fr Hs1 HS) as (r2 & Hr2 & [Hc2 _] & Hp).
      destruct s2 as [c2 m2 fr2 t2 l2]. cbn [reqs] in *. rewrite <- (insert_id m2 fr r2 Hr2) at 1.
      rewrite modify_at, !ok_bind, modify_at, ok_bind, get_at, ok_bind. cbn [completed set_in_resolve set_in_user_done]. rewrite Hc2, orb_true_r.
      unfold free_req. rewrite get_at, !ok_bind. unfold set_reqs, emit in *. cbn [cache reqs fresh ticks log fst] in *. by rewrite delete_insert_eq.
    + rewrite ok_bind, modify_at, ok_bind, get_at, ok_bind. cbn [negb orb completed set_in_resolve r]. rewrite modify_at, ok_bind.
      by apply (inv_start S (mkSt c m fr t l)).
Qed.

Lemma exec_good p S s : inv S s -> good (inv S) (exec p s).
Proof.
  revert S s. induction p as [|a host port ans done IHd k IHk|h k IHk|k IHk|p k IHk]; intros S s Hi; cbn [exec].
  - done.
  - apply (good_bind (fun x => inv S x.1)); [apply resolve_good; [done|]; intros; by apply IHd|]. intros [s' h] Hs'. by apply IHk.
  - destruct (reqs s !! h) as [r|] eqn:Er; [|done]. apply (good_bind (inv S)); [by eapply cancel_good|]. intros. by apply IHk.
  - by apply IHk.
  - by apply IHk.
Qed.

Lemma step_good s o : inv ∅ s -> good (inv ∅) (step s o).
Proof.
  intros Hi. destruct o as [p|h result error]; cbn [step]; [by apply exec_good|].
  destruct (reqs s !! h) as [r|] eqn:Er; [|done]. eapply complete_good; [done|done|set_solver|]. intros. by apply exec_good.
Qed.

Lemma steps_good os s : inv ∅ s -> good (inv ∅) (steps os s).
Proof.
  revert s. induction os as [|o os IH]; intros s Hi; cbn [steps]; [done|].
  apply (good_bind (inv ∅)); [by apply step_good|]. intros. by apply IH.
Qed.

(** A cache that has just been created. *)
Definition init_st (c : KlResolverCache) : St := mkSt c ∅ 0 0 [].

Lemma init_st_inv c : inv ∅ (init_st c).
Proof. intros h. unfold handle_ok. cbn [reqs init_st]. rewrite lookup_empty. split; [set_solver|done]. Qed.

(** A wrapped resolver whose cancel reports the cancellation through [done_fn] is outside the theorem below:
    [inner_done_fn] frees the handle, and [cache_cancel] frees it again. *)
Lemma reporting_cancel_faults s h r error : reqs s !! h = Some r -> req_ok false r ->
  cache_cancel (inner_done_fn Ok h None error) h s = Fault.
Proof.
  intros Hh (H1 & H2 & H3 & H4 & _). unfold cache_cancel, get. rewrite Hh, ok_bind, H3, H1, H2. cbn [andb negb].
  destruct s as [c m fr t l]. cbn in Hh. rewrite <- (insert_id m h r) by done. unfold emit. cbn [cache reqs fresh ticks log].
  destruct (inner_done_eq Ok h None error c m r fr t (EInnerCancel h :: l)) as (c' & t' & ->). rewrite H4, ok_bind. unfold emit. cbn [cache reqs fresh ticks log].
  rewrite modify_at, ok_bind. unfold free_req at 2. rewrite get_at, !ok_bind. unfold free_req, get. cbn. by rewrite lookup_delete_eq.
Qed.

(** C4.  The life of request handles in the caching resolver.  Whatever the caller's code does in and
    outside of its callbacks (start requests, cancel them, its own included, clear the cache), and
    whether the wrapped resolver refuses a request, answers it inside the call or later, as long as the
    caller passes only valid handles to cancel, and the wrapped resolver neither calls [done_fn] from its
    cancel nor answers other requests inside its functions: no freed handle is ever accessed or freed again;
    and between events every handle that was ever made is either in flight, with its
    callback not yet called and a request pending at the wrapped resolver, or has been freed exactly
    once, its callback having been called at most once and never after a cancellation. *)
Theorem cache_handles_safe (c : KlResolverCache) (os : list op) :
  match steps os (init_st c) with
  | Fault => False
  | Misuse => True
  | Ok s => forall h, (h < fresh s)%nat ->
      match reqs s !! h with
      | Some r => inner_req r = true /\ completed r = false /\ times (EDone h) s = 0%nat /\ times (EFree h) s = 0%nat /\ times (EInnerCancel h) s = 0%nat
      | None => times (EFree h) s = 1%nat /\ (times (EDone h) s + times (EInnerCancel h) s <= 1)%nat
      end
  end.
Proof.
  pose proof (steps_good os (init_st c) (init_st_inv c)) as Hg. destruct (steps os (init_st c)) as [s| |]; [|done|done].
  intros h Hh. specialize (Hg h). unfold handle_ok in Hg. destruct (reqs s !! h) as [r|].
  - rewrite bool_decide_false in Hg by set_solver. destruct Hg as (_ & (? & ? & _) & ? & ? & ?). by split_and!.
  - rewrite (proj2 (Nat.ltb_lt _ _) Hh) in Hg. apply Hg.
Qed.

End requests.

(** ** The cache as a finite map *)

Definition key (e : KlResCacheEntry) : list Z * Z := (e_host e, e_port e).
Definition val (e : KlResCacheEntry) : KlResolveResult * Z := (e_result e, deadline_ms e).

(** The answers held, with their deadlines. *)
Fixpoint view (l : list KlResCacheEntry) : gmap (list Z * Z) (KlResolveResult * Z) :=
  match l with
  | [] => ∅
  | e :: l' => if occupied e then <[key e := val e]> (view l') else view l'
  end.

(** At most one entry per key. *)
Definition unique (l : list KlResCacheEntry) : Prop :=
  forall i j e e', l !! i = Some e -> l !! j = Some e' -> occupied e = true -> occupied e' = true -> key e = key e' -> i = j.

Record cache_wf (c : KlResolverCache) : Prop := {
  cwf_unique : unique (entries c);
  cwf_count : count c = Z.of_nat (size (view (entries c)));
  cwf_cap : (0 < length (entries c))%nat;
}.

Lemma unique_tail e l : unique (e :: l) -> unique l.
Proof. intros H i j x y Hi Hj Hx Hy Hk. assert (S i = S j) by (by apply (H (S i) (S j) x y)). lia. Qed.

Lemma view_lookup l k v : unique l -> view l !! k = Some v <-> exists i e, l !! i = Some e /\ occupied e = true /\ key e = k /\ val e = v.
Proof.
  induction l as [|e l IH]; intros Hu; cbn [view].
  { rewrite lookup_empty. split; [done|]. intros (i & e & He & _). by rewrite lookup_nil in He. }
  pose proof (unique_tail _ _ Hu) as Hu'. destruct (occupied e) eqn:Eo.
  - rewrite lookup_insert_Some, (IH Hu'). split.
    + intros [[<- <-]|[Hne (i & x & Hi & Hx)]]; [by exists 0%nat, e|by exists (S i), x].
    + intros ([|i] & x & Hi & Hx & <- & <-); cbn in Hi; [simplify_eq; by left|right]. split; [|by exists i, x].
      intros Hk. by assert (0%nat = S i) by (by apply (Hu 0%nat (S i) e x)).
  - rewrite (IH Hu'). split; [intros (i & x & Hi & Hx); by exists (S i), x|].
    intros ([|i] & x & Hi & Hx & Hk); cbn in Hi; [simplify_eq; congruence|by exists i, x].
Qed.

Lemma view_none l k : unique l -> view l !! k = None <-> forall i e, l !! i = Some e -> occupied e = true -> key e <> k.
Proof.
  intros Hu. rewrite eq_None_not_Some. split.
  - intros Hn i e He Ho Hk. apply Hn. exists (val e). apply view_lookup; [done|]. by exists i, e.
  - intros H [v Hv]. apply view_lookup in Hv as (i & e & He & Ho & Hk & _); [|done]. by apply (H i e).
Qed.

Lemma find_entry_spec p l n : match find_entry p l n with
  | Some i => exists j e, i = (n + j)%nat /\ l !! j = Some e /\ p e = true
  | None => forall i e, l !! i = Some e -> p e = false
  end.
Proof.
  revert n. induction l as [|e l IH]; intros n; cbn [find_entry]; [intros i e He; by rewrite lookup_nil in He|].
  destruct (p e) eqn:Ep; [exists 0%nat, e; split_and!; [lia|done|done]|]. specialize (IH (S n)). destruct (find_entry p l (S n)) as [i|].
  - destruct IH as (j & x & -> & Hj & Hx). exists (S j), x. split_and!; [lia|done|done].
  - intros [|i] x Hi; cbn in Hi; [congruence|by eapply IH].
Qed.

Lemma entry_is_true host port e : entry_is host port e = true <-> occupied e = true /\ key e = (host, port).
Proof.
  unfold entry_is, key. rewrite !andb_true_iff, Z.eqb_eq, span_eqb_true. split; [intros [[? <-] <-]; done|]. intros [? [= <- <-]]. done.
Qed.

(** Writing an entry for a key no other entry holds. *)
Lemma view_put l i e e' : unique l -> l !! i = Some e -> occupied e' = true ->
  (forall j x, j <> i -> l !! j = Some x -> occupied x = true -> key x <> key e') ->
  unique (<[i := e']> l) /\
  view (<[i := e']> l) = <[key e' := val e']> (if occupied e then delete (key e) (view l) else view l).
Proof.
  intros Hu Hi Ho Hk. pose proof (lookup_lt_Some _ _ _ Hi) as Hlt.
  assert (Hu' : unique (<[i := e']> l)).
  { intros a b x y Ha Hb Hx Hy Hxy. apply list_lookup_insert_Some in Ha as [(<- & <- & _)|[Ha1 Ha]], Hb as [(<- & <- & _)|[Hb1 Hb]]; try done.
    - by destruct (Hk b y).
    - by destruct (Hk a x).
    - by apply (Hu a b x y). }
  split; [done|]. apply map_eq. intros k. apply option_eq. intros v. rewrite (view_lookup _ _ _ Hu'), lookup_insert_Some. split.
  - intros (j & x & Hj & Hx & <- & <-). apply list_lookup_insert_Some in Hj as [(<- & <- & _)|[Hj1 Hj]]; [by left|right].
    split; [intros Heq; by destruct (Hk j x)|]. destruct (occupied e) eqn:Eo; [|apply view_lookup; [done|by exists j, x]].
    apply lookup_delete_Some. split; [intros Heq; apply Hj1; by apply (Hu i j e x)|]. apply view_lookup; [done|by exists j, x].
  - intros [[<- <-]|[Hne Hv]].
    + exists i, e'. split_and!; try done. by rewrite list_lookup_insert_eq.
    + assert (Hv' : view l !! k = Some v /\ (occupied e = true -> key e <> k)).
      { destruct (occupied e); [apply lookup_delete_Some in Hv as [? ?]; by split|by split]. }
      destruct Hv' as [Hv1 Hv2]. apply view_lookup in Hv1 as (j & x & Hj & Hx & <- & <-); [|done].
      exists j, x. split_and!; try done. rewrite list_lookup_insert_ne; [done|]. intros ->. rewrite Hi in Hj. injection Hj as ->. by apply Hv2.
Qed.

(** Freeing an entry. *)
Lemma view_clear l i e : unique l -> l !! i = Some e -> occupied e = true ->
  unique (<[i := clear_occupied e]> l) /\ view (<[i := clear_occupied e]> l) = delete (key e) (view l).
Proof.
  intros Hu Hi Ho. pose proof (lookup_lt_Some _ _ _ Hi) as Hlt.
  assert (Hu' : unique (<[i := clear_occupied e]> l)).
  { intros a b x y Ha Hb Hx Hy Hxy. apply list_lookup_insert_Some in Ha as [(<- & <- & _)|[Ha1 Ha]], Hb as [(<- & <- & _)|[Hb1 Hb]]; try done.
    by apply (Hu a b x y). }
  split; [done|]. apply map_eq. intros k. apply option_eq. intros v. rewrite (view_lookup _ _ _ Hu'), lookup_delete_Some, view_lookup by done. split.
  - intros (j & x & Hj & Hx & <- & <-). apply list_lookup_insert_Some in Hj as [(<- & <- & _)|[Hj1 Hj]]; [done|].
    split; [intros Heq; apply Hj1; by apply (Hu i j e x)|by exists j, x].
  - intros (Hne & j & x & Hj & Hx & <- & <-). exists j, x. split_and!; try done. rewrite list_lookup_insert_ne; [done|]. intros ->. congruence.
Qed.

Lemma view_size l : unique l -> size (view l) = length (filter (fun e => occupied e = true) l).
Proof.
  induction l as [|e l IH]; intros Hu; cbn [view]; [by rewrite map_size_empty|]. pose proof (unique_tail _ _ Hu) as Hu'. rewrite filter_cons.
  destruct (occupied e) eqn:Eo; [rewrite decide_True by done|by rewrite decide_False by congruence; apply IH].
  cbn [length]. rewrite <- IH by done. apply map_size_insert_None. apply view_none; [done|]. intros i x Hi Hx Hk.
  by assert (0%nat = S i) by (by apply (Hu 0%nat (S i) e x)).
Qed.

Lemma view_full l : unique l -> (size (view l) < length l)%nat <-> exists i e, l !! i = Some e /\ occupied e = false.
Proof.
  intros Hu. rewrite view_size by done. clear Hu. induction l as [|e l IH]; [split; [simpl; lia|]; intros (i & e & He & _); by rewrite lookup_nil in He|].
  rewrite filter_cons. pose proof (length_filter (fun e => occupied e = true) l) as Hle. destruct (occupied e) eqn:Eo.
  - rewrite decide_True by done. cbn [length]. rewrite <- Nat.succ_lt_mono, IH. split.
    + intros (i & x & Hx). by exists (S i), x.
    + intros ([|i] & x & Hx & Ho); cbn in Hx; [congruence|by exists i, x].
  - rewrite decide_False by congruence. cbn [length]. split; [intros _; by exists 0%nat, e|lia].
Qed.

(** The victim has the earliest deadline. *)
Lemma find_victim_spec (L l : list KlResCacheEntry) n v m : (forall j, L !! (n + j)%nat = l !! j) ->
  (exists e, L !! v = Some e /\ deadline_ms e = m) -> (forall j e, (j < n)%nat -> L !! j = Some e -> m <= deadline_ms e) ->
  exists e, L !! find_victim l n v m = Some e /\ forall j e', L !! j = Some e' -> deadline_ms e <= deadline_ms e'.
Proof.
  revert n v m. induction l as [|x l IH]; intros n v m HL (e & Hv & Hm) Hmin; cbn [find_victim].
  - exists e. split; [done|]. intros j e' Hj. rewrite Hm. apply (Hmin j); [|done]. destruct (Nat.lt_ge_cases j n) as [|Hge]; [done|].
    specialize (HL (j - n)%nat). replace (n + (j - n))%nat with j in HL by lia. rewrite lookup_nil in HL. congruence.
  - assert (HL' : forall j, L !! (S n + j)%nat = l !! j) by (intros j; change (l !! j) with ((x :: l) !! S j); rewrite <- HL; f_equal; lia).
    assert (Hx : L !! n = Some x) by (specialize (HL 0%nat); by rewrite Nat.add_0_r in HL).
    destruct (Z.ltb_spec (deadline_ms x) m); apply IH; try done.
    + by exists x.
    + intros j e' Hj Hje. destruct (decide (j = n)) as [->|]; [simplify_eq; lia|]. specialize (Hmin j e' ltac:(lia) Hje). lia.
    + by exists e.
    + intros j e' Hj Hje. destruct (decide (j = n)) as [->|]; [simplify_eq; lia|]. apply (Hmin j); [lia|done].
Qed.

(** The deadline of an answer stored at [now]. *)
Definition deadline_of (c : KlResolverCache) (now : Z) : Z := if UINT64_MAX / 2 <? ttl_ms c then UINT64_MAX else u64 (now + ttl_ms c).

(** What makes room for a new key: nothing, or the removal of one answer that has expired, or else of
    one with the earliest deadline. *)
Definition room_made (c : KlResolverCache) (now : Z) (k : list Z * Z) (m : gmap (list Z * Z) (KlResolveResult * Z)) : Prop :=
  let v := view (entries c) in
  if bool_decide (is_Some (v !! k)) || (size v <? length (entries c))%nat then m = v
  else exists k' r d, v !! k' = Some (r, d) /\ m = delete k' v /\
    (d <= now \/ forall k'' r'' d'', v !! k'' = Some (r'', d'') -> now < d'' /\ d <= d'').

Lemma put_wf c i e e' n : cache_wf c -> entries c !! i = Some e -> occupied e' = true ->
  (forall j x, j <> i -> entries c !! j = Some x -> occupied x = true -> key x <> key e') ->
  n = (if occupied e then count c else count c + 1) ->
  cache_wf (mkCache (<[i := e']> (entries c)) n (ttl_ms c)).
Proof.
  intros [Hu Hc Hl] Hi Ho Hk ->. destruct (view_put _ i e e' Hu Hi Ho Hk) as [Hu' Hv]. split; cbn [entries count]; [done| |by rewrite length_insert].
  rewrite Hv. assert (Hn : (if occupied e then delete (key e) (view (entries c)) else view (entries c)) !! key e' = None).
  { destruct (occupied e) eqn:Eo.
    - destruct (decide (key e = key e')) as [->|Hne]; [apply lookup_delete_eq|]. rewrite lookup_delete_ne by done. apply view_none; [done|].
      intros j x Hj Hx. destruct (decide (j = i)) as [->|]; [simplify_eq; done|by apply (Hk j)].
    - apply view_none; [done|]. intros j x Hj Hx. destruct (decide (j = i)) as [->|]; [simplify_eq; congruence|by apply (Hk j)]. }
  rewrite (map_size_insert_None _ _ _ Hn), Hc. destruct (occupied e) eqn:Eo; [|lia].
  assert (Hin : view (entries c) !! key e = Some (val e)) by (apply view_lookup; [done|by exists i, e]).
  rewrite map_size_delete_Some by (by eexists). assert (size (view (entries c)) <> 0%nat); [|lia].
  intros Hz%map_size_empty_iff. rewrite Hz in Hin. by rewrite lookup_empty in Hin.
Qed.

Lemma lookup_refines c now host port : cache_wf c ->
  let '(c', o) := cache_lookup c now host port in
  cache_wf c' /\ length (entries c') = length (entries c) /\
  match view (entries c) !! (host, port) with
  | Some (r, d) =>
      if now <? d then c' = c /\ exists i e, o = Some i /\ entries c !! i = Some e /\ e_result e = r
      else view (entries c') = delete (host, port) (view (entries c)) /\ o = None
  | None => c' = c /\ o = None
  end.
Proof.
  intros Hw. pose proof Hw as [Hu Hc Hl]. unfold cache_lookup. pose proof (find_entry_spec (entry_is host port) (entries c) 0) as Hf.
  destruct (find_entry (entry_is host port) (entries c) 0) as [i|].
  - destruct Hf as (j & e & -> & Hj & He). cbn [Nat.add]. rewrite Hj. apply entry_is_true in He as [Ho Hk].
    assert (Hv : view (entries c) !! (host, port) = Some (val e)) by (apply view_lookup; [done|by exists j, e]).
    rewrite Hv. cbn [val]. destruct (now <? deadline_ms e); [split_and!; try done; by exists j, e|].
    destruct (view_clear _ j e Hu Hj Ho) as [Hu' Hv']. split_and!; [|by cbn; rewrite length_insert|by rewrite <- Hk|done].
    split; cbn [entries count]; [done| |by rewrite length_insert]. rewrite Hv', map_size_delete_Some by (rewrite Hk; by eexists).
    assert (size (view (entries c)) <> 0%nat); [|lia]. intros Hz%map_size_empty_iff. rewrite Hz in Hv. by rewrite lookup_empty in Hv.
  - assert (Hn : view (entries c) !! (host, port) = None).
    { apply view_none; [done|]. intros i e Hi Ho Hk. specialize (Hf i e Hi). by rewrite (proj2 (entry_is_true _ _ _) (conj Ho Hk)) in Hf. }
    rewrite Hn. by split_and!.
Qed.

(** Writing the answer over an entry. *)
Lemma put_refines c now host port res i e n m : cache_wf c -> entries c !! i = Some e ->
  (forall j x, j <> i -> entries c !! j = Some x -> occupied x = true -> key x <> (host, port)) ->
  n = (if occupied e then count c else count c + 1) -> room_made c now (host, port) m ->
  <[(host, port) := (res, deadline_of c now)]> (if occupied e then delete (key e) (view (entries c)) else view (entries c)) =
  <[(host, port) := (res, deadline_of c now)]> m ->
  let c' := mkCache (<[i := mkEntry host port res (deadline_of c now) true]> (entries c)) n (ttl_ms c) in
  cache_wf c' /\ length (entries c') = length (entries c) /\
  exists m, room_made c now (host, port) m /\ view (entries c') = <[(host, port) := (res, deadline_of c now)]> m.
Proof.
  intros Hw Hi Hk Hn Hm Heq c'. unfold c'. split_and!; [by eapply put_wf|by cbn; rewrite length_insert|]. exists m. split; [done|].
  cbn [entries]. by destruct (view_put _ i e (mkEntry host port res (deadline_of c now) true) (cwf_unique c Hw) Hi eq_refl Hk) as [_ ->].
Qed.

(** A full cache gives up an entry that has expired or whose deadline is the earliest. *)
Lemma evict_room c now k j e : cache_wf c -> view (entries c) !! k = None ->
  (forall j x, entries c !! j = Some x -> occupied x = true) -> entries c !! j = Some e ->
  (deadline_ms e <= now \/ forall i x, entries c !! i = Some x -> now < deadline_ms x /\ deadline_ms e <= deadline_ms x) ->
  room_made c now k (delete (key e) (view (entries c))).
Proof.
  intros Hw Hk Hocc Hj Hd. pose proof (cwf_unique c Hw) as Hu. unfold room_made. rewrite Hk, bool_decide_false by (by intros []).
  assert (Hfull : (size (view (entries c)) <? length (entries c))%nat = false).
  { apply Nat.ltb_ge, Nat.nlt_ge. rewrite view_full by done. intros (i & x & Hi & Hx). rewrite (Hocc i x Hi) in Hx. done. }
  rewrite Hfull. cbn [orb]. exists (key e), (e_result e), (deadline_ms e). split_and!; [|done|].
  - apply view_lookup; [done|]. exists j, e. split_and!; try done. by apply (Hocc j).
  - destruct Hd as [Hd|Hd]; [by left|right]. intros k'' r'' d'' Hv. apply view_lookup in Hv as (i & x & Hi & _ & _ & Hx); [|done].
    injection Hx as _ <-. by apply (Hd i).
Qed.

Lemma insert_refines c now host port res : cache_wf c -> (length host < KL_RESOLVER_CACHE_HOSTNAME_MAX)%nat ->
  let c' := cache_insert c now host port res in
  cache_wf c' /\ length (entries c') = length (entries c) /\
  exists m, room_made c now (host, port) m /\ view (entries c') = <[(host, port) := (res, deadline_of c now)]> m.
Proof.
  intros Hw Hh. pose proof Hw as [Hu Hc Hl]. unfold cache_insert. rewrite (proj2 (Nat.leb_gt _ _)) by done. fold (deadline_of c now). cbv zeta.
  pose proof (find_entry_spec (entry_is host port) (entries c) 0) as Hf.
  destruct (find_entry (entry_is host port) (entries c) 0) as [i|].
  { destruct Hf as (j & e & -> & Hj & He). apply entry_is_true in He as [Ho Hk].
    apply (put_refines c now host port res j e _ (view (entries c))); [done|done| |by rewrite Ho| |by rewrite Ho, Hk, insert_delete_eq].
    - intros a x Ha Hx Hxo Hxk. apply Ha. apply (Hu a j x e); congruence.
    - unfold room_made. rewrite bool_decide_true; [done|]. exists (val e). apply view_lookup; [done|by exists j, e]. }
  assert (Habs : forall j x, entries c !! j = Some x -> occupied x = true -> key x <> (host, port)).
  { intros j x Hj Ho Hk. specialize (Hf j x Hj). by rewrite (proj2 (entry_is_true _ _ _) (conj Ho Hk)) in Hf. }
  assert (Hnone : view (entries c) !! (host, port) = None) by (by apply view_none).
  pose proof (find_entry_spec (fun e => negb (occupied e)) (entries c) 0) as Hfree.
  destruct (find_entry (fun e => negb (occupied e)) (entries c) 0) as [i|].
  { destruct Hfree as (j & e & -> & Hj & He%negb_true_iff).
    apply (put_refines c now host port res j e _ (view (entries c))); [done|done|eauto|by rewrite He| |by rewrite He].
    unfold room_made. rewrite (proj2 (Nat.ltb_lt _ _)), orb_true_r; [done|]. apply view_full; [done|by exists j, e]. }
  assert (Hocc : forall j x, entries c !! j = Some x -> occupied x = true) by (intros j x Hj; specialize (Hfree j x Hj); by apply negb_false_iff).
  pose proof (find_entry_spec (fun e => deadline_ms e <=? now) (entries c) 0) as Hexp.
  destruct (find_entry (fun e => deadline_ms e <=? now) (entries c) 0) as [i|].
  { destruct Hexp as (j & e & -> & Hj & He%Z.leb_le). pose proof (Hocc j e Hj) as Ho.
    apply (put_refines c now host port res j e _ (delete (key e) (view (entries c)))); [done|done|eauto|by rewrite Ho| |by rewrite Ho].
    apply (evict_room c now (host, port) j e); auto. }
  destruct (entries c) as [|e0 l] eqn:Ee; [simpl in Hl; lia|]. rewrite <- Ee in *.
  destruct (find_victim_spec (entries c) l 1 0 (deadline_ms e0)) as (e & He & Hmin);
    [by rewrite Ee|by exists e0; rewrite Ee|rewrite Ee; intros [|j] x Hj Hx; [cbn in Hx; simplify_eq; lia|lia]|].
  pose proof (Hocc _ e He) as Ho.
  apply (put_refines c now host port res _ e _ (delete (key e) (view (entries c)))); [done|done|eauto|by rewrite Ho| |by rewrite Ho].
  apply (evict_room c now (host, port) _ e Hw Hnone Hocc He). right. intros j x Hj. split; [|by apply (Hmin j)].
  specialize (Hexp j x Hj). by apply Z.leb_gt.
Qed.

Lemma cleared_view l : view (clear_occupied <$> l) = ∅ /\ unique (clear_occupied <$> l).
Proof.
  split; [by induction l|]. intros i j e e' He _ Ho. rewrite list_lookup_fmap in He. destruct (l !! i); simplify_eq/=.
Qed.

(** C35.  The resolver cache refines a bounded map from (host, port) to an answer with a deadline.  A
    lookup returns exactly the stored answer while its deadline is in the future, and removes it
    otherwise; storing an answer replaces the one for the same host and port, and when a new key
    finds the cache full removes exactly one other answer, one that has expired if there is any and
    else one with the earliest deadline; clearing empties the map; the count is the number of
    answers, at most the capacity, which never changes. *)
Theorem cache_refines_map (c : KlResolverCache) (now : Z) (host : list Z) (port : Z) (res : KlResolveResult)
    (Hwf : cache_wf c) (Hhost : (length host < KL_RESOLVER_CACHE_HOSTNAME_MAX)%nat) :
  kl_resolver_cache_count c = Z.of_nat (size (view (entries c))) /\ kl_resolver_cache_count c <= Z.of_nat (length (entries c)) /\
  (let '(c', o) := cache_lookup c now host port in
   cache_wf c' /\ length (entries c') = length (entries c) /\
   match view (entries c) !! (host, port) with
   | Some (r, d) =>
       if now <? d then c' = c /\ exists i e, o = Some i /\ entries c !! i = Some e /\ e_result e = r
       else view (entries c') = delete (host, port) (view (entries c)) /\ o = None
   | None => c' = c /\ o = None
   end) /\
  (let c' := cache_insert c now host port res in
   cache_wf c' /\ length (entries c') = length (entries c) /\
   exists m, room_made c now (host, port) m /\ view (entries c') = <[(host, port) := (res, deadline_of c now)]> m) /\
  (let c' := kl_resolver_cache_clear c in
   cache_wf c' /\ length (entries c') = length (entries c) /\ view (entries c') = ∅).
Proof.
  pose proof Hwf as [Hu Hc Hl]. destruct (cleared_view (entries c)) as [Hv Hu']. split; [exact Hc|].
  split; [unfold kl_resolver_cache_count; rewrite Hc, view_size by done; apply Nat2Z.inj_le, length_filter|].
  split; [by apply lookup_refines|]. split; [by apply insert_refines|]. cbv zeta. split_and!; [|by cbn; rewrite length_fmap|exact Hv].
  split; cbn; [done|by rewrite Hv, map_size_empty|by rewrite length_fmap].
Qed.

(** A full cache with two answers. *)
Definition sample_result (x : Z) : KlResolveResult := mkResult [kl_sockaddr_from_ipv4 [10; 0; 0; x] 0] 1 1 0.
Definition sample_cache : KlResolverCache :=
  cache_insert (cache_insert (default (mkCache [] 0 0) (kl_resolver_cache_create 1208 true true (Some (2, 100)))) 10 (bytes "a") 80 (sample_result 1))
    20 (bytes "b") 80 (sample_result 2).

Lemma create_wf sz cfg c : kl_resolver_cache_create sz true true cfg = Some c -> cache_wf c.
Proof.
  unfold kl_resolver_cache_create. intros H. case_if; [done|]. cbn [negb] in H. injection H as <-.
  set (n := Z.to_nat _). assert (Hn : (0 < n)%nat) by (unfold n, KL_RESCACHE_DEFAULT_CAPACITY; destruct cfg as [[cap ?]|]; [destruct (Z.ltb_spec 0 cap)|]; lia).
  assert (Hv : view (replicate n (mkEntry [] 0 zero_result 0 false)) = ∅) by (clear; by induction n).
  split; cbn [entries count]; [|by rewrite Hv, map_size_empty|by rewrite length_replicate].
  intros i j e e' He _ Ho. apply lookup_replicate in He as [-> _]. done.
Qed.

Lemma sample_cache_wf : cache_wf sample_cache.
Proof.
  unfold sample_cache. apply insert_refines; [|apply Nat.ltb_lt; vm_compute; reflexivity].
  apply insert_refines; [|apply Nat.ltb_lt; vm_compute; reflexivity]. by apply (create_wf 1208 (Some (2, 100))).
Qed.

Lemma cache_refines_map_witness :
  kl_resolver_cache_count sample_cache <= Z.of_nat (length (entries sample_cache)) /\
  let c' := cache_insert sample_cache 30 (bytes "c") 80 (sample_result 3) in
  exists m, room_made sample_cache 30 (bytes "c", 80) m /\ view (entries c') = <[(bytes "c", 80) := (sample_result 3, deadline_of sample_cache 30)]> m.
Proof.
  destruct (cache_refines_map sample_cache 30 (bytes "c") 80 (sample_result 3) sample_cache_wf) as (_ & H1 & _ & (_ & _ & H2) & _).
  - apply Nat.ltb_lt. vm_compute. reflexivity.
  - exact (conj H1 H2).
Defined.

(** What the caller of a hit reads from the result after a request made inside its callback: the
    result points into the cache, so the nested request can replace it by the answer for another
    host. *)
Definition nested_prog : prog :=
  Resolve true (bytes "a") 80 IFail
    (fun _ p _ => Resolve true (bytes "c") 80 (ISync (Some (sample_result 3)) 0 true) (fun _ _ _ => Ret)
      (fun _ => match p with
                | Some q => Read q (fun r => if bool_decide (r = Some (sample_result 3)) then Clear Ret else Ret)
                | None => Ret
                end))
    (fun _ => Ret).

Lemma nested_hit_overwritten :
  match exec (fun _ => 30) nested_prog (init_st sample_cache) with
  | Ok s => kl_resolver_cache_count (cache s) = 0 /\ times (EDone 0) s = 1%nat /\ times (EDone 1) s = 1%nat
  | _ => False
  end.
Proof. vm_compute. split_and!; reflexivity. Qed.

End ResolverCache.
