(* ===== verification/Error.v ===== *)
(** * Error codes (src/include/keel/error.h, src/src/error.c) *)
From S2P Require Import Prelude.

Module Error.

Inductive KlError :=
| KL_ERR_NONE | KL_ERR_INVALID_ARG | KL_ERR_ALLOC | KL_ERR_OVERFLOW
| KL_ERR_SOCKET | KL_ERR_BIND | KL_ERR_LISTEN | KL_ERR_CONNECT | KL_ERR_IO | KL_ERR_TIMEOUT
| KL_ERR_DNS
| KL_ERR_TLS_INIT | KL_ERR_TLS_HANDSHAKE | KL_ERR_TLS_VTABLE
| KL_ERR_URL | KL_ERR_PARSE | KL_ERR_TOO_LARGE | KL_ERR_HEADER
| KL_ERR_EVENT_INIT | KL_ERR_EVENT_ADD
| KL_ERR_QUEUE_FULL | KL_ERR_THREAD
| KL_ERR_PIPE
| KL_ERR_REDIRECT_LOOP
| KL_ERR_COMPRESS
| KL_ERR_PROXY
| KL_ERR_UNSUPPORTED
| KL_ERR_REDIRECT_REFUSED.

#[global] Instance KlError_eq_dec : EqDecision KlError.
Proof. solve_decision. Defined.

(** The values of the enumeration, in order. *)
Definition codes : list KlError :=
  [KL_ERR_NONE; KL_ERR_INVALID_ARG; KL_ERR_ALLOC; KL_ERR_OVERFLOW; KL_ERR_SOCKET; KL_ERR_BIND; KL_ERR_LISTEN;
   KL_ERR_CONNECT; KL_ERR_IO; KL_ERR_TIMEOUT; KL_ERR_DNS; KL_ERR_TLS_INIT; KL_ERR_TLS_HANDSHAKE; KL_ERR_TLS_VTABLE;
   KL_ERR_URL; KL_ERR_PARSE; KL_ERR_TOO_LARGE; KL_ERR_HEADER; KL_ERR_EVENT_INIT; KL_ERR_EVENT_ADD; KL_ERR_QUEUE_FULL;
   KL_ERR_THREAD; KL_ERR_PIPE; KL_ERR_REDIRECT_LOOP; KL_ERR_COMPRESS; KL_ERR_PROXY; KL_ERR_UNSUPPORTED;
   KL_ERR_REDIRECT_REFUSED].

Definition kl_error_messages (e : KlError) : list Z :=
  match e with
  | KL_ERR_NONE => bytes "no error"
  | KL_ERR_INVALID_ARG => bytes "invalid argument"
  | KL_ERR_ALLOC => bytes "memory allocation failed"
  | KL_ERR_OVERFLOW => bytes "integer overflow"
  | KL_ERR_SOCKET => bytes "socket creation failed"
  | KL_ERR_BIND => bytes "bind failed"
  | KL_ERR_LISTEN => bytes "listen failed"
  | KL_ERR_CONNECT => bytes "connection failed"
  | KL_ERR_IO => bytes "I/O error"
  | KL_ERR_TIMEOUT => bytes "operation timed out"
  | KL_ERR_DNS => bytes "DNS resolution failed"
  | KL_ERR_TLS_INIT => bytes "TLS initialization failed"
  | KL_ERR_TLS_HANDSHAKE => bytes "TLS handshake failed"
  | KL_ERR_TLS_VTABLE => bytes "TLS vtable incomplete"
  | KL_ERR_URL => bytes "URL parse error"
  | KL_ERR_PARSE => bytes "HTTP parse error"
  | KL_ERR_TOO_LARGE => bytes "request or response too large"
  | KL_ERR_HEADER => bytes "header injection detected"
  | KL_ERR_EVENT_INIT => bytes "event loop init failed"
  | KL_ERR_EVENT_ADD => bytes "event registration failed"
  | KL_ERR_QUEUE_FULL => bytes "thread pool queue full"
  | KL_ERR_THREAD => bytes "thread creation failed"
  | KL_ERR_PIPE => bytes "pipe creation failed"
  | KL_ERR_REDIRECT_LOOP => bytes "too many redirects"
  | KL_ERR_REDIRECT_REFUSED => bytes "redirect refused"
  | KL_ERR_COMPRESS => bytes "compression error"
  | KL_ERR_PROXY => bytes "proxy error"
  | KL_ERR_UNSUPPORTED => bytes "capability not supported by provider"
  end.

(** The argument is the integer the caller passes. *)
Definition kl_strerror (err : Z) : list Z :=
  if (err <? 0) || (Z.of_nat (length codes) <=? err) then bytes "unknown error"
  else match codes !! Z.to_nat err with Some e => kl_error_messages e | None => [] end.

(** Every integer has a message, and distinct codes have distinct ones. *)
Lemma strerror_nonempty err : kl_strerror err <> [].
Proof.
  unfold kl_strerror. destruct ((err <? 0) || (Z.of_nat (length codes) <=? err)) eqn:E; [done|]. breflect.
  destruct (lookup_lt_is_Some_2 codes (Z.to_nat err)) as [e ->]; [lia|]. by destruct e.
Qed.

Lemma messages_distinct : NoDup (kl_error_messages <$> codes).
Proof. apply (bool_decide_eq_true (NoDup _)). vm_compute. reflexivity. Qed.

End Error.
