(* ===== verification/ThreadPool.v ===== *)
(** * The thread pool (src/src/thread_pool.c, src/include/keel/thread_pool.h)

    Workers take items from a ring of submitted work, run them, and put them in a ring of finished
    work that the event loop empties.  The state is the pool, the position of every worker in
    [worker_thread], and the position of the event-loop thread in [thread_pool_on_pipe] or
    [kl_thread_pool_free]; a step is one thread running up to its next synchronisation.  A region
    between lock and unlock (or wait) is one step, which is what the mutex provides: all the
    fields two threads share are only accessed there, or by the loop alone after the workers have
    been joined.

    Waiting on the condition variable may end for no reason, and a signal wakes one waiter of the
    platform's choice; both are labels of the steps.  Callbacks run by the loop may submit work,
    free the pool, and run the event loop again. *)
From stdpp Require Import prelude.
From S2P Require Import Prelude Error.
Import Error.

Module ThreadPool.

(** ** Data *)

(** A function pointer is [None] for NULL. *)
Record KlWorkItem := mkItem {
  work_fn : option Z; done_fn : option Z; cancel_fn : option Z; user_data : Z;
}.

#[global] Instance item_eq_dec : EqDecision KlWorkItem.
Proof. solve_decision. Defined.

(** The fields [work_queue], [work_cap], [work_head], [work_tail], [work_count], and those of the
    done queue.  [kl_thread_pool_create] bounds the capacities by [INT_MAX], so that the sums do
    not overflow. *)
Record Ring := mkRing { queue : list KlWorkItem; cap : nat; head : nat; tail : nat; count : nat }.

(** [None] is an access outside of the array. *)
Definition ring_push (r : Ring) (x : KlWorkItem) : option Ring :=
  if (tail r <? length (queue r))%nat then
    Some (mkRing (<[tail r := x]> (queue r)) (cap r) (head r) ((tail r + 1) mod cap r) (count r + 1))
  else None.

Definition ring_pop (r : Ring) : option (KlWorkItem * Ring) :=
  x ← queue r !! head r;
  Some (x, mkRing (queue r) (cap r) ((head r + 1) mod cap r) (tail r) (count r - 1)).

(** [watched] tells whether the pool's watcher is registered, [signalled] whether the wakeup channel
    holds a byte. *)
Record KlThreadPool := mkPool {
  work : Ring; done : Ring; inflight : nat;
  shutdown : bool; dispatching : bool; free_requested : bool; destroying : bool;
  watched : bool; signalled : bool;
}.

Definition set_work (r : Ring) (p : KlThreadPool) : KlThreadPool :=
  mkPool r (done p) (inflight p) (shutdown p) (dispatching p) (free_requested p) (destroying p) (watched p) (signalled p).
Definition set_done (r : Ring) (p : KlThreadPool) : KlThreadPool :=
  mkPool (work p) r (inflight p) (shutdown p) (dispatching p) (free_requested p) (destroying p) (watched p) (signalled p).
Definition set_inflight (n : nat) (p : KlThreadPool) : KlThreadPool :=
  mkPool (work p) (done p) n (shutdown p) (dispatching p) (free_requested p) (destroying p) (watched p) (signalled p).
Definition set_shutdown (p : KlThreadPool) : KlThreadPool :=
  mkPool (work p) (done p) (inflight p) true (dispatching p) (free_requested p) (destroying p) (watched p) (signalled p).
Definition set_dispatching (b : bool) (p : KlThreadPool) : KlThreadPool :=
  mkPool (work p) (done p) (inflight p) (shutdown p) b (free_requested p) (destroying p) (watched p) (signalled p).
Definition set_free_requested (p : KlThreadPool) : KlThreadPool :=
  mkPool (work p) (done p) (inflight p) (shutdown p) (dispatching p) true (destroying p) (watched p) (signalled p).
Definition set_destroying (p : KlThreadPool) : KlThreadPool :=
  mkPool (work p) (done p) (inflight p) (shutdown p) (dispatching p) (free_requested p) true (watched p) (signalled p).
Definition unwatch (p : KlThreadPool) : KlThreadPool :=
  mkPool (work p) (done p) (inflight p) (shutdown p) (dispatching p) (free_requested p) (destroying p) false (signalled p).
Definition set_signalled (b : bool) (p : KlThreadPool) : KlThreadPool :=
  mkPool (work p) (done p) (inflight p) (shutdown p) (dispatching p) (free_requested p) (destroying p) (watched p) b.

(** ** Creation *)

Definition KL_TP_DEFAULT_CAPACITY : Z := 64.

Inductive resource := RPool | RWorkQueue | RDoneQueue | RWakeup | RMutex | RCond | RWatcher | RThreads.

Definition error_of (r : resource) : KlError :=
  match r with
  | RPool | RWorkQueue | RDoneQueue | RThreads => KL_ERR_ALLOC
  | RWakeup => KL_ERR_PIPE
  | RMutex | RCond => KL_ERR_THREAD
  | RWatcher => KL_ERR_EVENT_ADD
  end.

Definition acquisitions : list resource := [RPool; RWorkQueue; RDoneQueue; RWakeup; RMutex; RCond; RWatcher; RThreads].

(** What is held, newest first, and the resource that was refused, if any. *)
Fixpoint acquire (granted : resource -> bool) (rs held : list resource) : list resource * option resource :=
  match rs with
  | [] => (held, None)
  | r :: rs' => if granted r then acquire granted rs' (r :: held) else (held, Some r)
  end.

(** The configured or default sizes: number of workers and capacity of both queues. *)
Definition pool_sizes (cfg_workers cfg_capacity cpu_count : Z) : option (Z * Z) :=
  let num_workers := if 0 <? cfg_workers then cfg_workers else 0 in
  let queue_cap := if 0 <? cfg_capacity then cfg_capacity else KL_TP_DEFAULT_CAPACITY in
  let num_workers := if num_workers =? 0 then cpu_count else num_workers in
  if (INT_MAX / 2 <? queue_cap) || (INT_MAX / 2 <? num_workers) then None
  else Some (num_workers, queue_cap + num_workers).

Definition empty_ring (blank : KlWorkItem) (n : nat) : Ring := mkRing (replicate n blank) n 0 0 0.

Inductive created :=
| Created (pool : KlThreadPool) (workers : nat)
| Failed (error : option KlError) (released : list resource).

(** [granted] are the answers of the allocator and of the platform, [started] says how many threads
    of those asked for the platform starts, [blank] is the content of fresh memory.  The size
    tests against [SIZE_MAX] never fire for counts below [INT_MAX] and items of at most 2^32
    bytes. *)
Definition kl_thread_pool_create (granted : resource -> bool) (started : nat -> nat) (blank : KlWorkItem)
    (cfg_workers cfg_capacity cpu_count : Z) : created :=
  match pool_sizes cfg_workers cfg_capacity cpu_count with
  | None => Failed None []
  | Some (num_workers, done_cap) =>
      let '(held, refused) := acquire granted acquisitions [] in
      match refused with
      | Some r => Failed (Some (error_of r)) held
      | None =>
          let n := Nat.min (started (Z.to_nat num_workers)) (Z.to_nat num_workers) in
          if (n =? 0)%nat then Failed (Some KL_ERR_THREAD) held
          else
            let c := Z.to_nat done_cap in
            Created (mkPool (empty_ring blank c) (empty_ring blank c) 0 false false false false true false) n
      end
  end.

(** ** Threads *)

Inductive wpc :=
| Ready                        (* about to lock, at the head of the loop *)
| Waiting                      (* in [kl_plat_cond_wait] *)
| Running (x : KlWorkItem)     (* about to call [work_fn] *)
| Finished (x : KlWorkItem)    (* about to put the item in the done queue *)
| Signalling                   (* about to signal the event loop *)
| Exited.

Inductive lpc :=
| Idle                         (* outside of the pool's code *)
| Dispatch                     (* [thread_pool_on_pipe], about to lock *)
| Callback (x : KlWorkItem)    (* inside a [done_fn] called by it *)
| Shutdown                     (* [kl_thread_pool_free], about to lock *)
| Join                         (* joining the workers *)
| DrainDone | DrainWork        (* at the head of the two final loops *)
| TearCallback (fin : bool)    (* inside a callback called by the first or second of them *)
| Freed.

(** What has happened: items accepted, taken by a worker, run, reported and cancelled, in order. *)
Record Hist := mkHist {
  submitted : list KlWorkItem; started : list KlWorkItem; worked : list KlWorkItem;
  delivered : list KlWorkItem; cancelled : list KlWorkItem;
}.

Record St := mkSt { pool : KlThreadPool; workers : list wpc; loop : lpc; hist : Hist }.

Inductive outcome := Next (s : St) | Blocked | Fault.

(** The locked region of a worker at the head of its loop, also after a wait. *)
Definition worker_locked (p : KlThreadPool) : option (KlThreadPool * wpc) :=
  if shutdown p then Some (p, Exited)
  else if (count (work p) =? 0)%nat then Some (p, Waiting)
  else '(x, r) ← ring_pop (work p); Some (set_work r p, Running x).

Definition worker_step (i : nat) (s : St) : outcome :=
  let h := hist s in
  let put p w h := Next (mkSt p (<[i := w]> (workers s)) (loop s) h) in
  match workers s !! i with
  | Some Ready =>
      match worker_locked (pool s) with
      | None => Fault
      | Some (p, Running x) => put p (Running x) (mkHist (submitted h) (started h ++ [x]) (worked h) (delivered h) (cancelled h))
      | Some (p, w) => put p w h
      end
  | Some (Running x) => put (pool s) (Finished x) (mkHist (submitted h) (started h) (worked h ++ [x]) (delivered h) (cancelled h))
  | Some (Finished x) =>
      match ring_push (done (pool s)) x with
      | None => Fault
      | Some r => put (set_done r (pool s)) Signalling h
      end
  | Some Signalling => put (set_signalled true (pool s)) Ready h
  | Some Waiting | Some Exited | None => Blocked
  end.

Definition is_waiting (w : wpc) : bool := match w with Waiting => true | _ => false end.
Definition is_exited (w : wpc) : bool := match w with Exited => true | _ => false end.
Definition awake (w : wpc) : wpc := match w with Waiting => Ready | _ => w end.

(** [kl_plat_cond_signal]: worker [i] is woken; [None] when some other worker would have to be. *)
Definition cond_signal (i : nat) (ws : list wpc) : option (list wpc) :=
  if existsb is_waiting ws then
    match ws !! i with Some Waiting => Some (<[i := Ready]> ws) | _ => None end
  else Some ws.

Definition deliver (x : KlWorkItem) (h : Hist) : Hist :=
  mkHist (submitted h) (started h) (worked h) (delivered h ++ [x]) (cancelled h).

(** [kl_thread_pool_free] up to its lock. *)
Definition kl_thread_pool_free (s : St) : St :=
  let p := pool s in
  if destroying p then s
  else if dispatching p then mkSt (unwatch (set_free_requested p)) (workers s) (loop s) (hist s)
  else mkSt (set_destroying p) (workers s) Shutdown (hist s).

(** The head of [thread_pool_on_pipe]. *)
Definition thread_pool_on_pipe (s : St) : St :=
  let p := pool s in
  if dispatching p then s
  else mkSt (set_signalled false (set_dispatching true p)) (workers s) Dispatch (hist s).

(** The event-loop thread inside the pool's code. *)
Definition loop_step (s : St) : outcome :=
  let p := pool s in
  let h := hist s in
  match loop s with
  | Idle | Freed => Blocked
  | Dispatch =>
      if (0 <? count (done p))%nat then
        match ring_pop (done p) with
        | None => Fault
        | Some (x, r) => Next (mkSt (set_inflight (inflight p - 1) (set_done r p)) (workers s) (Callback x) (deliver x h))
        end
      else Next (mkSt (set_dispatching false p) (workers s) Idle h)
  | Callback _ =>
      if free_requested p then Next (kl_thread_pool_free (mkSt (set_dispatching false p) (workers s) Idle h))
      else Next (mkSt p (workers s) Dispatch h)
  | Shutdown => Next (mkSt (set_shutdown p) (awake <$> workers s) Join h)
  | Join => if forallb is_exited (workers s) then Next (mkSt (unwatch p) (workers s) DrainDone h) else Blocked
  | DrainDone =>
      if (0 <? count (done p))%nat then
        match ring_pop (done p) with
        | None => Fault
        | Some (x, r) => Next (mkSt (set_done r p) (workers s) (TearCallback false) (deliver x h))
        end
      else Next (mkSt p (workers s) DrainWork h)
  | DrainWork =>
      if (0 <? count (work p))%nat then
        match ring_pop (work p) with
        | None => Fault
        | Some (x, r) =>
            match cancel_fn x with
            | Some _ => Next (mkSt (set_work r p) (workers s) (TearCallback true)
                                (mkHist (submitted h) (started h) (worked h) (delivered h) (cancelled h ++ [x])))
            | None => Next (mkSt (set_work r p) (workers s) DrainWork h)
            end
        end
      else Next (mkSt p (workers s) Freed h)
  | TearCallback fin => Next (mkSt p (workers s) (if fin then DrainWork else DrainDone) h)
  end.

(** [kl_thread_pool_submit]: 0 or -1, and the pool; the outer [None] is an access outside of the queue. *)
Definition kl_thread_pool_submit (p : KlThreadPool) (x : KlWorkItem) : option (Z * KlThreadPool) :=
  match work_fn x, done_fn x with
  | Some _, Some _ =>
      if shutdown p || free_requested p || (cap (done p) <=? inflight p)%nat then Some (-1, p)
      else r ← ring_push (work p) x; Some (0, set_inflight (inflight p + 1) (set_work r p))
  | _, _ => Some (-1, p)
  end.

Definition submit_step (x : KlWorkItem) (i : nat) (s : St) : outcome :=
  let h := hist s in
  match kl_thread_pool_submit (pool s) x with
  | None => Fault
  | Some (rc, p) =>
      if rc =? 0 then
        match cond_signal i (workers s) with
        | Some ws => Next (mkSt p ws (loop s) (mkHist (submitted h ++ [x]) (started h) (worked h) (delivered h) (cancelled h)))
        | None => Blocked
        end
      else Next s
  end.

(** The caller's code runs outside of the pool or inside a callback; a freed pool must not be used. *)
Definition caller_runs (l : lpc) : bool :=
  match l with Idle | Callback _ | TearCallback _ => true | _ => false end.

Inductive label :=
| Worker (i : nat) | Spurious (i : nat) | Tick | Loop
| Submit (x : KlWorkItem) (i : nat) | Free | NestedTick.

Definition step (l : label) (s : St) : outcome :=
  match l with
  | Worker i => worker_step i s
  | Spurious i =>
      match workers s !! i with
      | Some Waiting => Next (mkSt (pool s) (<[i := Ready]> (workers s)) (loop s) (hist s))
      | _ => Blocked
      end
  | Tick =>
      match loop s with
      | Idle => if watched (pool s) && signalled (pool s) then Next (thread_pool_on_pipe s) else Blocked
      | _ => Blocked
      end
  | Loop => loop_step s
  | Submit x i => if caller_runs (loop s) then submit_step x i s else Blocked
  | Free => if caller_runs (loop s) then Next (kl_thread_pool_free s) else Blocked
  | NestedTick =>
      if caller_runs (loop s) && watched (pool s) && signalled (pool s) then
        match loop s with Idle => Blocked | _ => Next (thread_pool_on_pipe s) end
      else Blocked
  end.

Fixpoint run (ls : list label) (s : St) : outcome :=
  match ls with
  | [] => Next s
  | l :: ls' => match step l s with Next s' => run ls' s' | o => o end
  end.

Definition start (p : KlThreadPool) (n : nat) : St := mkSt p (replicate n Ready) Idle (mkHist [] [] [] [] []).

(** ** A ring is a queue *)

Definition items (r : Ring) : list KlWorkItem := take (count r) (drop (head r) (queue r) ++ take (head r) (queue r)).

Record ring_ok (r : Ring) : Prop := {
  ring_len : length (queue r) = cap r;
  ring_head : (head r < cap r)%nat;
  ring_count : (count r <= cap r)%nat;
  ring_tail : tail r = ((head r + count r) mod cap r)%nat;
}.

Lemma length_items r : ring_ok r -> length (items r) = count r.
Proof. intros [Hl Hh Hc _]. unfold items. rewrite length_take, length_app, length_drop, length_take. lia. Qed.

Lemma mod_wrap (a c : nat) : (a < 2 * c)%nat -> (a mod c)%nat = if (a <? c)%nat then a else (a - c)%nat.
Proof.
  intros H. destruct (Nat.ltb_spec a c); [by apply Nat.mod_small|].
  replace a with ((a - c) + 1 * c)%nat at 1 by lia. rewrite Nat.Div0.mod_add. apply Nat.mod_small. lia.
Qed.

Lemma take_insert_last {A} (l : list A) n x : (n < length l)%nat -> take (S n) (<[n := x]> l) = take n l ++ [x].
Proof.
  intros H. rewrite (take_S_r _ _ x) by (by apply list_lookup_insert_eq). by rewrite take_insert_ge by lia.
Qed.

Lemma push_ok r x : ring_ok r -> (count r < cap r)%nat ->
  exists r', ring_push r x = Some r' /\ ring_ok r' /\ items r' = items r ++ [x] /\ cap r' = cap r /\ count r' = S (count r).
Proof.
  intros [Hl Hh Hc Ht] Hlt. unfold ring_push.
  assert (Htl : (tail r < cap r)%nat) by (rewrite Ht; apply Nat.mod_upper_bound; lia).
  rewrite (proj2 (Nat.ltb_lt _ _)) by lia. eexists. split; [done|]. split; [split; cbn|split; [|split; [done|cbn; lia]]].
  - by rewrite length_insert.
  - done.
  - lia.
  - rewrite Ht, Nat.Div0.add_mod_idemp_l. f_equal. lia.
  - unfold items. cbn. rewrite Nat.add_1_r.
    replace (drop (head r) (<[tail r:=x]> (queue r)) ++ take (head r) (<[tail r:=x]> (queue r)))
      with (<[count r := x]> (drop (head r) (queue r) ++ take (head r) (queue r))).
    { apply take_insert_last. rewrite length_app, length_drop, length_take. lia. }
    rewrite Ht, mod_wrap by lia. destruct (Nat.ltb_spec (head r + count r) (cap r)) as [H|H].
    + rewrite insert_app_l by (rewrite length_drop; lia). rewrite drop_insert_ge, take_insert_ge by lia.
      do 2 f_equal. lia.
    + rewrite insert_app_r_alt by (rewrite length_drop; lia). rewrite drop_insert_lt, length_drop, take_insert_lt by lia.
      do 2 f_equal. lia.
Qed.

Lemma pop_ok r : ring_ok r -> (0 < count r)%nat ->
  exists x r', ring_pop r = Some (x, r') /\ ring_ok r' /\ items r = x :: items r' /\ cap r' = cap r /\ count r = S (count r').
Proof.
  intros [Hl Hh Hc Ht] Hlt. unfold ring_pop. destruct (lookup_lt_is_Some_2 (queue r) (head r)) as [x Hx]; [lia|].
  rewrite Hx, bind_Some_l. eexists _, _. split; [done|]. pose proof (mod_wrap (head r + 1) (cap r) ltac:(lia)) as Hm.
  split; [split; cbn|split; [|split; [done|cbn; lia]]].
  - done.
  - apply Nat.mod_upper_bound. lia.
  - lia.
  - rewrite Ht, Nat.Div0.add_mod_idemp_l. f_equal. lia.
  - unfold items. cbn [queue head count cap]. rewrite Hm, Nat.add_1_r. rewrite (drop_S _ _ _ Hx) at 1.
    replace (count r) with (S (count r - 1)) at 1 by lia. rewrite <- app_comm_cons, firstn_cons. f_equal. destruct (Nat.ltb_spec (S (head r)) (cap r)) as [H|H].
    + rewrite (take_S_r _ _ _ Hx), app_assoc. symmetry. apply take_app_le. rewrite length_app, length_drop, length_take. lia.
    + replace (S (head r) - cap r)%nat with 0%nat by lia. rewrite drop_ge by lia. cbn. rewrite app_nil_r, take_take. f_equal. lia.
Qed.

(** ** The invariant *)

Definition running (ws : list wpc) : list KlWorkItem :=
  omap (fun w => match w with Running x => Some x | _ => None end) ws.
Definition finished (ws : list wpc) : list KlWorkItem :=
  omap (fun w => match w with Finished x => Some x | _ => None end) ws.

(** The teardown loops have begun. *)
Definition late (l : lpc) : bool :=
  match l with DrainDone | DrainWork | TearCallback _ | Freed => true | _ => false end.

Definition has_cancel (x : KlWorkItem) : Prop := cancel_fn x <> None.
#[global] Instance has_cancel_dec x : Decision (has_cancel x).
Proof. unfold has_cancel. solve_decision. Defined.

(** The items: the rings are queues that never overflow, items are started in the order in which they
    were accepted, and each is in exactly one place from then on. *)
Record data_ok (p : KlThreadPool) (ws : list wpc) (h : Hist) (l : lpc) : Prop := {
  d_work : ring_ok (work p);
  d_done : ring_ok (done p);
  d_cap : cap (work p) = cap (done p);
  d_fly : (count (work p) + length (running ws) + length (finished ws) + count (done p) <= inflight p <= cap (done p))%nat;
  d_exact : late l = false -> inflight p = (count (work p) + length (running ws) + length (finished ws) + count (done p))%nat;
  d_fifo : exists dropped, submitted h = started h ++ dropped ++ items (work p) /\ cancelled h = filter has_cancel dropped /\
           (late l = false -> dropped = []);
  d_started : started h ≡ₚ running ws ++ worked h;
  d_worked : worked h ≡ₚ finished ws ++ items (done p) ++ delivered h;
}.

(** The flags follow the position of the loop, and the final loops leave empty queues behind. *)
Definition ctl_ok (p : KlThreadPool) (l : lpc) : Prop :=
  match l with
  | Idle => dispatching p = false /\ free_requested p = false /\ destroying p = false /\ shutdown p = false /\ watched p = true
  | Dispatch => dispatching p = true /\ free_requested p = false /\ destroying p = false /\ shutdown p = false /\ watched p = true
  | Callback _ => dispatching p = true /\ destroying p = false /\ shutdown p = false /\ watched p = negb (free_requested p)
  | Shutdown => dispatching p = false /\ destroying p = true /\ shutdown p = false
  | Join => destroying p = true /\ shutdown p = true
  | DrainDone => destroying p = true /\ shutdown p = true /\ watched p = false
  | DrainWork => destroying p = true /\ shutdown p = true /\ watched p = false /\ count (done p) = 0%nat
  | TearCallback fin => destroying p = true /\ shutdown p = true /\ watched p = false /\ (fin = true -> count (done p) = 0%nat)
  | Freed => destroying p = true /\ shutdown p = true /\ watched p = false /\ count (done p) = 0%nat /\ count (work p) = 0%nat
  end.

Definition worker_ok (sd late : bool) (w : wpc) : Prop :=
  if late then w = Exited else if sd then w <> Waiting else w <> Exited.

(** The threads: nobody sleeps through work, and finished work is announced. *)
Record threads_ok (p : KlThreadPool) (ws : list wpc) (l : lpc) : Prop := {
  t_some : (0 < length ws)%nat;
  t_workers : Forall (worker_ok (shutdown p) (late l)) ws;
  t_wake : shutdown p = false -> (0 < count (work p))%nat -> Exists (fun w => w <> Waiting) ws;
  t_signal : l = Idle -> (0 < count (done p))%nat -> signalled p = true \/ Signalling ∈ ws;
}.

Record inv (s : St) : Prop := {
  inv_data : data_ok (pool s) (workers s) (hist s) (loop s);
  inv_ctl : ctl_ok (pool s) (loop s);
  inv_threads : threads_ok (pool s) (workers s) (loop s);
}.

(** Permutations, by counting. *)
Ltac perm :=
  apply (Permutation_count_occ item_eq_dec); intros y;
  repeat match goal with H : _ ≡ₚ _ |- _ =>
    let H' := fresh in pose proof (proj1 (Permutation_count_occ item_eq_dec _ _) H y) as H'; clear H end;
  rewrite ?count_occ_app in *; cbn [count_occ app] in *; rewrite ?count_occ_app in *;
  repeat (case_match; try lia); lia.

(** One worker moves. *)
Lemma worker_split (ws : list wpc) i w : ws !! i = Some w ->
  exists l1 l2, ws = l1 ++ w :: l2 /\ forall w', <[i := w']> ws = l1 ++ w' :: l2.
Proof.
  intros H. exists (take i ws), (drop (S i) ws). split; [by rewrite take_drop_middle|].
  intros w'. rewrite insert_take_drop by (by eapply lookup_lt_Some). done.
Qed.

Lemma running_app l1 w l2 : running (l1 ++ w :: l2) = running l1 ++ running [w] ++ running l2.
Proof. unfold running. by rewrite omap_app, (omap_app _ [w] l2). Qed.

Lemma finished_app l1 w l2 : finished (l1 ++ w :: l2) = finished l1 ++ finished [w] ++ finished l2.
Proof. unfold finished. by rewrite omap_app, (omap_app _ [w] l2). Qed.

Lemma threads_move p p' l1 w w' l2 l : threads_ok p (l1 ++ w :: l2) l -> shutdown p' = shutdown p ->
  worker_ok (shutdown p) (late l) w' -> w' <> Waiting \/ count (work p') = 0%nat ->
  (l = Idle -> (0 < count (done p'))%nat -> signalled p' = true \/ w' = Signalling \/
     (w <> Signalling /\ (0 < count (done p))%nat /\ signalled p' = signalled p)) ->
  threads_ok p' (l1 ++ w' :: l2) l.
Proof.
  intros [Hsome Hall Hwake Hsig] Hsd Hok Hw Hs. split.
  - rewrite length_app in *. cbn in *. lia.
  - rewrite Hsd. apply Forall_app in Hall as [H1 H2]. apply Forall_cons in H2 as [_ H2]. apply Forall_app. split; [done|]. by constructor.
  - intros _ Hc. destruct Hw as [Hw|Hw]; [|lia]. apply Exists_exists. exists w'. rewrite elem_of_app, elem_of_cons. auto.
  - intros Hl Hc. destruct (Hs Hl Hc) as [->|[->|(Hne & Hc' & ->)]]; [by left|right; rewrite elem_of_app, elem_of_cons; auto|].
    destruct (Hsig Hl Hc') as [?|Hin]; [by left|right]. rewrite elem_of_app, elem_of_cons in *.
    destruct Hin as [?|[?|?]]; [auto|congruence|auto].
Qed.

(** A worker that has not left is in a pool that is not torn down. *)
Lemma not_late p ws l w : threads_ok p ws l -> w ∈ ws -> w <> Exited -> late l = false.
Proof.
  intros Ht Hin Hne. pose proof (proj1 (Forall_forall _ _) (t_workers _ _ _ Ht) w Hin) as H.
  unfold worker_ok in H. by destruct (late l).
Qed.

Lemma data_start p l1 l2 h l x r : data_ok p (l1 ++ Ready :: l2) h l -> late l = false ->
  ring_ok r -> items (work p) = x :: items r -> cap r = cap (work p) -> count (work p) = S (count r) ->
  data_ok (set_work r p) (l1 ++ Running x :: l2) (mkHist (submitted h) (started h ++ [x]) (worked h) (delivered h) (cancelled h)) l.
Proof.
  intros [Hw Hd Hcap Hfly Hex (dr & Hf & Hcn & Hdr) Hst Hwk] Hl Hr Hi Hc Hn.
  rewrite running_app, finished_app in *. cbn [running finished omap list_omap] in *. cbn in *. specialize (Hex Hl).
  rewrite ?length_app in *. split; rewrite ?running_app, ?finished_app; cbn; rewrite ?length_app; cbn; try done; try lia; try congruence.
  - exists []. rewrite (Hdr Hl) in *. rewrite Hf, Hi, <- app_assoc. done.
  - perm.
Qed.

Lemma data_worked p l1 l2 h l x : data_ok p (l1 ++ Running x :: l2) h l ->
  data_ok p (l1 ++ Finished x :: l2) (mkHist (submitted h) (started h) (worked h ++ [x]) (delivered h) (cancelled h)) l.
Proof.
  intros [Hw Hd Hcap Hfly Hex Hf Hst Hwk]. rewrite running_app, finished_app in *. cbn in *. rewrite ?length_app in *. cbn in *.
  split; rewrite ?running_app, ?finished_app; cbn; rewrite ?length_app; cbn; try done; try lia.
  - intros Hl. specialize (Hex Hl). lia.
  - perm.
  - perm.
Qed.

Lemma data_pushed p l1 l2 h l x r : data_ok p (l1 ++ Finished x :: l2) h l ->
  ring_ok r -> items r = items (done p) ++ [x] -> cap r = cap (done p) -> count r = S (count (done p)) ->
  data_ok (set_done r p) (l1 ++ Signalling :: l2) h l.
Proof.
  intros [Hw Hd Hcap Hfly Hex Hf Hst Hwk] Hr Hi Hc Hn. rewrite running_app, finished_app in *. cbn in *. rewrite ?length_app in *. cbn in *.
  split; rewrite ?running_app, ?finished_app; cbn; rewrite ?length_app; cbn; try done; try lia; try congruence.
  - intros Hl. specialize (Hex Hl). lia.
  - rewrite Hi. perm.
Qed.

(** Workers that hold no item do not matter. *)
Lemma data_same p p' l1 w w' l2 h l : data_ok p (l1 ++ w :: l2) h l -> running [w] = running [w'] -> finished [w] = finished [w'] ->
  work p' = work p -> done p' = done p -> inflight p' = inflight p -> data_ok p' (l1 ++ w' :: l2) h l.
Proof.
  intros [Hw Hd Hcap Hfly Hex Hf Hst Hwk] H1 H2 H3 H4 H5. rewrite running_app, finished_app, H1, H2 in *.
  split; rewrite ?running_app, ?finished_app, ?H3, ?H4, ?H5; done.
Qed.

Lemma worker_inv i s : inv s -> worker_step i s <> Fault /\ forall s', worker_step i s = Next s' -> inv s'.
Proof.
  intros [Hdt Hc Ht]. unfold worker_step.
  destruct (workers s !! i) as [w|] eqn:Ew; [|done]. destruct (worker_split _ _ _ Ew) as (l1 & l2 & Heq & Hupd).
  pose proof (fun H => not_late _ _ _ w Ht (list_elem_of_lookup_2 _ _ _ Ew) H) as Hl. rewrite Heq in Hdt, Ht.
  pose proof (t_workers _ _ _ Ht) as Hall. apply Forall_app in Hall as [_ Hall]. apply Forall_cons in Hall as [Hok _].
  destruct w as [| |x|x| |]; try (by split); rewrite Hl in Hok by done.
  - unfold worker_locked. destruct (shutdown (pool s)) eqn:Esd; [|destruct (Nat.eqb_spec (count (work (pool s))) 0) as [E0|E0]].
    + split; [done|]. intros s' [= <-]. split; cbn; [|done|]; rewrite Hupd; [by eapply data_same|].
      eapply threads_move; [done..| | |]; [by rewrite Esd, Hl|by left|by eauto 6].
    + split; [done|]. intros s' [= <-]. split; cbn; [|done|]; rewrite Hupd; [by eapply data_same|].
      eapply threads_move; [done..| | |]; [by rewrite Esd, Hl|by right|by eauto 6].
    + destruct (pop_ok _ (d_work _ _ _ _ Hdt) ltac:(lia)) as (x & r & -> & Hr & Hi & Hcr & Hn). rewrite bind_Some_l.
      split; [done|]. intros s' [= <-]. split; cbn; [| |]; rewrite ?Hupd; [by apply data_start; auto|by destruct (loop s); specialize (Hl ltac:(done))|].
      eapply threads_move; [done..| | |]; [by rewrite Esd, Hl|by left|by eauto 6].
  - split; [done|]. intros s' [= <-]. split; cbn; [|done|]; rewrite Hupd; [by apply data_worked|].
    eapply threads_move; [done..| | |]; [rewrite Hl by done; unfold worker_ok; by case_match|by left|by eauto 6].
  - destruct (push_ok (done (pool s)) x (d_done _ _ _ _ Hdt)) as (r & -> & Hr & Hi & Hcr & Hn).
    { pose proof (d_fly _ _ _ _ Hdt) as Hf. rewrite finished_app in Hf. cbn in Hf. rewrite !length_app in Hf. cbn in Hf. lia. }
    split; [done|]. intros s' [= <-]. split; cbn; [| |]; rewrite ?Hupd; [by eapply data_pushed; eauto|by destruct (loop s); specialize (Hl ltac:(done))|].
    eapply threads_move; [done..| | |]; [rewrite Hl by done; unfold worker_ok; by case_match|by left|by auto].
  - split; [done|]. intros s' [= <-]. split; cbn; [| |]; rewrite ?Hupd; [by eapply data_same|by destruct (loop s); specialize (Hl ltac:(done))|].
    eapply threads_move; [done..| | |]; [rewrite Hl by done; unfold worker_ok; by case_match|by left|by auto].
Qed.

(** Changes that concern neither the rings nor the workers. *)
Lemma data_eq p p' ws h l l' : data_ok p ws h l -> work p' = work p -> done p' = done p -> inflight p' = inflight p ->
  (late l' = false -> late l = false) -> data_ok p' ws h l'.
Proof.
  intros [Hw Hd Hcap Hfly Hex (dr & Hf & Hcn & Hdr) Hst Hwk] H3 H4 H5 Hl. split; rewrite ?H3, ?H4, ?H5; auto. exists dr. auto.
Qed.

Lemma threads_eq p p' ws l l' : threads_ok p ws l -> work p' = work p -> done p' = done p -> shutdown p' = shutdown p ->
  late l' = late l -> (l' = Idle -> (0 < count (done p))%nat -> signalled p' = true \/ Signalling ∈ ws) -> threads_ok p' ws l'.
Proof. intros [Hsome Hall Hwake Hsig] Hw Hd Hs Hl Hi. split; rewrite ?Hw, ?Hd, ?Hs, ?Hl; auto. Qed.

(** Fewer finished items. *)
Lemma threads_done p p' ws l l' : threads_ok p ws l -> work p' = work p -> shutdown p' = shutdown p -> late l' = late l -> l' <> Idle ->
  threads_ok p' ws l'.
Proof. intros [Hsome Hall Hwake Hsig] Hw Hs Hl Hi. split; rewrite ?Hw, ?Hs, ?Hl; done. Qed.

Lemma data_delivered p ws h l l' x r n : data_ok p ws h l -> late l' = late l ->
  ring_ok r -> items (done p) = x :: items r -> cap r = cap (done p) -> count (done p) = S (count r) ->
  n = (if late l then inflight p else inflight p - 1)%nat ->
  data_ok (set_inflight n (set_done r p)) ws (deliver x h) l'.
Proof.
  intros [Hw Hd Hcap Hfly Hex (dr & Hf & Hcn & Hdr) Hst Hwk] Hl Hr Hi Hc Hn ->. split; cbn; try done; try congruence.
  - destruct (late l) eqn:El; [lia|]. specialize (Hex eq_refl). lia.
  - intros H. rewrite Hl in H. rewrite H in *. specialize (Hex eq_refl). lia.
  - exists dr. rewrite Hl. done.
  - rewrite Hi in Hwk. perm.
Qed.

Lemma data_dropped p ws h l x r : data_ok p ws h DrainWork -> late l = true ->
  ring_ok r -> items (work p) = x :: items r -> cap r = cap (work p) -> count (work p) = S (count r) ->
  data_ok (set_work r p) ws
    (mkHist (submitted h) (started h) (worked h) (delivered h) (cancelled h ++ filter has_cancel [x])) l.
Proof.
  intros [Hw Hd Hcap Hfly Hex (dr & Hf & Hcn & Hdr) Hst Hwk] Hl Hr Hi Hc Hn. split; cbn; try done; try lia; try congruence.
  exists (dr ++ [x]). rewrite Hl, filter_app, Hcn, Hf, Hi, <- !app_assoc. done.
Qed.

Lemma threads_exited p p' ws l l' : threads_ok p ws l -> late l = true -> late l' = true -> shutdown p' = true -> threads_ok p' ws l'.
Proof.
  intros [Hsome Hall Hwake Hsig] Hl Hl' Hs. split; rewrite ?Hs; try done; [by rewrite Hl, Hl' in *|by intros ->].
Qed.

Lemma awake_ok ws : running (awake <$> ws) = running ws /\ finished (awake <$> ws) = finished ws /\
  Forall (fun w => w <> Waiting) (awake <$> ws).
Proof.
  induction ws as [|w ws (IH1 & IH2 & IH3)]; [by repeat split|]. unfold running, finished in *. cbn.
  split_and!; [destruct w; cbn; by rewrite IH1|destruct w; cbn; by rewrite IH2|]. constructor; [by destruct w|done].
Qed.

Lemma free_inv s : inv s -> caller_runs (loop s) = true -> inv (kl_thread_pool_free s).
Proof.
  intros [Hd Hc Ht] Hl. unfold kl_thread_pool_free. destruct (destroying (pool s)) eqn:Ed; [by split|].
  destruct (dispatching (pool s)) eqn:Edp.
  - destruct (loop s) as [| |x| | | | | |] eqn:El; cbn in Hc, Hl; destruct_and? Hc; try congruence.
    split; cbn; rewrite ?El; [by eapply data_eq|done|by eapply threads_eq].
  - destruct (loop s) as [| |x| | | | | |] eqn:El; cbn in Hc, Hl; destruct_and? Hc; try congruence.
    split; cbn; [by eapply data_eq|done|by eapply threads_eq].
Qed.

(** The callback that is called exactly for items with a [cancel_fn]. *)
Lemma cancel_call x : filter has_cancel [x] = match cancel_fn x with Some _ => [x] | None => [] end.
Proof.
  rewrite filter_cons, filter_nil. destruct (cancel_fn x) as [c|] eqn:E.
  - rewrite decide_True; [done|]. unfold has_cancel. by rewrite E.
  - rewrite decide_False; [done|]. unfold has_cancel. rewrite E. auto.
Qed.

Lemma loop_inv s : inv s -> loop_step s <> Fault /\ forall s', loop_step s = Next s' -> inv s'.
Proof.
  intros [Hd Hc Ht]. unfold loop_step. destruct (loop s) as [| |x| | | | |fin|] eqn:El; try (by split).
  - destruct (Nat.ltb_spec 0 (count (done (pool s)))) as [Hn|Hn].
    + destruct (pop_ok _ (d_done _ _ _ _ Hd) ltac:(lia)) as (x & r & -> & Hr & Hi & Hcr & Hk). split; [done|]. intros s' [= <-].
      cbn in Hc. destruct Hc as (? & Hfr & ? & ? & ?). split; cbn; [by eapply data_delivered| |by eapply threads_done].
      by rewrite Hfr.
    + split; [done|]. intros s' [= <-]. split; cbn; [by eapply data_eq|by cbn in *; destruct_and? Hc|].
      eapply threads_eq; try done. cbn. lia.
  - destruct (free_requested (pool s)) eqn:Ef; (split; [done|]); intros s' [= <-].
    + unfold kl_thread_pool_free. cbn. cbn in Hc. destruct Hc as (? & Hds & ? & ?). rewrite Hds.
      split; cbn; [by eapply data_eq|done|by eapply threads_eq].
    + cbn in Hc. rewrite Ef in Hc. split; cbn; [by eapply data_eq|tauto|by eapply threads_eq].
  - split; [done|]. intros s' [= <-]. destruct (awake_ok (workers s)) as (H1 & H2 & H3). cbn in Hc. split; cbn; [|tauto|].
    + destruct Hd as [Hw Hd Hcap Hfly Hex Hf Hst Hwk]. by split; rewrite ?H1, ?H2.
    + destruct Ht as [Hsome _ _ _]. split; cbn; try done; [by rewrite length_fmap].
  - destruct (forallb is_exited (workers s)) eqn:E; (split; [done|]); [|done]. intros s' [= <-]. cbn in Hc.
    split; cbn; [by eapply data_eq|tauto|]. destruct Ht as [Hsome _ _ _]. destruct Hc as [_ Hsd]. split; cbn; rewrite ?Hsd; try done.
    apply Forall_forall. intros w Hw. rewrite forallb_forall in E. apply list_elem_of_In, E in Hw. by destruct w.
  - cbn in Hc. destruct_and? Hc. destruct (Nat.ltb_spec 0 (count (done (pool s)))) as [Hn|Hn].
    + destruct (pop_ok _ (d_done _ _ _ _ Hd) ltac:(lia)) as (x & r & -> & Hr & Hi & Hcr & Hk). split; [done|]. intros s' [= <-].
      split; cbn; [|done|by eapply threads_exited].
      by eapply (data_delivered (pool s) _ _ DrainDone (TearCallback false) x r (inflight (pool s))).
    + split; [done|]. intros s' [= <-]. split; cbn; [by eapply data_eq|split_and!; try done; lia|by eapply threads_exited].
  - cbn in Hc. destruct_and? Hc. destruct (Nat.ltb_spec 0 (count (work (pool s)))) as [Hn|Hn].
    + destruct (pop_ok _ (d_work _ _ _ _ Hd) ltac:(lia)) as (x & r & -> & Hr & Hi & Hcr & Hk).
      pose proof (fun l H => data_dropped _ _ _ l _ _ Hd H Hr Hi Hcr Hk) as Hdd. rewrite cancel_call in Hdd.
      destruct (cancel_fn x); (split; [done|]); intros s' [= <-]; (split; cbn; [|done|by eapply threads_exited]).
      * by apply Hdd.
      * specialize (Hdd DrainWork eq_refl). rewrite app_nil_r in Hdd. by destruct (hist s).
    + split; [done|]. intros s' [= <-]. split; cbn; [by eapply data_eq|split_and!; try done; lia|by eapply threads_exited].
  - cbn in Hc. destruct_and? Hc. split; [done|]. intros s' [= <-].
    destruct fin; (split; cbn; [by eapply data_eq|by auto|by eapply threads_exited]).
Qed.

Lemma spurious_inv i s : inv s -> workers s !! i = Some Waiting ->
  inv (mkSt (pool s) (<[i := Ready]> (workers s)) (loop s) (hist s)).
Proof.
  intros [Hd Hc Ht] Ew. destruct (worker_split _ _ _ Ew) as (l1 & l2 & Heq & Hupd).
  pose proof (not_late _ _ _ _ Ht (list_elem_of_lookup_2 _ _ _ Ew) ltac:(done)) as Hl.
  split; cbn; [|done|]; rewrite Hupd; rewrite Heq in Hd, Ht; [by eapply data_same|].
  eapply threads_move; [done..| | |]; [rewrite Hl; unfold worker_ok; by case_match|by left|by eauto 6].
Qed.

Lemma tick_inv s : inv s -> loop s = Idle -> inv (thread_pool_on_pipe s).
Proof.
  intros [Hd Hc Ht] El. rewrite El in *. cbn in Hc. destruct Hc as (Hdp & ? & ? & ? & ?). unfold thread_pool_on_pipe. rewrite Hdp.
  split; cbn; [by eapply data_eq|done|by eapply threads_eq].
Qed.

(** A nested run of the event loop does not enter the pool again. *)
Lemma nested_same s : inv s -> watched (pool s) = true -> loop s <> Idle -> caller_runs (loop s) = true -> thread_pool_on_pipe s = s.
Proof.
  intros [_ Hc _] Hw Hl Hr. unfold thread_pool_on_pipe. destruct (loop s); cbn in *; try done; destruct_and? Hc; [|congruence].
  by rewrite H.
Qed.

Lemma signal_ok i ws ws' : cond_signal i ws = Some ws' -> (0 < length ws)%nat ->
  running ws' = running ws /\ finished ws' = finished ws /\ length ws' = length ws /\ Exists (fun w => w <> Waiting) ws' /\
  (forall w, w ∈ ws' -> w = Ready \/ w ∈ ws) /\ (Signalling ∈ ws -> Signalling ∈ ws').
Proof.
  unfold cond_signal. intros Hs Hn. destruct (existsb is_waiting ws) eqn:E.
  - destruct (ws !! i) as [[]|] eqn:Ew; try done. injection Hs as <-. destruct (worker_split _ _ _ Ew) as (l1 & l2 & -> & Hupd).
    rewrite Hupd, !running_app, !finished_app, !length_app. split_and!; try done.
    + apply Exists_app. right. by constructor.
    + intros w. rewrite !elem_of_app, !elem_of_cons. tauto.
    + rewrite !elem_of_app, !elem_of_cons. intros [?|[?|?]]; [auto|done|auto].
  - injection Hs as <-. split_and!; auto. destruct ws as [|w ws]; [cbn in Hn; lia|]. left. by destruct w.
Qed.

Lemma submit_inv x i s : inv s -> submit_step x i s <> Fault /\ forall s', submit_step x i s = Next s' -> inv s'.
Proof.
  intros [Hd Hc Ht]. unfold submit_step, kl_thread_pool_submit.
  destruct (work_fn x); [|cbn; split; [done|intros s' [= <-]; by split]].
  destruct (done_fn x); [|cbn; split; [done|intros s' [= <-]; by split]].
  destruct (shutdown (pool s) || free_requested (pool s) || (cap (done (pool s)) <=? inflight (pool s))%nat) eqn:E;
    [cbn; split; [done|intros s' [= <-]; by split]|].
  apply orb_false_iff in E as [E Ef]. apply orb_false_iff in E as [Esd Efr]. apply Nat.leb_gt in Ef.
  pose proof (d_fly _ _ _ _ Hd) as Hf. pose proof (d_cap _ _ _ _ Hd) as Hcp.
  destruct (push_ok (work (pool s)) x (d_work _ _ _ _ Hd) ltac:(lia)) as (r & -> & Hr & Hi & Hcr & Hk). rewrite bind_Some_l.
  change (0 =? 0) with true. cbn iota. destruct (cond_signal i (workers s)) as [ws|] eqn:Es; (split; [done|]); [|done]. intros s' [= <-].
  destruct (signal_ok _ _ _ Es (t_some _ _ _ Ht)) as (H1 & H2 & H3 & H4 & H5 & H6).
  assert (Hl : late (loop s) = false) by (destruct (loop s); cbn in *; destruct_and? Hc; congruence || done).
  split; cbn; [|by destruct (loop s)|].
  - destruct Hd as [Hw Hd _ Hfly Hex (dr & Hfi & Hcn & Hdr) Hst Hwk]. specialize (Hex Hl).
    split; rewrite ?H1, ?H2; cbn; try done; try lia; try congruence.
    exists dr. rewrite Hi, Hfi, <- !app_assoc. done.
  - destruct Ht as [Hsome Hall Hwake Hsig]. split; cbn; [lia| |done|].
    + apply Forall_forall. intros w Hw. destruct (H5 w Hw) as [->|Hin]; [|by apply (proj1 (Forall_forall _ _) Hall)].
      by rewrite Esd, Hl.
    + intros ? ?. destruct (Hsig ltac:(done) ltac:(done)); auto.
Qed.

Lemma step_inv l s : inv s -> step l s <> Fault /\ forall s', step l s = Next s' -> inv s'.
Proof.
  intros Hi. destruct l; cbn [step].
  - by apply worker_inv.
  - destruct (workers s !! i) as [[]|] eqn:E; split; try done. intros s' [= <-]. by apply spurious_inv.
  - destruct (loop s) eqn:E; try done. case_if; [|done]. split; [done|]. intros s' [= <-]. by apply tick_inv.
  - by apply loop_inv.
  - case_if; [|done]. by apply submit_inv.
  - case_if; [|done]. split; [done|]. intros s' [= <-]. by apply free_inv.
  - case_if; [|done]. breflect. destruct (loop s) eqn:E; try done; (split; [done|]); intros s' [= <-]; rewrite nested_same by (by rewrite ?E); done.
Qed.

Lemma run_inv ls s : inv s -> run ls s <> Fault /\ forall s', run ls s = Next s' -> inv s'.
Proof.
  revert s. induction ls as [|l ls IH]; intros s Hi; cbn; [split; [done|]; by intros s' [= <-]|].
  destruct (step_inv l s Hi) as [Hf Hn]. destruct (step l s) as [s1| |]; [|done|done]. by apply IH, Hn.
Qed.

(** A created pool, with its workers at the start of their loop. *)
Lemma create_inv granted started blank w c n p k :
  1 <= n -> kl_thread_pool_create granted started blank w c n = Created p k -> inv (start p k).
Proof.
  intros Hn. unfold kl_thread_pool_create, pool_sizes. destruct ((_ <? _) || (_ <? _)) eqn:E; [done|].
  destruct (acquire granted acquisitions []) as [held [r|]]; [done|]. cbv zeta.
  set (nw := if _ =? 0 then n else _) in *. set (qc := if 0 <? c then c else _) in *.
  assert (Hq : 0 < qc) by (subst qc; unfold KL_TP_DEFAULT_CAPACITY; destruct (Z.ltb_spec 0 c); lia).
  assert (Hw : 0 < nw) by (subst nw; destruct (Z.ltb_spec 0 w); repeat case_test; lia).
  destruct (Nat.eqb_spec (Nat.min (started (Z.to_nat nw)) (Z.to_nat nw)) 0); [done|]. intros [= <- <-].
  assert (Hr : ring_ok (empty_ring blank (Z.to_nat (qc + nw)))).
  { split; cbn; [by rewrite length_replicate|lia|lia|]. by rewrite Nat.Div0.mod_0_l. }
  assert (Hrun : forall m, running (replicate m Ready) = [] /\ finished (replicate m Ready) = []).
  { induction m as [|m [IH1 IH2]]; [done|]. unfold running, finished in *. cbn. done. }
  destruct (Hrun (Nat.min (started (Z.to_nat nw)) (Z.to_nat nw))) as [H1 H2].
  split; cbn; [|done|].
  - split; cbn; rewrite ?H1, ?H2; try done; cbn; try lia. exists []. split; [|done]. done.
  - split; cbn; [rewrite length_replicate; lia|by apply Forall_replicate|lia|lia].
Qed.

(** ** Progress *)

(** Steps the threads take by themselves; [Loop] includes the return of a callback. *)
Definition internal (l : label) : bool := match l with Worker _ | Tick | Loop => true | _ => false end.
Definition spurious (l : label) : bool := match l with Spurious _ => true | _ => false end.

Definition worker_weight (w : wpc) : nat :=
  match w with Ready => 1 | Waiting => 0 | Running _ => 8 | Finished _ => 7 | Signalling => 4 | Exited => 0 end.

Definition loop_weight (fr : bool) (n : nat) (l : lpc) : nat :=
  match l with
  | Idle => 0 | Dispatch => 1
  | Callback _ => 2 + (if fr then n + 6 else 0)
  | Shutdown => n + 5 | Join => 4 | DrainDone => 3 | DrainWork => 2
  | TearCallback fin => if fin then 3 else 4
  | Freed => 0
  end.

Definition weights (ws : list wpc) : nat := sum_list (worker_weight <$> ws).
#[local] Arguments weights : simpl never.

(** How many steps are left, at most. *)
Definition measure (s : St) : nat :=
  8 * count (work (pool s)) + 2 * count (done (pool s)) + (if signalled (pool s) then 2 else 0) + weights (workers s) +
  loop_weight (free_requested (pool s)) (length (workers s)) (loop s).

Lemma weights_app l1 w l2 : weights (l1 ++ w :: l2) = (weights l1 + worker_weight w + weights l2)%nat.
Proof. unfold weights. rewrite fmap_app. induction (worker_weight <$> l1); cbn in *; lia. Qed.

Lemma weights_awake ws : (weights (awake <$> ws) <= weights ws + length ws)%nat.
Proof. unfold weights. induction ws as [|w ws IH]; cbn; [lia|]. destruct w; cbn; lia. Qed.

Lemma worker_measure i s s' : inv s -> worker_step i s = Next s' -> (measure s' < measure s)%nat.
Proof.
  intros [Hd _ _]. unfold worker_step. destruct (workers s !! i) as [w|] eqn:Ew; [|done].
  destruct (worker_split _ _ _ Ew) as (l1 & l2 & Heq & Hupd). unfold measure.
  assert (Hlen : forall w', length (l1 ++ w' :: l2) = length (workers s)) by (intros w'; rewrite Heq, !length_app; done).
  destruct w as [| |x|x| |]; try done.
  - unfold worker_locked. destruct (shutdown (pool s)); [|destruct (Nat.eqb_spec (count (work (pool s))) 0) as [E0|E0]].
    + intros [= <-]. cbn. rewrite Hupd, Hlen, Heq, !weights_app. cbn. lia.
    + intros [= <-]. cbn. rewrite Hupd, Hlen, Heq, !weights_app. cbn. lia.
    + destruct (pop_ok _ (d_work _ _ _ _ Hd) ltac:(lia)) as (x & r & -> & Hr & Hi & Hcr & Hn). rewrite bind_Some_l.
      intros [= <-]. cbn. rewrite Hupd, Hlen, Heq, !weights_app. cbn. lia.
  - intros [= <-]. cbn. rewrite Hupd, Hlen, Heq, !weights_app. cbn. lia.
  - unfold ring_push. case_if; [|done]. intros [= <-]. cbn. rewrite Hupd, Hlen, Heq, !weights_app. cbn. lia.
  - intros [= <-]. cbn. rewrite Hupd, Hlen, Heq, !weights_app. cbn. destruct (signalled (pool s)); lia.
Qed.

Lemma loop_measure s s' : inv s -> loop_step s = Next s' -> (measure s' < measure s)%nat.
Proof.
  intros [Hd Hc _]. unfold loop_step, measure. destruct (loop s) as [| |x| | | | |fin|] eqn:El; try done.
  - destruct (Nat.ltb_spec 0 (count (done (pool s)))) as [Hn|Hn]; [|intros [= <-]; cbn; lia].
    destruct (pop_ok _ (d_done _ _ _ _ Hd) ltac:(lia)) as (x & r & -> & Hr & Hi & Hcr & Hk). intros [= <-]. cbn in *.
    destruct Hc as (_ & -> & _). lia.
  - unfold kl_thread_pool_free. cbn in *. destruct Hc as (_ & Hds & _). rewrite Hds. destruct (free_requested (pool s)); intros [= <-]; cbn; lia.
  - intros [= <-]. cbn. pose proof (weights_awake (workers s)). lia.
  - case_if; [|done]. intros [= <-]. cbn. lia.
  - destruct (Nat.ltb_spec 0 (count (done (pool s)))) as [Hn|Hn]; [|intros [= <-]; cbn; lia].
    destruct (pop_ok _ (d_done _ _ _ _ Hd) ltac:(lia)) as (x & r & -> & Hr & Hi & Hcr & Hk). intros [= <-]. cbn. lia.
  - destruct (Nat.ltb_spec 0 (count (work (pool s)))) as [Hn|Hn]; [|intros [= <-]; cbn; lia].
    destruct (pop_ok _ (d_work _ _ _ _ Hd) ltac:(lia)) as (x & r & -> & Hr & Hi & Hcr & Hk).
    destruct (cancel_fn x); intros [= <-]; cbn; lia.
  - intros [= <-]. destruct fin; cbn; lia.
Qed.

Lemma step_measure l s s' : inv s -> internal l = true -> step l s = Next s' -> (measure s' < measure s)%nat.
Proof.
  intros Hi Hl. destruct l; try done; cbn [step].
  - by apply worker_measure.
  - destruct (loop s) eqn:El; try done. destruct (watched (pool s) && signalled (pool s)) eqn:E; [|done]. intros [= <-].
    destruct Hi as [_ Hc _]. rewrite El in Hc. destruct Hc as (Hdp & _). breflect. unfold thread_pool_on_pipe, measure.
    rewrite Hdp, El. cbn. rewrite H0. lia.
  - by apply loop_measure.
Qed.

Lemma spurious_measure i s s' : step (Spurious i) s = Next s' -> measure s' = S (measure s).
Proof.
  cbn [step]. destruct (workers s !! i) as [[]|] eqn:Ew; try done. intros [= <-].
  destruct (worker_split _ _ _ Ew) as (l1 & l2 & Heq & Hupd). unfold measure. cbn. rewrite Hupd, Heq, !weights_app, !length_app. cbn. lia.
Qed.

Lemma run_measure ls s s' : inv s -> Forall (fun l => internal l || spurious l = true) ls -> run ls s = Next s' ->
  (length ls + measure s' <= measure s + 2 * length (filter (fun l => spurious l = true) ls))%nat.
Proof.
  revert s. induction ls as [|l ls IH]; intros s Hi Hls; cbn [run]; [intros [= <-]; cbn; lia|].
  apply Forall_cons in Hls as [Hl Hls]. destruct (step_inv l s Hi) as [_ Hn].
  destruct (step l s) as [s1| |] eqn:Es; [|done|done]. intros Hr. specialize (IH s1 (Hn _ eq_refl) Hls Hr).
  rewrite filter_cons. cbn [length]. destruct (spurious l) eqn:Esp; cbn [length].
  - rewrite decide_True by done. cbn [length]. destruct l; try done. apply spurious_measure in Es. lia.
  - rewrite decide_False by done. rewrite orb_false_r in Hl. apply (step_measure l) in Es; [lia|done|done].
Qed.

Definition stuck (s : St) : Prop := forall l, internal l = true -> step l s = Blocked.

Lemma no_items ws : Forall (fun w => w = Waiting \/ w = Exited) ws -> running ws = [] /\ finished ws = [].
Proof.
  induction 1 as [|w ws Hw _ (IH1 & IH2)]; [done|]. unfold running, finished in *. cbn. by destruct Hw as [-> | ->].
Qed.

(** Only waiting and exited workers cannot move. *)
Lemma stuck_workers s : inv s -> stuck s -> Forall (fun w => w = Waiting \/ w = Exited) (workers s).
Proof.
  intros Hi Hs. apply Forall_forall. intros w Hw. apply list_elem_of_lookup in Hw as [i Hw].
  specialize (Hs (Worker i) eq_refl). destruct (step_inv (Worker i) s Hi) as [Hf _]. cbn [step] in *. unfold worker_step in *. rewrite Hw in *.
  destruct w; auto; exfalso; [|done| |done].
  - destruct (worker_locked (pool s)) as [[p []]|]; done.
  - destruct (ring_push (done (pool s)) x); done.
Qed.

(** When nothing can move, the loop is outside of the pool or has freed it. *)
Lemma stuck_loop s : inv s -> stuck s -> loop s = Idle \/ loop s = Freed.
Proof.
  intros Hi Hs. pose proof (stuck_workers s Hi Hs) as Hw. specialize (Hs Loop eq_refl). destruct (step_inv Loop s Hi) as [Hf _].
  cbn [step] in *. unfold loop_step in *. destruct Hi as [_ Hc Ht]. destruct (loop s) eqn:El; auto; exfalso; try done.
  - case_if; [|done]. by destruct (ring_pop (done (pool s))) as [[]|].
  - by destruct (free_requested (pool s)).
  - destruct (forallb is_exited (workers s)) eqn:E; [done|]. enough (forallb is_exited (workers s) = true) by congruence.
    apply forallb_forall. intros w Hin. apply list_elem_of_In in Hin. destruct Hc as [_ Hsd].
    pose proof (proj1 (Forall_forall _ _) (t_workers _ _ _ Ht) w Hin) as Hok. rewrite Hsd in Hok. cbn in Hok.
    destruct (proj1 (Forall_forall _ _) Hw w Hin) as [->| ->]; done.
  - case_if; [|done]. by destruct (ring_pop (done (pool s))) as [[]|].
  - case_if; [|done]. destruct (ring_pop (work (pool s))) as [[x r]|]; [|done]. by destruct (cancel_fn x).
Qed.

Lemma items_nil r : ring_ok r -> count r = 0%nat -> items r = [].
Proof. intros Hr Hc. pose proof (length_items r Hr) as H. rewrite Hc in H. by apply length_zero_iff_nil. Qed.

Lemma stuck_idle s : inv s -> stuck s -> loop s = Idle ->
  started (hist s) = submitted (hist s) /\ delivered (hist s) ≡ₚ submitted (hist s) /\ worked (hist s) ≡ₚ submitted (hist s) /\
  inflight (pool s) = 0%nat.
Proof.
  intros Hi Hs El. pose proof (stuck_workers s Hi Hs) as Hw. destruct Hi as [Hd Hc Ht]. rewrite El in *.
  destruct (no_items _ Hw) as [Hr Hf]. destruct Hc as (_ & _ & _ & Hsd & Hwt).
  assert (Hcw : count (work (pool s)) = 0%nat).
  { destruct (decide (count (work (pool s)) = 0%nat)) as [|Hne]; [done|exfalso].
    pose proof (t_wake _ _ _ Ht Hsd ltac:(lia)) as He. apply Exists_exists in He as (w & Hin & Hne').
    destruct (proj1 (Forall_forall _ _) Hw w Hin) as [->| ->]; [done|].
    pose proof (proj1 (Forall_forall _ _) (t_workers _ _ _ Ht) _ Hin) as Hok. by rewrite Hsd in Hok. }
  assert (Hcd : count (done (pool s)) = 0%nat).
  { destruct (decide (count (done (pool s)) = 0%nat)) as [|Hne]; [done|exfalso].
    destruct (t_signal _ _ _ Ht eq_refl ltac:(lia)) as [Hsg|Hin].
    - specialize (Hs Tick eq_refl). cbn in Hs. by rewrite El, Hwt, Hsg in Hs.
    - by destruct (proj1 (Forall_forall _ _) Hw _ Hin). }
  destruct Hd as [Hwr Hdr _ _ Hex (dr & Hfi & _ & Hdp) Hst Hwk]. specialize (Hex eq_refl). rewrite (Hdp eq_refl) in Hfi.
  rewrite Hr, Hf in *. cbn in *. rewrite (items_nil _ Hwr Hcw), app_nil_r in Hfi. rewrite (items_nil _ Hdr Hcd) in Hwk. cbn in Hwk.
  rewrite Hfi. split_and!; [done|by rewrite <- Hwk|done|lia].
Qed.

Lemma stuck_freed s : inv s -> loop s = Freed -> delivered (hist s) ≡ₚ started (hist s) /\
  exists dropped, submitted (hist s) = started (hist s) ++ dropped /\ cancelled (hist s) = filter has_cancel dropped.
Proof.
  intros [Hd Hc Ht] El. rewrite El in *. destruct Hc as (_ & _ & _ & Hcd & Hcw).
  destruct (no_items (workers s)) as [Hr Hf].
  { apply (Forall_impl _ _ _ (t_workers _ _ _ Ht)). intros w Hw. by right. }
  destruct Hd as [Hwr Hdr _ _ _ (dr & Hfi & Hcn & _) Hst Hwk].
  rewrite Hr, Hf, (items_nil _ Hdr Hcd) in *. rewrite (items_nil _ Hwr Hcw), app_nil_r in Hfi. cbn in *. split; [by rewrite Hst|by exists dr].
Qed.

(** What a failed creation gives back. *)
Lemma acquire_all_spec granted rs held : forall held' refused, acquire granted rs held = (held', refused) ->
  exists got, held' = rev got ++ held /\ Forall (fun r => granted r = true) got /\
    match refused with None => rs = got | Some r => exists rest, rs = got ++ r :: rest /\ granted r = false end.
Proof.
  revert held. induction rs as [|r rs IH]; intros held held' refused H; cbn in H; [injection H as <- <-; by exists []|].
  destruct (granted r) eqn:E.
  - destruct (IH _ _ _ H) as (got & -> & Hg & Hr). exists (r :: got). split_and!; [cbn; by rewrite <- app_assoc|by constructor|].
    destruct refused as [r'|]; [|by subst]. destruct Hr as (rest & -> & ?). by exists rest.
  - injection H as <- <-. exists []. split_and!; [done|done|]. by exists rs.
Qed.

Lemma create_releases granted threads blank w c n e rel :
  kl_thread_pool_create granted threads blank w c n = Failed e rel ->
  exists got rest, acquisitions = got ++ rest /\ rel = rev got /\ Forall (fun r => granted r = true) got.
Proof.
  unfold kl_thread_pool_create. destruct (pool_sizes w c n) as [[nw dc]|]; [|intros [= _ <-]; by exists [], acquisitions].
  destruct (acquire granted acquisitions []) as [held refused] eqn:E. destruct (acquire_all_spec _ _ _ _ _ E) as (got & -> & Hg & Hr).
  rewrite app_nil_r. destruct refused as [r|].
  - destruct Hr as (rest & Hr & _). intros [= _ <-]. by exists got, (r :: rest).
  - case_if; [|done]. intros [= _ <-]. exists got, []. by rewrite app_nil_r.
Qed.

(** ** Main theorems *)

Lemma inflight_exact s : inv s -> late (loop s) = false ->
  inflight (pool s) = (length (submitted (hist s)) - length (delivered (hist s)))%nat.
Proof.
  intros [[Hw Hd _ _ Hex (dr & Hf & _ & Hdr) Hst Hwk] _ _] Hl. rewrite (Hdr Hl) in Hf. specialize (Hex Hl).
  apply Permutation_length in Hst, Hwk. rewrite Hf. rewrite ?length_app in *. cbn.
  pose proof (length_items _ Hw). pose proof (length_items _ Hd). lia.
Qed.

Lemma submit_accepts s x : inv s -> caller_runs (loop s) = true -> work_fn x <> None -> done_fn x <> None ->
  exists rc p, kl_thread_pool_submit (pool s) x = Some (rc, p) /\
    (rc = 0 <-> late (loop s) = false /\ free_requested (pool s) = false /\ (inflight (pool s) < cap (done (pool s)))%nat).
Proof.
  intros [Hd Hc Ht] Hr Hwf Hdf. unfold kl_thread_pool_submit. destruct (work_fn x); [|done]. destruct (done_fn x); [|done].
  assert (Hsd : shutdown (pool s) = late (loop s)) by (destruct (loop s); cbn in *; destruct_and? Hc; done).
  rewrite Hsd. destruct (late (loop s)); [eexists _, _; split; [done|split; [done|by intros (? & _)]]|].
  destruct (free_requested (pool s)); [eexists _, _; split; [done|split; [done|by intros (_ & ? & _)]]|]. cbn [orb].
  destruct (Nat.leb_spec (cap (done (pool s))) (inflight (pool s))) as [H|H].
  - eexists _, _. split; [done|]. split; [done|]. lia.
  - pose proof (d_fly _ _ _ _ Hd) as Hf. pose proof (d_cap _ _ _ _ Hd) as Hcp.
    destruct (push_ok (work (pool s)) x (d_work _ _ _ _ Hd) ltac:(lia)) as (r & -> & _). eexists _, _. by split_and!.
Qed.

(** C13.  The thread pool never loses, repeats or reorders work.  However the threads interleave, with
    any choice of waiters to wake, spurious wakeups, and callbacks that submit, free the pool or run
    the loop again: no access leaves a queue; workers take the accepted items in the order of their
    submission; from then on each item is in exactly one place (being run, about to be queued, in the
    done queue, reported); the items a teardown drops are those never started, and exactly those with
    a [cancel_fn] are cancelled; at most as many items as the queues hold are in flight; and a
    submission is accepted exactly while fewer are and no teardown was requested. *)
Theorem pool_items_once (granted : resource -> bool) (threads : nat -> nat) (blank : KlWorkItem) (w c n : Z)
    (p : KlThreadPool) (k : nat) (ls : list label)
    (Hn : 1 <= n) (Hc : kl_thread_pool_create granted threads blank w c n = Created p k) :
  run ls (start p k) <> Fault /\
  forall s, run ls (start p k) = Next s ->
    (exists dropped, submitted (hist s) = started (hist s) ++ dropped ++ items (work (pool s)) /\
       cancelled (hist s) = filter has_cancel dropped) /\
    started (hist s) ≡ₚ running (workers s) ++ worked (hist s) /\
    worked (hist s) ≡ₚ finished (workers s) ++ items (done (pool s)) ++ delivered (hist s) /\
    (late (loop s) = false -> inflight (pool s) = (length (submitted (hist s)) - length (delivered (hist s)))%nat) /\
    (inflight (pool s) <= cap (done (pool s)))%nat /\
    forall x, caller_runs (loop s) = true -> work_fn x <> None -> done_fn x <> None ->
      exists rc p', kl_thread_pool_submit (pool s) x = Some (rc, p') /\
        (rc = 0 <-> late (loop s) = false /\ free_requested (pool s) = false /\ (inflight (pool s) < cap (done (pool s)))%nat).
Proof.
  destruct (run_inv ls _ (create_inv _ _ _ _ _ _ _ _ Hn Hc)) as [Hf Hi]. split; [done|]. intros s Hs. specialize (Hi s Hs).
  pose proof (inv_data _ Hi) as Hd. split_and!.
  - destruct (d_fifo _ _ _ _ Hd) as (dr & ? & ? & _). by exists dr.
  - apply (d_started _ _ _ _ Hd).
  - apply (d_worked _ _ _ _ Hd).
  - by apply inflight_exact.
  - apply (d_fly _ _ _ _ Hd).
  - intros x. by apply submit_accepts.
Qed.

(** C17.  The thread pool makes progress.  From every state the pool can be in, with work functions and
    callbacks that return: the threads take a bounded number of steps before they need the caller
    again (each spurious wakeup costs one more round), and they never stop early.  When no thread
    can move, either the caller has control and every item accepted has been run and reported, or
    the pool has been freed, every item started was reported, and every other was cancelled. *)
Theorem pool_delivers (granted : resource -> bool) (threads : nat -> nat) (blank : KlWorkItem) (w c n : Z)
    (p : KlThreadPool) (k : nat) (ls ls' : list label) (s s' : St)
    (Hn : 1 <= n) (Hc : kl_thread_pool_create granted threads blank w c n = Created p k)
    (Hs : run ls (start p k) = Next s)
    (Hls : Forall (fun l => internal l || spurious l = true) ls') (Hs' : run ls' s = Next s') :
  (length ls' <= measure s + 2 * length (filter (fun l => spurious l = true) ls'))%nat /\
  (stuck s' ->
    (loop s' = Idle /\ started (hist s') = submitted (hist s') /\ worked (hist s') ≡ₚ submitted (hist s') /\
       delivered (hist s') ≡ₚ submitted (hist s') /\ inflight (pool s') = 0%nat) \/
    (loop s' = Freed /\ delivered (hist s') ≡ₚ started (hist s') /\
       exists dropped, submitted (hist s') = started (hist s') ++ dropped /\ cancelled (hist s') = filter has_cancel dropped)).
Proof.
  pose proof (proj2 (run_inv ls _ (create_inv _ _ _ _ _ _ _ _ Hn Hc)) s Hs) as Hi.
  pose proof (proj2 (run_inv ls' s Hi) s' Hs') as Hi'. split.
  - pose proof (run_measure _ _ _ Hi Hls Hs'). lia.
  - intros Hst. destruct (stuck_loop s' Hi' Hst) as [El|El].
    + left. destruct (stuck_idle s' Hi' Hst El) as (? & ? & ? & ?). by split_and!.
    + right. destruct (stuck_freed s' Hi' El) as (? & ?). by split_and!.
Qed.

(** Two workers; the pool is freed from the callback of the first of three items. *)
Definition sample_item (i : Z) : KlWorkItem := mkItem (Some 1) (Some 2) (if i =? 3 then None else Some 3) i.

Definition sample_created : created := kl_thread_pool_create (fun _ => true) (fun m => m) (sample_item 0) 2 4 8.

Definition sample_pool : KlThreadPool * nat :=
  match sample_created with Created p k => (p, k) | Failed _ _ => (mkPool (empty_ring (sample_item 0) 1) (empty_ring (sample_item 0) 1) 0 false false false false true false, 1%nat) end.

Definition sample_labels : list label :=
  [Worker 0; Worker 1; Submit (sample_item 1) 0; Worker 0; Spurious 1; Worker 1; Submit (sample_item 2) 1; Submit (sample_item 3) 0;
   Worker 0; Worker 0; Worker 0;
   Tick; Loop; Free; Submit (sample_item 4) 1].

Definition sample_rest : list label := [Loop; Loop; Worker 0; Worker 1; Loop; Loop; Loop; Loop; Loop; Loop].

Definition sample_state (ls : list label) : St :=
  match run ls (start (fst sample_pool) (snd sample_pool)) with Next s => s | _ => start (fst sample_pool) 0 end.

Lemma pool_items_once_witness :
  kl_thread_pool_create (fun _ => true) (fun m => m) (sample_item 0) 2 4 8 = Created (fst sample_pool) (snd sample_pool) /\
  submitted (hist (sample_state sample_labels)) = sample_item <$> [1; 2; 3] /\
  delivered (hist (sample_state sample_labels)) = [sample_item 1] /\
  (inflight (pool (sample_state sample_labels)) <= cap (done (pool (sample_state sample_labels))))%nat.
Proof.
  split; [vm_compute; reflexivity|]. split; [vm_compute; reflexivity|]. split; [vm_compute; reflexivity|].
  refine (proj1 (proj2 (proj2 (proj2 (proj2 (proj2 (pool_items_once (fun _ => true) (fun m => m) (sample_item 0) 2 4 8
    (fst sample_pool) (snd sample_pool) sample_labels _ _) (sample_state sample_labels) _)))))).
  - lia.
  - vm_compute. reflexivity.
  - vm_compute. reflexivity.
Defined.

Lemma pool_delivers_witness :
  loop (sample_state (sample_labels ++ sample_rest)) = Freed /\
  cancelled (hist (sample_state (sample_labels ++ sample_rest))) = [sample_item 2] /\
  (length sample_rest <= measure (sample_state sample_labels) + 2 * length (filter (fun l => spurious l = true) sample_rest))%nat.
Proof.
  split; [vm_compute; reflexivity|]. split; [vm_compute; reflexivity|].
  refine (proj1 (pool_delivers (fun _ => true) (fun m => m) (sample_item 0) 2 4 8
    (fst sample_pool) (snd sample_pool) sample_labels sample_rest (sample_state sample_labels)
    (sample_state (sample_labels ++ sample_rest)) _ _ _ _ _)).
  - lia.
  - vm_compute. reflexivity.
  - vm_compute. reflexivity.
  - repeat constructor.
  - vm_compute. reflexivity.
Defined.

End ThreadPool.
