(* ===== verification/WsServer.v ===== *)
(** * WebSocket connections of the server (src/src/protocols/websocket/http_server_ws.c,
    websocket_server_internal.h, conn_write_all of src/src/protocols/http/http_internal.h)

    Sending frames, directly or through a drain; the receive loop with reassembly of fragmented
    messages, control frames and the close handshake; keep-alive pings and the close timeout.  The
    fields of [KlWsServerConn] are grouped by the code that uses them: [WsOut] for sending, [WsIn]
    for receiving, [WsPing] for the keep-alive.

    The connection below (sockets, TLS, output queue), the clock, the allocator and the callbacks are
    an environment [WsEnv].  A callback is a program that may send, close and enable the drain, and
    sees the results.  [sent] and [events] are ghost fields: what was handed to the connection, and
    what the application was told. *)
From S2P Require Import Prelude Drain WsFrame.
Import Drain WsFrame.

Module WsServer.

(** ** Constants and configuration *)

Definition KL_WS_GOING_AWAY : Z := 1001.
Definition KL_WS_TOO_BIG : Z := 1009.
Definition KL_WS_OP_CONTINUATION : Z := 0.
Definition KL_WS_OP_TEXT : Z := 1.
Definition KL_WS_OP_BINARY : Z := 2.
Definition KL_WS_OP_CLOSE : Z := 8.
Definition KL_WS_OP_PING : Z := 9.
Definition KL_WS_OP_PONG : Z := 10.

Definition WS_DEFAULT_MAX_MESSAGE : Z := 1048576.
Definition WS_DEFAULT_MAX_FRAME : Z := 65536.
Definition WS_DEFAULT_CLOSE_TIMEOUT : Z := 5000.
Definition KL_HTTP_CONN_WRITE_SPIN_MAX : nat := 256.

(** The callbacks are in the environment; the configuration says which are set. *)
Record KlWsServerConfig := mkConfig {
  has_on_message : bool; has_on_close : bool; has_on_ping : bool;
  max_message_size : Z; max_frame_size : Z; close_timeout_ms : Z; ping_interval_ms : Z;
}.

Definition ws_max_message (cfg : KlWsServerConfig) : Z :=
  if negb (max_message_size cfg =? 0) then max_message_size cfg else WS_DEFAULT_MAX_MESSAGE.
Definition ws_max_frame (cfg : KlWsServerConfig) : Z :=
  if negb (max_frame_size cfg =? 0) then max_frame_size cfg else WS_DEFAULT_MAX_FRAME.
Definition ws_close_timeout (cfg : KlWsServerConfig) : Z :=
  if negb (close_timeout_ms cfg =? 0) then close_timeout_ms cfg else WS_DEFAULT_CLOSE_TIMEOUT.

(** ** State *)

(** A frame whose writing was begun: opcode, payload, and whether all of it was taken. *)
Record frame_out := mkSent { s_opcode : Z; s_payload : list Z; s_whole : bool }.

Record WsOut := mkOut {
  close_sent : bool; close_deadline_ms : Z;
  drain_enabled : bool; drain : KlDrain; drain_moved : Z;
  pong_buf : list Z; pong_owed : bool;
  sent : list frame_out;
}.

Definition set_close (b : bool) (t : Z) (o : WsOut) : WsOut :=
  mkOut b t (drain_enabled o) (drain o) (drain_moved o) (pong_buf o) (pong_owed o) (sent o).
Definition set_drain (d : KlDrain) (o : WsOut) : WsOut :=
  mkOut (close_sent o) (close_deadline_ms o) (drain_enabled o) d (drain_moved o) (pong_buf o) (pong_owed o) (sent o).
Definition set_enabled (o : WsOut) : WsOut :=
  mkOut (close_sent o) (close_deadline_ms o) true (drain o) (drain_moved o) (pong_buf o) (pong_owed o) (sent o).
Definition set_moved (n : Z) (o : WsOut) : WsOut :=
  mkOut (close_sent o) (close_deadline_ms o) (drain_enabled o) (drain o) n (pong_buf o) (pong_owed o) (sent o).
Definition set_pong (b : list Z) (owed : bool) (o : WsOut) : WsOut :=
  mkOut (close_sent o) (close_deadline_ms o) (drain_enabled o) (drain o) (drain_moved o) b owed (sent o).
Definition log_sent (op : Z) (data : list Z) (whole : bool) (o : WsOut) : WsOut :=
  mkOut (close_sent o) (close_deadline_ms o) (drain_enabled o) (drain o) (drain_moved o) (pong_buf o) (pong_owed o)
    (sent o ++ [mkSent op data whole]).

(** What the application is told, and the reason a connection is failed for. *)
Inductive event :=
| EMessage (data : list Z) (is_binary : bool)
| EPing (data : list Z)
| EClose (code : Z) (reason : list Z)
| EFail (code : Z).

(** [ctrl_buf], [msg_buf]: the bytes up to [ctrl_len], [msg_len]. *)
Record WsIn := mkIn {
  frame : KlWsFrameParser; ctrl_buf : list Z;
  msg_buf : list Z; msg_cap : Z; msg_opcode : Z; utf8_state : Z;
  close_received : bool; events : list event;
}.

Definition set_frame (f : KlWsFrameParser) (i : WsIn) : WsIn :=
  mkIn f (ctrl_buf i) (msg_buf i) (msg_cap i) (msg_opcode i) (utf8_state i) (close_received i) (events i).
Definition set_ctrl (b : list Z) (i : WsIn) : WsIn :=
  mkIn (frame i) b (msg_buf i) (msg_cap i) (msg_opcode i) (utf8_state i) (close_received i) (events i).
Definition set_msg (b : list Z) (op st : Z) (i : WsIn) : WsIn :=
  mkIn (frame i) (ctrl_buf i) b (msg_cap i) op st (close_received i) (events i).
Definition set_msg_cap (c : Z) (i : WsIn) : WsIn :=
  mkIn (frame i) (ctrl_buf i) (msg_buf i) c (msg_opcode i) (utf8_state i) (close_received i) (events i).
Definition set_received (i : WsIn) : WsIn :=
  mkIn (frame i) (ctrl_buf i) (msg_buf i) (msg_cap i) (msg_opcode i) (utf8_state i) true (events i).
Definition tell (e : event) (i : WsIn) : WsIn :=
  mkIn (frame i) (ctrl_buf i) (msg_buf i) (msg_cap i) (msg_opcode i) (utf8_state i) (close_received i) (events i ++ [e]).

Record WsPing := mkPing {
  next_ping_ms : Z; ping_unanswered : bool; ping_behind : bool; ping_progress : Z; ping_sent_ms : Z;
}.

(** ** Environment *)

(** What a callback does with the connection. *)
Inductive wsprog :=
| PDone
| PText (data : list Z) (k : Z -> wsprog)
| PBinary (data : list Z) (k : Z -> wsprog)
| PPing (data : list Z) (k : Z -> wsprog)
| PClose (code : Z) (reason : list Z) (k : Z -> wsprog)
| PDrain (max_size : Z) (k : Z -> wsprog).

(** [conn_write] takes a number of bytes of the span, or fails; [would_block] classifies the last
    failure of a plaintext write.  [conn_read] gives the bytes read, none for a result of 0, [None]
    for a negative one.  [touch] stores the time of the last activity. *)
Class WsEnv (W : Type) := {
  conn_read : W -> Z -> option (list Z) * W;
  touch : W -> W;
  tls_pending : W -> Z;
  conn_write : W -> list Z -> Z * W;
  out_would_block : W -> Z -> bool;
  write_window : W -> Z -> Z;
  is_tls : W -> bool;
  would_block : W -> bool;
  monotonic_ms : W -> Z * W;
  alloc_ok : W -> Z -> bool * W;
  request_write : W -> W;
  out_pending : W -> bool;
  send_progress : W -> Z;
  on_message : W -> list Z -> bool -> wsprog * W;
  on_ping : W -> list Z -> wsprog * W;
  on_close : W -> Z -> list Z -> wsprog * W;
}.

Section model.
Context {W : Type} `{Env : !WsEnv W}.

(** ** Writing to the connection *)

(** [None] is out of fuel; [false] is -1. *)
Fixpoint write_all_loop (fuel : nat) (spins : nat) (p : list Z) (w : W) : option (bool * W) :=
  match p with
  | [] => Some (true, w)
  | _ =>
      match fuel with
      | O => None
      | S fuel' =>
          let '(nw, w) := conn_write w p in
          if nw <? 0 then Some (false, w)
          else if nw =? 0 then
            if out_would_block w (Z.of_nat (length p)) then Some (false, w)
            else if (KL_HTTP_CONN_WRITE_SPIN_MAX <? S spins)%nat then Some (false, w)
            else write_all_loop fuel' (S spins) p w
          else write_all_loop fuel' 0 (drop (Z.to_nat nw) p) w
      end
  end.

(** At most 256 fruitless attempts per byte. *)
Definition conn_write_all (buf : list Z) (w : W) : option (bool * W) :=
  write_all_loop (length buf * (KL_HTTP_CONN_WRITE_SPIN_MAX + 2)) 0 buf w.

Definition ws_drain_writer (w : W) (data : list Z) : Z * W :=
  let len := write_window w (Z.of_nat (length data)) in
  let '(nw, w) := conn_write w (take (Z.to_nat len) data) in
  if nw <? 0 then (if negb (is_tls w) && would_block w then (0, w) else (-1, w)) else (nw, w).

(** The drain of a connection never has an [on_writable] callback. *)
#[local] Instance ws_drain_env : DrainEnv W := {|
  write_fn := ws_drain_writer; realloc_ok := alloc_ok; writable_cb := fun w => (RfDone, w)
|}.

Definition kl_ws_server_enable_drain (max_size : Z) (o : WsOut) : WsOut :=
  if drain_enabled o then
    if 0 <? max_size then set_drain (kl_drain_set_max_size (drain o) max_size) o else o
  else
    let d := if 0 <? max_size then kl_drain_set_max_size kl_drain_init max_size else kl_drain_init in
    set_enabled (set_drain d o).

(** ** Frames *)

Definition pending (o : WsOut) : bool := kl_drain_pending (drain o) =? 1.

(** [close_sent = 1; close_deadline_ms = now]. *)
Definition broken (o : WsOut) (w : W) : Z * WsOut * W :=
  let '(now, w) := monotonic_ms w in (-1, set_close true now o, w).

(** [send] is [ws_send_frame]. *)
Definition ws_drain_backlog (send : Z -> list Z -> WsOut -> W -> option (Z * WsOut * W)) (o : WsOut) (w : W)
    : option (Z * WsOut * W) :=
  let before := kl_drain_buffered (drain o) in
  '(r, d, w, _) ← kl_drain_flush (drain o) w;
  let after := kl_drain_buffered d in
  let o := set_drain d o in
  let o := if after <? before then set_moved (u64 (drain_moved o + (before - after))) o else o in
  if (r =? 0) && pong_owed o then
    let o := set_pong (pong_buf o) false o in
    if negb (close_sent o) then
      '(_, o, w) ← send KL_WS_OP_PONG (pong_buf o) o w; Some (r, o, w)
    else Some (r, o, w)
  else Some (r, o, w).

(** The two writes of a frame through the drain. *)
Definition drain_frame (hdr data : list Z) (d : KlDrain) (w : W) : option (bool * KlDrain * W) :=
  '(rc, d, w, _) ← kl_drain_write d hdr w;
  if rc <? 0 then Some (false, d, w)
  else if (0 <? length data)%nat then
    '(rc, d, w, _) ← kl_drain_write d data w; Some (negb (rc <? 0), d, w)
  else Some (true, d, w).

Fixpoint ws_send_frame (fuel : nat) (op : Z) (data : list Z) (o : WsOut) (w : W) : option (Z * WsOut * W) :=
  match fuel with
  | O => None
  | S fuel' =>
      let hdr := server_header op (Z.of_nat (length data)) in
      if drain_enabled o then
        '(r, o, w) ← (if pending o then ws_drain_backlog (ws_send_frame fuel') o w else Some (0, o, w));
        if r <? 0 then Some (broken o w)
        else if close_sent o && negb (op =? KL_WS_OP_CLOSE) then Some (-1, o, w)
        else
          let was_pending := pending o in
          '(ok, d, w) ← drain_frame hdr data (drain o) w;
          let o := log_sent op data ok (set_drain d o) in
          if negb ok then Some (broken o w)
          else Some (0, o, if negb was_pending && pending o then request_write w else w)
      else
        '(ok, w) ← conn_write_all hdr w;
        '(ok, w) ← (if (ok : bool) && (0 <? length data)%nat then conn_write_all data w else Some (ok, w));
        let o := log_sent op data ok o in
        if negb ok then Some (broken o w) else Some (0, o, w)
  end.

(** A backlog is moved at most once before a frame, and the PONG it may send finds none. *)
Definition send_frame : Z -> list Z -> WsOut -> W -> option (Z * WsOut * W) := ws_send_frame 2.

Definition kl_ws_server_send_text (data : list Z) (o : WsOut) (w : W) : option (Z * WsOut * W) :=
  if close_sent o then Some (-1, o, w) else send_frame KL_WS_OP_TEXT data o w.

Definition kl_ws_server_send_binary (data : list Z) (o : WsOut) (w : W) : option (Z * WsOut * W) :=
  if close_sent o then Some (-1, o, w) else send_frame KL_WS_OP_BINARY data o w.

Definition kl_ws_server_send_ping (data : list Z) (o : WsOut) (w : W) : option (Z * WsOut * W) :=
  if close_sent o then Some (-1, o, w)
  else if (125 <? length data)%nat then Some (-1, o, w)
  else send_frame KL_WS_OP_PING data o w.

Definition close_payload (code : Z) (reason : list Z) : list Z :=
  if negb (code =? 0) then [u8 (Z.shiftr code 8); u8 code] ++ take 123 reason else [].

Definition kl_ws_server_close (cfg : KlWsServerConfig) (code : Z) (reason : list Z) (o : WsOut) (w : W)
    : option (Z * WsOut * W) :=
  if close_sent o then Some (0, o, w)
  else
    let '(now, w) := monotonic_ms w in
    send_frame KL_WS_OP_CLOSE (close_payload code reason) (set_close true (u64 (now + ws_close_timeout cfg)) o) w.

(** The calls a callback makes. *)
Fixpoint run_prog (cfg : KlWsServerConfig) (p : wsprog) (o : WsOut) (w : W) : option (WsOut * W) :=
  match p with
  | PDone => Some (o, w)
  | PText data k => '(rc, o, w) ← kl_ws_server_send_text data o w; run_prog cfg (k rc) o w
  | PBinary data k => '(rc, o, w) ← kl_ws_server_send_binary data o w; run_prog cfg (k rc) o w
  | PPing data k => '(rc, o, w) ← kl_ws_server_send_ping data o w; run_prog cfg (k rc) o w
  | PClose code reason k => '(rc, o, w) ← kl_ws_server_close cfg code reason o w; run_prog cfg (k rc) o w
  | PDrain m k => run_prog cfg (k 0) (kl_ws_server_enable_drain m o) w
  end.

(** ** Receiving *)

Context (cfg : KlWsServerConfig).

(** [true] is the state KL_HTTP_CONN_WEBSOCKET, [false] is KL_HTTP_CONN_CLOSED. *)
Inductive round :=
| Return (open : bool) (i : WsIn) (o : WsOut) (w : W)
| Go (i : WsIn) (o : WsOut) (w : W).

(** [kl_ws_server_close(ws, code, reason, ...); return KL_HTTP_CONN_CLOSED]. *)
Definition fail_with (code : Z) (reason : list Z) (i : WsIn) (o : WsOut) (w : W) : option round :=
  '(_, o, w) ← kl_ws_server_close cfg code reason o w; Some (Return false (tell (EFail code) i) o w).

Definition invalid_utf8 : list Z := bytes "Invalid UTF-8".

Definition ws_deliver_message (i : WsIn) (o : WsOut) (w : W) : option round :=
  let is_binary := msg_opcode i =? KL_WS_OP_BINARY in
  if negb is_binary && negb (utf8_state i =? KL_UTF8_ACCEPT) then fail_with 1007 invalid_utf8 i o w
  else
    '(i, o, w) ← (if has_on_message cfg then
                    let '(p, w) := on_message w (msg_buf i) is_binary in
                    '(o, w) ← run_prog cfg p o w; Some (tell (EMessage (msg_buf i) is_binary) i, o, w)
                  else Some (i, o, w));
    Some (Go (set_msg [] 0 KL_UTF8_ACCEPT i) o w).

(** The capacity afterwards; [None] is -1. *)
Definition ws_msg_grow (i : WsIn) (additional : Z) (w : W) : option Z * W :=
  let msg_len := Z.of_nat (length (msg_buf i)) in
  if SIZE_MAX - msg_len <? additional then (None, w)
  else
    let needed := msg_len + additional in
    if ws_max_message cfg <? needed then (None, w)
    else if msg_cap i <? needed then
      let new_cap := if negb (msg_cap i =? 0) then u64 (msg_cap i * 2) else 4096 in
      let new_cap := if new_cap <? needed then needed else new_cap in
      let new_cap := if ws_max_message cfg <? new_cap then ws_max_message cfg else new_cap in
      if SIZE_MAX / 2 <? new_cap then (None, w)
      else
        let '(ok, w) := alloc_ok w new_cap in
        (if ok : bool then Some new_cap else None, w)
    else (Some (msg_cap i), w).

Definition ws_handle_close (payload : list Z) (i : WsIn) (o : WsOut) (w : W) : option round :=
  let i := set_received i in
  let bad := kl_ws_close_payload_check payload in
  '(code, reason, o, w) ←
     (if negb (bad =? 0) then
        '(_, o, w) ← kl_ws_server_close cfg bad [] o w; Some (bad, [], o, w)
      else
        let '(code, reason) := match payload with
                               | b0 :: b1 :: rest => (u16 (Z.lor (Z.shiftl b0 8) b1), rest)
                               | _ => (1005, [])
                               end in
        if negb (close_sent o) then
          '(_, o, w) ← kl_ws_server_close cfg (if (2 <=? length payload)%nat then code else 0) reason o w;
          Some (code, reason, o, w)
        else Some (code, reason, o, w));
  '(i, o, w) ← (if has_on_close cfg then
                  let '(p, w) := on_close w code reason in
                  '(o, w) ← run_prog cfg p o w; Some (tell (EClose code reason) i, o, w)
                else Some (i, o, w));
  Some (Return false i o w).

Definition ws_handle_ping (payload : list Z) (i : WsIn) (o : WsOut) (w : W) : option (WsIn * WsOut * W) :=
  if has_on_ping cfg then
    let '(p, w) := on_ping w payload in
    '(o, w) ← run_prog cfg p o w; Some (tell (EPing payload) i, o, w)
  else if negb (close_sent o) then
    if drain_enabled o && pending o then Some (i, set_pong (take 125 payload) true o, w)
    else '(_, o, w) ← send_frame KL_WS_OP_PONG payload o w; Some (i, o, w)
  else Some (i, o, w).

(** A control frame: gather, and act when it is complete. *)
Definition on_control (opcode : Z) (frame_start complete : bool) (payload : list Z) (i : WsIn) (o : WsOut) (w : W) : option round :=
  let i := set_ctrl ((if frame_start then [] else ctrl_buf i) ++ payload) i in
  if complete then
    if opcode =? KL_WS_OP_CLOSE then ws_handle_close (ctrl_buf i) i o w
    else if opcode =? KL_WS_OP_PING then
      '(i, o, w) ← ws_handle_ping (ctrl_buf i) i o w; Some (Go i o w)
    else Some (Go i o w)
  else Some (Go i o w).

(** A data frame starts a message, or continues one; [None] when it may not. *)
Definition open_message (opcode : Z) (i : WsIn) : option WsIn :=
  if negb (opcode =? KL_WS_OP_CONTINUATION) then
    if negb (msg_opcode i =? 0) then None else Some (set_msg [] opcode KL_UTF8_ACCEPT i)
  else if msg_opcode i =? 0 then None else Some i.

(** Payload of a data frame: append, validate, deliver. *)
Definition on_data (opcode : Z) (frame_start complete : bool) (payload : list Z) (i : WsIn) (o : WsOut) (w : W) : option round :=
  match (if frame_start then open_message opcode i else Some i) with
  | None => fail_with KL_WS_PROTOCOL_ERROR [] i o w
  | Some i =>
      let '(grown, w) := ws_msg_grow i (Z.of_nat (length payload)) w in
      match grown with
      | None => fail_with KL_WS_TOO_BIG [] i o w
      | Some cap =>
          let i := set_msg (msg_buf i ++ payload) (msg_opcode i) (utf8_state i) (set_msg_cap cap i) in
          let i := if msg_opcode i =? KL_WS_OP_TEXT
                   then set_msg (msg_buf i) (msg_opcode i) (kl_utf8_validate (utf8_state i) payload) i else i in
          if (msg_opcode i =? KL_WS_OP_TEXT) && (utf8_state i =? KL_UTF8_REJECT) then fail_with 1007 invalid_utf8 i o w
          else if complete && negb (fin (frame i) =? 0) then ws_deliver_message i o w
          else Some (Go i o w)
      end
  end.

(** A frame that is complete without payload in this call. *)
Definition on_empty (opcode : Z) (i : WsIn) (o : WsOut) (w : W) : option round :=
  if opcode =? KL_WS_OP_CLOSE then ws_handle_close [] i o w
  else if opcode =? KL_WS_OP_PING then '(i, o, w) ← ws_handle_ping [] i o w; Some (Go i o w)
  else if (opcode <? 8) && (payload_len (frame i) =? 0) then
    match open_message opcode i with
    | None => fail_with KL_WS_PROTOCOL_ERROR [] i o w
    | Some i => if negb (fin (frame i) =? 0) then ws_deliver_message i o w else Some (Go i o w)
    end
  else if (opcode <? 8) && negb (fin (frame i) =? 0) && negb (msg_opcode i =? 0) then ws_deliver_message i o w
  else Some (Go i o w).

(** One round of the receive loop on the bytes not yet consumed, after [kl_ws_frame_parse]. *)
Definition after_parse (rc : Z) (payload_before consumed : Z) (data : list Z) (i : WsIn) (o : WsOut) (w : W) : option round :=
  let f := frame i in
  let in_header := match state f with KL_WS_FRAME_HEADER => true | _ => false end in
  if rc <? 0 then fail_with KL_WS_PROTOCOL_ERROR [] i o w
  else if negb in_header && (masked f =? 0) then fail_with KL_WS_PROTOCOL_ERROR [] i o w
  else
    let payload_consumed := u64 (payload_read f - payload_before) in
    if (0 <? payload_consumed) && negb in_header then
      let raw := take (Z.to_nat payload_consumed) (drop (Z.to_nat (consumed - payload_consumed)) data) in
      let payload := if negb (masked f =? 0) then ws_unmask raw (mask_key f) payload_before else raw in
      if ws_max_frame cfg <? payload_len f then fail_with KL_WS_TOO_BIG [] i o w
      else if 8 <=? opcode f then on_control (opcode f) (payload_before =? 0) (rc =? 1) payload i o w
      else on_data (opcode f) (payload_before =? 0) (rc =? 1) payload i o w
    else if rc =? 1 then on_empty (opcode f) i o w
    else Some (Go i o w).

(** The [while (pos < len)] loop; [data] is what is left.  [None] is out of fuel. *)
Fixpoint readable_loop (fuel : nat) (data : list Z) (i : WsIn) (o : WsOut) (w : W) : option (bool * WsIn * WsOut * W) :=
  match data with
  | [] => Some (negb (close_sent o && close_received i), i, o, w)
  | _ =>
      match fuel with
      | O => None
      | S fuel' =>
          let payload_before := payload_read (frame i) in
          let '(rc, f, consumed) := kl_ws_frame_parse (frame i) data in
          r ← after_parse rc payload_before consumed data (set_frame f i) o w;
          match r with
          | Return open i o w => Some (open, i, o, w)
          | Go i o w =>
              let i := if rc =? 1 then set_frame kl_ws_frame_init i else i in
              if consumed =? 0 then Some (negb (close_sent o && close_received i), i, o, w)
              else readable_loop fuel' (drop (Z.to_nat consumed) data) i o w
          end
      end
  end.

Definition kl_ws_server_on_readable_data (data : list Z) (i : WsIn) (o : WsOut) (pg : WsPing) (w : W)
    : option (bool * WsIn * WsOut * WsPing * W) :=
  let pg := if (0 <? length data)%nat
            then mkPing (next_ping_ms pg) false (ping_behind pg) (ping_progress pg) (ping_sent_ms pg) else pg in
  '(open, i, o, w) ← readable_loop (length data) data i o w;
  Some (open, i, o, pg, w).

Definition KL_HTTP_CONN_READ_BUF_SIZE : Z := 8192.

(** [read_more]: [n] is 256 - [drains], the reads that may still follow, this one included. *)
Fixpoint read_more (n : nat) (i : WsIn) (o : WsOut) (pg : WsPing) (w : W) : option (bool * WsIn * WsOut * WsPing * W) :=
  match n with
  | O => None
  | S n' =>
      let '(nr, w) := conn_read w KL_HTTP_CONN_READ_BUF_SIZE in
      match nr with
      | None => Some (false, i, o, pg, w)
      | Some [] => Some (is_tls w, i, o, pg, w)
      | Some data =>
          '(st, i, o, pg, w) ← kl_ws_server_on_readable_data data i o pg w;
          if (st : bool) && is_tls w && (0 <? tls_pending w) && (0 <? n')%nat then read_more n' i o pg w
          else Some (st, i, o, pg, w)
      end
  end.

Definition kl_ws_server_on_readable (i : WsIn) (o : WsOut) (pg : WsPing) (w : W) : option (bool * WsIn * WsOut * WsPing * W) :=
  read_more 256 i o pg (touch w).

(** ** The other entry points of the connection driver *)

Definition kl_ws_server_on_writable (o : WsOut) (w : W) : option (bool * WsOut * W) :=
  if negb (drain_enabled o) then Some (true, o, w)
  else '(r, o, w) ← ws_drain_backlog send_frame o w; Some (negb (r <? 0), o, w).

Definition kl_ws_server_drain_pending (o : WsOut) : bool := drain_enabled o && pending o.

Definition kl_ws_server_drain_close (o : WsOut) (w : W) : option (WsOut * W) :=
  if close_sent o then Some (o, w)
  else '(_, o, w) ← kl_ws_server_close cfg KL_WS_GOING_AWAY (bytes "Server shutting down") o w; Some (o, w).

Definition kl_ws_server_check_close_timeout (i : WsIn) (o : WsOut) (now : Z) : bool :=
  close_sent o && negb (close_received i) && (close_deadline_ms o <=? now).

(** The connection goes away: the last callback, and what is left of the output state. *)
Definition kl_ws_server_cleanup (i : WsIn) (o : WsOut) (w : W) : option (WsIn * WsOut * W) :=
  let o := set_close true (close_deadline_ms o) o in
  '(i, o, w) ← (if negb (close_received i) && has_on_close cfg then
                  let '(p, w) := on_close w 1006 [] in
                  '(o, w) ← run_prog cfg p o w; Some (tell (EClose 1006 []) i, o, w)
                else Some (i, o, w));
  Some (i, if drain_enabled o then set_drain (kl_drain_free (drain o)) o else o, w).

Definition ws_out_progress (o : WsOut) (w : W) : Z := u64 (send_progress w + drain_moved o).
Definition ws_out_pending (o : WsOut) (w : W) : bool := out_pending w || (drain_enabled o && pending o).

(** A ping, or the interval that stands in for it, begins; the result says whether a ping was sent. *)
Definition begin_ping (now : Z) (pg : WsPing) (o : WsOut) (w : W) : option (Z * WsPing * WsOut * W) :=
  let behind := ws_out_pending o w in
  '(s, o, w) ← (if negb behind then '(_, o, w) ← kl_ws_server_send_ping [] o w; Some (1, o, w) else Some (0, o, w));
  Some (s, mkPing (u64 (now + ping_interval_ms cfg)) true behind (ws_out_progress o w) now, o, w).

Definition kl_ws_server_auto_ping (now stall_ms : Z) (i : WsIn) (pg : WsPing) (o : WsOut) (w : W)
    : option (Z * WsPing * WsOut * W) :=
  if next_ping_ms pg =? 0 then Some (0, pg, o, w)
  else if close_sent o || close_received i then Some (0, pg, o, w)
  else if now <? next_ping_ms pg then Some (0, pg, o, w)
  else if ping_unanswered pg then
    if ping_behind pg && negb (ws_out_progress o w =? ping_progress pg) then
      begin_ping now (mkPing (next_ping_ms pg) false (ping_behind pg) (ping_progress pg) (ping_sent_ms pg)) o w
    else if ping_behind pg && (u64 (now - ping_sent_ms pg) <? stall_ms) then
      Some (0, mkPing (u64 (now + ping_interval_ms cfg)) true (ping_behind pg) (ping_progress pg) (ping_sent_ms pg), o, w)
    else
      '(_, o, w) ← kl_ws_server_close cfg KL_WS_GOING_AWAY [] o w;
      Some (0, pg, set_close (close_sent o) now o, w)
  else begin_ping now pg o w.

End model.

(** A connection after [memset] and [kl_ws_frame_init]. *)
Definition init_in : WsIn := mkIn kl_ws_frame_init [] [] 0 0 KL_UTF8_ACCEPT false [].
Definition init_out : WsOut := mkOut false 0 false kl_drain_init 0 [] false [].

(** ** Sending: totality and the order of frames *)

#[local] Existing Instance ws_drain_env.

(** Spans of [size_t] length, for every result the program may see. *)
Fixpoint prog_ok (p : wsprog) : Prop :=
  match p with
  | PDone => True
  | PText data k | PBinary data k | PPing data k => span_ok data /\ forall rc, prog_ok (k rc)
  | PClose _ _ k => forall rc, prog_ok (k rc)
  | PDrain m k => 0 <= m <= SIZE_MAX /\ forall rc, prog_ok (k rc)
  end.

(** What the server relies on: a write takes at most what it is given, a read gives bytes. *)
Class WsEnvOk {W} (Env : WsEnv W) : Prop := {
  write_bounded w p : (conn_write w p).1 <= Z.of_nat (length p);
  read_bytes w n data : (conn_read w n).1 = Some data -> Forall is_byte data /\ span_ok data;
  message_ok w d b : prog_ok (on_message w d b).1;
  ping_ok w d : prog_ok (on_ping w d).1;
  close_ok w code d : prog_ok (on_close w code d).1;
}.

(** A frame after which more may follow. *)
Definition plain (f : frame_out) : Prop := s_whole f = true /\ s_opcode f <> KL_WS_OP_CLOSE.
Definition small (f : frame_out) : Prop := 8 <= s_opcode f -> (length (s_payload f) <= 125)%nat.

(** Nothing follows a CLOSE frame or a frame that was cut short. *)
Fixpoint orderly (l : list frame_out) : Prop :=
  match l with
  | f :: (_ :: _) as rest => plain f /\ orderly rest
  | _ => True
  end.

Lemma orderly_snoc l f : Forall plain l -> orderly (l ++ [f]).
Proof.
  induction 1 as [|g l Hg _ IH]; [done|]. destruct l as [|h l]; [done|]. simpl in *. by split.
Qed.

Record out_base (o : WsOut) : Prop := {
  ob_drain : inv (drain o);
  ob_pong : (length (pong_buf o) <= 125)%nat;
  ob_small : Forall small (sent o);
}.

Record out_inv (o : WsOut) : Prop := {
  oi_base : out_base o;
  oi_open : close_sent o = false -> Forall plain (sent o);
  oi_order : orderly (sent o);
}.

Lemma init_out_inv : out_inv init_out.
Proof. split; [split; [apply drain_inv_init|simpl; lia|constructor]|constructor|done]. Qed.

(** A frame may be begun: the frames before it are whole. *)
Record ready (o : WsOut) : Prop := { rd_base : out_base o; rd_plain : Forall plain (sent o) }.

Lemma plain_orderly l : Forall plain l -> orderly l.
Proof. induction 1 as [|g l Hg _ IH]; [done|]. destruct l as [|h l]; [done|]. by split. Qed.

Lemma ready_inv o : ready o -> out_inv o.
Proof. intros [Hb Hp]. split; auto using plain_orderly. Qed.

Lemma inv_ready o : out_inv o -> close_sent o = false -> ready o.
Proof. intros [Hb Ho _] Hc. split; auto. Qed.

(** Fields the output invariant does not constrain. *)
Lemma set_close_base b t o : out_base o -> out_base (set_close b t o).
Proof. by intros []. Qed.
Lemma set_drain_base d o : out_base o -> inv d -> out_base (set_drain d o).
Proof. by intros []. Qed.
Lemma log_sent_base op data whole o : out_base o -> small (mkSent op data whole) -> out_base (log_sent op data whole o).
Proof. intros [H1 H2 H3] Hs. split; [done|done|]. apply Forall_app; auto. Qed.

Create HintDb ws.
#[export] Hint Resolve set_close_base set_drain_base log_sent_base ready_inv init_out_inv : ws.

Section sending.
Context {W : Type} {Env : WsEnv W} {EnvOk : WsEnvOk Env}.

Lemma write_all_total fuel spins p w : (length p * 258 <= fuel + spins)%nat -> (spins <= 256)%nat ->
  exists ok w', write_all_loop fuel spins p w = Some (ok, w').
Proof.
  revert spins p w. induction fuel as [|fuel IH]; intros spins p w Hf Hs; destruct p as [|b p]; cbn [write_all_loop]; eauto.
  { cbn [length] in Hf. lia. }
  pose proof (write_bounded w (b :: p)) as Hw. destruct (conn_write w (b :: p)) as [nw w1]. simpl in Hw.
  destruct (Z.ltb_spec nw 0); [eauto|]. destruct (Z.eqb_spec nw 0).
  - destruct (out_would_block w1 _); [eauto|]. unfold KL_HTTP_CONN_WRITE_SPIN_MAX.
    destruct (Nat.ltb_spec 256 (S spins)); [eauto|]. apply IH; lia.
  - apply IH; [|lia]. rewrite length_drop. cbn [length] in *. lia.
Qed.

Lemma conn_write_all_total p w : exists ok w', conn_write_all p w = Some (ok, w').
Proof. apply write_all_total; unfold KL_HTTP_CONN_WRITE_SPIN_MAX; lia. Qed.

Lemma server_header_span op len : span_ok (server_header op len).
Proof. unfold span_ok, server_header, frame_lengths. repeat case_if; cbn; lia. Qed.

Lemma drain_frame_spec hdr data d w : inv d -> span_ok hdr -> span_ok data ->
  exists ok d' w', drain_frame hdr data d w = Some (ok, d', w') /\ inv d'.
Proof.
  intros Hi Hh Hd. unfold drain_frame.
  destruct (write_spec d hdr w Hi Hh) as (rc & d1 & w1 & ev & -> & Hi1 & _). rewrite bind_Some_l.
  case_if; [eauto 6|]. case_if; [|eauto 6].
  destruct (write_spec d1 data w1 Hi1 Hd) as (rc2 & d2 & w2 & ev2 & -> & Hi2 & _). rewrite bind_Some_l. eauto 6.
Qed.

(** A frame that was begun, whole or not. *)
Lemma log_sent_inv op data whole o : ready o -> small (mkSent op data whole) ->
  (whole = true /\ op <> KL_WS_OP_CLOSE \/ close_sent o = true) -> out_inv (log_sent op data whole o).
Proof.
  intros [Hb Hp] Hs Hc. split; [by apply log_sent_base| |by apply orderly_snoc].
  intros Ho. cbn [log_sent sent close_sent] in *. apply Forall_app_2; [done|]. apply Forall_singleton.
  destruct Hc as [[-> Hc]|Hc]; [by split|congruence].
Qed.

(** What sending promises. *)
Definition send_ok (o : WsOut) (r : option (Z * WsOut * W)) : Prop :=
  exists rc o' w', r = Some (rc, o', w') /\ out_inv o' /\ (close_sent o = true -> close_sent o' = true).

(** The end of a send: the frame is logged, and a cut one closes the output. *)
Lemma logged_spec op data (ok : bool) o w w' : ready o -> small (mkSent op data ok) -> (op = KL_WS_OP_CLOSE -> close_sent o = true) ->
  send_ok o (if negb ok then Some (broken (log_sent op data ok o) w) else Some (0, log_sent op data ok o, w')).
Proof.
  intros Hr Hs Hc. destruct ok; simpl.
  - eexists 0, _, w'. split; [done|]. split; [|done]. apply log_sent_inv; [done|done|].
    destruct (decide (op = KL_WS_OP_CLOSE)); auto.
  - unfold send_ok, broken. destruct (monotonic_ms w) as [now w1]. do 3 eexists. split; [done|]. split; [|done].
    destruct Hr as [Hb Hp]. split; [by apply set_close_base, log_sent_base|done|by apply orderly_snoc].
Qed.

(** A frame with nothing pending before it. *)
Lemma send_unpended fuel op data o w : ready o -> span_ok data -> (8 <= op -> (length data <= 125)%nat) ->
  (op = KL_WS_OP_CLOSE <-> close_sent o = true) -> drain_enabled o && pending o = false ->
  send_ok o (ws_send_frame (S fuel) op data o w).
Proof.
  intros Hr Hd Hs Hc Hp. cbn [ws_send_frame]. destruct (drain_enabled o) eqn:Ee.
  - simpl in Hp. rewrite Hp, bind_Some_l. simpl.
    assert (Hg : close_sent o && negb (op =? KL_WS_OP_CLOSE) = false).
    { destruct (close_sent o); [|done]. by rewrite (proj2 Hc eq_refl). }
    rewrite Hg. destruct Hr as [Hb Hpl].
    destruct (drain_frame_spec _ data (drain o) w (ob_drain _ Hb) (server_header_span op (Z.of_nat (length data))) Hd) as (ok & d' & w1 & -> & Hi).
    rewrite bind_Some_l. apply (logged_spec op data ok (set_drain d' o)); [|done|by apply Hc].
    split; [by apply set_drain_base|done].
  - destruct (conn_write_all_total (server_header op (Z.of_nat (length data))) w) as (ok & w1 & ->). rewrite bind_Some_l.
    destruct (ok && (0 <? length data)%nat).
    + destruct (conn_write_all_total data w1) as (ok2 & w2 & ->). rewrite bind_Some_l. by apply logged_spec; [| |apply Hc].
    + rewrite bind_Some_l. by apply logged_spec; [| |apply Hc].
Qed.

Lemma no_refill (w : W) : refill_ok (writable_cb w).1.
Proof. done. Qed.

Lemma set_moved_inv n o : out_inv o -> out_inv (set_moved n o).
Proof. by intros [[] ? ?]. Qed.

#[local] Arguments ws_send_frame : simpl never.

Lemma backlog_spec fuel o w : out_inv o ->
  exists r o' w', ws_drain_backlog (ws_send_frame (S fuel)) o w = Some (r, o', w') /\ out_inv o' /\
    (close_sent o = true -> close_sent o' = true /\ sent o' = sent o).
Proof.
  intros Hi. unfold ws_drain_backlog. destruct Hi as [Hb Ho Hor].
  destruct (flush_spec no_refill (drain o) w (ob_drain _ Hb)) as (r & d & w1 & ev & -> & Hi1 & _ & _ & H0 & _).
  rewrite bind_Some_l. set (o1 := if _ <? _ then set_moved _ _ else _).
  assert (H1 : out_inv o1 /\ close_sent o1 = close_sent o /\ sent o1 = sent o /\ drain o1 = d /\ pong_buf o1 = pong_buf o).
  { unfold o1. case_if; (split; [|done]); [apply set_moved_inv|]; (split; [by apply set_drain_base|done|done]). }
  clearbody o1. destruct H1 as ([Hb1 Hop1 Hor1] & Hc1 & Hs1 & Hd1 & Hp1).
  destruct (Z.eqb_spec r 0) as [->|]; simpl; [|do 3 eexists; split; [done|]; split; [by split|by rewrite Hc1, Hs1]].
  destruct (pong_owed o1); [|do 3 eexists; split; [done|]; split; [by split|by rewrite Hc1, Hs1]].
  assert (Hb2 : out_base (set_pong (pong_buf o1) false o1)) by by destruct Hb1; split.
  destruct (close_sent o1) eqn:Ec1; simpl.
  { do 3 eexists. split; [done|]. split; [split; [done|by simpl; rewrite Ec1|done]|]. simpl. by rewrite Ec1, Hs1. }
  edestruct (send_unpended fuel KL_WS_OP_PONG (pong_buf o1) (set_pong (pong_buf o1) false o1) w1)
    as (rc & o2 & w2 & -> & Hi2 & _).
  - split; [done|]. by apply Hop1.
  - unfold span_ok. pose proof (ob_pong _ Hb1). lia.
  - intros _. apply Hb1.
  - simpl. rewrite Ec1. done.
  - simpl. unfold pending, kl_drain_pending, buf_len. simpl. rewrite Hd1, (H0 eq_refl). simpl. apply andb_false_r.
  - rewrite bind_Some_l. do 3 eexists. split; [done|]. split; [done|]. intros Hc. congruence.
Qed.

(** Sending a frame: any backlog goes first. *)
Lemma send_frame_ok op data o w : ready o -> span_ok data -> (8 <= op -> (length data <= 125)%nat) ->
  (op = KL_WS_OP_CLOSE <-> close_sent o = true) -> send_ok o (send_frame op data o w).
Proof.
  intros Hr Hd Hs Hc. destruct (drain_enabled o && pending o) eqn:Ep; [|by apply send_unpended].
  apply andb_true_iff in Ep as [Ee Ep]. enough (H : forall f, f = 1%nat -> send_ok o (ws_send_frame (S f) op data o w)) by by apply H.
  intros f Ef. unfold ws_send_frame. fold (@ws_send_frame W Env). rewrite Ee, Ep.
  destruct (backlog_spec 0 o w (ready_inv _ Hr)) as (r & o1 & w1 & Hb & [Hb1 Ho1 Hor1] & Hcs). rewrite <- Ef in Hb.
  rewrite Hb, bind_Some_l. clear Hb. case_if.
  { unfold send_ok, broken. destruct (monotonic_ms w1) as [now w2]. do 3 eexists. split; [done|]. split; [|done].
    split; [by apply set_close_base|done|done]. }
  destruct (close_sent o1 && negb (op =? KL_WS_OP_CLOSE)) eqn:Eg.
  { do 3 eexists. split; [done|]. split; [by split|]. apply andb_true_iff in Eg as [-> _]. done. }
  assert (Hr1 : ready o1).
  { split; [done|]. destruct (close_sent o) eqn:Eco; [destruct (Hcs eq_refl) as [_ ->]; apply Hr|]. apply Ho1.
    destruct (close_sent o1); [|done]. simpl in Eg. apply negb_false_iff, Z.eqb_eq in Eg. by apply Hc in Eg. }
  assert (Hc1 : op = KL_WS_OP_CLOSE -> close_sent o1 = true) by by intros Eop; apply Hcs, Hc.
  destruct (drain_frame_spec _ data (drain o1) w1 (ob_drain _ Hb1) (server_header_span op (Z.of_nat (length data))) Hd)
    as (ok & d' & w2 & -> & Hi).
  rewrite bind_Some_l. set (w3 := if negb _ && _ then _ else _). clearbody w3.
  edestruct (logged_spec op data ok (set_drain d' o1) w2 w3) as (rc & o2 & w4 & Heq & Hi2 & Hcl).
  - split; [by apply set_drain_base|apply Hr1].
  - exact Hs.
  - done.
  - exists rc, o2, w4. split; [done|]. split; [done|]. intros Hx. apply Hcl. by apply Hcs.
Qed.

(** What an operation of the connection promises: once a CLOSE was sent, or the output broke, nothing
    more is. *)
Definition quiet (o o' : WsOut) : Prop := close_sent o = true -> close_sent o' = true /\ sent o' = sent o.

Definition api_ok (o : WsOut) (r : option (Z * WsOut * W)) : Prop :=
  exists rc o' w', r = Some (rc, o', w') /\ out_inv o' /\ quiet o o'.

Lemma quiet_refl o : quiet o o.
Proof. done. Qed.

Lemma quiet_trans o1 o2 o3 : quiet o1 o2 -> quiet o2 o3 -> quiet o1 o3.
Proof. unfold quiet. intros H1 H2 Hc. destruct (H1 Hc) as [Hc2 <-]. auto. Qed.

(** An operation that stands behind the test of [close_sent]. *)
Lemma guarded_ok r0 o w r : out_inv o -> (close_sent o = false -> send_ok o r) ->
  api_ok o (if close_sent o then Some (r0, o, w) else r).
Proof.
  intros Hi Hr. destruct (close_sent o) eqn:Ec; [by exists r0, o, w|].
  destruct (Hr eq_refl) as (rc & o' & w' & -> & Hi' & _). exists rc, o', w'. split; [done|]. split; [done|]. intros Hc. congruence.
Qed.

(** A frame of another kind than CLOSE. *)
Lemma send_plain_ok op data o w : out_inv o -> close_sent o = false -> span_ok data -> (8 <= op -> (length data <= 125)%nat) ->
  op <> KL_WS_OP_CLOSE -> send_ok o (send_frame op data o w).
Proof. intros Hi Hc Hd Hs Ho. apply send_frame_ok; [by apply inv_ready|done|done|]. rewrite Hc. by split. Qed.

Lemma send_text_ok data o w : out_inv o -> span_ok data -> api_ok o (kl_ws_server_send_text data o w).
Proof. intros Hi Hd. apply guarded_ok; [done|]. intros Hc. by apply send_plain_ok. Qed.

Lemma send_binary_ok data o w : out_inv o -> span_ok data -> api_ok o (kl_ws_server_send_binary data o w).
Proof. intros Hi Hd. apply guarded_ok; [done|]. intros Hc. by apply send_plain_ok. Qed.

Lemma send_ping_ok data o w : out_inv o -> span_ok data -> api_ok o (kl_ws_server_send_ping data o w).
Proof.
  intros Hi Hd. apply guarded_ok; [done|]. intros Hc. destruct (Nat.ltb_spec 125 (length data)).
  - by exists (-1), o, w.
  - by apply send_plain_ok.
Qed.

Lemma close_payload_small code reason : (length (close_payload code reason) <= 125)%nat.
Proof. unfold close_payload. case_if; [|simpl; lia]. rewrite length_app, length_take. simpl length. lia. Qed.

Lemma server_close_spec cfg code reason o w : out_inv o ->
  exists rc o' w', kl_ws_server_close cfg code reason o w = Some (rc, o', w') /\ out_inv o' /\ quiet o o' /\ close_sent o' = true.
Proof.
  intros Hi. unfold kl_ws_server_close. destruct (close_sent o) eqn:Ec; [by exists 0, o, w|].
  destruct (monotonic_ms w) as [now w1]. pose proof (close_payload_small code reason) as Hl.
  edestruct (send_frame_ok KL_WS_OP_CLOSE (close_payload code reason) (set_close true (u64 (now + ws_close_timeout cfg)) o) w1)
    as (rc & o' & w' & -> & Hi' & Hc).
  - destruct (inv_ready o Hi Ec). split; [by apply set_close_base|done].
  - unfold span_ok. lia.
  - done.
  - done.
  - exists rc, o', w'. split; [done|]. split; [done|]. split; [intros Hx; congruence|by apply Hc].
Qed.

Lemma enable_drain_inv m o : out_inv o -> 0 <= m <= SIZE_MAX ->
  out_inv (kl_ws_server_enable_drain m o) /\ quiet o (kl_ws_server_enable_drain m o).
Proof.
  intros [[Hd Hp Hs] Ho Hor] Hm. unfold kl_ws_server_enable_drain. pose proof drain_inv_init as Hd0.
  assert (Hset : forall d, inv d -> inv (kl_drain_set_max_size d m)) by by intros d []; split.
  repeat case_if; (split; [split; [split; simpl; auto|done|done]|by intros Hc]).
Qed.

(** A callback's program runs to its end. *)
Lemma run_prog_ok cfg p o w : prog_ok p -> out_inv o ->
  exists o' w', run_prog cfg p o w = Some (o', w') /\ out_inv o' /\ quiet o o'.
Proof.
  revert o w. induction p as [|d k IH|d k IH|d k IH|c r k IH|m k IH]; intros o w Hp Hi; cbn [run_prog prog_ok] in *.
  { eauto using quiet_refl. }
  1, 2, 3: destruct Hp as [Hd Hk]. 1: pose proof (send_text_ok d o w Hi Hd) as Ha. 2: pose proof (send_binary_ok d o w Hi Hd) as Ha.
  3: pose proof (send_ping_ok d o w Hi Hd) as Ha.
  1, 2, 3: destruct Ha as (rc & o1 & w1 & -> & Hi1 & Hq1); rewrite bind_Some_l;
    destruct (IH rc o1 w1 (Hk rc) Hi1) as (o2 & w2 & -> & Hi2 & Hq2); eauto 9 using quiet_trans.
  - destruct (server_close_spec cfg c r o w Hi) as (rc & o1 & w1 & -> & Hi1 & Hq1 & _). rewrite bind_Some_l.
    destruct (IH rc o1 w1 (Hp rc) Hi1) as (o2 & w2 & -> & Hi2 & Hq2). eauto 9 using quiet_trans.
  - destruct Hp as [Hm Hk]. destruct (enable_drain_inv m o Hi Hm) as [Hi1 Hq1].
    destruct (IH 0 _ w (Hk 0) Hi1) as (o2 & w2 & -> & Hi2 & Hq2). eauto 9 using quiet_trans.
Qed.

End sending.

(** ** Receiving: what the application may be told *)

Definition event_ok (cfg : KlWsServerConfig) (e : event) : Prop :=
  match e with
  | EMessage data is_binary => Z.of_nat (length data) <= ws_max_message cfg /\ (is_binary = false -> utf8 data)
  | EPing data => (length data <= 125)%nat
  | EClose _ reason => (length reason <= 123)%nat
  | EFail _ => True
  end.

Definition is_close (e : event) : bool := match e with EClose _ _ => true | _ => false end.
Definition closes (l : list event) : nat := length (List.filter is_close l).

Lemma closes_snoc l e : closes (l ++ [e]) = (closes l + if is_close e then 1 else 0)%nat.
Proof. unfold closes. rewrite List.filter_app, length_app. simpl. by destruct (is_close e). Qed.

(** Between two frames, whatever the parser holds. *)
Record msg_inv (cfg : KlWsServerConfig) (i : WsIn) : Prop := {
  mi_bytes : Forall is_byte (msg_buf i);
  mi_max : Z.of_nat (length (msg_buf i)) <= ws_max_message cfg;
  mi_cap : Z.of_nat (length (msg_buf i)) <= msg_cap i;
  mi_op : msg_opcode i = 0 \/ msg_opcode i = KL_WS_OP_TEXT \/ msg_opcode i = KL_WS_OP_BINARY;
  mi_utf8 : msg_opcode i = KL_WS_OP_TEXT -> utf8_state i = kl_utf8_validate KL_UTF8_ACCEPT (msg_buf i);
  mi_ctrl : (length (ctrl_buf i) <= 125)%nat;
  mi_events : Forall (event_ok cfg) (events i);
  mi_received : close_received i = false;
  mi_closes : closes (events i) = 0%nat;
}.

(** Inside a frame: the control buffer holds its payload so far, or a message is open. *)
Definition link (i : WsIn) : Prop :=
  let f := frame i in
  state f = KL_WS_FRAME_PAYLOAD -> 0 < payload_read f ->
  if 8 <=? opcode f then Z.of_nat (length (ctrl_buf i)) = payload_read f else msg_opcode i <> 0.

Record in_inv (cfg : KlWsServerConfig) (i : WsIn) : Prop := {
  ii_msg : msg_inv cfg i;
  ii_frame : frame_ok (frame i);
  ii_state : state (frame i) <> KL_WS_FRAME_COMPLETE;
  ii_link : link i;
}.

(** After the connection was closed. *)
Record closed_ok (cfg : KlWsServerConfig) (i : WsIn) : Prop := {
  ci_events : Forall (event_ok cfg) (events i);
  ci_closes : closes (events i) = if close_received i && has_on_close cfg then 1%nat else 0%nat;
}.

Lemma init_in_inv cfg : 0 <= max_message_size cfg -> in_inv cfg init_in.
Proof.
  intros Hm. split; [split; simpl; auto; try lia|apply frame_ok_init|done|done].
  unfold ws_max_message, WS_DEFAULT_MAX_MESSAGE. case_if; lia.
Qed.

Lemma msg_closed cfg i : msg_inv cfg i -> closed_ok cfg i.
Proof. intros [? ? ? ? ? ? Hev Hrc Hcl]. split; [done|]. by rewrite Hrc, Hcl. Qed.

Lemma tell_msg cfg e i : msg_inv cfg i -> event_ok cfg e -> is_close e = false -> msg_inv cfg (tell e i).
Proof.
  intros [? ? ? ? ? ? Hev Hrc Hcl] He Hc. split; auto; simpl.
  - apply Forall_app; auto.
  - by rewrite closes_snoc, Hcl, Hc.
Qed.

Lemma set_frame_msg cfg f i : msg_inv cfg i -> msg_inv cfg (set_frame f i).
Proof. by intros []. Qed.
Lemma set_ctrl_msg cfg b i : msg_inv cfg i -> (length b <= 125)%nat -> msg_inv cfg (set_ctrl b i).
Proof. by intros []. Qed.

Lemma no_msg cfg op i : 0 <= ws_max_message cfg -> 0 <= msg_cap i -> msg_inv cfg i ->
  op = 0 \/ op = KL_WS_OP_TEXT \/ op = KL_WS_OP_BINARY -> msg_inv cfg (set_msg [] op KL_UTF8_ACCEPT i).
Proof. intros H0 Hc [] Ho. split; auto; done. Qed.

#[export] Hint Resolve tell_msg set_frame_msg set_ctrl_msg msg_closed : ws.

Section receiving.
Context {W : Type} {Env : WsEnv W} {EnvOk : WsEnvOk Env} (cfg : KlWsServerConfig) (Hmax : 0 <= max_message_size cfg).

Lemma max_message_nonneg : 0 <= ws_max_message cfg.
Proof using Hmax. unfold ws_max_message, WS_DEFAULT_MAX_MESSAGE. case_if; lia. Qed.

(** What a round promises; [complete] says the frame [f] ended with it. *)
Definition round_ok (f : KlWsFrameParser) (complete : bool) (r : option (@round W)) : Prop :=
  match r with
  | Some (Return open i o _) => open = false /\ closed_ok cfg i /\ out_inv o
  | Some (Go i o _) => msg_inv cfg i /\ (complete = false -> link i) /\ frame i = f /\ out_inv o
  | None => False
  end.

Lemma fail_spec code reason i o w : out_inv o ->
  exists o' w', fail_with cfg code reason i o w = Some (Return false (tell (EFail code) i) o' w') /\ out_inv o'.
Proof.
  intros Ho. unfold fail_with. destruct (server_close_spec cfg code reason o w Ho) as (rc & o' & w' & -> & Ho' & _).
  rewrite bind_Some_l. eauto.
Qed.

Lemma fail_returns code reason i o w : msg_inv cfg i -> out_inv o ->
  exists i' o' w', fail_with cfg code reason i o w = Some (Return false i' o' w') /\ closed_ok cfg i' /\ out_inv o'.
Proof.
  intros Hi Ho. destruct (fail_spec code reason i o w Ho) as (o' & w' & -> & Ho').
  do 3 eexists. split; [done|]. split; [|done]. apply msg_closed, tell_msg; done.
Qed.

Lemma fail_ok f complete code reason i o w : msg_inv cfg i -> out_inv o -> round_ok f complete (fail_with cfg code reason i o w).
Proof. intros Hi Ho. by destruct (fail_returns code reason i o w Hi Ho) as (i' & o' & w' & -> & Hc & Ho'). Qed.

(** A callback: its event is recorded after it ran. *)
Lemma callback_ok {A} (has : bool) (p : wsprog) (w1 w : W) (e : event) i o (k : WsIn -> WsOut -> W -> option A) (P : option A -> Prop) :
  prog_ok p -> out_inv o ->
  (forall o' w', has = true -> out_inv o' -> P (k (tell e i) o' w')) -> (has = false -> P (k i o w)) ->
  P ('(i, o, w) ← (if has then '(o, w) ← run_prog cfg p o w1; Some (tell e i, o, w) else Some (i, o, w)); k i o w).
Proof.
  intros Hp Ho H1 H2. destruct has; [|rewrite bind_Some_l; auto].
  destruct (run_prog_ok cfg p o w1 Hp Ho) as (o' & w' & -> & Ho' & _). rewrite !bind_Some_l. auto.
Qed.

(** A text message is checked when it is delivered. *)
Lemma deliver_ok i o w : msg_inv cfg i -> msg_opcode i <> 0 -> out_inv o -> round_ok (frame i) true (ws_deliver_message cfg i o w).
Proof using EnvOk Hmax.
  intros Hi H0 Ho. unfold ws_deliver_message. destruct (negb _ && negb _) eqn:Eu; [by apply fail_ok|].
  pose proof max_message_nonneg as Hm0.
  assert (He : event_ok cfg (EMessage (msg_buf i) (msg_opcode i =? KL_WS_OP_BINARY))).
  { split; [apply Hi|]. intros Hb. rewrite Hb in Eu. simpl in Eu. apply negb_false_iff, Z.eqb_eq in Eu.
    destruct (mi_op _ _ Hi) as [|[Ht|Ht]]; [done| |by rewrite Ht in Hb].
    rewrite (mi_utf8 _ _ Hi Ht) in Eu. by apply (validate_lang _ _ accept_state ltac:(done) (mi_bytes _ _ Hi)) in Eu. }
  assert (Hgo : forall i1 o1 w1, msg_inv cfg i1 -> frame i1 = frame i -> out_inv o1 -> round_ok (frame i) true (Some (Go (set_msg [] 0 KL_UTF8_ACCEPT i1) o1 w1))).
  { intros i1 o1 w1 Hi1 Hfr Ho1. split; [|split; [done|by split]]. apply no_msg; auto. pose proof (mi_cap _ _ Hi1). lia. }
  pose proof (message_ok w (msg_buf i) (msg_opcode i =? KL_WS_OP_BINARY)) as Hp. destruct (on_message w _ _) as [p w1].
  apply (callback_ok (has_on_message cfg) p w1 w); auto with ws.
Qed.

Lemma grow_ok i a w cap w' : 0 <= a -> Z.of_nat (length (msg_buf i)) <= msg_cap i -> ws_msg_grow cfg i a w = (Some cap, w') ->
  Z.of_nat (length (msg_buf i)) + a <= ws_max_message cfg /\ Z.of_nat (length (msg_buf i)) + a <= cap.
Proof.
  intros Ha Hc. unfold ws_msg_grow. destruct (_ <? a); [done|].
  destruct (Z.ltb_spec (ws_max_message cfg) (Z.of_nat (length (msg_buf i)) + a)); [done|].
  destruct (Z.ltb_spec (msg_cap i) (Z.of_nat (length (msg_buf i)) + a)); [|intros [= <- <-]; lia].
  set (n0 := if negb _ then _ else _). set (n1 := if n0 <? _ then _ else _). set (n2 := if _ <? n1 then _ else _).
  assert (Hn : Z.of_nat (length (msg_buf i)) + a <= n2) by (unfold n2, n1; repeat case_test; lia). clearbody n2.
  destruct (_ <? n2); [done|]. destruct (alloc_ok w n2) as [[] w1]; intros [= <- <-]. lia.
Qed.

Lemma open_message_ok op i i' : msg_inv cfg i -> 0 <= op <= 2 -> open_message op i = Some i' ->
  msg_inv cfg i' /\ msg_opcode i' <> 0 /\ frame i' = frame i.
Proof using Hmax.
  intros Hi Hop. pose proof max_message_nonneg. unfold open_message, KL_WS_OP_CONTINUATION.
  destruct (Z.eqb_spec op 0); cbn [negb]; destruct (Z.eqb_spec (msg_opcode i) 0); cbn [negb]; intros [= <-]; [done|].
  split; [|done]. apply no_msg; auto; [pose proof (mi_cap _ _ Hi); lia|]. unfold KL_WS_OP_TEXT, KL_WS_OP_BINARY. lia.
Qed.

(** The payload of a data frame. *)
Lemma on_data_ok op (start complete : bool) payload i o w : msg_inv cfg i -> out_inv o -> 0 <= op <= 2 -> Forall is_byte payload ->
  (start = false -> msg_opcode i <> 0) -> (8 <=? opcode (frame i)) = false ->
  round_ok (frame i) complete (on_data cfg op start complete payload i o w).
Proof using EnvOk Hmax.
  intros Hi Ho Hop Hb Hst H8. unfold on_data.
  destruct (if start then _ else _) as [i1|] eqn:E1; [|by apply fail_ok].
  assert (H1 : msg_inv cfg i1 /\ msg_opcode i1 <> 0 /\ frame i1 = frame i).
  { destruct start; [by eapply open_message_ok|]. injection E1 as <-. auto. }
  clear E1 Hst. destruct H1 as (Hi1 & Hop1 & Hf1).
  destruct (ws_msg_grow cfg i1 (Z.of_nat (length payload)) w) as [[cap|] w1] eqn:Eg; [|by apply fail_ok].
  apply grow_ok in Eg as [Hg1 Hg2]; [|lia|apply Hi1].
  set (i2 := set_msg _ _ _ (set_msg_cap cap i1)). set (i3 := if _ =? KL_WS_OP_TEXT then _ else i2).
  assert (H3 : msg_inv cfg i3 /\ msg_opcode i3 = msg_opcode i1 /\ frame i3 = frame i1).
  { unfold i3, i2. destruct Hi1 as [Hby Hmx Hcp Hmo Hut Hct Hev Hrc Hcl].
    destruct (Z.eqb_spec (msg_opcode (set_msg (msg_buf i1 ++ payload) (msg_opcode i1) (utf8_state i1) (set_msg_cap cap i1))) KL_WS_OP_TEXT)
      as [Et|Et]; simpl in Et; (split; [|done]); split; simpl; auto; rewrite ?length_app; try lia; try (by apply Forall_app).
    intros _. rewrite (Hut Et), validate_app; auto using accept_state. }
  clearbody i3. destruct H3 as (Hi3 & Hop3 & Hf3). case_if; [by apply fail_ok|].
  destruct (complete && negb (fin (frame i3) =? 0)) eqn:Ed.
  - apply andb_true_iff in Ed as [-> _]. rewrite <- Hf1, <- Hf3. apply deliver_ok; [done|congruence|done].
  - split; [done|]. split; [|split; [congruence|done]]. intros _ _ _. rewrite Hf3, Hf1, H8. congruence.
Qed.

(** Control frames. *)
Lemma handle_ping_ok (complete : bool) payload i o w : msg_inv cfg i -> (complete = false -> link i) -> out_inv o ->
  (length payload <= 125)%nat ->
  round_ok (frame i) complete ('(i, o, w) ← ws_handle_ping cfg payload i o w; Some (Go i o w)).
Proof using EnvOk.
  intros Hi Hl Ho Hp. unfold ws_handle_ping. pose proof (ping_ok w payload) as Hpg.
  assert (Hsame : forall o w, out_inv o -> round_ok (frame i) complete (Some (Go i o w))) by done.
  destruct (has_on_ping cfg).
  { destruct (on_ping w payload) as [p w1]. destruct (run_prog_ok cfg p o w1 Hpg Ho) as (o' & w' & -> & Ho' & _).
    rewrite !bind_Some_l. split; [by apply tell_msg|]. by split; [|split]. }
  destruct (close_sent o) eqn:Ec; cbn [negb]; [by rewrite bind_Some_l; apply Hsame|].
  destruct (drain_enabled o && pending o).
  - rewrite bind_Some_l. apply Hsame. destruct Ho as [[H1 H2 H3] H4 H5]. split; [split; auto|done|done].
    simpl. rewrite length_take. lia.
  - destruct (send_plain_ok KL_WS_OP_PONG payload o w Ho Ec) as (rc & o' & w' & -> & Ho' & _); auto; [unfold span_ok; lia|].
    rewrite !bind_Some_l. by apply Hsame.
Qed.

Lemma handle_close_ok f (complete : bool) payload i o w : msg_inv cfg i -> out_inv o -> (length payload <= 125)%nat ->
  round_ok f complete (ws_handle_close cfg payload i o w).
Proof using EnvOk.
  intros Hi Ho Hp. unfold ws_handle_close.
  set (m := if negb (_ =? 0) then _ else _).
  assert (Hm : exists code reason o' w', m = Some (code, reason, o', w') /\ out_inv o' /\ (length reason <= 123)%nat).
  { unfold m. destruct (negb _).
    - destruct (server_close_spec cfg (kl_ws_close_payload_check payload) [] o w Ho) as (rc & o' & w' & -> & Ho' & _).
      rewrite bind_Some_l. do 4 eexists. split; [done|]. split; [done|]. simpl. lia.
    - set (cr := match payload with b0 :: b1 :: rest => _ | _ => _ end).
      assert (Hr : (length cr.2 <= 123)%nat) by (unfold cr; destruct payload as [|b0 [|b1 rest]]; simpl in *; lia).
      destruct cr as [code reason]. destruct (close_sent o); cbn [negb]; [do 4 eexists; eauto|].
      edestruct (server_close_spec cfg) as (rc & o' & w' & -> & Ho' & _); [done|]. rewrite bind_Some_l. do 4 eexists. eauto. }
  destruct Hm as (code & reason & o' & w' & -> & Ho' & Hr). rewrite bind_Some_l.
  pose proof (close_ok w' code reason) as Hc. destruct (on_close w' code reason) as [p w1].
  destruct Hi as [? ? ? ? ? ? Hev Hrc Hcl].
  apply (callback_ok (has_on_close cfg) p w1 w'); [done|done| |].
  - intros o2 w2 Hh Ho2. split; [done|]. split; [|done]. split; simpl.
    + apply Forall_app; auto.
    + by rewrite closes_snoc, Hcl, Hh.
  - intros Hh. split; [done|]. split; [|done]. split; simpl; [done|]. by rewrite Hcl, Hh.
Qed.

Lemma on_control_ok op (start complete : bool) payload i o w : msg_inv cfg i -> out_inv o -> 8 <= op ->
  Z.of_nat (length ((if start then [] else ctrl_buf i) ++ payload)) = payload_read (frame i) ->
  payload_read (frame i) <= 125 -> opcode (frame i) = op ->
  round_ok (frame i) complete (on_control cfg op start complete payload i o w).
Proof using EnvOk.
  intros Hi Ho H8 Hlen H125 Hop. unfold on_control. set (b := (if start then [] else ctrl_buf i) ++ payload) in *.
  assert (Hi1 : msg_inv cfg (set_ctrl b i)) by (apply set_ctrl_msg; [done|lia]).
  assert (Hl : link (set_ctrl b i)).
  { intros _ _. simpl. rewrite Hop. apply Z.leb_le in H8. by rewrite H8. }
  destruct complete; [|by split; [|split]].
  destruct (op =? KL_WS_OP_CLOSE); [apply handle_close_ok; auto; simpl; lia|].
  destruct (op =? KL_WS_OP_PING); [apply (handle_ping_ok true b (set_ctrl b i)); auto; simpl; lia|]. by split; [|split].
Qed.

(** A frame without payload. *)
Lemma on_empty_ok i o w : msg_inv cfg i -> out_inv o -> valid_opcode (opcode (frame i)) ->
  round_ok (frame i) true (on_empty cfg (opcode (frame i)) i o w).
Proof using EnvOk Hmax.
  intros Hi Ho Hv. unfold on_empty.
  destruct (_ =? KL_WS_OP_CLOSE); [apply handle_close_ok; auto; simpl; lia|].
  destruct (_ =? KL_WS_OP_PING); [apply handle_ping_ok; auto; [done|simpl; lia]|].
  destruct (Z.ltb_spec (opcode (frame i)) 8) as [H8|H8]; cbn [andb]; [|by split; [|split]].
  destruct (payload_len (frame i) =? 0).
  - destruct (open_message (opcode (frame i)) i) as [i1|] eqn:E1; [|by apply fail_ok].
    apply open_message_ok in E1 as (Hi1 & Hop1 & Hf1); [|done|unfold valid_opcode in Hv; lia].
    rewrite <- Hf1. case_if; [by apply deliver_ok|]. by split; [|split].
  - destruct (negb _ && negb _) eqn:Em; [|by split; [|split]]. apply deliver_ok; [done| |done].
    apply andb_true_iff in Em as [_ Em]. by apply negb_true_iff, Z.eqb_neq in Em.
Qed.

(** One round. *)
Lemma after_parse_ok f0 data rc f n i o w : msg_inv cfg i -> link (set_frame f0 i) -> out_inv o ->
  frame_ok f0 -> state f0 <> KL_WS_FRAME_COMPLETE -> Forall is_byte data -> span_ok data ->
  rc = -1 \/ parse_result f0 data rc f n ->
  round_ok f (rc =? 1) (after_parse cfg rc (payload_read f0) n data (set_frame f i) o w).
Proof using EnvOk Hmax.
  intros Hi Hlink Ho Hf0 Hs0 Hb Hsp [->|(Hf & Hn & Hrc & Hrd & Hsame)]; unfold after_parse; [by apply fail_ok; [apply set_frame_msg|]|].
  assert (Hi1 : msg_inv cfg (set_frame f i)) by by apply set_frame_msg.
  assert (Hrc0 : (rc <? 0) = false) by (apply Z.ltb_ge; destruct Hrc as [[-> _]|[-> _]]; lia).
  rewrite Hrc0. cbn [frame set_frame].
  set (hd := match state f with KL_WS_FRAME_HEADER => true | _ => false end).
  case_if; [by apply fail_ok|]. unfold span_ok in Hsp. rewrite u64_small by lia.
  set (pc := payload_read f - payload_read f0) in *.
  pose proof (fo_state _ Hf) as Hst. pose proof (fo_state _ Hf0) as Hst0.
  destruct (Z.ltb_spec 0 pc) as [Hpc|Hpc]; cbn [andb]; cycle 1.
  { destruct (Z.eqb_spec rc 1) as [->|Hne].
    - apply (on_empty_ok (set_frame f i)); [done|done|]. destruct Hrc as [[? _]|(_ & Es & _)]; [done|]. cbn. rewrite Es in Hst. apply Hst.
    - split; [done|]. split; [|done]. intros _ Es Hpr. cbn [frame set_frame] in *. destruct (state f0) eqn:Es0; [| |done].
      + pose proof (ao_read _ Hst0). lia.
      + destruct (Hsame eq_refl) as [Hop _]. specialize (Hlink Es0). cbn in Hlink |- *. rewrite Hop.
        replace (payload_read f) with (payload_read f0) by lia. apply Hlink. lia. }
  destruct hd eqn:Ehd.
  { exfalso. unfold hd in Ehd. destruct (state f) eqn:Es; try done. pose proof (ao_read _ Hst) as Hz.
    destruct (state f0) eqn:Es0; [pose proof (ao_read _ Hst0); lia|by destruct (Hsame eq_refl)|done]. }
  assert (Hv : valid_opcode (opcode f) /\ (8 <= opcode f -> payload_len f <= 125) /\ 0 <= payload_read f <= payload_len f).
  { unfold hd in Ehd. by destruct (state f). }
  clear Hst. destruct Hv as (Hv & H125 & Hpr). cbn [negb].
  set (raw := take (Z.to_nat pc) (drop (Z.to_nat (n - pc)) data)).
  assert (Hraw : Z.of_nat (length raw) = pc) by (unfold raw; rewrite length_take, length_drop; lia).
  set (payload := if negb (masked f =? 0) then _ else raw).
  assert (Hpay : Z.of_nat (length payload) = pc /\ Forall is_byte payload).
  { assert (Forall is_byte raw) by by apply Forall_take, Forall_drop. unfold payload. case_if; [|done].
    rewrite ws_unmask_chunk, mask_chunk_length. split; [done|]. apply mask_chunk_bytes; [done|apply Hf]. }
  clearbody payload. destruct Hpay as [Hpl Hpb]. case_if; [by apply fail_ok|].
  assert (Hmid : (payload_read f0 =? 0) = false -> state f0 = KL_WS_FRAME_PAYLOAD /\ 0 < payload_read f0 /\ opcode f = opcode f0).
  { intros Hz. apply Z.eqb_neq in Hz. destruct (state f0) eqn:Es0; [by pose proof (ao_read _ Hst0)| |done].
    destruct (Hsame eq_refl). split; [done|]. split; [lia|done]. }
  destruct (Z.leb_spec 8 (opcode f)) as [H8|H8].
  - apply (on_control_ok (opcode f) _ _ _ (set_frame f i)); [done|done|done| |cbn; specialize (H125 H8); lia|done].
    cbn. rewrite length_app, Nat2Z.inj_add, Hpl. destruct (Z.eqb_spec (payload_read f0) 0) as [Hz|Hz]; [cbn; lia|].
    destruct (Hmid eq_refl) as (Es0 & Hp0 & Hop). specialize (Hlink Es0 Hp0). cbn in Hlink. rewrite <- Hop in Hlink.
    destruct (Z.leb_spec 8 (opcode f)); lia.
  - apply (on_data_ok (opcode f) _ _ _ (set_frame f i)); [done|done|unfold valid_opcode in Hv; lia|done| |cbn; by apply Z.leb_gt].
    intros Hz. destruct (Hmid Hz) as (Es0 & Hp0 & Hop). specialize (Hlink Es0 Hp0). cbn in Hlink. rewrite <- Hop in Hlink.
    destruct (Z.leb_spec 8 (opcode f)); [lia|done].
Qed.

(** What a read of the connection leaves. *)
Definition read_ok (i : WsIn) (open : bool) : Prop := if open then in_inv cfg i else closed_ok cfg i.

Lemma readable_loop_ok fuel data i o w : in_inv cfg i -> out_inv o -> Forall is_byte data -> span_ok data ->
  (length data <= fuel)%nat ->
  exists open i' o' w', readable_loop cfg fuel data i o w = Some (open, i', o', w') /\ read_ok i' open /\ out_inv o'.
Proof using EnvOk Hmax.
  revert data i o w. induction fuel as [|fuel IH]; intros data i o w Hi Ho Hb Hsp Hl;
    (destruct data as [|b data]; [do 4 eexists; split; [done|]; split; [|done]; destruct (id Hi) as [[]]; rewrite mi_received0, andb_false_r; done|]).
  { simpl in Hl. lia. }
  cbn [readable_loop]. destruct Hi as [Hmi Hf Hst Hlk].
  destruct (kl_ws_frame_parse (frame i) (b :: data)) as [[rc f] n] eqn:Ep.
  destruct (parse_ok _ _ _ _ _ Hf Hst Hb ltac:(done) Ep) as [->|Hp].
  { destruct (fail_returns KL_WS_PROTOCOL_ERROR [] (set_frame f i) o w ltac:(by apply set_frame_msg) Ho) as (i1 & o1 & w1 & Heq & H1).
    change (after_parse cfg (-1) _ _ _ ?i1 o w) with (fail_with cfg KL_WS_PROTOCOL_ERROR [] i1 o w). rewrite Heq, bind_Some_l. do 4 eexists. by split. }
  pose proof (after_parse_ok (frame i) (b :: data) rc f n i o w Hmi ltac:(by destruct i) Ho Hf Hst Hb Hsp (or_intror Hp)) as Hr.
  destruct (after_parse _ _ _ _ _ _ _ _) as [[op i1 o1 w1|i1 o1 w1]|]; [| |done]; rewrite bind_Some_l.
  { destruct Hr as (-> & Hc & Ho1). do 4 eexists. split; [done|]. by split. }
  destruct Hr as (Hmi1 & Hlk1 & Hfr1 & Ho1). destruct Hp as (Hf1 & Hn & Hrc & _).
  destruct (Z.eqb_spec n 0); [lia|]. apply IH; [|done|by apply Forall_drop| |].
  - destruct Hrc as [(-> & _ & Hs1)|(-> & _)].
    + rewrite <- Hfr1 in *. split; [done|done|done|by apply Hlk1].
    + split; [by apply set_frame_msg|apply frame_ok_init|done|done].
  - unfold span_ok in *. rewrite length_drop. lia.
  - rewrite length_drop. cbn [length] in *. lia.
Qed.

Lemma on_readable_data_ok data i o pg w : in_inv cfg i -> out_inv o -> Forall is_byte data -> span_ok data ->
  exists open i' o' pg' w', kl_ws_server_on_readable_data cfg data i o pg w = Some (open, i', o', pg', w') /\
    read_ok i' open /\ out_inv o'.
Proof using EnvOk Hmax.
  intros Hi Ho Hb Hs. unfold kl_ws_server_on_readable_data.
  destruct (readable_loop_ok (length data) data i o w Hi Ho Hb Hs ltac:(done)) as (open & i' & o' & w' & -> & H1).
  rewrite bind_Some_l. do 5 eexists. by split.
Qed.

Lemma read_more_ok n i o pg w : in_inv cfg i -> out_inv o -> (0 < n)%nat ->
  exists open i' o' pg' w', read_more cfg n i o pg w = Some (open, i', o', pg', w') /\ read_ok i' open /\ out_inv o'.
Proof using EnvOk Hmax.
  revert i o pg w. induction n as [|n IH]; intros i o pg w Hi Ho Hn; [lia|]. cbn [read_more].
  destruct (conn_read w KL_HTTP_CONN_READ_BUF_SIZE) as [nr w1] eqn:Er.
  assert (Hc : closed_ok cfg i) by by apply msg_closed, ii_msg.
  destruct nr as [data|]; [|do 5 eexists; by split].
  destruct (read_bytes w KL_HTTP_CONN_READ_BUF_SIZE data ltac:(by rewrite Er)) as [Hb Hs].
  destruct data as [|b data]; [do 5 eexists; split; [done|]; split; [by destruct (is_tls w1)|done]|].
  destruct (on_readable_data_ok (b :: data) i o pg w1 Hi Ho Hb Hs) as (open & i1 & o1 & pg1 & w2 & -> & Hr & Ho1).
  rewrite bind_Some_l. destruct open; cbn [andb]; [|do 5 eexists; by split].
  destruct (is_tls w2 && (0 <? tls_pending w2)); cbn [andb]; [|do 5 eexists; by split].
  destruct (Nat.ltb_spec 0 n); [by apply IH|do 5 eexists; by split].
Qed.

Lemma begin_ping_ok now pg o w : out_inv o ->
  exists s pg' o' w', begin_ping cfg now pg o w = Some (s, pg', o', w') /\ out_inv o'.
Proof using EnvOk.
  intros Ho. unfold begin_ping. destruct (ws_out_pending o w); cbn [negb]; [rewrite bind_Some_l; eauto 6|].
  destruct (send_ping_ok [] o w Ho ltac:(by vm_compute)) as (rc & o1 & w1 & -> & Ho1 & _). rewrite !bind_Some_l. eauto 6.
Qed.

Lemma auto_ping_ok now stall i pg o w : out_inv o ->
  exists s pg' o' w', kl_ws_server_auto_ping cfg now stall i pg o w = Some (s, pg', o', w') /\ out_inv o'.
Proof using EnvOk.
  intros Ho. unfold kl_ws_server_auto_ping. repeat (case_if; [by eauto 6|]). case_if; [|by apply begin_ping_ok].
  case_if; [by apply begin_ping_ok|]. case_if; [by eauto 6|].
  destruct (server_close_spec cfg KL_WS_GOING_AWAY [] o w Ho) as (rc & o1 & w1 & -> & [Hb Hop Hor] & _). rewrite bind_Some_l.
  do 4 eexists. split; [done|]. split; [by apply set_close_base|done|done].
Qed.

Lemma cleanup_ok i o w : closed_ok cfg i -> out_inv o ->
  exists i' o' w', kl_ws_server_cleanup cfg i o w = Some (i', o', w') /\ Forall (event_ok cfg) (events i') /\
    closes (events i') = (if has_on_close cfg then 1%nat else 0%nat) /\ out_inv o' /\ sent o' = sent o.
Proof using EnvOk.
  intros [Hev Hcl] [Hb Hop Hor]. unfold kl_ws_server_cleanup. set (o1 := set_close true (close_deadline_ms o) o).
  assert (Ho1 : out_inv o1) by (split; [by apply set_close_base|done|done]).
  assert (Hfree : forall o2, out_inv o2 -> sent o2 = sent o ->
    let o3 := if drain_enabled o2 then set_drain (kl_drain_free (drain o2)) o2 else o2 in out_inv o3 /\ sent o3 = sent o).
  { intros o2 [[Hd Hp Hs] Hop2 Hor2] Hs2. destruct (drain_enabled o2); (split; [|done]); (split; [split; auto|done|done]).
    destruct Hd as [H1 H2 H3]. simpl. unfold kl_drain_free. destruct (buf_alloc (drain o2)); split; simpl; auto; [unfold buf_len; simpl; lia|tauto]. }
  destruct (negb (close_received i) && has_on_close cfg) eqn:Ec.
  - pose proof (close_ok w 1006 []) as Hp. destruct (on_close w 1006 []) as [p w1].
    destruct (run_prog_ok cfg p o1 w1 Hp Ho1) as (o2 & w2 & -> & Ho2 & Hq). rewrite !bind_Some_l.
    destruct (Hq eq_refl) as [_ Hs2]. apply andb_true_iff in Ec as [Ec ->]. apply negb_true_iff in Ec. rewrite Ec in Hcl.
    do 3 eexists. split; [done|]. split; [apply Forall_app; split; [done|apply Forall_singleton; simpl; lia]|].
    split; [by cbn [tell events]; rewrite closes_snoc, Hcl|]. by apply Hfree.
  - rewrite bind_Some_l. do 3 eexists. split; [done|]. split; [done|]. split; [|by apply Hfree].
    rewrite Hcl. by destruct (close_received i), (has_on_close cfg).
Qed.

(** ** Sessions *)

(** What the driver of the connection and the application do to it. *)
Inductive ws_op :=
| OpRead | OpData (data : list Z) | OpWritable | OpApp (p : wsprog)
| OpShutdown | OpPing (now stall_ms : Z) | OpTimeout (now : Z).

Definition ws_op_ok (a : ws_op) : Prop :=
  match a with
  | OpData data => Forall is_byte data /\ span_ok data
  | OpApp p => prog_ok p
  | _ => True
  end.

(** The first component says whether the connection stays open. *)
Definition ws_run (a : ws_op) (i : WsIn) (o : WsOut) (pg : WsPing) (w : W) : option (bool * WsIn * WsOut * WsPing * W) :=
  match a with
  | OpRead => kl_ws_server_on_readable cfg i o pg w
  | OpData data => kl_ws_server_on_readable_data cfg data i o pg w
  | OpWritable => '(open, o, w) ← kl_ws_server_on_writable o w; Some (open, i, o, pg, w)
  | OpApp p => '(o, w) ← run_prog cfg p o w; Some (true, i, o, pg, w)
  | OpShutdown => '(o, w) ← kl_ws_server_drain_close cfg o w; Some (true, i, o, pg, w)
  | OpPing now stall => '(_, pg, o, w) ← kl_ws_server_auto_ping cfg now stall i pg o w; Some (true, i, o, pg, w)
  | OpTimeout now => Some (negb (kl_ws_server_check_close_timeout i o now), i, o, pg, w)
  end.

(** Operations until one closes the connection, then the cleanup. *)
Fixpoint ws_session (ops : list ws_op) (i : WsIn) (o : WsOut) (pg : WsPing) (w : W) : option (WsIn * WsOut * W) :=
  match ops with
  | [] => kl_ws_server_cleanup cfg i o w
  | a :: ops =>
      '(open, i, o, pg, w) ← ws_run a i o pg w;
      if (open : bool) then ws_session ops i o pg w else kl_ws_server_cleanup cfg i o w
  end.

Lemma ws_run_ok a i o pg w : in_inv cfg i -> out_inv o -> ws_op_ok a ->
  exists open i' o' pg' w', ws_run a i o pg w = Some (open, i', o', pg', w') /\ read_ok i' open /\ out_inv o'.
Proof using EnvOk Hmax.
  intros Hi Ho Ha. assert (Hc : closed_ok cfg i) by by apply msg_closed, ii_msg.
  destruct a as [|data| |p| |now stall|now]; simpl.
  - apply read_more_ok; [done|done|lia].
  - by apply on_readable_data_ok; try apply Ha.
  - unfold kl_ws_server_on_writable. case_if; [rewrite bind_Some_l; do 5 eexists; by split|].
    destruct (backlog_spec 1 o w Ho) as (r & o1 & w1 & Hb & Ho1 & _). unfold send_frame. rewrite Hb, !bind_Some_l.
    do 5 eexists. split; [done|]. split; [by destruct (r <? 0)|done].
  - destruct (run_prog_ok cfg p o w Ha Ho) as (o1 & w1 & -> & Ho1 & _). rewrite bind_Some_l. do 5 eexists. by split.
  - unfold kl_ws_server_drain_close. case_if; [rewrite bind_Some_l; do 5 eexists; by split|].
    destruct (server_close_spec cfg KL_WS_GOING_AWAY (bytes "Server shutting down") o w Ho) as (rc & o1 & w1 & -> & Ho1 & _).
    rewrite !bind_Some_l. do 5 eexists. by split.
  - destruct (auto_ping_ok now stall i pg o w Ho) as (s & pg1 & o1 & w1 & -> & Ho1). rewrite bind_Some_l. do 5 eexists. by split.
  - do 5 eexists. split; [done|]. split; [by destruct (kl_ws_server_check_close_timeout i o now)|done].
Qed.

Lemma ws_session_ok ops : forall i o pg w, in_inv cfg i -> out_inv o -> Forall ws_op_ok ops ->
  exists i' o' w', ws_session ops i o pg w = Some (i', o', w') /\ Forall (event_ok cfg) (events i') /\
    closes (events i') = (if has_on_close cfg then 1%nat else 0%nat) /\ out_inv o'.
Proof using EnvOk Hmax.
  assert (Hclean : forall i o w, closed_ok cfg i -> out_inv o ->
    exists i' o' w', kl_ws_server_cleanup cfg i o w = Some (i', o', w') /\ Forall (event_ok cfg) (events i') /\
    closes (events i') = (if has_on_close cfg then 1%nat else 0%nat) /\ out_inv o').
  { intros i o w Hi Ho. destruct (cleanup_ok i o w Hi Ho) as (i' & o' & w' & ? & ? & ? & ? & _). eauto 8. }
  induction ops as [|a ops IH]; intros i o pg w Hi Ho Hops; cbn [ws_session].
  { apply Hclean; [by apply msg_closed, ii_msg|done]. }
  apply Forall_cons in Hops as [Ha Hops].
  destruct (ws_run_ok a i o pg w Hi Ho Ha) as (open & i1 & o1 & pg1 & w1 & -> & Hr & Ho1). rewrite bind_Some_l.
  destruct open; [by apply IH|by apply Hclean].
Qed.

(** C14.  A WebSocket connection of the server, whatever bytes the peer sends and in whatever pieces,
    whatever the application sends, from its callbacks or outside, with or without a drain, with
    refused allocations, short and failed writes: every operation returns; the application is given
    only messages within the size limit, text messages only if they are UTF-8, pings of at most 125
    bytes; [on_close] is called exactly once.  On the wire, nothing follows a CLOSE frame or a frame
    that was cut short, and no control frame exceeds 125 bytes. *)
Theorem ws_server_safe (ops : list ws_op) (pg : WsPing) (w : W) (Hops : Forall ws_op_ok ops) :
  exists i o w', ws_session ops init_in init_out pg w = Some (i, o, w') /\
    Forall (event_ok cfg) (events i) /\ closes (events i) = (if has_on_close cfg then 1%nat else 0%nat) /\
    orderly (sent o) /\ Forall small (sent o).
Proof using EnvOk Hmax.
  destruct (ws_session_ok ops init_in init_out pg w (init_in_inv cfg Hmax) init_out_inv Hops)
    as (i & o & w' & Heq & Hev & Hcl & [[_ _ Hs] _ Hor]).
  exists i, o, w'. auto 9.
Qed.

End receiving.

(** A connection whose writes take three bytes at a time and every fourth nothing, with an
    application that echoes messages through a drain. *)
#[local] Instance slow_conn : WsEnv nat := {|
  conn_read w _ := (Some [137; 128; 1; 2; 3; 4], S w); touch w := w; tls_pending _ := 0;
  conn_write w p := (if (w mod 4 =? 3)%nat then 0 else Z.min 3 (Z.of_nat (length p)), S w);
  out_would_block _ _ := false; write_window _ n := n; is_tls _ := false; would_block _ := false;
  monotonic_ms w := (Z.of_nat w, w); alloc_ok w _ := (true, w); request_write w := w;
  out_pending _ := false; send_progress w := Z.of_nat w;
  on_message w d b := (PDrain 0 (fun _ => (if b then PBinary else PText) (take 64 d) (fun _ => PDone)), w);
  on_ping w d := (PDone, w); on_close w _ _ := (PText (bytes "bye") (fun _ => PDone), w)
|}.

#[local] Instance slow_conn_ok : WsEnvOk slow_conn.
Proof.
  split; simpl.
  - intros w p. case_if; lia.
  - intros w _ data [= <-]. split; [by apply bytes_ok|by vm_compute].
  - intros w d b. split; [lia|]. intros _. assert (span_ok (take 64 d)) by (unfold span_ok; rewrite length_take; lia).
    by destruct b.
  - done.
  - intros w _ _. split; [by vm_compute|done].
Qed.

Definition sample_cfg : KlWsServerConfig := mkConfig true true false 0 0 0 0.

(** "Hi" in two fragments with a PING between them, in three reads; then a CLOSE with code 1000. *)
Definition sample_session : list ws_op :=
  [OpData [1; 129; 7; 7; 7; 7; 79; 137; 129; 1; 2]; OpData [3; 4; 55; 128; 129; 9; 9];
   OpData [9; 9; 96]; OpWritable; OpRead; OpData [136; 130; 0; 0; 0; 0; 3; 232]; OpWritable].

Lemma sample_session_ok : Forall ws_op_ok sample_session.
Proof. repeat constructor; try (by apply bytes_ok); by vm_compute. Qed.

Lemma ws_server_safe_witness :
  exists i o w', ws_session sample_cfg sample_session init_in init_out (mkPing 0 false false 0 0) 0%nat = Some (i, o, w') /\
    (events i, (fun f => (s_opcode f, s_payload f)) <$> sent o) =
    ([EMessage (bytes "Hi") false; EClose 1000 []], [(10, bytes "6"); (1, bytes "Hi"); (10, []); (8, [3; 232])]) /\
    orderly (sent o).
Proof.
  destruct (ws_server_safe sample_cfg ltac:(by vm_compute) sample_session (mkPing 0 false false 0 0) 0%nat sample_session_ok)
    as (i & o & w' & Heq & _ & _ & Ho & _).
  exists i, o, w'. split; [done|]. split; [|done]. vm_compute in Heq. by injection Heq as <- <- <-.
Defined.

End WsServer.
