(* ===== verification/WsSession.v ===== *)
(** * What a WebSocket session of the server means, frame by frame

    A reference semantics of the receive side of src/src/protocols/websocket/http_server_ws.c on whole
    client frames, and the theorem that the byte-wise, incremental code implements it however the
    bytes are cut into reads. *)
From S2P Require Import Prelude Drain WsFrame WsServer.
Import Drain WsFrame WsServer.

Module WsSession.

(** ** Client frames *)

Record cframe := mkFrame { f_fin : bool; f_op : Z; f_key : list Z; f_data : list Z }.

Definition fin_bit (f : cframe) : Z := if f_fin f then KL_WS_FIN_BIT else 0.
Definition f_len (f : cframe) : Z := Z.of_nat (length (f_data f)).

Definition f_header (f : cframe) : list Z :=
  u8 (Z.lor (fin_bit f) (Z.land (f_op f) KL_WS_OPCODE_MASK)) :: frame_lengths KL_WS_MASK_BIT (f_len f) ++ f_key f.

Definition encode (f : cframe) : list Z := f_header f ++ mask_chunk (f_key f) 0 (f_data f).

Record frame_valid (f : cframe) : Prop := {
  fv_op : valid_opcode (f_op f);
  fv_control : 8 <= f_op f -> f_len f <= 125 /\ f_fin f = true;
  fv_key : length (f_key f) = 4%nat /\ Forall is_byte (f_key f);
  fv_data : Forall is_byte (f_data f);
  fv_len : f_len f <= SIZE_MAX / 2;
}.

(** ** The reference semantics *)

(** The message being assembled: opcode of its first frame and the bytes so far. *)
Definition partial := option (Z * list Z).

(** The frame's opcode against the message: what it continues. *)
Definition start_message (op : Z) (m : partial) : option (Z * list Z) :=
  match m with
  | None => if op =? KL_WS_OP_CONTINUATION then None else Some (op, [])
  | Some msg => if op =? KL_WS_OP_CONTINUATION then Some msg else None
  end.

(** The code and reason of a CLOSE frame. *)
Definition close_told (payload : list Z) : Z * list Z :=
  let bad := kl_ws_close_payload_check payload in
  if negb (bad =? 0) then (bad, [])
  else match payload with
       | b0 :: b1 :: rest => (u16 (Z.lor (Z.shiftl b0 8) b1), rest)
       | _ => (1005, [])
       end.

Inductive outcome := Open (m : partial) | PeerClosed | Failed.

(** Text so far that no continuation can make valid. *)
Definition hopeless (op : Z) (msg : list Z) : bool :=
  (op =? KL_WS_OP_TEXT) && (kl_utf8_validate KL_UTF8_ACCEPT msg =? KL_UTF8_REJECT).

Section semantics.
Context (cfg : KlWsServerConfig).

Definition when (b : bool) (e : event) : list event := if b then [e] else [].

(** The whole message: delivered, unless it is text and not UTF-8. *)
Definition message_end (op : Z) (msg : list Z) : list event * outcome :=
  if negb (op =? KL_WS_OP_BINARY) && negb (kl_utf8_validate KL_UTF8_ACCEPT msg =? KL_UTF8_ACCEPT) then ([], Failed)
  else (when (has_on_message cfg) (EMessage msg (op =? KL_WS_OP_BINARY)), Open None).

(** One frame: what the application is told, and where the connection stands. *)
Definition frame_meaning (m : partial) (f : cframe) : list event * outcome :=
  if (0 <? f_len f) && (ws_max_frame cfg <? f_len f) then ([], Failed)
  else if 8 <=? f_op f then
    if f_op f =? KL_WS_OP_CLOSE then
      let '(code, reason) := close_told (f_data f) in (when (has_on_close cfg) (EClose code reason), PeerClosed)
    else if f_op f =? KL_WS_OP_PING then (when (has_on_ping cfg) (EPing (f_data f)), Open m)
    else ([], Open m)
  else
    match start_message (f_op f) m with
    | None => ([], Failed)
    | Some (op, acc) =>
        let msg := acc ++ f_data f in
        if ws_max_message cfg <? Z.of_nat (length msg) then ([], Failed)
        else if hopeless op msg then ([], Failed)
        else if f_fin f then message_end op msg
        else ([], Open (Some (op, msg)))
    end.

Fixpoint session_meaning (m : partial) (fs : list cframe) : list event * outcome :=
  match fs with
  | [] => ([], Open m)
  | f :: fs =>
      let '(ev, out) := frame_meaning m f in
      match out with
      | Open m' => let '(ev', out') := session_meaning m' fs in (ev ++ ev', out')
      | _ => (ev, out)
      end
  end.

End semantics.

(** ** Where the parser is inside a frame *)

Definition h_len (f : cframe) : nat := length (f_header f).
Definition total (f : cframe) : nat := length (encode f).

Lemma total_eq f : total f = (h_len f + length (f_data f))%nat.
Proof. unfold total, encode, h_len. by rewrite length_app, mask_chunk_length. Qed.

Lemma header_bytes f : frame_valid f -> Forall is_byte (f_header f).
Proof.
  intros Hv. unfold f_header, frame_lengths. repeat case_if; cbn; repeat constructor; try apply u8_byte; apply (fv_key _ Hv).
Qed.

Lemma encode_frame_bytes f : frame_valid f -> Forall is_byte (encode f).
Proof.
  intros Hv. apply Forall_app. split; [by apply header_bytes|]. apply mask_chunk_bytes; [apply Hv|apply (fv_key _ Hv)].
Qed.

(** The parser with [n] bytes of the payload read. *)
Definition at_payload (st : KlWsFrameParseState) (f : cframe) (n : nat) : KlWsFrameParser :=
  parsing st (fin_bit f) (f_op f) KL_WS_MASK_BIT (f_len f) (f_key f) (f_header f) (Z.of_nat n).

Lemma parse_header f rest : frame_valid f ->
  kl_ws_frame_parse kl_ws_frame_init (f_header f ++ rest) =
  payload_phase (at_payload (if f_len f =? 0 then KL_WS_FRAME_COMPLETE else KL_WS_FRAME_PAYLOAD) f 0) rest (Z.of_nat (h_len f)).
Proof.
  intros [Ho Hc Hk Hd Hl]. unfold f_header, at_payload, h_len. apply written_header; try done.
  - unfold fin_bit, KL_WS_FIN_BIT. destruct (f_fin f); auto.
  - intros H8. destruct (Hc H8) as [H125 Hf]. unfold fin_bit. by rewrite Hf.
  - right. split; [done|apply Hk].
  - unfold f_len in *. lia.
Qed.

Lemma payload_cut f n data : (n < length (f_data f))%nat -> (length data <= length (f_data f) - n)%nat ->
  forall k, payload_phase (at_payload KL_WS_FRAME_PAYLOAD f n) data k =
  (if (n + length data =? length (f_data f))%nat then (1, at_payload KL_WS_FRAME_COMPLETE f (n + length data), k + Z.of_nat (length data))
   else (0, at_payload KL_WS_FRAME_PAYLOAD f (n + length data), k + Z.of_nat (length data))).
Proof.
  intros Hn Hl k. unfold payload_phase, at_payload, parsing. cbn [state payload_len payload_read header_buf header_need fin opcode masked mask_key].
  unfold f_len. destruct (Z.ltb_spec (Z.of_nat (length data)) (Z.of_nat (length (f_data f)) - Z.of_nat n)).
  - destruct (Nat.eqb_spec (n + length data) (length (f_data f))); [lia|].
    destruct (Z.leb_spec (Z.of_nat (length (f_data f))) (Z.of_nat n + Z.of_nat (length data))); [lia|]. by rewrite Nat2Z.inj_add.
  - destruct (Nat.eqb_spec (n + length data) (length (f_data f))) as [He|]; [|lia].
    replace (Z.of_nat (length (f_data f)) - Z.of_nat n) with (Z.of_nat (length data)) by lia. rewrite <- Nat2Z.inj_add, He.
    by rewrite Z.leb_refl.
Qed.

(** The parser after the first [k] bytes of the frame, [k] short of the whole. *)
Definition parser_at (f : cframe) (k : nat) : KlWsFrameParser :=
  if (k <? h_len f)%nat then (kl_ws_frame_parse kl_ws_frame_init (take k (encode f))).1.2
  else at_payload KL_WS_FRAME_PAYLOAD f (k - h_len f).

Lemma encode_take_header f k : (k <= h_len f)%nat -> take k (encode f) = take k (f_header f).
Proof. intros Hk. apply take_app_le, Hk. Qed.

(** A parse of the first [k] bytes and of the rest. *)
Lemma parse_cut f k b : frame_valid f -> split_ok kl_ws_frame_init (take k (encode f)) b.
Proof. intros Hv. apply parse_split; [apply frame_wf_init|]. by apply Forall_take, encode_frame_bytes. Qed.

Lemma parse_just_header f : frame_valid f ->
  exists rc fp, kl_ws_frame_parse kl_ws_frame_init (f_header f) = (rc, fp, Z.of_nat (h_len f)) /\ payload_read fp = 0.
Proof.
  intros Hv. pose proof (parse_header f [] Hv) as Hh. rewrite app_nil_r in Hh. rewrite Hh.
  destruct (Z.eqb_spec (f_len f) 0) as [H0|H0]; [do 2 eexists; by split|].
  rewrite payload_cut by (unfold f_len in *; simpl; lia). rewrite Z.add_0_r. case_if; do 2 eexists; by split.
Qed.

Lemma header_partial f k : frame_valid f -> (k < h_len f)%nat ->
  kl_ws_frame_parse kl_ws_frame_init (take k (encode f)) = (0, parser_at f k, Z.of_nat k) /\
  state (parser_at f k) = KL_WS_FRAME_HEADER /\ payload_read (parser_at f k) = 0.
Proof.
  intros Hv Hk. unfold parser_at. destruct (Nat.ltb_spec k (h_len f)); [|lia].
  destruct k as [|k]; [done|]. pose proof (parse_cut f (S k) (drop (S k) (f_header f)) Hv) as Hs.
  pose proof (encode_frame_bytes f Hv) as Hb. apply (Forall_take _ (S k)) in Hb.
  rewrite encode_take_header in * by lia. unfold split_ok in Hs. rewrite take_drop in Hs.
  set (a := take (S k) (f_header f)) in *. assert (Hla : length a = S k) by (unfold a; rewrite length_take; unfold h_len in *; lia).
  destruct (parse_just_header f Hv) as (rcH & fH & HH & Hr). rewrite HH in Hs.
  destruct (kl_ws_frame_parse kl_ws_frame_init a) as [[rc f1] n1] eqn:Ep. cbn [fst snd].
  assert (Ha : a <> []) by (intros E; by rewrite E in Hla). destruct Hs as [Hs0 Hs1].
  destruct (Z.eq_dec rc 0) as [->|Hne]; [|destruct (Hs1 Hne) as (Hn1 & _ & [= _ _ Hn2]); lia].
  destruct (Hs0 eq_refl) as (_ & -> & Heq). rewrite Hla in *.
  destruct (parse_ok _ _ _ _ _ frame_ok_init ltac:(done) Hb Ha Ep) as [?|(Hf1 & _ & [(_ & _ & Hst)|[? _]] & _)]; [done| |done].
  pose proof (fo_state _ Hf1) as Hs. destruct (state f1) eqn:Es1; [by split; [|split; [|apply Hs]]| |done]. exfalso.
  pose proof (payload_phase_ok f1 (drop (S k) (f_header f)) 0 Hf1 Es1) as Hp. unfold kl_ws_frame_parse in Heq. rewrite Es1 in Heq.
  destruct (payload_phase f1 (drop (S k) (f_header f)) 0) as [[rc2 f2] n2]. injection Heq as <- <- Hn.
  destruct Hp as (_ & _ & Hpos & _ & Hrd & _). unfold h_len in *. destruct Hs as (_ & _ & Hs).
  assert (0 < n2) by (apply Hpos; intros E; apply (f_equal length) in E; rewrite length_drop in E; simpl in E; lia). lia.
Qed.

(** After [k] bytes, and on the bytes that follow them. *)
Lemma parse_prefix f k : frame_valid f -> (k < total f)%nat ->
  kl_ws_frame_parse kl_ws_frame_init (take k (encode f)) = (0, parser_at f k, Z.of_nat k).
Proof.
  intros Hv Hk. destruct (Nat.lt_ge_cases k (h_len f)) as [Hlt|Hge]; [by apply header_partial|].
  unfold parser_at. destruct (Nat.ltb_spec k (h_len f)); [lia|]. rewrite total_eq in Hk.
  unfold encode. rewrite take_app_ge by done. rewrite parse_header by done.
  assert (Hl : length (take (k - length (f_header f)) (mask_chunk (f_key f) 0 (f_data f))) = (k - h_len f)%nat).
  { rewrite length_take, mask_chunk_length. unfold h_len in *. lia. }
  destruct (Z.eqb_spec (f_len f) 0) as [H0|H0]; [unfold f_len in H0; lia|].
  rewrite payload_cut by (rewrite ?Hl; lia). rewrite Hl, Nat.add_0_l.
  destruct (Nat.eqb_spec (k - h_len f) (length (f_data f))); [lia|]. f_equal. lia.
Qed.

Lemma parse_some f k d : frame_valid f -> (k + length d < total f)%nat -> d = take (length d) (drop k (encode f)) ->
  kl_ws_frame_parse (parser_at f k) d = (0, parser_at f (k + length d), Z.of_nat (length d)).
Proof.
  intros Hv Hk Hd. pose proof (parse_cut f k d Hv) as Hs. unfold split_ok in Hs. rewrite parse_prefix in Hs by (done || lia).
  destruct Hs as [Hs _]. destruct (Hs eq_refl) as (_ & _ & Heq). rewrite Hd, take_take_drop, parse_prefix in Heq by (done || lia).
  rewrite <- Hd in Heq. destruct (kl_ws_frame_parse (parser_at f k) d) as [[rc2 f2] n2]. injection Heq as <- <- Hn. f_equal. lia.
Qed.

Lemma parse_rest f k rest : frame_valid f -> (k < total f)%nat ->
  kl_ws_frame_parse (parser_at f k) (drop k (encode f) ++ rest) =
  (1, at_payload KL_WS_FRAME_COMPLETE f (length (f_data f)), Z.of_nat (total f - k)).
Proof.
  intros Hv Hk. pose proof (parse_cut f k (drop k (encode f) ++ rest) Hv) as Hs. unfold split_ok in Hs. rewrite parse_prefix in Hs by done.
  destruct Hs as [Hs _]. destruct (Hs eq_refl) as (_ & _ & Heq). rewrite app_assoc, take_drop in Heq.
  unfold encode in Heq at 1. rewrite <- app_assoc, parse_header in Heq by done.
  rewrite payload_all in Heq by (try done; unfold at_payload, parsing, f_len; cbn; by rewrite ?mask_chunk_length).
  destruct (kl_ws_frame_parse (parser_at f k) _) as [[rc2 f2] n2]. injection Heq as <- <- Hn.
  rewrite mask_chunk_length in Hn. rewrite total_eq in *. f_equal. lia.
Qed.

(** How much of the payload the first [k] bytes hold. *)
Definition read_at (f : cframe) (k : nat) : nat := k - h_len f.

Lemma parser_at_read f k : frame_valid f -> (k < total f)%nat -> payload_read (parser_at f k) = Z.of_nat (read_at f k).
Proof.
  intros Hv Hk. unfold read_at. destruct (Nat.lt_ge_cases k (h_len f)) as [Hlt|Hge].
  - destruct (header_partial f k Hv Hlt) as (_ & _ & ->). lia.
  - unfold parser_at. destruct (Nat.ltb_spec k (h_len f)); [lia|done].
Qed.

(** The payload bytes among [c] bytes that start at offset [k] of the frame. *)
Lemma payload_slice f k c d : (k + c <= total f)%nat -> (c <= length d)%nat -> take c d = take c (drop k (encode f)) ->
  let pc := (read_at f (k + c) - read_at f k)%nat in
  ws_unmask (take pc (drop (c - pc) d)) (f_key f) (Z.of_nat (read_at f k)) = take pc (drop (read_at f k) (f_data f)).
Proof.
  intros Hk Hc Hd pc. rewrite total_eq in Hk. rewrite ws_unmask_chunk.
  destruct (Nat.eq_dec pc 0%nat) as [->|Hpc]; [done|]. unfold pc, read_at in *. clear pc.
  set (x := (c - (k + c - h_len f - (k - h_len f)))%nat). set (pc := (k + c - h_len f - (k - h_len f))%nat) in *.
  assert (Hx : (x + pc = c)%nat) by lia.
  assert (Hraw : take pc (drop x d) = take pc (mask_chunk (f_key f) (Z.of_nat (k - h_len f)) (drop (k - h_len f) (f_data f)))).
  { replace pc with (c - x)%nat by lia. rewrite <- skipn_firstn_comm, Hd, skipn_firstn_comm, drop_drop. f_equal.
    unfold encode. rewrite drop_app_ge by (unfold h_len in *; lia).
    replace (k + x - length (f_header f))%nat with (k - h_len f)%nat by (unfold h_len in *; lia).
    rewrite <- (take_drop (k - h_len f) (f_data f)) at 1. rewrite mask_chunk_app, length_take_le by lia.
    rewrite drop_app_length'; [done|]. rewrite mask_chunk_length, length_take. lia. }
  rewrite Hraw. set (l := drop (k - h_len f) (f_data f)). set (p := Z.of_nat (k - h_len f)).
  rewrite <- (take_drop pc l) at 1. rewrite mask_chunk_app, take_app_length'.
  - by rewrite mask_chunk_involutive.
  - rewrite mask_chunk_length, length_take. unfold l. rewrite length_drop. lia.
Qed.

(** ** What the handlers do to the receiving state *)

(** The events the reference semantics speaks of: all but the failure. *)
Definition is_told (e : event) : bool := match e with EFail _ => false | _ => true end.
Definition told_of (l : list event) : list event := List.filter is_told l.

Lemma told_snoc l e : told_of (l ++ [e]) = told_of l ++ (if is_told e then [e] else []).
Proof. unfold told_of. by rewrite List.filter_app. Qed.

Definition tell_if (b : bool) (e : event) (i : WsIn) : WsIn := if b then tell e i else i.

Section handlers.
Context {W : Type} {Env : WsEnv W} {EnvOk : WsEnvOk Env} (cfg : KlWsServerConfig).
Context (Halloc : forall w n, (alloc_ok w n).1 = true).
Context (Hmax : 0 <= ws_max_message cfg <= SIZE_MAX / 2).

(** The round ends the connection, or goes on, with a given receiving state. *)
Definition returns (i' : WsIn) (r : option (@round W)) : Prop := exists o w, r = Some (Return false i' o w) /\ out_inv o.
Definition goes (i' : WsIn) (r : option (@round W)) : Prop := exists o w, r = Some (Go i' o w) /\ out_inv o.

Lemma deliver_spec i o w : out_inv o ->
  let r := ws_deliver_message cfg i o w in
  if negb (msg_opcode i =? KL_WS_OP_BINARY) && negb (utf8_state i =? KL_UTF8_ACCEPT) then returns (tell (EFail 1007) i) r
  else goes (set_msg [] 0 KL_UTF8_ACCEPT (tell_if (has_on_message cfg) (EMessage (msg_buf i) (msg_opcode i =? KL_WS_OP_BINARY)) i)) r.
Proof using EnvOk.
  intros Ho. unfold ws_deliver_message. case_if.
  - destruct (fail_spec cfg 1007 invalid_utf8 i o w Ho) as (o' & w' & Heq & Ho'). by exists o', w'.
  - pose proof (message_ok w (msg_buf i) (msg_opcode i =? KL_WS_OP_BINARY)) as Hp. destruct (on_message w _ _) as [p w1].
    apply (callback_ok cfg (has_on_message cfg) p w1 w); [done|done| |]; intros; eexists _, _; (split; [|done]); unfold tell_if.
    + by rewrite H.
    + by rewrite H.
Qed.

Lemma handle_ping_spec payload i o w : out_inv o -> (length payload <= 125)%nat ->
  exists o' w', ws_handle_ping cfg payload i o w = Some (tell_if (has_on_ping cfg) (EPing payload) i, o', w') /\ out_inv o'.
Proof using EnvOk.
  intros Ho Hp. unfold ws_handle_ping, tell_if. pose proof (ping_ok w payload) as Hpg. destruct (has_on_ping cfg).
  { destruct (on_ping w payload) as [p w1]. destruct (run_prog_ok cfg p o w1 Hpg Ho) as (o' & w' & -> & Ho' & _).
    rewrite bind_Some_l. eauto. }
  destruct (close_sent o) eqn:Ec; cbn [negb]; [eauto|]. case_if.
  - do 2 eexists. split; [done|]. destruct Ho as [[H1 H2 H3] H4 H5]. split; [split; auto|done|done].
    simpl. rewrite length_take. lia.
  - destruct (send_plain_ok KL_WS_OP_PONG payload o w Ho Ec) as (rc & o' & w' & -> & Ho' & _); auto; [unfold span_ok; lia|].
    rewrite bind_Some_l. eauto.
Qed.

Lemma handle_close_spec payload i o w : out_inv o ->
  returns (let '(code, reason) := close_told payload in tell_if (has_on_close cfg) (EClose code reason) (set_received i))
    (ws_handle_close cfg payload i o w).
Proof using EnvOk.
  intros Ho. unfold ws_handle_close. set (m := if negb (_ =? 0) then _ else _). set (cr := close_told payload).
  assert (Hm : exists o' w', m = Some (cr.1, cr.2, o', w') /\ out_inv o').
  { unfold m, cr, close_told. destruct (negb _).
    - destruct (server_close_spec cfg (kl_ws_close_payload_check payload) [] o w Ho) as (rc & o' & w' & -> & Ho' & _).
      rewrite bind_Some_l. eauto.
    - set (c2 := match payload with b0 :: b1 :: rest => _ | _ => _ end). destruct c2 as [code reason].
      destruct (close_sent o); cbn [negb]; [eauto|].
      edestruct (server_close_spec cfg) as (rc & o' & w' & -> & Ho' & _); [done|]. rewrite bind_Some_l. eauto. }
  clearbody m. destruct Hm as (o' & w' & -> & Ho'). rewrite bind_Some_l. destruct cr as [code reason]. cbn [fst snd].
  pose proof (close_ok w' code reason) as Hc. destruct (on_close w' code reason) as [p w1].
  apply (callback_ok cfg (has_on_close cfg) p w1 w'); [done|done| |]; intros; eexists _, _; (split; [|done]); unfold tell_if.
  - by rewrite H.
  - by rewrite H.
Qed.

(** The message buffer grows whenever the limit allows it. *)
Lemma grow_spec i a w : 0 <= a <= SIZE_MAX / 2 -> Z.of_nat (length (msg_buf i)) <= ws_max_message cfg ->
  exists w', if ws_max_message cfg <? Z.of_nat (length (msg_buf i)) + a then ws_msg_grow cfg i a w = (None, w')
             else exists cap, ws_msg_grow cfg i a w = (Some cap, w').
Proof using Halloc Hmax.
  intros Ha Hl. unfold ws_msg_grow. change (SIZE_MAX / 2) with 9223372036854775807 in *.
  destruct (Z.ltb_spec (SIZE_MAX - Z.of_nat (length (msg_buf i))) a); [lia|].
  destruct (Z.ltb_spec (ws_max_message cfg) (Z.of_nat (length (msg_buf i)) + a)); [eauto|]. case_if; [|eauto].
  set (n1 := if (_ <? _ + a) then _ else _). set (n2 := if _ <? n1 then _ else _).
  assert (n2 <= ws_max_message cfg) by (unfold n2; case_test; lia). clearbody n2.
  destruct (Z.ltb_spec 9223372036854775807 n2); [lia|]. pose proof (Halloc w n2) as Hw.
  destruct (alloc_ok w n2) as [ok w1]. cbn in Hw. subst ok. eauto.
Qed.

(** ** The receiving state inside a frame *)

Definition msg_at (m : partial) (i : WsIn) : Prop :=
  match m with
  | None => msg_opcode i = 0
  | Some (op, b) =>
      (op = KL_WS_OP_TEXT \/ op = KL_WS_OP_BINARY) /\ msg_opcode i = op /\ msg_buf i = b /\ Forall is_byte b /\
      Z.of_nat (length b) <= ws_max_message cfg /\
      (op = KL_WS_OP_TEXT -> utf8_state i = kl_utf8_validate KL_UTF8_ACCEPT b /\ kl_utf8_validate KL_UTF8_ACCEPT b <> KL_UTF8_REJECT)
  end.

(** The message with the first [j] payload bytes of the frame added. *)
Definition cur (m : partial) (f : cframe) (j : nat) : option partial :=
  if (8 <=? f_op f) || (j =? 0)%nat then Some m
  else '(op, acc) ← start_message (f_op f) m; Some (Some (op, acc ++ take j (f_data f))).

Record at_pos (m : partial) (told : list event) (f : cframe) (k : nat) (i : WsIn) : Prop := {
  ap_frame : frame i = parser_at f k;
  ap_open : close_received i = false;
  ap_told : told_of (events i) = told;
  ap_msg : exists mc, cur m f (read_at f k) = Some mc /\ msg_at mc i;
  ap_ctrl : 8 <= f_op f -> (0 < read_at f k)%nat -> ctrl_buf i = take (read_at f k) (f_data f);
}.

(** Everything but the message is as before. *)
Definition same (i i' : WsIn) : Prop :=
  frame i' = frame i /\ events i' = events i /\ close_received i' = close_received i /\ ctrl_buf i' = ctrl_buf i.

Definition fails (i : WsIn) (r : option (@round W)) : Prop := exists c i', returns (tell (EFail c) i') r /\ same i i'.

Lemma fail_fails code reason i i' o w : out_inv o -> same i i' -> fails i (fail_with cfg code reason i' o w).
Proof using EnvOk.
  intros Ho Hs. destruct (fail_spec cfg code reason i' o w Ho) as (o' & w' & Heq & Ho'). exists code, i'. split; [|done]. by exists o', w'.
Qed.

Lemma open_message_spec op m i : 0 <= op <= 2 -> msg_at m i ->
  match start_message op m with
  | None => open_message op i = None
  | Some (op', acc) => exists i1, open_message op i = Some i1 /\ msg_at (Some (op', acc)) i1 /\ same i i1
  end.
Proof using Hmax.
  intros Hop Hm. unfold start_message, open_message, KL_WS_OP_CONTINUATION. destruct m as [[op' acc]|].
  - destruct (id Hm) as (Ho & Hmo & _). rewrite Hmo.
    assert (op' <> 0) by (unfold KL_WS_OP_TEXT, KL_WS_OP_BINARY in Ho; lia).
    destruct (Z.eqb_spec op 0); cbn [negb]; destruct (Z.eqb_spec op' 0); try done. exists i. by split; [|split].
  - simpl in Hm. rewrite Hm. destruct (Z.eqb_spec op 0); cbn [negb]; [done|].
    eexists. split; [done|]. split; [|done]. split; [unfold KL_WS_OP_TEXT, KL_WS_OP_BINARY; lia|]. repeat (split; [done|]). split; [simpl; lia|done].
Qed.

(** The state a data frame's next piece is appended to. *)
Lemma piece_start m f j i : valid_opcode (f_op f) -> f_op f < 8 ->
  (exists mc, cur m f j = Some mc /\ msg_at mc i) ->
  let opened := if Z.of_nat j =? 0 then open_message (f_op f) i else Some i in
  match start_message (f_op f) m with
  | None => opened = None
  | Some (op, acc) => exists i1, opened = Some i1 /\ msg_at (Some (op, acc ++ take j (f_data f))) i1 /\ same i i1
  end.
Proof using Hmax.
  intros Hv H8 (mc & Hc & Hm) opened. unfold cur in Hc. destruct (Z.leb_spec 8 (f_op f)); [lia|]. cbn [orb] in Hc.
  unfold opened. destruct (Nat.eqb_spec j 0) as [->|Hj].
  - injection Hc as <-. pose proof (open_message_spec (f_op f) m i ltac:(unfold valid_opcode in Hv; lia) Hm) as Ho.
    cbn [Z.of_nat Z.eqb]. destruct (start_message (f_op f) m) as [[op acc]|]; [|done]. by rewrite take_0, app_nil_r.
  - destruct (Z.eqb_spec (Z.of_nat j) 0); [lia|]. destruct (start_message (f_op f) m) as [[op acc]|]; [|done].
    rewrite bind_Some_l in Hc. injection Hc as <-. exists i. by split; [|split].
Qed.

(** A failed prefix of a message fails the whole. *)
Lemma hopeless_app op a b : Forall is_byte a -> Forall is_byte b -> hopeless op a = true -> hopeless op (a ++ b) = true.
Proof.
  intros Ha Hb. unfold hopeless. rewrite !andb_true_iff, !Z.eqb_eq. intros [-> Hr]. split; [done|].
  rewrite validate_app, Hr by auto using accept_state. by apply validate_reject.
Qed.

(** The payload bytes [j .. j + pc) of a data frame. *)
Lemma data_piece m f j pc (complete : bool) i o w : frame_valid f -> f_op f < 8 -> out_inv o ->
  (exists mc, cur m f j = Some mc /\ msg_at mc i) -> (j + pc <= length (f_data f))%nat ->
  let r := on_data cfg (f_op f) (Z.of_nat j =? 0) complete (take pc (drop j (f_data f))) i o w in
  match start_message (f_op f) m with
  | None => fails i r
  | Some (op, acc) =>
      let msg := acc ++ take (j + pc) (f_data f) in
      if (ws_max_message cfg <? Z.of_nat (length msg)) || hopeless op msg then fails i r
      else exists i1 w1, same i i1 /\ msg_at (Some (op, msg)) i1 /\
             r = if complete && negb (fin (frame i) =? 0) then ws_deliver_message cfg i1 o w1 else Some (Go i1 o w1)
  end.
Proof using EnvOk Halloc Hmax.
  intros Hv H8 Ho Hc Hl r. pose proof (piece_start m f j i (fv_op _ Hv) H8 Hc) as Hp. cbv zeta in Hp. unfold r, on_data.
  destruct (start_message (f_op f) m) as [[op acc]|]; [|rewrite Hp; by apply fail_fails].
  destruct Hp as (i1 & -> & (Hop & Hmo & Hmb & Hby & Hmx & Hut) & Hs).
  set (p := take pc (drop j (f_data f))). assert (Hpb : Forall is_byte p) by by apply Forall_take, Forall_drop, (fv_data _ Hv).
  assert (Hlp : Z.of_nat (length p) = Z.of_nat pc) by (unfold p; rewrite length_take, length_drop; lia).
  assert (Hmsg : acc ++ take (j + pc) (f_data f) = (acc ++ take j (f_data f)) ++ p).
  { unfold p. by rewrite <- app_assoc, take_take_drop. }
  pose proof (fv_len _ Hv) as Hfl. unfold f_len in Hfl.
  destruct (grow_spec i1 (Z.of_nat (length p)) w ltac:(lia) ltac:(by rewrite Hmb)) as (w1 & Hg).
  rewrite Hmb, <- Nat2Z.inj_add, <- length_app, <- Hmsg in Hg. cbv zeta.
  destruct (Z.ltb_spec (ws_max_message cfg) (Z.of_nat (length (acc ++ take (j + pc) (f_data f))))) as [Hbig|Hfit]; cbn [orb].
  { rewrite Hg. by apply fail_fails. }
  destruct Hg as (cap & ->). set (i2 := set_msg _ _ _ (set_msg_cap cap i1)). set (i3 := if _ =? KL_WS_OP_TEXT then _ else i2).
  assert (H3 : same i i3 /\ msg_opcode i3 = op /\ msg_buf i3 = acc ++ take (j + pc) (f_data f) /\
    (op = KL_WS_OP_TEXT -> utf8_state i3 = kl_utf8_validate KL_UTF8_ACCEPT (acc ++ take (j + pc) (f_data f)))).
  { unfold i3, i2. cbn [msg_opcode set_msg set_msg_cap utf8_state msg_buf]. rewrite Hmo, Hmb, Hmsg.
    destruct (Z.eqb_spec op KL_WS_OP_TEXT) as [Et|Et]; cbn; (split; [exact Hs|]); (split; [done|]); (split; [done|]);
      intros; [|done]. destruct (Hut Et) as [-> _]. symmetry. apply validate_app; auto using accept_state. }
  clearbody i3. destruct H3 as (Hs3 & Hmo3 & Hmb3 & Hut3). rewrite Hmo3.
  assert (Hh : (op =? KL_WS_OP_TEXT) && (utf8_state i3 =? KL_UTF8_REJECT) = hopeless op (acc ++ take (j + pc) (f_data f))).
  { unfold hopeless. destruct (Z.eqb_spec op KL_WS_OP_TEXT) as [Et|]; [|done]. by rewrite (Hut3 Et). }
  rewrite Hh. destruct (hopeless op _) eqn:Eh; [by apply fail_fails|]. exists i3, w1. split; [done|]. destruct (id Hs3) as (-> & _).
  split; [|done]. repeat (split; [done|]). split; [by rewrite Hmsg; apply Forall_app|]. split; [done|]. intros Et.
  split; [by apply Hut3|]. unfold hopeless in Eh. rewrite Et in Eh. cbn [Z.eqb Pos.eqb andb] in Eh. by apply Z.eqb_neq in Eh.
Qed.

(** A round that reads payload. *)
Lemma after_payload st f k c rc d i o w : frame_valid f -> st <> KL_WS_FRAME_HEADER -> 0 <= rc ->
  (k + c <= total f)%nat -> (c <= length d)%nat -> take c d = take c (drop k (encode f)) ->
  (read_at f k < read_at f (k + c))%nat ->
  let i1 := set_frame (at_payload st f (read_at f (k + c))) i in
  let p := take (read_at f (k + c) - read_at f k) (drop (read_at f k) (f_data f)) in
  after_parse cfg rc (Z.of_nat (read_at f k)) (Z.of_nat c) d i1 o w =
  if ws_max_frame cfg <? f_len f then fail_with cfg KL_WS_TOO_BIG [] i1 o w
  else if 8 <=? f_op f then on_control cfg (f_op f) (Z.of_nat (read_at f k) =? 0) (rc =? 1) p i1 o w
  else on_data cfg (f_op f) (Z.of_nat (read_at f k) =? 0) (rc =? 1) p i1 o w.
Proof.
  intros Hv Hst Hrc Hk Hc Hd Hlt i1 p. unfold after_parse.
  assert (Hfr : frame i1 = at_payload st f (read_at f (k + c))) by done. clearbody i1. rewrite Hfr.
  cbn [at_payload parsing state masked payload_read payload_len opcode].
  pose proof (fv_len _ Hv) as Hfl. unfold f_len in Hfl. rewrite total_eq in Hk.
  destruct (Z.ltb_spec rc 0); [lia|]. change (KL_WS_MASK_BIT / 128 =? 0) with false. rewrite andb_false_r.
  rewrite u64_small by (unfold read_at in *; change (SIZE_MAX / 2) with 9223372036854775807 in Hfl; lia).
  destruct (Z.ltb_spec 0 (Z.of_nat (read_at f (k + c)) - Z.of_nat (read_at f k))); [|lia].
  assert (Hh : negb match st with KL_WS_FRAME_HEADER => true | _ => false end = true) by by destruct st.
  rewrite Hh. cbn [andb negb]. change (mask_key _) with (f_key f).
  assert (Hp : ws_unmask (take (Z.to_nat (Z.of_nat (read_at f (k + c)) - Z.of_nat (read_at f k)))
    (drop (Z.to_nat (Z.of_nat c - (Z.of_nat (read_at f (k + c)) - Z.of_nat (read_at f k)))) d)) (f_key f) (Z.of_nat (read_at f k)) = p).
  { rewrite <- Nat2Z.inj_sub by lia. rewrite Nat2Z.id.
    replace (Z.to_nat (Z.of_nat c - Z.of_nat (read_at f (k + c) - read_at f k)))
      with (c - (read_at f (k + c) - read_at f k))%nat by (unfold read_at in *; lia).
    apply payload_slice; [by rewrite total_eq|done|done]. }
  by rewrite Hp.
Qed.

Lemma prefix_fails m f j j' i : frame_valid f -> f_op f < 8 -> (ws_max_frame cfg <? f_len f) = false ->
  (exists mc, cur m f j = Some mc /\ msg_at mc i) -> (j <= j' <= length (f_data f))%nat ->
  match start_message (f_op f) m with
  | None => True
  | Some (op, acc) => let msg := acc ++ take j' (f_data f) in
      (ws_max_message cfg <? Z.of_nat (length msg)) || hopeless op msg = true
  end -> frame_meaning cfg m f = ([], Failed).
Proof using Hmax.
  intros Hv H8 Emf Hc Hj. pose proof (piece_start m f j i (fv_op _ Hv) H8 Hc) as Hp. cbv zeta in Hp.
  unfold frame_meaning. rewrite Emf, andb_false_r. destruct (Z.leb_spec 8 (f_op f)); [lia|].
  destruct (start_message (f_op f) m) as [[op acc]|]; [|done]. destruct Hp as (i1 & _ & (_ & _ & _ & Hby & _) & _).
  apply Forall_app in Hby as [Hby _]. cbv zeta. intros [Hbig|Hh]%orb_true_iff.
  - apply Z.ltb_lt in Hbig. rewrite length_app, length_take in *.
    destruct (Z.ltb_spec (ws_max_message cfg) (Z.of_nat (length acc + length (f_data f)))); [done|lia].
  - rewrite <- (take_drop j' (f_data f)), app_assoc, (hopeless_app op (acc ++ take j' (f_data f))); [by case_if| | |done].
    + apply Forall_app. split; [done|]. by apply Forall_take, (fv_data _ Hv).
    + by apply Forall_drop, (fv_data _ Hv).
Qed.

(** A round that does not finish the frame. *)
Lemma round_some m told f k d i o w : frame_valid f -> at_pos m told f k i -> out_inv o -> (0 < length d)%nat ->
  (k + length d < total f)%nat -> d = take (length d) (drop k (encode f)) ->
  let r := after_parse cfg 0 (payload_read (frame i)) (Z.of_nat (length d)) d (set_frame (parser_at f (k + length d)) i) o w in
  (exists i', goes i' r /\ at_pos m told f (k + length d) i') \/
  (frame_meaning cfg m f = ([], Failed) /\ fails (set_frame (parser_at f (k + length d)) i) r).
Proof using EnvOk Halloc Hmax.
  intros Hv [Hf Hop Ht Hm Hctl] Ho Hd Hk Hdd r. unfold r. rewrite Hf, parser_at_read by (done || lia). clear r.
  destruct (Nat.lt_ge_cases (read_at f k) (read_at f (k + length d))) as [Hlt|Hge]; cycle 1.
  { left. assert (Hsame : read_at f (k + length d) = read_at f k) by (unfold read_at in *; lia).
    exists (set_frame (parser_at f (k + length d)) i). split.
    - exists o, w. split; [|done]. unfold after_parse. cbn [frame set_frame]. change (0 <? 0) with false. cbv iota.
      rewrite parser_at_read, Hsame, Z.sub_diag by (done || lia). change (0 <? u64 0) with false. cbn [andb]. change (0 =? 1) with false. cbv iota.
      case_if; [|done]. exfalso. unfold parser_at, read_at in *. destruct (Nat.ltb_spec (k + length d) (h_len f)).
      + destruct (header_partial f (k + length d) Hv ltac:(lia)) as (Hp & Hs & _). rewrite Hp in Heqb. cbn [fst snd] in Heqb.
        by rewrite Hs in Heqb.
      + by rewrite andb_false_r in Heqb.
    - split; [done|done|done|by rewrite Hsame|by rewrite Hsame]. }
  assert (Hpa : parser_at f (k + length d) = at_payload KL_WS_FRAME_PAYLOAD f (read_at f (k + length d))).
  { unfold parser_at, read_at in *. destruct (Nat.ltb_spec (k + length d) (h_len f)); [lia|done]. }
  rewrite Hpa, after_payload by (done || lia || by rewrite firstn_all).
  assert (Hj' : (read_at f (k + length d) < length (f_data f))%nat) by (rewrite total_eq in Hk; unfold read_at in *; lia).
  set (i1 := set_frame _ i). set (j := read_at f k) in *. set (j' := read_at f (k + length d)) in *.
  destruct (ws_max_frame cfg <? f_len f) eqn:Emf.
  { right. split; [|by apply (fail_fails _ _ i1 i1)]. unfold frame_meaning.
    destruct (Z.ltb_spec 0 (f_len f)); [by rewrite Emf|unfold f_len in *; lia]. }
  destruct (Z.leb_spec 8 (f_op f)) as [H8|H8].
  - left. eexists. split; [by exists o, w|]. split; [by cbn; rewrite Hpa|done|done| |].
    + destruct Hm as (mc & Hmc & Hma). exists mc. split; [|done]. unfold cur in *. destruct (Z.leb_spec 8 (f_op f)); [done|lia].
    + intros _ _. cbn. replace (read_at f (k + length d)) with (j + (j' - j))%nat by lia. rewrite <- take_take_drop. f_equal.
      destruct (Z.eqb_spec (Z.of_nat j) 0) as [Hz|Hz]; [by replace j with 0%nat by lia|]. apply Hctl; [done|lia].
  - pose proof (data_piece m f j (j' - j) false i1 o w Hv H8 Ho Hm ltac:(lia)) as Hp. cbv zeta in Hp.
    replace (j + (j' - j))%nat with j' in Hp by lia. pose proof (prefix_fails m f j j' i Hv H8 Emf Hm ltac:(lia)) as Hpf.
    destruct (start_message (f_op f) m) as [[op acc]|] eqn:Est; [|by right; split; [apply Hpf|]].
    destruct (_ || _) eqn:Ebad; [by right; split; [apply Hpf|]|]. left.
    destruct Hp as (i2 & w1 & Hs2 & Hma & Heq). exists i2. split; [by exists o, w1|]. destruct Hs2 as (Hf2 & Hev2 & Hcr2 & _).
    split; [by rewrite Hf2; cbn; rewrite Hpa|by rewrite Hcr2|by rewrite Hev2| |lia].
    eexists. split; [|exact Hma]. unfold cur. fold j'. destruct (Z.leb_spec 8 (f_op f)); [lia|].
    destruct (Nat.eqb_spec j' 0); [lia|]. cbn [orb]. by rewrite Est.
Qed.

(** A round that ended as the reference semantics says. *)
Definition ends_as (told : list event) (res : list event * outcome) (r : option (@round W)) : Prop :=
  exists i', told_of (events i') = told ++ res.1 /\
    match res.2 with
    | Open m => goes i' r /\ msg_at m i' /\ close_received i' = false
    | PeerClosed => returns i' r /\ close_received i' = true
    | Failed => returns i' r /\ close_received i' = false
    end.

Lemma fails_ends told i r : fails i r -> told_of (events i) = told -> close_received i = false -> ends_as told ([], Failed) r.
Proof.
  intros (c & i' & Hr & _ & Hev & Hcr & _) Ht Hc. exists (tell (EFail c) i'). cbn [tell events fst snd].
  rewrite told_snoc, Hev, Ht. split; [done|]. split; [done|]. cbn. by rewrite Hcr.
Qed.

Lemma tell_if_told b e i : is_told e = true -> told_of (events (tell_if b e i)) = told_of (events i) ++ when b e.
Proof. intros He. destruct b; cbn; [by rewrite told_snoc, He|by rewrite app_nil_r]. Qed.

Lemma deliver_ends told op msg i o w : out_inv o -> msg_at (Some (op, msg)) i -> told_of (events i) = told -> close_received i = false ->
  ends_as told (message_end cfg op msg) (ws_deliver_message cfg i o w).
Proof using EnvOk.
  intros Ho (Hop & Hmo & Hmb & _ & _ & Hut) Ht Hc. pose proof (deliver_spec i o w Ho) as Hd. cbv zeta in Hd.
  rewrite Hmo, Hmb in Hd. unfold message_end.
  assert (Hu : negb (op =? KL_WS_OP_BINARY) && negb (utf8_state i =? KL_UTF8_ACCEPT) =
    negb (op =? KL_WS_OP_BINARY) && negb (kl_utf8_validate KL_UTF8_ACCEPT msg =? KL_UTF8_ACCEPT)).
  { destruct Hop as [->| ->]; [|done]. by destruct (Hut eq_refl) as [-> _]. }
  rewrite Hu in Hd. case_if.
  - by apply (fails_ends told i); [exists 1007, i|..].
  - eexists. split; [|split; [exact Hd|]]; cbn [fst snd set_msg events].
    + by rewrite tell_if_told, Ht.
    + split; [done|]. by destruct (has_on_message cfg).
Qed.

Lemma control_ends told m f i o w : out_inv o -> frame_valid f -> 8 <= f_op f -> (ws_max_frame cfg <? f_len f) = false \/ f_len f = 0 ->
  msg_at m i -> told_of (events i) = told -> close_received i = false ->
  ends_as told (frame_meaning cfg m f)
    (if f_op f =? KL_WS_OP_CLOSE then ws_handle_close cfg (f_data f) i o w
     else if f_op f =? KL_WS_OP_PING then '(i, o, w) ← ws_handle_ping cfg (f_data f) i o w; Some (Go i o w)
     else Some (Go i o w)).
Proof using EnvOk.
  intros Ho Hv H8 Hmf Hm Ht Hc. unfold frame_meaning.
  replace ((0 <? f_len f) && (ws_max_frame cfg <? f_len f)) with false by (destruct Hmf as [->| ->]; [by rewrite andb_false_r|done]).
  destruct (Z.leb_spec 8 (f_op f)); [|lia]. destruct (fv_control _ Hv H8) as [H125 _]. unfold f_len in H125.
  case_if; [|case_if].
  - pose proof (handle_close_spec (f_data f) i o w Ho) as Hr. destruct (close_told (f_data f)) as [code reason].
    eexists. split; [|split; [exact Hr|]]; cbn [fst snd]; [by rewrite tell_if_told; [change (events (set_received i)) with (events i); rewrite Ht|]|by destruct (has_on_close cfg)].
  - destruct (handle_ping_spec (f_data f) i o w Ho ltac:(lia)) as (o' & w' & -> & Ho'). rewrite bind_Some_l.
    eexists. split; [|split; [by exists o', w'|]]; cbn [fst snd]; [by rewrite tell_if_told; [rewrite Ht|]|].
    by destruct (has_on_ping cfg).
  - exists i. rewrite app_nil_r. split; [done|]. split; [by exists o, w|done].
Qed.

(** The end of a data frame, once its payload was appended. *)
Lemma data_ends told m f op acc i i2 o w : out_inv o -> frame_valid f -> f_op f < 8 ->
  (ws_max_frame cfg <? f_len f) = false \/ f_len f = 0 -> start_message (f_op f) m = Some (op, acc) ->
  msg_at (Some (op, acc ++ f_data f)) i2 -> same i i2 -> told_of (events i) = told -> close_received i = false ->
  ends_as told (frame_meaning cfg m f) (if f_fin f then ws_deliver_message cfg i2 o w else Some (Go i2 o w)).
Proof using EnvOk.
  intros Ho Hv H8 Hmf Hst Hma (_ & Hev & Hcr & _) Ht Hc. unfold frame_meaning.
  replace ((0 <? f_len f) && (ws_max_frame cfg <? f_len f)) with false by (destruct Hmf as [->| ->]; [by rewrite andb_false_r|done]).
  destruct (Z.leb_spec 8 (f_op f)); [lia|]. rewrite Hst. destruct (id Hma) as (_ & _ & _ & _ & Hmx & Hut). cbv zeta.
  destruct (Z.ltb_spec (ws_max_message cfg) (Z.of_nat (length (acc ++ f_data f)))); [lia|].
  assert (Hh : hopeless op (acc ++ f_data f) = false).
  { unfold hopeless. destruct (Z.eqb_spec op KL_WS_OP_TEXT) as [Et|]; [|done]. destruct (Hut Et) as [_ Hr]. by apply Z.eqb_neq. }
  rewrite Hh. destruct (f_fin f).
  - apply deliver_ends; [done|done|by rewrite Hev|by rewrite Hcr].
  - exists i2. cbn [fst snd]. rewrite app_nil_r, Hev, Hcr. split; [done|]. split; [by exists o, w|done].
Qed.

Lemma fin_eq f st n : negb (fin (at_payload st f n) =? 0) = f_fin f.
Proof. unfold at_payload, parsing, fin_bit. cbn [fin]. by destruct (f_fin f). Qed.

(** A round that finishes the frame. *)
Lemma round_empty m told f k data i o w : frame_valid f -> at_pos m told f k i -> out_inv o -> (k < total f)%nat -> f_data f = [] ->
  forall c, ends_as told (frame_meaning cfg m f)
    (after_parse cfg 1 0 c data (set_frame (at_payload KL_WS_FRAME_COMPLETE f 0) i) o w).
Proof using EnvOk Hmax.
  intros Hv [Hf Hop Ht Hm Hctl] Ho Hk Hd c. unfold after_parse.
  set (i1 := set_frame _ i). assert (Hfr : frame i1 = at_payload KL_WS_FRAME_COMPLETE f 0) by done.
  assert (Hi1 : told_of (events i1) = told /\ close_received i1 = false) by done. destruct Hi1 as [Ht1 Hc1].
  assert (Hm1 : msg_at m i1).
  { destruct Hm as (mc & Hmc & Hma). unfold cur, read_at in Hmc. rewrite total_eq, Hd in Hk. cbn [length] in Hk.
    replace (k - h_len f)%nat with 0%nat in Hmc by lia. rewrite orb_true_r in Hmc. by injection Hmc as ->. }
  clearbody i1. rewrite Hfr. change (1 <? 0) with false. cbn [at_payload parsing state masked payload_read opcode negb].
  change (KL_WS_MASK_BIT / 128 =? 0) with false. change (0 <? u64 _) with false. cbn [andb]. change (1 =? 1) with true. cbv iota.
  assert (Hl : f_len f = 0) by (unfold f_len; by rewrite Hd). unfold on_empty.
  rewrite Hfr, fin_eq. change (payload_len _) with (f_len f). rewrite Hl. change (0 =? 0) with true. rewrite andb_true_r.
  destruct (Z.ltb_spec (f_op f) 8) as [H8|H8].
  - pose proof (fv_op _ Hv) as Hvo. unfold valid_opcode, KL_WS_OP_CLOSE, KL_WS_OP_PING in *.
    destruct (Z.eqb_spec (f_op f) 8), (Z.eqb_spec (f_op f) 9); try lia.
    pose proof (open_message_spec (f_op f) m i1 ltac:(lia) Hm1) as Hom.
    destruct (start_message (f_op f) m) as [[op acc]|] eqn:Est.
    + destruct Hom as (i2 & -> & Hma & Hs). destruct (id Hs) as (-> & _). rewrite Hfr, fin_eq.
      eapply (data_ends _ _ _ _ _ i1 i2); eauto. by rewrite Hd, app_nil_r.
    + rewrite Hom. replace (frame_meaning cfg m f) with (@nil event, Failed); [apply (fails_ends told i1); auto; by apply fail_fails|].
      unfold frame_meaning. rewrite Hl, Est. destruct (Z.leb_spec 8 (f_op f)); [lia|done].
  - cbn [andb]. rewrite <- Hd. apply control_ends; auto.
Qed.

Lemma round_payload m told f k rest i o w : frame_valid f -> at_pos m told f k i -> out_inv o -> (k < total f)%nat -> f_data f <> [] ->
  ends_as told (frame_meaning cfg m f)
    (after_parse cfg 1 (Z.of_nat (read_at f k)) (Z.of_nat (total f - k)) (drop k (encode f) ++ rest)
       (set_frame (at_payload KL_WS_FRAME_COMPLETE f (length (f_data f))) i) o w).
Proof using EnvOk Halloc Hmax.
  intros Hv [Hf Hop Ht Hm Hctl] Ho Hk Hd. assert (Hd0 : (0 < length (f_data f))%nat) by (by destruct (f_data f); simpl; [|lia]).
  pose proof (total_eq f) as Htot. set (c := (total f - k)%nat).
  assert (Hend : length (f_data f) = read_at f (k + c)) by (unfold read_at, c; lia).
  assert (Hlt : (read_at f k < read_at f (k + c))%nat) by (rewrite <- Hend; unfold read_at; lia).
  rewrite Hend, after_payload; [|done|done|done|unfold c; lia|rewrite length_app, length_drop; unfold c, total in *; lia| |done].
  2: { rewrite take_app_le by (rewrite length_drop; unfold c, total in *; lia). done. }
  rewrite <- Hend. set (i1 := set_frame _ i). set (j := read_at f k) in *. change (1 =? 1) with true.
  destruct (ws_max_frame cfg <? f_len f) eqn:Emf.
  { replace (frame_meaning cfg m f) with (@nil event, Failed).
    - apply (fails_ends told i1); [by apply fail_fails|done|done].
    - unfold frame_meaning. destruct (Z.ltb_spec 0 (f_len f)); [by rewrite Emf|unfold f_len in *; lia]. }
  destruct (Z.leb_spec 8 (f_op f)) as [H8|H8].
  - unfold on_control. set (b := _ ++ take _ _). assert (Hb : b = f_data f).
    { unfold b. destruct (Z.eqb_spec (Z.of_nat j) 0) as [Hz|Hz].
      - replace j with 0%nat by lia. rewrite Nat.sub_0_r. apply firstn_all.
      - cbn. rewrite Hctl by lia. rewrite take_take_drop. rewrite take_ge; [done|lia]. }
    cbn [set_ctrl ctrl_buf]. rewrite Hb. apply control_ends; auto. unfold cur in Hm. destruct (Z.leb_spec 8 (f_op f)); [|lia].
    destruct Hm as (mc & [= <-] & Hm). done.
  - pose proof (data_piece m f j (length (f_data f) - j) true i1 o w Hv H8 Ho Hm ltac:(lia)) as Hp. cbv zeta in Hp.
    pose proof (prefix_fails m f j (length (f_data f)) i Hv H8 Emf Hm ltac:(lia)) as Hpf.
    replace (j + (length (f_data f) - j))%nat with (length (f_data f)) in Hp by lia. rewrite firstn_all in Hp, Hpf.
    destruct (start_message (f_op f) m) as [[op acc]|] eqn:Est; [|rewrite Hpf by done; by apply (fails_ends told i1)].
    cbv zeta in Hpf. destruct (_ || _) eqn:Ebad; [rewrite Hpf by done; by apply (fails_ends told i1)|].
    destruct Hp as (i2 & w1 & Hs2 & Hma & ->). change (frame i1) with (at_payload KL_WS_FRAME_COMPLETE f (length (f_data f))).
    rewrite fin_eq. cbn [andb]. eapply (data_ends _ _ _ _ _ i1 i2); eauto.
Qed.

Lemma round_all m told f k rest i o w : frame_valid f -> at_pos m told f k i -> out_inv o -> (k < total f)%nat ->
  ends_as told (frame_meaning cfg m f)
    (after_parse cfg 1 (payload_read (frame i)) (Z.of_nat (total f - k)) (drop k (encode f) ++ rest)
       (set_frame (at_payload KL_WS_FRAME_COMPLETE f (length (f_data f))) i) o w).
Proof using EnvOk Halloc Hmax.
  intros Hv Hp Ho Hk. rewrite (ap_frame _ _ _ _ _ Hp), parser_at_read by done.
  destruct (decide (f_data f = [])) as [Hd|Hd]; [|by apply round_payload].
  assert (Hr : read_at f k = 0%nat) by (rewrite total_eq, Hd in Hk; cbn [length] in Hk; unfold read_at; lia).
  rewrite Hr, Hd. by apply (round_empty m told f k).
Qed.

(** ** The receive loop over a stream of frames *)

(** The connection is [k] bytes into the first of the frames [fs], having told [told]. *)
Definition pos_ok (m : partial) (told : list event) (fs : list cframe) (k : nat) (i : WsIn) : Prop :=
  match fs with
  | [] => k = 0%nat /\ frame i = kl_ws_frame_init /\ close_received i = false /\ told_of (events i) = told /\ msg_at m i
  | f :: _ => (k < total f)%nat /\ at_pos m told f k i
  end.

Definition stream (fs : list cframe) (k : nat) : list Z := drop k (concat (encode <$> fs)).

Lemma pos_start m told fs i : frame i = kl_ws_frame_init -> close_received i = false -> told_of (events i) = told -> msg_at m i ->
  pos_ok m told fs 0 i.
Proof.
  intros Hf Hc Ht Hm. destruct fs as [|f fs]; [done|]. split; [rewrite total_eq; unfold h_len, f_header; simpl; lia|].
  split; [done|done|done| |intros _ Hx; unfold read_at in Hx; lia].
  exists m. split; [|done]. unfold cur, read_at. cbn [Nat.sub Nat.eqb]. by rewrite orb_true_r.
Qed.

Lemma pos_open m told fs k i : pos_ok m told fs k i -> close_received i = false.
Proof. destruct fs; [by intros (_ & _ & ? & _)|by intros [_ []]]. Qed.

(** What a read leaves: the position it reached, or the end the reference semantics gives. *)
Definition loop_ok (m : partial) (told : list event) (fs : list cframe) (rest : list Z) (open : bool) (i : WsIn) : Prop :=
  let '(ev, out) := session_meaning cfg m fs in
  if open then exists m' told' fs' k', pos_ok m' told' fs' k' i /\ Forall frame_valid fs' /\ stream fs' k' = rest /\
                 told' ++ (session_meaning cfg m' fs').1 = told ++ ev /\ (session_meaning cfg m' fs').2 = out
  else told_of (events i) = told ++ ev /\
       (out = PeerClosed /\ close_received i = true \/ out = Failed /\ close_received i = false).

Lemma loop_nil m told fs k i : pos_ok m told fs k i -> Forall frame_valid fs -> loop_ok m told fs (stream fs k) true i.
Proof.
  intros Hp Hv. unfold loop_ok. destruct (session_meaning cfg m fs) as [ev out] eqn:E. exists m, told, fs, k. by rewrite E.
Qed.

Lemma loop_meaning fuel d i o w m told fs k rest : (length d <= fuel)%nat -> Forall frame_valid fs -> pos_ok m told fs k i ->
  out_inv o -> d ++ rest = stream fs k ->
  exists open i' o' w', readable_loop cfg fuel d i o w = Some (open, i', o', w') /\ out_inv o' /\ loop_ok m told fs rest open i'.
Proof using EnvOk Halloc Hmax.
  revert d i o w m told fs k. induction fuel as [|fuel IH]; intros d i o w m told fs k Hl Hv Hp Ho Hd;
    (destruct d as [|b d]; [do 4 eexists; split; [done|]; split; [done|]; rewrite (pos_open _ _ _ _ _ Hp), andb_false_r, (Hd : rest = stream fs k); by apply loop_nil|]).
  { simpl in Hl. lia. }
  destruct fs as [|f fs]; [change (stream [] k) with (drop k (@nil Z)) in Hd; by rewrite drop_nil in Hd|]. destruct Hp as [Hk Hp].
  apply Forall_cons in Hv as [Hvf Hvs]. cbn [readable_loop]. unfold stream in Hd. cbn [fmap list_fmap concat] in Hd.
  rewrite drop_app_le in Hd by (unfold total in Hk; lia). rewrite (ap_frame _ _ _ _ _ Hp). set (data := b :: d) in *.
  assert (Hne : (0 < length data)%nat) by (unfold data; simpl; lia).
  destruct (Nat.lt_ge_cases (length data) (total f - k)) as [Hlt|Hge].
  - assert (Hdd : data = take (length data) (drop k (encode f))).
    { apply (f_equal (take (length data))) in Hd. rewrite take_app_length in Hd. rewrite Hd at 1.
      apply take_app_le. rewrite length_drop. unfold total in *. lia. }
    rewrite parse_some by (done || lia). pose proof (round_some m told f k data i o w Hvf Hp Ho Hne ltac:(lia) Hdd) as Hr.
    cbv zeta in Hr. rewrite (ap_frame _ _ _ _ _ Hp) in Hr.
    destruct Hr as [(i1 & (o1 & w1 & -> & Ho1) & Hp1)|(Hmean & c & i1 & (o1 & w1 & -> & Ho1) & _ & Hev & Hcr & _)]; rewrite bind_Some_l.
    + change (0 =? 1) with false. destruct (Z.eqb_spec (Z.of_nat (length data)) 0); [lia|]. rewrite Nat2Z.id, drop_all.
      apply (IH [] i1 o1 w1 m told (f :: fs) (k + length data)%nat); [simpl; lia|by constructor|by split; [lia|]|done|].
      unfold stream. cbn [fmap list_fmap concat app]. rewrite drop_app_le by (unfold total in *; lia).
      apply (f_equal (drop (length data))) in Hd. rewrite drop_app_length in Hd. rewrite Hd, drop_app_le by (rewrite length_drop; unfold total in *; lia).
      by rewrite drop_drop.
    + do 4 eexists. split; [done|]. split; [done|]. unfold loop_ok. cbn [session_meaning]. rewrite Hmean. cbn [tell events close_received].
      rewrite told_snoc, Hev, Hcr. destruct Hp as [_ Hpo Hpt _ _]. cbn [set_frame events close_received is_told]. rewrite Hpt, Hpo. by split; [|right].
  - assert (Hdd : data = drop k (encode f) ++ drop (total f - k) data).
    { rewrite <- (take_drop (total f - k) data) at 1. f_equal. apply (f_equal (take (total f - k))) in Hd.
      rewrite take_app_le in Hd by done. rewrite Hd. apply take_app_length'. rewrite length_drop. done. }
    set (d2 := drop (total f - k) data) in *.
    pose proof (round_all m told f k d2 i o w Hvf Hp Ho Hk) as Hr. rewrite (ap_frame _ _ _ _ _ Hp) in Hr.
    rewrite Hdd, parse_rest by done. rewrite Hdd in Hd. unfold loop_ok. cbn [session_meaning].
    destruct (frame_meaning cfg m f) as [ev out]. destruct Hr as (i1 & Ht1 & Hr). cbn [fst snd] in Ht1, Hr.
    destruct out as [m1| |].
    + destruct Hr as ((o1 & w1 & -> & Ho1) & Hm1 & Hc1). rewrite bind_Some_l. change (1 =? 1) with true. cbv iota.
      destruct (Z.eqb_spec (Z.of_nat (total f - k)) 0); [lia|]. rewrite Nat2Z.id, drop_app_length' by (rewrite length_drop; done).
      destruct (IH d2 (set_frame kl_ws_frame_init i1) o1 w1 m1 (told ++ ev) fs 0%nat) as (open & i2 & o2 & w2 & Heq & Ho2 & Hlo).
      * unfold d2. rewrite length_drop. lia.
      * done.
      * by apply pos_start.
      * done.
      * rewrite <- app_assoc in Hd. apply app_inv_head in Hd. by rewrite Hd.
      * exists open, i2, o2, w2. split; [done|]. split; [done|]. unfold loop_ok in Hlo.
        destruct (session_meaning cfg m1 fs) as [ev' out']. by rewrite <- app_assoc in Hlo.
    + destruct Hr as ((o1 & w1 & -> & Ho1) & Hc1). rewrite bind_Some_l. do 4 eexists. split; [done|]. split; [done|]. by split; [|left].
    + destruct Hr as ((o1 & w1 & -> & Ho1) & Hc1). rewrite bind_Some_l. do 4 eexists. split; [done|]. split; [done|]. by split; [|right].
Qed.

(** The reads of a connection, until one closes it. *)
Fixpoint feed (chunks : list (list Z)) (i : WsIn) (o : WsOut) (pg : WsPing) (w : W) : option (bool * WsIn * WsOut * W) :=
  match chunks with
  | [] => Some (true, i, o, w)
  | c :: chunks =>
      '(open, i, o, pg, w) ← kl_ws_server_on_readable_data cfg c i o pg w;
      if (open : bool) then feed chunks i o pg w else Some (false, i, o, w)
  end.

Lemma stream_end m told fs k i : pos_ok m told fs k i -> stream fs k = [] -> fs = [].
Proof.
  destruct fs as [|f fs]; [done|]. intros [Hk _] Hs. unfold stream in Hs. cbn [fmap list_fmap concat] in Hs.
  apply (f_equal length) in Hs. rewrite length_drop, length_app in Hs. unfold total in Hk. cbn [length] in Hs. lia.
Qed.

Lemma feed_meaning chunks i o pg w m told fs k : Forall frame_valid fs -> pos_ok m told fs k i -> out_inv o ->
  concat chunks = stream fs k ->
  exists open i' o' w', feed chunks i o pg w = Some (open, i', o', w') /\ loop_ok m told fs [] open i'.
Proof using EnvOk Halloc Hmax.
  revert i o pg w m told fs k. induction chunks as [|c chunks IH]; intros i o pg w m told fs k Hv Hp Ho Hd; cbn [feed].
  { do 4 eexists. split; [done|]. rewrite (Hd : [] = stream fs k). by apply loop_nil. }
  unfold kl_ws_server_on_readable_data. destruct (loop_meaning (length c) c i o w m told fs k (concat chunks) ltac:(done) Hv Hp Ho Hd)
    as (open & i1 & o1 & w1 & -> & Ho1 & Hlo). rewrite !bind_Some_l. unfold loop_ok in Hlo |- *.
  destruct (session_meaning cfg m fs) as [ev out]. destruct open; [|do 4 eexists; by split].
  destruct Hlo as (m' & told' & fs' & k' & Hp' & Hv' & Hs' & He' & Hout').
  set (pg' := if (0 <? length c)%nat then _ else pg). clearbody pg'.
  destruct (IH i1 o1 pg' w1 m' told' fs' k' Hv' Hp' Ho1 ltac:(done)) as (open2 & i2 & o2 & w2 & -> & Hlo2).
  unfold loop_ok in Hlo2. destruct (session_meaning cfg m' fs') as [ev' out']. cbn [fst snd] in *. subst out' .
  exists open2, i2, o2, w2. split; [done|]. by rewrite <- He'.
Qed.

(** C6.  The receive side of a WebSocket connection means what RFC 6455 says of its frames, however
    the bytes arrive.  For any sequence of well-formed client frames (data frames, fragments,
    interleaved control frames, with any masking keys) and any cutting of their bytes into reads,
    the application is told exactly the messages, pings and the close that the frame-by-frame
    semantics gives, in order, and the connection is open, closed by the peer, or failed as it says:
    too large a frame or message, a message begun inside another, a continuation of none, text that
    is not UTF-8, a bad close payload. *)
Theorem ws_session_meaning (fs : list cframe) (chunks : list (list Z)) (pg : WsPing) (w : W)
    (Hfs : Forall frame_valid fs) (Hcut : concat chunks = concat (encode <$> fs)) :
  exists open i o w', feed chunks init_in init_out pg w = Some (open, i, o, w') /\
    let '(ev, out) := session_meaning cfg None fs in
    told_of (events i) = ev /\
    match out with
    | Open _ => open = true /\ close_received i = false
    | PeerClosed => open = false /\ close_received i = true
    | Failed => open = false /\ close_received i = false
    end.
Proof using EnvOk Halloc Hmax.
  destruct (feed_meaning chunks init_in init_out pg w None [] fs 0 Hfs (pos_start None [] fs init_in eq_refl eq_refl eq_refl eq_refl)
    init_out_inv ltac:(by rewrite Hcut)) as (open & i & o & w' & Heq & Hlo).
  exists open, i, o, w'. split; [done|]. unfold loop_ok in Hlo. destruct (session_meaning cfg None fs) as [ev out].
  destruct open; [|by destruct Hlo as [-> [[-> ->]|[-> ->]]]].
  destruct Hlo as (m' & told' & fs' & k' & Hp & _ & Hs & He & Ho). pose proof (stream_end _ _ _ _ _ Hp Hs) as ->.
  destruct Hp as (_ & _ & Hc & Ht & _). cbn in He, Ho. rewrite app_nil_r in He. by subst.
Qed.

End handlers.

(** "Hi" in two fragments around a PING, then CLOSE 1000, cut after 3, 4 and 13 bytes. *)
Definition sample_frames : list cframe :=
  [mkFrame false 1 [1; 2; 3; 4] (bytes "H"); mkFrame true 9 [9; 8; 7; 6] (bytes "?");
   mkFrame true 0 [0; 0; 0; 0] (bytes "i"); mkFrame true 8 [5; 5; 5; 5] [3; 232]].

Definition sample_bytes : list Z := concat (encode <$> sample_frames).
Definition sample_chunks : list (list Z) :=
  [take 3 sample_bytes; take 1 (drop 3 sample_bytes); take 9 (drop 4 sample_bytes); drop 13 sample_bytes].

Lemma sample_frames_valid : Forall frame_valid sample_frames.
Proof.
  repeat constructor; cbn; try done; try lia; try (by apply bytes_ok); unfold valid_opcode; lia.
Qed.

#[local] Existing Instance slow_conn.
#[local] Existing Instance slow_conn_ok.

Lemma ws_session_meaning_witness :
  exists open i o w', feed (mkConfig true true true 0 0 0 0) sample_chunks init_in init_out (mkPing 0 false false 0 0) 0%nat = Some (open, i, o, w') /\
    told_of (events i) = [EPing (bytes "?"); EMessage (bytes "Hi") false; EClose 1000 []] /\ open = false.
Proof.
  destruct (ws_session_meaning (Env := slow_conn) (mkConfig true true true 0 0 0 0) (fun (w : nat) n => eq_refl) ltac:(split; by vm_compute) sample_frames sample_chunks
    (mkPing 0 false false 0 0) 0%nat sample_frames_valid ltac:(by vm_compute)) as (open & i & o & w' & Heq & Ht & Hc).
  exists open, i, o, w'. split; [done|]. split; [exact Ht|apply Hc].
Defined.

End WsSession.
