(* ===== verification/Response.v ===== *)
(** * HTTP/1.1 responses (src/src/protocols/http/http_response.c, src/include/keel/http_response.h)

    Building a response (status, headers, body), serialising a buffered one with resumption after
    short writes, sending a file, and streaming with chunked coding through a drain.

    The socket provider, TLS session, file and allocator are an environment [ResEnv].  Operations
    that write return, besides their result, the bytes that left, in order. *)
From S2P Require Import Prelude Chunked Drain.
Import Chunked Drain.

Module Response.

(** ** Data *)

Definition KL_HDR_INIT_CAP : Z := 512.
Definition KL_FILE_BUF_SIZE : Z := 8192.
Definition KL_WRITE_SPIN_MAX : nat := 256.
Definition KL_STREAM_WRITE_BUF_SIZE : nat := 4096.
Definition KL_STREAM_DRAIN_MAX : Z := 1048576.
Definition KL_HTTP_STREAM_IOV_MAX : nat := 32.
Definition KL_SOCK_IOV_MAX : nat := 16.

Inductive KlHttpBodyMode := KL_HTTP_BODY_NONE | KL_HTTP_BODY_BUFFER | KL_HTTP_BODY_FILE | KL_HTTP_BODY_STREAM.

(** [res->body]: a span of the caller, or the start of the block [body_owned]. *)
Inductive body_ptr := BSpan (data : list Z) | BOwned.

Record Head := mkHead { status : Z; hdr_buf : list Z; hdr_cap : Z; keep_alive : bool; head_request : bool }.

(** [body_owned] is the content of the block, [None] for NULL; [file_fd] is [None] for -1. *)
Record Body := mkBody {
  body_mode : KlHttpBodyMode; body : body_ptr; body_len : Z; body_owned : option (list Z);
  file_fd : option Z; file_size : Z;
}.

Record Progress := mkProgress {
  headers_sent : bool; send_offset : Z; file_offset : Z;
  stream_error : bool; stream_ended : bool; drain_enabled : bool; drain : KlDrain;
}.

(** [tls]: a session is set; [conn]: the handle is valid. *)
Record KlHttpResponse := mkRes { head : Head; content : Body; progress : Progress; tls : bool; conn : bool }.

Definition set_head (h : Head) (r : KlHttpResponse) : KlHttpResponse := mkRes h (content r) (progress r) (tls r) (conn r).
Definition set_content (b : Body) (r : KlHttpResponse) : KlHttpResponse := mkRes (head r) b (progress r) (tls r) (conn r).
Definition set_progress (p : Progress) (r : KlHttpResponse) : KlHttpResponse := mkRes (head r) (content r) p (tls r) (conn r).

Definition with_hdr (b : list Z) (cap : Z) (h : Head) : Head := mkHead (status h) b cap (keep_alive h) (head_request h).

Definition set_sent (n : Z) (p : Progress) : Progress :=
  mkProgress true n (file_offset p) (stream_error p) (stream_ended p) (drain_enabled p) (drain p).
Definition set_headers_sent (p : Progress) : Progress :=
  mkProgress true (send_offset p) (file_offset p) (stream_error p) (stream_ended p) (drain_enabled p) (drain p).
Definition set_file_offset (n : Z) (p : Progress) : Progress :=
  mkProgress (headers_sent p) (send_offset p) n (stream_error p) (stream_ended p) (drain_enabled p) (drain p).
Definition set_stream_error (p : Progress) : Progress :=
  mkProgress (headers_sent p) (send_offset p) (file_offset p) true (stream_ended p) (drain_enabled p) (drain p).
Definition set_stream_ended (p : Progress) : Progress :=
  mkProgress (headers_sent p) (send_offset p) (file_offset p) (stream_error p) true (drain_enabled p) (drain p).
Definition set_res_drain (on : bool) (d : KlDrain) (p : Progress) : Progress :=
  mkProgress (headers_sent p) (send_offset p) (file_offset p) (stream_error p) (stream_ended p) on d.

(** ** Text *)

Definition line (s : list Z) : list Z := s ++ CRLF.

(** The cases of the switch. *)
Definition reason_phrases : list (Z * list Z) :=
  [(200, bytes "OK"); (201, bytes "Created"); (202, bytes "Accepted"); (204, bytes "No Content");
   (206, bytes "Partial Content"); (301, bytes "Moved Permanently"); (302, bytes "Found");
   (303, bytes "See Other"); (304, bytes "Not Modified"); (307, bytes "Temporary Redirect");
   (308, bytes "Permanent Redirect"); (400, bytes "Bad Request"); (401, bytes "Unauthorized");
   (403, bytes "Forbidden"); (404, bytes "Not Found"); (405, bytes "Method Not Allowed"); (409, bytes "Conflict");
   (410, bytes "Gone"); (413, bytes "Payload Too Large"); (415, bytes "Unsupported Media Type");
   (422, bytes "Unprocessable Entity"); (429, bytes "Too Many Requests"); (500, bytes "Internal Server Error");
   (502, bytes "Bad Gateway"); (503, bytes "Service Unavailable"); (504, bytes "Gateway Timeout");
   (203, bytes "Non-Authoritative Information"); (205, bytes "Reset Content"); (207, bytes "Multi-Status");
   (208, bytes "Already Reported"); (226, bytes "IM Used"); (300, bytes "Multiple Choices");
   (305, bytes "Use Proxy"); (402, bytes "Payment Required"); (406, bytes "Not Acceptable");
   (407, bytes "Proxy Authentication Required"); (408, bytes "Request Timeout"); (411, bytes "Length Required");
   (412, bytes "Precondition Failed"); (414, bytes "URI Too Long"); (416, bytes "Range Not Satisfiable");
   (417, bytes "Expectation Failed"); (421, bytes "Misdirected Request"); (423, bytes "Locked");
   (424, bytes "Failed Dependency"); (425, bytes "Too Early"); (426, bytes "Upgrade Required");
   (428, bytes "Precondition Required"); (431, bytes "Request Header Fields Too Large");
   (451, bytes "Unavailable For Legal Reasons"); (501, bytes "Not Implemented");
   (505, bytes "HTTP Version Not Supported"); (506, bytes "Variant Also Negotiates");
   (507, bytes "Insufficient Storage"); (508, bytes "Loop Detected"); (510, bytes "Not Extended");
   (511, bytes "Network Authentication Required")].

Definition reason_phrase (code : Z) : option (list Z) := snd <$> List.find (fun p => p.1 =? code) reason_phrases.

(** Three digits, as the macros paste them. *)
Definition code_digits (code : Z) : list Z := [c_0 + code / 100; c_0 + code / 10 mod 10; c_0 + code mod 10].

Definition status_text (code : Z) (phrase : list Z) : list Z := bytes "HTTP/1.1 " ++ code_digits code ++ [c_SP] ++ phrase.

(** "HTTP/1.1 NNN \r\n" *)
Definition status_line_bare (code : Z) : list Z := line (status_text code []).

Definition status_line_for (code : Z) : list Z :=
  match reason_phrase code with
  | Some phrase => line (status_text code phrase)
  | None => if (200 <=? code) && (code <=? 599) then status_line_bare code
            else line (bytes "HTTP/1.1 500 Internal Server Error")
  end.

(** The digits of [n], the lowest first; a 64-bit value has at most twenty. *)
Fixpoint low_digits (fuel : nat) (base n : Z) : list Z :=
  match fuel with
  | O => []
  | S fuel' => if 0 <? n then n mod base :: low_digits fuel' base (n / base) else []
  end.

Definition format_uint (n : Z) : list Z :=
  if n =? 0 then [c_0] else (fun d => c_0 + d) <$> reverse (low_digits 21 10 n).

Definition format_content_length (n : Z) : list Z := line (bytes "Content-Length: " ++ format_uint n).

Definition hex_digit (d : Z) : Z := if d <? 10 then c_0 + d else c_a + (d - 10).

(** The [do] loop emits one digit of 0 as well. *)
Definition format_chunk_hdr (n : Z) : list Z :=
  line (hex_digit <$> (if n =? 0 then [0] else reverse (low_digits 16 16 n))).

Definition kl_keepalive_hdr : list Z := line (bytes "Connection: keep-alive").

(** ** Environment *)

Inductive KlIoStatus := KL_IO_OK | KL_IO_WOULD_BLOCK | KL_IO_INTERRUPTED | KL_IO_PENDING | KL_IO_CLOSED | KL_IO_RESET
  | KL_IO_FATAL | KL_IO_UNSUPPORTED | KL_IO_RESOURCE_EXHAUSTED.

(** Writes give a number of bytes or a negative value; [file_pread] gives the bytes read, none for a
    result of 0, [None] for a negative one; [sock_sendfile w off n] the result and the new offset.
    [file_data] is the content of the file behind [file_fd]. *)
Class ResEnv (W : Type) := {
  has_writev : bool; has_sendfile : bool;
  sock_writev : W -> list (list Z) -> Z * W;
  sock_send : W -> list Z -> Z * W;
  io_status : W -> KlIoStatus;
  tls_write : W -> list Z -> Z * W;
  file_data : list Z;
  file_pread : W -> Z -> Z -> option (list Z) * W;
  sock_sendfile : W -> Z -> Z -> Z * Z * W;
  sock_cork : W -> bool -> W;
  res_realloc_ok : W -> Z -> bool * W;
  comp_tls_full : W -> bool;
  comp_tls_flush : W -> Z * W;
  comp_driven : W -> bool;
  comp_write : W -> list Z -> Z * W;
}.

Section model.
Context {W : Type} `{Env : !ResEnv W}.

(** ** Building *)

(** The doubling loop: success, capacity reached.  A capacity of at least one byte doubles past
    SIZE_MAX / 2 within 64 rounds. *)
Fixpoint hdr_grow (fuel : nat) (cap need : Z) (w : W) : option (bool * Z * W) :=
  if cap <? need then
    match fuel with
    | O => None
    | S fuel' =>
        if SIZE_MAX / 2 <? cap then Some (false, cap, w)
        else
          let '(ok, w) := res_realloc_ok w (cap * 2) in
          if ok : bool then hdr_grow fuel' (cap * 2) need w else Some (false, cap, w)
    end
  else Some (true, cap, w).

Definition hdr_append (data : list Z) (h : Head) (w : W) : option (bool * Head * W) :=
  let len := Z.of_nat (length data) in
  let hdr_len := Z.of_nat (length (hdr_buf h)) in
  if SIZE_MAX - hdr_len <? len then Some (false, h, w)
  else
    '(ok, cap, w) ← hdr_grow 65 (hdr_cap h) (hdr_len + len) w;
    Some (ok, with_hdr (if (ok : bool) then hdr_buf h ++ data else hdr_buf h) cap h, w).

(** A chain of appends joined by [||]. *)
Fixpoint hdr_appends (parts : list (list Z)) (h : Head) (w : W) : option (bool * Head * W) :=
  match parts with
  | [] => Some (true, h, w)
  | p :: parts =>
      '(ok, h, w) ← hdr_append p h w;
      if (ok : bool) then hdr_appends parts h w else Some (false, h, w)
  end.

Definition contains_crlf (s : list Z) : bool := existsb (fun c => (c =? c_CR) || (c =? c_LF)) s.

Definition fresh_progress : Progress := mkProgress false 0 0 false false false kl_drain_init.
Definition no_body : Body := mkBody KL_HTTP_BODY_NONE (BSpan []) 0 None None 0.

(** [None] is -1.  The cleared handle is 0, which is a valid one. *)
Definition kl_http_response_init (w : W) : option KlHttpResponse * W :=
  let '(ok, w) := res_realloc_ok w KL_HDR_INIT_CAP in
  (if ok : bool then Some (mkRes (mkHead 200 [] KL_HDR_INIT_CAP false false) no_body fresh_progress false true) else None, w).

(** The transport bindings and the header block survive; the second component is the file
    descriptor that is closed. *)
Definition kl_http_response_reset (r : KlHttpResponse) : KlHttpResponse * option Z :=
  (mkRes (mkHead 200 [] (hdr_cap (head r)) false false) no_body fresh_progress (tls r) (conn r), file_fd (content r)).

Definition kl_http_response_status (code : Z) (r : KlHttpResponse) : KlHttpResponse :=
  let h := head r in set_head (mkHead code (hdr_buf h) (hdr_cap h) (keep_alive h) (head_request h)) r.

(** [None] for a NULL argument; the result is 0 or -1. *)
Definition kl_http_response_header (name value : option (list Z)) (r : KlHttpResponse) (w : W) : option (Z * KlHttpResponse * W) :=
  match name, value with
  | Some name, Some value =>
      if contains_crlf name || contains_crlf value then Some (-1, r, w)
      else
        '(ok, h, w) ← hdr_appends [name; bytes ": "; value; CRLF] (head r) w;
        if (ok : bool) then Some (0, set_head h r, w)
        else Some (-1, set_head (with_hdr (hdr_buf (head r)) (hdr_cap h) h) r, w)
  | _, _ => Some (-1, r, w)
  end.

(** [None]: NULL with a length. *)
Definition kl_http_response_body_borrow (data : option (list Z)) (r : KlHttpResponse) : KlHttpResponse :=
  match data with
  | None => r
  | Some data =>
      let b := content r in
      set_content (mkBody KL_HTTP_BODY_BUFFER (BSpan data) (Z.of_nat (length data)) (body_owned b) (file_fd b) (file_size b)) r
  end.

Definition kl_http_response_body_copy (data : option (list Z)) (r : KlHttpResponse) (w : W) : Z * KlHttpResponse * W :=
  match data with
  | None => (-1, r, w)
  | Some data =>
      let b := content r in
      if (length data =? 0)%nat then
        (0, set_content (mkBody KL_HTTP_BODY_BUFFER (BSpan []) 0 None (file_fd b) (file_size b)) r, w)
      else
        let '(ok, w) := res_realloc_ok w (Z.of_nat (length data)) in
        if ok : bool then
          (0, set_content (mkBody KL_HTTP_BODY_BUFFER BOwned (Z.of_nat (length data)) (Some data) (file_fd b) (file_size b)) r, w)
        else (-1, set_content (mkBody (body_mode b) (body b) (body_len b) None (file_fd b) (file_size b)) r, w)
  end.

Definition kl_http_response_file (fd size : Z) (r : KlHttpResponse) : KlHttpResponse :=
  let b := content r in
  set_progress (set_file_offset 0 (progress r))
    (set_content (mkBody KL_HTTP_BODY_FILE (body b) (body_len b) (body_owned b) (Some fd) size) r).

Definition kl_http_response_json (code : Z) (json : option (list Z)) (r : KlHttpResponse) (w : W) : option (Z * KlHttpResponse * W) :=
  let r := kl_http_response_status code r in
  '(rc, r, w) ← kl_http_response_header (Some (bytes "Content-Type")) (Some (bytes "application/json")) r w;
  if rc <? 0 then Some (-1, r, w) else Some (0, kl_http_response_body_borrow json r, w).

Definition kl_http_response_error (code : Z) (message : option (list Z)) (r : KlHttpResponse) (w : W) : option (Z * KlHttpResponse * W) :=
  let r := kl_http_response_status code r in
  '(rc, r, w) ← kl_http_response_header (Some (bytes "Content-Type")) (Some (bytes "text/plain")) r w;
  if rc <? 0 then Some (-1, r, w) else Some (0, kl_http_response_body_borrow (Some (default [] message)) r, w).

(** ** Writing *)

Definition res_has_wire (r : KlHttpResponse) : bool := tls r || conn r.

(** The bytes of a vector from byte [n] on: [while (n >= iov[0].len)], then the partial segment. *)
Fixpoint skip_iov (n : nat) (iov : list (list Z)) : list (list Z) :=
  match iov with
  | [] => []
  | s :: rest => if (length s <=? n)%nat then skip_iov (n - length s) rest else drop n s :: rest
  end.

(** A provider without a vectored write: one segment in pieces, then the next. *)
Fixpoint send_segment (fuel : nat) (seg : list Z) (total : Z) (w : W) : option ((Z * bool) * W) :=
  match seg with
  | [] => Some ((total, true), w)
  | _ =>
      match fuel with
      | O => None
      | S fuel' =>
          let '(nw, w) := sock_send w seg in
          if nw <? 0 then Some ((if 0 <? total then total else -1, false), w)
          else if nw =? 0 then Some ((total, false), w)
          else send_segment fuel' (drop (Z.to_nat nw) seg) (total + nw) w
      end
  end.

Fixpoint send_segments (iov : list (list Z)) (total : Z) (w : W) : option (Z * W) :=
  match iov with
  | [] => Some (total, w)
  | s :: rest =>
      '((total, more), w) ← send_segment (length s) s total w;
      if (more : bool) then send_segments rest total w else Some (total, w)
  end.

Definition seam_writev (iov : list (list Z)) (w : W) : option (Z * W) :=
  if has_writev then Some (sock_writev w iov) else send_segments iov 0 w.

Definition blocked_or_interrupted (w : W) : bool :=
  match io_status w with KL_IO_WOULD_BLOCK | KL_IO_INTERRUPTED => true | _ => false end.

Fixpoint first_nonempty (iov : list (list Z)) : option (list Z) :=
  match iov with [] => None | [] :: rest => first_nonempty rest | s :: _ => Some s end.

Definition try_writev (use_tls : bool) (iov : list (list Z)) (w : W) : option (Z * W) :=
  if negb use_tls then
    '(nw, w) ← seam_writev iov w;
    Some (if nw <? 0 then (if blocked_or_interrupted w then (0, w) else (nw, w)) else (nw, w))
  else
    match first_nonempty iov with
    | None => Some (0, w)
    | Some s => let '(nw, w) := tls_write w s in Some (if nw <? 0 then -1 else nw, w)
    end.

(** Plaintext: [None] is out of fuel, [false] is -1; the bytes that left. *)
Fixpoint writev_loop (fuel : nat) (spins : nat) (iov : list (list Z)) (w : W) : option (bool * W * list Z) :=
  match iov with
  | [] => Some (true, w, [])
  | _ =>
      match fuel with
      | O => None
      | S fuel' =>
          '(nw, w) ← seam_writev iov w;
          if nw <? 0 then
            match io_status w with
            | KL_IO_INTERRUPTED => writev_loop fuel' spins iov w
            | KL_IO_WOULD_BLOCK =>
                if (KL_WRITE_SPIN_MAX <? S spins)%nat then Some (false, w, []) else writev_loop fuel' (S spins) iov w
            | _ => Some (false, w, [])
            end
          else
            '(ok, w, out) ← writev_loop fuel' 0 (skip_iov (Z.to_nat nw) iov) w;
            Some (ok, w, take (Z.to_nat nw) (concat iov) ++ out)
      end
  end.

(** TLS: one segment after the other; [spins] lives across them. *)
Fixpoint tls_segment (fuel : nat) (spins : nat) (seg : list Z) (w : W) : option (bool * nat * W * list Z) :=
  match seg with
  | [] => Some (true, spins, w, [])
  | _ =>
      match fuel with
      | O => None
      | S fuel' =>
          let '(nw, w) := tls_write w seg in
          if nw <? 0 then Some (false, spins, w, [])
          else if nw =? 0 then
            if (KL_WRITE_SPIN_MAX <? S spins)%nat then Some (false, spins, w, []) else tls_segment fuel' (S spins) seg w
          else
            '(ok, spins, w, out) ← tls_segment fuel' 0 (drop (Z.to_nat nw) seg) w;
            Some (ok, spins, w, take (Z.to_nat nw) seg ++ out)
      end
  end.

Fixpoint tls_segments (spins : nat) (iov : list (list Z)) (w : W) : option (bool * W * list Z) :=
  match iov with
  | [] => Some (true, w, [])
  | s :: rest =>
      '(ok, spins, w, out) ← tls_segment (length s * (KL_WRITE_SPIN_MAX + 2) + KL_WRITE_SPIN_MAX) spins s w;
      if (ok : bool) then
        '(ok, w, out2) ← tls_segments spins rest w; Some (ok, w, out ++ out2)
      else Some (false, w, out)
  end.

Definition stream_writev_all (fuel : nat) (use_tls : bool) (iov : list (list Z)) (w : W) : option (bool * W * list Z) :=
  if negb use_tls then writev_loop fuel 0 iov w else tls_segments 0 iov w.

(** ** Sending *)

(** The bytes [body] points to; [None] when the block it pointed to was freed. *)
Definition body_bytes (b : Body) : option (list Z) := match body b with BSpan l => Some l | BOwned => body_owned b end.

Definition opt_seg (b : bool) (s : list Z) : list (list Z) := if b then [s] else [].

(** The segments; the outer [None] is the read of a freed body, the inner one is -1. *)
Definition kl_http_response_build_iovec (r : KlHttpResponse) : option (option (list (list Z))) :=
  let h := head r in
  let b := content r in
  let is_file := match body_mode b with KL_HTTP_BODY_FILE => true | _ => false end in
  match body_mode b with
  | KL_HTTP_BODY_STREAM => Some None
  | _ =>
      let clen := if is_file then file_size b else body_len b in
      let front := [status_line_for (status h)] ++ opt_seg (0 <? length (hdr_buf h))%nat (hdr_buf h) ++
                   [format_content_length clen] ++ opt_seg (keep_alive h) kl_keepalive_hdr ++ [CRLF] in
      if negb is_file && (0 <? body_len b) && negb (head_request h) then
        data ← body_bytes b; Some (Some (front ++ [data]))
      else Some (Some front)
  end.

(** The segments before the body of a file or stream response. *)
Definition head_iovec (r : KlHttpResponse) : list (list Z) :=
  let h := head r in
  let b := content r in
  [status_line_for (status h)] ++ opt_seg (0 <? length (hdr_buf h))%nat (hdr_buf h) ++
  match body_mode b with KL_HTTP_BODY_FILE => [format_content_length (file_size b)] | _ => [] end ++
  opt_seg (keep_alive h) kl_keepalive_hdr ++ [CRLF].

(** A block of the file that was read, written in pieces by [put] until it takes nothing or fails:
    whether it did not fail, and what is left of the block. *)
Fixpoint put_loop (fuel : nat) (put : list Z -> W -> option Z * W) (data : list Z) (w : W) : option (bool * list Z * W) :=
  match data with
  | [] => Some (true, [], w)
  | _ =>
      match fuel with
      | O => None
      | S fuel' =>
          let '(nw, w) := put data w in
          match nw with
          | None => Some (false, data, w)
          | Some nw => if nw =? 0 then Some (true, data, w) else put_loop fuel' put (drop (Z.to_nat nw) data) w
          end
      end
  end.

Definition put_tls (data : list Z) (w : W) : option Z * W :=
  let '(nw, w) := tls_write w data in (if nw <? 0 then None else Some nw, w).

Definition put_plain (data : list Z) (w : W) : option Z * W :=
  let '(nw, w) := sock_send w data in
  (if nw <? 0 then match io_status w with KL_IO_WOULD_BLOCK => Some 0 | _ => None end else Some nw, w).

(** One block of the file per call. *)
Definition send_block (put : list Z -> W -> option Z * W) (r : KlHttpResponse) (w : W) : option (Z * KlHttpResponse * W * list Z) :=
  let size := file_size (content r) in
  let off := file_offset (progress r) in
  if size <=? off then Some (0, r, w, [])
  else
    let '(rd, w) := file_pread w (Z.min (size - off) KL_FILE_BUF_SIZE) off in
    match rd with
    | None | Some [] => Some (-1, r, w, [])
    | Some data =>
        '(ok, unsent, w) ← put_loop (length data) put data w;
        let n := Z.of_nat (length data) - Z.of_nat (length unsent) in
        if (ok : bool) then
          let r := set_progress (set_file_offset (u64 (off + n)) (progress r)) r in
          Some (if file_offset (progress r) <? size then 1 else 0, r, w, take (Z.to_nat n) data)
        else Some (-1, r, w, take (Z.to_nat n) data)
    end.

(** The [while (remaining > 0)] loop around sendfile: the result and the offset reached. *)
Fixpoint sendfile_loop (fuel : nat) (size off : Z) (w : W) : option (Z * Z * W) :=
  let remaining := u64 (size - off) in
  if 0 <? remaining then
    match fuel with
    | O => None
    | S fuel' =>
        let '(n, off', w) := sock_sendfile w off remaining in
        if n <? 0 then
          match io_status w with
          | KL_IO_WOULD_BLOCK => Some (1, off', w)
          | KL_IO_INTERRUPTED => sendfile_loop fuel' size off' w
          | _ => Some (-1, off', w)
          end
        else if n =? 0 then Some (-1, off', w)
        else sendfile_loop fuel' size off' w
    end
  else Some (0, off, w).

Definition send_buffered (r : KlHttpResponse) (w : W) : option (Z * KlHttpResponse * W * list Z) :=
  iov ← kl_http_response_build_iovec r;
  match iov with
  | None => Some (-1, r, w, [])
  | Some iov =>
      let total := Z.of_nat (length (concat iov)) in
      match skip_iov (Z.to_nat (send_offset (progress r))) iov with
      | [] => Some (0, r, w, [])
      | rest =>
          '(nw, w) ← try_writev (tls r) rest w;
          if nw <? 0 then Some (-1, r, w, [])
          else
            let r := set_progress (set_sent (u64 (send_offset (progress r) + nw)) (progress r)) r in
            Some (if total <=? send_offset (progress r) then 0 else 1, r, w, take (Z.to_nat nw) (concat rest))
      end
  end.

(** ** Streaming *)

Definition response_drain_writer (use_tls : bool) (w : W) (data : list Z) : Z * W :=
  if use_tls then
    if comp_tls_full w then (0, w)
    else
      let '(nw, w) := tls_write w data in
      if nw <? 0 then (-1, w)
      else let '(rc, w) := comp_tls_flush w in if rc <? 0 then (-1, w) else (nw, w)
  else if comp_driven w then comp_write w data
  else
    let '(nw, w) := sock_send w data in
    if nw <? 0 then (if blocked_or_interrupted w then (0, w) else (-1, w)) else (nw, w).

(** The drain of a response never has an [on_writable] callback. *)
Definition res_drain_env (use_tls : bool) : DrainEnv W := {|
  write_fn := response_drain_writer use_tls; realloc_ok := res_realloc_ok; writable_cb := fun w => (RfDone, w)
|}.

Definition kl_http_response_enable_drain (max : Z) (r : KlHttpResponse) : Z * KlHttpResponse :=
  if negb (res_has_wire r) then (-1, r)
  else
    let d := if 0 <? max then kl_drain_set_max_size kl_drain_init max else kl_drain_init in
    (0, set_progress (set_res_drain true d (progress r)) r).

Definition res_write (r : KlHttpResponse) (d : KlDrain) (data : list Z) (w : W) : option (Z * KlDrain * W * list event) :=
  @kl_drain_write W (res_drain_env (tls r)) d data w.

(** One segment into the scratch buffer, which is written whenever it is full; a large segment that
    finds it empty goes past it.  [buf] is the first [used] bytes. *)
Fixpoint coalesce_segment (fuel : nat) (r : KlHttpResponse) (seg buf : list Z) (d : KlDrain) (w : W)
    : option (bool * list Z * KlDrain * W * list event) :=
  match seg with
  | [] => Some (true, buf, d, w, [])
  | _ =>
      match fuel with
      | O => None
      | S fuel' =>
          if (length buf =? 0)%nat && (KL_STREAM_WRITE_BUF_SIZE <=? length seg)%nat then
            '(rc, d, w, ev) ← res_write r d seg w; Some (negb (rc <? 0), buf, d, w, ev)
          else
            let copy_len := Nat.min (length seg) (KL_STREAM_WRITE_BUF_SIZE - length buf) in
            let buf := buf ++ take copy_len seg in
            let seg := drop copy_len seg in
            if (length buf =? KL_STREAM_WRITE_BUF_SIZE)%nat then
              '(rc, d, w, ev) ← res_write r d buf w;
              if rc <? 0 then Some (false, buf, d, w, ev)
              else '(ok, buf, d, w, ev2) ← coalesce_segment fuel' r seg [] d w; Some (ok, buf, d, w, ev ++ ev2)
            else coalesce_segment fuel' r seg buf d w
      end
  end.

Fixpoint coalesce (r : KlHttpResponse) (iov : list (list Z)) (buf : list Z) (d : KlDrain) (w : W)
    : option (bool * list Z * KlDrain * W * list event) :=
  match iov with
  | [] => Some (true, buf, d, w, [])
  | s :: rest =>
      '(ok, buf, d, w, ev) ← coalesce_segment (S (length s)) r s buf d w;
      if (ok : bool) then '(ok, buf, d, w, ev2) ← coalesce r rest buf d w; Some (ok, buf, d, w, ev ++ ev2)
      else Some (false, buf, d, w, ev)
  end.

Definition drain_writev_coalesced (r : KlHttpResponse) (iov : list (list Z)) (d : KlDrain) (w : W)
    : option (bool * KlDrain * W * list event) :=
  '(ok, buf, d, w, ev) ← coalesce r iov [] d w;
  if (ok : bool) && (0 <? length buf)%nat then
    '(rc, d, w, ev2) ← res_write r d buf w; Some (negb (rc <? 0), d, w, ev ++ ev2)
  else Some (ok, d, w, ev).

(** The calls of [stream_writev_all] on at most 16 segments at a time. *)
Fixpoint writev_batches (n fuel : nat) (use_tls : bool) (iov : list (list Z)) (w : W) : option (bool * W * list Z) :=
  match n, iov with
  | _, [] => Some (true, w, [])
  | O, _ => None
  | S n', _ =>
      '(ok, w, out) ← stream_writev_all fuel use_tls (take KL_SOCK_IOV_MAX iov) w;
      if (ok : bool) then
        '(ok, w, out2) ← writev_batches n' fuel use_tls (drop KL_SOCK_IOV_MAX iov) w; Some (ok, w, out ++ out2)
      else Some (false, w, out)
  end.

Definition fail_stream (r : KlHttpResponse) : KlHttpResponse := set_progress (set_stream_error (progress r)) r.

(** The sum of the segment lengths; [None] when it does not fit [size_t]. *)
Fixpoint sum_len (iov : list (list Z)) (len : Z) : option Z :=
  match iov with
  | [] => Some len
  | s :: rest => if SIZE_MAX - len <? Z.of_nat (length s) then None else sum_len rest (len + Z.of_nat (length s))
  end.

(** 0 or -1; the bytes that left. *)
Definition kl_http_response_stream_writev (fuel : nat) (iov : list (list Z)) (r : KlHttpResponse) (w : W)
    : option (Z * KlHttpResponse * W * list Z) :=
  let p := progress r in
  if stream_error p then Some (-1, r, w, [])
  else if head_request (head r) then Some (0, r, w, [])
  else if (KL_HTTP_STREAM_IOV_MAX <? length iov)%nat then Some (-1, fail_stream r, w, [])
  else
    match sum_len iov 0 with
    | None => Some (-1, fail_stream r, w, [])
    | Some len =>
        if len =? 0 then Some (0, r, w, [])
        else
          let wire := format_chunk_hdr len :: iov ++ [CRLF] in
          if drain_enabled p then
            '(ok, d, w, ev) ← drain_writev_coalesced r wire (drain p) w;
            let r := set_progress (set_res_drain true d p) r in
            Some (if (ok : bool) then (0, r, w, out_of ev) else (-1, fail_stream r, w, out_of ev))
          else
            '(ok, w, out) ← writev_batches (S (length wire)) fuel (tls r) wire w;
            Some (if (ok : bool) then (0, r, w, out) else (-1, fail_stream r, w, out))
    end.

Definition kl_http_response_stream_write (fuel : nat) (data : list Z) (r : KlHttpResponse) (w : W)
    : option (Z * KlHttpResponse * W * list Z) :=
  kl_http_response_stream_writev fuel [data] r w.

(** The head of a stream, segment by segment into the drain. *)
Fixpoint drain_segments (r : KlHttpResponse) (iov : list (list Z)) (d : KlDrain) (w : W) : option (bool * KlDrain * W * list event) :=
  match iov with
  | [] => Some (true, d, w, [])
  | s :: rest =>
      '(rc, d, w, ev) ← res_write r d s w;
      if rc <? 0 then Some (false, d, w, ev)
      else '(ok, d, w, ev2) ← drain_segments r rest d w; Some (ok, d, w, ev ++ ev2)
  end.

Definition kl_http_response_begin_stream (fuel : nat) (code : Z) (r : KlHttpResponse) (w : W)
    : option (Z * KlHttpResponse * W * list Z) :=
  let b := content r in
  let r := set_content (mkBody KL_HTTP_BODY_STREAM (body b) (body_len b) (body_owned b) (file_fd b) (file_size b)) r in
  if negb (res_has_wire r) then Some (-1, r, w, [])
  else
    let r := kl_http_response_status code r in
    '(rc, r, w) ← kl_http_response_header (Some (bytes "Transfer-Encoding")) (Some (bytes "chunked")) r w;
    if rc <? 0 then Some (-1, r, w, [])
    else
      let r := if negb (drain_enabled (progress r)) then (kl_http_response_enable_drain KL_STREAM_DRAIN_MAX r).2 else r in
      let h := head r in
      let iov := [status_line_for (status h)] ++ opt_seg (0 <? length (hdr_buf h))%nat (hdr_buf h) ++ [CRLF] in
      if drain_enabled (progress r) then
        '(ok, d, w, ev) ← drain_segments r iov (drain (progress r)) w;
        let r := set_progress (set_res_drain true d (progress r)) r in
        Some (if (ok : bool) then (0, set_progress (set_headers_sent (progress r)) r, w, out_of ev)
              else (-1, fail_stream r, w, out_of ev))
      else
        '(ok, w, out) ← stream_writev_all fuel (tls r) iov w;
        Some (if (ok : bool) then (0, set_progress (set_headers_sent (progress r)) r, w, out) else (-1, r, w, out)).

Definition last_chunk : list Z := bytes "0" ++ CRLF ++ CRLF.

Definition kl_http_response_end_stream (fuel : nat) (r : KlHttpResponse) (w : W) : option (Z * KlHttpResponse * W * list Z) :=
  let p := progress r in
  if stream_error p then Some (-1, r, w, [])
  else if negb (res_has_wire r) then Some (-1, r, w, [])
  else if head_request (head r) then Some (0, set_progress (set_stream_ended p) r, w, [])
  else if stream_ended p then Some (0, r, w, [])
  else if drain_enabled p then
    '(rc, d, w, ev) ← res_write r (drain p) last_chunk w;
    let r := set_progress (set_res_drain true d p) r in
    Some (if rc <? 0 then (-1, fail_stream r, w, out_of ev)
          else (0, set_progress (set_stream_ended (progress r)) r, w, out_of ev))
  else
    '(ok, w, out) ← stream_writev_all fuel (tls r) [last_chunk] w;
    Some (if (ok : bool) then (0, set_progress (set_stream_ended p) r, w, out) else (-1, fail_stream r, w, out)).

(** ** The whole of kl_http_response_send *)

(** 0 done, 1 more to come, -1 failed. *)
Definition send_body (fuel : nat) (r : KlHttpResponse) (w : W) : option (Z * KlHttpResponse * W * list Z) :=
  match body_mode (content r) with
  | KL_HTTP_BODY_STREAM =>
      let p := progress r in
      if drain_enabled p then
        '(rc, d, w, ev) ← @kl_drain_flush W (res_drain_env (tls r)) (drain p) w;
        let r := set_progress (set_res_drain true d p) r in
        Some (if rc <? 0 then -1 else if rc =? 1 then 1 else if stream_ended p then 0 else 1, r, w, out_of ev)
      else Some (0, r, w, [])
  | KL_HTTP_BODY_FILE =>
      if tls r then send_block put_tls r w
      else if negb has_sendfile then send_block put_plain r w
      else
        let w := sock_cork w true in
        let off := file_offset (progress r) in
        '(rc, off', w) ← sendfile_loop fuel (file_size (content r)) off w;
        let r := set_progress (set_file_offset off' (progress r)) r in
        Some (rc, r, if rc =? 0 then sock_cork w false else w, take (Z.to_nat (off' - off)) (drop (Z.to_nat off) file_data))
  | _ => Some (0, r, w, [])
  end.

Definition kl_http_response_send (fuel : nat) (r : KlHttpResponse) (w : W) : option (Z * KlHttpResponse * W * list Z) :=
  if negb (res_has_wire r) then Some (-1, r, w, [])
  else
    match body_mode (content r) with
    | KL_HTTP_BODY_BUFFER | KL_HTTP_BODY_NONE => send_buffered r w
    | _ =>
        if negb (headers_sent (progress r)) then
          '(ok, w, out) ← stream_writev_all fuel (tls r) (head_iovec r) w;
          if (ok : bool) then
            let r := set_progress (set_headers_sent (progress r)) r in
            if head_request (head r) then Some (0, r, w, out)
            else '(rc, r, w, out2) ← send_body fuel r w; Some (rc, r, w, out ++ out2)
          else Some (-1, r, w, out)
        else send_body fuel r w
    end.

End model.

(** ** Reading a response head *)

(** The text before the first CRLF, and what follows; a lone CR or LF is an error. *)
Fixpoint read_line (l : list Z) : option (list Z * list Z) :=
  match l with
  | [] => None
  | c :: rest =>
      if c =? c_CR then match rest with c' :: rest' => if c' =? c_LF then Some ([], rest') else None | [] => None end
      else if c =? c_LF then None
      else '(x, y) ← read_line rest; Some (c :: x, y)
  end.

(** Lines up to the first empty one, and the body. *)
Fixpoint read_head (fuel : nat) (l : list Z) : option (list (list Z) * list Z) :=
  match fuel with
  | O => None
  | S fuel' =>
      '(x, rest) ← read_line l;
      if (length x =? 0)%nat then Some ([], rest) else '(xs, body) ← read_head fuel' rest; Some (x :: xs, body)
  end.

Lemma contains_crlf_app a b : contains_crlf (a ++ b) = contains_crlf a || contains_crlf b.
Proof. apply existsb_app. Qed.

Lemma read_line_ok x rest : contains_crlf x = false -> read_line (line x ++ rest) = Some (x, rest).
Proof.
  unfold line. induction x as [|c x IH]; [done|]. cbn [contains_crlf existsb]. intros H. apply orb_false_iff in H as [Hc Hx].
  apply orb_false_iff in Hc as [Hc1 Hc2]. cbn [app read_line]. rewrite Hc1, Hc2, IH by done. done.
Qed.

Definition good_line (x : list Z) : Prop := x <> [] /\ contains_crlf x = false.

Lemma read_head_ok lines data fuel : Forall good_line lines -> (length lines < fuel)%nat ->
  read_head fuel (concat (line <$> lines) ++ CRLF ++ data) = Some (lines, data).
Proof.
  intros Hl. revert fuel. induction Hl as [|x lines [Hne Hx] _ IH]; intros fuel Hf; (destruct fuel as [|fuel]; [simpl in Hf; lia|]).
  - done.
  - cbn [fmap list_fmap concat read_head]. rewrite <- app_assoc, read_line_ok by done. rewrite bind_Some_l.
    destruct x as [|c x]; [done|]. cbn [length Nat.eqb]. rewrite IH by (simpl in Hf; lia). done.
Qed.

(** ** Numbers *)

Definition dec_value (ds : list Z) : Z := fold_left (fun v c => v * 10 + (c - c_0)) ds 0.

Lemma low_digits_value fuel base n : 2 <= base -> 0 <= n < base ^ Z.of_nat fuel ->
  Forall (fun d => 0 <= d < base) (low_digits fuel base n) /\
  foldr (fun d v => v * base + d) 0 (low_digits fuel base n) = n /\ (0 < n -> low_digits fuel base n <> []) /\
  (length (low_digits fuel base n) <= fuel)%nat.
Proof.
  intros Hb. revert n. induction fuel as [|fuel IH]; intros n Hn; cbn [low_digits].
  { simpl in Hn. split; [constructor|]. split; [simpl; lia|]. split; [lia|done]. }
  destruct (Z.ltb_spec 0 n); [|split; [constructor|]; split; [simpl; lia|]; split; [lia|simpl; lia]].
  rewrite Nat2Z.inj_succ, Z.pow_succ_r in Hn by lia.
  destruct (IH (n / base)) as (H1 & H2 & _ & H4).
  { split; [apply Z.div_pos; lia|]. apply Z.div_lt_upper_bound; lia. }
  pose proof (Z.mod_pos_bound n base ltac:(lia)). split; [by constructor|]. split; [|split; [done|simpl; lia]].
  cbn [foldr]. rewrite H2. pose proof (Z.div_mod n base ltac:(lia)). lia.
Qed.

Lemma fold_digits (base : Z) (f : Z -> Z) (g : Z -> Z) ds :
  Forall (fun d => g (f d) = d) ds ->
  fold_left (fun v c => v * base + g c) (f <$> reverse ds) 0 = foldr (fun d v => v * base + d) 0 ds.
Proof.
  intros H. induction H as [|d ds Hd _ IH]; [done|].
  rewrite reverse_cons, fmap_app, fold_left_app, IH. cbn. by rewrite Hd.
Qed.

Lemma format_uint_value n : 0 <= n <= SIZE_MAX ->
  dec_value (format_uint n) = n /\ Forall (fun c => c_0 <= c <= c_9) (format_uint n) /\ format_uint n <> [].
Proof.
  intros Hn. unfold format_uint, dec_value. destruct (Z.eqb_spec n 0) as [->|Hz].
  { split; [done|]. split; [repeat constructor; lia|done]. }
  destruct (low_digits_value 21 10 n ltac:(lia) ltac:(cbn; lia)) as (H1 & H2 & H3 & _). split; [|split].
  - rewrite (fold_digits 10 (fun d => c_0 + d) (fun c => c - c_0)); [done|]. eapply Forall_impl; [exact H1|]. simpl. lia.
  - apply Forall_fmap, Forall_reverse. eapply Forall_impl; [exact H1|]. simpl. lia.
  - intros E. apply fmap_nil_inv in E. apply (f_equal reverse) in E. rewrite reverse_involutive in E. by apply H3; [lia|].
Qed.

(** ** Building a response *)

(** What a handler and the connection layer do before sending. *)
Inductive build_op :=
| BStatus (code : Z)
| BHeader (name value : option (list Z))
| BBorrow (data : option (list Z))
| BCopy (data : option (list Z))
| BFile (fd size : Z)
| BJson (code : Z) (json : option (list Z))
| BError (code : Z) (message : option (list Z))
| BFlags (ka hd : bool)
| BBind (use_tls valid : bool)
| BDrain (max : Z).

Definition ospan_ok (d : option (list Z)) : Prop := match d with Some l => span_ok l | None => True end.

Definition build_ok (o : build_op) : Prop :=
  match o with
  | BHeader n v => ospan_ok n /\ ospan_ok v
  | BBorrow d | BCopy d | BJson _ d | BError _ d => ospan_ok d
  | BFile _ size => 0 <= size <= UINT64_MAX
  | BDrain max => 0 <= max <= SIZE_MAX
  | _ => True
  end.

Definition header_pair (n v : option (list Z)) : list (list Z * list Z) :=
  match n, v with Some n, Some v => [(n, v)] | _, _ => [] end.

Section building.
Context {W : Type} `{Env : !ResEnv W}.

(** The response, and the headers that were accepted. *)
Definition build_step (o : build_op) (r : KlHttpResponse) (w : W) : option (list (list Z * list Z) * KlHttpResponse * W) :=
  match o with
  | BStatus code => Some ([], kl_http_response_status code r, w)
  | BHeader n v =>
      '(rc, r, w) ← kl_http_response_header n v r w; Some (if rc =? 0 then header_pair n v else [], r, w)
  | BBorrow d => Some ([], kl_http_response_body_borrow d r, w)
  | BCopy d => let '(_, r, w) := kl_http_response_body_copy d r w in Some ([], r, w)
  | BFile fd size => Some ([], kl_http_response_file fd size r, w)
  | BJson code d =>
      '(rc, r, w) ← kl_http_response_json code d r w;
      Some (if rc =? 0 then [(bytes "Content-Type", bytes "application/json")] else [], r, w)
  | BError code d =>
      '(rc, r, w) ← kl_http_response_error code d r w;
      Some (if rc =? 0 then [(bytes "Content-Type", bytes "text/plain")] else [], r, w)
  | BFlags ka hd => let h := head r in Some ([], set_head (mkHead (status h) (hdr_buf h) (hdr_cap h) ka hd) r, w)
  | BBind t c => Some ([], mkRes (head r) (content r) (progress r) t c, w)
  | BDrain max => Some ([], (kl_http_response_enable_drain max r).2, w)
  end.

Fixpoint build (ops : list build_op) (r : KlHttpResponse) (w : W) : option (list (list Z * list Z) * KlHttpResponse * W) :=
  match ops with
  | [] => Some ([], r, w)
  | o :: ops => '(hs, r, w) ← build_step o r w; '(hs2, r, w) ← build ops r w; Some (hs ++ hs2, r, w)
  end.

Lemma hdr_grow_spec fuel cap need w : 0 < cap <= SIZE_MAX -> need <= SIZE_MAX -> SIZE_MAX < cap * 2 ^ Z.of_nat fuel ->
  exists ok cap' w', hdr_grow fuel cap need w = Some (ok, cap', w') /\ cap <= cap' <= SIZE_MAX /\ (ok = true -> need <= cap').
Proof.
  revert cap w. induction fuel as [|fuel IH]; intros cap w Hc Hn Hf; cbn [hdr_grow];
    (destruct (Z.ltb_spec cap need); [|exists true, cap, w; split; [done|]; split; lia]).
  { simpl in Hf. lia. }
  change (SIZE_MAX / 2) with 9223372036854775807. destruct (Z.ltb_spec 9223372036854775807 cap).
  { exists false, cap, w. split; [done|]. split; [lia|done]. }
  destruct (res_realloc_ok w (cap * 2)) as [[] w1]; [|exists false, cap, w1; split; [done|]; split; [lia|done]].
  rewrite Nat2Z.inj_succ, Z.pow_succ_r in Hf by lia. destruct (IH (cap * 2) w1) as (ok & cap' & w' & -> & Hr & Hok); [lia|lia|lia|].
  exists ok, cap', w'. split; [done|]. split; [lia|done].
Qed.

Definition head_ok (h : Head) : Prop := 0 < hdr_cap h <= SIZE_MAX /\ Z.of_nat (length (hdr_buf h)) <= hdr_cap h.

(** Only the buffer and its capacity change. *)
Definition same_head (h h' : Head) : Prop :=
  status h' = status h /\ keep_alive h' = keep_alive h /\ head_request h' = head_request h.

Lemma hdr_append_spec data h w : head_ok h ->
  exists ok h' w', hdr_append data h w = Some (ok, h', w') /\ head_ok h' /\ same_head h h' /\ hdr_cap h <= hdr_cap h' /\
    hdr_buf h' = if (ok : bool) then hdr_buf h ++ data else hdr_buf h.
Proof.
  intros [Hc Hl]. unfold hdr_append. set (n := Z.of_nat (length (hdr_buf h))) in *. set (len := Z.of_nat (length data)).
  assert (0 <= n) by (unfold n; lia). destruct (Z.ltb_spec (SIZE_MAX - n) len).
  { exists false, h, w. split; [done|]. by split; [split|]. }
  destruct (hdr_grow_spec 65 (hdr_cap h) (n + len) w ltac:(lia) ltac:(lia) ltac:(cbn; lia)) as (ok & cap & w' & -> & Hr & Hok).
  rewrite bind_Some_l. eexists _, _, _. split; [done|]. split; [|split; [done|split; [cbn; lia|done]]].
  split; cbn [with_hdr hdr_cap hdr_buf]; [lia|].
  destruct ok; [|unfold n in *; lia]. specialize (Hok eq_refl). rewrite length_app. unfold n, len in *. lia.
Qed.

Lemma hdr_appends_spec parts h w : head_ok h ->
  exists ok h' w', hdr_appends parts h w = Some (ok, h', w') /\ head_ok h' /\ same_head h h' /\ hdr_cap h <= hdr_cap h' /\
    (ok = true -> hdr_buf h' = hdr_buf h ++ concat parts).
Proof.
  revert h w. induction parts as [|p parts IH]; intros h w Hh; cbn [hdr_appends].
  { exists true, h, w. split; [done|]. cbn. rewrite app_nil_r. by split; [|split; [|split]]. }
  destruct (hdr_append_spec p h w Hh) as (ok & h1 & w1 & -> & Hh1 & Hs1 & Hc1 & Hb1). rewrite bind_Some_l. destruct ok.
  - destruct (IH h1 w1 Hh1) as (ok2 & h2 & w2 & -> & Hh2 & Hs2 & Hc2 & Hb2). exists ok2, h2, w2. split; [done|]. split; [done|].
    unfold same_head in *. destruct Hs1 as (<- & <- & <-). split; [done|]. split; [lia|].
    intros Ho. rewrite (Hb2 Ho), Hb1. cbn [concat]. by rewrite app_assoc.
  - exists false, h1, w1. by split; [|split; [|split; [|split]]].
Qed.

Definition header_text (h : list Z * list Z) : list Z := h.1 ++ bytes ": " ++ h.2.
Definition headers_of (hs : list (list Z * list Z)) : list Z := concat (line <$> (header_text <$> hs)).
Definition clean (h : list Z * list Z) : Prop := contains_crlf h.1 = false /\ contains_crlf h.2 = false.

(** A response under construction that has accepted the headers [hs]. *)
Record res_ok (hs : list (list Z * list Z)) (r : KlHttpResponse) : Prop := {
  ro_head : head_ok (head r);
  ro_buf : hdr_buf (head r) = headers_of hs;
  ro_hs : Forall clean hs;
  ro_len : 0 <= body_len (content r) <= SIZE_MAX;
  ro_body : forall l, body_bytes (content r) = Some l -> body_len (content r) = Z.of_nat (length l);
  ro_file : 0 <= file_size (content r) <= UINT64_MAX;
  ro_sent : send_offset (progress r) = 0;
  ro_drain : inv (drain (progress r)) /\ buf (drain (progress r)) = [] /\ error (drain (progress r)) = false;
  ro_stream : stream_error (progress r) = false /\ stream_ended (progress r) = false;
}.

Lemma headers_of_snoc hs n v : headers_of (hs ++ [(n, v)]) = headers_of hs ++ concat [n; bytes ": "; v; CRLF].
Proof.
  unfold headers_of. rewrite !fmap_app, concat_app. cbn [fmap list_fmap concat]. unfold line, header_text. cbn [fst snd].
  by rewrite !app_nil_r, <- !app_assoc.
Qed.

Lemma header_spec n v r w hs : res_ok hs r ->
  exists rc r' w', kl_http_response_header n v r w = Some (rc, r', w') /\ (rc = 0 \/ rc = -1) /\
    res_ok (hs ++ if rc =? 0 then header_pair n v else []) r' /\
    same_head (head r) (head r') /\ content r' = content r /\ progress r' = progress r /\ tls r' = tls r /\ conn r' = conn r /\
    (rc = 0 -> exists n' v', n = Some n' /\ v = Some v').
Proof.
  intros Hr. unfold kl_http_response_header.
  assert (Hno : exists rc r' w', Some (-1, r, w) = Some (rc, r', w') /\ (rc = 0 \/ rc = -1) /\
    res_ok (hs ++ if rc =? 0 then header_pair n v else []) r' /\
    same_head (head r) (head r') /\ content r' = content r /\ progress r' = progress r /\ tls r' = tls r /\ conn r' = conn r /\
    (rc = 0 -> exists n' v', n = Some n' /\ v = Some v')).
  { exists (-1), r, w. split; [done|]. split; [by right|]. rewrite app_nil_r. by split. }
  destruct n as [n|], v as [v|]; try exact Hno. destruct (contains_crlf n || contains_crlf v) eqn:Ec; [exact Hno|]. clear Hno.
  apply orb_false_iff in Ec as [Hn Hv]. destruct Hr as [Hh Hb Hhs Hl Hby Hf Hz Hdr Hst].
  destruct (hdr_appends_spec [n; bytes ": "; v; CRLF] (head r) w Hh) as (ok & h' & w' & -> & Hh' & Hs' & Hc' & Hb'). rewrite bind_Some_l.
  destruct ok; eexists _, _, _; (split; [done|]).
  - split; [by left|]. split; [|split; [done|]; split; [done|]; split; [done|]; split; [done|]; split; [done|]; eauto].
    split; [done| |by apply Forall_app; split; [|repeat constructor]|done|done|done|done|done|done].
    cbn [set_head head header_pair]. change (0 =? 0) with true. cbv iota. by rewrite headers_of_snoc, (Hb' eq_refl), Hb.
  - split; [by right|]. rewrite app_nil_r. split; [|by split].
    split; [|done|done|done|done|done|done|done|done]. destruct Hh as [H1 H2], Hh' as [H3 H4]. split; cbn; lia.
Qed.

Lemma enable_drain_ok hs max r : res_ok hs r -> 0 <= max <= SIZE_MAX -> res_ok hs (kl_http_response_enable_drain max r).2.
Proof.
  intros Hr Hm. unfold kl_http_response_enable_drain. destruct (negb (res_has_wire r)); [done|].
  destruct Hr. split; cbn; try done. destruct (0 <? max); by split; [split|].
Qed.

Lemma build_step_spec o r w hs : res_ok hs r -> build_ok o ->
  exists hs2 r' w', build_step o r w = Some (hs2, r', w') /\ res_ok (hs ++ hs2) r'.
Proof.
  intros Hr Ho. assert (Hst : forall code, res_ok hs (kl_http_response_status code r)) by (intros code; by destruct Hr; split).
  assert (Hborrow : forall d r' hs', res_ok hs' r' -> ospan_ok d -> res_ok hs' (kl_http_response_body_borrow d r')).
  { intros [d|] r' hs' [] Hd; [|by split]. unfold span_ok in Hd. simpl in Hd. unfold span_ok in Hd.
    split; cbn; auto; [lia|]. by intros l [= <-]. }
  destruct o as [code|n v|d|d|fd size|code d|code d|ka hd|t c|max]; cbn [build_step build_ok] in *.
  - do 3 eexists. split; [done|]. rewrite app_nil_r. apply Hst.
  - destruct (header_spec n v r w hs Hr) as (rc & r' & w' & -> & Hrc & Hr' & _). rewrite bind_Some_l. eauto.
  - do 3 eexists. split; [done|]. rewrite app_nil_r. by apply Hborrow.
  - unfold kl_http_response_body_copy. destruct d as [d|]; [|do 3 eexists; split; [done|]; by rewrite app_nil_r].
    destruct Hr as [H1 H2 H3 H4 H5 H6 H7 H8 H9]. simpl in Ho. unfold span_ok in Ho.
    destruct (Nat.eqb_spec (length d) 0); [|destruct (res_realloc_ok w (Z.of_nat (length d))) as [[] w1]];
      (do 3 eexists; split; [done|]; rewrite app_nil_r; split; cbn; auto; try lia).
    + by intros l [= <-].
    + by intros l [= <-].
    + unfold body_bytes in *. cbn. destruct (body (content r)); [done|]. by intros l.
  - do 3 eexists. split; [done|]. rewrite app_nil_r. destruct Hr. by split.
  - unfold kl_http_response_json. destruct (header_spec (Some (bytes "Content-Type")) (Some (bytes "application/json")) _ w hs (Hst code))
      as (rc & r' & w' & -> & [-> | ->] & Hr' & _); rewrite bind_Some_l; cbn [Z.ltb Z.compare]; do 3 eexists; (split; [done|]).
    + by apply Hborrow.
    + done.
  - unfold kl_http_response_error. destruct (header_spec (Some (bytes "Content-Type")) (Some (bytes "text/plain")) _ w hs (Hst code))
      as (rc & r' & w' & -> & [-> | ->] & Hr' & _); rewrite bind_Some_l; cbn [Z.ltb Z.compare]; do 3 eexists; (split; [done|]).
    + apply Hborrow; [done|]. destruct d; [done|]. simpl. unfold span_ok. simpl. lia.
    + done.
  - do 3 eexists. split; [done|]. rewrite app_nil_r. destruct Hr. by split.
  - do 3 eexists. split; [done|]. rewrite app_nil_r. destruct Hr. by split.
  - do 3 eexists. split; [done|]. rewrite app_nil_r. by apply enable_drain_ok.
Qed.

Lemma build_spec ops r w hs : res_ok hs r -> Forall build_ok ops ->
  exists hs2 r' w', build ops r w = Some (hs2, r', w') /\ res_ok (hs ++ hs2) r'.
Proof.
  intros Hr Ho. revert r w hs Hr. induction Ho as [|o ops Ho _ IH]; intros r w hs Hr; cbn [build].
  { do 3 eexists. split; [done|]. by rewrite app_nil_r. }
  destruct (build_step_spec o r w hs Hr Ho) as (hs1 & r1 & w1 & -> & Hr1). rewrite bind_Some_l.
  destruct (IH r1 w1 _ Hr1) as (hs2 & r2 & w2 & -> & Hr2). rewrite bind_Some_l. do 3 eexists. split; [done|].
  by rewrite app_assoc.
Qed.

Lemma init_ok w r w' : kl_http_response_init w = (Some r, w') -> res_ok [] r.
Proof.
  unfold kl_http_response_init. destruct (res_realloc_ok w KL_HDR_INIT_CAP) as [[] w1]; [|done]. intros [= <- _].
  split; cbn; try done; try lia. by intros l [= <-].
Qed.

(** ** The bytes of a buffered response *)

Lemma digits_clean l : Forall (fun c => c_0 <= c <= c_9) l -> contains_crlf l = false.
Proof.
  induction 1 as [|c l Hc _ IH]; [done|]. cbn [contains_crlf existsb]. fold (contains_crlf l). rewrite IH.
  destruct (Z.eqb_spec c c_CR), (Z.eqb_spec c c_LF); (lia || done).
Qed.

Lemma code_digits_clean code : 200 <= code <= 599 -> contains_crlf (code_digits code) = false.
Proof.
  intros Hc. apply digits_clean. unfold code_digits.
  rewrite !Forall_cons. split; [|split; [|split; [|constructor]]]; Z.to_euclidean_division_equations; lia.
Qed.

Lemma reason_phrase_spec code p : reason_phrase code = Some p -> 200 <= code <= 599 /\ contains_crlf p = false.
Proof.
  unfold reason_phrase. destruct (List.find _ reason_phrases) as [[c q]|] eqn:Ef; [|done]. intros [= <-].
  apply find_some in Ef as [Hin Hc]. apply Z.eqb_eq in Hc. simpl in *. subst c.
  assert (Hall : forallb (fun x => (200 <=? x.1) && (x.1 <=? 599) && negb (contains_crlf x.2)) reason_phrases = true) by by vm_compute.
  rewrite forallb_forall in Hall. specialize (Hall _ Hin). simpl in Hall. breflect. split; [lia|done].
Qed.

Lemma status_line_good code : exists t, status_line_for code = line t /\ good_line t.
Proof.
  assert (Hg : forall p, 200 <= code <= 599 -> contains_crlf p = false -> good_line (status_text code p)).
  { intros p Hc Hp. split; [done|]. unfold status_text. rewrite !contains_crlf_app, code_digits_clean, Hp by done. done. }
  unfold status_line_for. destruct (reason_phrase code) as [p|] eqn:Ep.
  - apply reason_phrase_spec in Ep as [Hc Hp]. eauto.
  - destruct ((200 <=? code) && (code <=? 599)) eqn:Ec.
    + breflect. exists (status_text code []). split; [done|]. apply Hg; [lia|done].
    + eexists. split; [done|]. by split.
Qed.

Lemma header_text_good h : clean h -> good_line (header_text h).
Proof.
  intros [H1 H2]. destruct h as [n v]. simpl in *. split; [by destruct n|]. unfold header_text. cbn [fst snd].
  rewrite !contains_crlf_app, H1, H2. done.
Qed.

Definition length_text (n : Z) : list Z := bytes "Content-Length: " ++ format_uint n.

Lemma length_text_good n : 0 <= n <= SIZE_MAX -> good_line (length_text n).
Proof.
  intros Hn. split; [done|]. unfold length_text. rewrite contains_crlf_app, (digits_clean (format_uint n)); [done|]. by apply format_uint_value.
Qed.

Lemma concat_opt b s : concat (opt_seg b s) = if b then s else [].
Proof. destruct b; [apply app_nil_r|done]. Qed.

Lemma concat_opt_hdr (s : list Z) : concat (opt_seg (0 <? length s)%nat s) = s.
Proof. rewrite concat_opt. by destruct s. Qed.

(** The body that follows the head of a buffered response. *)
Definition body_on_wire (r : KlHttpResponse) : option (list Z) :=
  match body_mode (content r) with
  | KL_HTTP_BODY_FILE => Some []
  | _ => if (0 <? body_len (content r)) && negb (head_request (head r)) then body_bytes (content r) else Some []
  end.

Definition declared_len (r : KlHttpResponse) : Z :=
  match body_mode (content r) with KL_HTTP_BODY_FILE => file_size (content r) | _ => body_len (content r) end.

(** Every line of the head after the status line. *)
Definition field_lines (hs : list (list Z * list Z)) (r : KlHttpResponse) : list (list Z) :=
  (header_text <$> hs) ++ [length_text (declared_len r)] ++ (if keep_alive (head r) then [bytes "Connection: keep-alive"] else []).

Lemma field_lines_good hs r : res_ok hs r -> Forall good_line (field_lines hs r).
Proof.
  intros Hr. unfold field_lines. apply Forall_app. split.
  - apply Forall_fmap. eapply Forall_impl; [apply Hr|]. intros h Hh. by apply header_text_good.
  - apply Forall_cons. split.
    + apply length_text_good. unfold declared_len. destruct Hr. by destruct (body_mode (content r)).
    + destruct (keep_alive (head r)); repeat constructor. done.
Qed.

Lemma build_iovec_spec hs r : res_ok hs r ->
  match kl_http_response_build_iovec r with
  | None => body (content r) = BOwned /\ body_owned (content r) = None
  | Some None => body_mode (content r) = KL_HTTP_BODY_STREAM
  | Some (Some iov) =>
      body_mode (content r) <> KL_HTTP_BODY_STREAM /\ (length iov <= 7)%nat /\
      exists t data, status_line_for (status (head r)) = line t /\ good_line t /\ body_on_wire r = Some data /\
        concat iov = concat (line <$> t :: field_lines hs r) ++ CRLF ++ data
  end.
Proof.
  intros Hr. destruct (status_line_good (status (head r))) as (t & Ht & Hgt).
  assert (Hfront : forall n tail, concat (([status_line_for (status (head r))] ++ opt_seg (0 <? length (hdr_buf (head r)))%nat (hdr_buf (head r)) ++
      [format_content_length n] ++ opt_seg (keep_alive (head r)) kl_keepalive_hdr ++ [CRLF]) ++ tail) =
    concat (line <$> t :: (header_text <$> hs) ++ [length_text n] ++ (if keep_alive (head r) then [bytes "Connection: keep-alive"] else [])) ++ CRLF ++ concat tail).
  { intros n tail. rewrite !concat_app, concat_opt_hdr, concat_opt, (ro_buf _ _ Hr), Ht. cbn [concat fmap list_fmap].
    rewrite !fmap_app, !concat_app. cbn [concat fmap list_fmap]. unfold headers_of, format_content_length, kl_keepalive_hdr, length_text.
    rewrite !app_nil_r, <- !app_assoc. by destruct (keep_alive (head r)); cbn [fmap list_fmap concat app]; rewrite ?app_nil_r, <- ?app_assoc. }
  assert (Hlen : forall n, (length ([status_line_for (status (head r))] ++ opt_seg (0 <? length (hdr_buf (head r)))%nat (hdr_buf (head r)) ++
      [format_content_length n] ++ opt_seg (keep_alive (head r)) kl_keepalive_hdr ++ [CRLF]) <= 5)%nat).
  { intros n. rewrite !length_app. unfold opt_seg. destruct (0 <? _)%nat, (keep_alive _); cbn [length]; lia. }
  unfold kl_http_response_build_iovec, body_on_wire, field_lines, declared_len.
  destruct (body_mode (content r)) eqn:Em; [| | |done]; cbn [negb andb].
  1, 2: destruct ((0 <? body_len (content r)) && negb (head_request (head r))).
  1, 3: unfold body_bytes; destruct (body (content r)) as [data|] eqn:Eb;
    [rewrite bind_Some_l|destruct (body_owned (content r)) as [data|]; [rewrite bind_Some_l|done]];
    (split; [done|]; split; [rewrite length_app; specialize (Hlen (body_len (content r))); simpl in *; lia|]; exists t, data;
     rewrite Hfront; cbn [concat]; rewrite app_nil_r; done).
  all: split; [done|]; split; [etransitivity; [apply Hlen|lia]|]; exists t, [];
    (split; [done|]; split; [done|]; split; [done|]); rewrite <- (Hfront _ []), app_nil_r; done.
Qed.

End building.

(** ** Sending a buffered response in pieces *)

(** What the transport promises: it takes at most what it is offered. *)
Class ResEnvOk {W} (Env : ResEnv W) : Prop := {
  writev_bounded w iov : (sock_writev w iov).1 <= Z.of_nat (length (concat iov));
  send_bounded w data : (sock_send w data).1 <= Z.of_nat (length data);
  tls_bounded w data : (tls_write w data).1 <= Z.of_nat (length data);
}.

Lemma skip_iov_concat n iov : concat (skip_iov n iov) = drop n (concat iov).
Proof.
  revert n. induction iov as [|s iov IH]; intros n; cbn [skip_iov concat]; [by rewrite drop_nil|].
  destruct (Nat.leb_spec (length s) n).
  - rewrite IH, drop_app_ge by done. done.
  - cbn [concat]. rewrite drop_app_le by lia. done.
Qed.

Lemma skip_iov_nil n iov : skip_iov n iov = [] <-> (length (concat iov) <= n)%nat.
Proof.
  revert n. induction iov as [|s iov IH]; intros n; cbn [skip_iov concat]; [simpl; split; [lia|done]|]. rewrite length_app.
  destruct (Nat.leb_spec (length s) n); [rewrite IH; lia|]. split; [done|lia].
Qed.

Section sending.
Context {W : Type} {Env : ResEnv W} {EnvOk : ResEnvOk Env}.

Lemma send_segment_spec fuel seg total w : (length seg <= fuel)%nat -> 0 <= total ->
  exists t more w', send_segment fuel seg total w = Some ((t, more), w') /\ t <= total + Z.of_nat (length seg) /\ (more = true -> 0 <= t).
Proof.
  revert seg total w. induction fuel as [|fuel IH]; intros seg total w Hl Ht; (destruct seg as [|b seg]; [exists total, true, w; split; [done|]; split; [simpl; lia|lia]|]).
  { simpl in Hl. lia. }
  cbn [send_segment]. pose proof (send_bounded w (b :: seg)) as Hb. destruct (sock_send w (b :: seg)) as [nw w1]. cbn [fst] in Hb.
  destruct (Z.ltb_spec nw 0); [do 3 eexists; split; [done|]; split; [case_test; lia|done]|].
  destruct (Z.eqb_spec nw 0); [do 3 eexists; split; [done|]; split; [lia|done]|].
  destruct (IH (drop (Z.to_nat nw) (b :: seg)) (total + nw) w1) as (t & more & w' & -> & Hx & Hm); [rewrite length_drop; cbn [length] in *; lia|lia|].
  exists t, more, w'. split; [done|]. split; [|done]. rewrite length_drop in Hx. cbn [length] in *. lia.
Qed.

Lemma send_segments_spec iov total w : 0 <= total ->
  exists t w', send_segments iov total w = Some (t, w') /\ t <= total + Z.of_nat (length (concat iov)).
Proof.
  revert total w. induction iov as [|s iov IH]; intros total w Ht; cbn [send_segments concat]; [do 2 eexists; split; [done|]; simpl; lia|].
  destruct (send_segment_spec (length s) s total w ltac:(done) Ht) as (t & more & w1 & -> & Hx & Hm). rewrite bind_Some_l, length_app.
  destruct more; [|do 2 eexists; split; [done|]; lia].
  destruct (IH t w1 (Hm eq_refl)) as (t2 & w2 & -> & Hx2). do 2 eexists. split; [done|]. lia.
Qed.

Lemma seam_writev_spec iov w : exists n w', seam_writev iov w = Some (n, w') /\ n <= Z.of_nat (length (concat iov)).
Proof.
  unfold seam_writev. destruct has_writev.
  - pose proof (writev_bounded w iov). destruct (sock_writev w iov) as [n w']. eauto.
  - apply (send_segments_spec iov 0 w). lia.
Qed.

Lemma first_nonempty_spec iov : match first_nonempty iov with
  | None => concat iov = []
  | Some s => s <> [] /\ exists rest, concat iov = s ++ rest
  end.
Proof.
  induction iov as [|[|b s] iov IH]; cbn [first_nonempty concat]; [done|done|]. split; [done|]. eauto.
Qed.

Lemma try_writev_spec use_tls iov w : exists n w', try_writev use_tls iov w = Some (n, w') /\ n <= Z.of_nat (length (concat iov)).
Proof.
  unfold try_writev. destruct use_tls; cbn [negb].
  - pose proof (first_nonempty_spec iov) as Hf. destruct (first_nonempty iov) as [s|]; [|do 2 eexists; split; [done|]; lia].
    destruct Hf as (_ & rest & ->). pose proof (tls_bounded w s). destruct (tls_write w s) as [n w']. do 2 eexists. split; [done|].
    rewrite length_app. simpl in *. case_test; lia.
  - destruct (seam_writev_spec iov w) as (n & w' & -> & Hn). rewrite bind_Some_l.
    destruct (Z.ltb_spec n 0); [destruct (blocked_or_interrupted w')|]; do 2 eexists; (split; [done|]); lia.
Qed.

(** Calls until the response is done or failed; the caller gives up after [k] of them. *)
Fixpoint drive (k fuel : nat) (r : KlHttpResponse) (w : W) : option (Z * KlHttpResponse * W * list Z) :=
  match k with
  | O => Some (1, r, w, [])
  | S k' =>
      '(rc, r, w, out) ← kl_http_response_send fuel r w;
      if rc =? 1 then '(rc2, r, w, out2) ← drive k' fuel r w; Some (rc2, r, w, out ++ out2) else Some (rc, r, w, out)
  end.

(** What is left to send. *)
Definition rest_of (wire : list Z) (r : KlHttpResponse) : list Z := drop (Z.to_nat (send_offset (progress r))) wire.

Lemma send_buffered_spec r w iov : kl_http_response_build_iovec r = Some (Some iov) -> Z.of_nat (length (concat iov)) <= SIZE_MAX ->
  0 <= send_offset (progress r) <= Z.of_nat (length (concat iov)) ->
  exists rc r' w' out, send_buffered r w = Some (rc, r', w', out) /\ head r' = head r /\ content r' = content r /\ tls r' = tls r /\ conn r' = conn r /\
    0 <= send_offset (progress r') <= Z.of_nat (length (concat iov)) /\
    (rc = -1 \/ rc = 0 \/ rc = 1) /\ rest_of (concat iov) r = out ++ rest_of (concat iov) r' /\
    (rc = 0 -> rest_of (concat iov) r' = []) /\ (rc = 1 -> rest_of (concat iov) r' <> []).
Proof.
  intros Hb Hl Ho. unfold send_buffered. rewrite Hb, bind_Some_l. set (wire := concat iov) in *. set (off := send_offset (progress r)) in *.
  destruct (skip_iov (Z.to_nat off) iov) as [|s rest] eqn:Es.
  { apply skip_iov_nil in Es. exists 0, r, w, []. split; [done|]. split; [done|]. split; [done|]. split; [done|]. split; [done|]. split; [done|].
    split; [by right; left|]. split; [done|]. split; [|done]. intros _. unfold rest_of. fold off. apply drop_ge. unfold wire. lia. }
  pose proof (skip_iov_concat (Z.to_nat off) iov) as Hc. rewrite Es in Hc. fold wire in Hc.
  destruct (try_writev_spec (tls r) (s :: rest) w) as (n & w1 & -> & Hn). rewrite bind_Some_l. rewrite Hc in *. rewrite length_drop in Hn.
  destruct (Z.ltb_spec n 0).
  { exists (-1), r, w1, []. split; [done|]. split; [done|]. split; [done|]. split; [done|]. split; [done|]. split; [done|].
    split; [by left|]. split; [done|]. split; done. }
  set (r' := set_progress (set_sent (u64 (off + n)) (progress r)) r).
  assert (Hoff : send_offset (progress r') = off + n) by (unfold r'; cbn; apply u64_small; lia).
  eexists _, r', w1, _. split; [done|]. do 4 (split; [done|]). rewrite Hoff. split; [lia|]. unfold rest_of. rewrite Hoff. fold off.
  split; [destruct (_ <=? _); auto|]. split.
  - replace (Z.to_nat (off + n)) with (Z.to_nat off + Z.to_nat n)%nat by lia. rewrite <- drop_drop. by rewrite take_drop.
  - destruct (Z.leb_spec (Z.of_nat (length wire)) (off + n)).
    + split; [|done]. intros _. apply drop_ge. lia.
    + split; [done|]. intros _ E. apply (f_equal length) in E. rewrite length_drop in E. simpl in E. lia.
Qed.

Lemma body_on_wire_eq hs r data : res_ok hs r -> (body_mode (content r) = KL_HTTP_BODY_BUFFER \/ body_mode (content r) = KL_HTTP_BODY_NONE) ->
  body_bytes (content r) <> None -> body_on_wire r = Some data ->
  if head_request (head r) then data = [] else body_bytes (content r) = Some data.
Proof.
  intros Hr Hm Hlive Hd. unfold body_on_wire in Hd.
  assert (Hd' : (if (0 <? body_len (content r)) && negb (head_request (head r)) then body_bytes (content r) else Some []) = Some data)
    by by destruct Hm as [Hm|Hm]; rewrite Hm in Hd.
  destruct (head_request (head r)); [rewrite andb_false_r in Hd'; congruence|]. rewrite andb_true_r in Hd'.
  destruct (Z.ltb_spec 0 (body_len (content r))); [done|]. injection Hd' as <-.
  destruct (body_bytes (content r)) as [l|] eqn:El; [|done]. apply (ro_body _ _ Hr) in El. destruct Hr. destruct l; [done|simpl in *; lia].
Qed.

Lemma send_is_buffered fuel r w : res_has_wire r = true ->
  (body_mode (content r) = KL_HTTP_BODY_BUFFER \/ body_mode (content r) = KL_HTTP_BODY_NONE) ->
  kl_http_response_send fuel r w = send_buffered r w.
Proof. intros Hw Hm. unfold kl_http_response_send. rewrite Hw. by destruct Hm as [-> | ->]. Qed.

Lemma drive_spec k fuel r w iov : kl_http_response_build_iovec r = Some (Some iov) -> Z.of_nat (length (concat iov)) <= SIZE_MAX ->
  res_has_wire r = true -> (body_mode (content r) = KL_HTTP_BODY_BUFFER \/ body_mode (content r) = KL_HTTP_BODY_NONE) ->
  0 <= send_offset (progress r) <= Z.of_nat (length (concat iov)) ->
  exists rc r' w' out, drive k fuel r w = Some (rc, r', w', out) /\ rest_of (concat iov) r = out ++ rest_of (concat iov) r' /\
    (rc = 0 -> rest_of (concat iov) r' = []).
Proof.
  intros Hb Hl Hw Hm. revert r w Hb Hw Hm. induction k as [|k IH]; intros r w Hb Hw Hm Ho; cbn [drive].
  { exists 1, r, w, []. by split. }
  destruct (send_buffered_spec r w iov Hb Hl Ho) as (rc & r1 & w1 & out & Hs & Hh & Hc & Ht & Hcn & Ho1 & Hrc & Hrest & H0 & H1).
  rewrite send_is_buffered, Hs, bind_Some_l by done.
  destruct (Z.eqb_spec rc 1) as [->|]; [|exists rc, r1, w1, out; by split].
  assert (Hb1 : kl_http_response_build_iovec r1 = Some (Some iov)) by (unfold kl_http_response_build_iovec in *; by rewrite Hh, Hc).
  destruct (IH r1 w1 Hb1 ltac:(unfold res_has_wire in *; by rewrite Ht, Hcn) ltac:(by rewrite Hc) Ho1) as (rc2 & r2 & w2 & out2 & -> & Hr2 & H02).
  rewrite bind_Some_l. exists rc2, r2, w2, (out ++ out2). split; [done|]. split; [|done]. by rewrite Hrest, Hr2, app_assoc.
Qed.

(** C15.  A buffered response on the wire.  Whatever sequence of calls builds it (headers with hostile
    names and values, allocations that fail, bodies set and replaced), as long as the response is
    connected to a transport, has a buffered body or none, is at most [SIZE_MAX] bytes long, and its
    body is not one that a failed kl_http_response_body_copy has freed ([Hlive]), and however the
    transport cuts the writes: a client that reads what was sent finds exactly the status line, the accepted
    headers in order, the Content-Length of the body, and the body; no header can smuggle in a line
    of its own.  What was sent is always a prefix of that, nothing is sent twice, and a result of 0
    means all of it was. *)
Theorem response_on_wire (ops : list build_op) (k fuel : nat) (w w0 w1 : W) (r0 r : KlHttpResponse) (hs : list (list Z * list Z))
    (Hinit : kl_http_response_init w = (Some r0, w0)) (Hops : Forall build_ok ops) (Hb : build ops r0 w0 = Some (hs, r, w1))
    (Hmode : body_mode (content r) = KL_HTTP_BODY_BUFFER \/ body_mode (content r) = KL_HTTP_BODY_NONE)
    (Hlive : body_bytes (content r) <> None) (Hwire : res_has_wire r = true)
    (Hroom : forall iov, kl_http_response_build_iovec r = Some (Some iov) -> Z.of_nat (length (concat iov)) <= SIZE_MAX) :
  exists wire t data,
    read_head (4 + length hs) wire = Some (t :: field_lines hs r, data) /\ line t = status_line_for (status (head r)) /\
    Forall clean hs /\ dec_value (format_uint (declared_len r)) = body_len (content r) /\
    (if head_request (head r) then data = [] else body_bytes (content r) = Some data) /\
    exists rc r' w' out, drive k fuel r w1 = Some (rc, r', w', out) /\ out `prefix_of` wire /\ (rc = 0 -> out = wire).
Proof using EnvOk.
  destruct (build_spec ops r0 w0 [] (init_ok _ _ _ Hinit) Hops) as (hs' & r1 & w1' & Hb1 & Hr). rewrite Hb in Hb1. injection Hb1 as <- <- <-.
  cbn [app] in Hr. pose proof (build_iovec_spec hs r Hr) as Hv.
  destruct (kl_http_response_build_iovec r) as [[iov|]|] eqn:Eb; cycle 1.
  { destruct Hmode; congruence. }
  { destruct Hv as [Hv1 Hv2]. unfold body_bytes in Hlive. by rewrite Hv1, Hv2 in Hlive. }
  destruct Hv as (_ & _ & t & data & Ht & Hgt & Hdata & Hc). exists (concat iov), t, data.
  assert (Hdl : declared_len r = body_len (content r)) by (unfold declared_len; by destruct Hmode as [-> | ->]).
  split; [|split; [done|split; [apply Hr|split; [|split]]]].
  - rewrite Hc. apply read_head_ok; [constructor; [done|by apply field_lines_good]|]. cbn [length]. unfold field_lines.
    rewrite !length_app, length_fmap. destruct (keep_alive (head r)); cbn [length]; lia.
  - rewrite Hdl. apply format_uint_value, Hr.
  - by apply body_on_wire_eq with hs.
  - destruct (drive_spec k fuel r w1 iov Eb (Hroom _ eq_refl) Hwire Hmode) as (rc & r' & w' & out & Hd & Ho & H0); [rewrite (ro_sent _ _ Hr); lia|].
    unfold rest_of at 1 in Ho. rewrite (ro_sent _ _ Hr) in Ho. change (drop (Z.to_nat 0) (concat iov)) with (concat iov) in Ho. exists rc, r', w', out. split; [done|]. split.
    + rewrite Ho. by apply prefix_app_r.
    + intros Hrc. by rewrite Ho, (H0 Hrc), app_nil_r.
Qed.

End sending.

(** A transport that takes seven bytes on every other call and would block in between; each
    third allocation fails. *)
#[global] Instance trickle : ResEnv nat := {|
  has_writev := true; has_sendfile := true;
  sock_writev := fun w iov => (if Nat.even w then Z.of_nat (Nat.min 7 (length (concat iov))) else -1, S w);
  sock_send := fun w data => (if Nat.even w then Z.of_nat (Nat.min 7 (length data)) else -1, S w);
  io_status := fun _ => KL_IO_WOULD_BLOCK;
  tls_write := fun w data => (Z.of_nat (Nat.min 5 (length data)), S w);
  file_data := bytes "file";
  file_pread := fun w n off => (Some (take (Z.to_nat n) (drop (Z.to_nat off) (bytes "file"))), S w);
  sock_sendfile := fun w off n => (Z.min n 3, off + Z.min n 3, S w);
  sock_cork := fun w _ => w;
  res_realloc_ok := fun w _ => (negb (w mod 3 =? 2)%nat, S w);
  comp_tls_full := fun _ => false; comp_tls_flush := fun w => (0, w);
  comp_driven := fun _ => false; comp_write := fun w data => (Z.of_nat (length data), w);
|}.

Lemma trickle_ok : ResEnvOk trickle.
Proof. split; intros w x; cbn; repeat case_match; lia. Qed.

Definition sample_build : list build_op :=
  [BStatus 404; BHeader (Some (bytes "X-A")) (Some (bytes "1")); BHeader (Some (bytes "X-B")) (Some (bytes "2" ++ CRLF ++ bytes "Evil: 3"));
   BCopy (Some (bytes "first")); BJson 200 (Some (bytes "{}")); BCopy (Some (bytes "hello")); BFlags true false; BBind false true].

Definition sample_r0 : KlHttpResponse := Eval vm_compute in default (mkRes (mkHead 0 [] 0 false false) no_body fresh_progress false false) (kl_http_response_init 0%nat).1.

Definition sample_hs : list (list Z * list Z) := [(bytes "X-A", bytes "1"); (bytes "Content-Type", bytes "application/json")].

Definition sample_res : KlHttpResponse := Eval vm_compute in default sample_r0 ((fun x => x.1.2) <$> build sample_build sample_r0 1%nat).

Lemma sample_build_ok : Forall build_ok sample_build.
Proof. repeat constructor; by vm_compute. Qed.

Lemma response_on_wire_witness : exists wire t data,
  read_head 6 wire = Some (t :: field_lines sample_hs sample_res, data) /\ body_bytes (content sample_res) = Some data /\
  exists rc r' w' out, drive 60 0 sample_res 3%nat = Some (rc, r', w', out) /\ (rc = 0 -> out = wire).
Proof.
  destruct (response_on_wire (EnvOk := trickle_ok) sample_build 60 0 0%nat 1%nat 3%nat sample_r0 sample_res sample_hs) as
    (wire & t & data & H1 & _ & _ & _ & H2 & rc & r' & w' & out & H3 & _ & H4).
  - reflexivity.
  - exact sample_build_ok.
  - reflexivity.
  - left. reflexivity.
  - discriminate.
  - reflexivity.
  - intros iov H. vm_compute in H. injection H as <-. vm_compute. discriminate.
  - exists wire, t, data. split; [exact H1|]. split; [exact H2|]. exists rc, r', w', out. split; [exact H3|exact H4].
Defined.

End Response.
