(* ===== verification/ResponseStream.v ===== *)
(** * Streamed responses on the wire (src/src/protocols/http/http_response.c)

    What a client receives from a response sent with [kl_http_response_begin_stream],
    [kl_http_response_stream_writev] and [kl_http_response_end_stream] through the drain, and that the
    server's own chunked decoder reads back the payload. *)
From S2P Require Import Prelude Chunked Drain Response.
Import Chunked Drain Response.

Module ResponseStream.

(** ** The chunked coding *)

Definition chunk (x : list Z) : list Z :=
  match x with [] => [] | _ => format_chunk_hdr (Z.of_nat (length x)) ++ x ++ CRLF end.

Lemma hex_digit_value d : 0 <= d < 16 -> size_digit (hex_digit d) = Some d.
Proof.
  intros Hd. unfold hex_digit, size_digit. destruct (Z.ltb_spec d 10).
  - destruct (Z.leb_spec c_0 (c_0 + d)), (Z.leb_spec (c_0 + d) c_9); simpl; try lia. f_equal. lia.
  - destruct (Z.leb_spec c_0 (c_a + (d - 10))), (Z.leb_spec (c_a + (d - 10)) c_9); simpl; try lia.
    destruct (Z.leb_spec c_a (c_a + (d - 10))), (Z.leb_spec (c_a + (d - 10)) c_f); simpl; try lia. f_equal. lia.
Qed.

Lemma chunk_hdr_line n : 0 < n <= SIZE_MAX -> size_line (format_chunk_hdr n) n.
Proof.
  intros Hn. unfold format_chunk_hdr, line. destruct (Z.eqb_spec n 0); [lia|].
  destruct (low_digits_value 16 16 n ltac:(lia) ltac:(cbn; lia)) as (H1 & H2 & H3 & H4).
  set (ds := hex_digit <$> reverse (low_digits 16 16 n)). assert (Hv : size_value 0 ds = n).
  { unfold size_value, ds. rewrite (fold_digits 16 hex_digit (fun c => default 0 (size_digit c))); [done|].
    eapply Forall_impl; [exact H1|]. intros d Hd. simpl. by rewrite hex_digit_value. }
  assert (Hl : size_line (ds ++ [] ++ CRLF) (size_value 0 ds)); [|by rewrite Hv in Hl]. constructor; [| |by left].
  - unfold ds. rewrite length_fmap, length_reverse. destruct (low_digits 16 16 n); [by destruct (H3 ltac:(lia))|]. simpl in *. lia.
  - apply Forall_fmap, Forall_reverse. eapply Forall_impl; [exact H1|]. intros d Hd. simpl. unfold is_hexdigit. by rewrite hex_digit_value.
Qed.

Lemma last_chunk_body : chunked_body last_chunk [].
Proof.
  change last_chunk with ((bytes "0" ++ [] ++ CRLF) ++ trailer_lines []). constructor.
  - apply (SizeLine (bytes "0") []); [simpl; lia| |by left]. repeat constructor. by eexists.
  - exists []. by split; [|split].
Qed.

Lemma chunk_body x raw body : span_ok x -> chunked_body raw body -> chunked_body (chunk x ++ raw) (x ++ body).
Proof.
  intros Hx Hb. unfold chunk. destruct x as [|b x]; [done|]. rewrite <- !app_assoc.
  apply ChunkCons with (n := Z.of_nat (length (b :: x))); [|simpl; lia|done|done]. apply chunk_hdr_line.
  unfold span_ok in Hx. cbn [length] in *. lia.
Qed.

(** ** Writing through the drain *)

(** From [d] to [d'], with [data] handed over and [out] leaving: a failed drain keeps what it holds;
    otherwise what left and what is held is a prefix of what was held and the data, and all of it
    when the write succeeds. *)
Definition flows (d d' : KlDrain) (data out : list Z) (ok : bool) : Prop :=
  if error d then error d' = true /\ out ++ buf d' = buf d
  else out ++ buf d' `prefix_of` buf d ++ data /\ (ok = true -> error d' = false /\ out ++ buf d' = buf d ++ data).

Lemma flows_refl d : flows d d [] [] true.
Proof. unfold flows. destruct (error d) eqn:E; [done|]. by rewrite app_nil_r. Qed.

Lemma flows_trans d1 d2 d3 x1 x2 o1 o2 ok : flows d1 d2 x1 o1 true -> flows d2 d3 x2 o2 ok -> flows d1 d3 (x1 ++ x2) (o1 ++ o2) ok.
Proof.
  unfold flows. destruct (error d1).
  - intros [-> H1] [H2 H3]. split; [done|]. by rewrite <- app_assoc, H3.
  - intros [_ H]. destruct (H eq_refl) as [-> H1]. intros [H2 H3]. rewrite <- app_assoc, (app_assoc (buf d1)), <- H1, <- app_assoc. split.
    + by apply prefix_app.
    + intros Ho. destruct (H3 Ho) as [-> ->]. by rewrite app_assoc.
Qed.

Lemma flows_stop d1 d2 x y o : flows d1 d2 x o false -> flows d1 d2 (x ++ y) o false.
Proof.
  unfold flows. destruct (error d1); [done|]. intros [H _]. split; [|done]. rewrite app_assoc. by apply prefix_app_r.
Qed.

Lemma flows_weaken d1 d2 x o ok : flows d1 d2 x o ok -> flows d1 d2 x o false.
Proof. unfold flows. destruct (error d1); [done|]. intros [H _]. by split. Qed.

Section streaming.
Context {W : Type} {Env : ResEnv W}.

Lemma res_write_spec r d data w : inv d -> span_ok data ->
  exists rc d' w' ev, res_write r d data w = Some (rc, d', w', ev) /\ inv d' /\ (rc = 0 \/ rc = -1) /\
    flows d d' data (out_of ev) (rc =? 0).
Proof.
  intros Hi Hd. unfold flows. destruct (error d) eqn:He.
  { exists (-1), d, w, []. unfold res_write, kl_drain_write. rewrite He. auto 6. }
  destruct (@drain_write_spec W (res_drain_env (tls r)) d data w Hi Hd He) as (rc & d' & w' & ev & Hw & Hi' & _ & _ & Hrc).
  exists rc, d', w', ev. split; [exact Hw|]. split; [done|]. destruct Hrc as [(-> & He' & ->)|(-> & [[_ Hp]|[_ ->]])].
  - split; [by left|]. by split.
  - split; [by right|]. by split.
  - split; [by right|]. split; [apply prefix_self|done].
Qed.

Lemma small_span x : (length x <= KL_STREAM_WRITE_BUF_SIZE)%nat -> span_ok x.
Proof. intros H. unfold span_ok. apply inj_le in H. change (Z.of_nat KL_STREAM_WRITE_BUF_SIZE) with 4096 in H. lia. Qed.

Lemma room_when_empty : (length (@nil Z) < KL_STREAM_WRITE_BUF_SIZE)%nat.
Proof. by apply Nat.ltb_lt. Qed.

Definition seg_spec (d : KlDrain) (held data : list Z) (o : option (bool * list Z * KlDrain * W * list event)) : Prop :=
  exists ok held' d' w' ev, o = Some (ok, held', d', w', ev) /\ inv d' /\ (ok = true -> (length held' < KL_STREAM_WRITE_BUF_SIZE)%nat) /\
    exists sent, flows d d' sent (out_of ev) ok /\ if (ok : bool) then sent ++ held' = held ++ data else sent `prefix_of` held ++ data.

Lemma coalesce_segment_spec fuel r seg held d w : (length seg < fuel)%nat -> inv d -> span_ok seg ->
  (length held < KL_STREAM_WRITE_BUF_SIZE)%nat -> seg_spec d held seg (coalesce_segment fuel r seg held d w).
Proof.
  revert seg held d w. induction fuel as [|fuel IH]; intros seg held d w Hf Hi Hs Hh; [lia|].
  destruct seg as [|b seg'] eqn:Eseg.
  { exists true, held, d, w, []. split; [done|]. split; [done|]. split; [done|]. exists []. split; [apply flows_refl|]. by rewrite app_nil_r. }
  rewrite <- Eseg in *. assert (Hpos : (0 < length seg)%nat) by (subst; simpl; lia).
  unfold coalesce_segment; fold (@coalesce_segment W Env). rewrite Eseg, <- Eseg. clear Eseg.
  destruct ((length held =? 0)%nat && (KL_STREAM_WRITE_BUF_SIZE <=? length seg)%nat) eqn:Eb.
  { breflect. destruct held; [|done]. destruct (res_write_spec r d seg w Hi Hs) as (rc & d' & w' & ev & -> & Hi' & Hrc & Hfl). rewrite bind_Some_l.
    eexists _, _, _, _, _. split; [done|]. split; [done|]. split; [done|]. exists seg.
    destruct Hrc as [-> | ->]; (split; [exact Hfl|]); [by rewrite app_nil_r|by exists []; rewrite app_nil_r]. }
  clear Eb. set (n := Nat.min (length seg) (KL_STREAM_WRITE_BUF_SIZE - length held)). set (held1 := held ++ take n seg).
  assert (Hn : (0 < n <= length seg)%nat) by (unfold n; lia).
  assert (Hl : length held1 = (length held + n)%nat) by (unfold held1; rewrite length_app, length_take; lia).
  assert (Hsp : span_ok (drop n seg)) by (unfold span_ok in *; rewrite length_drop; lia).
  assert (Hd : (length (drop n seg) < fuel)%nat) by (rewrite length_drop; lia).
  assert (Hx : held ++ seg = held1 ++ drop n seg) by (unfold held1; by rewrite <- app_assoc, take_drop).
  destruct (Nat.eqb_spec (length held1) KL_STREAM_WRITE_BUF_SIZE).
  - destruct (res_write_spec r d held1 w Hi) as (rc & d1 & w1 & ev1 & -> & Hi1 & Hrc & Hfl); [apply small_span; lia|]. rewrite bind_Some_l.
    destruct Hrc as [-> | ->]; cbn [Z.ltb Z.compare].
    + destruct (IH (drop n seg) [] d1 w1 Hd Hi1 Hsp) as (ok & held' & d' & w' & ev2 & -> & Hi' & Hl' & sent & Hfl2 & Hsent);
        [apply room_when_empty|].
      rewrite bind_Some_l. eexists _, _, _, _, _. split; [done|]. split; [done|]. split; [done|]. exists (held1 ++ sent).
      rewrite out_of_app. split; [by eapply flows_trans|]. rewrite Hx. destruct ok; [by rewrite <- app_assoc, Hsent|by apply prefix_app].
    + eexists _, _, _, _, _. split; [done|]. split; [done|]. split; [done|]. exists held1. split; [exact Hfl|]. rewrite Hx. by exists (drop n seg).
  - destruct (IH (drop n seg) held1 d w Hd Hi Hsp) as (ok & held' & d' & w' & ev2 & -> & Hi' & Hl' & sent & Hfl2 & Hsent); [lia|].
    eexists _, _, _, _, _. split; [done|]. split; [done|]. split; [done|]. exists sent. by rewrite Hx.
Qed.

Lemma coalesce_spec r iov held d w : inv d -> Forall span_ok iov -> (length held < KL_STREAM_WRITE_BUF_SIZE)%nat ->
  seg_spec d held (concat iov) (coalesce r iov held d w).
Proof.
  intros Hi Hs. revert held d w Hi. induction Hs as [|s iov Hs _ IH]; intros held d w Hi Hh; cbn [coalesce concat].
  { exists true, held, d, w, []. split; [done|]. split; [done|]. split; [done|]. exists []. split; [apply flows_refl|]. by rewrite app_nil_r. }
  destruct (coalesce_segment_spec (S (length s)) r s held d w) as (ok & held1 & d1 & w1 & ev1 & -> & Hi1 & Hl1 & sent1 & Hf1 & Hs1); [lia|done..|].
  rewrite bind_Some_l. unfold seg_spec. rewrite app_assoc. destruct ok.
  - destruct (IH held1 d1 w1 Hi1 (Hl1 eq_refl)) as (ok & held2 & d2 & w2 & ev2 & -> & Hi2 & Hl2 & sent2 & Hf2 & Hs2).
    rewrite bind_Some_l. eexists _, _, _, _, _. split; [done|]. split; [done|]. split; [done|]. exists (sent1 ++ sent2).
    rewrite out_of_app. split; [by eapply flows_trans|]. rewrite <- Hs1, <- !app_assoc. destruct ok; [by rewrite Hs2|by apply prefix_app].
  - eexists _, _, _, _, _. split; [done|]. split; [done|]. split; [done|]. exists sent1. split; [done|]. by apply prefix_app_r.
Qed.

Lemma flows_prefix d d' x y o : x `prefix_of` y -> flows d d' x o false -> flows d d' y o false.
Proof. intros [k ->]. apply flows_stop. Qed.

Lemma drain_writev_spec r iov d w : inv d -> Forall span_ok iov ->
  exists ok d' w' ev, drain_writev_coalesced r iov d w = Some (ok, d', w', ev) /\ inv d' /\ flows d d' (concat iov) (out_of ev) ok.
Proof.
  intros Hi Hs. unfold drain_writev_coalesced.
  destruct (coalesce_spec r iov [] d w Hi Hs) as (ok & held & d1 & w1 & ev1 & -> & Hi1 & Hl1 & sent & Hf & Hsent);
    [apply room_when_empty|].
  rewrite bind_Some_l. cbn [app] in Hsent. destruct ok; cbn [andb]; cycle 1.
  { eexists _, _, _, _. split; [done|]. split; [done|]. by eapply flows_prefix. }
  destruct (Nat.ltb_spec 0 (length held)); cycle 1.
  { eexists _, _, _, _. split; [done|]. split; [done|]. destruct held; [|simpl in *; lia]. rewrite app_nil_r in Hsent. by subst sent. }
  specialize (Hl1 eq_refl).
  destruct (res_write_spec r d1 held w1 Hi1) as (rc & d2 & w2 & ev2 & -> & Hi2 & Hrc & Hf2); [apply small_span; lia|]. rewrite bind_Some_l.
  eexists _, _, _, _. split; [done|]. split; [done|]. rewrite out_of_app, <- Hsent. destruct Hrc as [-> | ->]; by eapply flows_trans.
Qed.

Lemma drain_segments_spec r iov d w : inv d -> Forall span_ok iov ->
  exists ok d' w' ev, drain_segments r iov d w = Some (ok, d', w', ev) /\ inv d' /\ flows d d' (concat iov) (out_of ev) ok.
Proof.
  intros Hi Hs. revert d w Hi. induction Hs as [|s iov Hs _ IH]; intros d w Hi; cbn [drain_segments concat].
  { exists true, d, w, []. split; [done|]. split; [done|]. apply flows_refl. }
  destruct (res_write_spec r d s w Hi Hs) as (rc & d1 & w1 & ev1 & -> & Hi1 & Hrc & Hf). rewrite bind_Some_l. destruct Hrc as [-> | ->]; cbn [Z.ltb Z.compare].
  - destruct (IH d1 w1 Hi1) as (ok & d2 & w2 & ev2 & -> & Hi2 & Hf2). rewrite bind_Some_l. eexists _, _, _, _. split; [done|]. split; [done|].
    rewrite out_of_app. by eapply flows_trans.
  - eexists _, _, _, _. split; [done|]. split; [done|]. by apply flows_stop.
Qed.

(** ** A stream *)

Inductive stream_op := SWrite (iov : list (list Z)) | SFlush | SEnd.

Definition stream_ok (o : stream_op) : Prop := match o with SWrite iov => Forall span_ok iov | _ => True end.

Definition stream_step (fuel : nat) (o : stream_op) (r : KlHttpResponse) (w : W) : option (Z * KlHttpResponse * W * list Z) :=
  match o with
  | SWrite iov => kl_http_response_stream_writev fuel iov r w
  | SFlush => kl_http_response_send fuel r w
  | SEnd => kl_http_response_end_stream fuel r w
  end.

Fixpoint stream_run (fuel : nat) (ops : list stream_op) (r : KlHttpResponse) (w : W) : option (KlHttpResponse * W * list Z) :=
  match ops with
  | [] => Some (r, w, [])
  | o :: ops =>
      '(_, r, w, out) ← stream_step fuel o r w;
      '(r, w, out2) ← stream_run fuel ops r w; Some (r, w, out ++ out2)
  end.

(** The bytes a stream puts behind its head: a chunk per write, the last chunk at the first end. *)
Fixpoint stream_wire (ended : bool) (ops : list stream_op) : list Z :=
  match ops with
  | [] => []
  | SWrite iov :: ops => chunk (concat iov) ++ stream_wire ended ops
  | SFlush :: ops => stream_wire ended ops
  | SEnd :: ops => (if ended then [] else last_chunk) ++ stream_wire true ops
  end.

Fixpoint payload (ops : list stream_op) : list Z :=
  match ops with
  | SWrite iov :: ops => concat iov ++ payload ops
  | _ :: ops => payload ops
  | [] => []
  end.

(** Nothing is written once the stream was ended. *)
Fixpoint well_used (ended : bool) (ops : list stream_op) : bool :=
  match ops with
  | [] => true
  | SWrite _ :: ops => negb ended && well_used ended ops
  | SFlush :: ops => well_used ended ops
  | SEnd :: ops => well_used true ops
  end.

Definition pending (r : KlHttpResponse) : list Z := buf (drain (progress r)).
Definition failed (r : KlHttpResponse) : bool := stream_error (progress r) || error (drain (progress r)).

Record streaming (r : KlHttpResponse) : Prop := {
  st_wire : res_has_wire r = true;
  st_mode : body_mode (content r) = KL_HTTP_BODY_STREAM;
  st_head : headers_sent (progress r) = true;
  st_drain : drain_enabled (progress r) = true;
  st_inv : inv (drain (progress r));
}.

Definition after_op (o : stream_op) (ended : bool) : bool := match o with SEnd => true | _ => ended end.

Definition is_write (o : stream_op) : bool := match o with SWrite _ => true | _ => false end.

(** A stream that was ended has not failed before; [ended]: an end was asked for. *)
Definition ended_ok (ended : bool) (r : KlHttpResponse) : Prop :=
  stream_ended (progress r) = true -> ended = true /\ stream_error (progress r) = false.

(** The length of a chunk is a size_t. *)
Definition fits (r : KlHttpResponse) (o : stream_op) : Prop :=
  match o with SWrite iov => head_request (head r) = true \/ span_ok (concat iov) | _ => True end.

(** One operation: [x] is what it adds behind the pending bytes when nothing fails. *)
Record moves (r r' : KlHttpResponse) (o : stream_op) (x out : list Z) : Prop := {
  mv_st : streaming r';
  mv_head : head r' = head r;
  mv_prefix : out ++ pending r' `prefix_of` pending r ++ x;
  mv_failed : failed r = true -> failed r' = true /\ out ++ pending r' `prefix_of` pending r;
  mv_all : failed r' = false -> out ++ pending r' = pending r ++ x /\ stream_ended (progress r') = after_op o (stream_ended (progress r));
  mv_fits : failed r' = false -> fits r o;
  mv_ended : forall e, (is_write o = true -> e = false) -> ended_ok e r -> ended_ok (after_op o e) r';
}.

Definition offer (r : KlHttpResponse) (o : stream_op) : list Z :=
  if head_request (head r) then []
  else match o with
       | SWrite iov => chunk (concat iov)
       | SFlush => []
       | SEnd => if stream_ended (progress r) then [] else last_chunk
       end.

Lemma moves_none r o : streaming r -> o <> SEnd -> fits r o -> moves r r o [] [].
Proof.
  intros Hr Ho Hx. split; try done.
  - by rewrite app_nil_r.
  - intros _. rewrite app_nil_r. by destruct o.
  - intros e _ He. by destruct o.
Qed.

(** The drain took [x], or failed on it. *)
Lemma moves_drain r d' o x out (ok : bool) : streaming r -> inv d' -> is_write o = true -> fits r o -> stream_error (progress r) = false ->
  flows (drain (progress r)) d' x out ok ->
  let r' := set_progress (set_res_drain true d' (progress r)) r in
  moves r (if ok then r' else fail_stream r') o x out.
Proof.
  intros Hr Hi Ho Hx He Hf r'. unfold flows in Hf. set (r2 := if ok then r' else fail_stream r').
  assert (Hd : drain (progress r2) = d') by by destruct ok.
  assert (Hp : pending r2 = buf d') by (unfold pending; by rewrite Hd).
  assert (Hend : stream_ended (progress r2) = stream_ended (progress r)) by by destruct ok.
  assert (Herr : stream_error (progress r2) = negb ok) by by destruct ok.
  split; rewrite ?Hp; unfold failed, pending in *; rewrite ?Hd, ?Herr, ?He; cbn [orb].
  - destruct Hr. by destruct ok.
  - by destruct ok.
  - destruct (error (drain (progress r))); [|by destruct Hf]. destruct Hf as [_ ->]. apply prefix_self.
  - intros E. rewrite E in Hf. destruct Hf as [-> ->]. split; [apply orb_true_r|done].
  - intros E. apply orb_false_iff in E as [E1 E2]. destruct ok; [|done].
    destruct (error (drain (progress r))); [destruct Hf; congruence|]. destruct Hf as [_ Hf]. destruct (Hf eq_refl) as [_ ->].
    split; [done|]. rewrite Hend. by destruct o.
  - done.
  - intros e Hw Hk. unfold ended_ok in *. rewrite Hend. intros E. destruct (Hk E). rewrite (Hw Ho) in *. done.
Qed.

Lemma sum_len_spec iov n : 0 <= n -> match sum_len iov n with
  | Some len => len = n + Z.of_nat (length (concat iov)) /\ (iov <> [] -> len <= SIZE_MAX)
  | None => SIZE_MAX < n + Z.of_nat (length (concat iov)) end.
Proof.
  revert n. induction iov as [|s iov IH]; intros n Hn; cbn [sum_len concat]; [split; [simpl; lia|done]|]. rewrite length_app.
  destruct (Z.ltb_spec (SIZE_MAX - n) (Z.of_nat (length s))); [lia|]. specialize (IH (n + Z.of_nat (length s)) ltac:(lia)).
  destruct (sum_len iov (n + Z.of_nat (length s))) as [len|]; [|lia]. destruct IH as [IH1 IH2]. split; [lia|]. intros _.
  destruct iov; [simpl in *; lia|]. by apply IH2.
Qed.

Lemma fail_moves r iov : streaming r -> moves r (fail_stream r) (SWrite iov) (offer r (SWrite iov)) [].
Proof.
  intros Hr. split.
  - by destruct Hr.
  - done.
  - apply prefix_self.
  - done.
  - done.
  - done.
  - intros e Hw Hk Hend. specialize (Hk Hend) as [-> _]. by specialize (Hw eq_refl).
Qed.

Lemma refused_moves r o : streaming r -> failed r = true -> moves r r o (offer r o) [].
Proof.
  intros Hr Hf. split; [done|done|apply prefix_self|done|congruence|congruence|].
  intros e _ He Hend. destruct (He Hend) as [-> ?]. by destruct o.
Qed.

Lemma format_chunk_hdr_span n : 0 < n <= SIZE_MAX -> span_ok (format_chunk_hdr n).
Proof.
  intros Hn. unfold span_ok, format_chunk_hdr, line. destruct (Z.eqb_spec n 0); [lia|].
  destruct (low_digits_value 16 16 n ltac:(lia) ltac:(cbn; lia)) as (_ & _ & _ & H4).
  rewrite length_app, length_fmap, length_reverse. cbn [length CRLF]. lia.
Qed.

Lemma write_moves fuel iov r w : streaming r -> Forall span_ok iov ->
  exists rc r' w' out, kl_http_response_stream_writev fuel iov r w = Some (rc, r', w', out) /\ moves r r' (SWrite iov) (offer r (SWrite iov)) out.
Proof.
  intros Hr Hs. unfold kl_http_response_stream_writev. destruct (stream_error (progress r)) eqn:He.
  { do 4 eexists. split; [done|]. apply refused_moves; [done|]. unfold failed. by rewrite He. }
  destruct (head_request (head r)) eqn:Hh.
  { do 4 eexists. split; [done|]. unfold offer. rewrite Hh. apply moves_none; [done..|]. by left. }
  destruct (KL_HTTP_STREAM_IOV_MAX <? length iov)%nat; [do 4 eexists; split; [done|]; by apply fail_moves|].
  pose proof (sum_len_spec iov 0 ltac:(lia)) as Hl. destruct (sum_len iov 0) as [len|]; [|do 4 eexists; split; [done|]; by apply fail_moves].
  destruct Hl as [Hl1 Hl2]. unfold offer. rewrite Hh. destruct (Z.eqb_spec len 0).
  { do 4 eexists. split; [done|]. assert (Hn : concat iov = []) by (apply length_zero; lia). rewrite Hn. apply moves_none; [done..|]. right. by rewrite Hn. }
  assert (Hlen : 0 < len <= SIZE_MAX) by (split; [lia|]; apply Hl2; intros ->; simpl in *; lia).
  rewrite (st_drain _ Hr).
  destruct (drain_writev_spec r (format_chunk_hdr len :: iov ++ [CRLF]) (drain (progress r)) w) as (ok & d' & w' & ev & -> & Hi & Hf).
  { apply Hr. }
  { constructor; [by apply format_chunk_hdr_span|]. apply Forall_app. split; [done|]. by repeat constructor. }
  rewrite bind_Some_l. assert (Hc : concat (format_chunk_hdr len :: iov ++ [CRLF]) = chunk (concat iov)).
  { unfold chunk. destruct (concat iov) as [|b x] eqn:Ec; [simpl in *; lia|]. rewrite <- Ec in *. cbn [concat]. rewrite concat_app, Hl1. cbn [concat]. by rewrite app_nil_r. }
  rewrite Hc in Hf. pose proof (moves_drain r d' (SWrite iov) _ _ ok Hr Hi eq_refl ltac:(right; unfold span_ok; lia) He Hf) as Hm.
  destruct ok; do 4 eexists; (split; [done|exact Hm]).
Qed.

(** The drain of a response has no refill callback, so a flush only sends. *)
Lemma flush_silent t d w rc d' w' ev : @kl_drain_flush W (res_drain_env t) d w = Some (rc, d', w', ev) ->
  accepted_of ev = [] /\ offered_of ev = [] /\ (rc = 0 -> error d' = false).
Proof.
  unfold kl_drain_flush, drain_push. destruct (error d) eqn:He; [by intros [= <- <- <- <-]|].
  destruct (buf_len d =? 0); [by intros [= <- <- <- <-]|].
  destruct (@push_spec W (res_drain_env t) (length (buf d)) d w ltac:(lia)) as (rc1 & d1 & w1 & ev1 & -> & Hs & _ & Hrc). rewrite bind_Some_l.
  destruct (sends_silent ev1 Hs) as [Ha Ho]. destruct Hrc as [[-> ->]|[-> ->]]; cbn [Z.ltb Z.compare]; [|by intros [= <- <- <- <-]].
  unfold drain_notify. destruct (drain_crossed_low_water _ _); cbn; intros [= <- <- <- <-];
    rewrite accepted_of_app, offered_of_app, Ha, Ho; (split; [|split; [|done]]); by repeat case_match.
Qed.

Lemma flush_quiet t d w : inv d -> exists rc d' w' ev, @kl_drain_flush W (res_drain_env t) d w = Some (rc, d', w', ev) /\ inv d' /\
  flows d d' [] (out_of ev) (negb (error d')) /\ -1 <= rc <= 1 /\ (rc = 0 -> buf d' = [] /\ error d' = false).
Proof.
  intros Hi. destruct (@flush_spec W (res_drain_env t) ltac:(done) d w Hi) as (rc & d' & w' & ev & Hfl & Hi' & Hf & _ & H0 & _ & Hr).
  destruct (flush_silent t d w rc d' w' ev Hfl) as (Ha & Ho & He). exists rc, d', w', ev. split; [done|]. split; [done|].
  split; [|split; [done|auto]]. unfold fifo, flows in *. destruct (error d); [done|]. rewrite Ha, Ho in Hf.
  destruct (error d'); [by split|]. destruct Hf as [-> _]. done.
Qed.

Lemma flush_moves fuel r w : streaming r ->
  exists rc r' w' out, kl_http_response_send fuel r w = Some (rc, r', w', out) /\ moves r r' SFlush (offer r SFlush) out /\
    stream_ended (progress r') = stream_ended (progress r) /\
    (error (drain (progress r')) = false -> error (drain (progress r)) = false /\ out ++ pending r' = pending r) /\
    (rc = 0 -> pending r' = [] /\ error (drain (progress r')) = false /\ stream_ended (progress r') = true).
Proof.
  intros Hr. unfold kl_http_response_send, send_body. rewrite (st_wire _ Hr), (st_mode _ Hr), (st_head _ Hr), (st_drain _ Hr). cbn [negb].
  destruct (flush_quiet (tls r) (drain (progress r)) w (st_inv _ Hr)) as (rc & d' & w' & ev & -> & Hi & Hf & Hr1 & Hrc). rewrite bind_Some_l.
  do 4 eexists. split; [done|]. replace (offer r SFlush) with (@nil Z) by (unfold offer; by destruct (head_request _)).
  unfold flows in Hf. split; [split|split; [done|split]]; unfold pending, failed in *; cbn [set_progress progress set_res_drain drain stream_error stream_ended].
  - destruct Hr. by split.
  - done.
  - destruct (error (drain (progress r))); [|by destruct Hf]. destruct Hf as [_ ->]. apply prefix_self.
  - intros E. destruct (error (drain (progress r))); [destruct Hf as [-> ->]; split; [apply orb_true_r|done]|].
    rewrite orb_false_r in E. rewrite E. split; [done|]. destruct Hf as [Hf _]. by rewrite app_nil_r in Hf.
  - intros E. apply orb_false_iff in E as [E1 E2]. destruct (error (drain (progress r))); [destruct Hf; congruence|].
    destruct Hf as [_ Hf]. rewrite E2 in Hf. destruct (Hf eq_refl) as [_ ->]. done.
  - done.
  - intros e _ He. exact He.
  - intros E. rewrite E in Hf. destruct (error (drain (progress r))); [destruct Hf; congruence|]. destruct Hf as [_ Hf].
    destruct (Hf eq_refl) as [_ ->]. by rewrite app_nil_r.
  - destruct (Z.ltb_spec rc 0); [lia|]. destruct (Z.eqb_spec rc 1); [lia|]. destruct (stream_ended (progress r)) eqn:Ee; [|lia].
    intros _. destruct (Hrc ltac:(lia)). done.
Qed.

Lemma end_moves fuel r w : streaming r ->
  exists rc r' w' out, kl_http_response_end_stream fuel r w = Some (rc, r', w', out) /\ moves r r' SEnd (offer r SEnd) out.
Proof.
  intros Hr. unfold kl_http_response_end_stream. destruct (stream_error (progress r)) eqn:He.
  { do 4 eexists. split; [done|]. apply refused_moves; [done|]. unfold failed. by rewrite He. }
  rewrite (st_wire _ Hr). cbn [negb]. unfold offer. destruct (head_request (head r)).
  { do 4 eexists. split; [done|]. split; try done; unfold pending, failed, ended_ok; cbn.
    - by destruct Hr.
    - by rewrite app_nil_r.
    - intros _. by rewrite app_nil_r. }
  destruct (stream_ended (progress r)) eqn:Ee.
  { do 4 eexists. split; [done|]. split; try done.
    - by rewrite app_nil_r.
    - intros _. by rewrite app_nil_r, Ee. }
  rewrite (st_drain _ Hr).
  destruct (res_write_spec r (drain (progress r)) last_chunk w (st_inv _ Hr) ltac:(done)) as (rc & d' & w' & ev & -> & Hi & Hrc & Hf). rewrite bind_Some_l.
  unfold flows in Hf. destruct Hrc as [-> | ->]; cbn [Z.ltb Z.compare Z.eqb] in *; do 4 eexists; (split; [done|]);
    split; unfold pending, failed, ended_ok in *; cbn [set_progress fail_stream progress set_res_drain set_stream_ended set_stream_error drain stream_error stream_ended orb].
  all: try done. all: try (by destruct Hr).
  all: try (destruct (error (drain (progress r))); [destruct Hf as [_ ->]; apply prefix_self|by destruct Hf]).
  - rewrite He. intros E. cbn in E. rewrite E in Hf. destruct Hf as [-> ->]. done.
  - rewrite He. cbn. intros E. destruct (error (drain (progress r))); [destruct Hf; congruence|]. destruct Hf as [_ Hf]. by destruct (Hf eq_refl) as [_ ->].
  - rewrite He. cbn. intros E. rewrite E in Hf. destruct Hf as [_ ->]. done.
  - intros e _ _ E. congruence.
Qed.

Lemma step_moves fuel o r w : streaming r -> stream_ok o ->
  exists rc r' w' out, stream_step fuel o r w = Some (rc, r', w', out) /\ moves r r' o (offer r o) out.
Proof.
  intros Hr Ho. destruct o as [iov| |]; cbn [stream_step].
  - by apply write_moves.
  - destruct (flush_moves fuel r w Hr) as (rc & r' & w' & out & H & Hm & _). eauto 6.
  - by apply end_moves.
Qed.

Definition offer_all (r : KlHttpResponse) (ops : list stream_op) : list Z :=
  if head_request (head r) then [] else stream_wire (stream_ended (progress r)) ops.

Definition ended_after (e : bool) (ops : list stream_op) : bool := fold_left (fun e o => after_op o e) ops e.

Lemma offer_all_cons r r1 o ops : head r1 = head r -> stream_ended (progress r1) = after_op o (stream_ended (progress r)) ->
  offer_all r (o :: ops) = offer r o ++ offer_all r1 ops.
Proof. unfold offer_all, offer. intros -> ->. destruct (head_request (head r)); [done|]. by destruct o. Qed.

Lemma offer_prefix r o ops : offer r o `prefix_of` offer_all r (o :: ops).
Proof. unfold offer_all, offer. destruct (head_request (head r)); [done|]. destruct o; [apply prefix_self|apply prefix_nil|apply prefix_self]. Qed.

Record run_moves (r r' : KlHttpResponse) (ops : list stream_op) (out : list Z) : Prop := {
  rm_st : streaming r';
  rm_head : head r' = head r;
  rm_prefix : out ++ pending r' `prefix_of` pending r ++ offer_all r ops;
  rm_failed : failed r = true -> failed r' = true /\ out ++ pending r' `prefix_of` pending r;
  rm_all : failed r' = false -> out ++ pending r' = pending r ++ offer_all r ops;
  rm_fits : failed r' = false -> Forall (fits r) ops;
  rm_ended : forall e, well_used e ops = true -> ended_ok e r -> ended_ok (ended_after e ops) r';
}.

Lemma stream_run_spec fuel ops r w : streaming r -> Forall stream_ok ops ->
  exists r' w' out, stream_run fuel ops r w = Some (r', w', out) /\ run_moves r r' ops out.
Proof.
  intros Hr Ho. revert r w Hr. induction Ho as [|o ops Ho _ IH]; intros r w Hr; cbn [stream_run].
  { do 3 eexists. split; [done|]. assert (E : offer_all r [] = []) by (unfold offer_all; by destruct (head_request _)).
    split; try done; by rewrite E, app_nil_r. }
  destruct (step_moves fuel o r w Hr Ho) as (rc & r1 & w1 & out1 & -> & [H1 H2 H3 H4 H5 H6 H7]). rewrite bind_Some_l.
  destruct (IH r1 w1 H1) as (r2 & w2 & out2 & -> & [I1 I2 I3 I4 I5 I6 I7]). rewrite bind_Some_l. do 3 eexists. split; [done|].
  assert (Hback : failed r2 = false -> failed r1 = false) by (intros E; destruct (failed r1); [by destruct (I4 eq_refl); congruence|done]).
  split; rewrite <- ?app_assoc.
  - done.
  - congruence.
  - destruct (failed r1) eqn:Ef.
    + destruct (I4 eq_refl) as [_ Hp]. transitivity (out1 ++ pending r1); [by apply prefix_app|]. transitivity (pending r ++ offer r o); [done|].
      apply prefix_app, offer_prefix.
    + destruct (H5 eq_refl) as [E1 E2]. rewrite (offer_all_cons r r1) by done. rewrite (app_assoc (pending r)), <- E1, <- app_assoc. by apply prefix_app.
  - intros Ef. destruct (H4 Ef) as [Ef1 Hp1]. destruct (I4 Ef1) as [Ef2 Hp2]. split; [done|]. transitivity (out1 ++ pending r1); [by apply prefix_app|done].
  - intros E. destruct (H5 (Hback E)) as [E1 E2]. rewrite (I5 E), (offer_all_cons r r1) by done. by rewrite app_assoc, E1, <- app_assoc.
  - intros E. constructor; [by apply H6, Hback|]. eapply Forall_impl; [by apply I6|]. intros o'. unfold fits. by rewrite H2.
  - intros e Hu He. cbn [ended_after fold_left]. destruct o; cbn [well_used after_op] in *; breflect;
      (apply I7; [done|]); apply (H7 e); done.
Qed.

Lemma wire_is_chunked e ops : Forall (fun o => match o with SWrite iov => span_ok (concat iov) | _ => True end) ops ->
  well_used e ops = true -> ended_after e ops = true -> if e then stream_wire e ops = [] /\ payload ops = [] else chunked_body (stream_wire e ops) (payload ops).
Proof.
  intros Hs. revert e. induction Hs as [|o ops Ho _ IH]; intros e Hu He; [by destruct e|].
  destruct o as [iov| |]; cbn [well_used stream_wire payload] in *.
  - destruct e; [done|]. apply chunk_body; [done|]. by apply (IH false).
  - by apply IH.
  - destruct (IH true Hu He) as [-> ->]. rewrite app_nil_r. destruct e; [done|]. apply last_chunk_body.
Qed.

Lemma stream_drive_spec k fuel r w : streaming r ->
  exists rc r' w' out, drive k fuel r w = Some (rc, r', w', out) /\ out `prefix_of` pending r /\
    (rc = 0 -> out = pending r /\ stream_ended (progress r) = true /\ error (drain (progress r)) = false).
Proof.
  revert r w. induction k as [|k IH]; intros r w Hr; cbn [drive].
  { exists 1, r, w, []. split; [done|]. split; [apply prefix_nil|lia]. }
  destruct (flush_moves fuel r w Hr) as (rc & r1 & w1 & out & -> & [H1 H2 H3 H4 H5 H6 H7] & Hse & Hd & H0). rewrite bind_Some_l.
  assert (Hp : out ++ pending r1 `prefix_of` pending r).
  { destruct (failed r) eqn:Ef; [by destruct (H4 eq_refl)|]. replace (pending r) with (pending r ++ offer r SFlush); [done|].
    unfold offer. by destruct (head_request _); rewrite app_nil_r. }
  destruct (Z.eqb_spec rc 1).
  - destruct (IH r1 w1 H1) as (rc2 & r2 & w2 & out2 & -> & Hp2 & H02). rewrite bind_Some_l. do 4 eexists. split; [done|]. split.
    + transitivity (out ++ pending r1); [by apply prefix_app|done].
    + intros E. destruct (H02 E) as (-> & E2 & E3). destruct (Hd E3) as [E4 <-]. by rewrite <- Hse.
  - do 4 eexists. split; [done|]. split; [etransitivity; [apply prefix_self|exact Hp]|].
    intros E. destruct (H0 E) as (E1 & E2 & E3). destruct (Hd E2) as [E4 E5]. rewrite E1, app_nil_r in E5. by rewrite <- Hse.
Qed.

Definition te_header : list Z * list Z := (bytes "Transfer-Encoding", bytes "chunked").

Lemma status_line_span code : span_ok (status_line_for code).
Proof.
  assert (Hp : forall p, (length p <= 100)%nat -> span_ok (line (status_text code p))).
  { intros p Hp. unfold span_ok, line, status_text. rewrite !length_app. cbn [length code_digits CRLF bytes]. simpl. lia. }
  unfold status_line_for, reason_phrase, status_line_bare. destruct (List.find _ reason_phrases) as [[c p]|] eqn:Ef; cbn [fmap option_fmap option_map snd].
  - apply Hp. apply find_some in Ef as [Hin _].
    assert (Hall : forallb (fun x => (length x.2 <=? 100)%nat) reason_phrases = true) by by vm_compute.
    rewrite forallb_forall in Hall. apply Nat.leb_le. exact (Hall _ Hin).
  - destruct (_ && _); [apply Hp; simpl; lia|done].
Qed.

Lemma head_iov_spans hs r : res_ok hs r ->
  Forall span_ok ([status_line_for (status (head r))] ++ opt_seg (0 <? length (hdr_buf (head r)))%nat (hdr_buf (head r)) ++ [CRLF]).
Proof.
  intros Hr. constructor; [apply status_line_span|]. apply Forall_app. split; [|by repeat constructor].
  destruct (ro_head _ _ Hr) as [H1 H2]. unfold opt_seg. destruct (0 <? _)%nat; repeat constructor. unfold span_ok. lia.
Qed.

(** A stream always gets a drain. *)
Lemma drain_default hs r : res_ok hs r -> res_has_wire r = true ->
  let r' := if negb (drain_enabled (progress r)) then (kl_http_response_enable_drain KL_STREAM_DRAIN_MAX r).2 else r in
  res_ok hs r' /\ head r' = head r /\ content r' = content r /\ res_has_wire r' = true /\ drain_enabled (progress r') = true.
Proof.
  intros Hr Hw r'. unfold r'. destruct (drain_enabled (progress r)) eqn:E; cbn [negb]; [done|].
  split; [by apply enable_drain_ok|]. unfold kl_http_response_enable_drain. rewrite Hw. by split.
Qed.

Lemma begin_spec fuel code hs r w r1 w1 out : res_ok hs r -> kl_http_response_begin_stream fuel code r w = Some (0, r1, w1, out) ->
  streaming r1 /\ failed r1 = false /\ stream_ended (progress r1) = false /\ head_request (head r1) = head_request (head r) /\
  exists t, status_line_for code = line t /\ good_line t /\ Forall good_line (header_text <$> hs ++ [te_header]) /\
    out ++ pending r1 = concat (line <$> t :: (header_text <$> hs ++ [te_header])) ++ CRLF.
Proof.
  intros Hr. unfold kl_http_response_begin_stream. set (r' := set_content _ r).
  assert (Hr' : res_ok hs (kl_http_response_status code r')) by (by destruct Hr; split).
  destruct (negb (res_has_wire r')) eqn:Ew; [done|]. apply negb_false_iff in Ew.
  destruct (header_spec (Some te_header.1) (Some te_header.2) _ w hs Hr') as (rc & r2 & w2 & Hh & Hrc & Hr2 & (Hs1 & Hs2 & Hs3) & Hc2 & _ & Ht2 & Hn2 & _).
  cbn [te_header fst snd] in Hh. rewrite Hh, bind_Some_l. destruct Hrc as [-> | ->]; cbn [Z.ltb Z.compare]; [|done].
  change (res_ok (hs ++ [te_header]) r2) in Hr2.
  assert (Hw2 : res_has_wire r2 = true) by (unfold res_has_wire in *; by rewrite Ht2, Hn2).
  destruct (drain_default _ r2 Hr2 Hw2) as (Hr3 & Hh3 & Hc3 & Hw3 & Hd3). set (r3 := if negb _ then _ else _) in *. clearbody r3.
  cbn [Z.ltb Z.compare]. rewrite Hd3. destruct (ro_drain _ _ Hr3) as (Hi & Hb & He). destruct (ro_stream _ _ Hr3) as [Hse Hen].
  destruct (drain_segments_spec r3 _ (drain (progress r3)) w2 Hi (head_iov_spans _ r3 Hr3)) as (ok & d' & w' & ev & -> & Hi' & Hf).
  rewrite bind_Some_l. destruct ok; [|done]. intros [= <- <- <-].
  unfold flows in Hf. rewrite He, Hb in Hf. destruct Hf as [_ Hf]. destruct (Hf eq_refl) as [He' Hout].
  split; [by split; cbn; rewrite ?Hc3, ?Hc2|]. split; [unfold failed; cbn; by rewrite Hse, He'|]. split; [done|].
  split; [cbn; by rewrite Hh3, Hs3|]. destruct (status_line_good code) as (t & Ht & Hgt). exists t. split; [done|]. split; [done|]. split.
  { apply Forall_fmap. eapply Forall_impl; [apply Hr2|]. intros h Hh'. by apply header_text_good. }
  unfold pending. cbn [set_progress progress set_headers_sent set_res_drain drain]. rewrite Hout. cbn [app concat].
  rewrite concat_app, concat_opt_hdr, (ro_buf _ _ Hr3), Hh3, Hs1. cbn [kl_http_response_status set_head head status].
  rewrite Ht. cbn [fmap list_fmap concat]. rewrite app_nil_r. unfold headers_of. by rewrite !app_assoc.
Qed.

Lemma decoder_reads {R : Type} `{BL : BodyReaderLaws R} raw body (rd : option R) : chunked_body raw body -> oreader_ok rd ->
  Z.of_nat (length raw) <= SIZE_MAX -> (forward_to rd body).1 = true ->
  exists d' rd', kl_http1_chunked_decode kl_http1_chunked_init raw rd = Some (1, d', rd') /\
    total_body d' = Z.of_nat (length body) /\ oreader_eq (forward_to rd body).2 rd'.
Proof.
  intros Hc Hr Hl Hf. destruct (decode_spec raw rd Hr Hl) as (k & d' & rd' & Hd & Hk & Hv).
  assert (k = 1) as -> by (apply Hk; exists raw, [], body; by rewrite app_nil_r). exists d', rd'. split; [done|].
  apply (Hv raw [] body); by rewrite ?app_nil_r.
Qed.


End streaming.

Definition sample_stream : list stream_op :=
  [SWrite [bytes "he"; []; bytes "llo"]; SFlush; SWrite []; SWrite [bytes " world"]; SEnd; SEnd; SFlush].

Definition sample_begun : option (Z * KlHttpResponse * nat * list Z) := Eval vm_compute in kl_http_response_begin_stream 0 201 sample_res 3%nat.

Definition sample_started : KlHttpResponse := Eval vm_compute in default sample_res ((fun x => x.1.1.2) <$> sample_begun).
Definition sample_out : list Z := Eval vm_compute in default [] ((fun x => x.2) <$> sample_begun).

Lemma sample_stream_ok : Forall stream_ok sample_stream.
Proof. repeat constructor; by vm_compute. Qed.


(** The sample stream does arrive. *)
Lemma sample_stream_arrives :
  ('(r2, w3, _) ← stream_run 0 sample_stream sample_started 8%nat; (fun x => x.1.1.1) <$> drive 90 0 r2 w3) = Some 0.
Proof. by vm_compute. Qed.

End ResponseStream.
