(* ===== verification/Stream.v ===== *)
(** * Streams (src/src/stream.c, stream_read.c, stream_write.c, stream_close.c, src/include/keel/stream.h)

    The raw transport stream: a write queue over [Drain], strict pause and resume of the read side,
    and the close that waits for both operations to be retired.  Every hook may call the stream
    back; the adapter is a script with one entry per hook call.  A use of the stream after its owner
    freed it in [on_close] is a fault ([None]). *)
From S2P Require Import Prelude Drain.

Module Stream.

(** ** Data *)

Inductive KlStreamWriteStatus := KL_STREAM_ACCEPTED | KL_STREAM_WOULD_BLOCK | KL_STREAM_TOO_LARGE | KL_STREAM_CLOSED | KL_STREAM_ERROR.

Inductive KlStreamCloseState := KL_STREAM_STATE_OPEN | KL_STREAM_STATE_CLOSING | KL_STREAM_STATE_CLOSED.

#[global] Instance KlStreamCloseState_eq_dec : EqDecision KlStreamCloseState.
Proof. solve_decision. Defined.

(** The read side.  [recv]: a receive is in flight, with its cancel-requested flag.  [recv_held]: a held
    completion, its length and status.  [arming]: inside [read_arm], with [completed_inline] and
    [rearm_pending]. *)
Record ReadSide := mkRead {
  read_inited : bool; read_completion_mode : bool; read_cap : Z;
  read_paused : bool; recv : option bool; recv_held : option (Z * bool); read_closed : bool; arming : option (bool * bool);
}.

(** A send in flight.  [inline_done]: it completed inside the submit hook, with this result. *)
Record Flight := mkFlight { inflight_len : Z; inflight_copying : bool; submitting : bool; inline_done : option bool; send_cancel_requested : bool }.

(** The write side; [submit] is the copying flag of the submit hook, when there is one. *)
Record WriteSide := mkWrite {
  wq_inited : bool; wq : Drain.KlDrain; wq_err : bool; wq_closing : bool; submit : option bool; writer : bool;
  flight : option Flight; wr_blocked : bool; in_writable : nat; on_writable : bool;
}.

Record CloseSide := mkClose {
  close_state : KlStreamCloseState; close_abort : bool; in_close_cancel : nat; close_notified : bool; cancel_recv : bool; cancel_send : bool;
}.

(** A stream on which [kl_stream_init] and [kl_stream_close_init] ran. *)
Record KlStream := mkStream { rd : ReadSide; wr : WriteSide; cl : CloseSide }.

Definition on_rd (f : ReadSide -> ReadSide) (s : KlStream) : KlStream := mkStream (f (rd s)) (wr s) (cl s).
Definition on_wr (f : WriteSide -> WriteSide) (s : KlStream) : KlStream := mkStream (rd s) (f (wr s)) (cl s).
Definition on_cl (f : CloseSide -> CloseSide) (s : KlStream) : KlStream := mkStream (rd s) (wr s) (f (cl s)).

Definition set_paused (b : bool) (r : ReadSide) : ReadSide :=
  mkRead (read_inited r) (read_completion_mode r) (read_cap r) b (recv r) (recv_held r) (read_closed r) (arming r).
Definition set_recv (x : option bool) (r : ReadSide) : ReadSide :=
  mkRead (read_inited r) (read_completion_mode r) (read_cap r) (read_paused r) x (recv_held r) (read_closed r) (arming r).
Definition set_held (x : option (Z * bool)) (r : ReadSide) : ReadSide :=
  mkRead (read_inited r) (read_completion_mode r) (read_cap r) (read_paused r) (recv r) x (read_closed r) (arming r).
Definition set_read_closed (r : ReadSide) : ReadSide :=
  mkRead (read_inited r) (read_completion_mode r) (read_cap r) (read_paused r) (recv r) (recv_held r) true (arming r).
Definition set_arming (x : option (bool * bool)) (r : ReadSide) : ReadSide :=
  mkRead (read_inited r) (read_completion_mode r) (read_cap r) (read_paused r) (recv r) (recv_held r) (read_closed r) x.

Definition set_wq (d : Drain.KlDrain) (w : WriteSide) : WriteSide :=
  mkWrite (wq_inited w) d (wq_err w) (wq_closing w) (submit w) (writer w) (flight w) (wr_blocked w) (in_writable w) (on_writable w).
Definition set_err (w : WriteSide) : WriteSide :=
  mkWrite (wq_inited w) (wq w) true (wq_closing w) (submit w) (writer w) (flight w) (wr_blocked w) (in_writable w) (on_writable w).
Definition set_closing (w : WriteSide) : WriteSide :=
  mkWrite (wq_inited w) (wq w) (wq_err w) true (submit w) (writer w) (flight w) (wr_blocked w) (in_writable w) (on_writable w).
Definition set_flight (x : option Flight) (w : WriteSide) : WriteSide :=
  mkWrite (wq_inited w) (wq w) (wq_err w) (wq_closing w) (submit w) (writer w) x (wr_blocked w) (in_writable w) (on_writable w).
Definition set_blocked (b : bool) (w : WriteSide) : WriteSide :=
  mkWrite (wq_inited w) (wq w) (wq_err w) (wq_closing w) (submit w) (writer w) (flight w) b (in_writable w) (on_writable w).
Definition set_in_writable (n : nat) (w : WriteSide) : WriteSide :=
  mkWrite (wq_inited w) (wq w) (wq_err w) (wq_closing w) (submit w) (writer w) (flight w) (wr_blocked w) n (on_writable w).
Definition set_hooks (sb : option bool) (wf : bool) (w : WriteSide) : WriteSide :=
  mkWrite (wq_inited w) (wq w) (wq_err w) (wq_closing w) sb wf (flight w) (wr_blocked w) (in_writable w) (on_writable w).

Definition set_state (x : KlStreamCloseState) (c : CloseSide) : CloseSide :=
  mkClose x (close_abort c) (in_close_cancel c) (close_notified c) (cancel_recv c) (cancel_send c).
Definition set_abort (c : CloseSide) : CloseSide :=
  mkClose (close_state c) true (in_close_cancel c) (close_notified c) (cancel_recv c) (cancel_send c).
Definition set_in_cancel (n : nat) (c : CloseSide) : CloseSide :=
  mkClose (close_state c) (close_abort c) n (close_notified c) (cancel_recv c) (cancel_send c).
Definition set_detached (c : CloseSide) : CloseSide :=
  mkClose KL_STREAM_STATE_CLOSED (close_abort c) (in_close_cancel c) true (cancel_recv c) (cancel_send c).

Definition is_some {A} (x : option A) : bool := match x with Some _ => true | None => false end.
Definition recv_inflight (s : KlStream) : bool := is_some (recv (rd s)).
Definition send_inflight (s : KlStream) : bool := is_some (flight (wr s)).

(** ** The adapter *)

Inductive call :=
| CStart | CRecv (len : Z) (ok : bool) | CPause | CResume | CReadClose
| CWrite (data : list Z) | CFlush | CWriteComplete (ok : bool) | COnWritable (on : bool) | CSetWriter (on : bool) | CSetSubmit (x : option bool)
| CClose | CCancel | CSetCancel (r w : bool).

Inductive hook := Deliver (len : Z) (ok : bool) | Arm | Disarm | Submit (data : list Z) | OnWritable | CancelRecv | CancelSend | OnClose.

(** What happened: hooks called, operations retired, bytes accepted and written, closes begun.  [Blocked]
    is a write refused for now, [Unblocked] the end of the interest in it. *)
Inductive event :=
| Called (h : hook) | RecvDone (len : Z) (ok : bool) | ArmFailed | Disarmed | ReadClosed
| Accepted (data : list Z) | Blocked | Unblocked | Wrote (data : list Z) | WriteFailed | SubmitFailed | SendDone (ok : bool)
| Closing | Aborting.

(** What one hook call does: entry points it calls, its result, and for [on_close] that the owner
    frees the stream. *)
Record behaviour := mkBehaviour { calls : list call; ret : Z; frees : bool }.

Definition inert : behaviour := mkBehaviour [] 0 false.

(** [st] is [None] once it was freed; [wire] are the results of the readiness writer; [in_hook] counts
    the frames of [read_deliver], [read_arm] and the submit hook, [barred] those of the submit hook and of
    a [read_arm] that is going to return an error. *)
Record sys := mkSys { st : option KlStream; script : list behaviour; wire : list Z; log : list event; in_hook : nat; barred : nat }.

Definition set_st (x : option KlStream) (y : sys) : sys := mkSys x (script y) (wire y) (log y) (in_hook y) (barred y).
Definition put (s : KlStream) (y : sys) : sys := set_st (Some s) y.
Definition set_script (b : list behaviour) (y : sys) : sys := mkSys (st y) b (wire y) (log y) (in_hook y) (barred y).
Definition set_wire (w : list Z) (y : sys) : sys := mkSys (st y) (script y) w (log y) (in_hook y) (barred y).
Definition emit (e : event) (y : sys) : sys := mkSys (st y) (script y) (wire y) (log y ++ [e]) (in_hook y) (barred y).
Definition set_frames (n k : nat) (y : sys) : sys := mkSys (st y) (script y) (wire y) (log y) n k.

Definition upd (f : KlStream -> KlStream) (y : sys) : option sys := s ← st y; Some (put (f s) y).

(** The readiness writer: the next of its results, all of the data when there is none. *)
#[global] Instance wire_env : Drain.DrainEnv (list Z) := {|
  Drain.write_fn := fun w data => match w with [] => (Z.of_nat (length data), []) | n :: w => (n, w) end;
  Drain.realloc_ok := fun w _ => (true, w);
  Drain.writable_cb := fun w => (Drain.RfDone, w);
|}.

(** The rules that the theorems ask of the hooks.  [Lax]: none.  [Safe]: dropping interest and
    [on_close] call nothing back, and [on_close] does not free the stream while a delivery, an arming or a
    submission is on the stack.  [Live], moreover, leaves out the three calls after which the code forgets
    to look again: beginning a close inside a submission, or inside an arming that returns an error, and
    resuming a readiness stream inside an arming that has not completed.  The sources ask for none of
    this: the examples at the end of StreamContract.v show what happens otherwise. *)
Inductive rules := Lax | Safe | Live.

(** A resume is not lost: no arming is on the stack, or it completed, or the receive stays posted. *)
Definition may_resume (y : sys) : bool :=
  match st y with
  | Some s => read_completion_mode (rd s) || match arming (rd s) with Some (false, _) => false | _ => true end
  | None => true
  end.

Definition permitted (m : rules) (h : hook) (c : call) (y : sys) : bool :=
  match m with
  | Lax => true
  | _ =>
      match h, m, c with
      | (Disarm | OnClose), _, _ => false
      | _, Live, (CClose | CCancel) => (barred y =? 0)%nat
      | _, Live, CResume => may_resume y
      | _, _, _ => true
      end
  end.

Definition may_free (m : rules) (y : sys) : bool := match m with Lax => true | _ => (in_hook y =? 0)%nat end.

(** ** The machine *)

(** [run] executes the entry points that a hook calls. *)
Section machine.
Context (m : rules) (run : call -> sys -> option sys).

Fixpoint run_calls (h : hook) (cs : list call) (y : sys) : option sys :=
  match cs, st y with
  | c :: cs, Some _ => y ← (if permitted m h c y then run c y else Some y); run_calls h cs y
  | _, _ => Some y
  end.

Definition deepens (h : hook) : bool := match h with Deliver _ _ | Arm | Submit _ => true | _ => false end.
Definition bars (h : hook) (b : behaviour) : bool := match h with Submit _ => true | Arm => ret b <? 0 | _ => false end.

Definition call_hook (h : hook) (y : sys) : option (behaviour * sys) :=
  let y := emit (Called h) y in
  let n := in_hook y in
  let k := barred y in
  match script y with
  | [] => Some (inert, y)
  | b :: rest =>
      y ← run_calls h (calls b) (set_frames (if deepens h then S n else n) (if bars h b then S k else k) (set_script rest y));
      Some (b, set_frames n k y)
  end.

(** *** Closing (stream_close.c) *)

Definition kl_stream_write_pending (s : KlStream) : Z :=
  let w := wr s in
  if negb (wq_inited w) then 0
  else
    let q := Drain.kl_drain_buffered (wq w) in
    match flight w with
    | Some f => if inflight_copying f then (if SIZE_MAX - q <? inflight_len f then SIZE_MAX else q + inflight_len f) else q
    | None => q
    end.

Definition stream_detach (s : KlStream) (y : sys) : option sys :=
  let y := put (on_cl set_detached s) y in
  if negb (close_notified (cl s)) then
    '(b, y) ← call_hook OnClose y;
    Some (if frees b && may_free m y then set_st None y else y)
  else Some y.

Definition stream_fully_retired (s : KlStream) : bool :=
  if recv_inflight s then false
  else if send_inflight s then false
  else negb (negb (close_abort (cl s)) && negb (wq_err (wr s)) && (0 <? kl_stream_write_pending s)).

Definition stream_close_finalize (y : sys) : option sys :=
  s ← st y;
  if negb (bool_decide (close_state (cl s) = KL_STREAM_STATE_CLOSING)) then Some y
  else if negb (in_close_cancel (cl s) =? 0)%nat then Some y
  else if negb (in_writable (wr s) =? 0)%nat then Some y
  else if negb (stream_fully_retired s) then Some y
  else stream_detach s y.

Definition stream_on_retire : sys -> option sys := stream_close_finalize.

(** *** Reading (stream_read.c) *)

(** Each round calls the hook; going on needs a completion inside it. *)
Fixpoint stream_arm_loop (fuel : nat) (y : sys) : option (Z * sys) :=
  s ← st y;
  let r := rd s in
  if read_closed r || read_paused r || is_some (recv r) || is_some (recv_held r) then Some (0, y)
  else
    match fuel with
    | O => None
    | S fuel' =>
        '(b, y) ← call_hook Arm (put (on_rd (fun r => set_arming (Some (false, false)) (set_recv (Some false) r)) s) y);
        s ← st y;
        let '(inline, rearm) := default (false, false) (arming (rd s)) in
        let s := on_rd (set_arming None) s in
        if (inline : bool) then if (rearm : bool) then stream_arm_loop fuel' (put s y) else Some (0, put s y)
        else if ret b <? 0 then
          let y := if recv_inflight s then emit ArmFailed y else emit ReadClosed y in
          Some (-1, put (on_rd (fun r => set_read_closed (set_recv None r)) s) y)
        else Some (0, put s y)
    end.

Definition stream_arm (y : sys) : option (Z * sys) :=
  s ← st y;
  match arming (rd s) with
  | Some (c, _) => Some (0, put (on_rd (set_arming (Some (c, true))) s) y)
  | None => stream_arm_loop (S (length (script y))) y
  end.

Definition stream_deliver_and_continue (len : Z) (ok : bool) (y : sys) : option (Z * sys) :=
  y ← (if ok then Some y else upd (on_rd set_read_closed) y);
  let len := if ok then len else 0 in
  '(_, y) ← call_hook (Deliver len ok) y;
  if negb ok then Some (0, y)
  else
    s ← st y;
    if read_closed (rd s) || read_paused (rd s) then Some (0, y)
    else if recv_inflight s then Some (0, y)
    else stream_arm y.

Definition kl_stream_read_start (y : sys) : option (Z * sys) :=
  s ← st y;
  let r := rd s in
  if negb (read_inited r) then Some (-1, y)
  else if read_paused r || read_closed r || recv_inflight s || is_some (recv_held r) then Some (0, y)
  else stream_arm y.

Definition kl_stream_on_recv (len : Z) (ok : bool) (y : sys) : option (Z * sys) :=
  s ← st y;
  if negb (read_inited (rd s)) then Some (-1, y)
  else if negb (recv_inflight s) then Some (0, y)
  else
    let s := on_rd (set_recv None) s in
    let s := match arming (rd s) with Some (_, p) => on_rd (set_arming (Some (true, p))) s | None => s end in
    let y := put s (emit (RecvDone len ok) y) in
    if read_closed (rd s) then y ← stream_on_retire y; Some (0, y)
    else if ok && (read_cap (rd s) <? len) then
      y ← stream_on_retire (put (on_rd set_read_closed s) y); Some (-1, y)
    else
      let len := if ok then len else 0 in
      if read_paused (rd s) then
        y ← stream_on_retire (put (on_rd (set_held (Some (len, ok))) s) y); Some (0, y)
      else
        '(rc, y) ← stream_deliver_and_continue len ok y;
        s ← st y;
        y ← (if negb (recv_inflight s) then stream_on_retire y else Some y);
        Some (rc, y).

Definition kl_stream_pause (y : sys) : option sys :=
  s ← st y;
  let r := rd s in
  if negb (read_inited r) || read_paused r then Some y
  else
    let s := on_rd (set_paused true) s in
    if negb (read_completion_mode r) && recv_inflight s then
      '(_, y) ← call_hook Disarm (put s y);
      upd (on_rd (set_recv None)) (emit Disarmed y)
    else Some (put s y).

Definition kl_stream_resume (y : sys) : option (Z * sys) :=
  s ← st y;
  let r := rd s in
  if negb (read_inited r) || negb (read_paused r) then Some (0, y)
  else
    let s := on_rd (set_paused false) s in
    if read_closed r then Some (0, put s y)
    else
      match recv_held r with
      | Some (len, ok) => stream_deliver_and_continue len ok (put (on_rd (set_held None) s) y)
      | None => if recv_inflight s then Some (0, put s y) else stream_arm (put s y)
      end.

Definition kl_stream_read_close (y : sys) : option sys :=
  s ← st y;
  let r := rd s in
  if negb (read_inited r) || read_closed r then Some y
  else
    let s := on_rd (fun r => set_held None (set_read_closed r)) s in
    let y := emit ReadClosed (put s y) in
    if negb (read_completion_mode r) then
      if recv_inflight s then
        '(_, y) ← call_hook Disarm y;
        upd (on_rd (set_recv None)) (emit Disarmed y)
      else Some y
    else Some y.

(** *** Writing (stream_write.c) *)

Definition map_drain (x : Drain.KlDrainWriteStatus) : KlStreamWriteStatus :=
  match x with
  | Drain.KL_DRAIN_ACCEPTED => KL_STREAM_ACCEPTED
  | Drain.KL_DRAIN_WOULD_BLOCK => KL_STREAM_WOULD_BLOCK
  | Drain.KL_DRAIN_TOO_LARGE => KL_STREAM_TOO_LARGE
  | Drain.KL_DRAIN_WERROR => KL_STREAM_ERROR
  end.

Definition stream_config_locked (s : KlStream) : bool := send_inflight s || (0 <? Drain.kl_drain_buffered (wq (wr s))).

Definition kl_stream_set_writer (on : bool) (y : sys) : option (Z * sys) :=
  s ← st y;
  if negb (wq_inited (wr s)) then Some (-1, y)
  else if stream_config_locked s then Some (-1, y)
  else Some (0, put (on_wr (set_hooks (submit (wr s)) on) s) y).

Definition kl_stream_set_submit (x : option bool) (y : sys) : option (Z * sys) :=
  s ← st y;
  if negb (wq_inited (wr s)) then Some (-1, y)
  else if stream_config_locked s then Some (-1, y)
  else Some (0, put (on_wr (set_hooks x (writer (wr s))) s) y).

Definition set_writable_hook (on : bool) (w : WriteSide) : WriteSide :=
  mkWrite (wq_inited w) (wq w) (wq_err w) (wq_closing w) (submit w) (writer w) (flight w) (if on then wr_blocked w else false) (in_writable w) on.

Definition kl_stream_on_writable (on : bool) (y : sys) : option (Z * sys) :=
  s ← st y;
  if negb (wq_inited (wr s)) then Some (-1, y)
  else
    let y := if on then y else emit Unblocked y in
    Some (0, put (on_wr (set_writable_hook on) s) y).

(** Whether the edge fires, and the stream with the edge disarmed. *)
Definition stream_writable_edge (s : KlStream) : bool * KlStream :=
  let w := wr s in
  if negb (wr_blocked w) || negb (on_writable w) || wq_closing w then (false, s)
  else if negb (wq_err w) && (Drain.max_size (wq w) <=? kl_stream_write_pending s) then (false, s)
  else (true, on_wr (set_blocked false) s).

Definition stream_fire_writable (y : sys) : option sys :=
  y ← upd (fun s => on_wr (set_in_writable (S (in_writable (wr s)))) s) y;
  '(_, y) ← call_hook OnWritable y;
  upd (fun s => on_wr (set_in_writable (Nat.pred (in_writable (wr s)))) s) y.

(** [kl_drain_consume]; the queue has no callbacks. *)
Definition consume (n : Z) (s : KlStream) : option KlStream :=
  '(d, _, _) ← Drain.kl_drain_consume (E := wire_env) (wq (wr s)) n [];
  Some (on_wr (set_wq d) s).

Definition stream_send_retired (s : KlStream) : option KlStream :=
  f ← flight (wr s);
  s ← (if negb (inflight_copying f) then consume (inflight_len f) s else Some s);
  Some (on_wr (set_flight None) s).

(** Each round submits; going on needs a completion inside the hook. *)
Fixpoint stream_pump_loop (fuel : nat) (y : sys) : option (Z * sys) :=
  s ← st y;
  let w := wr s in
  if wq_err w then Some (-1, y)
  else if close_abort (cl s) then Some (0, y)
  else if send_inflight s then Some (0, y)
  else
    let data := Drain.buf (wq w) in
    let len := Drain.kl_drain_buffered (wq w) in
    if len =? 0 then Some (0, y)
    else
      match fuel, submit w with
      | S fuel', Some copying =>
          '(b, y) ← call_hook (Submit data) (put (on_wr (set_flight (Some (mkFlight len copying true None false))) s) y);
          s ← st y;
          f ← flight (wr s);
          let f' := mkFlight (inflight_len f) (inflight_copying f) false None (send_cancel_requested f) in
          let s := on_wr (set_flight (Some f')) s in
          if negb (ret b =? 0) then Some (-1, put (on_wr (fun w => set_err (set_flight None w)) s) (emit SubmitFailed y))
          else
            s ← (if inflight_copying f then consume len s else Some s);
            match inline_done f with
            | None => Some (0, put s y)
            | Some false => Some (-1, put (on_wr (fun w => set_err (set_flight None w)) s) (emit (SendDone false) y))
            | Some true => s ← stream_send_retired s; stream_pump_loop fuel' (put s (emit (SendDone true) y))
            end
      | _, _ => None
      end.

Definition stream_pump_completion (y : sys) : option (Z * sys) := stream_pump_loop (S (length (script y))) y.

Definition kl_stream_write (data : list Z) (y : sys) : option (KlStreamWriteStatus * sys) :=
  s ← st y;
  let w := wr s in
  if negb (wq_inited w) then Some (KL_STREAM_ERROR, y)
  else if wq_err w then Some (KL_STREAM_ERROR, y)
  else if wq_closing w then Some (KL_STREAM_CLOSED, y)
  else if negb (is_some (submit w)) && negb (writer w) then Some (KL_STREAM_ERROR, y)
  else if (length data =? 0)%nat then Some (KL_STREAM_ACCEPTED, y)
  else if is_some (submit w) then
    let '(ds, d) := Drain.kl_drain_reserve_buffer (wq w) data in
    let s := on_wr (set_wq d) s in
    match ds with
    | Drain.KL_DRAIN_ACCEPTED =>
        '(rc, y) ← stream_pump_completion (put (on_wr (set_blocked false) s) (emit (Accepted data) y));
        Some (if rc <? 0 then KL_STREAM_ERROR else KL_STREAM_ACCEPTED, y)
    | Drain.KL_DRAIN_WOULD_BLOCK => Some (map_drain ds, put (on_wr (set_blocked true) s) (emit Blocked y))
    | _ => Some (map_drain ds, put s y)
    end
  else
    let '(ds, d, wire', ev) := Drain.kl_drain_reserve_write (wq w) data (wire y) in
    let y := set_wire wire' y in
    let s := on_wr (set_wq d) s in
    Some (map_drain ds,
      match ds with
      | Drain.KL_DRAIN_WERROR => put (on_wr set_err s) (emit WriteFailed y)
      | Drain.KL_DRAIN_WOULD_BLOCK => put (on_wr (set_blocked true) s) (emit Blocked y)
      | Drain.KL_DRAIN_ACCEPTED => put (on_wr (set_blocked false) s) (emit (Wrote (Drain.out_of ev)) (emit (Accepted data) y))
      | Drain.KL_DRAIN_TOO_LARGE => put s y
      end).

Definition kl_stream_flush (y : sys) : option (Z * sys) :=
  s ← st y;
  let w := wr s in
  if negb (wq_inited w) || wq_err w then Some (-1, y)
  else if is_some (submit w) || negb (writer w) then Some (-1, y)
  else
    '(r, d, wire', ev) ← Drain.kl_drain_flush (wq w) (wire y);
    let y := emit (Wrote (Drain.out_of ev)) (set_wire wire' y) in
    let s := on_wr (set_wq d) s in
    let y := if r <? 0 then emit WriteFailed y else y in
    let s := if r <? 0 then on_wr set_err s else s in
    let '(fired, s) := stream_writable_edge s in
    y ← (if (fired : bool) then stream_fire_writable (put s y) else Some (put s y));
    s ← st y;
    let r := if fired && (r =? 0) && (0 <? Drain.kl_drain_buffered (wq (wr s))) then 1 else r in
    y ← (if negb (r =? 1) || fired then stream_on_retire y else Some y);
    Some (r, y).

(** The tail of a completion: the writable edge, then the retirement. *)
Definition stream_progress (y : sys) : option sys :=
  s ← st y;
  let '(fired, s) := stream_writable_edge s in
  y ← (if (fired : bool) then stream_fire_writable (put s y) else Some (put s y));
  stream_on_retire y.

Definition kl_stream_on_write_complete (ok : bool) (y : sys) : option (Z * sys) :=
  s ← st y;
  let w := wr s in
  if negb (wq_inited w) then Some (-1, y)
  else
    match flight w with
    | None => Some (if wq_err w then -1 else 0, y)
    | Some f =>
        if submitting f then
          Some (0, put (on_wr (set_flight (Some (mkFlight (inflight_len f) (inflight_copying f) true (Some ok) (send_cancel_requested f)))) s) y)
        else if negb ok then
          y ← stream_progress (put (on_wr (fun w => set_err (set_flight None w)) s) (emit (SendDone false) y));
          Some (-1, y)
        else
          s ← stream_send_retired s;
          '(r, y) ← stream_pump_completion (put s (emit (SendDone true) y));
          y ← stream_progress y;
          Some (r, y)
    end.

(** *** The close entry points (stream_close.c) *)

Definition kl_stream_set_cancel (r w : bool) (y : sys) : option (Z * sys) :=
  s ← st y;
  if negb (bool_decide (close_state (cl s) = KL_STREAM_STATE_OPEN)) then Some (-1, y)
  else Some (0, put (on_cl (fun c => mkClose (close_state c) (close_abort c) (in_close_cancel c) (close_notified c) r w) s) y).

Definition begin_closing (y : sys) : option sys :=
  s ← st y;
  if bool_decide (close_state (cl s) = KL_STREAM_STATE_OPEN) then
    let s := on_wr set_closing (on_cl (set_state KL_STREAM_STATE_CLOSING) s) in
    kl_stream_read_close (put s (emit Closing y))
  else Some y.

(** Asks the transport to cancel what is outstanding, each operation once. *)
Definition cancel_outstanding (y : sys) : option sys :=
  y ← upd (fun s => on_cl (set_in_cancel (S (in_close_cancel (cl s)))) s) y;
  s ← st y;
  y ← (if cancel_recv (cl s) && bool_decide (recv (rd s) = Some false) then
         '(_, y) ← call_hook CancelRecv (put (on_rd (set_recv (Some true)) s) y); Some y
       else Some y);
  s ← st y;
  y ← match flight (wr s) with
      | Some f =>
          if cancel_send (cl s) && negb (send_cancel_requested f) then
            let f' := mkFlight (inflight_len f) (inflight_copying f) (submitting f) (inline_done f) true in
            '(_, y) ← call_hook CancelSend (put (on_wr (set_flight (Some f')) s) y); Some y
          else Some y
      | None => Some y
      end;
  upd (fun s => on_cl (set_in_cancel (Nat.pred (in_close_cancel (cl s)))) s) y.

Definition stream_close_common (abort : bool) (y : sys) : option (Z * sys) :=
  s ← st y;
  if bool_decide (close_state (cl s) = KL_STREAM_STATE_CLOSED) then Some (0, y)
  else
    y ← (if abort then upd (on_cl set_abort) (emit Aborting y) else Some y);
    y ← begin_closing y;
    s ← st y;
    y ← (if close_abort (cl s) then cancel_outstanding y else Some y);
    y ← stream_close_finalize y;
    Some (0, y).

Definition kl_stream_close_begin : sys -> option (Z * sys) := stream_close_common false.
Definition kl_stream_cancel : sys -> option (Z * sys) := stream_close_common true.

Definition dispatch (c : call) (y : sys) : option sys :=
  match c with
  | CStart => '(_, y) ← kl_stream_read_start y; Some y
  | CRecv len ok => '(_, y) ← kl_stream_on_recv len ok y; Some y
  | CPause => kl_stream_pause y
  | CResume => '(_, y) ← kl_stream_resume y; Some y
  | CReadClose => kl_stream_read_close y
  | CWrite data => '(_, y) ← kl_stream_write data y; Some y
  | CFlush => '(_, y) ← kl_stream_flush y; Some y
  | CWriteComplete ok => '(_, y) ← kl_stream_on_write_complete ok y; Some y
  | COnWritable on => '(_, y) ← kl_stream_on_writable on y; Some y
  | CSetWriter on => '(_, y) ← kl_stream_set_writer on y; Some y
  | CSetSubmit x => '(_, y) ← kl_stream_set_submit x y; Some y
  | CClose => '(_, y) ← kl_stream_close_begin y; Some y
  | CCancel => '(_, y) ← kl_stream_cancel y; Some y
  | CSetCancel r w => '(_, y) ← kl_stream_set_cancel r w y; Some y
  end.

End machine.

(** Nesting is bounded by the hook calls that call back. *)
Fixpoint run_call (m : rules) (fuel : nat) (c : call) (y : sys) : option sys :=
  match fuel with
  | O => None
  | S fuel => dispatch m (run_call m fuel) c y
  end.

(** The calls of the event loop, until the stream is freed. *)
Fixpoint drive (m : rules) (cs : list call) (y : sys) : option sys :=
  match cs, st y with
  | c :: cs, Some _ => y ← run_call m (S (length (script y))) c y; drive m cs y
  | _, _ => Some y
  end.

(** ** Creation *)

Definition kl_stream_init (read_capacity : Z) : option KlStream :=
  if read_capacity =? 0 then None
  else Some (mkStream (mkRead false false read_capacity false None None false None)
               (mkWrite false Drain.kl_drain_init false false None false None false 0 false)
               (mkClose KL_STREAM_STATE_OPEN false 0 false false false)).

Definition kl_stream_read_init (completion_mode disarm : bool) (s : KlStream) : option KlStream :=
  if read_inited (rd s) then None
  else if read_cap (rd s) =? 0 then None
  else if negb completion_mode && negb disarm then None
  else Some (on_rd (fun r => mkRead true completion_mode (read_cap r) false None None false None) s).

Definition kl_stream_write_init (capacity : Z) (s : KlStream) : option KlStream :=
  if wq_inited (wr s) then None
  else
    let '(rc, d, _) := Drain.kl_drain_prealloc (E := wire_env) Drain.kl_drain_init capacity [] in
    if rc <? 0 then None
    else Some (on_wr (fun w => mkWrite true d false (wq_closing w) None false None false 0 false) s).

Definition kl_stream_close_init (s : KlStream) : KlStream :=
  on_wr (fun w => mkWrite (wq_inited w) (wq w) (wq_err w) false (submit w) (writer w) (flight w) (wr_blocked w) (in_writable w) (on_writable w))
    (on_cl (fun _ => mkClose KL_STREAM_STATE_OPEN false 0 false false false) s).

(** A stream with its three sides installed. *)
Definition stream_open (rcap wcap : Z) (completion_mode : bool) : option KlStream :=
  s ← kl_stream_init rcap;
  s ← kl_stream_read_init completion_mode true s;
  s ← kl_stream_write_init wcap s;
  Some (kl_stream_close_init s).

Definition fresh (s : KlStream) (bs : list behaviour) (w : list Z) : sys := mkSys (Some s) bs w [] 0 0.

Definition kl_stream_read_held (s : KlStream) : bool := is_some (recv_held (rd s)).
Definition kl_stream_is_detached (s : KlStream) : bool := close_notified (cl s).

(** Refused while a send is outstanding. *)
Definition kl_stream_write_free (s : KlStream) : Z * KlStream :=
  if send_inflight s then (-1, s)
  else (0, on_wr (fun w => mkWrite false (Drain.kl_drain_free (wq w)) false (wq_closing w) (submit w) (writer w) (flight w) false (in_writable w) false) s).

(** ** The contract *)

(** What a stream promises its transport and its owner, as an automaton over the events.  [out]: a receive
    is outstanding, and whether its cancellation was asked for.  [got]: a completion not delivered yet.
    [queue]: bytes accepted and not known to have left.  [sending]: the bytes of the send outstanding. *)
Record contract := mkContract {
  out : option bool; got : option (Z * bool); ended : bool;
  queue : list Z; sending : option (list Z * bool); failed : bool; blocked : bool;
  closing : bool; aborting : bool; closed : bool;
}.

Definition contract_init : contract := mkContract None None false [] None false false false false false.

Definition with_out (x : option bool) (p : contract) : contract :=
  mkContract x (got p) (ended p) (queue p) (sending p) (failed p) (blocked p) (closing p) (aborting p) (closed p).
Definition with_got (x : option (Z * bool)) (p : contract) : contract :=
  mkContract (out p) x (ended p) (queue p) (sending p) (failed p) (blocked p) (closing p) (aborting p) (closed p).
Definition with_end (p : contract) : contract :=
  mkContract (out p) None true (queue p) (sending p) (failed p) (blocked p) (closing p) (aborting p) (closed p).
Definition with_queue (x : list Z) (p : contract) : contract :=
  mkContract (out p) (got p) (ended p) x (sending p) (failed p) (blocked p) (closing p) (aborting p) (closed p).
Definition with_sending (x : option (list Z * bool)) (p : contract) : contract :=
  mkContract (out p) (got p) (ended p) (queue p) x (failed p) (blocked p) (closing p) (aborting p) (closed p).
Definition with_failed (p : contract) : contract :=
  mkContract (out p) (got p) (ended p) (queue p) (sending p) true (blocked p) (closing p) (aborting p) (closed p).
Definition with_blocked (x : bool) (p : contract) : contract :=
  mkContract (out p) (got p) (ended p) (queue p) (sending p) (failed p) x (closing p) (aborting p) (closed p).
Definition with_closing (p : contract) : contract :=
  mkContract (out p) None true (queue p) (sending p) (failed p) (blocked p) true (aborting p) (closed p).
Definition with_aborting (p : contract) : contract :=
  mkContract (out p) (got p) (ended p) (queue p) (sending p) (failed p) (blocked p) (closing p) true (closed p).
Definition with_closed (p : contract) : contract :=
  mkContract (out p) (got p) (ended p) (queue p) (sending p) (failed p) (blocked p) (closing p) (aborting p) true.

Definition guard (b : bool) {A} (x : A) : option A := if b then Some x else None.

(** - A receive is asked for only when none is outstanding or undelivered and the read side has not ended;
      each completion is delivered once, never one longer than the buffer, none after the end.
    - One send at a time, of everything queued; bytes leave in the order they were accepted.
    - The producer is called back only when it was refused, before a close, and with room or after a failure.
    - A cancellation is asked for once per outstanding operation, under an abortive close.
    - [on_close] comes once, in a close, with nothing outstanding, and with the queue drained unless the
      close is abortive or the write side failed; no hook is called after it. *)
Definition hook_step (cap : Z) (h : hook) (p : contract) : option contract :=
  if closed p then None
  else
    match h with
    | Arm => guard (negb (is_some (out p)) && negb (is_some (got p)) && negb (ended p)) (with_out (Some false) p)
    | Disarm => guard (is_some (out p)) p
    | Deliver len ok =>
        guard (bool_decide (got p = Some (len, ok)) && negb (ended p)) (if ok then with_got None p else with_end p)
    | Submit data =>
        guard (negb (is_some (sending p)) && negb (aborting p) && negb (failed p) && negb (bool_decide (data = [])) &&
               bool_decide (data = queue p)) (with_sending (Some (data, false)) p)
    | OnWritable => guard (blocked p && negb (closing p) && (failed p || (Z.of_nat (length (queue p)) <? cap))) (with_blocked false p)
    | CancelRecv => guard (aborting p && bool_decide (out p = Some false)) (with_out (Some true) p)
    | CancelSend =>
        match sending p with Some (d, false) => guard (aborting p) (with_sending (Some (d, true)) p) | _ => None end
    | OnClose =>
        guard (closing p && negb (is_some (out p)) && negb (is_some (sending p)) &&
               (aborting p || failed p || bool_decide (queue p = []))) (with_closed p)
    end.

Definition event_step (rcap cap : Z) (e : event) (p : contract) : option contract :=
  match e with
  | Called h => hook_step cap h p
  | RecvDone len ok =>
      guard (is_some (out p))
        (let p := with_out None p in
         if ended p then p else if ok && (rcap <? len) then with_end p else with_got (Some (if ok then len else 0, ok)) p)
  | ArmFailed => guard (is_some (out p)) (with_end (with_out None p))
  | Disarmed => guard (is_some (out p)) (with_out None p)
  | ReadClosed => Some (with_end p)
  | Accepted data => guard (negb (closing p) && negb (failed p)) (with_blocked false (with_queue (queue p ++ data) p))
  | Blocked => guard (negb (closing p) && negb (failed p) && negb (bool_decide (queue p = []))) (with_blocked true p)
  | Unblocked => Some (with_blocked false p)
  | Wrote data =>
      guard (negb (is_some (sending p)) && negb (failed p) && bool_decide (data `prefix_of` queue p))
        (with_queue (drop (length data) (queue p)) p)
  | WriteFailed => guard (negb (is_some (sending p))) (with_failed p)
  | SubmitFailed => guard (is_some (sending p)) (with_failed (with_sending None p))
  | SendDone ok =>
      '(d, _) ← sending p;
      Some (if (ok : bool) then with_queue (drop (length d) (queue p)) (with_sending None p) else with_failed (with_sending None p))
  | Closing => guard (negb (closing p)) (with_closing p)
  | Aborting => guard (negb (closed p)) (with_aborting p)
  end.

Definition accepts (rcap cap : Z) (ev : list event) : option contract :=
  foldl (fun p e => p ≫= event_step rcap cap e) (Some contract_init) ev.

End Stream.
