(* ===== verification/StreamContract.v ===== *)
(** * The stream keeps its contract (src/src/stream_read.c, stream_write.c, stream_close.c)

    Whatever the transport and the owner call, and whatever their hooks call back, within the rules of
    [Stream.rules]: every run returns, no hook sequence leaves the automaton [Stream.accepts], the
    stream is not used after it was freed, and a stream at rest waits only for an outstanding
    operation. *)
From S2P Require Import Prelude Drain Stream.

Module StreamContract.
Import Stream.

(** ** The write queue *)

(** A preallocated queue of [cap] bytes without callbacks. *)
Record queued (cap : Z) (d : Drain.KlDrain) : Prop := {
  q_inv : Drain.inv d;
  q_mode : Drain.prealloc d = true /\ Drain.buf_alloc d = true;
  q_cap : Drain.buf_cap d = cap /\ Drain.max_size d = cap;
  q_hooks : Drain.on_writable d = false /\ Drain.on_drain d = false;
}.

Lemma queued_set_buf cap d b : queued cap d -> Z.of_nat (length b) <= cap -> queued cap (Drain.set_buf d b).
Proof. intros [H1 H2 H3 H4] Hb. destruct H3 as [H3 H3']. split; auto. apply Drain.set_buf_inv; [done|lia]. Qed.

Lemma queued_set_error cap d : queued cap d -> queued cap (Drain.set_error d).
Proof. intros [H1 H2 H3 H4]. split; auto. by apply Drain.set_error_inv. Qed.

Lemma queued_bound cap d : queued cap d -> Drain.buf_len d <= cap.
Proof. intros [H1 _ [H3 _] _]. pose proof (Drain.inv_len _ H1). lia. Qed.

Lemma reserve_check_queued cap d data : queued cap d -> Drain.error d = false -> data <> [] ->
  match Drain.reserve_check d data with
  | None => Drain.buf_len d + Z.of_nat (length data) <= cap
  | Some (x, d') => d' = d /\ (x = Drain.KL_DRAIN_TOO_LARGE \/ x = Drain.KL_DRAIN_WOULD_BLOCK /\ Drain.buf d <> [])
  end.
Proof.
  intros Hq He Hd. pose proof (queued_bound _ _ Hq) as Hb. destruct Hq as [Hi [Hp Ha] [Hc _] _].
  unfold Drain.reserve_check. rewrite He, Hp, Ha, Hc. pose proof (Drain.inv_block _ Hi) as Hk. rewrite Ha in Hk.
  assert (0 < Z.of_nat (length data)) by (destruct data; [done|simpl; lia]).
  destruct (Z.eqb_spec (Z.of_nat (length data)) 0), (Z.eqb_spec cap 0); try lia. simpl.
  destruct (Z.ltb_spec cap (Drain.buf_len d)), (Z.ltb_spec cap (Z.of_nat (length data))); try lia; [by auto|].
  destruct (Z.ltb_spec (cap - Drain.buf_len d) (Z.of_nat (length data))); [|lia].
  split; [done|]. right. split; [done|]. intros Hn. unfold Drain.buf_len in *. rewrite Hn in *. simpl in *. lia.
Qed.

Lemma reserve_buffer_queued cap d data : queued cap d -> Drain.error d = false -> data <> [] ->
  let '(x, d') := Drain.kl_drain_reserve_buffer d data in
  queued cap d' /\ Drain.error d' = false /\
  match x with
  | Drain.KL_DRAIN_ACCEPTED => Drain.buf d' = Drain.buf d ++ data
  | Drain.KL_DRAIN_WOULD_BLOCK => Drain.buf d' = Drain.buf d /\ Drain.buf d <> []
  | Drain.KL_DRAIN_TOO_LARGE => Drain.buf d' = Drain.buf d
  | Drain.KL_DRAIN_WERROR => False
  end.
Proof.
  intros Hq He Hd. unfold Drain.kl_drain_reserve_buffer. pose proof (reserve_check_queued cap d data Hq He Hd) as Hc.
  destruct (Drain.reserve_check d data) as [[x d']|]; [by destruct Hc as [-> [->|[-> Hb]]]|].
  split_and!; [|done|done]. apply queued_set_buf; [done|]. rewrite length_app. unfold Drain.buf_len in Hc. lia.
Qed.

Lemma reserve_write_queued cap d data w : queued cap d -> Drain.error d = false -> data <> [] ->
  let '(x, d', w', ev) := Drain.kl_drain_reserve_write (E := wire_env) d data w in
  queued cap d' /\
  match x with
  | Drain.KL_DRAIN_ACCEPTED => Drain.error d' = false /\ Drain.out_of ev ++ Drain.buf d' = Drain.buf d ++ data
  | Drain.KL_DRAIN_WOULD_BLOCK => Drain.error d' = false /\ Drain.buf d' = Drain.buf d /\ Drain.buf d <> []
  | Drain.KL_DRAIN_TOO_LARGE => Drain.error d' = false /\ Drain.buf d' = Drain.buf d
  | Drain.KL_DRAIN_WERROR => True
  end.
Proof.
  intros Hq He Hd. unfold Drain.kl_drain_reserve_write. pose proof (reserve_check_queued cap d data Hq He Hd) as Hc.
  destruct (Drain.reserve_check d data) as [[x d']|]; [by destruct Hc as [-> [->|[-> Hb]]]|].
  destruct (Z.eqb_spec (Drain.buf_len d) 0) as [H0|H0].
  - assert (Hb : Drain.buf d = []) by by apply length_zero. destruct (Drain.write_fn w data) as [n w1].
    destruct (Z.ltb_spec n 0); [by auto using queued_set_error|].
    destruct (Z.ltb_spec (Z.of_nat (length data)) n); [by auto using queued_set_error|].
    destruct (Z.eqb_spec n (Z.of_nat (length data))).
    + split; [done|]. split; [done|]. simpl. by rewrite Hb, !app_nil_r.
    + split; [apply queued_set_buf; [done|rewrite length_drop; lia]|]. split; [done|]. simpl. rewrite Hb, app_nil_r. apply take_drop.
  - split; [|done]. apply queued_set_buf; [done|]. rewrite length_app. unfold Drain.buf_len in Hc. lia.
Qed.

Lemma flush_queued cap d w : queued cap d -> Drain.error d = false ->
  exists r d' w' ev, Drain.kl_drain_flush (E := wire_env) d w = Some (r, d', w', ev) /\ queued cap d' /\
    Drain.out_of ev ++ Drain.buf d' = Drain.buf d /\
    (r = -1 \/ Drain.error d' = false /\ r = if (length (Drain.buf d') =? 0)%nat then 0 else 1).
Proof.
  intros Hq He. unfold Drain.kl_drain_flush. rewrite He.
  destruct (Z.eqb_spec (Drain.buf_len d) 0) as [H0|H0].
  { apply length_zero in H0. exists 0, d, w, []. split_and!; auto. right. by rewrite H0. }
  unfold Drain.drain_push.
  destruct (Drain.push_spec (length (Drain.buf d)) d w ltac:(lia)) as (rc & d1 & w1 & ev & -> & _ & Ho & Hrc).
  rewrite bind_Some_l.
  assert (Hq1 : queued cap (Drain.set_buf d (Drain.buf d1))).
  { apply queued_set_buf; [done|]. pose proof (queued_bound _ _ Hq). unfold Drain.buf_len in *. rewrite <- Ho, length_app in *. lia. }
  destruct Hrc as [[-> Hd]|[-> Hd]]; cbn [Z.ltb Z.compare].
  - rewrite Hd. unfold Drain.drain_notify, Drain.drain_crossed_low_water. destruct (q_hooks _ _ Hq1) as [-> ->]. simpl.
    eexists _, _, _, _. split; [done|]. split_and!; [done|by rewrite andb_false_r, app_nil_r|].
    right. split; [done|]. unfold Drain.buf_len. simpl.
    destruct (Z.eqb_spec (Z.of_nat (length (Drain.buf d1))) 0), (Nat.eqb_spec (length (Drain.buf d1)) 0); lia.
  - eexists _, _, _, _. split; [done|]. rewrite Hd. split_and!; [by apply queued_set_error|done|by left].
Qed.

Lemma consume_queued cap d n w : queued cap d -> 0 < n ->
  Drain.kl_drain_consume (E := wire_env) d n w =
    Some (Drain.set_buf d (drop (Z.to_nat n) (Drain.buf d)), w, [Drain.Taken (take (Z.to_nat n) (Drain.buf d))]).
Proof.
  intros Hq Hn. unfold Drain.kl_drain_consume. destruct (Z.eqb_spec n 0); [lia|].
  assert (Hs : (if Drain.buf_len d <=? n then (Drain.set_buf d [], Drain.buf d)
     else (Drain.set_buf d (drop (Z.to_nat n) (Drain.buf d)), take (Z.to_nat n) (Drain.buf d))) =
     (Drain.set_buf d (drop (Z.to_nat n) (Drain.buf d)), take (Z.to_nat n) (Drain.buf d))).
  { destruct (Z.leb_spec (Drain.buf_len d) n) as [Hl|]; [|done]. unfold Drain.buf_len in Hl.
    by rewrite drop_ge, take_ge by lia. }
  rewrite Hs. unfold Drain.drain_notify, Drain.drain_crossed_low_water. simpl. destruct (q_hooks _ _ Hq) as [-> ->].
  simpl. by rewrite andb_comm.
Qed.

(** ** The invariant *)

Section invariant.
Context (m : rules) (rcap cap : Z).

(** Where the bytes of the contract are: queued, or with the transport. *)
Definition carries (w : WriteSide) (q : list Z) (sd : option (list Z * bool)) : Prop :=
  match flight w, sd with
  | None, None => wq_err w = false -> q = Drain.buf (wq w)
  | Some f, Some (d, c) =>
      c = send_cancel_requested f /\ d <> [] /\ inflight_len f = Z.of_nat (length d) /\ d `prefix_of` q /\
      q = (if inflight_copying f && negb (submitting f) then d else []) ++ Drain.buf (wq w)
  | _, _ => False
  end.

(** The contract's view of a stream. *)
Definition view (s : KlStream) (q : list Z) (sd : option (list Z * bool)) : contract :=
  mkContract (recv (rd s)) (recv_held (rd s)) (read_closed (rd s)) q sd (wq_err (wr s)) (wr_blocked (wr s))
    (wq_closing (wr s)) (close_abort (cl s)) (bool_decide (close_state (cl s) = KL_STREAM_STATE_CLOSED)).

Record rsane (cs : KlStreamCloseState) (r : ReadSide) : Prop := {
  rs_init : read_inited r = true /\ read_cap r = rcap;
  rs_held : recv_held r <> None -> read_paused r = true /\ recv r = None /\ read_closed r = false;
  rs_length : forall n, recv_held r = Some (n, false) -> n = 0;
  rs_ready : read_completion_mode r = false -> read_closed r = true -> recv r = None;
  rs_arm : forall b, arming r = Some (false, b) -> recv_held r = None /\
    (m = Live -> b = false /\ (recv r <> None \/ read_completion_mode r = false /\ (read_paused r = true \/ read_closed r = true)));
  rs_ended : cs <> KL_STREAM_STATE_OPEN -> read_closed r = true;
  rs_closed : cs = KL_STREAM_STATE_CLOSED -> recv r = None;
}.

Record wsane (c : CloseSide) (w : WriteSide) : Prop := {
  ws_init : wq_inited w = true /\ queued cap (wq w);
  ws_err : wq_err w = false -> Drain.error (wq w) = false;
  ws_flight : flight w <> None -> submit w <> None /\ wq_err w = false;
  ws_closing : wq_closing w = negb (bool_decide (close_state c = KL_STREAM_STATE_OPEN));
  ws_abort : close_abort c = true -> close_state c <> KL_STREAM_STATE_OPEN;
  ws_closed : close_state c = KL_STREAM_STATE_CLOSED -> flight w = None;
  ws_notified : close_notified c = bool_decide (close_state c = KL_STREAM_STATE_CLOSED);
}.

Definition sane (s : KlStream) : Prop := rsane (close_state (cl s)) (rd s) /\ wsane (cl s) (wr s).

Definition almost (s : KlStream) (l : list event) : Prop :=
  exists q sd, accepts rcap cap l = Some (view s q sd) /\ carries (wr s) q sd /\ sane s.

(** Nothing queued for a submitting transport is left behind. *)
Definition fed (s : KlStream) : Prop :=
  submit (wr s) <> None -> Drain.buf (wq (wr s)) <> [] -> flight (wr s) <> None \/ wq_err (wr s) = true \/ close_abort (cl s) = true.

Definition okay (s : KlStream) (l : list event) : Prop := almost s l /\ fed s.

Lemma accepts_app l e : accepts rcap cap (l ++ [e]) = accepts rcap cap l ≫= event_step rcap cap e.
Proof. unfold accepts. by rewrite foldl_app. Qed.

Lemma not_closed cs r : rsane cs r -> read_closed r = false -> cs = KL_STREAM_STATE_OPEN.
Proof. intros Hs Hc. destruct (decide (cs = KL_STREAM_STATE_OPEN)); [done|]. by rewrite (rs_ended _ _ Hs) in Hc. Qed.

Lemma recv_not_held cs r : rsane cs r -> recv r <> None -> recv_held r = None.
Proof. intros Hs Hr. destruct (recv_held r) eqn:E; [|done]. by destruct (rs_held _ _ Hs) as (_ & ? & _); [rewrite E|]. Qed.

Ltac known :=
  repeat match goal with
  | H : ?t = true |- context [?t] => rewrite H
  | H : ?t = false |- context [?t] => rewrite H
  | H : ?t = None |- context [?t] => rewrite H
  | H : ?t = Some _ |- context [?t] => rewrite H
  | H : close_state ?x = _ |- context [close_state ?x] => rewrite H
  end.

(** The contract takes the events. *)
Ltac conform :=
  rewrite !accepts_app; match goal with H : accepts _ _ _ = Some _ |- _ => rewrite H end;
  repeat (unfold event_step, hook_step, guard, view; cbn -[bool_decide]; known); cbn -[bool_decide]; try done.

Ltac stays :=
  match goal with |- rsane _ _ => match goal with H : rsane _ _ |- _ => destruct H end
  | |- wsane _ _ => match goal with H : wsane _ _ |- _ => destruct H end end;
  split; try assumption; cbn -[bool_decide] in *; known; try done; try (intros; congruence); try (by intros; intuition congruence);
  try (by let x := fresh "x" in let Hx := fresh "Hx" in intros x Hx;
          match goal with H : forall b, arming _ = Some (false, b) -> _ |- _ => destruct (H x Hx); tauto end).

(** *** Reading *)

Lemma almost_arm s l : almost s l -> read_closed (rd s) = false -> read_paused (rd s) = false -> recv (rd s) = None ->
  recv_held (rd s) = None ->
  almost (on_rd (fun r => set_arming (Some (false, false)) (set_recv (Some false) r)) s) (l ++ [Called Arm]).
Proof.
  intros (q & sd & Ha & Hc & Hr & Hw) H1 H2 H3 H4. pose proof (not_closed _ _ Hr H1) as Ho.
  exists q, sd. split_and!; [conform|done|split; [|done]]. stays.
Qed.

Lemma almost_arm_end s l : almost s l -> almost (on_rd (set_arming None) s) l.
Proof. intros (q & sd & Ha & Hc & Hr & Hw). exists q, sd. split_and!; [done|done|split; [|done]]. stays. Qed.

Lemma almost_rearm s l c r : almost s l -> arming (rd s) = Some (c, r) -> (m = Live -> c = true) ->
  almost (on_rd (set_arming (Some (c, true))) s) l.
Proof.
  intros (q & sd & Ha & Hc & Hr & Hw) Har Hl. exists q, sd. split_and!; [done|done|split; [|done]]. stays.
  intros b [= -> <-]. destruct (rs_arm0 r Har) as [Hh _]. split; [done|]. intros Hm. by specialize (Hl Hm).
Qed.

Lemma almost_arm_failed s l r : almost s l -> arming (rd s) = Some (false, r) ->
  almost (on_rd (fun r => set_read_closed (set_recv None (set_arming None r))) s) (l ++ [if recv_inflight s then ArmFailed else ReadClosed]).
Proof.
  intros (q & sd & Ha & Hc & Hr & Hw) Har. exists q, sd. pose proof (rs_arm _ _ Hr r Har) as [Hh _].
  unfold recv_inflight. split_and!; [destruct (recv (rd s)) eqn:E; conform|done|split; [|done]]. stays.
Qed.

(** The receive is no longer outstanding. *)
Definition retire (r : ReadSide) : ReadSide := set_arming (prod_map (fun _ => true) id <$> arming r) (set_recv None r).

Lemma retire_eq s : (match arming (rd (on_rd (set_recv None) s)) with
    | Some (_, p) => on_rd (set_arming (Some (true, p))) (on_rd (set_recv None) s)
    | None => on_rd (set_recv None) s end) = on_rd retire s.
Proof.
  destruct s as [[] w c]. cbn. unfold retire, on_rd, set_recv. cbn. by destruct arming0 as [[]|].
Qed.

Lemma retire_sane cs r : rsane cs r -> recv r <> None -> rsane cs (retire r).
Proof.
  intros Hr Hn. pose proof (recv_not_held _ _ Hr Hn). stays. intros b. destruct (arming r) as [[]|]; simpl; congruence.
Qed.

Lemma almost_recv_dropped s l len ok : almost s l -> recv (rd s) <> None -> read_closed (rd s) = true ->
  almost (on_rd retire s) (l ++ [RecvDone len ok]).
Proof.
  intros (q & sd & Ha & Hc & Hr & Hw) Hn Hcl. exists q, sd. destruct (recv (rd s)) eqn:E; [|done].
  split_and!; [conform|done|split; [|done]]. apply retire_sane; [done|congruence].
Qed.

Lemma almost_recv_long s l len : almost s l -> recv (rd s) <> None -> read_closed (rd s) = false -> rcap < len ->
  almost (on_rd (fun r => set_read_closed (retire r)) s) (l ++ [RecvDone len true]).
Proof.
  intros (q & sd & Ha & Hc & Hr & Hw) Hn Hcl Hlen. exists q, sd. pose proof (recv_not_held _ _ Hr Hn). destruct (recv (rd s)) eqn:E; [|done].
  apply Z.ltb_lt in Hlen. split_and!; [conform|done|split; [|done]]. pose proof (retire_sane _ _ Hr ltac:(congruence)) as Hx. clear Hr. stays.
  intros x. destruct (arming (rd s)) as [[]|]; simpl; congruence.
Qed.

Lemma almost_recv_held s l len ok : almost s l -> recv (rd s) <> None -> read_closed (rd s) = false -> read_paused (rd s) = true ->
  ok && (rcap <? len) = false ->
  almost (on_rd (fun r => set_held (Some (if ok then len else 0, ok)) (retire r)) s) (l ++ [RecvDone len ok]).
Proof.
  intros (q & sd & Ha & Hc & Hr & Hw) Hn Hcl Hp Hlen. exists q, sd. pose proof (recv_not_held _ _ Hr Hn). destruct (recv (rd s)) eqn:E; [|done].
  split_and!; [conform|done|split; [|done]]. pose proof (retire_sane _ _ Hr ltac:(congruence)) as Hx. clear Hr.
  stays; [by intros n; destruct ok; intros [= <-]|]. intros x. destruct (arming (rd s)) as [[]|]; simpl; congruence.
Qed.

(** A delivery: the read side after its callback was entered. *)
Definition delivering (ok : bool) (r : ReadSide) : ReadSide := if ok then r else set_read_closed r.

Lemma almost_recv_deliver s l len ok : almost s l -> recv (rd s) <> None -> read_closed (rd s) = false -> 
  ok && (rcap <? len) = false ->
  almost (on_rd (fun r => delivering ok (retire r)) s) ((l ++ [RecvDone len ok]) ++ [Called (Deliver (if ok then len else 0) ok)]).
Proof.
  intros (q & sd & Ha & Hc & Hr & Hw) Hn Hcl Hlen. exists q, sd. pose proof (recv_not_held _ _ Hr Hn).
  pose proof (not_closed _ _ Hr Hcl) as Ho. destruct (recv (rd s)) eqn:E; [|done].
  split_and!; [|done|split; [|done]].
  - destruct ok; cbn in Hlen; conform; rewrite (bool_decide_true (Some _ = Some _)) by done; cbn -[bool_decide]; by known.
  - pose proof (retire_sane _ _ Hr ltac:(congruence)) as Hx. clear Hr. destruct ok; [done|]. stays.
    intros x. destruct (arming (rd s)) as [[]|]; simpl; congruence.
Qed.

Lemma almost_held_deliver s l len ok : almost s l -> recv_held (rd s) = Some (len, ok) ->
  almost (on_rd (fun r => delivering ok (set_held None (set_paused false r))) s) (l ++ [Called (Deliver (if ok then len else 0) ok)]).
Proof.
  intros (q & sd & Ha & Hc & Hr & Hw) Hh. exists q, sd. destruct (rs_held _ _ Hr) as (Hp & Hn & Hcl); [congruence|].
  pose proof (not_closed _ _ Hr Hcl) as Ho. split_and!; [|done|split; [|done]].
  - destruct ok; [|rewrite (rs_length _ _ Hr len Hh) in Hh]; conform; rewrite (bool_decide_true (Some _ = Some _)) by done; cbn -[bool_decide]; by known.
  - destruct ok; stays; intros x Hx; destruct (rs_arm0 x Hx); congruence.
Qed.

Lemma almost_pause s l : almost s l -> almost (on_rd (set_paused true) s) l.
Proof. intros (q & sd & Ha & Hc & Hr & Hw). exists q, sd. split_and!; [done|done|split; [|done]]. stays. Qed.

(** Inside no arming that a resume would be lost in. *)
Definition resumable (s : KlStream) : Prop := m = Live -> read_completion_mode (rd s) = false -> forall b, arming (rd s) <> Some (false, b).

Lemma almost_resume s l : almost s l -> recv_held (rd s) = None -> resumable s -> almost (on_rd (set_paused false) s) l.
Proof.
  intros (q & sd & Ha & Hc & Hr & Hw) Hh Hu. exists q, sd. split_and!; [done|done|split; [|done]]. stays.
  intros b Hb. destruct (rs_arm0 b Hb) as [_ Hl]. split; [done|]. intros Hm. destruct (Hl Hm) as [? [?|[Hmode _]]]; [by auto|].
  by destruct (Hu Hm Hmode b).
Qed.

Lemma almost_disarmed s l : almost s l -> recv (rd s) <> None -> read_completion_mode (rd s) = false -> read_paused (rd s) = true ->
  almost (on_rd (set_recv None) s) ((l ++ [Called Disarm]) ++ [Disarmed]).
Proof.
  intros (q & sd & Ha & Hc & Hr & Hw) Hn Hmode Hp. exists q, sd. pose proof (recv_not_held _ _ Hr Hn).
  assert (Hx : bool_decide (close_state (cl s) = KL_STREAM_STATE_CLOSED) = false).
  { apply bool_decide_false. intros Hx. by apply Hn, (rs_closed _ _ Hr). }
  destruct (recv (rd s)) eqn:E; [|done]. split_and!; [conform|done|split; [|done]]. stays.
Qed.

(** A stream whose read side is about to end: the contract may know already. *)
Definition ending (s : KlStream) (l : list event) : Prop :=
  exists q sd p, accepts rcap cap l = Some p /\ with_end p = with_end (view s q sd) /\ carries (wr s) q sd /\
    rsane KL_STREAM_STATE_OPEN (rd s) /\ wsane (cl s) (wr s) /\ close_state (cl s) <> KL_STREAM_STATE_CLOSED /\ read_closed (rd s) = false.

Lemma almost_ending s l : almost s l -> read_closed (rd s) = false -> ending s l.
Proof.
  intros (q & sd & Ha & Hc & Hr & Hw) Hcl. exists q, sd, (view s q sd). pose proof (not_closed _ _ Hr Hcl) as Ho.
  rewrite Ho in *. by split_and!.
Qed.

Lemma with_end_fields p p' : with_end p = with_end p' -> out p = out p' /\ closed p = closed p'.
Proof. intros [=]. auto. Qed.

Lemma ending_closed s l : ending s l -> read_completion_mode (rd s) = true \/ recv (rd s) = None ->
  almost (on_rd (fun r => set_held None (set_read_closed r)) s) (l ++ [ReadClosed]).
Proof.
  intros (q & sd & p & Ha & Hp & Hc & Hr & Hw & Hx & Hcl) Hm. exists q, sd. split_and!; [|done|split; [|done]].
  - rewrite accepts_app, Ha. cbn. rewrite Hp. done.
  - destruct Hm; stays; intros x Hx'; destruct (rs_arm0 x Hx') as [? Hl]; (split; [congruence|]); intros Hlive; destruct (Hl Hlive) as [? [?|[? _]]]; auto; congruence.
Qed.

Lemma ending_disarmed s l : ending s l -> recv (rd s) <> None -> read_completion_mode (rd s) = false ->
  almost (on_rd (fun r => set_recv None (set_held None (set_read_closed r))) s) (((l ++ [ReadClosed]) ++ [Called Disarm]) ++ [Disarmed]).
Proof.
  intros (q & sd & p & Ha & Hp & Hc & Hr & Hw & Hx & Hcl) Hn Hmode. exists q, sd. apply (bool_decide_eq_false_2 _) in Hx.
  destruct (recv (rd s)) eqn:E; [|done]. split_and!; [|done|split; [|done]].
  - rewrite !accepts_app, Ha. cbn. rewrite Hp. unfold hook_step, guard. cbn -[bool_decide]. known. cbn -[bool_decide]. known. cbn. known. done.
  - stays.
Qed.

(** *** Writing *)

Lemma carries_grow w q sd d data : carries w q sd -> Drain.buf d = Drain.buf (wq w) ++ data -> carries (set_wq d w) (q ++ data) sd.
Proof.
  unfold carries. cbn. intros Hc Hd. destruct (flight w) as [f|], sd as [[x c]|]; try done.
  - destruct Hc as (H1 & H2 & H3 & H4 & ->). split_and!; auto; [by apply prefix_app_r|]. by rewrite Hd, app_assoc.
  - intros He. by rewrite Hd, Hc.
Qed.

Lemma carries_same w q sd d : carries w q sd -> Drain.buf d = Drain.buf (wq w) -> carries (set_wq d w) q sd.
Proof. intros Hc Hd. rewrite <- (app_nil_r q). apply carries_grow; [done|]. by rewrite app_nil_r. Qed.

Lemma almost_accept s l d data : almost s l -> wq_closing (wr s) = false -> wq_err (wr s) = false ->
  queued cap d -> Drain.error d = false -> Drain.buf d = Drain.buf (wq (wr s)) ++ data ->
  almost (on_wr (set_blocked false) (on_wr (set_wq d) s)) (l ++ [Accepted data]).
Proof.
  intros (q & sd & Ha & Hc & Hr & Hw) H1 H2 Hq He Hb. exists (q ++ data), sd. split_and!; [conform|by apply carries_grow|split; [done|]].
  stays.
Qed.

Lemma carries_nonempty w q sd : carries w q sd -> wq_err w = false -> Drain.buf (wq w) <> [] -> q <> [].
Proof.
  unfold carries. intros Hc He Hb. destruct (flight w) as [f|], sd as [[x c]|]; try done.
  - destruct Hc as (_ & _ & _ & _ & ->). by intros [_ ?]%app_eq_nil.
  - by rewrite (Hc He).
Qed.

Lemma almost_blocked s l d : almost s l -> wq_closing (wr s) = false -> wq_err (wr s) = false ->
  queued cap d -> Drain.error d = false -> Drain.buf d = Drain.buf (wq (wr s)) -> Drain.buf (wq (wr s)) <> [] ->
  almost (on_wr (set_blocked true) (on_wr (set_wq d) s)) (l ++ [Blocked]).
Proof.
  intros (q & sd & Ha & Hc & Hr & Hw) H1 H2 Hq He Hb Hn. exists q, sd.
  pose proof (bool_decide_eq_false_2 (q = []) (carries_nonempty _ _ _ Hc H2 Hn)).
  split_and!; [conform|by apply (carries_same (wr s))|split; [done|]]. stays.
Qed.

Lemma almost_refused s l d : almost s l -> queued cap d -> Drain.error d = false -> Drain.buf d = Drain.buf (wq (wr s)) ->
  almost (on_wr (set_wq d) s) l.
Proof.
  intros (q & sd & Ha & Hc & Hr & Hw) Hq He Hb. exists q, sd.
  split_and!; [done|by apply (carries_same (wr s))|split; [done|]]. stays.
Qed.

Lemma almost_submit s l copying : almost s l -> wq_err (wr s) = false -> close_abort (cl s) = false -> flight (wr s) = None ->
  Drain.buf (wq (wr s)) <> [] -> submit (wr s) = Some copying -> close_state (cl s) <> KL_STREAM_STATE_CLOSED ->
  almost (on_wr (set_flight (Some (mkFlight (Drain.kl_drain_buffered (wq (wr s))) copying true None false))) s)
    (l ++ [Called (Submit (Drain.buf (wq (wr s))))]).
Proof.
  intros (q & sd & Ha & Hc & Hr & Hw) H1 H2 H3 H4 H5 Hx. unfold carries in Hc. rewrite H3 in Hc. destruct sd; [done|].
  specialize (Hc H1) as ->. exists (Drain.buf (wq (wr s))), (Some (Drain.buf (wq (wr s)), false)).
  pose proof (bool_decide_eq_false_2 _ H4). pose proof (bool_decide_eq_false_2 _ Hx).
  pose proof (bool_decide_eq_true_2 (Drain.buf (wq (wr s)) = Drain.buf (wq (wr s))) eq_refl).
  split_and!; [conform| |split; [done|stays]]. unfold carries. cbn. rewrite andb_false_r. by split_and!.
Qed.

Lemma almost_send_failed s l f e : almost s l -> flight (wr s) = Some f -> e = SubmitFailed \/ e = SendDone false ->
  almost (on_wr (fun w => set_err (set_flight None w)) s) (l ++ [e]).
Proof.
  intros (q & sd & Ha & Hc & Hr & Hw) Hf He. unfold carries in Hc. rewrite Hf in Hc. destruct sd as [[d c]|]; [|done].
  exists q, None. split_and!; [destruct He as [->| ->]; conform|done|split; [done|stays]].
Qed.

(** The bytes that a copying transport took leave the queue. *)
Lemma carries_copied w q sd f : carries w q sd -> flight w = Some f -> submitting f = true -> inflight_copying f = true ->
  carries (set_flight (Some (mkFlight (inflight_len f) true false None (send_cancel_requested f)))
    (set_wq (Drain.set_buf (wq w) (drop (Z.to_nat (inflight_len f)) (Drain.buf (wq w)))) w)) q sd.
Proof.
  unfold carries. intros Hc Hf Hs Hy. rewrite Hf in Hc. destruct sd as [[d c]|]; [|done]. rewrite Hs, Hy in Hc. cbn in *.
  destruct Hc as (-> & H1 & H2 & H3 & ->). split_and!; auto. rewrite H2, Nat2Z.id. destruct H3 as [k ->]. by rewrite drop_app_length.
Qed.

Lemma stream_consume_spec s n : queued cap (wq (wr s)) -> 0 < n ->
  consume n s = Some (on_wr (set_wq (Drain.set_buf (wq (wr s)) (drop (Z.to_nat n) (Drain.buf (wq (wr s)))))) s).
Proof. intros Hq Hn. unfold consume. by rewrite (consume_queued cap). Qed.

Lemma drop_queued d n : queued cap d -> queued cap (Drain.set_buf d (drop n (Drain.buf d))).
Proof. intros Hq. apply queued_set_buf; [done|]. pose proof (queued_bound _ _ Hq). unfold Drain.buf_len in *. rewrite length_drop. lia. Qed.

Lemma flight_len s l f : almost s l -> flight (wr s) = Some f -> 0 < inflight_len f.
Proof.
  intros (q & sd & Ha & Hc & Hr & Hw) Hf. unfold carries in Hc. rewrite Hf in Hc. destruct sd as [[d c]|]; [|done].
  destruct Hc as (_ & Hd & -> & _). destruct d; [done|]. simpl. lia.
Qed.

(** The submit hook returned: the operation stays, its bytes gone if they were copied. *)
Lemma almost_submitted s l f : almost s l -> flight (wr s) = Some f -> submitting f = true ->
  let f' := mkFlight (inflight_len f) (inflight_copying f) false None (send_cancel_requested f) in
  exists s', (if inflight_copying f then consume (inflight_len f) (on_wr (set_flight (Some f')) s) else Some (on_wr (set_flight (Some f')) s)) = Some s' /\
    rd s' = rd s /\ cl s' = cl s /\ almost s' l /\ flight (wr s') = Some f' /\ in_writable (wr s') = in_writable (wr s) /\ submit (wr s') = submit (wr s).
Proof.
  intros Hs Hf Hsub f'. pose proof (flight_len _ _ _ Hs Hf). destruct Hs as (q & sd & Ha & Hc & Hr & Hw). destruct (inflight_copying f) eqn:Hy.
  - destruct (ws_init _ _ Hw) as [? Hq]. rewrite stream_consume_spec by done. eexists. split; [done|]. split_and!; try done.
    exists q, sd. split_and!; [done| |split; [done|]].
    + apply (carries_copied _ _ _ _ Hc Hf) in Hsub; [|done]. exact Hsub.
    + stays. split; [done|]. by apply drop_queued.
  - eexists. split; [done|]. split_and!; try done. exists q, sd. split_and!; [done| |split; [done|stays]].
    unfold carries in *. rewrite Hf in Hc. destruct sd as [[d c]|]; [|done]. cbn. rewrite Hy in *. exact Hc.
Qed.

(** The send was delivered. *)
Lemma almost_sent s l f : almost s l -> flight (wr s) = Some f -> submitting f = false ->
  exists s', stream_send_retired s = Some s' /\ rd s' = rd s /\ cl s' = cl s /\ almost s' (l ++ [SendDone true]) /\ flight (wr s') = None /\
    in_writable (wr s') = in_writable (wr s) /\ submit (wr s') = submit (wr s).
Proof.
  intros Hs Hf Hsub. pose proof (flight_len _ _ _ Hs Hf). destruct Hs as (q & sd & Ha & Hc & Hr & Hw).
  unfold stream_send_retired. rewrite Hf, bind_Some_l.
  unfold carries in Hc. rewrite Hf in Hc. destruct sd as [[d c]|]; [|done]. destruct Hc as (-> & Hd & Hl & Hp & ->).
  destruct (ws_init _ _ Hw) as [? Hq]. destruct (inflight_copying f) eqn:Hy; cbn [negb].
  - rewrite bind_Some_l. eexists. split; [done|]. split_and!; try done. rewrite Hsub in *. simpl in *.
    exists (Drain.buf (wq (wr s))), None. split_and!; [|done|split; [done|stays]]. conform. by rewrite drop_app_length.
  - rewrite stream_consume_spec by done. rewrite bind_Some_l. eexists. split; [done|]. split_and!; try done.
    exists (drop (Z.to_nat (inflight_len f)) (Drain.buf (wq (wr s)))), None. split_and!; [|done|split; [done|]].
    + conform. by rewrite Hl, Nat2Z.id.
    + stays. split; [done|]. by apply drop_queued.
Qed.

(** Without a submit hook, no send is outstanding. *)
Lemma readiness_idle s : wsane (cl s) (wr s) -> submit (wr s) = None -> flight (wr s) = None.
Proof. intros Hw Hn. destruct (flight (wr s)) eqn:E; [|done]. destruct (ws_flight _ _ Hw) as [H _]; [congruence|done]. Qed.

Lemma almost_written s l d x data : almost s l -> wq_closing (wr s) = false -> wq_err (wr s) = false -> flight (wr s) = None ->
  queued cap d -> Drain.error d = false -> x ++ Drain.buf d = Drain.buf (wq (wr s)) ++ data ->
  almost (on_wr (set_blocked false) (on_wr (set_wq d) s)) ((l ++ [Accepted data]) ++ [Wrote x]).
Proof.
  intros (q & sd & Ha & Hc & Hr & Hw) H1 H2 H3 Hq He Hb. unfold carries in Hc. rewrite H3 in Hc. destruct sd; [done|].
  specialize (Hc H2) as ->. exists (Drain.buf d), None.
  pose proof (bool_decide_eq_true_2 (x `prefix_of` x ++ Drain.buf d) (prefix_app_r _ _ _ (reflexivity _))).
  split_and!; [|unfold carries; cbn; by rewrite H3|split; [done|stays]].
  conform. rewrite <- Hb. known. cbn. rewrite drop_app_length. by known.
Qed.

Lemma almost_write_failed s l d : almost s l -> flight (wr s) = None -> queued cap d ->
  almost (on_wr set_err (on_wr (set_wq d) s)) (l ++ [WriteFailed]).
Proof.
  intros (q & sd & Ha & Hc & Hr & Hw) H1 Hq. unfold carries in Hc. rewrite H1 in Hc. destruct sd; [done|].
  exists q, None. split_and!; [conform|unfold carries; cbn; by rewrite H1|split; [done|stays]].
Qed.

Lemma almost_flushed s l d x : almost s l -> wq_err (wr s) = false -> flight (wr s) = None ->
  queued cap d -> Drain.error d = false -> x ++ Drain.buf d = Drain.buf (wq (wr s)) ->
  almost (on_wr (set_wq d) s) (l ++ [Wrote x]).
Proof.
  intros (q & sd & Ha & Hc & Hr & Hw) H2 H3 Hq He Hb. unfold carries in Hc. rewrite H3 in Hc. destruct sd; [done|].
  specialize (Hc H2) as ->. exists (Drain.buf d), None.
  pose proof (bool_decide_eq_true_2 (x `prefix_of` x ++ Drain.buf d) (prefix_app_r _ _ _ (reflexivity _))).
  split_and!; [|unfold carries; cbn; by rewrite H3|split; [done|stays]].
  conform. rewrite <- Hb. known. cbn. rewrite drop_app_length. by known.
Qed.

Lemma almost_flush_failed s l d x : almost s l -> wq_err (wr s) = false -> flight (wr s) = None ->
  queued cap d -> x ++ Drain.buf d = Drain.buf (wq (wr s)) ->
  almost (on_wr set_err (on_wr (set_wq d) s)) ((l ++ [Wrote x]) ++ [WriteFailed]).
Proof.
  intros (q & sd & Ha & Hc & Hr & Hw) H2 H3 Hq Hb. unfold carries in Hc. rewrite H3 in Hc. destruct sd; [done|].
  specialize (Hc H2) as ->. exists (Drain.buf d), None.
  pose proof (bool_decide_eq_true_2 (x `prefix_of` x ++ Drain.buf d) (prefix_app_r _ _ _ (reflexivity _))).
  split_and!; [|unfold carries; cbn; by rewrite H3|split; [done|stays]].
  conform. rewrite <- Hb. known. cbn. rewrite drop_app_length. by known.
Qed.

Lemma pending_bound s q sd : wsane (cl s) (wr s) -> carries (wr s) q sd -> wq_err (wr s) = false ->
  kl_stream_write_pending s < cap -> Z.of_nat (length q) < cap.
Proof.
  intros Hw Hc He. unfold kl_stream_write_pending. destruct (ws_init _ _ Hw) as [-> Hq]. cbn [negb]. unfold carries in Hc.
  pose proof (Drain.inv_len _ (q_inv _ _ Hq)) as Hi. rewrite (proj1 (q_cap _ _ Hq)) in Hi.
  unfold Drain.kl_drain_buffered, Drain.buf_len in *. destruct (flight (wr s)) as [f|], sd as [[d c]|]; try done.
  - destruct Hc as (_ & _ & -> & _ & ->). rewrite length_app. destruct (inflight_copying f); cbn [andb]; [|done].
    destruct (Z.ltb_spec (SIZE_MAX - Z.of_nat (length (Drain.buf (wq (wr s))))) (Z.of_nat (length d))); [lia|].
    destruct (negb (submitting f)); simpl; lia.
  - by rewrite (Hc He).
Qed.

Lemma almost_writable s l : almost s l -> wr_blocked (wr s) = true -> wq_closing (wr s) = false ->
  wq_err (wr s) = true \/ kl_stream_write_pending s < cap ->
  almost (on_wr (set_blocked false) s) (l ++ [Called OnWritable]).
Proof.
  intros (q & sd & Ha & Hc & Hr & Hw) H1 H2 H3. exists q, sd.
  assert (Ho : close_state (cl s) = KL_STREAM_STATE_OPEN).
  { pose proof (ws_closing _ _ Hw) as Hx. rewrite H2 in Hx. by apply negb_sym, bool_decide_eq_true in Hx. }
  assert (Hf : wq_err (wr s) || (Z.of_nat (length q) <? cap) = true).
  { destruct (wq_err (wr s)) eqn:E; [done|]. destruct H3 as [?|H3]; [done|]. by apply Z.ltb_lt, (pending_bound _ _ _ Hw Hc E). }
  split_and!; [|done|split; [done|stays]]. conform.
Qed.

Lemma almost_in_writable s l n : almost s l -> almost (on_wr (set_in_writable n) s) l.
Proof. intros (q & sd & Ha & Hc & Hr & Hw). exists q, sd. split_and!; [done|done|split; [done|stays]]. Qed.

Lemma almost_unblocked s l on : almost s l -> almost (on_wr (set_writable_hook on) s) (if on then l else l ++ [Unblocked]).
Proof. intros (q & sd & Ha & Hc & Hr & Hw). exists q, sd. destruct on; (split_and!; [|done|split; [done|stays]]); [done|conform]. Qed.

Lemma almost_hooks s l sb wf : almost s l -> stream_config_locked s = false -> okay (on_wr (set_hooks sb wf) s) l.
Proof.
  intros (q & sd & Ha & Hc & Hr & Hw) Hk. apply orb_false_iff in Hk as [Hf Hb]. unfold send_inflight in Hf.
  destruct (flight (wr s)) eqn:E; [done|]. split.
  - exists q, sd. split_and!; [done|done|split; [done|stays]].
  - intros _ Hn. cbn in Hn. destruct (Drain.buf (wq (wr s))) eqn:Eb; [done|].
    unfold Drain.kl_drain_buffered, Drain.buf_len in Hb. by rewrite Eb in Hb.
Qed.

(** *** Closing *)

Lemma almost_cancel_recv s l : almost s l -> close_abort (cl s) = true -> recv (rd s) = Some false ->
  almost (on_rd (set_recv (Some true)) s) (l ++ [Called CancelRecv]).
Proof.
  intros (q & sd & Ha & Hc & Hr & Hw) H1 H2. exists q, sd.
  assert (Hx : bool_decide (close_state (cl s) = KL_STREAM_STATE_CLOSED) = false).
  { apply bool_decide_false. intros Hx. by rewrite (rs_closed _ _ Hr Hx) in H2. }
  split_and!; [conform|done|split; [|done]]. stays. intros x Hx'. destruct (rs_arm0 x Hx') as [? Hl]. split; [done|]. intros Hm. destruct (Hl Hm). auto.
Qed.

Lemma almost_cancel_send s l f : almost s l -> close_abort (cl s) = true -> flight (wr s) = Some f -> send_cancel_requested f = false ->
  almost (on_wr (set_flight (Some (mkFlight (inflight_len f) (inflight_copying f) (submitting f) (inline_done f) true))) s) (l ++ [Called CancelSend]).
Proof.
  intros (q & sd & Ha & Hc & Hr & Hw) H1 H2 H3. unfold carries in Hc. rewrite H2 in Hc. destruct sd as [[d c]|]; [|done].
  destruct Hc as (-> & Hc). exists q, (Some (d, true)).
  assert (Hx : bool_decide (close_state (cl s) = KL_STREAM_STATE_CLOSED) = false).
  { apply bool_decide_false. intros Hx. by rewrite (ws_closed _ _ Hw Hx) in H2. }
  split_and!; [conform|done|split; [done|stays]].
Qed.

Lemma almost_in_cancel s l n : almost s l -> almost (on_cl (set_in_cancel n) s) l.
Proof. intros (q & sd & Ha & Hc & Hr & Hw). exists q, sd. split_and!; [done|done|split; [stays|stays]]. Qed.

Lemma almost_cancel_hooks s l r w : almost s l ->
  almost (on_cl (fun c => mkClose (close_state c) (close_abort c) (in_close_cancel c) (close_notified c) r w) s) l.
Proof. intros (q & sd & Ha & Hc & Hr & Hw). exists q, sd. split_and!; [done|done|split; [stays|stays]]. Qed.

Lemma almost_inline s l f ok : almost s l -> flight (wr s) = Some f -> submitting f = true ->
  almost (on_wr (set_flight (Some (mkFlight (inflight_len f) (inflight_copying f) true (Some ok) (send_cancel_requested f)))) s) l.
Proof.
  intros (q & sd & Ha & Hc & Hr & Hw) H2 H3. unfold carries in Hc. rewrite H2 in Hc. destruct sd as [[d c]|]; [|done].
  rewrite H3 in Hc. exists q, (Some (d, c)). split_and!; [done|done|split; [done|stays]].
Qed.

Lemma retired_fields s : stream_fully_retired s = true ->
  recv (rd s) = None /\ flight (wr s) = None /\ (close_abort (cl s) = true \/ wq_err (wr s) = true \/ kl_stream_write_pending s <= 0).
Proof.
  unfold stream_fully_retired, recv_inflight, send_inflight. destruct (recv (rd s)), (flight (wr s)); try done. cbn.
  destruct (close_abort (cl s)), (wq_err (wr s)); cbn; auto. intros Hp%negb_true_iff%Z.ltb_ge. auto.
Qed.

Lemma almost_detach s l : almost s l -> close_state (cl s) = KL_STREAM_STATE_CLOSING -> stream_fully_retired s = true ->
  almost (on_cl set_detached s) (l ++ [Called OnClose]).
Proof.
  intros (q & sd & Ha & Hc & Hr & Hw) H1 H2. apply retired_fields in H2 as (Hn & Hf & Hd). exists q, sd.
  pose proof Hc as Hc'. unfold carries in Hc'. rewrite Hf in Hc'. destruct sd; [done|].
  assert (Hcl : wq_closing (wr s) = true) by by rewrite (ws_closing _ _ Hw), H1. destruct (ws_init _ _ Hw) as [Hi _].
  assert (Hd' : close_abort (cl s) || wq_err (wr s) || bool_decide (q = []) = true).
  { destruct (close_abort (cl s)), (wq_err (wr s)) eqn:He; try done. cbn. apply bool_decide_true. destruct Hd as [?|[?|Hd]]; [done..|].
    unfold kl_stream_write_pending in Hd. rewrite Hi, Hf in Hd. cbn in Hd. unfold Drain.kl_drain_buffered, Drain.buf_len in Hd.
    rewrite (Hc' eq_refl). apply length_zero_iff_nil. lia. }
  split_and!; [|done|split; stays]. conform.
Qed.

Lemma almost_abort s l : almost s l -> close_state (cl s) = KL_STREAM_STATE_CLOSING -> almost (on_cl set_abort s) (l ++ [Aborting]).
Proof. intros (q & sd & Ha & Hc & Hr & Hw) H1. exists q, sd. split_and!; [conform|done|split; stays]. Qed.

(** A close begins on an open stream. *)
Definition closing_state (abort : bool) (s : KlStream) : KlStream :=
  on_wr set_closing (on_cl (set_state KL_STREAM_STATE_CLOSING) (if abort then on_cl set_abort s else s)).

Definition closing_log (abort : bool) (l : list event) : list event := (if abort then l ++ [Aborting] else l) ++ [Closing].

Lemma closing_accepted abort s l q sd : accepts rcap cap l = Some (view s q sd) -> wsane (cl s) (wr s) -> close_state (cl s) = KL_STREAM_STATE_OPEN ->
  accepts rcap cap (closing_log abort l) = Some (with_end (view (closing_state abort s) q sd)) /\ wsane (cl (closing_state abort s)) (wr (closing_state abort s)).
Proof.
  intros Ha Hw Ho. assert (Hcl : wq_closing (wr s) = false) by by rewrite (ws_closing _ _ Hw), Ho. unfold closing_log, closing_state.
  destruct abort; (split; [conform|stays; by rewrite ws_notified0, Ho]).
Qed.

Lemma almost_closing abort s l : almost s l -> close_state (cl s) = KL_STREAM_STATE_OPEN -> read_closed (rd s) = true ->
  almost (closing_state abort s) (closing_log abort l).
Proof.
  intros (q & sd & Ha & Hc & Hr & Hw) Ho Hcl. destruct (closing_accepted abort _ _ _ _ Ha Hw Ho) as [Hx Hw']. exists q, sd. rewrite Hx.
  assert (Hh : recv_held (rd s) = None).
  { destruct (recv_held (rd s)) eqn:E; [|done]. by destruct (rs_held _ _ Hr) as (_ & _ & ?); [rewrite E|rewrite Hcl in *]. }
  split_and!; [by destruct abort; unfold view, with_end; cbn; rewrite Hh, Hcl|by destruct abort|split; [|done]].
  destruct abort; stays.
Qed.

Lemma ending_closing abort s l : almost s l -> close_state (cl s) = KL_STREAM_STATE_OPEN -> read_closed (rd s) = false ->
  ending (closing_state abort s) (closing_log abort l).
Proof.
  intros (q & sd & Ha & Hc & Hr & Hw) Ho Hcl. destruct (closing_accepted abort _ _ _ _ Ha Hw Ho) as [Hx Hw'].
  exists q, sd, (with_end (view (closing_state abort s) q sd)). rewrite Ho in Hr. by destruct abort.
Qed.

Lemma fed_same s s' : fed s -> wr s' = wr s -> (close_abort (cl s) = true -> close_abort (cl s') = true) -> fed s'.
Proof. unfold fed. intros Hf -> Ha H1 H2. destruct (Hf H1 H2) as [?|[?|?]]; auto. Qed.

(** ** Frames *)

(** The read side is not left idle: it ended, is paused, waits for a receive or has one asked for. *)
Definition reading (s : KlStream) : Prop :=
  m = Live -> read_closed (rd s) = true \/ read_paused (rd s) = true \/ recv (rd s) <> None \/ exists c, arming (rd s) = Some (c, true).

(** A close is not left behind: something is outstanding, or a frame on the stack will look again. *)
Definition settling (s : KlStream) : Prop :=
  m = Live -> close_state (cl s) = KL_STREAM_STATE_CLOSING ->
  stream_fully_retired s = false \/ in_close_cancel (cl s) <> 0%nat \/ in_writable (wr s) <> 0%nat.

Definition arm_le (a b : option (bool * bool)) : Prop :=
  match a, b with None, None => True | Some (c, _), Some (c', _) => c = true -> c' = true | _, _ => False end.

(** What a frame finds unchanged when a call it made returns; [n] frames of a delivery, an arming or a
    submission are below. *)
Record base (n : nat) (s s' : KlStream) : Prop := {
  b_cancel : in_close_cancel (cl s') = in_close_cancel (cl s);
  b_writable : in_writable (wr s') = in_writable (wr s);
  b_arm : arm_le (arming (rd s)) (arming (rd s'));
  b_submit : forall f, flight (wr s) = Some f -> submitting f = true ->
    exists f', flight (wr s') = Some f' /\ submitting f' = true /\ inflight_len f' = inflight_len f /\ inflight_copying f' = inflight_copying f;
  b_open : m = Live -> n <> 0%nat -> close_state (cl s) = KL_STREAM_STATE_OPEN -> close_state (cl s') = KL_STREAM_STATE_OPEN;
  b_reading : reading s -> reading s';
  b_abort : close_abort (cl s) = true -> close_abort (cl s') = true;
}.

Lemma arm_le_refl a : arm_le a a.
Proof. destruct a as [[]|]; simpl; auto. Qed.

Lemma arm_le_trans a b c : arm_le a b -> arm_le b c -> arm_le a c.
Proof. destruct a as [[]|], b as [[]|], c as [[]|]; simpl; auto. Qed.

Lemma base_refl n s : base n s s.
Proof. split; auto using arm_le_refl. intros f Hf Hs. by exists f. Qed.

Lemma base_trans n s1 s2 s3 : base n s1 s2 -> base n s2 s3 -> base n s1 s3.
Proof.
  intros [A1 A2 A3 A4 A5 A6 A7] [B1 B2 B3 B4 B5 B6 B7]. split; eauto using arm_le_trans; [congruence..|].
  intros f Hf Hs. destruct (A4 f Hf Hs) as (f' & Hf' & Hs' & <- & <-). by apply B4.
Qed.

Lemma base_weaken n s s' : base 1 s s' -> base n s s'.
Proof. intros [A1 A2 A3 A4 A5 A6 A7]. split; auto. Qed.

Definition at_ (y : sys) (s : KlStream) : Prop := st y = Some s /\ okay s (log y).

Definition settles (y y' : sys) : Prop := in_hook y' = in_hook y /\ barred y' = barred y /\ (length (script y') <= length (script y))%nat.

Lemma settles_trans y1 y2 y3 : settles y1 y2 -> settles y2 y3 -> settles y1 y3.
Proof. intros (? & ? & ?) (? & ? & ?). split_and!; [congruence..|lia]. Qed.

(** A frame on the stack keeps the stream from being freed. *)
Definition guarded (y : sys) (s : KlStream) : Prop :=
  in_hook y <> 0%nat \/ in_close_cancel (cl s) <> 0%nat \/ in_writable (wr s) <> 0%nat.

Definition freed (y : sys) : Prop := st y = None /\ exists p, accepts rcap cap (log y) = Some p /\ closed p = true.

(** A call returns, with the invariant and its caller's frame, or freed the stream. *)
Definition ends (q : Prop) (y : sys) (s : KlStream) (o : option sys) : Prop :=
  exists y', o = Some y' /\ settles y y' /\
    ((exists s', at_ y' s' /\ base (barred y) s s' /\ (q -> settling s')) \/ (~ guarded y s /\ freed y')).

Definition callable (c : call) (y : sys) (s : KlStream) : Prop :=
  (c = CResume -> resumable s) /\ (m = Live -> barred y <> 0%nat -> c <> CClose /\ c <> CCancel).

Lemma guarded_base n y y' s s' : base n s s' -> settles y y' -> guarded y s -> guarded y' s'.
Proof. intros Hb [Hy _]. unfold guarded. by rewrite Hy, (b_cancel _ _ _ Hb), (b_writable _ _ _ Hb). Qed.

Section proofs.
Context (Hm : m <> Lax) (N : nat) (run : call -> sys -> option sys).
Context (Hrun : forall c y s, (length (script y) < N)%nat -> at_ y s -> callable c y s -> ends (settling s) y s (run c y)).

Lemma permitted_callable h c y s : st y = Some s -> permitted m h c y = true -> callable c y s.
Proof.
  intros Hs Hp. unfold permitted, may_resume in Hp. rewrite Hs in Hp. split.
  - intros -> Hl Hmode b Hb. rewrite Hl, Hmode, Hb in Hp. by destruct h.
  - intros Hl Hn. rewrite Hl in Hp. destruct h, c; simpl in *; try done; apply Nat.eqb_eq in Hp; done.
Qed.

Lemma stream_run_calls_spec h cs y s : at_ y s -> guarded y s -> (length (script y) < N)%nat ->
  exists y' s', run_calls m run h cs y = Some y' /\ at_ y' s' /\ settles y y' /\ base (barred y) s s' /\ (settling s -> settling s').
Proof.
  revert y s. induction cs as [|c cs IH]; intros y s Hy Hg Hn.
  { exists y, s. split_and!; auto using base_refl; done. }
  cbn [run_calls]. rewrite (proj1 Hy). destruct (permitted m h c y) eqn:Hp.
  - destruct (Hrun c y s Hn Hy (permitted_callable h c y s (proj1 Hy) Hp)) as (y1 & -> & Hs1 & [(s1 & Hy1 & Hb1 & Hq1)|[[] _]]); [|done].
    rewrite bind_Some_l. destruct (IH y1 s1) as (y2 & s2 & -> & Hy2 & Hs2 & Hb2 & Hq2); eauto using guarded_base.
    { destruct Hs1. lia. }
    exists y2, s2. split_and!; eauto using settles_trans. rewrite (proj1 (proj2 Hs1)) in Hb2. by eapply base_trans.
  - rewrite bind_Some_l. by apply IH.
Qed.

Definition frame_of (h : hook) (b : behaviour) (y : sys) : nat := if bars h b then 1%nat else barred y.

Lemma stream_hook_spec h y s : st y = Some s -> okay s (log y ++ [Called h]) ->
  deepens h = true \/ in_close_cancel (cl s) <> 0%nat \/ in_writable (wr s) <> 0%nat -> (length (script y) <= N)%nat ->
  exists b y' s', call_hook m run h y = Some (b, y') /\ at_ y' s' /\ settles y y' /\ base (frame_of h b y) s s' /\ (settling s -> settling s') /\
    ((length (script y') < length (script y))%nat \/ b = inert /\ s' = s).
Proof.
  intros Hs Hy Hg Hn. unfold call_hook. destruct (script y) as [|b rest] eqn:Es; cbn [script emit]; rewrite Es.
  { eexists _, _, s. split; [done|]. split_and!; auto using base_refl; [done|]. unfold settles. cbn. by rewrite Es. }
  set (n := if deepens h then S (in_hook y) else in_hook y). set (k := if bars h b then S (barred y) else barred y).
  destruct (stream_run_calls_spec h (calls b) (set_frames n k (set_script rest (emit (Called h) y))) s) as (y1 & s1 & E1 & Hy1 & Hs1 & Hb1 & Hq1).
  { by split. }
  { unfold guarded, n. cbn. destruct Hg as [->|[?|?]]; auto. }
  { cbn in *. lia. }
  cbn [in_hook barred emit]. fold n k. rewrite E1, bind_Some_l. destruct Hs1 as (Hs1 & Hk1 & Hl1). cbn in Hs1, Hk1, Hl1, Hb1.
  exists b, (set_frames (in_hook y) (barred y) y1), s1. split; [done|]. split_and!; auto; cbn; try lia.
  - split_and!; [done..|]. rewrite Es. cbn. lia.
  - unfold frame_of, k in *. destruct (bars h b); [|done]. destruct Hb1. split; auto.
Qed.

Lemma stream_quiet_hook h y : h = Disarm \/ h = OnClose ->
  exists b rest, call_hook m run h y = Some (b, set_script rest (emit (Called h) y)) /\ (length rest <= length (script y))%nat.
Proof.
  intros Hh. unfold call_hook. cbn [script emit]. destruct (script y) as [|b rest] eqn:Es.
  { exists inert, []. split; [|simpl; lia]. destruct y; cbn in *. by rewrite Es. }
  exists b, rest. split; [|simpl; lia].
  assert (Hd : deepens h = false) by by destruct Hh as [->| ->]. rewrite Hd. clear Hd.
  assert (Hr : forall cs y, run_calls m run h cs y = Some y).
  { intros cs. induction cs as [|c cs IH]; intros z; cbn; destruct (st z); try done.
    assert (permitted m h c z = false) as -> by (unfold permitted; destruct Hh as [->| ->]; by destruct m). apply IH. }
  rewrite Hr. done.
Qed.

(** *** Closing *)

Lemma stay y s q : at_ y s -> (q -> settling s) -> ends q y s (Some y).
Proof. intros Hy Hq. exists y. split; [done|]. split; [done|]. left. exists s. auto using base_refl. Qed.

Lemma stream_finalize_spec y s : at_ y s -> ends True y s (stream_close_finalize m run y).
Proof.
  intros Hy. destruct (Hy) as [Hst [Hal Hfd]]. unfold stream_close_finalize. rewrite Hst, bind_Some_l.
  case_bool_decide as Hc; cbn [negb]; [|apply stay; [done|]; intros _ _ ?; congruence].
  destruct (Nat.eqb_spec (in_close_cancel (cl s)) 0) as [H1|H1]; cbn [negb]; [|by apply stay; unfold settling; auto].
  destruct (Nat.eqb_spec (in_writable (wr s)) 0) as [H2|H2]; cbn [negb]; [|by apply stay; unfold settling; auto].
  destruct (stream_fully_retired s) eqn:H3; cbn [negb]; [|by apply stay; unfold settling; auto].
  pose proof (almost_detach s (log y) Hal Hc H3) as Hd. unfold stream_detach.
  assert (close_notified (cl s) = false) as ->.
  { destruct Hal as (q & sd & _ & _ & _ & Hw). by rewrite (ws_notified _ _ Hw), Hc. }
  cbn [negb]. destruct (stream_quiet_hook OnClose (put (on_cl set_detached s) y)) as (b & rest & -> & Hl); [by right|].
  rewrite bind_Some_l. set (y1 := set_script rest _). assert (Hs1 : settles y y1) by by split.
  destruct (frees b && may_free m y1) eqn:Hf.
  - apply andb_true_iff in Hf as [_ Hf]. exists (set_st None y1). split; [done|]. split; [by destruct Hs1; split|]. right. split.
    + unfold guarded. rewrite H1, H2. intros Hg. unfold may_free in Hf. destruct m; [done|..]; apply Nat.eqb_eq in Hf; cbn in Hf; lia.
    + split; [done|]. destruct Hd as (q & sd & Hd & _). by eexists.
  - exists y1. split; [done|]. split; [done|]. left. exists (on_cl set_detached s). split_and!.
    + split; [done|]. split; [done|]. apply (fed_same s); done.
    + split; try done; [apply arm_le_refl|by eauto|]. intros _ _ Ho. congruence.
    + done.
Qed.

(** A change of the stream that no frame notices, then a call. *)
Lemma ends_from q y s y1 s1 o : settles y y1 -> base (barred y) s s1 -> ends q y1 s1 o -> ends q y s o.
Proof.
  intros Hs Hb (y' & -> & Hs' & H). exists y'. split; [done|]. split; [by eapply settles_trans|].
  destruct H as [(s' & Hy' & Hb' & Hq)|[Hg Hf]]; [left|right].
  - exists s'. split_and!; auto. rewrite (proj1 (proj2 Hs)) in Hb'. by eapply base_trans.
  - split; [|done]. intros Hx. apply Hg. by eapply guarded_base.
Qed.

(** *** Reading *)

(** An arming frame is over. *)
Lemma base_arming n s s1 s' s2 : base n s1 s' -> wr s1 = wr s -> cl s1 = cl s -> arming (rd s) = None ->
  wr s2 = wr s' -> cl s2 = cl s' -> arming (rd s2) = None -> reading s2 -> base n s s2.
Proof.
  intros [B1 B2 B3 B4 B5 B6 B7] E1 E2 E3 E4 E5 E6 Hr. rewrite E2 in B1, B5, B7. rewrite E1 in B2, B4. split; rewrite ?E4, ?E5, ?E3, ?E6; auto. exact I.
Qed.

(** A frame that starts with a change of the read side. *)
Lemma base_via n s s1 s2 : base n s1 s2 -> wr s1 = wr s -> cl s1 = cl s -> arm_le (arming (rd s)) (arming (rd s1)) -> reading s2 -> base n s s2.
Proof.
  intros [B1 B2 B3 B4 B5 B6 B7] E1 E2 E3 Hr. rewrite E2 in B1, B5, B7. rewrite E1 in B2, B4. split; eauto using arm_le_trans.
Qed.

Lemma open_settling s : close_state (cl s) = KL_STREAM_STATE_OPEN -> settling s.
Proof. intros Ho _ Hc. congruence. Qed.

Lemma okay_sane s l : okay s l -> sane s.
Proof. by intros [(q & sd & _ & _ & Hs) _]. Qed.

Definition lands (y : sys) (s : KlStream) (y' : sys) (s' : KlStream) : Prop :=
  at_ y' s' /\ settles y y' /\ base (barred y) s s' /\ reading s' /\ (settling s -> settling s').

Lemma arm_loop_spec fuel y s : at_ y s -> arming (rd s) = None -> (length (script y) <= N)%nat -> (length (script y) < fuel)%nat ->
  exists rc y' s', stream_arm_loop m run fuel y = Some (rc, y') /\ lands y s y' s'.
Proof.
  revert y s. induction fuel as [|fuel IH]; intros y s Hy Ha HN Hf; [lia|].
  destruct (Hy) as [Hst Hok]. destruct (okay_sane _ _ Hok) as [Hr Hw].
  cbn [stream_arm_loop]. rewrite Hst, bind_Some_l. destruct (_ || _ || _ || _) eqn:Hx.
  { exists 0, y, s. split; [done|]. split_and!; auto using base_refl; [by split|]. intros _.
    destruct (read_closed (rd s)), (read_paused (rd s)) eqn:Hp, (recv (rd s)); auto. cbn in Hx.
    destruct (rs_held _ _ Hr) as (? & _); [by destruct (recv_held (rd s))|congruence]. }
  apply orb_false_iff in Hx as [[[H1 H2]%orb_false_iff H3]%orb_false_iff H4].
  assert (Hn : recv (rd s) = None) by by destruct (recv (rd s)). assert (Hh : recv_held (rd s) = None) by by destruct (recv_held (rd s)).
  pose proof (not_closed _ _ Hr H1) as Ho. destruct Hok as [Hal Hfd]. pose proof (almost_arm s (log y) Hal H1 H2 Hn Hh) as Hal1.
  set (s1 := on_rd _ s) in *.
  destruct (stream_hook_spec Arm (put s1 y) s1) as (b & y2 & s2 & -> & Hy2 & Hs2 & Hb2 & Hq2 & Hl2); auto; [by split|].
  rewrite bind_Some_l, (proj1 Hy2), bind_Some_l. pose proof (b_arm _ _ _ Hb2) as Hle. cbn in Hle.
  destruct (arming (rd s2)) as [[c r]|] eqn:Ea; [|done]. cbn [default].
  assert (Hset : settling s2) by by apply Hq2, open_settling.
  assert (Hopen : (ret b <? 0) = true -> m = Live -> close_state (cl s2) = KL_STREAM_STATE_OPEN).
  { intros Hb Hl. unfold frame_of, bars in Hb2. rewrite Hb in Hb2. by apply (b_open _ _ _ Hb2). }
  assert (Hb2' : base (barred y) s1 s2) by (unfold frame_of in Hb2; destruct (bars Arm b); [by apply base_weaken|done]). clear Hb2. rename Hb2' into Hb2.
  pose proof (okay_sane _ _ (proj2 Hy2)) as [Hr2 _]. destruct Hy2 as [Hst2 [Hal2 Hfd2]].
  set (s3 := on_rd (set_arming None) s2). assert (Hy3 : at_ (put s3 y2) s3) by (split; [done|split; [by apply almost_arm_end|done]]).
  assert (Hs3 : settles y (put s3 y2)) by by destruct Hs2.
  assert (Hread : reading s2). { apply (b_reading _ _ _ Hb2). intros _. right. right. by left. }
  destruct c; [destruct r|].
  - destruct (IH (put s3 y2) s3) as (rc & y4 & s4 & -> & Hy4 & Hs4 & Hb4 & Hr4 & Hq4); auto.
    { destruct Hs3 as (_ & _ & ?). lia. }
    { cbn in Hl2 |- *. destruct Hl2 as [|[_ ->]]; [lia|]. by cbn in Ea. }
    exists rc, y4, s4. split; [done|]. split_and!; auto; [by eapply settles_trans|].
    + rewrite (proj1 (proj2 Hs3)) in Hb4. destruct Hb2 as [B1 B2 _ B4 B5 _ B7], Hb4 as [C1 C2 C3 C4 C5 _ C7]. split; cbn in *; rewrite ?Ha; auto; [congruence|congruence|].
      intros f Hff Hsub. destruct (B4 f Hff Hsub) as (f' & Hf' & Hsub' & <- & <-). by apply C4.
  - exists 0, (put s3 y2), s3. split; [done|]. assert (reading s3).
    { intros Hl. destruct (Hread Hl) as [?|[?|[?|[c Hc]]]]; auto. congruence. }
    split_and!; auto. by apply (base_arming _ s s1 s2).
  - destruct (ret b <? 0) eqn:Hrb.
    + eexists (-1), _, (on_rd (fun r => set_read_closed (set_recv None r)) s3). split; [done|]. pose proof (almost_arm_failed _ _ r Hal2 Ea) as Hal4.
      split; [|split; [by destruct (recv_inflight s3)|split; [|split; [by intros _; left|by intros _ Hl; apply open_settling; auto]]]].
      * split; [done|]. split; [|done]. cbn [log put set_st]. change (recv_inflight s3) with (recv_inflight s2). by destruct (recv_inflight s2).
      * by apply (base_arming _ s s1 s2); try done; intros _; left.
    + exists 0, (put s3 y2), s3. split; [done|]. assert (reading s3).
      { intros Hl. destruct (rs_arm _ _ Hr2 r Ea) as [_ Hx]. destruct (Hx Hl) as [_ [?|[_ [?|?]]]]; auto. }
      split_and!; auto. by apply (base_arming _ s s1 s2).
Qed.

(** The callers of [stream_arm] have looked. *)
Definition due (s : KlStream) : Prop := read_closed (rd s) = false /\ read_paused (rd s) = false /\ recv (rd s) = None.

Lemma arm_spec y s : at_ y s -> due s -> (length (script y) <= N)%nat ->
  exists rc y' s', stream_arm m run y = Some (rc, y') /\ lands y s y' s'.
Proof.
  intros Hy Hu HN. unfold stream_arm. rewrite (proj1 Hy), bind_Some_l. destruct (arming (rd s)) as [[c r]|] eqn:Ea.
  - eexists _, _, (on_rd (set_arming (Some (c, true))) s). split; [done|]. destruct Hy as [Hst [Hal Hfd]].
    assert (reading (on_rd (set_arming (Some (c, true))) s)) by (intros _; right; right; right; by exists c).
    split; [|split; [done|split; [|split; [done|done]]]].
    + split; [done|]. split; [|done]. apply (almost_rearm _ _ _ r); auto. intros Hl. destruct c; [done|]. destruct (okay_sane s (log y)) as [Hr _]; [by split|].
      destruct (rs_arm _ _ Hr r Ea) as [_ Hx]. destruct (Hx Hl) as [_ Hy]. unfold due in Hu. intuition congruence.
    + split; auto; [|by eauto]. cbn. rewrite Ea. cbn. auto.
  - apply arm_loop_spec; auto.
Qed.

(** The state is set by the caller for a delivery about to happen. *)
Lemma stream_deliver_spec y s len ok : st y = Some s -> close_state (cl s) = KL_STREAM_STATE_OPEN ->
  okay (on_rd (delivering ok) s) (log y ++ [Called (Deliver (if ok then len else 0) ok)]) -> (length (script y) <= N)%nat ->
  exists rc y' s', stream_deliver_and_continue m run len ok y = Some (rc, y') /\ at_ y' s' /\ settles y y' /\ base (barred y) s s' /\ reading s' /\ settling s'.
Proof.
  intros Hst Ho Hok HN. unfold stream_deliver_and_continue.
  assert (exists y1, (if ok then Some y else upd (on_rd set_read_closed) y) = Some y1 /\ st y1 = Some (on_rd (delivering ok) s) /\
    log y1 = log y /\ settles y y1) as (y1 & -> & Hst1 & Hl1 & Hs1).
  { destruct ok; [exists y; by destruct s|]. unfold upd. rewrite Hst, bind_Some_l. by eexists. }
  rewrite bind_Some_l. set (s1 := on_rd (delivering ok) s) in *. rewrite <- Hl1 in Hok.
  destruct (stream_hook_spec (Deliver (if ok then len else 0) ok) y1 s1) as (b & y2 & s2 & -> & Hy2 & Hs2 & Hb2 & Hq2 & _); auto; [by destruct Hs1 as (_ & _ & ?); lia|].
  rewrite bind_Some_l. assert (Hs : settles y y2) by by eapply settles_trans.
  unfold frame_of in Hb2. cbn [bars] in Hb2. rewrite (proj1 (proj2 Hs1)) in Hb2.
  assert (Hbase : reading s2 -> base (barred y) s s2).
  { intros Hr. apply (base_via _ s s1); auto. destruct ok; apply arm_le_refl. }
  assert (Hset : settling s2) by (apply Hq2, open_settling; by destruct ok).
  destruct ok; cbn [negb].
  - rewrite (proj1 Hy2), bind_Some_l. destruct (read_closed (rd s2) || read_paused (rd s2)) eqn:Hx.
    { assert (reading s2) by (intros _; apply orb_true_iff in Hx as []; auto). exists 0, y2, s2. by auto 6. }
    destruct (recv_inflight s2) eqn:Hi.
    { assert (reading s2) by (intros _; unfold recv_inflight in Hi; right; right; left; by destruct (recv (rd s2))). exists 0, y2, s2. by auto 6. }
    destruct (arm_spec y2 s2) as (rc & y3 & s3 & -> & Hy3 & Hs3 & Hb3 & Hr3 & Hq3); auto.
    { apply orb_false_iff in Hx as [? ?]. unfold recv_inflight in Hi. split_and!; auto. by destruct (recv (rd s2)). }
    { destruct Hs as (_ & _ & ?). lia. }
    exists rc, y3, s3. split; [done|]. split_and!; auto; try apply Hy3; [by eapply settles_trans|].
    rewrite (proj1 (proj2 Hs)) in Hb3. apply (base_via _ s s1); auto; [by eapply base_trans|apply arm_le_refl].
  - assert (reading s2) by (apply (b_reading _ _ _ Hb2); intros _; by left). exists 0, y2, s2. by auto 6.
Qed.

Definition returns {A} (q : Prop) (y : sys) (s : KlStream) (o : option (A * sys)) : Prop := exists r y', o = Some (r, y') /\ ends q y s (Some y').

Lemma lands_ends y s y' s' : lands y s y' s' -> ends (settling s) y s (Some y').
Proof. intros (H1 & H2 & H3 & H4 & H5). exists y'. split; [done|]. split; [done|]. left. by exists s'. Qed.

Lemma returns_stay {A} (r : A) y s : at_ y s -> returns (settling s) y s (Some (r, y)).
Proof. intros Hy. exists r, y. split; [done|]. by apply stay. Qed.

(** The stream is replaced in place. *)
Lemma ends_put (q : Prop) y s s' l : okay s' l -> base (barred y) s s' -> (q -> settling s') -> l = log y -> ends q y s (Some (put s' y)).
Proof. intros H1 H2 H3 ->. exists (put s' y). split; [done|]. split; [done|]. left. by exists s'. Qed.

(** Starting leaves the read side reading. *)
Lemma read_start_lands y s : at_ y s -> (length (script y) <= N)%nat ->
  exists rc y' s', kl_stream_read_start m run y = Some (rc, y') /\ lands y s y' s'.
Proof.
  intros Hy HN. destruct (okay_sane _ _ (proj2 Hy)) as [Hr _]. unfold kl_stream_read_start. rewrite (proj1 Hy), bind_Some_l, (proj1 (rs_init _ _ Hr)).
  cbn [negb]. destruct (_ || _ || _ || _) eqn:Hx.
  2: { apply arm_spec; auto. apply orb_false_iff in Hx as [[[H1 H2]%orb_false_iff H3]%orb_false_iff _]. unfold recv_inflight in H3.
       split_and!; auto. by destruct (recv (rd s)). }
  exists 0, y, s. split; [done|]. split_and!; auto using base_refl; [done|]. intros _. unfold recv_inflight in Hx.
  destruct (read_paused (rd s)) eqn:Hp, (read_closed (rd s)), (recv (rd s)); auto. cbn in Hx.
  destruct (rs_held _ _ Hr) as (? & _); [by destruct (recv_held (rd s))|congruence].
Qed.

Lemma read_start_spec y s : at_ y s -> (length (script y) <= N)%nat -> returns (settling s) y s (kl_stream_read_start m run y).
Proof.
  intros Hy HN. destruct (read_start_lands y s Hy HN) as (rc & y' & s' & -> & Hl). exists rc, y'. split; [done|]. by eapply lands_ends.
Qed.

Lemma base_retire n s f : (forall r, arming (f r) = arming r) -> reading (on_rd (fun r => f (retire r)) s) -> base n s (on_rd (fun r => f (retire r)) s).
Proof.
  intros Hf Hr. split; try done; [|by eauto]. cbn. rewrite Hf. cbn. by destruct (arming (rd s)) as [[]|].
Qed.

(** The tail of an operation: an operation retired. *)
Lemma tail_spec {A} (q : Prop) (r : A) y s y1 s1 : at_ y1 s1 -> settles y y1 -> base (barred y) s s1 ->
  returns q y s (y ← stream_on_retire m run y1; Some (r, y)).
Proof.
  intros Hy1 Hs Hb. destruct (stream_finalize_spec y1 s1 Hy1) as (y2 & E & He). unfold stream_on_retire. rewrite E, bind_Some_l.
  exists r, y2. split; [done|]. eapply ends_from; [done|done|]. exists y2. split; [done|].
  destruct He as [? [(s2 & ? & ? & ?)|?]]; split; eauto 10.
Qed.

Lemma on_recv_spec y s len ok : at_ y s -> (length (script y) <= N)%nat -> returns (settling s) y s (kl_stream_on_recv m run len ok y).
Proof.
  intros Hy HN. destruct (Hy) as [Hst [Hal Hfd]]. destruct (okay_sane _ _ (proj2 Hy)) as [Hr Hw].
  unfold kl_stream_on_recv. rewrite Hst, bind_Some_l. rewrite (proj1 (rs_init _ _ Hr)). cbn [negb].
  destruct (recv_inflight s) eqn:Hi; cbn [negb]; [|by apply returns_stay].
  assert (Hn : recv (rd s) <> None) by (unfold recv_inflight in Hi; by destruct (recv (rd s))). rewrite retire_eq.
  change (read_closed (rd (on_rd retire s))) with (read_closed (rd s)). change (read_paused (rd (on_rd retire s))) with (read_paused (rd s)).
  change (read_cap (rd (on_rd retire s))) with (read_cap (rd s)). rewrite (proj2 (rs_init _ _ Hr)).
  assert (Htail : forall f l s1 y1 (r : Z), s1 = on_rd (fun r => f (retire r)) s -> (forall r, arming (f r) = arming r) -> reading s1 -> almost s1 l ->
    st y1 = Some s1 -> log y1 = l -> settles y y1 -> returns (settling s) y s (y ← stream_on_retire m run y1; Some (r, y))).
  { intros f l s1 y1 r -> Hf Hrd Hal1 Hst1 <- Hs1. eapply tail_spec; [by split; [|split]|done|by apply base_retire]. }
  destruct (read_closed (rd s)) eqn:Hc.
  { eapply (Htail id); [done|done| |by apply almost_recv_dropped|done|done|done]. by intros _; left. }
  destruct (ok && (rcap <? len)) eqn:Hlen.
  { apply andb_true_iff in Hlen as [-> Hlen%Z.ltb_lt].
    eapply (Htail set_read_closed); [done|done| |by apply almost_recv_long|done|done|done]. by intros _; left. }
  destruct (read_paused (rd s)) eqn:Hp.
  { eapply (Htail (set_held (Some (if ok then len else 0, ok)))); [done|done| |by apply almost_recv_held|done|done|done]. by intros _; right; left. }
  pose proof (not_closed _ _ Hr Hc) as Ho.
  destruct (stream_deliver_spec (put (on_rd retire s) (emit (RecvDone len ok) y)) (on_rd retire s) (if ok then len else 0) ok)
    as (rc & y2 & s2 & -> & Hy2 & Hs2 & Hb2 & Hr2 & Hq2); auto.
  { split; [|done]. cbn [log put set_st emit]. pose proof (almost_recv_deliver _ _ len ok Hal Hn Hc Hlen) as Hd. by destruct ok. }
  rewrite bind_Some_l, (proj1 Hy2), bind_Some_l.
  assert (Hb : base (barred y) s s2).
  { apply (base_via _ s (on_rd retire s)); auto. cbn. by destruct (arming (rd s)) as [[]|]. }
  destruct (recv_inflight s2); cbn [negb].
  { rewrite bind_Some_l. exists rc, y2. split; [done|]. exists y2. split; [done|]. split; [done|]. left. by exists s2. }
  by eapply tail_spec.
Qed.

Lemma on_rd_id s : on_rd id s = s.
Proof. by destruct s. Qed.

Lemma pause_spec y s : at_ y s -> ends (settling s) y s (kl_stream_pause m run y).
Proof.
  intros Hy. destruct (Hy) as [Hst [Hal Hfd]]. destruct (okay_sane _ _ (proj2 Hy)) as [Hr Hw].
  unfold kl_stream_pause. rewrite Hst, bind_Some_l. case_if; [by apply stay|]. cbv zeta.
  pose proof (almost_pause _ _ Hal) as Hal1. set (s1 := on_rd (set_paused true) s) in *.
  assert (Hb1 : forall f, (forall r, arming (f r) = arming r) -> reading (on_rd f s1) -> base (barred y) s (on_rd f s1)).
  { intros f Hf Hrd. split; try done; [cbn; rewrite Hf; apply arm_le_refl|by eauto]. }
  assert (Hrd : forall x, reading (on_rd (set_recv x) s1)) by (intros x _; by right; left).
  destruct (negb _ && _) eqn:Hx.
  - apply andb_true_iff in Hx as [Hm1 Hi]. assert (Hn : recv (rd s1) <> None) by (unfold recv_inflight in Hi; by destruct (recv (rd s1))).
    destruct (stream_quiet_hook Disarm (put s1 y)) as (b & rest & -> & Hl); [by left|]. rewrite bind_Some_l. unfold upd. cbn [st set_script emit put set_st].
    rewrite bind_Some_l. eexists. split; [done|]. split; [by split|]. left. exists (on_rd (set_recv None) s1). split_and!.
    + split; [done|]. split; [by apply almost_disarmed; auto; apply negb_true_iff|done].
    + by apply Hb1.
    + intros Hq Hl' Hc. apply Hq in Hc as Hq'; [|done]. exfalso.
      assert (Hcl : read_closed (rd s) = true) by (apply (rs_ended _ _ Hr); cbn in Hc; congruence).
      apply Hn. apply (rs_ready _ _ Hr); [by apply negb_true_iff|done].
  - eapply ends_put; [by split| |done|done]. rewrite <- (on_rd_id s1). apply Hb1; [done|]. by intros _; right; left.
Qed.

Lemma resume_spec y s : at_ y s -> resumable s -> (length (script y) <= N)%nat -> returns (settling s) y s (kl_stream_resume m run y).
Proof.
  intros Hy Hu HN. destruct (Hy) as [Hst [Hal Hfd]]. destruct (okay_sane _ _ (proj2 Hy)) as [Hr Hw].
  unfold kl_stream_resume. rewrite Hst, bind_Some_l. case_if; [by apply returns_stay|]. cbv zeta.
  set (s1 := on_rd (set_paused false) s).
  assert (Hvia : forall f, (forall r, arming (f r) = arming r) -> forall s2, base (barred y) (on_rd f s1) s2 -> reading s2 -> base (barred y) s s2).
  { intros f Hf s2 Hb Hrd. apply (base_via _ s (on_rd f s1)); try done. cbn. rewrite Hf. apply arm_le_refl. }
  destruct (recv_held (rd s)) as [[len ok]|] eqn:Hh.
  - destruct (rs_held _ _ Hr) as (Hp & Hn & Hc); [congruence|]. rewrite Hc. pose proof (not_closed _ _ Hr Hc) as Ho.
    destruct (stream_deliver_spec (put (on_rd (set_held None) s1) y) (on_rd (set_held None) s1) len ok) as (rc & y2 & s2 & -> & Hy2 & Hs2 & Hb2 & Hr2 & Hq2); auto.
    { split; [|by destruct ok]. pose proof (almost_held_deliver _ _ len ok Hal Hh). by destruct ok. }
    exists rc, y2. split; [done|]. exists y2. split; [done|]. split; [done|]. left. exists s2. split_and!; auto; try apply Hy2.
    by apply (Hvia (set_held None)).
  - pose proof (almost_resume _ _ Hal Hh Hu) as Hal1. assert (Hy1 : at_ (put s1 y) s1) by by split; [|split].
    assert (Hstay : reading s1 -> returns (settling s) y s (Some (0, put s1 y))).
    { intros Hrd. exists 0, (put s1 y). split; [done|]. eapply ends_put; [by split| |done|done].
      apply (Hvia id); auto. rewrite on_rd_id. apply base_refl. }
    destruct (read_closed (rd s)) eqn:Hc; [apply Hstay; by intros _; left|].
    destruct (recv_inflight s1) eqn:Hi.
    { apply Hstay. intros _. right. right. left. unfold recv_inflight in Hi. by destruct (recv (rd s1)). }
    destruct (arm_spec (put s1 y) s1) as (rc & y2 & s2 & -> & Hy2 & Hs2 & Hb2 & Hr2 & Hq2); auto.
    { unfold recv_inflight in Hi. split_and!; auto. by destruct (recv (rd s1)). }
    exists rc, y2. split; [done|]. exists y2. split; [done|]. split; [done|]. left. exists s2. split_and!; auto; try apply Hy2.
    apply (Hvia id); auto.
Qed.

(** Ending the read side, from a stream whose contract may already know. *)
Lemma read_close_ending y s : st y = Some s -> ending s (log y) -> fed s ->
  exists y' s', kl_stream_read_close m run y = Some y' /\ at_ y' s' /\ settles y y' /\ wr s' = wr s /\ cl s' = cl s /\ arming (rd s') = arming (rd s) /\
    read_closed (rd s') = true.
Proof.
  intros Hst He Hfd. pose proof He as (q & sd & p & _ & _ & _ & Hr & _ & _ & Hcl). unfold kl_stream_read_close. rewrite Hst, bind_Some_l.
  rewrite (proj1 (rs_init _ _ Hr)), Hcl. cbn [negb orb]. set (s1 := on_rd _ s).
  change (recv_inflight s1) with (recv_inflight s).
  assert (Hplain : read_completion_mode (rd s) = true \/ recv (rd s) = None -> at_ (emit ReadClosed (put s1 y)) s1).
  { intros Hx. split; [done|]. split; [by apply ending_closed|done]. }
  destruct (read_completion_mode (rd s)) eqn:Hmode; cbn [negb]; [|destruct (recv_inflight s) eqn:Hi].
  - exists (emit ReadClosed (put s1 y)), s1. split_and!; auto; done.
  - destruct (stream_quiet_hook Disarm (emit ReadClosed (put s1 y))) as (b & rest & -> & Hl); [by left|]. rewrite bind_Some_l.
    unfold upd. cbn [st set_script emit put set_st]. rewrite bind_Some_l. eexists _, (on_rd (set_recv None) s1). split; [done|]. split_and!; try done.
    split; [done|]. split; [|done]. refine (ending_disarmed s _ He _ Hmode). unfold recv_inflight in Hi. by destruct (recv (rd s)).
  - exists (emit ReadClosed (put s1 y)), s1. split_and!; try done. apply Hplain. right. unfold recv_inflight in Hi. by destruct (recv (rd s)).
Qed.

Lemma read_close_spec y s : at_ y s -> ends (settling s) y s (kl_stream_read_close m run y).
Proof.
  intros Hy. destruct (Hy) as [Hst [Hal Hfd]]. destruct (read_closed (rd s)) eqn:Hc.
  { unfold kl_stream_read_close. rewrite Hst, bind_Some_l, Hc, orb_true_r. by apply stay. }
  destruct (okay_sane _ _ (proj2 Hy)) as [Hr _]. pose proof (not_closed _ _ Hr Hc) as Ho.
  destruct (read_close_ending y s Hst (almost_ending _ _ Hal Hc) Hfd) as (y' & s' & -> & Hy' & Hs' & Ew & Ec & Ea & Hcl).
  exists y'. split; [done|]. split; [done|]. left. exists s'. split_and!; [done| |by intros _; apply open_settling; rewrite Ec].
  split; rewrite ?Ew, ?Ec, ?Ea; auto using arm_le_refl; [by eauto|]. by intros _ _; left.
Qed.

(** *** Writing *)

Lemma reading_rd s s' : rd s' = rd s -> reading s -> reading s'.
Proof. unfold reading. by intros ->. Qed.

(** A frame that starts without a send in flight and only touches the write side around a call. *)
Lemma base_sending n s s1 s2 s' : base n s1 s2 -> rd s1 = rd s -> cl s1 = cl s -> in_writable (wr s1) = in_writable (wr s) ->
  (forall f, flight (wr s) = Some f -> submitting f = false) ->
  rd s' = rd s2 -> cl s' = cl s2 -> in_writable (wr s') = in_writable (wr s2) -> base n s s'.
Proof.
  intros [B1 B2 B3 B4 B5 B6 B7] E1 E2 E3 E4 E5 E6 E7. split; rewrite ?E5, ?E6, ?E7.
  - by rewrite B1, E2.
  - by rewrite B2, E3.
  - by rewrite <- E1.
  - intros f Hf Hs. by rewrite (E4 f Hf) in Hs.
  - rewrite <- E2. done.
  - intros Hr. apply (reading_rd s2); [done|]. apply B6, (reading_rd s); done.
  - rewrite <- E2. done.
Qed.

Lemma fed_flight s : flight (wr s) <> None -> fed s.
Proof. intros Hf _ _. by left. Qed.
Lemma fed_err s : wq_err (wr s) = true -> fed s.
Proof. intros Hf _ _. auto. Qed.

Lemma pump_loop_spec fuel y s : st y = Some s -> almost s (log y) -> submit (wr s) <> None -> close_state (cl s) <> KL_STREAM_STATE_CLOSED ->
  (length (script y) <= N)%nat -> (length (script y) < fuel)%nat ->
  exists rc y' s', stream_pump_loop m run fuel y = Some (rc, y') /\ at_ y' s' /\ settles y y' /\ base 1 s s'.
Proof.
  revert y s. induction fuel as [|fuel IH]; intros y s Hst Hal Hsb Hcs HN Hf; [lia|].
  cbn [stream_pump_loop]. rewrite Hst, bind_Some_l.
  assert (Hstay : forall rc : Z, fed s -> exists (rc' : Z) y' s', Some (rc, y) = Some (rc', y') /\ at_ y' s' /\ settles y y' /\ base 1 s s').
  { intros rc Hfd. exists rc, y, s. split_and!; auto using base_refl; done. }
  destruct (wq_err (wr s)) eqn:He; [apply Hstay; by apply fed_err|].
  destruct (close_abort (cl s)) eqn:Hab; [apply Hstay; intros _ _; auto|].
  destruct (send_inflight s) eqn:Hi; [apply Hstay, fed_flight; unfold send_inflight in Hi; by destruct (flight (wr s))|].
  destruct (Z.eqb_spec (Drain.kl_drain_buffered (wq (wr s))) 0) as [H0|H0].
  { apply Hstay. intros _ Hb. by apply length_zero in H0. }
  assert (Hfl : flight (wr s) = None) by (unfold send_inflight in Hi; by destruct (flight (wr s))).
  assert (Hb : Drain.buf (wq (wr s)) <> []) by (intros Hb; unfold Drain.kl_drain_buffered, Drain.buf_len in H0; by rewrite Hb in H0).
  destruct (submit (wr s)) as [copying|] eqn:Es; [|done].
  pose proof (almost_submit s _ copying Hal He Hab Hfl Hb Es Hcs) as Hal1. set (s1 := on_wr _ s) in *.
  destruct (stream_hook_spec (Submit (Drain.buf (wq (wr s)))) (put s1 y) s1) as (b & y2 & s2 & -> & Hy2 & Hs2 & Hb2 & _ & Hl2); auto.
  { split; [done|]. by apply fed_flight. }
  rewrite bind_Some_l, (proj1 Hy2), bind_Some_l. destruct (b_submit _ _ _ Hb2 _ eq_refl eq_refl) as (f & Hff & Hsub & Hlen & Hcp).
  rewrite Hff, bind_Some_l. destruct Hy2 as [Hst2 [Hal2 _]].
  assert (Hbase : forall s', rd s' = rd s2 -> cl s' = cl s2 -> in_writable (wr s') = in_writable (wr s2) -> base 1 s s').
  { intros s' E1 E2 E3. apply (base_sending 1 s s1 s2); auto. intros f'. by rewrite Hfl. }
  destruct (negb (ret b =? 0)).
  { eexists (-1), _, (on_wr (fun w => set_err (set_flight None w)) s2). split; [done|]. split_and!; [|by destruct Hs2|by apply Hbase].
    split; [done|]. split; [|by apply fed_err]. apply (almost_send_failed s2 _ f); auto. }
  destruct (almost_submitted s2 _ f Hal2 Hff Hsub) as (s3 & E3 & Er3 & Ec3 & Hal3 & Hf3 & Ew3 & Es3). cbn in Hlen. rewrite Hlen in *. cbv zeta.
  rewrite E3, bind_Some_l. destruct (inline_done f) as [[]|] eqn:Hin.
  - destruct (almost_sent s3 _ _ Hal3 Hf3 eq_refl) as (s4 & -> & Er4 & Ec4 & Hal4 & Hf4 & Ew4 & Es4). rewrite bind_Some_l.
    destruct (IH (put s4 (emit (SendDone true) y2)) s4) as (rc & y5 & s5 & -> & Hy5 & Hs5 & Hb5); auto.
    + rewrite Es4, Es3. destruct (okay_sane s2 (log y2)) as [_ Hw2]; [by split; [|apply fed_flight; congruence]|]. by destruct (ws_flight _ _ Hw2); [congruence|].
    + rewrite Ec4, Ec3. destruct (okay_sane s2 (log y2)) as [_ Hw2]; [by split; [|apply fed_flight; congruence]|]. intros Hx.
      by rewrite (ws_closed _ _ Hw2 Hx) in Hff.
    + destruct Hs2 as (_ & _ & ?). cbn in *. lia.
    + destruct Hl2 as [Hl2|[_ ->]]; [cbn in *; lia|]. cbn in Hff. injection Hff as <-. done.
    + exists rc, y5, s5. split_and!; auto; [by eapply settles_trans; [|exact Hs5]; destruct Hs2|].
      eapply base_trans; [|exact Hb5]. apply Hbase; congruence.
  - eexists (-1), _, (on_wr (fun w => set_err (set_flight None w)) s3). split; [done|]. split_and!; [|by destruct Hs2|by apply Hbase].
    split; [done|]. split; [|by apply fed_err]. eapply almost_send_failed; eauto.
  - eexists 0, _, s3. split; [done|]. split_and!; [|by destruct Hs2|by apply Hbase].
    split; [done|]. split; [done|]. apply fed_flight. congruence.
Qed.

Lemma base_wr n s s1 : rd s1 = rd s -> cl s1 = cl s -> in_writable (wr s1) = in_writable (wr s) -> flight (wr s1) = flight (wr s) -> base n s s1.
Proof.
  intros E1 E2 E3 E4. split; rewrite ?E1, ?E2, ?E3, ?E4; auto using arm_le_refl; [by eauto|]. by apply reading_rd.
Qed.

(** The producer's callback, with the close deferred past it. *)
Lemma stream_fire_spec y s : st y = Some s -> almost s (log y ++ [Called OnWritable]) -> fed s -> (length (script y) <= N)%nat ->
  exists y' s', stream_fire_writable m run y = Some y' /\ at_ y' s' /\ settles y y' /\ base (barred y) s s'.
Proof.
  intros Hst Hal Hfd HN. unfold stream_fire_writable, upd. rewrite Hst, !bind_Some_l.
  set (s1 := on_wr (set_in_writable (S (in_writable (wr s)))) s).
  destruct (stream_hook_spec OnWritable (put s1 y) s1) as (b & y2 & s2 & -> & Hy2 & Hs2 & Hb2 & _ & _); auto.
  { split; [by apply almost_in_writable|done]. }
  rewrite bind_Some_l, (proj1 Hy2), bind_Some_l. eexists _, (on_wr (set_in_writable (Nat.pred (in_writable (wr s2)))) s2). split; [done|].
  destruct Hy2 as [Hst2 [Hal2 Hfd2]]. split_and!; [|by destruct Hs2|].
  - split; [done|]. split; [by apply almost_in_writable|done].
  - destruct Hb2 as [B1 B2 B3 B4 B5 B6 B7]. cbn in B2. split; auto. cbn. by rewrite B2.
Qed.

Lemma edge_spec y s : at_ y s -> (length (script y) <= N)%nat ->
  exists fired s1 y' s', stream_writable_edge s = (fired, s1) /\ (if fired then stream_fire_writable m run (put s1 y) else Some (put s1 y)) = Some y' /\
    at_ y' s' /\ settles y y' /\ base (barred y) s s' /\ (fired = false -> s' = s).
Proof.
  intros Hy HN. destruct (Hy) as [Hst [Hal Hfd]]. destruct (okay_sane _ _ (proj2 Hy)) as [_ Hw]. unfold stream_writable_edge.
  assert (Hno : exists fired s1 y' s', (false, s) = (fired, s1) /\ (if fired then stream_fire_writable m run (put s1 y) else Some (put s1 y)) = Some y' /\
    at_ y' s' /\ settles y y' /\ base (barred y) s s' /\ (fired = false -> s' = s)).
  { exists false, s, (put s y), s. split_and!; auto using base_refl; done. }
  destruct (negb _ || _ || _) eqn:Hx; [done|]. apply orb_false_iff in Hx as [[H1%negb_false_iff H2]%orb_false_iff H3].
  destruct (negb _ && _) eqn:H4; [done|].
  set (s1 := on_wr (set_blocked false) s). assert (Hal1 : almost s1 (log y ++ [Called OnWritable])).
  { apply almost_writable; auto. destruct (wq_err (wr s)); [by left|right]. cbn in H4. apply Z.leb_gt in H4.
    destruct (ws_init _ _ Hw) as [_ Hq]. by rewrite (proj2 (q_cap _ _ Hq)) in H4. }
  destruct (stream_fire_spec (put s1 y) s1) as (y' & s' & E & Hy' & Hs' & Hb'); auto. exists true, s1, y', s'. split_and!; auto; [|done].
  eapply base_trans; [|exact Hb']. by apply base_wr.
Qed.

Lemma progress_spec y s : at_ y s -> (length (script y) <= N)%nat -> ends True y s (stream_progress m run y).
Proof.
  intros Hy HN. unfold stream_progress. rewrite (proj1 Hy), bind_Some_l.
  destruct (edge_spec y s Hy HN) as (fired & s1 & y' & s' & -> & -> & Hy' & Hs' & Hb' & _). rewrite bind_Some_l.
  eapply ends_from; [done|done|]. by apply stream_finalize_spec.
Qed.

Lemma progress_returns (q : Prop) (r : Z) y s y1 s1 : at_ y1 s1 -> settles y y1 -> base (barred y) s s1 -> (length (script y1) <= N)%nat ->
  returns q y s (y ← stream_progress m run y1; Some (r, y)).
Proof.
  intros Hy1 Hs Hb HN. destruct (progress_spec y1 s1 Hy1 HN) as (y2 & -> & He). rewrite bind_Some_l.
  exists r, y2. split; [done|]. eapply ends_from; [done|done|]. exists y2. split; [done|].
  destruct He as [? [(s2 & ? & ? & ?)|?]]; split; eauto 10.
Qed.

Lemma write_complete_spec y s ok : at_ y s -> (length (script y) <= N)%nat -> returns (settling s) y s (kl_stream_on_write_complete m run ok y).
Proof.
  intros Hy HN. destruct (Hy) as [Hst [Hal Hfd]]. destruct (okay_sane _ _ (proj2 Hy)) as [Hr Hw].
  unfold kl_stream_on_write_complete. rewrite Hst, bind_Some_l. case_if; [by apply returns_stay|].
  destruct (flight (wr s)) as [f|] eqn:Hf; [|by apply returns_stay]. destruct (submitting f) eqn:Hsub.
  - eexists 0, _. split; [done|]. eapply ends_put; [split; [by apply almost_inline|by apply fed_flight]| | |done].
    + split; try done; [apply arm_le_refl|]. intros f' Hf' Hs'. assert (f' = f) as -> by congruence. by eexists.
    + intros Hq Hl Hc. destruct (Hq Hl Hc) as [Hx|[?|?]]; auto. left. unfold stream_fully_retired, send_inflight. cbn. by case_if.
  - assert (Hb : forall s1, rd s1 = rd s -> cl s1 = cl s -> in_writable (wr s1) = in_writable (wr s) -> forall n, base n s s1).
    { intros s1 E1 E2 E3 n. apply (base_sending n s s s); auto using base_refl. intros f'. congruence. }
    destruct ok; cbn [negb].
    + destruct (almost_sent s _ _ Hal Hf Hsub) as (s1 & -> & Er1 & Ec1 & Hal1 & Hf1 & Ew1 & Es1). rewrite bind_Some_l. unfold stream_pump_completion.
      destruct (pump_loop_spec (S (length (script y))) (put s1 (emit (SendDone true) y)) s1) as (rc & y2 & s2 & E & Hy2 & Hs2 & Hb2); auto.
      * rewrite Es1. by destruct (ws_flight _ _ Hw); [congruence|].
      * rewrite Ec1. intros Hx. by rewrite (ws_closed _ _ Hw Hx) in Hf.
      * cbn [script put set_st emit]. rewrite E, bind_Some_l.
        assert (Hb02 : base (barred y) s s2) by (eapply base_trans; [by apply Hb|by apply base_weaken]).
        eapply progress_returns; [exact Hy2|exact Hs2|done|]. destruct Hs2 as (_ & _ & ?). cbn in *. lia.
    + eapply progress_returns; [split; [done|split; [|by apply fed_err]]|done|by apply Hb|done]. apply (almost_send_failed s _ f); auto.
Qed.

(** A change of the write side, without calls. *)
Lemma returns_wr {A} (q : Prop) (r : A) y s y1 s1 : at_ y1 s1 -> settles y y1 -> rd s1 = rd s -> cl s1 = cl s -> in_writable (wr s1) = in_writable (wr s) ->
  flight (wr s1) = flight (wr s) -> (q -> settling s1) -> returns q y s (Some (r, y1)).
Proof.
  intros Hy Hs E1 E2 E3 E4 Hq. exists r, y1. split; [done|]. exists y1. split; [done|]. split; [done|]. left. exists s1.
  split_and!; auto. by apply base_wr.
Qed.

Lemma stream_write_spec y s data : at_ y s -> (length (script y) <= N)%nat -> returns (settling s) y s (kl_stream_write m run data y).
Proof.
  intros Hy HN. destruct (Hy) as [Hst [Hal Hfd]]. destruct (okay_sane _ _ (proj2 Hy)) as [Hr Hw]. destruct (ws_init _ _ Hw) as [Hi Hq].
  unfold kl_stream_write. rewrite Hst, bind_Some_l, Hi. cbn [negb].
  destruct (wq_err (wr s)) eqn:He; [by apply returns_stay|]. destruct (wq_closing (wr s)) eqn:Hc; [by apply returns_stay|].
  case_if; [by apply returns_stay|]. destruct (Nat.eqb_spec (length data) 0) as [H0|H0]; [by apply returns_stay|].
  assert (Hd : data <> []) by by intros ->. pose proof (ws_err _ _ Hw He) as Hde.
  assert (Ho : close_state (cl s) = KL_STREAM_STATE_OPEN).
  { pose proof (ws_closing _ _ Hw) as Hx. rewrite Hc in Hx. by apply negb_sym, bool_decide_eq_true in Hx. }
  destruct (submit (wr s)) as [copying|] eqn:Hsb; cbn [is_some].
  - pose proof (reserve_buffer_queued _ _ data Hq Hde Hd) as Hres.
    destruct (Drain.kl_drain_reserve_buffer (wq (wr s)) data) as [x d]. destruct Hres as (Hqd & Hed & Hres). destruct x; cbv zeta.
    + pose proof (almost_accept _ _ d data Hal Hc He Hqd Hed Hres) as Hal1. set (s1 := on_wr _ (on_wr _ s)) in *. unfold stream_pump_completion.
      destruct (pump_loop_spec (S (length (script y))) (put s1 (emit (Accepted data) y)) s1) as (rc & y2 & s2 & E & Hy2 & Hs2 & Hb2); auto.
      { cbn. congruence. }
      { cbn. congruence. }
      cbn [script put set_st emit]. rewrite E, bind_Some_l. eexists _, y2. split; [done|]. exists y2. split; [done|]. split; [done|].
      left. exists s2. split_and!; auto; [apply (base_trans _ s s1); [by apply base_wr|by apply base_weaken]|].
      intros _ Hl. apply open_settling; [|done]. by apply (b_open _ _ _ Hb2).
    + destruct Hres as [Hres Hne]. eapply returns_wr; [split; [done|split; [by apply almost_blocked|]]|done..|by intros _; apply open_settling]. intros Hx Hy'. cbn in Hx, Hy'. rewrite Hres in Hy'. by apply Hfd.
    + eapply returns_wr; [split; [done|split; [by apply almost_refused|]]|done..|by intros _; apply open_settling]. intros Hx Hy'. cbn in Hx, Hy'. rewrite Hres in Hy'. by apply Hfd.
    + done.
  - pose proof (reserve_write_queued _ _ data (wire y) Hq Hde Hd) as Hres.
    destruct (Drain.kl_drain_reserve_write (wq (wr s)) data (wire y)) as [[[x d] w'] ev]. destruct Hres as (Hqd & Hres).
    assert (Hfl : flight (wr s) = None) by by apply readiness_idle. cbv zeta.
    assert (Hfd' : forall s', submit (wr s') = submit (wr s) -> fed s') by (intros s' E Hx; congruence).
    destruct x; (eapply returns_wr; [split; [done|split; [|by apply Hfd']]|done..|by intros _; apply open_settling]).
    + destruct Hres. by apply almost_written.
    + destruct Hres as (? & ? & ?). by apply almost_blocked.
    + destruct Hres. by apply almost_refused.
    + by apply almost_write_failed.
Qed.

Lemma stream_flush_spec y s : at_ y s -> (length (script y) <= N)%nat -> returns (settling s) y s (kl_stream_flush m run y).
Proof.
  intros Hy HN. destruct (Hy) as [Hst [Hal Hfd]]. destruct (okay_sane _ _ (proj2 Hy)) as [Hr Hw]. destruct (ws_init _ _ Hw) as [Hi Hq].
  unfold kl_stream_flush. rewrite Hst, bind_Some_l, Hi. cbn [negb orb].
  destruct (wq_err (wr s)) eqn:He; [by apply returns_stay|]. destruct (submit (wr s)) eqn:Hsb; [by apply returns_stay|]. cbn [is_some orb].
  case_if; [by apply returns_stay|]. assert (Hfl : flight (wr s) = None) by by apply readiness_idle.
  destruct (flush_queued _ _ (wire y) Hq (ws_err _ _ Hw He)) as (r & d & w' & ev & -> & Hqd & Hout & Hcase). rewrite bind_Some_l. cbv zeta.
  set (y1 := if r <? 0 then emit WriteFailed _ else _). set (s1 := if r <? 0 then on_wr set_err _ else _).
  assert (Hy1 : at_ (put s1 y1) s1).
  { split; [done|]. split; [|by intros Hx; unfold s1 in Hx; destruct (r <? 0)]. cbn [log put set_st]. unfold y1, s1. destruct Hcase as [->|[Hed Hr']].
    - by apply almost_flush_failed.
    - assert ((r <? 0) = false) as -> by (rewrite Hr'; by destruct (length (Drain.buf d) =? 0)%nat). by apply almost_flushed. }
  assert (Hs1 : settles y (put s1 y1)) by (unfold y1; by destruct (r <? 0)).
  assert (Hb1 : base (barred y) s s1) by (apply base_wr; unfold s1; by destruct (r <? 0)).
  destruct (edge_spec (put s1 y1) s1) as (fired & s2 & y3 & s3 & -> & E & Hy3 & Hs3 & Hb3 & Hno); auto; [by destruct Hs1 as (_ & _ & ?); lia|].
  assert (Ep : forall x, put x (put s1 y1) = put x y1) by done. rewrite !Ep in E. rewrite E, bind_Some_l, (proj1 Hy3), bind_Some_l.
  assert (Hb : base (barred y) s s3) by (eapply base_trans; [done|]; by rewrite (proj1 (proj2 Hs1)) in Hb3).
  assert (Hs : settles y y3) by by eapply settles_trans.
  destruct fired; cbn [andb orb].
  { rewrite orb_true_r. by eapply tail_spec. }
  rewrite orb_false_r. specialize (Hno eq_refl) as ->. destruct (Z.eqb_spec r 1) as [->|Hr1]; cbn [negb]; [|by eapply tail_spec].
  rewrite bind_Some_l. exists 1, y3. split; [done|]. exists y3. split; [done|]. split; [done|]. left. exists s1. split_and!; auto.
  intros Hset Hl Hcl. cbn in Hcl. destruct (Hset Hl Hcl) as [Hx|?]; [|by auto]. left.
  destruct Hcase as [?|[_ Hlen]]; [done|]. destruct (Nat.eqb_spec (length (Drain.buf d)) 0); [done|].
  change s1 with (on_wr (set_wq d) s). unfold stream_fully_retired, recv_inflight, send_inflight, kl_stream_write_pending in *.
  cbn. rewrite Hi, Hfl in *. cbn in *. destruct (recv (rd s)); [done|]. destruct (close_abort (cl s)), (wq_err (wr s)); try done. cbn.
  unfold Drain.kl_drain_buffered, Drain.buf_len. destruct (Z.ltb_spec 0 (Z.of_nat (length (Drain.buf d)))); [done|lia].
Qed.

Lemma hooks_spec y s sb wf (r : Z) : at_ y s -> stream_config_locked s = false -> returns (settling s) y s (Some (r, put (on_wr (set_hooks sb wf) s) y)).
Proof. intros [Hst [Hal Hfd]] Hk. eapply returns_wr; [split; [done|]; by apply almost_hooks|done..|done]. Qed.

Lemma on_writable_spec y s on : at_ y s -> returns (settling s) y s (kl_stream_on_writable on y).
Proof.
  intros Hy. destruct (Hy) as [Hst [Hal Hfd]]. unfold kl_stream_on_writable. rewrite Hst, bind_Some_l. case_if; [by apply returns_stay|]. cbv zeta.
  pose proof (almost_unblocked _ _ on Hal). eapply returns_wr; [split; [done|split]|by destruct on|done..|done]; [by destruct on|done].
Qed.

(** *** The close entry points *)

Lemma set_cancel_spec y s r w : at_ y s -> returns (settling s) y s (kl_stream_set_cancel r w y).
Proof.
  intros Hy. destruct (Hy) as [Hst [Hal Hfd]]. unfold kl_stream_set_cancel. rewrite Hst, bind_Some_l.
  case_bool_decide as Ho; cbn [negb]; [|by apply returns_stay]. eexists 0, _. split; [done|]. eapply ends_put; [split; [by apply almost_cancel_hooks|done]| |done|done].
  split; try done; [apply arm_le_refl|by eauto].
Qed.

Lemma stream_cancel_spec y s : at_ y s -> close_abort (cl s) = true -> (length (script y) <= N)%nat ->
  exists y' s', cancel_outstanding m run y = Some y' /\ at_ y' s' /\ settles y y' /\ base (barred y) s s'.
Proof.
  intros Hy Hab HN. destruct (Hy) as [Hst [Hal Hfd]]. unfold cancel_outstanding, upd. rewrite Hst, !bind_Some_l. cbn [st put set_st]. rewrite bind_Some_l.
  set (s1 := on_cl (set_in_cancel (S (in_close_cancel (cl s)))) s).
  assert (Hy1 : at_ (put s1 y) s1) by (split; [done|]; split; [by apply almost_in_cancel|done]).
  assert (Hstep : exists y2 s2, (if cancel_recv (cl s1) && bool_decide (recv (rd s1) = Some false) then
      '(_, y) ← call_hook m run CancelRecv (put (on_rd (set_recv (Some true)) s1) (put s1 y)); Some y else Some (put s1 y)) = Some y2 /\
      at_ y2 s2 /\ settles y y2 /\ base (barred y) s1 s2).
  { destruct (_ && _) eqn:Hx; [|exists (put s1 y), s1; split_and!; auto using base_refl; done].
    apply andb_true_iff in Hx as [_ Hx%bool_decide_eq_true].
    destruct (stream_hook_spec CancelRecv (put (on_rd (set_recv (Some true)) s1) y) (on_rd (set_recv (Some true)) s1)) as (b & y2 & s2 & E & Hy2 & Hs2 & Hb2 & _ & _); auto.
    { split; [|done]. apply almost_cancel_recv; auto. apply Hy1. }
    change (put (on_rd (set_recv (Some true)) s1) (put s1 y)) with (put (on_rd (set_recv (Some true)) s1) y). rewrite E, bind_Some_l.
    exists y2, s2. split_and!; auto. eapply base_trans; [|exact Hb2]. split; try done; [apply arm_le_refl|by eauto|].
    intros _ _. by right; right; left. }
  destruct Hstep as (y2 & s2 & -> & Hy2 & Hs2 & Hb2). rewrite bind_Some_l, (proj1 Hy2), bind_Some_l.
  assert (Hab2 : close_abort (cl s2) = true) by by apply (b_abort _ _ _ Hb2).
  assert (Hcc : in_close_cancel (cl s2) <> 0%nat) by (rewrite (b_cancel _ _ _ Hb2); cbn; lia).
  assert (Hstep : exists y3 s3, match flight (wr s2) with
      | Some f => if cancel_send (cl s2) && negb (send_cancel_requested f) then
            '(_, y) ← call_hook m run CancelSend (put (on_wr (set_flight (Some (mkFlight (inflight_len f) (inflight_copying f) (submitting f) (inline_done f) true))) s2) y2); Some y
          else Some y2
      | None => Some y2 end = Some y3 /\ at_ y3 s3 /\ settles y y3 /\ base (barred y) s1 s3).
  { destruct (flight (wr s2)) as [f|] eqn:Hf; [|by exists y2, s2]. destruct (_ && _) eqn:Hx; [|by exists y2, s2].
    apply andb_true_iff in Hx as [_ Hx%negb_true_iff]. destruct Hy2 as [Hst2 [Hal2 Hfd2]].
    set (s2' := on_wr _ s2). destruct (stream_hook_spec CancelSend (put s2' y2) s2') as (b & y3 & s3 & E & Hy3 & Hs3 & Hb3 & _ & _); auto.
    { split; [by apply almost_cancel_send|by apply fed_flight]. }
    { destruct Hs2 as (_ & _ & ?). cbn. lia. }
    rewrite E, bind_Some_l. exists y3, s3. split_and!; auto; [by eapply settles_trans|]. eapply base_trans; [exact Hb2|].
    change (frame_of CancelSend b (put s2' y2)) with (barred y2) in Hb3. rewrite (proj1 (proj2 Hs2)) in Hb3.
    eapply base_trans; [|exact Hb3]. split; try done; [apply arm_le_refl|]. intros f' Hf' Hsub. assert (f' = f) as -> by congruence. by eexists. }
  destruct Hstep as (y3 & s3 & -> & Hy3 & Hs3 & Hb3). rewrite bind_Some_l, (proj1 Hy3), bind_Some_l.
  eexists _, (on_cl (set_in_cancel (Nat.pred (in_close_cancel (cl s3)))) s3). split; [done|]. destruct Hy3 as [Hst3 [Hal3 Hfd3]]. split_and!; [|by destruct Hs3|].
  - split; [done|]. split; [by apply almost_in_cancel|done].
  - destruct Hb3 as [B1 B2 B3 B4 B5 B6 B7]. split; auto. cbn. by rewrite B1.
Qed.

Lemma stream_begin_spec (abort : bool) y s : at_ y s -> (m = Live -> barred y = 0%nat) -> close_state (cl s) <> KL_STREAM_STATE_CLOSED ->
  exists y1 y2 s2, (if abort then upd (on_cl set_abort) (emit Aborting y) else Some y) = Some y1 /\ begin_closing m run y1 = Some y2 /\
    at_ y2 s2 /\ settles y y2 /\ base (barred y) s s2.
Proof.
  intros Hy Hl Hcs. destruct (Hy) as [Hst [Hal Hfd]]. set (s1 := if abort then on_cl set_abort s else s).
  assert (exists y1, (if abort then upd (on_cl set_abort) (emit Aborting y) else Some y) = Some y1 /\ st y1 = Some s1 /\ settles y y1 /\
    log y1 = if abort then log y ++ [Aborting] else log y) as (y1 & -> & Hst1 & Hs1 & Hl1).
  { destruct abort; [|by exists y]. unfold upd. cbn. rewrite Hst, bind_Some_l. by eexists. }
  exists y1. unfold begin_closing. rewrite Hst1, bind_Some_l.
  assert (Ecs : close_state (cl s1) = close_state (cl s)) by by destruct abort. rewrite Ecs.
  assert (Hbase : forall s2, cl s2 = cl s1 \/ cl s2 = cl (closing_state abort s) -> wr s2 = wr s \/ wr s2 = wr (closing_state abort s) -> arming (rd s2) = arming (rd s) ->
    read_closed (rd s2) = true -> base (barred y) s s2).
  { intros s2 Ec Ew Ea Hcl. split.
    - by destruct Ec as [->| ->], abort.
    - by destruct Ew as [->| ->], abort.
    - rewrite Ea. apply arm_le_refl.
    - intros f Hf Hsub. exists f. by destruct Ew as [->| ->], abort.
    - intros Hm' Hn. by specialize (Hl Hm').
    - intros _ _. by left.
    - by destruct Ec as [->| ->], abort. }
  case_bool_decide as Ho.
  - change (on_wr set_closing (on_cl (set_state KL_STREAM_STATE_CLOSING) s1)) with (closing_state abort s).
    assert (Hfd2 : fed (closing_state abort s)).
    { intros Hx Hb. destruct abort; cbn in *; [by auto|]. by apply Hfd. }
    assert (Hlog : log (put (closing_state abort s) (emit Closing y1)) = closing_log abort (log y)).
    { cbn. by rewrite Hl1. }
    destruct (read_closed (rd s)) eqn:Hc.
    + pose proof (almost_closing abort _ _ Hal Ho Hc) as Hal2. unfold kl_stream_read_close. cbn [st put set_st]. rewrite bind_Some_l.
      assert (read_closed (rd (closing_state abort s)) = true) as Hc2 by by destruct abort. rewrite Hc2, orb_true_r.
      eexists _, (closing_state abort s). split; [done|]. split; [done|]. split_and!; [|by destruct Hs1|].
      * split; [done|]. split; [by rewrite Hlog|done].
      * apply Hbase; auto. by destruct abort.
    + destruct (read_close_ending (put (closing_state abort s) (emit Closing y1)) (closing_state abort s)) as (y2 & s2 & E & Hy2 & Hs2 & Ew & Ec & Ea & Hcl2); auto.
      { rewrite Hlog. by apply ending_closing. }
      exists y2, s2. split; [done|]. split_and!; auto; [by eapply settles_trans; [exact Hs1|exact Hs2]|]. apply Hbase; auto. rewrite Ea. by destruct abort.
  - exists y1, s1. split; [done|]. split_and!; auto.
    + assert (Hcl : close_state (cl s) = KL_STREAM_STATE_CLOSING) by by destruct (close_state (cl s)).
      split; [done|]. rewrite Hl1. split; [unfold s1; destruct abort; [by apply almost_abort|done]|]. intros Hx Hb. unfold s1 in *. destruct abort; cbn in *; auto.
    + apply Hbase; auto; [by left; destruct abort|by destruct abort|]. destruct (okay_sane _ _ (proj2 Hy)) as [Hr _].
      pose proof (rs_ended _ _ Hr Ho). by destruct abort.
Qed.

Lemma close_common_spec (abort : bool) y s : at_ y s -> (m = Live -> barred y = 0%nat) -> (length (script y) <= N)%nat ->
  returns (settling s) y s (stream_close_common m run abort y).
Proof.
  intros Hy Hl HN. unfold stream_close_common. rewrite (proj1 Hy), bind_Some_l. case_bool_decide as Hc; [by apply returns_stay|].
  destruct (stream_begin_spec abort y s Hy Hl Hc) as (y1 & y2 & s2 & -> & E & Hy2 & Hs2 & Hb2). rewrite bind_Some_l, E, bind_Some_l, (proj1 Hy2), bind_Some_l.
  destruct (close_abort (cl s2)) eqn:Hab; [|rewrite bind_Some_l; by eapply (tail_spec (settling s))].
  destruct (stream_cancel_spec y2 s2) as (y3 & s3 & -> & Hy3 & Hs3 & Hb3); auto; [by destruct Hs2 as (_ & _ & ?); lia|].
  rewrite bind_Some_l. eapply (tail_spec (settling s)); [done|by eapply settles_trans|]. rewrite (proj1 (proj2 Hs2)) in Hb3. by eapply base_trans.
Qed.

Lemma returns_ends {A} q y s (o : option (A * sys)) : returns q y s o -> ends q y s ('(_, y) ← o; Some y).
Proof. by intros (r & y' & -> & H). Qed.

Lemma dispatch_spec c y s : at_ y s -> callable c y s -> (length (script y) <= N)%nat -> ends (settling s) y s (dispatch m run c y).
Proof.
  intros Hy [Hu Hk] HN. destruct c; cbn [dispatch].
  - by apply returns_ends, read_start_spec.
  - by apply returns_ends, on_recv_spec.
  - by apply pause_spec.
  - apply returns_ends, resume_spec; auto.
  - by apply read_close_spec.
  - by apply returns_ends, stream_write_spec.
  - by apply returns_ends, stream_flush_spec.
  - by apply returns_ends, write_complete_spec.
  - by apply returns_ends, on_writable_spec.
  - apply returns_ends. unfold kl_stream_set_writer. rewrite (proj1 Hy), bind_Some_l. case_if; [by apply returns_stay|]. case_if; [by apply returns_stay|]. by apply hooks_spec.
  - apply returns_ends. unfold kl_stream_set_submit. rewrite (proj1 Hy), bind_Some_l. case_if; [by apply returns_stay|]. case_if; [by apply returns_stay|]. by apply hooks_spec.
  - apply returns_ends, close_common_spec; auto. intros Hl. destruct (decide (barred y = 0%nat)); [done|]. by destruct (Hk Hl).
  - apply returns_ends, close_common_spec; auto. intros Hl. destruct (decide (barred y = 0%nat)); [done|]. by destruct (Hk Hl).
  - by apply returns_ends, set_cancel_spec.
Qed.

End proofs.

(** ** Whole runs *)

Lemma run_call_spec fuel c y s : m <> Lax -> (length (script y) < fuel)%nat -> at_ y s -> callable c y s ->
  ends (settling s) y s (run_call m fuel c y).
Proof.
  intros Hm. revert c y s. induction fuel as [|fuel IH]; intros c y s Hf Hy Hc; [lia|]. cbn [run_call].
  apply (dispatch_spec Hm fuel); auto. lia.
Qed.

(** Nothing is on the stack. *)
Record resting (y : sys) (s : KlStream) : Prop := {
  r_at : at_ y s;
  r_frames : in_hook y = 0%nat /\ barred y = 0%nat /\ in_close_cancel (cl s) = 0%nat /\ in_writable (wr s) = 0%nat;
  r_arming : arming (rd s) = None;
  r_settling : settling s;
}.

Lemma resting_step y s c : m <> Lax -> resting y s ->
  exists y', run_call m (S (length (script y))) c y = Some y' /\
    (freed y' \/ exists s', resting y' s' /\ (reading s -> reading s')).
Proof.
  intros Hm Hr. destruct Hr as [Hy (H0 & H1 & H2 & H3) Ha Hq] eqn:E. clear E.
  destruct (run_call_spec (S (length (script y))) c y s) as (y' & -> & (Hs0 & Hs1 & _) & H); auto.
  { split; [|by intros _ Hn]. intros _ _ _ b. by rewrite Ha. }
  exists y'. split; [done|]. destruct H as [(s' & Hy' & Hb & Hq')|[_ Hf]]; [right|by left]. exists s'. split; [|apply Hb].
  split; [done| | |by apply Hq'].
  - rewrite Hs0, Hs1, (b_cancel _ _ _ Hb), (b_writable _ _ _ Hb). done.
  - pose proof (b_arm _ _ _ Hb) as Hle. rewrite Ha in Hle. by destruct (arming (rd s')) as [[]|].
Qed.

Lemma calls_drive_spec cs y s : m <> Lax -> resting y s ->
  exists y', drive m cs y = Some y' /\ (freed y' \/ exists s', resting y' s' /\ (reading s -> reading s')).
Proof.
  intros Hm. revert y s. induction cs as [|c cs IH]; intros y s Hr; cbn [drive].
  { exists y. split; [done|]. right. by exists s. }
  rewrite (proj1 (r_at _ _ Hr)). destruct (resting_step y s c Hm Hr) as (y1 & -> & [Hf|(s1 & Hr1 & Hrd1)]); rewrite bind_Some_l.
  { exists y1. split; [|by left]. destruct cs; cbn; [done|]. by rewrite (proj1 Hf). }
  destruct (IH y1 s1 Hr1) as (y2 & -> & H). exists y2. split; [done|]. destruct H as [?|(s2 & ? & ?)]; [by left|right]. exists s2. auto.
Qed.

Lemma stream_drive_app cs1 cs2 y y1 : drive m cs1 y = Some y1 -> drive m (cs1 ++ cs2) y = drive m cs2 y1.
Proof.
  revert y. induction cs1 as [|c cs1 IH]; intros y; cbn [drive app].
  { by intros [= ->]. }
  destruct (st y) as [s|] eqn:Hst.
  - destruct (run_call m (S (length (script y))) c y) as [y2|]; [|done]. rewrite !bind_Some_l. apply IH.
  - intros [= <-]. destruct cs2; cbn; [done|]. by rewrite Hst.
Qed.

Lemma start_reads y s : m <> Lax -> resting y s ->
  exists y' s', run_call m (S (length (script y))) CStart y = Some y' /\ resting y' s' /\ reading s'.
Proof.
  intros Hm Hr.
  destruct (read_start_lands (length (script y)) (run_call m (length (script y)))
    (fun c y s H => run_call_spec (length (script _)) c y s Hm H) y s (r_at _ _ Hr) ltac:(lia)) as (rc & y' & s' & E & Hy' & _ & _ & Hrd & _).
  destruct (resting_step y s CStart Hm Hr) as (y1 & E1 & H). cbn [run_call dispatch] in *. rewrite E, bind_Some_l in *. injection E1 as <-.
  exists y', s'. split; [done|]. split; [|done]. destruct H as [[H _]|(s1 & Hr1 & _)].
  - by rewrite (proj1 Hy') in H.
  - assert (s1 = s') as <-; [|done]. pose proof (proj1 (r_at _ _ Hr1)) as H1. rewrite (proj1 Hy') in H1. by injection H1.
Qed.

Lemma open_resting mode s bs w : stream_open rcap cap mode = Some s -> 0 < cap <= SIZE_MAX -> resting (fresh s bs w) s.
Proof.
  unfold stream_open, kl_stream_init. intros Ho Hc. destruct (Z.eqb_spec rcap 0); [done|]. rewrite bind_Some_l in Ho.
  unfold kl_stream_read_init in Ho. cbn in Ho. destruct (Z.eqb_spec rcap 0); [done|]. rewrite andb_false_r in Ho. cbn in Ho.
  unfold kl_stream_write_init, Drain.kl_drain_prealloc in Ho. cbn in Ho. destruct (Z.eqb_spec cap 0); [lia|]. cbn in Ho. injection Ho as <-.
  assert (Hq : queued cap (Drain.MkDrain true [] cap cap false false true 0 false)).
  { split; try done. split; cbn; try lia. unfold Drain.buf_len. cbn. lia. }
  split; [|done|done|by intros _ ?]. split; [done|]. split; [|by intros ?]. exists [], None.
  split_and!; [done|done|]. split; split; cbn; try done.
Qed.

End invariant.

(** ** What an accepted history means *)

(** The bytes that writes accepted, and those that the transport took: written, or in a send that succeeded. *)
Definition taken_bytes (ev : list event) : list Z := ev ≫= fun e => match e with Accepted data => data | _ => [] end.

Definition wire_step (x : list Z * list Z) (e : event) : list Z * list Z :=
  match e with
  | Called (Submit data) => (x.1, data)
  | SendDone true => (x.1 ++ x.2, [])
  | Wrote data => (x.1 ++ data, x.2)
  | _ => x
  end.

Definition wire_bytes (ev : list event) : list Z := (foldl wire_step ([], []) ev).1.

(** The completions of receives, as they are to be delivered, and the deliveries. *)
Definition completions (ev : list event) : list (Z * bool) :=
  ev ≫= fun e => match e with RecvDone len ok => [(if ok then len else 0, ok)] | _ => [] end.
Definition deliveries (ev : list event) : list (Z * bool) :=
  ev ≫= fun e => match e with Called (Deliver len ok) => [(len, ok)] | _ => [] end.

Definition failure (e : event) : bool := match e with WriteFailed | SubmitFailed | SendDone false => true | _ => false end.
Definition abortion (e : event) : bool := match e with Aborting => true | _ => false end.

Definition closings (ev : list event) : nat := length (ev ≫= fun e => match e with Called OnClose => [e] | _ => [] end).

(** What the automaton knows of the history it accepted. *)
Record remembers (ev : list event) (p : contract) : Prop := {
  m_bytes : wire_bytes ev ++ queue p = taken_bytes ev;
  m_sending : forall d c, sending p = Some (d, c) -> d `prefix_of` queue p /\ (foldl wire_step ([], []) ev).2 = d;
  m_reads : deliveries ev `prefix_of` completions ev /\ (ended p = false -> completions ev = deliveries ev ++ option_list (got p));
  m_out : is_some (out p) = true -> got p = None;
  m_failed : failed p = existsb failure ev;
  m_aborting : aborting p = existsb abortion ev;
  m_closings : closings ev = if closed p then 1%nat else 0%nat;
  m_closed : closed p = true -> closing p = true /\ (failed p = false -> aborting p = false -> queue p = []);
}.

Lemma wire_app ev e : wire_bytes (ev ++ [e]) = (wire_step (foldl wire_step ([], []) ev) e).1.
Proof. unfold wire_bytes. by rewrite foldl_app. Qed.

Ltac history :=
  rewrite ?wire_app, ?foldl_app; unfold taken_bytes, completions, deliveries, closings in *; rewrite ?bind_app, ?existsb_app, ?length_app; cbn [foldl existsb mbind list_bind app length wire_step fst snd failure abortion]; rewrite ?app_nil_r, ?orb_false_r, ?orb_true_r, ?Nat.add_0_r.

Lemma remembers_quiet ev p e p' : remembers ev p -> queue p' = queue p -> sending p' = sending p -> (ended p' = false -> ended p = false /\ got p' = got p) ->
  failed p' = failed p -> aborting p' = aborting p -> closed p' = closed p -> (closing p = true -> closing p' = true) -> (is_some (out p') = true -> got p' = None) ->
  match e with Called (Submit _ | Deliver _ _ | OnClose) | SendDone _ | Wrote _ | Accepted _ | RecvDone _ _ | WriteFailed | SubmitFailed | Aborting => False | _ => True end ->
  remembers (ev ++ [e]) p'.
Proof.
  intros [M1 M2 [M3 M3'] M0 M4 M5 M6 M7] E1 E2 E3 E5 E6 E7 E8 E9 He.
  split; rewrite ?E1, ?E2, ?E5, ?E6, ?E7; destruct e as [[]| | | | | | | | | | | | |]; try done; history; auto.
  all: try (intros Hc; destruct (M7 Hc); split; by auto). all: split; [done|]; intros Hx; destruct (E3 Hx) as [? ->]; auto.
Qed.

Ltac guarded_by H :=
  unfold guard in H; match type of H with (if ?b then _ else _) = _ => destruct b eqn:?Hg; [|done] end; injection H as <-;
  repeat match goal with
  | X : _ && _ = true |- _ => apply andb_true_iff in X as [? ?]
  | X : negb _ = true |- _ => apply negb_true_iff in X
  | X : bool_decide _ = true |- _ => apply bool_decide_eq_true in X
  end.

Lemma remembers_hook cap ev p h p' : remembers ev p -> hook_step cap h p = Some p' -> remembers (ev ++ [Called h]) p'.
Proof.
  intros Hm Hs. unfold hook_step in Hs. destruct (closed p) eqn:Hcl; [done|]. destruct h.
  - guarded_by Hs. destruct Hm as [M1 M2 [M3 M3'] M0 M4 M5 M6 M7]. specialize (M3' ltac:(done)).
    match goal with X : got p = _ |- _ => rewrite X in M3' end.
    split; destruct ok; history; rewrite ?Hcl; auto; try done.
    all: unfold completions, deliveries in M3'; rewrite M3'; cbn; split; try done; by rewrite app_nil_r.
  - guarded_by Hs. apply (remembers_quiet ev p); try done. pose proof (m_out _ _ Hm). cbn. intros ?. destruct (out p), (got p); cbn in *; auto; done.
  - guarded_by Hs. apply (remembers_quiet ev p); try done. pose proof (m_out _ _ Hm). cbn. intros ?. destruct (out p), (got p); cbn in *; auto; done.
  - guarded_by Hs. destruct Hm as [M1 M2 M3 M0 M4 M5 M6 M7]. split; history; rewrite ?Hcl; auto; try done.
    intros d c [= <- <-]. split; [|done]. cbn. by subst.
  - guarded_by Hs. apply (remembers_quiet ev p); try done. pose proof (m_out _ _ Hm). cbn. intros ?. destruct (out p), (got p); cbn in *; auto; done.
  - guarded_by Hs. apply (remembers_quiet ev p); try done. pose proof (m_out _ _ Hm). cbn. intros ?. destruct (out p), (got p); cbn in *; auto; done.
  - destruct (sending p) as [[d []]|] eqn:Hd; try done. guarded_by Hs. destruct Hm as [M1 M2 M3 M0 M4 M5 M6 M7].
    split; history; rewrite ?Hcl; auto; try done. intros d' c' [= <- <-]. by apply (M2 d false).
  - guarded_by Hs. destruct Hm as [M1 M2 M3 M0 M4 M5 M6 M7]. rewrite Hcl in M6. split; history; auto; try done.
    + by rewrite M6.
    + intros _. split; [done|]. cbn. intros Hf Ha. rewrite Hf, Ha in *. cbn in *. by eapply bool_decide_eq_true_1.
Qed.

Lemma remembers_recv ev p len (ok : bool) p' : remembers ev p -> is_some (out p) = true -> queue p' = queue p -> sending p' = sending p ->
  failed p' = failed p -> aborting p' = aborting p -> closed p' = closed p -> closing p' = closing p -> out p' = None ->
  (ended p' = false -> ended p = false /\ got p' = Some (if ok then len else 0, ok)) -> remembers (ev ++ [RecvDone len ok]) p'.
Proof.
  intros [M1 M2 [M3 M3'] M0 M4 M5 M6 M7] Ho E1 E2 E3 E4 E5 E6 E7 E8. rewrite M0 in M3' by done.
  split; rewrite ?E1, ?E2, ?E3, ?E4, ?E5, ?E6, ?E7; history; auto; [|done]. split; [by apply prefix_app_r|].
  intros Hx. destruct (E8 Hx) as [He ->]. rewrite (M3' He). cbn. by rewrite app_nil_r.
Qed.

Lemma remembers_event rcap cap ev p e p' : remembers ev p -> event_step rcap cap e p = Some p' -> remembers (ev ++ [e]) p'.
Proof.
  intros Hm Hs. pose proof (m_out _ _ Hm) as Hout. destruct e; cbn in Hs.
  - by eapply remembers_hook.
  - guarded_by Hs. apply (remembers_recv ev p); auto; destruct (ended p) eqn:He; cbn; rewrite ?He; try done; destruct (ok && (rcap <? len)); done.
  - guarded_by Hs. by apply (remembers_quiet ev p).
  - guarded_by Hs. by apply (remembers_quiet ev p).
  - injection Hs as <-. by apply (remembers_quiet ev p).
  - guarded_by Hs. destruct Hm as [M1 M2 M3 M0 M4 M5 M6 M7]. split; history; auto.
    + cbn. rewrite <- M1. unfold wire_bytes. by rewrite app_assoc.
    + intros d c Hd. destruct (M2 d c Hd). split; [by apply prefix_app_r|done].
    + intros Hc. destruct (M7 Hc). congruence.
  - guarded_by Hs. by apply (remembers_quiet ev p).
  - injection Hs as <-. by apply (remembers_quiet ev p).
  - guarded_by Hs. destruct Hm as [M1 M2 M3 M0 M4 M5 M6 M7]. match goal with X : _ `prefix_of` _ |- _ => destruct X as [k Hk] end.
    split; history; auto.
    + cbn. rewrite <- M1, Hk, drop_app_length. unfold wire_bytes. by rewrite app_assoc.
    + cbn. intros d c Hd. by rewrite Hd in *.
    + intros Hc. destruct (M7 Hc) as [? Hn]. split; [done|]. cbn. intros Hf Ha. by rewrite (Hn Hf Ha), drop_nil.
  - guarded_by Hs. destruct Hm as [M1 M2 M3 M0 M4 M5 M6 M7]. split; history; auto. intros Hc. by destruct (M7 Hc).
  - guarded_by Hs. destruct Hm as [M1 M2 M3 M0 M4 M5 M6 M7]. split; history; auto; [done|]. intros Hc. by destruct (M7 Hc).
  - destruct (sending p) as [[d c]|] eqn:Hd; [|done]. cbn in Hs. injection Hs as <-. destruct Hm as [M1 M2 M3 M0 M4 M5 M6 M7].
    destruct (M2 d c Hd) as [[k Hk] Hw]. destruct ok; split; history; auto; try done.
    + cbn. rewrite Hw, <- M1, Hk, drop_app_length. unfold wire_bytes. by rewrite app_assoc.
    + intros Hc. destruct (M7 Hc) as [? Hn]. split; [done|]. cbn. intros Hf Ha. by rewrite (Hn Hf Ha), drop_nil.
    + intros Hc. by destruct (M7 Hc).
  - guarded_by Hs. by apply (remembers_quiet ev p).
  - guarded_by Hs. destruct Hm as [M1 M2 M3 M0 M4 M5 M6 M7]. split; history; auto. intros Hc. by destruct (M7 Hc).
Qed.

Lemma accepts_remembers rcap cap ev p : accepts rcap cap ev = Some p -> remembers ev p.
Proof.
  revert p. induction ev as [|e ev IH] using rev_ind; intros p.
  { intros [= <-]. by split. }
  rewrite accepts_app. destruct (accepts rcap cap ev) as [q|]; [|done]. cbn. intros Hs. eapply remembers_event; eauto.
Qed.

(** ** The theorems *)

Lemma resting_waits rcap cap y s : resting Live rcap cap y s -> reading Live s ->
  (read_closed (rd s) = true \/ read_paused (rd s) = true \/ recv_inflight s = true) /\
  (submit (wr s) <> None -> Drain.buf (wq (wr s)) <> [] -> send_inflight s = true \/ wq_err (wr s) = true \/ close_abort (cl s) = true) /\
  (close_state (cl s) = KL_STREAM_STATE_CLOSING -> recv_inflight s = true \/ send_inflight s = true \/
     submit (wr s) = None /\ close_abort (cl s) = false /\ wq_err (wr s) = false /\ 0 < kl_stream_write_pending s).
Proof.
  intros Hr Hrd. destruct (r_at _ _ _ _ _ Hr) as [_ [(_ & _ & _ & _ & _ & Hw) Hfd]]. destruct (r_frames _ _ _ _ _ Hr) as (_ & _ & Hcc & Hwb).
  unfold recv_inflight, send_inflight. split_and!.
  - destruct (Hrd eq_refl) as [?|[?|[?|[c Hc]]]]; auto; [by destruct (recv (rd s)); auto|]. by rewrite (r_arming _ _ _ _ _ Hr) in Hc.
  - intros Hs Hb. destruct (Hfd Hs Hb) as [?|[?|?]]; auto. by destruct (flight (wr s)); auto.
  - intros Hc. destruct (r_settling _ _ _ _ _ Hr eq_refl Hc) as [Hx|[?|?]]; [|done..].
    unfold stream_fully_retired, recv_inflight, send_inflight in Hx. destruct (recv (rd s)); [by left|]. destruct (flight (wr s)) eqn:Hf; [by right; left|].
    right. right. apply negb_false_iff in Hx. apply andb_true_iff in Hx as [[H1%negb_true_iff H2%negb_true_iff]%andb_true_iff H3%Z.ltb_lt].
    split_and!; auto. destruct (submit (wr s)) eqn:Hs; [|done]. exfalso.
    unfold kl_stream_write_pending in H3. rewrite (proj1 (ws_init _ _ _ Hw)), Hf in H3. cbn in H3.
    destruct Hfd as [?|[?|?]]; try congruence. intros Hb. unfold Drain.kl_drain_buffered, Drain.buf_len in H3. by rewrite Hb in H3.
Qed.

(** C10. Refinement: whatever the event loop calls and whatever the hooks call back within the rules, every
    run of a stream returns without touching it after it was freed, its history is one that the
    contract accepts, and the contract's state is the stream's. *)
Theorem stream_contract (m : rules) (rcap cap : Z) (mode : bool) (s : KlStream) (cs : list call) (bs : list behaviour) (w : list Z)
    (Hm : m <> Lax) (Hs : stream_open rcap cap mode = Some s) (Hc : 0 < cap <= SIZE_MAX) :
  exists y p, drive m cs (fresh s bs w) = Some y /\ accepts rcap cap (log y) = Some p /\
    match st y with
    | None => closed p = true
    | Some s' =>
        out p = recv (rd s') /\ got p = recv_held (rd s') /\ ended p = read_closed (rd s') /\ is_some (sending p) = send_inflight s' /\
        failed p = wq_err (wr s') /\ closing p = wq_closing (wr s') /\ aborting p = close_abort (cl s') /\ closed p = kl_stream_is_detached s'
    end.
Proof.
  destruct (calls_drive_spec m rcap cap cs _ s Hm (open_resting m rcap cap mode s bs w Hs Hc)) as (y & E & [[Hst (p & Hp & Hcl)]|(s' & Hr & _)]).
  - exists y, p. by rewrite Hst.
  - destruct (r_at _ _ _ _ _ Hr) as [Hst [(q & sd & Ha & Hcr & _ & Hw) _]]. exists y, (view s' q sd). rewrite Hst. split_and!; try done.
    + unfold carries in Hcr. unfold send_inflight. cbn. by destruct (flight (wr s')), sd as [[]|].
    + unfold kl_stream_is_detached. by rewrite (ws_notified _ _ _ Hw).
Qed.

(** C20. In every run whose hooks keep to the rules [Safe]: the bytes that reach the transport are, in order, those that writes accepted;
    receives are delivered once each, in order; [on_close] is called at most once, and after a
    graceful close without a write failure every accepted byte has been taken by the transport. *)
Theorem stream_integrity (m : rules) (rcap cap : Z) (mode : bool) (s : KlStream) (cs : list call) (bs : list behaviour) (w : list Z)
    (Hm : m <> Lax) (Hs : stream_open rcap cap mode = Some s) (Hc : 0 < cap <= SIZE_MAX) :
  exists y, drive m cs (fresh s bs w) = Some y /\
    wire_bytes (log y) `prefix_of` taken_bytes (log y) /\ deliveries (log y) `prefix_of` completions (log y) /\ (closings (log y) <= 1)%nat /\
    (closings (log y) = 1%nat -> existsb failure (log y) = false -> existsb abortion (log y) = false -> wire_bytes (log y) = taken_bytes (log y)).
Proof.
  assert (exists y p, drive m cs (fresh s bs w) = Some y /\ accepts rcap cap (log y) = Some p) as (y & p & E & Hp).
  { destruct (calls_drive_spec m rcap cap cs _ s Hm (open_resting m rcap cap mode s bs w Hs Hc)) as (y & E & [[_ (p & Hp & _)]|(s' & Hr & _)]); [by exists y, p|].
    destruct (r_at _ _ _ _ _ Hr) as [_ [(q & sd & Ha & _) _]]. by eexists _, _. }
  exists y. split; [done|]. destruct (accepts_remembers _ _ _ _ Hp) as [M1 _ [M3 _] _ M4 M5 M6 M7]. split_and!; auto.
  - rewrite <- M1. apply prefix_app_r, reflexivity.
  - rewrite M6. case_if; lia.
  - rewrite <- M4, <- M5, <- M1. intros Hx Hf Ha. rewrite M6 in Hx. destruct (closed p); [|done]. destruct M7 as [_ M7]; [done|].
    by rewrite (M7 Hf Ha), app_nil_r.
Qed.

(** C19. Liveness: a started stream that is not freed waits only for its transport.  Its read side has ended,
    is paused or has a receive outstanding; bytes queued for a submitting transport have a send
    outstanding, unless the write side failed or the close is abortive; and a close still waiting has an
    operation outstanding, or bytes that the readiness writer has to take.  The hooks may call every entry
    point, closing inside a delivery and pausing or closing inside an arming included; they keep to the
    rules [Live], which leave out what [on_close] and [read_disarm] call, a close begun inside a submission
    or inside an arming that returns an error, and the resume of a readiness stream inside an arming that
    has not completed: in these the stream does stall (cancel_in_submit, close_in_failed_arm, resume_in_arm). *)
Theorem stream_waits (rcap cap : Z) (mode : bool) (s : KlStream) (cs cs' : list call) (bs : list behaviour) (w : list Z)
    (Hs : stream_open rcap cap mode = Some s) (Hc : 0 < cap <= SIZE_MAX) :
  exists y, drive Live (cs ++ CStart :: cs') (fresh s bs w) = Some y /\
    forall s', st y = Some s' ->
      (read_closed (rd s') = true \/ read_paused (rd s') = true \/ recv_inflight s' = true) /\
      (submit (wr s') <> None -> Drain.buf (wq (wr s')) <> [] -> send_inflight s' = true \/ wq_err (wr s') = true \/ close_abort (cl s') = true) /\
      (close_state (cl s') = KL_STREAM_STATE_CLOSING ->
         recv_inflight s' = true \/ send_inflight s' = true \/
         submit (wr s') = None /\ close_abort (cl s') = false /\ wq_err (wr s') = false /\ 0 < kl_stream_write_pending s').
Proof.
  assert (Hm : Live <> Lax) by done.
  assert (Hstart : exists y1, drive Live cs (fresh s bs w) = Some y1 /\ (freed rcap cap y1 \/ exists s1, resting Live rcap cap y1 s1)).
  { destruct (calls_drive_spec Live rcap cap cs _ s Hm (open_resting Live rcap cap mode s bs w Hs Hc)) as (y1 & E & H). exists y1. split; [done|].
    destruct H as [?|(s1 & ? & _)]; eauto. }
  destruct Hstart as (y1 & E1 & [Hf|(s1 & Hr1)]); rewrite (stream_drive_app _ _ _ _ _ E1); cbn [drive].
  { exists y1. rewrite (proj1 Hf). split; [done|]. done. }
  rewrite (proj1 (r_at _ _ _ _ _ Hr1)). destruct (start_reads Live rcap cap y1 s1 Hm Hr1) as (y2 & s2 & -> & Hr2 & Hrd2). rewrite bind_Some_l.
  destruct (calls_drive_spec Live rcap cap cs' y2 s2 Hm Hr2) as (y & E & H). exists y. split; [done|]. intros s' Hs'.
  destruct H as [[Hx _]|(s3 & Hr3 & Hrd3)]; [congruence|].
  assert (s' = s3) as -> by (pose proof (proj1 (r_at _ _ _ _ _ Hr3)); congruence). by apply (resting_waits rcap cap y), Hrd3.
Qed.

(** ** Examples *)

Definition sample_stream (mode : bool) : KlStream :=
  mkStream (mkRead true mode 4 false None None false None)
    (mkWrite true (Drain.MkDrain true [] 5 5 false false true 0 false) false false None false None false 0 false)
    (mkClose KL_STREAM_STATE_OPEN false 0 false false false).

Lemma sample_open mode : stream_open 4 5 mode = Some (sample_stream mode).
Proof. by destruct mode. Qed.

(** A submitting transport that completes some operations inside its hooks, and a producer that is
    refused, retries from its callback and closes there. *)
Definition sample_setup : list call := [CSetSubmit (Some true); COnWritable true; CSetCancel true true].
Definition sample_rest : list call := [CWrite [1; 2; 3]; CWrite [4; 5; 6; 7]; CWrite [8]; CRecv 2 true; CWriteComplete true; CWriteComplete true; CRecv 0 false].
Definition sample_script : list behaviour :=
  [ mkBehaviour [CRecv 3 true] 0 false; mkBehaviour [CPause; CResume] 0 false; inert; inert; mkBehaviour [CWrite [9]] 0 false; inert;
    mkBehaviour [CWriteComplete true] 0 false; mkBehaviour [CWrite [10]; CClose] 0 false; inert; mkBehaviour [] 0 true ].

Lemma stream_contract_witness :
  exists y p, drive Safe (sample_setup ++ CStart :: sample_rest) (fresh (sample_stream true) sample_script []) = Some y /\ accepts 4 5 (log y) = Some p /\
    match st y with
    | None => closed p = true
    | Some s' =>
        out p = recv (rd s') /\ got p = recv_held (rd s') /\ ended p = read_closed (rd s') /\ is_some (sending p) = send_inflight s' /\
        failed p = wq_err (wr s') /\ closing p = wq_closing (wr s') /\ aborting p = close_abort (cl s') /\ closed p = kl_stream_is_detached s'
    end.
Proof.
  apply (stream_contract Safe 4 5 true (sample_stream true) (sample_setup ++ CStart :: sample_rest) sample_script []); [done|reflexivity|lia].
Defined.

Lemma stream_integrity_witness :
  exists y, drive Safe (sample_setup ++ CStart :: sample_rest) (fresh (sample_stream true) sample_script []) = Some y /\
    wire_bytes (log y) `prefix_of` taken_bytes (log y) /\ deliveries (log y) `prefix_of` completions (log y) /\ (closings (log y) <= 1)%nat /\
    (closings (log y) = 1%nat -> existsb failure (log y) = false -> existsb abortion (log y) = false -> wire_bytes (log y) = taken_bytes (log y)).
Proof.
  apply (stream_integrity Safe 4 5 true (sample_stream true) (sample_setup ++ CStart :: sample_rest) sample_script []); [done|reflexivity|lia].
Defined.

Lemma stream_waits_witness :
  exists y, drive Live (sample_setup ++ CStart :: sample_rest) (fresh (sample_stream true) sample_script []) = Some y /\
    forall s', st y = Some s' ->
      (read_closed (rd s') = true \/ read_paused (rd s') = true \/ recv_inflight s' = true) /\
      (submit (wr s') <> None -> Drain.buf (wq (wr s')) <> [] -> send_inflight s' = true \/ wq_err (wr s') = true \/ close_abort (cl s') = true) /\
      (close_state (cl s') = KL_STREAM_STATE_CLOSING ->
         recv_inflight s' = true \/ send_inflight s' = true \/
         submit (wr s') = None /\ close_abort (cl s') = false /\ wq_err (wr s') = false /\ 0 < kl_stream_write_pending s').
Proof. apply (stream_waits 4 5 true (sample_stream true) sample_setup sample_rest sample_script []); [reflexivity|lia]. Defined.

(** The rules are needed: a delivery that closes the stream has it detached inside the delivery, and an
    owner that frees it in [on_close] leaves [stream_deliver_and_continue] with freed memory. *)
Example close_in_delivery :
  drive Lax [CStart; CRecv 3 true] (fresh (sample_stream true) [inert; mkBehaviour [CClose] 0 false; mkBehaviour [] 0 true] []) = None.
Proof. reflexivity. Qed.

(** What [Live] leaves out stalls.  A cancel inside the submit hook of a write, with the completion inside it too: both operations are
    retired, [on_close] was not called and nothing will call it. *)
Example cancel_in_submit :
  exists y s, drive Safe [CSetSubmit (Some false); CWrite [1; 2]] (fresh (sample_stream true) [mkBehaviour [CCancel; CWriteComplete true] 0 false] []) = Some y /\
    st y = Some s /\ close_state (cl s) = KL_STREAM_STATE_CLOSING /\ stream_fully_retired s = true /\ closings (log y) = 0%nat.
Proof. eexists _, _. split; [vm_compute; reflexivity|]. split; [reflexivity|]. split; [reflexivity|]. split; reflexivity. Qed.

(** A close inside an arm hook that returns an error: the receive is retired, and nobody looks again. *)
Example close_in_failed_arm :
  exists y s, drive Safe [CStart] (fresh (sample_stream true) [mkBehaviour [CClose] (-1) false] []) = Some y /\
    st y = Some s /\ close_state (cl s) = KL_STREAM_STATE_CLOSING /\ stream_fully_retired s = true /\ closings (log y) = 0%nat.
Proof. eexists _, _. split; [vm_compute; reflexivity|]. split; [reflexivity|]. split; [reflexivity|]. split; reflexivity. Qed.

(** What it allows does not: a close inside a delivery detaches the stream, and a pause inside the arm hook
    drops the interest until the resume. *)
Example close_in_live_delivery :
  option_map (fun y => (closings (log y), close_state ∘ cl <$> st y))
    (drive Live [CStart; CRecv 3 true] (fresh (sample_stream true) [inert; mkBehaviour [CClose] 0 false] [])) =
  Some (1%nat, Some KL_STREAM_STATE_CLOSED).
Proof. reflexivity. Qed.

Example pause_in_live_arm :
  option_map (fun y => (read_paused ∘ rd <$> st y, recv_inflight <$> st y))
    (drive Live [CStart] (fresh (sample_stream false) [mkBehaviour [CPause] 0 false] [])) = Some (Some true, Some false) /\
  option_map (fun y => recv_inflight <$> st y)
    (drive Live [CStart; CResume] (fresh (sample_stream false) [mkBehaviour [CPause] 0 false] [])) = Some (Some true).
Proof. split; reflexivity. Qed.

(** Pause and resume inside the arm hook, in readiness mode: the receive asked for is lost. *)
Example resume_in_arm :
  exists y s, drive Safe [CStart] (fresh (sample_stream false) [mkBehaviour [CPause; CResume] 0 false] []) = Some y /\
    st y = Some s /\ read_closed (rd s) = false /\ read_paused (rd s) = false /\ recv_inflight s = false.
Proof. eexists _, _. split; [vm_compute; reflexivity|]. split; [reflexivity|]. split; [reflexivity|]. split; reflexivity. Qed.

End StreamContract.
