(* ===== verification/Redirect.v ===== *)
(** * Following redirects (src/src/protocols/http/http_redirect.c, src/include/keel/http_redirect.h)

    The synchronous loop and the asynchronous client around the plain HTTP client.  The HTTP client,
    the allocator and the caller's callbacks are an environment [RedirectEnv]; the model keeps the
    blocks that are allocated, the HTTP clients that are alive and a log of what was requested and
    asked, and a use of the freed redirect client or a wrong free is a fault ([None]). *)
From stdpp Require Import gmultiset.
From S2P Require Import Prelude CStr Url Error.
Import CStr Url Error.

Module Redirect.

(** ** Data *)

Definition KL_URL_MAX : nat := 2048.
Definition KL_HTTP_CLIENT_MAX_REQ_HEADERS : Z := 64.
Definition KL_HTTP_REDIRECT_DEFAULT_MAX : Z := 10.
Definition METHOD_CAP : nat := 16.

Definition KlHttpClientHeader : Type := list Z * list Z.

Record KlHttpClientResponse := mkResponse {
  status : Z; resp_headers : list KlHttpClientHeader; resp_body : list Z; resp_error : KlError;
}.

(** [memset] and the error. *)
Definition refusal (e : KlError) : KlHttpClientResponse := mkResponse 0 [] [] e.

(** The status and the error survive. *)
Definition kl_http_client_response_free (r : KlHttpClientResponse) : KlHttpClientResponse :=
  mkResponse (status r) [] [] (resp_error r).

Definition with_error (e : KlError) (r : KlHttpClientResponse) : KlHttpClientResponse :=
  mkResponse (status r) (resp_headers r) (resp_body r) e.

(** What the plain client is asked for; a NULL body is [None]. *)
Record request := mkRequest {
  rq_method : list Z; rq_url : list Z; rq_headers : list KlHttpClientHeader; rq_body : option (list Z);
}.

(** An HTTP client: its error and its response. *)
Record KlHttpClient := mkClient { cl_error : KlError; cl_resp : KlHttpClientResponse }.

Definition kl_http_client_response (c : option KlHttpClient) : option KlHttpClientResponse :=
  match c with
  | Some c => if decide (cl_error c = KL_ERR_NONE) then Some (cl_resp c) else None
  | None => None
  end.

Definition kl_http_client_error (c : option KlHttpClient) : Z :=
  match c with Some c => if decide (cl_error c = KL_ERR_NONE) then 0 else -1 | None => -1 end.

Definition kl_http_client_last_error (c : option KlHttpClient) : KlError :=
  match c with Some c => cl_error c | None => KL_ERR_INVALID_ARG end.

(** What a request looks like from the outside: it was sent; the policy was asked about a URL and
    gave a result; the caller was told the end. *)
Inductive event :=
| Requested (rq : request)
| Asked (url : list Z) (rc : Z)
| Completed (err : KlError) (resp : option KlHttpClientResponse).

(** What [on_done] does with the redirect client. *)
Inductive action := ACancel | AFree.

(** [client_request] is the synchronous client: result and response.  [client_start] is the
    asynchronous one: whether a handle is returned, and the client when it completed inside the call. *)
Class RedirectEnv (W : Type) := {
  client_request : W -> request -> Z * KlHttpClientResponse * W;
  client_start : W -> request -> bool * option KlHttpClient * W;
  grant : W -> Z -> bool * W;
  done_actions : W -> list action * W;
  sizeof_client : Z;
}.

(** ** Helpers *)

Definition str_is (s : list Z) (t : list Z) : bool := kl_ascii_strcasecmp s t =? 0.

Definition is_redirect (st : Z) : bool := (st =? 301) || (st =? 302) || (st =? 303) || (st =? 307) || (st =? 308).

Definition method_changes_to_get (st : Z) (method : list Z) : bool :=
  if (st =? 307) || (st =? 308) then false
  else if st =? 303 then negb (str_is method (bytes "GET")) && negb (str_is method (bytes "HEAD"))
  else str_is method (bytes "POST") || str_is method (bytes "PUT") || str_is method (bytes "PATCH").

Definition is_cross_origin (a b : KlUrl) : bool :=
  if negb (Bool.eqb (is_https a) (is_https b)) then true
  else if negb (Bool.eqb (is_unix a) (is_unix b)) then true
  else if is_unix a then negb (span_eqb (unix_path a) (unix_path b))
  else if negb (port a =? port b) then true
  else if negb (length (host a) =? length (host b))%nat then true
  else if (length (host a) =? 0)%nat then false
  else negb (kl_ascii_strncasecmp (host a) (host b) (length (host a)) =? 0).

Definition find_location (hs : list KlHttpClientHeader) : option (list Z) :=
  snd <$> List.find (fun h => str_is h.1 (bytes "Location")) hs.

Definition should_drop_header (name : list Z) (body_dropped cross_origin : bool) : bool :=
  str_is name (bytes "Host") ||
  (cross_origin && (str_is name (bytes "Authorization") || str_is name (bytes "Cookie") || str_is name (bytes "Proxy-Authorization"))) ||
  (body_dropped && (str_is name (bytes "Content-Type") || str_is name (bytes "Content-Length") || str_is name (bytes "Transfer-Encoding"))).

(** The caller's array: NULL, or entries whose strings may be NULL. *)
Definition header_array : Type := option (list (option (list Z) * option (list Z))).

Definition redirect_headers_valid (headers : header_array) (num_headers : Z) : bool :=
  if (num_headers <? 0) || (KL_HTTP_CLIENT_MAX_REQ_HEADERS <? num_headers) then false
  else if num_headers =? 0 then true
  else match headers with
       | None => false
       | Some hs => forallb (fun h => match h with (Some _, Some _) => true | _ => false end) (take (Z.to_nat num_headers) hs)
       end.

(** The strings of a valid array. *)
Definition header_list (headers : header_array) (num_headers : Z) : list KlHttpClientHeader :=
  match headers with
  | None => []
  | Some hs => omap (fun h => match h with (Some n, Some v) => Some (n, v) | _ => None end) (take (Z.to_nat num_headers) hs)
  end.

Definition no_body (body : option (list Z)) : bool := match body with None | Some [] => true | _ => false end.

(** The credentials of the first request are for its origin only. *)
Definition cross_from (first : bool) (original current : list Z) : bool :=
  if first then false
  else match kl_url_parse original, kl_url_parse current with
       | Some a, Some b => is_cross_origin a b
       | _, _ => false
       end.

Definition hop_request (first : bool) (original : list Z) (headers : list KlHttpClientHeader)
    (method current : list Z) (body : option (list Z)) : request :=
  mkRequest method current
    (List.filter (fun h => negb (should_drop_header h.1 (no_body body) (cross_from first original current))) headers) body.

Section model.
Context {W : Type} `{Env : !RedirectEnv W}.

(** [on_redirect] may be NULL; its result 0 lets the hop pass. *)
Record KlHttpRedirectConfig := mkConfig { max_redirects : Z; on_redirect : option (list Z -> W -> Z * W) }.

Definition max_hops (redir : option KlHttpRedirectConfig) : Z :=
  match redir with
  | Some c => if 0 <? max_redirects c then max_redirects c else KL_HTTP_REDIRECT_DEFAULT_MAX
  | None => KL_HTTP_REDIRECT_DEFAULT_MAX
  end.

Definition policy (redir : option KlHttpRedirectConfig) : option (list Z -> W -> Z * W) := c ← redir; on_redirect c.

(** The result of the policy (0 without one) and what is logged. *)
Definition ask (p : option (list Z -> W -> Z * W)) (url : list Z) (w : W) : Z * W * list event :=
  match p with
  | None => (0, w, [])
  | Some f => let '(rc, w) := f url w in (rc, w, [Asked url rc])
  end.

(** ** Synchronous *)

(** [n]: the iterations left. *)
Fixpoint sync_loop (n : nat) (first : bool) (p : option (list Z -> W -> Z * W)) (url : list Z) (headers : list KlHttpClientHeader)
    (cur_method cur_url : list Z) (cur_body : option (list Z)) (w : W) : Z * KlHttpClientResponse * W * list event :=
  match n with
  | O => (-1, refusal KL_ERR_REDIRECT_LOOP, w, [])
  | S n' =>
      let rq := hop_request first url headers cur_method cur_url cur_body in
      let '(rc, resp, w) := client_request w rq in
      let log := [Requested rq] in
      if negb (rc =? 0) then (-1, resp, w, log)
      else if negb (is_redirect (status resp)) then (0, resp, w, log)
      else
        match find_location (resp_headers resp) with
        | None => (0, resp, w, log)
        | Some location =>
            match kl_url_resolve cur_url location KL_URL_MAX with
            | None => (-1, with_error KL_ERR_URL (kl_http_client_response_free resp), w, log)
            | Some next_url =>
                let '(rc, w, asked) := ask p next_url w in
                let log := log ++ asked in
                if negb (rc =? 0) then (-1, refusal KL_ERR_REDIRECT_REFUSED, w, log)
                else
                  let changes := method_changes_to_get (status resp) cur_method in
                  let cur_method := if changes then bytes "GET" else cur_method in
                  let cur_body := if changes then None else cur_body in
                  if (KL_URL_MAX <=? length next_url)%nat then (-1, refusal KL_ERR_URL, w, log)
                  else
                    let '(rc, resp, w, log2) := sync_loop n' false p url headers cur_method next_url cur_body w in
                    (rc, resp, w, log ++ log2)
            end
        end
  end.

(** [None] for a NULL argument. *)
Definition do_sync_request (alloc_valid : bool) (redir : option KlHttpRedirectConfig) (method url : option (list Z))
    (headers : header_array) (num_headers : Z) (body : option (list Z)) (w : W) : Z * KlHttpClientResponse * W * list event :=
  match alloc_valid && redirect_headers_valid headers num_headers, method, url with
  | true, Some method, Some url =>
      if (KL_URL_MAX <=? length url)%nat then (-1, refusal KL_ERR_URL, w, [])
      else if (METHOD_CAP <=? length method)%nat then (-1, refusal KL_ERR_INVALID_ARG, w, [])
      else
        sync_loop (S (Z.to_nat (max_hops redir))) true (policy redir) url (header_list headers num_headers) method url body w
  | _, _, _ => (-1, refusal KL_ERR_INVALID_ARG, w, [])
  end.

Definition kl_http_redirect_request (alloc_valid : bool) (redir : option KlHttpRedirectConfig) (method url : option (list Z))
    (headers : header_array) (num_headers : Z) (body : option (list Z)) (w : W) : Z * KlHttpClientResponse * W * list event :=
  do_sync_request alloc_valid redir method url headers num_headers body w.

Definition kl_http_redirect_request_pooled (pool alloc_valid : bool) (redir : option KlHttpRedirectConfig) (method url : option (list Z))
    (headers : header_array) (num_headers : Z) (body : option (list Z)) (w : W) : Z * KlHttpClientResponse * W * list event :=
  if negb pool then (-1, refusal KL_ERR_INVALID_ARG, w, [])
  else do_sync_request alloc_valid redir method url headers num_headers body w.

(** ** Asynchronous *)

(** The part of the client that is fixed at the start; [on_done] tells that the callback is set. *)
Record Job := mkJob {
  headers : list KlHttpClientHeader; job_max : Z; job_policy : option (list Z -> W -> Z * W);
  original_url : list Z; on_done : bool;
}.

Record KlHttpRedirectClient := mkRc {
  job : Job; inner : option KlHttpClient; body : option (list Z); redirects_done : Z;
  current_url : list Z; current_method : list Z; error : KlError; starting : bool; done_pending : bool;
}.

Definition set_inner (c : option KlHttpClient) (r : KlHttpRedirectClient) : KlHttpRedirectClient :=
  mkRc (job r) c (body r) (redirects_done r) (current_url r) (current_method r) (error r) (starting r) (done_pending r).
Definition set_flags (st dp : bool) (r : KlHttpRedirectClient) : KlHttpRedirectClient :=
  mkRc (job r) (inner r) (body r) (redirects_done r) (current_url r) (current_method r) (error r) st dp.
Definition set_rc_error (e : KlError) (r : KlHttpRedirectClient) : KlHttpRedirectClient :=
  mkRc (job r) (inner r) (body r) (redirects_done r) (current_url r) (current_method r) e (starting r) (done_pending r).
Definition set_get (r : KlHttpRedirectClient) : KlHttpRedirectClient :=
  mkRc (job r) (inner r) None (redirects_done r) (current_url r) (bytes "GET") (error r) (starting r) (done_pending r).
Definition set_url (u : list Z) (r : KlHttpRedirectClient) : KlHttpRedirectClient :=
  mkRc (job r) (inner r) (body r) (redirects_done r) u (current_method r) (error r) (starting r) (done_pending r).
Definition set_hops (n : Z) (r : KlHttpRedirectClient) : KlHttpRedirectClient :=
  mkRc (job r) (inner r) (body r) n (current_url r) (current_method r) (error r) (starting r) (done_pending r).

(** [rc] is [None] before it is allocated and once it is freed; [flight]: an HTTP client is running
    and will complete later; [clients] counts the HTTP clients that exist. *)
Record sys := mkSys {
  world : W; heap : gmultiset Z; clients : nat; flight : bool; rc : option KlHttpRedirectClient; log : list event;
}.

Definition set_world (w : W) (s : sys) : sys := mkSys w (heap s) (clients s) (flight s) (rc s) (log s).
Definition set_heap (h : gmultiset Z) (s : sys) : sys := mkSys (world s) h (clients s) (flight s) (rc s) (log s).
Definition set_flight (n : nat) (f : bool) (s : sys) : sys := mkSys (world s) (heap s) n f (rc s) (log s).
Definition set_rc (r : option KlHttpRedirectClient) (s : sys) : sys := mkSys (world s) (heap s) (clients s) (flight s) r (log s).
Definition emit (e : list event) (s : sys) : sys := mkSys (world s) (heap s) (clients s) (flight s) (rc s) (log s ++ e).

Definition put (r : KlHttpRedirectClient) (s : sys) : sys := set_rc (Some r) s.

Definition kl_malloc (n : Z) (s : sys) : bool * sys :=
  let '(ok, w) := grant (world s) n in
  (ok, set_world w (if ok : bool then set_heap (heap s ⊎ {[+ n +]}) s else s)).

(** A block is given back with the size it was asked with. *)
Definition kl_free (n : Z) (s : sys) : option sys :=
  if decide (n ∈ heap s) then Some (set_heap (heap s ∖ {[+ n +]}) s) else None.

Definition SIZEOF_HEADER : Z := 16.
Definition strsize (t : list Z) : Z := Z.of_nat (length t) + 1.
Definition array_size (hs : list KlHttpClientHeader) : Z := Z.of_nat (length hs) * SIZEOF_HEADER.

(** The strings of the copied headers. *)
Fixpoint free_headers (hs : list KlHttpClientHeader) (s : sys) : option sys :=
  match hs with
  | [] => Some s
  | h :: hs => s ← kl_free (strsize h.1) s; s ← kl_free (strsize h.2) s; free_headers hs s
  end.

(** [done]: the headers copied so far.  A failure gives everything back, the array and the client
    included. *)
Fixpoint copy_headers (all done todo : list KlHttpClientHeader) (s : sys) : option (bool * sys) :=
  match todo with
  | [] => Some (true, s)
  | h :: todo =>
      let '(n, s) := kl_malloc (strsize h.1) s in
      let '(v, s) := kl_malloc (strsize h.2) s in
      if n && v then copy_headers all (done ++ [h]) todo s
      else
        s ← (if n : bool then kl_free (strsize h.1) s else Some s);
        s ← (if v : bool then kl_free (strsize h.2) s else Some s);
        s ← free_headers done s;
        s ← kl_free (array_size all) s;
        s ← kl_free sizeof_client s;
        Some (false, s)
  end.

(** The copies of the headers and of the body. *)
Definition copy_all (hs : list KlHttpClientHeader) (s : sys) : option (bool * sys) :=
  match hs with
  | [] => Some (true, s)
  | _ =>
      let '(ok, s) := kl_malloc (array_size hs) s in
      if ok : bool then copy_headers hs [] hs s
      else s ← kl_free sizeof_client s; Some (false, s)
  end.

Definition copy_body (hs : list KlHttpClientHeader) (b : option (list Z)) (s : sys) : option (bool * sys) :=
  match b with
  | None | Some [] => Some (true, s)
  | Some data =>
      let '(ok, s) := kl_malloc (Z.of_nat (length data)) s in
      if ok : bool then Some (true, s)
      else
        s ← free_headers hs s;
        s ← (match hs with [] => Some s | _ => kl_free (array_size hs) s end);
        s ← kl_free sizeof_client s;
        Some (false, s)
  end.

Definition alloc_redirect_client (redir : option KlHttpRedirectConfig) (method url : list Z) (hs : list KlHttpClientHeader)
    (b : option (list Z)) (has_done : bool) (s : sys) : option (option KlHttpRedirectClient * sys) :=
  let '(ok, s) := kl_malloc sizeof_client s in
  if negb ok then Some (None, s)
  else if (METHOD_CAP <=? length method)%nat || (KL_URL_MAX <=? length url)%nat then
    s ← kl_free sizeof_client s; Some (None, s)
  else
    '(ok, s) ← copy_all hs s;
    if negb ok then Some (None, s)
    else
      '(ok, s) ← copy_body hs b s;
      if negb ok then Some (None, s)
      else
        Some (Some (mkRc (mkJob hs (max_hops redir) (policy redir) url has_done) None (if no_body b then None else b) 0 url method
                KL_ERR_NONE false false), s).

Definition free_client (s : sys) : sys := set_flight (Nat.pred (clients s)) false s.

Definition kl_http_redirect_free (s : sys) : option sys :=
  r ← rc s;
  let s := match inner r with Some _ => free_client s | None => s end in
  s ← free_headers (headers (job r)) s;
  s ← (match headers (job r) with [] => Some s | hs => kl_free (array_size hs) s end);
  s ← (match body r with Some b => kl_free (Z.of_nat (length b)) s | None => Some s end);
  s ← kl_free sizeof_client s;
  Some (set_rc None s).

Definition kl_http_redirect_response (r : KlHttpRedirectClient) : option KlHttpClientResponse :=
  if decide (error r = KL_ERR_NONE) then kl_http_client_response (inner r) else None.

Definition kl_http_redirect_error (r : KlHttpRedirectClient) : Z :=
  if decide (error r = KL_ERR_NONE) then match inner r with Some _ => kl_http_client_error (inner r) | None => -1 end else -1.

Definition kl_http_redirect_last_error (r : KlHttpRedirectClient) : KlError :=
  if decide (error r = KL_ERR_NONE) then match inner r with Some _ => kl_http_client_last_error (inner r) | None => KL_ERR_NONE end
  else error r.

(** A cancelled client does not complete. *)
Definition cancel_client (c : KlHttpClient) : KlHttpClient :=
  if decide (cl_error c = KL_ERR_NONE) then mkClient KL_ERR_IO (cl_resp c) else c.

Definition kl_http_redirect_cancel (s : sys) : option sys :=
  r ← rc s;
  let s := match inner r with Some _ => set_flight (clients s) false s | None => s end in
  let r := match inner r with Some c => set_inner (Some (cancel_client c)) r | None => r end in
  Some (put (if decide (error r = KL_ERR_NONE) then set_rc_error KL_ERR_IO r else r) s).

(** What [on_done] does; it stops using the client once it freed it. *)
Fixpoint run_actions (acts : list action) (s : sys) : option sys :=
  match acts with
  | [] => Some s
  | ACancel :: acts => s ← kl_http_redirect_cancel s; run_actions acts s
  | AFree :: _ => kl_http_redirect_free s
  end.

Definition tell (s : sys) : option sys :=
  r ← rc s;
  if on_done (job r) then
    let '(acts, w) := done_actions (world s) in
    run_actions acts (emit [Completed (kl_http_redirect_last_error r) (kl_http_redirect_response r)] (set_world w s))
  else Some s.

Definition fail_with (e : KlError) (s : sys) : option sys := r ← rc s; tell (put (set_rc_error e r) s).

(** A client that completes while it is being started. *)
Definition held_done (s : sys) : option sys := r ← rc s; Some (put (set_flags true true r) s).

(** [on_complete] is [internal_on_done]. *)
Definition start_next_request (on_complete : sys -> option sys) (first : bool) (s : sys) : option (Z * sys) :=
  r ← rc s;
  let rq := hop_request (redirects_done r =? 0) (original_url (job r)) (headers (job r)) (current_method r) (current_url r) (body r) in
  let s := emit [Requested rq] (put (set_flags true false r) s) in
  let '(handle, inside, w) := client_start (world s) rq in
  let s := set_world w s in
  s ← (match inside with Some _ => held_done s | None => Some s end);
  r ← rc s;
  let r := set_flags false (done_pending r) r in
  if negb handle then Some (-1, put r s)
  else
    let s := set_flight (S (clients s)) (negb (done_pending r)) s in
    let r := set_inner (Some (default (mkClient KL_ERR_NONE (refusal KL_ERR_NONE)) inside)) r in
    if done_pending r then
      let r := set_flags false false r in
      if first then Some (-1, put (set_inner None r) (free_client s))
      else s ← on_complete (put r s); Some (0, s)
    else Some (0, put r s).

Definition drop_body (r : KlHttpRedirectClient) (s : sys) : option sys :=
  match body r with Some b => kl_free (Z.of_nat (length b)) s | None => Some s end.

(** Fuel: one unit per hop that is left. *)
Fixpoint internal_on_done (fuel : nat) (s : sys) : option sys :=
  r ← rc s;
  if starting r then held_done s
  else if negb (kl_http_client_error (inner r) =? 0) then fail_with (kl_http_client_last_error (inner r)) s
  else
    match kl_http_client_response (inner r) with
    | None => fail_with KL_ERR_IO s
    | Some resp =>
        if negb (is_redirect (status resp)) then tell s
        else if job_max (job r) <=? redirects_done r then fail_with KL_ERR_REDIRECT_LOOP s
        else
          match find_location (resp_headers resp) with
          | None => tell s
          | Some location =>
              match kl_url_resolve (current_url r) location KL_URL_MAX with
              | None => fail_with KL_ERR_URL s
              | Some next_url =>
                  let '(ans, w, asked) := ask (job_policy (job r)) next_url (world s) in
                  let s := emit asked (set_world w s) in
                  if negb (ans =? 0) then fail_with KL_ERR_REDIRECT_REFUSED s
                  else
                    let changes := method_changes_to_get (status resp) (current_method r) in
                    s ← (if changes : bool then drop_body r s else Some s);
                    let r := if changes : bool then set_get r else r in
                    if (KL_URL_MAX <=? length next_url)%nat then fail_with KL_ERR_URL (put r s)
                    else
                      let r := set_hops (redirects_done r + 1) (set_inner None (set_url next_url r)) in
                      let s := put r (free_client s) in
                      match fuel with
                      | O => None
                      | S fuel' =>
                          '(rc', s) ← start_next_request (internal_on_done fuel') false s;
                          if negb (rc' =? 0) then fail_with KL_ERR_IO s else Some s
                      end
              end
          end
    end.

Definition hops_left (s : sys) : nat :=
  match rc s with Some r => Z.to_nat (job_max (job r) - redirects_done r) | None => O end.

(** The start: whether a handle is returned. *)
Definition kl_http_redirect_start (ctx_ok alloc_valid : bool) (redir : option KlHttpRedirectConfig) (method url : option (list Z))
    (hdrs : header_array) (num_headers : Z) (b : option (list Z)) (has_done : bool) (s : sys) : option (bool * sys) :=
  match ctx_ok && alloc_valid && redirect_headers_valid hdrs num_headers, method, url with
  | true, Some method, Some url =>
      '(r, s) ← alloc_redirect_client redir method url (header_list hdrs num_headers) b has_done s;
      match r with
      | None => Some (false, s)
      | Some r =>
          '(rc', s) ← start_next_request Some true (put r s);
          if negb (rc' =? 0) then s ← kl_http_redirect_free s; Some (false, s) else Some (true, s)
      end
  | _, _, _ => Some (false, s)
  end.

Definition kl_http_redirect_start_pooled (pool ctx_ok alloc_valid : bool) (redir : option KlHttpRedirectConfig) (method url : option (list Z))
    (hdrs : header_array) (num_headers : Z) (b : option (list Z)) (has_done : bool) (s : sys) : option (bool * sys) :=
  kl_http_redirect_start (pool && ctx_ok) alloc_valid redir method url hdrs num_headers b has_done s.

End model.

(** ** Memory *)

Fixpoint strings (hs : list KlHttpClientHeader) : gmultiset Z :=
  match hs with [] => ∅ | h :: hs => {[+ strsize h.1 +]} ⊎ {[+ strsize h.2 +]} ⊎ strings hs end.

Definition array_block (hs : list KlHttpClientHeader) : gmultiset Z := match hs with [] => ∅ | _ => {[+ array_size hs +]} end.

Definition body_block (b : option (list Z)) : gmultiset Z := match b with Some l => {[+ Z.of_nat (length l) +]} | None => ∅ end.

(** Equations between multisets that only differ in the order of their parts. *)
Ltac ms := apply gmultiset_eq; intros ?; rewrite ?multiplicity_disj_union, ?multiplicity_empty; lia.

Section facts.
Context {W : Type} {Env : RedirectEnv W}.

Lemma strings_app a b : strings (a ++ b) = strings a ⊎ strings b.
Proof. induction a as [|h a IH]; cbn [app strings]; [|rewrite IH]; ms. Qed.

Lemma kl_free_spec n (s : sys (W := W)) h : heap s = {[+ n +]} ⊎ h -> kl_free n s = Some (set_heap h s).
Proof.
  intros H. unfold kl_free. rewrite decide_True by (rewrite H; multiset_solver). rewrite H.
  by replace (({[+ n +]} ⊎ h) ∖ {[+ n +]}) with h by multiset_solver.
Qed.

Lemma free_headers_spec hs (s : sys (W := W)) h : heap s = strings hs ⊎ h -> free_headers hs s = Some (set_heap h s).
Proof.
  revert s. induction hs as [|x hs IH]; intros s H; cbn [free_headers strings] in *.
  - assert (heap s = h) as <- by (rewrite H; ms). by destruct s.
  - rewrite (kl_free_spec _ s ({[+ strsize x.2 +]} ⊎ strings hs ⊎ h)) by (rewrite H; ms). rewrite bind_Some_l.
    rewrite (kl_free_spec _ _ (strings hs ⊎ h)) by (cbn [heap set_heap]; ms). rewrite bind_Some_l. by rewrite IH.
Qed.

Lemma malloc_spec n (s : sys (W := W)) : exists ok w, kl_malloc n s = (ok, set_world w (set_heap (if (ok : bool) then heap s ⊎ {[+ n +]} else heap s) s)).
Proof. unfold kl_malloc. destruct (grant (world s) n) as [[] w]; [exists true, w|exists false, w]; by destruct s. Qed.

(** Only memory and the world change. *)
Definition same (s s' : sys (W := W)) : Prop := clients s' = clients s /\ flight s' = flight s /\ rc s' = rc s /\ log s' = log s.

Lemma same_trans s1 s2 s3 : same s1 s2 -> same s2 s3 -> same s1 s3.
Proof. unfold same. intros (-> & -> & -> & ->). done. Qed.

(** Whatever is allocated in addition to [h] when a copy succeeds; [h] alone when it fails. *)
Definition copies (h add : gmultiset Z) (s : sys (W := W)) (o : option (bool * sys)) : Prop :=
  exists ok s', o = Some (ok, s') /\ same s s' /\ heap s' = if (ok : bool) then h ⊎ add else h.

Lemma copy_headers_spec all done_ todo (s : sys (W := W)) h :
  heap s = h ⊎ {[+ sizeof_client +]} ⊎ {[+ array_size all +]} ⊎ strings done_ ->
  copies h ({[+ sizeof_client +]} ⊎ {[+ array_size all +]} ⊎ strings (done_ ++ todo)) s (copy_headers all done_ todo s).
Proof.
  revert done_ s. induction todo as [|x todo IH]; intros done_ s H; cbn [copy_headers].
  { exists true, s. split; [done|]. split; [done|]. rewrite app_nil_r, H. ms. }
  destruct (malloc_spec (strsize x.1) s) as (n & w1 & ->). set (s1 := set_world _ _).
  destruct (malloc_spec (strsize x.2) s1) as (v & w2 & ->). set (s2 := set_world _ _).
  assert (H2 : heap s2 = heap s ⊎ (if n then {[+ strsize x.1 +]} else ∅) ⊎ (if v then {[+ strsize x.2 +]} else ∅)).
  { unfold s2, s1. cbn [heap set_heap set_world]. destruct n, v; ms. }
  assert (Hsame : same s s2) by done. clearbody s2. clear s1. destruct n, v; cbn [andb].
  - destruct (IH (done_ ++ [x]) s2) as (ok & s' & -> & Hs' & Hh').
    { rewrite H2, H, strings_app. cbn [strings]. ms. }
    exists ok, s'. split; [done|]. split; [by eapply same_trans|]. by rewrite <- app_assoc in Hh'.
  - rewrite (kl_free_spec _ s2 (heap s)) by (rewrite H2; ms). rewrite !bind_Some_l.
    rewrite (free_headers_spec done_ _ (h ⊎ {[+ sizeof_client +]} ⊎ {[+ array_size all +]})) by (cbn [heap set_heap]; rewrite H; ms).
    rewrite bind_Some_l, (kl_free_spec _ _ (h ⊎ {[+ sizeof_client +]})) by (cbn [heap set_heap]; ms).
    rewrite bind_Some_l, (kl_free_spec _ _ h) by (cbn [heap set_heap]; ms). exists false. eexists. by split.
  - rewrite bind_Some_l, (kl_free_spec _ s2 (heap s)) by (rewrite H2; ms). rewrite !bind_Some_l.
    rewrite (free_headers_spec done_ _ (h ⊎ {[+ sizeof_client +]} ⊎ {[+ array_size all +]})) by (cbn [heap set_heap]; rewrite H; ms).
    rewrite bind_Some_l, (kl_free_spec _ _ (h ⊎ {[+ sizeof_client +]})) by (cbn [heap set_heap]; ms).
    rewrite bind_Some_l, (kl_free_spec _ _ h) by (cbn [heap set_heap]; ms). exists false. eexists. by split.
  - rewrite !bind_Some_l.
    rewrite (free_headers_spec done_ _ (h ⊎ {[+ sizeof_client +]} ⊎ {[+ array_size all +]})) by (rewrite H2, H; ms).
    rewrite bind_Some_l, (kl_free_spec _ _ (h ⊎ {[+ sizeof_client +]})) by (cbn [heap set_heap]; ms).
    rewrite bind_Some_l, (kl_free_spec _ _ h) by (cbn [heap set_heap]; ms). exists false. eexists. by split.
Qed.

Definition blocks (hs : list KlHttpClientHeader) (b : option (list Z)) : gmultiset Z :=
  {[+ sizeof_client +]} ⊎ array_block hs ⊎ strings hs ⊎ body_block b.

Lemma copy_all_spec hs (s : sys (W := W)) h : heap s = h ⊎ {[+ sizeof_client +]} -> copies h (blocks hs None) s (copy_all hs s).
Proof.
  intros H. unfold copy_all, blocks. destruct hs as [|x hs'] eqn:Ehs.
  { exists true, s. split; [done|]. split; [done|]. rewrite H. cbn [array_block strings body_block]. ms. }
  rewrite <- Ehs. replace (array_block hs) with ({[+ array_size hs +]} : gmultiset Z) by by subst hs. clear Ehs.
  destruct (malloc_spec (array_size hs) s) as ([] & w1 & ->).
  - destruct (copy_headers_spec hs [] hs (set_world w1 (set_heap (heap s ⊎ {[+ array_size hs +]}) s)) h) as (ok & s' & -> & Hs & Hh).
    { cbn [heap set_heap set_world]. rewrite H. cbn [strings]. ms. }
    exists ok, s'. split; [done|]. split; [done|]. rewrite Hh. cbn [app body_block]. destruct ok; [ms|done].
  - rewrite (kl_free_spec _ _ h) by (cbn [heap set_heap set_world]; rewrite H; ms). exists false. eexists. by split.
Qed.

Lemma copy_body_spec hs b (s : sys (W := W)) h : heap s = h ⊎ blocks hs None ->
  copies h (blocks hs (if no_body b then None else b)) s (copy_body hs b s).
Proof.
  intros H. unfold copy_body. destruct b as [[|x b]|]; cbn [no_body]; try by exists true, s.
  set (l := x :: b). destruct (malloc_spec (Z.of_nat (length l)) s) as ([] & w1 & ->).
  { exists true. eexists. split; [done|]. split; [done|]. cbn [heap set_heap set_world]. rewrite H. unfold blocks. cbn [body_block]. ms. }
  rewrite (free_headers_spec hs _ (h ⊎ {[+ sizeof_client +]} ⊎ array_block hs))
    by (cbn [heap set_heap set_world]; rewrite H; unfold blocks; cbn [body_block]; ms).
  rewrite bind_Some_l. destruct hs as [|y hs].
  - rewrite bind_Some_l, (kl_free_spec _ _ h) by (cbn [heap set_heap set_world array_block]; ms). exists false. eexists. by split.
  - rewrite (kl_free_spec _ _ (h ⊎ {[+ sizeof_client +]})) by (cbn [heap set_heap set_world array_block]; ms).
    rewrite bind_Some_l, (kl_free_spec _ _ h) by (cbn [heap set_heap]; ms). exists false. eexists. by split.
Qed.

Lemma alloc_spec redir method url hs b has_done (s : sys (W := W)) :
  exists r s', alloc_redirect_client redir method url hs b has_done s = Some (r, s') /\ same s s' /\
    match r with
    | None => heap s' = heap s
    | Some r =>
        heap s' = heap s ⊎ blocks hs (body r) /\ (length url < KL_URL_MAX)%nat /\
        r = mkRc (mkJob hs (max_hops redir) (policy redir) url has_done) None (if no_body b then None else b) 0 url method KL_ERR_NONE false false
    end.
Proof.
  unfold alloc_redirect_client. destruct (malloc_spec sizeof_client s) as ([] & w1 & ->); cbn [negb]; [|by eexists None, _].
  set (s1 := set_world _ _). assert (H1 : heap s1 = heap s ⊎ {[+ sizeof_client +]}) by done. assert (Hs1 : same s s1) by done. clearbody s1.
  destruct ((METHOD_CAP <=? length method)%nat || (KL_URL_MAX <=? length url)%nat) eqn:El.
  { rewrite (kl_free_spec _ s1 (heap s)) by (rewrite H1; ms). by eexists None, _. }
  apply orb_false_iff in El as [_ El]. apply Nat.leb_gt in El.
  destruct (copy_all_spec hs s1 (heap s) H1) as (ok & s2 & -> & Hs2 & H2). rewrite bind_Some_l.
  pose proof (same_trans _ _ _ Hs1 Hs2) as Hs12. destruct ok; cbn [negb]; [|by eexists None, _].
  destruct (copy_body_spec hs b s2 (heap s) H2) as (ok & s3 & -> & Hs3 & H3). rewrite bind_Some_l.
  pose proof (same_trans _ _ _ Hs12 Hs3) as Hs13. destruct ok; cbn [negb]; [|by eexists None, _].
  eexists (Some _), _. split; [done|]. by split.
Qed.

(** ** What is requested *)

Definition requests (l : list event) : list request := omap (fun e => match e with Requested rq => Some rq | _ => None end) l.
Definition told (l : list event) : nat := length (omap (fun e => match e with Completed e r => Some (e, r) | _ => None end) l).

Definition named (n : string) (h : KlHttpClientHeader) : Prop := lower h.1 = lower (bytes n).
Definition credential (h : KlHttpClientHeader) : Prop := named "Authorization" h \/ named "Cookie" h \/ named "Proxy-Authorization" h.
Definition about_body (h : KlHttpClientHeader) : Prop := named "Content-Type" h \/ named "Content-Length" h \/ named "Transfer-Encoding" h.

(** Same scheme security, and the same socket path or the same host, without case, and port. *)
Definition same_origin (a b : KlUrl) : Prop :=
  is_https a = is_https b /\ is_unix a = is_unix b /\
  if is_unix a then unix_path a = unix_path b else port a = port b /\ lower (host a) = lower (host b).

(** A request for the job of fetching [orig] with [hs], [m0] and [b0]. *)
Record safe (orig : list Z) (hs : list KlHttpClientHeader) (m0 : list Z) (b0 : option (list Z)) (rq : request) : Prop := {
  sf_sub : rq_headers rq `sublist_of` hs;
  sf_host : Forall (fun h => ~ named "Host" h) (rq_headers rq);
  sf_secret : forall a b, kl_url_parse orig = Some a -> kl_url_parse (rq_url rq) = Some b -> Exists credential (rq_headers rq) -> same_origin a b;
  sf_body : no_body (rq_body rq) = true -> Forall (fun h => ~ about_body h) (rq_headers rq);
  sf_what : rq_method rq = m0 /\ rq_body rq = b0 \/ rq_method rq = bytes "GET" /\ rq_body rq = None;
  sf_len : (length (rq_url rq) < KL_URL_MAX)%nat;
}.

(** Every request but the first follows a question to the policy about its URL, answered 0. *)
Definition vetted (l : list event) : Prop :=
  forall l1 rq l2, l = l1 ++ Requested rq :: l2 -> l1 = [] \/ last l1 = Some (Asked (rq_url rq) 0).

Record trace_ok (max : Z) (pol : bool) (orig : list Z) (hs : list KlHttpClientHeader) (m0 : list Z) (b0 : option (list Z)) (l : list event) : Prop := {
  tr_count : Z.of_nat (length (requests l)) <= max + 1;
  tr_safe : Forall (safe orig hs m0 b0) (requests l);
  tr_vetted : pol = true -> vetted l;
  tr_first : match requests l with [] => True | rq :: _ => rq_url rq = orig /\ rq_method rq = m0 /\ rq_body rq = b0 end;
}.

Lemma requests_app a b : requests (a ++ b) = requests a ++ requests b.
Proof. apply omap_app. Qed.

Lemma told_app a b : told (a ++ b) = (told a + told b)%nat.
Proof. unfold told. by rewrite omap_app, length_app. Qed.

Lemma vetted_snoc l e : vetted l -> (forall rq, e = Requested rq -> l = [] \/ last l = Some (Asked (rq_url rq) 0)) -> vetted (l ++ [e]).
Proof.
  intros Hl He l1 rq l2. destruct l2 as [|x l2 _] using rev_ind.
  - intros E. apply app_inj_tail in E as [-> ->]. by apply He.
  - rewrite app_comm_cons, app_assoc. intros E. apply app_inj_tail in E as [-> _]. by eapply Hl.
Qed.

Lemma trace_other max pol orig hs m0 b0 l e : (forall rq, e <> Requested rq) -> trace_ok max pol orig hs m0 b0 l -> trace_ok max pol orig hs m0 b0 (l ++ [e]).
Proof.
  intros He [H1 H2 H3 H4]. assert (Hr : requests (l ++ [e]) = requests l).
  { rewrite requests_app. destruct e; [by destruct (He rq)|apply app_nil_r..]. }
  split; rewrite ?Hr; auto. intros Hp. apply vetted_snoc; [by apply H3|]. intros rq ->. by destruct (He rq).
Qed.

Lemma trace_hop max pol orig hs m0 b0 l rq : trace_ok max pol orig hs m0 b0 l -> Z.of_nat (length (requests l)) <= max ->
  safe orig hs m0 b0 rq -> (requests l = [] -> rq_url rq = orig /\ rq_method rq = m0 /\ rq_body rq = b0) ->
  (pol = true -> l = [] \/ last l = Some (Asked (rq_url rq) 0)) -> trace_ok max pol orig hs m0 b0 (l ++ [Requested rq]).
Proof.
  intros [H1 H2 H3 H4] Hc Hs Hf Hp. split; rewrite ?requests_app; cbn [requests omap list_omap].
  - rewrite length_app. simpl. lia.
  - apply Forall_app. split; [done|]. by apply Forall_singleton.
  - intros E. apply vetted_snoc; [by apply H3|]. intros rq' [= <-]. by apply Hp.
  - destruct (requests l); [by apply Hf|done].
Qed.

(** ** A request of a hop *)

Lemma str_is_named n (h : KlHttpClientHeader) : Forall is_cbyte h.1 -> Forall is_cbyte (bytes n) -> str_is h.1 (bytes n) = true <-> named n h.
Proof. intros Hh Hn. unfold str_is, named, lower. rewrite Z.eqb_eq. by apply strcasecmp_zero. Qed.

Lemma parse_host_clean url u : kl_url_parse url = Some u -> Forall Url.clean (host u).
Proof.
  unfold kl_url_parse. destruct (url_scheme url) as [[[[https ws] unix] rest]|]; [|done]. rewrite bind_Some_l. destruct unix.
  - destruct (scan auth_stop rest) as [auth rest2]. destruct (strlen auth =? 0); [done|].
    destruct (pct_decode auth 0 KL_URL_UNIX_PATH_MAX) as [dec|]; [|done]. rewrite bind_Some_l. destruct (has_crlf dec); [done|].
    destruct (url_path rest2); [|done]. by intros [= <-].
  - destruct (url_host rest) as [[h rest2]|]; [|done]. rewrite bind_Some_l. destruct (strlen h =? 0); [done|].
    destruct (has_space_or_ctl h) eqn:E; [done|]. apply has_space_or_ctl_false in E.
    destruct (url_port https rest2) as [[prt rest3]|]; [|done]. rewrite bind_Some_l. destruct (url_path rest3); [|done]. by intros [= <-].
Qed.

Lemma lower_clean c : Url.clean c -> ascii_lower c <> 0.
Proof. unfold Url.clean, ascii_lower. intros [H _]. case_if; breflect; [rewrite u8_small|]; lia. Qed.

Lemma strncasecmp_equal a b : Forall Url.clean a -> length a = length b -> kl_ascii_strncasecmp a b (length a) = 0 <-> lower a = lower b.
Proof.
  intros Ha. revert b. induction Ha as [|x a Hx _ IH]; intros [|y b] Hl; try done. cbn [length kl_ascii_strncasecmp deref tail].
  injection Hl as Hl. apply lower_clean in Hx. unfold lower in *. cbn [fmap list_fmap]. destruct (Z.eqb_spec (ascii_lower x) (ascii_lower y)) as [E|E]; cbn [negb].
  - destruct (Z.eqb_spec (ascii_lower x) 0); [done|]. rewrite E, IH by done. split; congruence.
  - split; [lia|]. congruence.
Qed.

Lemma cross_origin_spec a b : Forall Url.clean (host a) -> is_cross_origin a b = false <-> same_origin a b.
Proof.
  intros Ha. unfold is_cross_origin, same_origin. destruct (Bool.eqb_spec (is_https a) (is_https b)); cbn [negb]; [|split; [done|by intros []]].
  destruct (Bool.eqb_spec (is_unix a) (is_unix b)); cbn [negb]; [|split; [done|by intros (_ & ? & _)]].
  destruct (is_unix a).
  - rewrite negb_false_iff, span_eqb_true. tauto.
  - destruct (Z.eqb_spec (port a) (port b)); cbn [negb]; [|split; [done|by intros (_ & _ & ? & _)]].
    destruct (Nat.eqb_spec (length (host a)) (length (host b))) as [El|El]; cbn [negb]; cycle 1.
    { split; [done|]. intros (_ & _ & _ & E). apply (f_equal length) in E. unfold lower in E. by rewrite !length_fmap in E. }
    destruct (Nat.eqb_spec (length (host a)) 0) as [E0|E0].
    { destruct (host a), (host b); try done. }
    rewrite negb_false_iff, Z.eqb_eq, strncasecmp_equal by done. tauto.
Qed.

Lemma drop_spec h bd co : Forall is_cbyte h.1 -> should_drop_header h.1 bd co = false ->
  ~ named "Host" h /\ (co = true -> ~ credential h) /\ (bd = true -> ~ about_body h).
Proof.
  intros Hh. assert (Hn : forall n, forallb (fun c => (1 <=? c) && (c <=? 255)) (bytes n) = true -> str_is h.1 (bytes n) = false -> ~ named n h).
  { intros n Hb E Hx. apply str_is_named in Hx; [congruence|done|by apply cbytes_ok]. }
  unfold should_drop_header, credential, about_body. rewrite !orb_false_iff, !andb_false_iff, !orb_false_iff.
  intros ((H1 & H2) & H3). split; [by apply Hn|]. split; intros ->.
  - destruct H2 as [?|((H2a & H2b) & H2c)]; [done|]. intros [E|[E|E]]; revert E; by apply Hn.
  - destruct H3 as [?|((H3a & H3b) & H3c)]; [done|]. intros [E|[E|E]]; revert E; by apply Hn.
Qed.

Lemma filter_sublist {A} (f : A -> bool) l : List.filter f l `sublist_of` l.
Proof. induction l as [|x l IH]; cbn; [constructor|]. destruct (f x); by constructor. Qed.

Lemma hop_safe first orig hs m0 b0 m cur b : Forall (fun h : KlHttpClientHeader => Forall is_cbyte h.1) hs ->
  (first = true -> cur = orig) -> (length cur < KL_URL_MAX)%nat -> (m = m0 /\ b = b0 \/ m = bytes "GET" /\ b = None) ->
  safe orig hs m0 b0 (hop_request first orig hs m cur b).
Proof.
  intros Hhs Hf Hl Hw. set (co := cross_from first orig cur).
  assert (Hd : Forall (fun h => ~ named "Host" h /\ (co = true -> ~ credential h) /\ (no_body b = true -> ~ about_body h)) (rq_headers (hop_request first orig hs m cur b))).
  { apply List.Forall_forall. intros h Hin. apply filter_In in Hin as [Hin E]. apply negb_true_iff in E. apply drop_spec; [|exact E].
    rewrite List.Forall_forall in Hhs. by apply Hhs. }
  split; try done.
  - apply filter_sublist.
  - eapply Forall_impl; [exact Hd|]. by intros h [? _].
  - cbn [hop_request rq_url]. intros ua ub Ha Hb Hex. apply cross_origin_spec; [by eapply parse_host_clean|].
    destruct (is_cross_origin ua ub) eqn:E; [|done]. exfalso.
    assert (Hco : co = true).
    { unfold co, cross_from. destruct first; [|by rewrite Ha, Hb]. rewrite (Hf eq_refl), Ha in Hb. injection Hb as ->.
      rewrite (proj2 (cross_origin_spec ub ub (parse_host_clean _ _ Ha))) in E; [done|]. unfold same_origin. by destruct (is_unix ub). }
    apply Exists_exists in Hex as (h & Hin & Hc). rewrite Forall_forall in Hd. destruct (Hd h Hin) as (_ & Hx & _). by apply Hx.
  - cbn [hop_request rq_body]. intros E. eapply Forall_impl; [exact Hd|]. intros h (_ & _ & Hx). by apply Hx.
Qed.

(** ** The hops of a job *)

Definition has_policy (p : option (list Z -> W -> Z * W)) : bool := match p with Some _ => true | None => false end.

(** Where a job stands before its next request. *)
Record at_hop (max : Z) (p : option (list Z -> W -> Z * W)) (orig : list Z) (hs : list KlHttpClientHeader) (m0 : list Z) (b0 : option (list Z))
    (first : bool) (m cur : list Z) (b : option (list Z)) (l : list event) : Prop := {
  ah_trace : trace_ok max (has_policy p) orig hs m0 b0 l;
  ah_first : if first then l = [] /\ cur = orig /\ m = m0 /\ b = b0
             else requests l <> [] /\ (has_policy p = true -> last l = Some (Asked cur 0));
  ah_len : (length cur < KL_URL_MAX)%nat;
  ah_what : m = m0 /\ b = b0 \/ m = bytes "GET" /\ b = None;
}.

Lemma at_hop_request max p orig hs m0 b0 first m cur b l : Forall (fun h : KlHttpClientHeader => Forall is_cbyte h.1) hs ->
  at_hop max p orig hs m0 b0 first m cur b l -> Z.of_nat (length (requests l)) <= max ->
  trace_ok max (has_policy p) orig hs m0 b0 (l ++ [Requested (hop_request first orig hs m cur b)]).
Proof.
  intros Hhs [Ht Hf Hl Hw] Hc. apply trace_hop; [done|done| | |].
  - apply hop_safe; [done| |done|done]. intros ->. apply Hf.
  - intros Hn. destruct first; [destruct Hf as (_ & -> & -> & ->); done|]. by destruct Hf.
  - intros Hp. destruct first; [left; apply Hf|right]. by apply Hf.
Qed.

(** After the answer to a request: the policy agreed to [next]. *)
Lemma at_hop_next max p orig hs m0 b0 m m' b b' next w w' asked l :
  trace_ok max (has_policy p) orig hs m0 b0 l -> requests l <> [] -> (length next < KL_URL_MAX)%nat ->
  (m = m0 /\ b = b0 \/ m = bytes "GET" /\ b = None) -> (m' = m /\ b' = b \/ m' = bytes "GET" /\ b' = None) ->
  ask p next w = (0, w', asked) ->
  at_hop max p orig hs m0 b0 false m' next b' (l ++ asked) /\ requests (l ++ asked) = requests l.
Proof.
  intros Ht Hr Hl Hw Hw' Ha. unfold ask in Ha. destruct p as [f|].
  - destruct (f next w) as [rc w2]. injection Ha as -> <- <-. assert (Hq : requests (l ++ [Asked next 0]) = requests l) by (rewrite requests_app; apply app_nil_r).
    split; [|done]. split; [by apply trace_other| |done|destruct Hw' as [[-> ->]|[-> ->]]; auto]. rewrite Hq. split; [done|]. intros _. apply last_snoc.
  - injection Ha as <- <-. rewrite app_nil_r. split; [|done]. split; [done|by split|done|destruct Hw' as [[-> ->]|[-> ->]]; auto].
Qed.

Lemma ask_trace max pol orig hs m0 b0 (p : option (list Z -> W -> Z * W)) next w rc w' asked l : ask p next w = (rc, w', asked) ->
  trace_ok max pol orig hs m0 b0 l -> trace_ok max pol orig hs m0 b0 (l ++ asked).
Proof.
  unfold ask. destruct p as [f|]; [destruct (f next w) as [x y]|]; intros [= <- <- <-] H; [|by rewrite app_nil_r]. by apply trace_other.
Qed.

Lemma resolve_short base loc n u : kl_url_resolve base loc n = Some u -> (length u < n)%nat.
Proof.
  unfold kl_url_resolve. destruct (n =? 0)%nat; [done|]. destruct (strlen loc =? 0); [done|].
  destruct (_ || _).
  { destruct (Nat.leb_spec n (strip_fragment loc)); [done|]. intros [= <-]. rewrite length_take. lia. }
  destruct (_ && _).
  { destruct (kl_strchr base c_colon) as [c|]; [|done]. rewrite bind_Some_l. destruct (_ && _); [done|].
    destruct (Nat.leb_spec n (length base - length c + 1 + strip_fragment loc)); [done|]. intros [= <-].
    rewrite length_app, !length_take. lia. }
  destruct (deref loc =? c_slash); [|done]. destruct (kl_strstr base _) as [a|]; [|done]. rewrite bind_Some_l.
  destruct (Nat.leb_spec n (length base - length (scan auth_stop (drop 3 a)).2 + strip_fragment loc)); [done|]. intros [= <-].
  rewrite length_app, !length_take. lia.
Qed.

Lemma sync_loop_trace max p orig hs m0 b0 n first m cur b w l : Forall (fun h : KlHttpClientHeader => Forall is_cbyte h.1) hs ->
  at_hop max p orig hs m0 b0 first m cur b l -> Z.of_nat (length (requests l) + n) = max + 1 ->
  trace_ok max (has_policy p) orig hs m0 b0 (l ++ (sync_loop n first p orig hs m cur b w).2).
Proof.
  intros Hhs. revert first m cur b w l. induction n as [|n IH]; intros first m cur b w l Hat Hn; cbn [sync_loop]; [rewrite app_nil_r; apply Hat|].
  set (rq := hop_request first orig hs m cur b). pose proof (at_hop_request _ _ _ _ _ _ _ _ _ _ _ Hhs Hat ltac:(lia)) as Ht. fold rq in Ht.
  destruct (client_request w rq) as [[rc resp] w1]. destruct (negb (rc =? 0)); [done|]. destruct (negb (is_redirect (status resp))); [done|].
  destruct (find_location (resp_headers resp)) as [loc|]; [|done].
  destruct (kl_url_resolve cur loc KL_URL_MAX) as [next|] eqn:Er; [|done]. apply resolve_short in Er.
  destruct (ask p next w1) as [[ans w2] asked] eqn:Ea. pose proof (ask_trace _ _ _ _ _ _ _ _ _ _ _ _ _ Ea Ht) as Ht2. rewrite <- app_assoc in Ht2.
  destruct (Z.eqb_spec ans 0) as [->|]; cbn [negb]; [|done]. destruct (Nat.leb_spec KL_URL_MAX (length next)); [lia|].
  set (m' := if method_changes_to_get _ _ then _ else _). set (b' := if method_changes_to_get _ _ then _ else _).
  destruct (at_hop_next max p orig hs m0 b0 m m' b b' next w1 w2 asked (l ++ [Requested rq])) as [Hat2 Hreq]; [done| |done|apply Hat| |done|].
  { rewrite requests_app. intros E. by apply app_nil in E as [_ ?]. }
  { unfold m', b'. destruct (method_changes_to_get _ _); auto. }
  specialize (IH false m' next b' w2 _ Hat2). rewrite Hreq, requests_app, length_app in IH. specialize (IH ltac:(simpl; lia)).
  destruct (sync_loop n false p orig hs m' next b' w2) as [[[rc3 resp3] w3] log3]. cbn [snd] in *. by rewrite <- !app_assoc in *.
Qed.

(** ** The asynchronous client *)

Section async.
Context (h0 : gmultiset Z) (J : Job (W := W)) (m0 : list Z) (b0 : option (list Z)).

(** The client exists and owns its blocks and at most one HTTP client; it does not exist, and
    nothing is left of it. *)
Record live (s : sys) (r : KlHttpRedirectClient (W := W)) : Prop := {
  lv_rc : rc s = Some r;
  lv_heap : heap s = h0 ⊎ blocks (headers J) (body r);
  lv_clients : clients s = match inner r with Some _ => 1%nat | None => 0%nat end;
  lv_flight : flight s = true -> inner r <> None;
  lv_job : job r = J;
  lv_starting : starting r = false;
}.

Definition gone (s : sys (W := W)) : Prop := rc s = None /\ heap s = h0 /\ clients s = 0%nat /\ flight s = false.

Lemma redirect_free_spec s r : live s r -> exists s', kl_http_redirect_free s = Some s' /\ gone s' /\ log s' = log s.
Proof.
  intros [H1 H2 H3 H4 H5 H6]. unfold kl_http_redirect_free. rewrite H1, bind_Some_l, H5.
  set (s1 := match inner r with Some _ => free_client s | None => s end).
  assert (Hs1 : heap s1 = heap s /\ clients s1 = 0%nat /\ flight s1 = false /\ log s1 = log s).
  { unfold s1. destruct (inner r); [cbn; by rewrite H3|]. split; [done|]. split; [done|]. split; [|done]. destruct (flight s); [by destruct H4|done]. }
  destruct Hs1 as (Hh & Hc & Hf & Hlog). clearbody s1. rewrite H2 in Hh. unfold blocks in Hh.
  rewrite (free_headers_spec (headers J) s1 (h0 ⊎ {[+ sizeof_client +]} ⊎ array_block (headers J) ⊎ body_block (body r))) by (rewrite Hh; ms).
  rewrite bind_Some_l. set (s2 := set_heap _ s1).
  assert (H7 : exists s3, (match headers J with [] => Some s2 | hs => kl_free (array_size hs) s2 end) = Some s3 /\
    heap s3 = h0 ⊎ {[+ sizeof_client +]} ⊎ body_block (body r) /\ same s1 s3).
  { destruct (headers J) as [|x hs]; [exists s2; split; [done|]; split; [cbn [s2 heap set_heap array_block]; ms|done]|].
    rewrite (kl_free_spec _ s2 (h0 ⊎ {[+ sizeof_client +]} ⊎ body_block (body r))) by (cbn [s2 heap set_heap array_block]; ms). by eexists. }
  destruct H7 as (s3 & -> & Hh3 & Hs3). rewrite bind_Some_l.
  assert (H8 : exists s4, (match body r with Some b => kl_free (Z.of_nat (length b)) s3 | None => Some s3 end) = Some s4 /\
    heap s4 = h0 ⊎ {[+ sizeof_client +]} /\ same s3 s4).
  { destruct (body r) as [b|]; cbn [body_block] in Hh3; [|exists s3; split; [done|]; split; [rewrite Hh3; ms|done]].
    rewrite (kl_free_spec _ s3 (h0 ⊎ {[+ sizeof_client +]})) by (rewrite Hh3; ms). by eexists. }
  destruct H8 as (s4 & -> & Hh4 & Hs4). rewrite bind_Some_l, (kl_free_spec _ s4 h0) by (rewrite Hh4; ms). rewrite bind_Some_l.
  destruct (same_trans _ _ _ Hs3 Hs4) as (E1 & E2 & _ & E4). eexists. split; [done|]. unfold gone. cbn. by rewrite E1, E2, E4.
Qed.

Lemma redirect_cancel_spec s r : live s r -> exists s' r', kl_http_redirect_cancel s = Some s' /\ live s' r' /\ flight s' = false /\ log s' = log s.
Proof.
  intros [H1 H2 H3 H4 H5 H6]. unfold kl_http_redirect_cancel. rewrite H1, bind_Some_l.
  destruct (inner r) as [c|] eqn:Ei; (destruct (decide _); do 2 eexists; (split; [done|]); (split; [split; unfold set_rc_error, put; cbn; try done; by rewrite ?Ei|]); split; try done).
  all: destruct (flight s) eqn:Ef; [|by cbn]; by destruct (H4 eq_refl).
Qed.

Lemma actions_spec acts s r : live s r -> flight s = false ->
  exists s', run_actions acts s = Some s' /\ (gone s' \/ exists r', live s' r') /\ flight s' = false /\ log s' = log s.
Proof.
  revert s r. induction acts as [|[] acts IH]; intros s r Hl Hf; cbn [run_actions]; [exists s; split; [done|]; split; [by right; exists r|done]| |].
  - destruct (redirect_cancel_spec s r Hl) as (s1 & r1 & -> & Hl1 & Hf1 & Hg). rewrite bind_Some_l, <- Hg. by eapply IH.
  - destruct (redirect_free_spec s r Hl) as (s1 & -> & Hg & Hlog). exists s1. split; [done|]. split; [by left|]. split; [apply Hg|done].
Qed.

(** The end of a job: the caller was told, if it wants to know. *)
Definition finished (s s' : sys (W := W)) : Prop :=
  (gone s' \/ exists r', live s' r') /\ flight s' = false /\
  exists e x, log s' = log s ++ if on_done J then [Completed e x] else [].

Lemma tell_spec s r : live s r -> flight s = false -> exists s', tell s = Some s' /\ finished s s'.
Proof.
  intros Hl Hf. unfold tell. rewrite (lv_rc _ _ Hl), bind_Some_l, (lv_job _ _ Hl). destruct (on_done J) eqn:Ed.
  - destruct (done_actions (world s)) as [acts w]. set (ev := Completed _ _).
    destruct (actions_spec acts (emit [ev] (set_world w s)) r) as (s' & -> & Hc & Hf' & Hlog); [destruct Hl; by split|done|].
    exists s'. split; [done|]. split; [done|]. split; [done|]. rewrite Ed, Hlog. do 2 eexists. unfold ev. reflexivity.
  - exists s. split; [done|]. split; [by right; exists r|]. split; [done|]. rewrite Ed. exists KL_ERR_NONE, None. by rewrite app_nil_r.
Qed.

Lemma fail_with_spec e s r : live s r -> flight s = false -> exists s', fail_with e s = Some s' /\ finished s s'.
Proof.
  intros Hl Hf. unfold fail_with. rewrite (lv_rc _ _ Hl), bind_Some_l.
  destruct (tell_spec (put (set_rc_error e r) s) (set_rc_error e r)) as (s' & -> & Hfin); [destruct Hl; by split|done|]. eauto.
Qed.

Definition job_trace (l : list event) : Prop := trace_ok (job_max J) (has_policy (job_policy J)) (original_url J) (headers J) m0 b0 l.

(** A request was made and its answer is awaited or just came in. *)
Record hopping (s : sys (W := W)) (r : KlHttpRedirectClient (W := W)) : Prop := {
  hp_told : told (log s) = 0%nat;
  hp_trace : job_trace (log s);
  hp_count : Z.of_nat (length (requests (log s))) = redirects_done r + 1;
  hp_range : 0 <= redirects_done r <= job_max J;
  hp_len : (length (current_url r) < KL_URL_MAX)%nat;
  hp_what : current_method r = m0 /\ body r = b0 \/ current_method r = bytes "GET" /\ body r = None;
}.

Record settled (s : sys (W := W)) : Prop := {
  se_mem : gone s \/ exists r, live s r;
  se_trace : job_trace (log s);
  se_flight : flight s = true -> exists r, rc s = Some r /\ hopping s r;
  se_told : flight s = false -> told (log s) = if on_done J then 1%nat else 0%nat;
}.

Lemma finished_settled s s' : told (log s) = 0%nat -> job_trace (log s) -> finished s s' -> settled s'.
Proof.
  intros Ht Htr (Hm & Hf & e & x & Hlog). split; [done| |congruence|].
  - rewrite Hlog. destruct (on_done J); [by apply trace_other|by rewrite app_nil_r].
  - intros _. rewrite Hlog, told_app, Ht. by destruct (on_done J).
Qed.

Lemma start_spec (k : sys -> option sys) first s r : Forall (fun h : KlHttpClientHeader => Forall is_cbyte h.1) (headers J) ->
  live s r -> inner r = None -> flight s = false -> told (log s) = 0%nat ->
  at_hop (job_max J) (job_policy J) (original_url J) (headers J) m0 b0 (redirects_done r =? 0) (current_method r) (current_url r) (body r) (log s) ->
  Z.of_nat (length (requests (log s))) = redirects_done r -> 0 <= redirects_done r <= job_max J ->
  (first = false -> forall s1 r1, live s1 r1 -> flight s1 = false -> hopping s1 r1 -> redirects_done r1 = redirects_done r -> exists s', k s1 = Some s' /\ settled s') ->
  exists ret s', start_next_request k first s = Some (ret, s') /\
    (ret = 0 /\ settled s' \/
     ret = -1 /\ exists r', live s' r' /\ flight s' = false /\ told (log s') = 0%nat /\ job_trace (log s')).
Proof.
  intros Hhs [H1 H2 H3 H4 H5 H6] Hi Hf Ht Hat Hc Hr Hk. unfold start_next_request. rewrite H1, bind_Some_l, H5.
  set (rq := hop_request _ _ _ _ _ _). pose proof (at_hop_request _ _ _ _ _ _ _ _ _ _ _ Hhs Hat ltac:(lia)) as Htr. fold rq in Htr. fold (job_trace (log s ++ [Requested rq])) in Htr.
  rewrite Hi in H3. cbn [emit put set_rc world]. destruct (client_start (world s) rq) as [[handle inside] w].
  set (dp := match inside with Some _ => true | None => false end).
  set (s1 := put (set_flags true dp r) (set_world w (emit [Requested rq] s))).
  replace (match inside with Some _ => _ | None => _ end) with (Some s1) by by destruct inside. rewrite bind_Some_l. cbn [s1 rc put set_rc]. rewrite bind_Some_l.
  assert (Hreq : Z.of_nat (length (requests (log s ++ [Requested rq]))) = redirects_done r + 1) by (by rewrite requests_app, length_app, Nat2Z.inj_add, Hc).
  assert (Htold : told (log s ++ [Requested rq]) = 0%nat) by by rewrite told_app, Ht.
  destruct handle; cbn [negb].
  - cbn [done_pending set_flags set_inner]. destruct dp eqn:Edp.
    + destruct first.
      { eexists (-1), _. split; [done|]. right. split; [done|]. eexists. split; [|done]. split; cbn; try done; by rewrite ?H3. }
      destruct inside as [c|]; [|done]. cbn [default].
      destruct (Hk eq_refl (put (set_flags false false (set_inner (Some c) (set_flags false true (set_flags true true r)))) (set_flight (S (clients s1)) false s1))
        (set_flags false false (set_inner (Some c) (set_flags false true (set_flags true true r))))) as (s' & Hks & Hs'); [| | | |].
      * split; cbn; try done; by rewrite ?H3.
      * done.
      * split; cbn; try done; apply Hat.
      * done.
      * unfold s1 in *. cbn in Hks |- *. rewrite Hks, bind_Some_l. eexists _, _. split; [done|]. by left.
    + destruct inside as [c|]; [done|]. eexists _, _. split; [done|]. left. split; [done|]. split; cbn; try done.
      * right. eexists. split; cbn; try done; by rewrite ?H3.
      * intros _. eexists. split; [done|]. split; cbn; try done; apply Hat.
  - eexists _, _. split; [done|]. right. split; [done|]. exists (set_flags false dp r). split; [|done]. split; unfold set_flags, put; cbn; rewrite ?H3, ?Hi, ?Hf; done.
Qed.

Lemma free_client_live s r : live s r -> inner r <> None -> live (put (set_inner None r) (free_client s)) (set_inner None r).
Proof. intros [H1 H2 H3 H4 H5 H6] Hi. destruct (inner r); [|done]. split; cbn; try done. by rewrite H3. Qed.

(** The method becomes GET, and the copy of the body is released. *)
Lemma change_method_live s r (changes : bool) : live s r ->
  exists s', (if changes then drop_body r s else Some s) = Some s' /\ live (put (if changes then set_get r else r) s') (if changes then set_get r else r) /\
    flight s' = flight s /\ log s' = log s /\ world s' = world s.
Proof.
  intros [H1 H2 H3 H4 H5 H6]. destruct changes; [|exists s; split; [done|]; split; [by split|done]].
  unfold drop_body. destruct (body r) as [b|] eqn:Eb.
  - rewrite (kl_free_spec _ s (h0 ⊎ blocks (headers J) None)) by (rewrite H2; unfold blocks; cbn [body_block]; ms).
    eexists. split; [done|]. split; [by split|done].
  - exists s. split; [done|]. split; [|done]. by split.
Qed.

Lemma on_done_spec fuel s r : Forall (fun h : KlHttpClientHeader => Forall is_cbyte h.1) (headers J) ->
  live s r -> flight s = false -> hopping s r -> (Z.to_nat (job_max J - redirects_done r) <= fuel)%nat ->
  exists s', internal_on_done fuel s = Some s' /\ settled s'.
Proof.
  intros Hhs. revert s r. induction fuel as [|fuel IH]; intros s r Hl Hf Hh Hfu; cbn [internal_on_done];
    rewrite (lv_rc _ _ Hl), bind_Some_l, (lv_starting _ _ Hl), (lv_job _ _ Hl).
  all: assert (Hfail : forall e, exists s', fail_with e s = Some s' /\ settled s') by
    (intros e; destruct (fail_with_spec e s r Hl Hf) as (s' & Hs' & Hfin); exists s'; split; [done|]; apply (finished_settled s); [apply Hh|apply Hh|done]).
  all: assert (Htell : exists s', tell s = Some s' /\ settled s') by
    (destruct (tell_spec s r Hl Hf) as (s' & Hs' & Hfin); exists s'; split; [done|]; apply (finished_settled s); [apply Hh|apply Hh|done]).
  all: destruct (negb (kl_http_client_error (inner r) =? 0)); [apply Hfail|].
  all: destruct (kl_http_client_response (inner r)) as [resp|] eqn:Er; [|apply Hfail].
  all: destruct (negb (is_redirect (status resp))); [apply Htell|].
  all: destruct (Z.leb_spec (job_max J) (redirects_done r)); [apply Hfail|].
  { lia. }
  destruct (find_location (resp_headers resp)) as [loc|]; [|apply Htell].
  destruct (kl_url_resolve (current_url r) loc KL_URL_MAX) as [next|] eqn:Eu; [|apply Hfail]. apply resolve_short in Eu. clear Hfail Htell.
  destruct (ask (job_policy J) next (world s)) as [[ans w] asked] eqn:Ea. set (s1 := emit asked (set_world w s)).
  pose proof (ask_trace _ _ _ _ _ _ _ _ _ _ _ _ _ Ea (hp_trace _ _ Hh)) as Ht1. fold (job_trace (log s ++ asked)) in Ht1.
  assert (Hl1 : live s1 r) by (destruct Hl; by split).
  assert (Htold1 : told (log s1) = 0%nat) by (cbn [s1 log emit set_world]; rewrite told_app, (hp_told _ _ Hh); unfold ask in Ea; repeat case_match; by simplify_eq).
  destruct (Z.eqb_spec ans 0) as [->|]; cbn [negb]; cycle 1.
  { destruct (fail_with_spec KL_ERR_REDIRECT_REFUSED s1 r Hl1 Hf) as (s' & Hs' & Hfin). exists s'. split; [done|]. by apply (finished_settled s1). }
  set (ch := method_changes_to_get (status resp) (current_method r)).
  destruct (change_method_live s1 r ch Hl1) as (s2 & -> & Hl2 & Hf2 & Hlog2 & _). rewrite bind_Some_l. set (r2 := if ch then set_get r else r) in *.
  destruct (Nat.leb_spec KL_URL_MAX (length next)); [lia|].
  assert (Hr2 : redirects_done r2 = redirects_done r /\ inner r2 = inner r) by (unfold r2; by destruct ch). destruct Hr2 as [Hd2 Hi2].
  assert (Hi : inner r2 <> None) by (rewrite Hi2; intros E; by rewrite E in Er).
  set (r3 := set_hops (redirects_done r2 + 1) (set_inner None (set_url next r2))). set (s3 := put r3 (free_client s2)).
  destruct (at_hop_next (job_max J) (job_policy J) (original_url J) (headers J) m0 b0 (current_method r) (current_method r2) (body r) (body r2) next (world s) w asked (log s))
    as [Hat Hreq]; [apply Hh| |done|apply Hh|unfold r2; destruct ch; auto|done|].
  { intros E. pose proof (hp_count _ _ Hh) as Hc. rewrite E in Hc. pose proof (hp_range _ _ Hh). simpl in Hc. lia. }
  assert (Hlog3 : log s3 = log s ++ asked) by exact Hlog2. pose proof (hp_range _ _ Hh) as Hrange.
  destruct (start_spec (internal_on_done fuel) false s3 r3 Hhs) as (ret & s' & -> & Hret).
  - pose proof (free_client_live _ _ Hl2 Hi) as [L1 L2 L3 L4 L5 L6]. by split.
  - done.
  - done.
  - by rewrite Hlog3.
  - rewrite Hlog3. cbn [r3 redirects_done set_hops current_method set_inner set_url current_url body]. rewrite Hd2.
    destruct (Z.eqb_spec (redirects_done r + 1) 0); [lia|]. exact Hat.
  - rewrite Hlog3, Hreq, (hp_count _ _ Hh). cbn [r3 redirects_done set_hops]. by rewrite Hd2.
  - cbn [r3 redirects_done set_hops]. rewrite Hd2. lia.
  - intros _ s4 r4 Hl4 Hf4 Hh4 Hd4. apply (IH s4 r4); [done|done|done|]. rewrite Hd4. cbn [r3 redirects_done set_hops]. rewrite Hd2. lia.
  - rewrite bind_Some_l. destruct Hret as [[-> Hs']|(-> & r' & Hl' & Hf' & Ht' & Htr')]; cbn [Z.eqb negb]; [by exists s'|].
    destruct (fail_with_spec KL_ERR_IO s' r' Hl' Hf') as (s4 & -> & Hfin). exists s4. split; [done|]. by apply (finished_settled s').
Qed.

End async.

(** What happens to a started client: its HTTP client completes, the caller cancels or frees it. *)
Inductive op := OComplete (c : KlHttpClient) | OCancel | OFree.

(** Only a client that is running completes; a freed one is not used any more. *)
Definition run_op (o : op) (s : sys (W := W)) : option sys :=
  match rc s with
  | None => Some s
  | Some r =>
      match o with
      | OComplete c =>
          if flight s then internal_on_done (hops_left s) (put (set_inner (Some c) r) (set_flight (clients s) false s)) else Some s
      | OCancel => kl_http_redirect_cancel s
      | OFree => kl_http_redirect_free s
      end
  end.

Fixpoint run_ops (os : list op) (s : sys (W := W)) : option sys :=
  match os with [] => Some s | o :: os => s ← run_op o s; run_ops os s end.

Definition only_completes (os : list op) : Prop := Forall (fun o => match o with OComplete _ => True | _ => False end) os.

Section running.
Context (h0 : gmultiset Z) (J : Job (W := W)) (m0 : list Z) (b0 : option (list Z)).
Context (Hhs : Forall (fun h : KlHttpClientHeader => Forall is_cbyte h.1) (headers J)).

Record steady (s : sys (W := W)) : Prop := {
  sy_mem : gone h0 s \/ exists r, live h0 J s r;
  sy_trace : job_trace J m0 b0 (log s);
  sy_flight : flight s = true -> exists r, rc s = Some r /\ hopping J m0 b0 s r;
  sy_told : (told (log s) <= 1)%nat;
}.

Lemma settled_steady s : settled h0 J m0 b0 s -> steady s.
Proof.
  intros [H1 H2 H3 H4]. split; try done. destruct (flight s).
  - destruct (H3 eq_refl) as (r & _ & Hh). rewrite (hp_told _ _ _ _ _ Hh). lia.
  - rewrite (H4 eq_refl). destruct (on_done J); lia.
Qed.

Lemma complete_settled c s : flight s = true -> steady s -> exists s', run_op (OComplete c) s = Some s' /\ settled h0 J m0 b0 s'.
Proof.
  intros Hf [H1 H2 H3 H4]. destruct (H3 Hf) as (r & Hr & Hh). unfold run_op. rewrite Hr, Hf.
  destruct H1 as [(E & _)|(r' & Hl)]; [congruence|]. assert (r' = r) as -> by (pose proof (lv_rc _ _ _ _ Hl); congruence).
  apply (on_done_spec h0 J m0 b0 _ _ (set_inner (Some c) r)); [done| |done| |].
  - pose proof (lv_flight _ _ _ _ Hl Hf) as Hi. destruct Hl as [L1 L2 L3 L4 L5 L6]. destruct (inner r); [|done]. by split.
  - by destruct Hh.
  - unfold hops_left. rewrite Hr, (lv_job _ _ _ _ Hl). done.
Qed.

Lemma run_op_steady o s : steady s -> exists s', run_op o s = Some s' /\ steady s'.
Proof.
  intros Hs. pose proof Hs as [H1 H2 H3 H4]. destruct H1 as [Hg|(r & Hl)].
  { exists s. split; [|done]. unfold run_op. by rewrite (proj1 Hg). }
  destruct o as [c| |].
  - destruct (flight s) eqn:Ef.
    + destruct (complete_settled c s Ef Hs) as (s' & Hr & Hs'). exists s'. split; [done|]. by apply settled_steady.
    + exists s. split; [|done]. unfold run_op. by rewrite (lv_rc _ _ _ _ Hl), Ef.
  - unfold run_op. rewrite (lv_rc _ _ _ _ Hl). destruct (redirect_cancel_spec h0 J s r Hl) as (s' & r' & -> & Hl' & Hf' & Hlog).
    exists s'. split; [done|]. split; [right; by exists r'|by rewrite Hlog|congruence|by rewrite Hlog].
  - unfold run_op. rewrite (lv_rc _ _ _ _ Hl). destruct (redirect_free_spec h0 J s r Hl) as (s' & -> & Hg & Hlog).
    exists s'. split; [done|]. split; [by left|by rewrite Hlog| |by rewrite Hlog]. intros Ef. destruct Hg as (_ & _ & _ & ?). congruence.
Qed.

Lemma run_ops_steady os s : steady s -> exists s', run_ops os s = Some s' /\ steady s'.
Proof.
  revert s. induction os as [|o os IH]; intros s Hs; cbn [run_ops]; [eauto|].
  destruct (run_op_steady o s Hs) as (s1 & -> & Hs1). rewrite bind_Some_l. by apply IH.
Qed.

Lemma run_completes os s : only_completes os -> settled h0 J m0 b0 s -> exists s', run_ops os s = Some s' /\ settled h0 J m0 b0 s'.
Proof.
  intros Ho. revert s. induction Ho as [|o os Ho _ IH]; intros s Hs; cbn [run_ops]; [eauto|]. destruct o as [c| |]; try done.
  assert (Hone : exists s1, run_op (OComplete c) s = Some s1 /\ settled h0 J m0 b0 s1).
  { destruct (flight s) eqn:Ef; [apply complete_settled; [done|by apply settled_steady]|]. exists s. split; [|done]. unfold run_op. rewrite Ef. by destruct (rc s). }
  destruct Hone as (s1 & -> & Hs1). rewrite bind_Some_l. by apply IH.
Qed.

End running.

(** Nothing is running. *)
Definition idle (s : sys (W := W)) : Prop := rc s = None /\ clients s = 0%nat /\ flight s = false /\ log s = [].

Definition sent_body (b : option (list Z)) : option (list Z) := if no_body b then None else b.

Lemma max_hops_pos (redir : option (KlHttpRedirectConfig (W := W))) : 0 < max_hops redir.
Proof. unfold max_hops, KL_HTTP_REDIRECT_DEFAULT_MAX. destruct redir as [c|]; [|lia]. destruct (Z.ltb_spec 0 (max_redirects c)); lia. Qed.

Lemma trace_nil max pol orig hs m0 b0 : 0 < max -> trace_ok max pol orig hs m0 b0 [].
Proof. intros H. split; [simpl; lia|constructor| |done]. intros _ l1 rq l2 E. by destruct l1. Qed.

Lemma started_spec redir method url hs b has_done s r s1 : Forall (fun h : KlHttpClientHeader => Forall is_cbyte h.1) hs -> idle s ->
  alloc_redirect_client redir method url hs b has_done s = Some (Some r, s1) ->
  let J := mkJob hs (max_hops redir) (policy redir) url has_done in
  exists ret s', start_next_request Some true (put r s1) = Some (ret, s') /\
    (ret = 0 /\ settled (heap s) J method (sent_body b) s' \/
     ret = -1 /\ exists r', live (heap s) J s' r' /\ flight s' = false /\ told (log s') = 0%nat /\ job_trace J method (sent_body b) (log s')).
Proof.
  intros Hhs (I1 & I2 & I3 & I4) Ha J. destruct (alloc_spec redir method url hs b has_done s) as (r' & s' & Ha' & (E1 & E2 & E3 & E4) & Hr).
  rewrite Ha in Ha'. injection Ha' as <- <-. destruct Hr as (Hh & Hl & ->). fold J in Hh |- *. fold (sent_body b) in Hh |- *.
  pose proof (max_hops_pos redir) as Hp. set (r := mkRc _ _ _ _ _ _ _ _ _) in *.
  apply (start_spec (heap s) J method (sent_body b) Some true _ r); [done| |done|cbn; congruence|cbn; by rewrite E4, I4| | |cbn; lia|done].
  - split; cbn; try done; [congruence|]. rewrite E2, I3. done.
  - cbn. rewrite E4, I4. split; [by apply trace_nil|done|done|by left].
  - cbn. by rewrite E4, I4.
Qed.

(** C7.  The asynchronous redirect client is safe.  For any arguments, any HTTP client (also one that
    completes inside its own start), any callback that cancels or frees, and any order of
    completions, cancels and frees: no freed memory is touched and every block is released once with
    its size; nothing is left after a failed start or a free; the caller is told at most once, and
    exactly once when the requests end by themselves; and what is requested obeys [trace_ok]: at most
    max_redirects + 1 requests, each but the first approved by the policy, no Host header, no
    credentials to another origin, no body headers without the body. *)
Theorem redirect_client_safe (ctx_ok alloc_valid : bool) (redir : option (KlHttpRedirectConfig (W := W))) (method url : list Z)
    (hdrs : header_array) (num : Z) (b : option (list Z)) (has_done : bool) (s : sys)
    (Hs : idle s) (Hhs : Forall (fun h : KlHttpClientHeader => Forall is_cbyte h.1) (header_list hdrs num)) :
  exists ok s1, kl_http_redirect_start ctx_ok alloc_valid redir (Some method) (Some url) hdrs num b has_done s = Some (ok, s1) /\
    (ok = false -> rc s1 = None /\ heap s1 = heap s /\ clients s1 = 0%nat /\ told (log s1) = 0%nat) /\
    forall os, exists s2, run_ops os s1 = Some s2 /\
      (rc s2 = None -> heap s2 = heap s /\ clients s2 = 0%nat) /\ (told (log s2) <= 1)%nat /\
      (ok = true -> has_done = true -> only_completes os -> flight s2 = false -> told (log s2) = 1%nat) /\
      trace_ok (max_hops redir) (has_policy (policy redir)) url (header_list hdrs num) method (sent_body b) (log s2).
Proof.
  unfold kl_http_redirect_start. set (hs := header_list hdrs num) in *. destruct Hs as (I1 & I2 & I3 & I4) eqn:EI. clear EI.
  assert (Hdead : forall s1, rc s1 = None -> heap s1 = heap s -> clients s1 = 0%nat -> told (log s1) = 0%nat ->
    trace_ok (max_hops redir) (has_policy (policy redir)) url hs method (sent_body b) (log s1) ->
    exists ok s1', Some (false, s1) = Some (ok, s1') /\ (ok = false -> rc s1' = None /\ heap s1' = heap s /\ clients s1' = 0%nat /\ told (log s1') = 0%nat) /\
    forall os, exists s2, run_ops os s1' = Some s2 /\ (rc s2 = None -> heap s2 = heap s /\ clients s2 = 0%nat) /\ (told (log s2) <= 1)%nat /\
      (ok = true -> has_done = true -> only_completes os -> flight s2 = false -> told (log s2) = 1%nat) /\
      trace_ok (max_hops redir) (has_policy (policy redir)) url hs method (sent_body b) (log s2)).
  { intros s1 H1 H2 H3 H4 H5. exists false, s1. split; [done|]. split; [done|]. intros os. exists s1. split; [|split; [done|split; [lia|done]]].
    induction os as [|o os IH]; [done|]. cbn [run_ops]. unfold run_op. by rewrite H1, bind_Some_l. }
  pose proof (max_hops_pos redir) as Hp. destruct (ctx_ok && alloc_valid && redirect_headers_valid hdrs num); [|apply Hdead; try done; rewrite I4; [done|by apply trace_nil]].
  destruct (alloc_spec redir method url hs b has_done s) as (r & s1 & Ha & (E1 & E2 & E3 & E4) & Hr). rewrite Ha, bind_Some_l.
  destruct r as [r|]; [|apply Hdead; try congruence; rewrite E4, I4; [done|by apply trace_nil]].
  set (J := mkJob hs (max_hops redir) (policy redir) url has_done).
  destruct (started_spec redir method url hs b has_done s r s1 Hhs ltac:(done) Ha) as (ret & s2 & -> & Hret). rewrite bind_Some_l. fold J in Hret.
  destruct Hret as [[-> Hset]|(-> & r' & Hl & Hf & Ht & Htr)]; cbn [Z.eqb negb]; cycle 1.
  { destruct (redirect_free_spec (heap s) J s2 r' Hl) as (s3 & -> & (G1 & G2 & G3 & G4) & Hlog). rewrite bind_Some_l. apply Hdead; try done; by rewrite Hlog. }
  exists true, s2. split; [done|]. split; [done|]. intros os.
  destruct (run_ops_steady (heap s) J method (sent_body b) Hhs os s2) as (s3 & Hrun & [M1 M2 M3 M4]); [by apply settled_steady|].
  exists s3. split; [done|]. split; [|split; [done|split; [|exact M2]]].
  - intros E. destruct M1 as [(_ & ? & ? & _)|(r' & Hl)]; [done|]. destruct Hl. congruence.
  - intros _ -> Ho Hf. destruct (run_completes (heap s) J method (sent_body b) Hhs os s2 Ho Hset) as (s4 & Hrun4 & Hs4).
    rewrite Hrun in Hrun4. injection Hrun4 as <-. by apply (se_told _ _ _ _ _ Hs4).
Qed.

(** C16.  What a synchronous request sends obeys [trace_ok]: at most max_redirects + 1 requests, the first
    as the caller asked; each later one for a URL the policy was asked about and let pass, with
    the headers of the caller in their order but no Host, no Authorization, Cookie or
    Proxy-Authorization unless it goes to the origin of the first, and no body headers without the
    body; the body is the caller's or has been dropped together with a change to GET. *)
Theorem redirect_requests_safe (alloc_valid : bool) (redir : option (KlHttpRedirectConfig (W := W))) (method url : option (list Z))
    (hdrs : header_array) (num : Z) (b : option (list Z)) (w : W)
    (Hhs : Forall (fun h : KlHttpClientHeader => Forall is_cbyte h.1) (header_list hdrs num)) :
  trace_ok (max_hops redir) (has_policy (policy redir)) (default [] url) (header_list hdrs num) (default [] method) b
    (kl_http_redirect_request alloc_valid redir method url hdrs num b w).2.
Proof.
  pose proof (max_hops_pos redir) as Hp. pose proof (fun m u => trace_nil (max_hops redir) (has_policy (policy redir)) u (header_list hdrs num) m b Hp) as Hn.
  unfold kl_http_redirect_request, do_sync_request. destruct (alloc_valid && redirect_headers_valid hdrs num), method as [m|], url as [u|]; try apply Hn.
  destruct (Nat.leb_spec KL_URL_MAX (length u)); [apply Hn|]. destruct (METHOD_CAP <=? length m)%nat; [apply Hn|]. cbn [default].
  apply (sync_loop_trace (max_hops redir) (policy redir) u (header_list hdrs num) m b _ true m u b w []); [done| |cbn [requests omap list_omap length]; lia].
  split; [apply Hn|done|done|by left].
Qed.

(** ** The two agree *)

(** The HTTP client of the request in flight answers as the synchronous one would. *)
Definition answer (s : sys (W := W)) : option sys :=
  if flight s then
    match last (requests (log s)) with
    | Some rq =>
        let '(rc, resp, w) := client_request (world s) rq in
        run_op (OComplete (mkClient (if rc =? 0 then KL_ERR_NONE else resp_error resp) resp)) (set_world w s)
    | None => Some s
    end
  else Some s.

Fixpoint answers (n : nat) (s : sys (W := W)) : option sys := match n with O => Some s | S n => s ← answer s; answers n s end.

(** An HTTP client that never completes inside its start and reports its failures, memory for every
    request, and a callback that does nothing. *)
Record plain_env : Prop := {
  pl_start : forall w rq, client_start w rq = (true, None, w);
  pl_error : forall w rq, (client_request w rq).1.1 <> 0 -> resp_error (client_request w rq).1.2 <> KL_ERR_NONE;
  pl_grant : forall w n, grant w n = (true, w);
  pl_done : forall w, done_actions w = ([], w);
}.

(** What the caller learns: the response, or no response and an error. *)
Definition outcome (rc : Z) (resp : KlHttpClientResponse) : event :=
  if rc =? 0 then Completed KL_ERR_NONE (Some resp) else Completed (resp_error resp) None.

Context (Hplain : plain_env).

Lemma start_plain k first s r : rc s = Some r ->
  let rq := hop_request (redirects_done r =? 0) (original_url (job r)) (headers (job r)) (current_method r) (current_url r) (body r) in
  exists s', start_next_request k first s = Some (0, s') /\ flight s' = true /\ world s' = world s /\ log s' = log s ++ [Requested rq] /\
    heap s' = heap s /\ clients s' = S (clients s) /\
    rc s' = Some (set_inner (Some (mkClient KL_ERR_NONE (refusal KL_ERR_NONE))) (set_flags false false r)).
Proof.
  intros Hr rq. unfold start_next_request. rewrite Hr, bind_Some_l. fold rq. rewrite (pl_start Hplain). cbn. eexists. split; [done|]. by destruct r.
Qed.

Lemma tell_plain s r : rc s = Some r -> on_done (job r) = true ->
  exists s', tell s = Some s' /\ flight s' = flight s /\ log s' = log s ++ [Completed (kl_http_redirect_last_error r) (kl_http_redirect_response r)].
Proof. intros Hr Ho. unfold tell. rewrite Hr, bind_Some_l, Ho, (pl_done Hplain). cbn [run_actions]. by eexists. Qed.

Lemma fail_plain e s r : rc s = Some r -> on_done (job r) = true -> e <> KL_ERR_NONE ->
  exists s', fail_with e s = Some s' /\ flight s' = flight s /\ log s' = log s ++ [Completed e None].
Proof.
  intros Hr Ho He. unfold fail_with. rewrite Hr, bind_Some_l.
  destruct (tell_plain (put (set_rc_error e r) s) (set_rc_error e r)) as (s' & -> & Hf & Hl); [done|done|]. exists s'. split; [done|]. split; [done|].
  rewrite Hl. unfold kl_http_redirect_last_error, kl_http_redirect_response. cbn [error set_rc_error]. by rewrite !decide_False.
Qed.

Lemma answers_done n s : flight s = false -> answers n s = Some s.
Proof. intros Hf. induction n as [|n IH]; [done|]. cbn [answers]. unfold answer. by rewrite Hf, bind_Some_l. Qed.

(** The asynchronous client after the answer [c], one hop at a time. *)
Lemma on_done_eq fuel s r : rc s = Some r -> starting r = false ->
  internal_on_done fuel s =
  if negb (kl_http_client_error (inner r) =? 0) then fail_with (kl_http_client_last_error (inner r)) s
  else match kl_http_client_response (inner r) with
  | None => fail_with KL_ERR_IO s
  | Some resp =>
    if negb (is_redirect (status resp)) then tell s
    else if job_max (job r) <=? redirects_done r then fail_with KL_ERR_REDIRECT_LOOP s
    else match find_location (resp_headers resp) with
    | None => tell s
    | Some location =>
      match kl_url_resolve (current_url r) location KL_URL_MAX with
      | None => fail_with KL_ERR_URL s
      | Some next_url =>
        let '(ans, w, asked) := ask (job_policy (job r)) next_url (world s) in
        let s := emit asked (set_world w s) in
        if negb (ans =? 0) then fail_with KL_ERR_REDIRECT_REFUSED s
        else
          let changes := method_changes_to_get (status resp) (current_method r) in
          s ← (if changes : bool then drop_body r s else Some s);
          let r := if changes : bool then set_get r else r in
          if (KL_URL_MAX <=? length next_url)%nat then fail_with KL_ERR_URL (put r s)
          else
            let r := set_hops (redirects_done r + 1) (set_inner None (set_url next_url r)) in
            match fuel with
            | O => None
            | S fuel' =>
              '(rc', s) ← start_next_request (internal_on_done fuel') false (put r (free_client s));
              if negb (rc' =? 0) then fail_with KL_ERR_IO s else Some s
            end
      end
    end
  end.
Proof. intros Hr Hs. by destruct fuel; cbn [internal_on_done]; rewrite Hr, bind_Some_l, Hs. Qed.

(** What the synchronous call returns for a redirect that answers its last request, other than "too many
    redirects": the redirect itself, which names no Location, or the error for a Location that can not be
    resolved, or the refusal of the policy. *)
Definition last_redirect (rc : Z) (resp : KlHttpClientResponse) : Prop :=
  if rc =? 0 then is_redirect (status resp) = true /\ find_location (resp_headers resp) = None
  else resp_error resp = KL_ERR_URL /\ is_redirect (status resp) = true \/ resp_error resp = KL_ERR_REDIRECT_REFUSED.

(** The asynchronous client ends with the log [l], the same requests and the outcome of the
    synchronous call, or with "too many redirects" after [n] more requests, the last answered by a redirect. *)
Definition agrees (n : nat) (l : list event) (sync : Z * KlHttpClientResponse * W * list event) (o : option (sys (W := W))) : Prop :=
  let '(rcx, resp, _, slog) := sync in
  exists s' alog e, o = Some s' /\ flight s' = false /\ log s' = l ++ alog ++ [e] /\ requests alog = requests slog /\
    (e = outcome rcx resp \/ e = Completed KL_ERR_REDIRECT_LOOP None /\ length (requests slog) = n /\ last_redirect rcx resp).

Lemma agrees_end n k l rcx resp w slog alog s1 e : flight s1 = false -> log s1 = l ++ alog ++ [e] -> requests alog = requests slog ->
  (e = outcome rcx resp \/ e = Completed KL_ERR_REDIRECT_LOOP None /\ length (requests slog) = n /\ last_redirect rcx resp) -> agrees n l (rcx, resp, w, slog) (answers k s1).
Proof. intros Hf Hl Hr He. exists s1, alog, e. split; [by apply answers_done|]. done. Qed.

Lemma ask_silent (p : option (list Z -> W -> Z * W)) url w x w' asked : ask p url w = (x, w', asked) -> requests asked = [].
Proof. unfold ask. destruct p as [f|]; [destruct (f url w)|]; by intros [= <- <- <-]. Qed.

(** A hop that is taken: the next request is in flight. *)
Lemma take_hop h0 J (ch : bool) next s r k : live h0 J s r -> inner r <> None -> 0 <= redirects_done r ->
  let r2 := if ch then set_get r else r in
  exists s' r', (s0 ← (if ch then drop_body r s else Some s);
      '(rc', s3) ← start_next_request k false (put (set_hops (redirects_done r2 + 1) (set_inner None (set_url next r2))) (free_client s0));
      if negb (rc' =? 0) then fail_with KL_ERR_IO s3 else Some s3) = Some s' /\
    live h0 J s' r' /\ flight s' = true /\ error r' = error r /\ redirects_done r' = redirects_done r + 1 /\ current_url r' = next /\
    current_method r' = (if ch then bytes "GET" else current_method r) /\ body r' = (if ch then None else body r) /\ world s' = world s /\
    log s' = log s ++ [Requested (hop_request false (original_url J) (headers J) (current_method r') next (body r'))].
Proof.
  intros Hl Hi Hd r2. destruct (change_method_live h0 J s r ch Hl) as (s2 & -> & Hl2 & Hf2 & Hlog2 & Hw2). rewrite bind_Some_l. fold r2 in Hl2.
  assert (Hr2 : inner r2 <> None /\ redirects_done r2 = redirects_done r /\ error r2 = error r) by (unfold r2; by destruct ch). destruct Hr2 as (Hi2 & Hd2 & He2).
  destruct (free_client_live h0 J _ r2 Hl2 Hi2) as [L1 L2 L3 L4 L5 L6].
  set (r3 := set_hops (redirects_done r2 + 1) (set_inner None (set_url next r2))). set (s3 := put r3 (free_client s2)).
  destruct (start_plain k false s3 r3) as (s4 & -> & Hf4 & Hw4 & Hlog4 & Hh4 & Hc4 & Hr4); [done|]. rewrite bind_Some_l. cbn [Z.eqb negb].
  set (r4 := set_inner _ (set_flags false false r3)) in *. exists s4, r4. split; [done|]. split.
  { split; [done| | |done|done|done]; [by rewrite Hh4|]. rewrite Hc4. cbn in L3 |- *. by rewrite L3. }
  split; [done|]. split; [exact He2|]. split; [cbn; by rewrite Hd2|]. split; [done|]. split; [unfold r4, r3, r2; by destruct ch|].
  split; [unfold r4, r3, r2; by destruct ch|]. split; [by rewrite Hw4|]. rewrite Hlog4. cbn [s3 log put set_rc free_client set_flight]. rewrite Hlog2.
  cbn [redirects_done r3 set_hops job set_inner set_url]. assert (Hj : job r2 = J) by apply Hl2. rewrite Hd2, Hj.
  destruct (Z.eqb_spec (redirects_done r + 1) 0); [lia|]. done.
Qed.

Lemma async_agrees h0 J n s r l : live h0 J s r -> flight s = true -> on_done J = true -> error r = KL_ERR_NONE ->
  redirects_done r + Z.of_nat n = job_max J -> 0 <= redirects_done r ->
  let first := redirects_done r =? 0 in
  let rq := hop_request first (original_url J) (headers J) (current_method r) (current_url r) (body r) in
  log s = l ++ [Requested rq] ->
  agrees (S n) l (sync_loop (S n) first (job_policy J) (original_url J) (headers J) (current_method r) (current_url r) (body r) (world s)) (answers (S n) s).
Proof.
  revert s r l. induction n as [n IH] using lt_wf_ind; intros s r l Hl Hf Ho He Hn Hd first rq Hlog.
  cbn [answers]. unfold answer. rewrite Hf, Hlog, requests_app. cbn [requests omap list_omap]. rewrite last_snoc.
  unfold sync_loop; fold (@sync_loop W Env). fold rq. pose proof (pl_error Hplain (world s) rq) as Herr.
  destruct (client_request (world s) rq) as [[x resp] w1]. cbn [fst snd] in Herr. unfold run_op. cbn [rc set_world flight]. rewrite (lv_rc _ _ _ _ Hl), Hf.
  set (r1 := set_inner _ r). set (s1 := put r1 _). assert (Hr1 : rc s1 = Some r1) by done.
  assert (Hlog1 : log s1 = l ++ [Requested rq]) by done. assert (Ho1 : on_done (job r1) = true) by (cbn; by rewrite (lv_job _ _ _ _ Hl)).
  assert (Hj : job r1 = J) by apply Hl. assert (Hin : inner r1 = Some (mkClient (if x =? 0 then KL_ERR_NONE else resp_error resp) resp)) by done.
  assert (Hw1 : world s1 = w1) by done. assert (Hhl : hops_left (set_world w1 s) = n).
  { unfold hops_left. cbn [rc set_world]. rewrite (lv_rc _ _ _ _ Hl), (lv_job _ _ _ _ Hl). lia. }
  rewrite (on_done_eq _ s1 r1 Hr1 (lv_starting _ _ _ _ Hl)), Hin, Hj, Hw1, Hhl. cbv zeta.
  assert (Hfail : forall e, e <> KL_ERR_NONE -> exists s2, fail_with e s1 = Some s2 /\ flight s2 = false /\ log s2 = l ++ [Requested rq] ++ [Completed e None]).
  { intros e E. destruct (fail_plain e s1 r1 Hr1 Ho1 E) as (s2 & -> & Hf2 & Hl2). exists s2. by rewrite Hl2, Hlog1, <- app_assoc. }
  destruct (Z.eqb_spec x 0) as [->|Hx]; cbn [negb]; cycle 1.
  { unfold kl_http_client_error. cbn [cl_error]. rewrite decide_False by (by apply Herr). change (negb (-1 =? 0)) with true. cbv iota. cbn [kl_http_client_last_error cl_error]. destruct (Hfail (resp_error resp) (Herr Hx)) as (s2 & -> & Hf2 & Hl2).
    rewrite bind_Some_l. eapply agrees_end; [done|exact Hl2|done|by left]. }
  assert (Htell : exists s2, tell s1 = Some s2 /\ flight s2 = false /\ log s2 = l ++ [Requested rq] ++ [Completed KL_ERR_NONE (Some resp)]).
  { destruct (tell_plain s1 r1 Hr1 Ho1) as (s2 & -> & Hf2 & Hl2). exists s2. split; [done|]. split; [done|]. rewrite Hl2, Hlog1, <- app_assoc.
    unfold kl_http_redirect_last_error, kl_http_redirect_response. cbn [error r1 set_inner inner]. by rewrite !decide_True. }
  unfold kl_http_client_error, kl_http_client_response. cbn [cl_error cl_resp]. rewrite !decide_True by done. change (negb (0 =? 0)) with false. cbv iota.
  destruct (is_redirect (status resp)) eqn:Ered; cbn [negb]; cycle 1.
  { destruct Htell as (s2 & -> & Hf2 & Hl2). rewrite bind_Some_l. eapply agrees_end; [done|exact Hl2|done|by left]. }
  assert (Hcur : current_url r1 = current_url r /\ redirects_done r1 = redirects_done r /\ current_method r1 = current_method r) by done.
  destruct Hcur as (-> & -> & ->). destruct n as [|n].
  { destruct (Z.leb_spec (job_max J) (redirects_done r)); [|lia]. destruct (Hfail KL_ERR_REDIRECT_LOOP) as (s2 & -> & Hf2 & Hl2); [done|]. rewrite bind_Some_l.
    destruct (find_location _) eqn:Eloc; [|eapply agrees_end; [done|exact Hl2|done|by right]].
    destruct (kl_url_resolve _ _ _) eqn:Eu; [apply resolve_short in Eu|eapply agrees_end; [done|exact Hl2|done|right; split_and!; [done|done|by left]]].
    destruct (ask _ _ _) as [[ans w2] asked] eqn:Ea. apply ask_silent in Ea. destruct (Nat.leb_spec KL_URL_MAX (length l1)); [lia|].
    destruct (negb _); eapply agrees_end; try exact Hl2; try done; cbn [sync_loop]; rewrite ?app_nil_r, requests_app, Ea; auto.
    right. split_and!; [done|done|by right]. }
  destruct (Z.leb_spec (job_max J) (redirects_done r)); [lia|].
  destruct (find_location (resp_headers resp)) as [loc|]; cycle 1.
  { destruct Htell as (s2 & -> & Hf2 & Hl2). rewrite bind_Some_l. eapply agrees_end; [done|exact Hl2|done|by left]. }
  destruct (kl_url_resolve (current_url r) loc KL_URL_MAX) as [next|] eqn:Eu; cycle 1.
  { destruct (Hfail KL_ERR_URL) as (s2 & -> & Hf2 & Hl2); [done|]. rewrite bind_Some_l. eapply agrees_end; [done|exact Hl2|done|by left]. }
  apply resolve_short in Eu. clear Hfail Htell. destruct (ask (job_policy J) next w1) as [[ans w2] asked] eqn:Ea. apply ask_silent in Ea.
  set (s2 := emit asked (set_world w2 s1)). assert (Hlog2 : log s2 = l ++ [Requested rq] ++ asked) by (cbn; by rewrite Hlog, <- app_assoc).
  destruct (Z.eqb_spec ans 0) as [->|]; cbn [negb]; cycle 1.
  { destruct (fail_plain KL_ERR_REDIRECT_REFUSED s2 r1) as (s3 & -> & Hf3 & Hl3); [done..|]. rewrite bind_Some_l.
    apply (agrees_end _ _ _ _ _ _ _ ([Requested rq] ++ asked) s3 (Completed KL_ERR_REDIRECT_REFUSED None)); [done| |done|by left]. by rewrite Hl3, Hlog2, <- !app_assoc. }
  destruct (Nat.leb_spec KL_URL_MAX (length next)); [lia|]. set (ch := method_changes_to_get (status resp) (current_method r)).
  assert (Hl1 : live h0 J s2 r1) by (pose proof (lv_flight _ _ _ _ Hl Hf); destruct Hl as [L1 L2 L3 L4 L5 L6]; split; try done; by destruct (inner r)).
  destruct (take_hop h0 J ch next s2 r1 (internal_on_done n) Hl1 ltac:(done) Hd) as (s4 & r4 & -> & Hl4 & Hf4 & He4 & Hd4 & Hu4 & Hm4 & Hb4 & Hw4 & Hlog4).
  rewrite bind_Some_l. cbn [current_method body r1 set_inner] in Hm4, Hb4.
  pose proof (IH n ltac:(lia) s4 r4 (l ++ [Requested rq] ++ asked) Hl4 Hf4 Ho ltac:(by rewrite He4) ltac:(rewrite Hd4; cbn [redirects_done r1 set_inner]; lia)
    ltac:(rewrite Hd4; cbn [redirects_done r1 set_inner]; lia)) as Hag. cbv zeta in Hag.
  assert (Hz : (redirects_done r4 =? 0) = false) by (apply Z.eqb_neq; rewrite Hd4; cbn [redirects_done r1 set_inner]; lia).
  rewrite Hz, Hu4, Hm4, Hb4, Hw4 in Hag. rewrite Hm4, Hb4, Hlog2 in Hlog4. specialize (Hag Hlog4). cbn [world s2 emit set_world] in Hag.
  fold ch. destruct (sync_loop (S n) _ _ _ _ _ _ _ _) as [[[rcx respx] wx] slog]. destruct Hag as (s5 & alog & e & Hs5 & Hf5 & Hl5 & Hq5 & He5).
  exists s5, ([Requested rq] ++ asked ++ alog), e. split; [done|]. split; [done|]. split; [by rewrite Hl5, <- !app_assoc|].
  split; [by rewrite <- app_assoc, !requests_app, Hq5|]. rewrite <- app_assoc, !requests_app, Ea. cbn [requests omap list_omap app length].
  destruct He5 as [->|(-> & E & Hx)]; [by left|right; split_and!; [done|by rewrite E|done]].
Qed.

Lemma malloc_plain n s : exists s', kl_malloc n s = (true, s') /\ world s' = world s.
Proof. unfold kl_malloc. rewrite (pl_grant Hplain). by eexists. Qed.

Lemma copy_headers_plain all done_ todo s : exists s', copy_headers all done_ todo s = Some (true, s') /\ world s' = world s.
Proof.
  revert done_ s. induction todo as [|h todo IH]; intros done_ s; cbn [copy_headers]; [by eexists|].
  destruct (malloc_plain (strsize h.1) s) as (s1 & -> & H1). destruct (malloc_plain (strsize h.2) s1) as (s2 & -> & H2). cbn [andb].
  destruct (IH (done_ ++ [h]) s2) as (s3 & -> & H3). exists s3. split; [done|]. congruence.
Qed.

Lemma alloc_plain redir method url hs b has_done s : (length method < METHOD_CAP)%nat -> (length url < KL_URL_MAX)%nat ->
  exists r s', alloc_redirect_client redir method url hs b has_done s = Some (Some r, s') /\ world s' = world s.
Proof.
  intros Hm Hu. unfold alloc_redirect_client. destruct (malloc_plain sizeof_client s) as (s1 & -> & H1). cbn [negb].
  destruct (Nat.leb_spec METHOD_CAP (length method)); [lia|]. destruct (Nat.leb_spec KL_URL_MAX (length url)); [lia|]. cbn [orb].
  assert (Ha : exists s2, copy_all hs s1 = Some (true, s2) /\ world s2 = world s1).
  { unfold copy_all. destruct hs as [|h hs]; [by eexists|]. destruct (malloc_plain (array_size (h :: hs)) s1) as (s2 & -> & H2).
    destruct (copy_headers_plain (h :: hs) [] (h :: hs) s2) as (s3 & -> & H3). exists s3. split; [done|]. congruence. }
  destruct Ha as (s2 & -> & H2). rewrite bind_Some_l. cbn [negb].
  assert (Hb : exists s3, copy_body hs b s2 = Some (true, s3) /\ world s3 = world s2).
  { unfold copy_body. destruct b as [[|x b]|]; [by eexists| |by eexists]. destruct (malloc_plain (Z.of_nat (length (x :: b))) s2) as (s3 & -> & H3). by eexists. }
  destruct Hb as (s3 & -> & H3). rewrite bind_Some_l. cbn [negb]. do 2 eexists. split; [done|]. congruence.
Qed.

(** C30.  The asynchronous and the synchronous API agree: with the same HTTP client, whose asynchronous form
    starts every request and completes it later with what the synchronous form returns, with memory granted,
    an on_done that does nothing, a body that is not empty if there is one and a method and URL that fit, they
    send the same requests, and on_done reports the response or the error the synchronous call returns.
    The one exception is a redirect answered to the last request that may be sent, which the asynchronous
    client always reports as "too many redirects", also when the synchronous one returns it as the
    response because it has no Location, or reports its bad Location or the refusal of the policy. *)
Theorem redirect_async_agrees (redir : option (KlHttpRedirectConfig (W := W))) (method url : list Z) (hdrs : header_array) (num : Z)
    (b : option (list Z)) (s : sys) (Hs : idle s) (Hv : redirect_headers_valid hdrs num = true)
    (Hm : (length method < METHOD_CAP)%nat) (Hu : (length url < KL_URL_MAX)%nat) (Hb : b <> Some []) :
  exists s1 s2, kl_http_redirect_start true true redir (Some method) (Some url) hdrs num b true s = Some (true, s1) /\
    answers (S (Z.to_nat (max_hops redir))) s1 = Some s2 /\ flight s2 = false /\
    let '(rcx, resp, _, slog) := kl_http_redirect_request true redir (Some method) (Some url) hdrs num b (world s) in
    requests (log s2) = requests slog /\
    exists e, last (log s2) = Some e /\
      (e = outcome rcx resp \/ e = Completed KL_ERR_REDIRECT_LOOP None /\ Z.of_nat (length (requests slog)) = max_hops redir + 1 /\ last_redirect rcx resp).
Proof using Hplain.
  unfold kl_http_redirect_start, kl_http_redirect_request, do_sync_request. rewrite Hv. cbn [andb]. set (hs := header_list hdrs num).
  destruct (Nat.leb_spec KL_URL_MAX (length url)); [lia|]. destruct (Nat.leb_spec METHOD_CAP (length method)); [lia|].
  destruct Hs as (I1 & I2 & I3 & I4). pose proof (max_hops_pos redir) as Hp.
  destruct (alloc_plain redir method url hs b true s Hm Hu) as (r & s1 & Ha & Hw1). rewrite Ha, bind_Some_l.
  destruct (alloc_spec redir method url hs b true s) as (r' & s1' & Ha' & (E1 & E2 & E3 & E4) & Hr). rewrite Ha in Ha'. injection Ha' as <- <-.
  destruct Hr as (Hh & _ & Hr). set (J := mkJob hs (max_hops redir) (policy redir) url true) in *.
  destruct (start_plain Some true (put r s1) r eq_refl) as (s2 & -> & Hf2 & Hw2 & Hlog2 & Hh2 & Hc2 & Hr2). rewrite bind_Some_l. cbn [Z.eqb negb].
  assert (Hbr : (if no_body b then None else b) = b) by (destruct b as [[|]|]; done). rewrite Hbr in Hr. rewrite Hr in *. cbn [body] in Hh.
  set (r2 := set_inner _ _) in Hr2. cbn [log put set_rc] in Hlog2. rewrite E4, I4 in Hlog2.
  assert (Hl2 : live (heap s) J s2 r2) by (split; [done|by rewrite Hh2|rewrite Hc2; cbn; by rewrite E1, I2|done|done|done]).
  pose proof (async_agrees (heap s) J (Z.to_nat (max_hops redir)) s2 r2 [] Hl2 Hf2 eq_refl eq_refl ltac:(cbn; lia) ltac:(done) Hlog2) as Hag. cbv zeta in Hag.
  cbn [redirects_done r2 set_inner set_flags Z.eqb original_url J headers current_method current_url body job_policy] in Hag.
  rewrite Hw2 in Hag. cbn [world put set_rc] in Hag. rewrite Hw1 in Hag. exists s2.
  destruct (sync_loop _ _ _ _ _ _ _ _ _) as [[[rcx resp] wx] slog]. destruct Hag as (s' & alog & e & Hs' & Hf' & Hl' & Hq & He).
  exists s'. split; [done|]. split; [done|]. split; [done|]. cbn [app] in Hl'. rewrite Hl', requests_app, Hq. 
  assert (Hn : requests [e] = []) by (destruct He as [-> | (-> & _)]; [unfold outcome; by destruct (rcx =? 0)|done]).
  rewrite Hn, app_nil_r. split; [done|]. exists e. split; [apply last_snoc|]. destruct He as [->|(-> & E & Hx)]; [by left|right]. split_and!; [done|rewrite E; lia|done].
Qed.

End facts.

(** ** Examples *)

Definition reply (st : Z) (loc : list KlHttpClientHeader) : KlHttpClientResponse := mkResponse st loc (bytes "body") KL_ERR_NONE.

(** A site that redirects to another host, then to a path, then answers; the world counts the
    requests. *)
Definition site_reply (w : nat) : KlHttpClientResponse :=
  match w with
  | 0%nat => reply 302 [(bytes "location", bytes "http://other.example/a")]
  | 1%nat => reply 307 [(bytes "Location", bytes "/b#top")]
  | _ => reply 200 []
  end.

#[local] Instance site : RedirectEnv nat := {|
  client_request := fun w _ => (0, site_reply w, S w);
  client_start := fun w _ => (true, None, w);
  grant := fun w _ => (true, w);
  done_actions := fun w => ([], w);
  sizeof_client := 4352;
|}.

(** The second request completes inside its start, and the callback frees the client. *)
#[local] Instance hasty : RedirectEnv nat := {|
  client_request := fun w _ => (0, site_reply w, S w);
  client_start := fun w _ => (true, if (w =? 1)%nat then Some (mkClient KL_ERR_CONNECT (refusal KL_ERR_NONE)) else None, S w);
  grant := fun w _ => (true, w);
  done_actions := fun w => ([ACancel; AFree], w);
  sizeof_client := 4352;
|}.

Definition sample_headers : header_array :=
  Some [(Some (bytes "authorization"), Some (bytes "secret")); (Some (bytes "Accept"), Some (bytes "text/html"));
        (Some (bytes "Content-Type"), Some (bytes "text/plain"))].

Definition sample_config : option (KlHttpRedirectConfig (W := nat)) := Some (mkConfig 3 (Some (fun _ w => (0, w)))).

Definition sample_sys : sys (W := nat) := mkSys 0%nat {[+ 7 +]} 0 false None [].

Lemma sample_names : Forall (fun h : KlHttpClientHeader => Forall is_cbyte h.1) (header_list sample_headers 3).
Proof. change (header_list sample_headers 3) with [(bytes "authorization", bytes "secret"); (bytes "Accept", bytes "text/html"); (bytes "Content-Type", bytes "text/plain")].
  repeat (constructor; [by apply cbytes_ok|]). constructor. Qed.

Lemma redirect_client_safe_witness : exists ok s1,
  kl_http_redirect_start (Env := hasty) true true sample_config (Some (bytes "POST")) (Some (bytes "http://a.example/")) sample_headers 3
    (Some (bytes "data")) true sample_sys = Some (ok, s1) /\
  exists s2, run_ops (Env := hasty) [OComplete (mkClient KL_ERR_NONE (site_reply 0))] s1 = Some s2 /\ (rc s2 = None -> heap s2 = {[+ 7 +]}) /\
    (told (log s2) <= 1)%nat.
Proof.
  destruct (redirect_client_safe (Env := hasty) true true sample_config (bytes "POST") (bytes "http://a.example/") sample_headers 3
    (Some (bytes "data")) true sample_sys) as (ok & s1 & H1 & _ & H2).
  - repeat split.
  - exact sample_names.
  - exists ok, s1. split; [exact H1|]. destruct (H2 [OComplete (mkClient KL_ERR_NONE (site_reply 0))]) as (s2 & H3 & H4 & H5 & _).
    exists s2. split; [exact H3|]. split; [exact (fun E => proj1 (H4 E))|exact H5].
Defined.

Lemma redirect_requests_safe_witness :
  trace_ok 3 true (bytes "http://a.example/") (header_list sample_headers 3) (bytes "POST") (Some (bytes "data"))
    (kl_http_redirect_request (Env := site) true sample_config (Some (bytes "POST")) (Some (bytes "http://a.example/")) sample_headers 3
      (Some (bytes "data")) 0%nat).2.
Proof.
  exact (redirect_requests_safe (Env := site) true sample_config (Some (bytes "POST")) (Some (bytes "http://a.example/")) sample_headers 3
    (Some (bytes "data")) 0%nat sample_names).
Defined.

Lemma site_plain : plain_env (Env := site).
Proof. by split. Qed.

Lemma redirect_async_agrees_witness : exists s1 s2,
  kl_http_redirect_start (Env := site) true true sample_config (Some (bytes "POST")) (Some (bytes "http://a.example/")) sample_headers 3
    (Some (bytes "data")) true sample_sys = Some (true, s1) /\ answers (Env := site) 4 s1 = Some s2 /\ flight s2 = false.
Proof.
  destruct (redirect_async_agrees (Env := site) site_plain sample_config (bytes "POST") (bytes "http://a.example/") sample_headers 3
    (Some (bytes "data")) sample_sys) as (s1 & s2 & H1 & H2 & H3 & _).
  - repeat split.
  - reflexivity.
  - vm_compute. lia.
  - apply Nat.ltb_lt. reflexivity.
  - discriminate.
  - exists s1, s2. split; [exact H1|]. split; [exact H2|exact H3].
Defined.

End Redirect.
