(* ===== verification/ConnectOp.v ===== *)
(** * The connect operation (src/src/connect_op.c, src/include/keel/connect_op.h, connect_op_detail.h)

    Name resolution followed by racing connection attempts, as a state machine whose adapter hooks
    may call back into it at any point.  The adapter is a script: one entry per hook call, with the
    calls it makes back, its result and, for [on_detach], whether it frees the operation.  A use of
    the freed operation is a fault ([None]). *)
From stdpp Require Import gmultiset.
From S2P Require Import Prelude.

Module ConnectOp.

(** ** Data *)

Definition KL_CONNECT_MAX_ADDRS : Z := 8.
Definition KL_INVALID_SOCKET : Z := -1.

Inductive KlConnectOpState :=
| KL_CONNECT_OP_STATE_IDLE | KL_CONNECT_OP_STATE_RESOLVING | KL_CONNECT_OP_STATE_CONNECTING
| KL_CONNECT_OP_STATE_DONE | KL_CONNECT_OP_STATE_DETACHED.

Inductive KlConnectResult := KL_CONNECT_SUCCESS | KL_CONNECT_FAILED | KL_CONNECT_CANCELLED.

#[global] Instance KlConnectOpState_eq_dec : EqDecision KlConnectOpState.
Proof. solve_decision. Defined.

(** Which of the optional hooks are set. *)
Record KlConnectOpHooks := mkHooks {
  start_resolve : bool; cancel_resolve : bool; start_attempt : bool; cancel_attempt : bool; dispose_fd : bool;
  arm_delay : bool; cancel_delay : bool; arm_deadline : bool; cancel_deadline : bool; on_done : bool; on_detach : bool;
}.

Record Verdict := mkVerdict { terminal : bool; result : KlConnectResult; win_fd : Z; error : Z }.
Record Race := mkRace {
  naddrs : Z; next_idx : Z; pending : Z; attempt_active : list bool; attempt_cancel_requested : list bool;
}.
Record Waits := mkWaits { resolve_inflight : bool; resolve_cancel_requested : bool; delay_armed : bool; deadline_armed : bool }.
Record Depth := mkDepth { in_start : nat; in_dispatch : nat }.

(** An operation on which [kl_connect_op_init] ran. *)
Record KlConnectOp := mkOp {
  hooks : KlConnectOpHooks; state : KlConnectOpState; detached : bool; last_error : Z;
  verdict : Verdict; race : Race; waits : Waits; depth : Depth;
}.

Definition set_state (x : KlConnectOpState) (o : KlConnectOp) : KlConnectOp :=
  mkOp (hooks o) x (detached o) (last_error o) (verdict o) (race o) (waits o) (depth o).
Definition set_detached (o : KlConnectOp) : KlConnectOp :=
  mkOp (hooks o) KL_CONNECT_OP_STATE_DETACHED true (last_error o) (verdict o) (race o) (waits o) (depth o).
Definition set_last_error (e : Z) (o : KlConnectOp) : KlConnectOp :=
  mkOp (hooks o) (state o) (detached o) e (verdict o) (race o) (waits o) (depth o).
Definition set_verdict (v : Verdict) (o : KlConnectOp) : KlConnectOp :=
  mkOp (hooks o) KL_CONNECT_OP_STATE_DONE (detached o) (last_error o) v (race o) (waits o) (depth o).
Definition set_race (r : Race) (o : KlConnectOp) : KlConnectOp :=
  mkOp (hooks o) (state o) (detached o) (last_error o) (verdict o) r (waits o) (depth o).
Definition set_waits (x : Waits) (o : KlConnectOp) : KlConnectOp :=
  mkOp (hooks o) (state o) (detached o) (last_error o) (verdict o) (race o) x (depth o).
Definition set_depth (d : Depth) (o : KlConnectOp) : KlConnectOp :=
  mkOp (hooks o) (state o) (detached o) (last_error o) (verdict o) (race o) (waits o) d.

Definition set_resolve (inflight requested : bool) (o : KlConnectOp) : KlConnectOp :=
  set_waits (mkWaits inflight requested (delay_armed (waits o)) (deadline_armed (waits o))) o.
Definition set_delay (b : bool) (o : KlConnectOp) : KlConnectOp :=
  set_waits (mkWaits (resolve_inflight (waits o)) (resolve_cancel_requested (waits o)) b (deadline_armed (waits o))) o.
Definition set_deadline (b : bool) (o : KlConnectOp) : KlConnectOp :=
  set_waits (mkWaits (resolve_inflight (waits o)) (resolve_cancel_requested (waits o)) (delay_armed (waits o)) b) o.

Definition enter_start (o : KlConnectOp) : KlConnectOp := set_depth (mkDepth (S (in_start (depth o))) (in_dispatch (depth o))) o.
Definition leave_start (o : KlConnectOp) : KlConnectOp := set_depth (mkDepth (Nat.pred (in_start (depth o))) (in_dispatch (depth o))) o.
Definition enter_dispatch (o : KlConnectOp) : KlConnectOp := set_depth (mkDepth (in_start (depth o)) (S (in_dispatch (depth o)))) o.
Definition leave_dispatch (o : KlConnectOp) : KlConnectOp := set_depth (mkDepth (in_start (depth o)) (Nat.pred (in_dispatch (depth o)))) o.

(** A slot in range is active, and its cancellation was requested. *)
Definition active (o : KlConnectOp) (i : nat) : bool := default false (attempt_active (race o) !! i).
Definition requested (o : KlConnectOp) (i : nat) : bool := default false (attempt_cancel_requested (race o) !! i).

Definition begin_attempt (i : nat) (o : KlConnectOp) : KlConnectOp :=
  let r := race o in
  set_race (mkRace (naddrs r) (next_idx r) (pending r + 1) (<[i := true]> (attempt_active r)) (<[i := false]> (attempt_cancel_requested r))) o.
Definition retire_attempt (i : nat) (o : KlConnectOp) : KlConnectOp :=
  let r := race o in
  set_race (mkRace (naddrs r) (next_idx r) (pending r - 1) (<[i := false]> (attempt_active r)) (attempt_cancel_requested r)) o.
Definition request_attempt (i : nat) (o : KlConnectOp) : KlConnectOp :=
  let r := race o in
  set_race (mkRace (naddrs r) (next_idx r) (pending r) (attempt_active r) (<[i := true]> (attempt_cancel_requested r))) o.
Definition advance (o : KlConnectOp) : KlConnectOp :=
  let r := race o in
  set_race (mkRace (naddrs r) (next_idx r + 1) (pending r) (attempt_active r) (attempt_cancel_requested r)) o.

(** ** The adapter *)

(** The entry points of the machine. *)
Inductive call :=
| CStart | CResolved (n : Z) | CResolveFailed (e : Z) | CConnected (idx fd : Z) | CFailed (idx e : Z)
| CDelay | CDeadline (e : Z) | CCancel.

Inductive hook :=
| StartResolve | CancelResolve | StartAttempt (idx : Z) | CancelAttempt (idx : Z) | DisposeFd (fd : Z)
| ArmDelay | CancelDelay | ArmDeadline | CancelDeadline | OnDone (r : KlConnectResult) (fd e : Z) | OnDetach.

(** What happened: a connected descriptor was handed to the machine; the machine called a hook. *)
Inductive event := Given (fd : Z) | Called (h : hook).

(** What one hook call does: entry points it calls, its result and [*out_err], and for [on_detach]
    that the owner frees the operation. *)
Record behaviour := mkBehaviour { calls : list call; ret : Z; err : Z; frees : bool }.

Definition inert : behaviour := mkBehaviour [] 0 0 false.

(** [op] is [None] once it was freed.  [owed]: the terminal was decided and [on_done] is still to be
    called with it. *)
Record sys := mkSys { op : option KlConnectOp; script : list behaviour; log : list event; owed : option (KlConnectResult * Z) }.

Definition set_op (o : option KlConnectOp) (s : sys) : sys := mkSys o (script s) (log s) (owed s).
Definition set_script (b : list behaviour) (s : sys) : sys := mkSys (op s) b (log s) (owed s).
Definition set_owed (x : option (KlConnectResult * Z)) (s : sys) : sys := mkSys (op s) (script s) (log s) x.
Definition emit (e : event) (s : sys) : sys := mkSys (op s) (script s) (log s ++ [e]) (owed s).
Definition put (o : KlConnectOp) (s : sys) : sys := set_op (Some o) s.

(** A write to the operation. *)
Definition upd (f : KlConnectOp -> KlConnectOp) (s : sys) : option sys := o ← op s; Some (put (f o) s).

(** ** The machine *)

(** [run] executes the entry points that a hook calls. *)
Section machine.
Context (run : call -> sys -> option sys).

(** A freed operation is not called any more. *)
Fixpoint run_calls (cs : list call) (s : sys) : option sys :=
  match cs, op s with
  | c :: cs, Some _ => s ← run c s; run_calls cs s
  | _, _ => Some s
  end.

Definition call_hook (h : hook) (s : sys) : option (behaviour * sys) :=
  let s := emit (Called h) s in
  match script s with
  | [] => Some (inert, s)
  | b :: rest => s ← run_calls (calls b) (set_script rest s); Some (b, s)
  end.

Definition co_finalize (s : sys) : option sys :=
  o ← op s;
  if negb (terminal (verdict o)) then Some s
  else if negb (in_start (depth o) =? 0)%nat || negb (in_dispatch (depth o) =? 0)%nat then Some s
  else if resolve_inflight (waits o) then Some s
  else if negb (pending (race o) =? 0) then Some s
  else if delay_armed (waits o) || deadline_armed (waits o) then Some s
  else if detached o then Some s
  else
    let s := put (set_detached o) s in
    if on_detach (hooks o) then
      '(b, s) ← call_hook OnDetach s;
      Some (if frees b then set_op None s else s)
    else Some s.

Definition co_disarm_timers (s : sys) : option sys :=
  o ← op s;
  s ← (if delay_armed (waits o) && cancel_delay (hooks o) then '(_, s) ← call_hook CancelDelay s; Some s else Some s);
  s ← upd (set_delay false) s;
  o ← op s;
  s ← (if deadline_armed (waits o) && cancel_deadline (hooks o) then '(_, s) ← call_hook CancelDeadline s; Some s else Some s);
  upd (set_deadline false) s.

Definition co_dispose (fd : Z) (s : sys) : option sys :=
  s ← upd enter_dispatch s;
  '(_, s) ← call_hook (DisposeFd fd) s;
  s ← upd leave_dispatch s;
  co_finalize s.

(** The loop over the slots from [i] on. *)
Fixpoint cancel_attempts (n i : nat) (s : sys) : option sys :=
  match n with
  | O => Some s
  | S n' =>
      o ← op s;
      s ← (if active o i && cancel_attempt (hooks o) && negb (requested o i) then
             '(_, s) ← call_hook (CancelAttempt (Z.of_nat i)) (put (request_attempt i o) s); Some s
           else Some s);
      cancel_attempts n' (S i) s
  end.

Definition co_request_cancels (s : sys) : option sys :=
  s ← upd enter_dispatch s;
  o ← op s;
  s ← (if resolve_inflight (waits o) && cancel_resolve (hooks o) && negb (resolve_cancel_requested (waits o)) then
         '(_, s) ← call_hook CancelResolve (put (set_resolve true true o) s); Some s
       else Some s);
  s ← cancel_attempts (Z.to_nat KL_CONNECT_MAX_ADDRS) 0 s;
  upd leave_dispatch s.

Definition co_terminal (r : KlConnectResult) (fd e : Z) (s : sys) : option sys :=
  o ← op s;
  if terminal (verdict o) then Some s
  else
    let s := set_owed (Some (r, fd)) (put (enter_dispatch (set_verdict (mkVerdict true r fd e) o)) s) in
    s ← co_disarm_timers s;
    '(_, s) ← call_hook (OnDone r fd e) (set_owed None s);
    s ← co_request_cancels s;
    upd leave_dispatch s.

(** 0 or -1. *)
Definition co_start_one (idx : nat) (s : sys) : option (Z * sys) :=
  s ← upd (fun o => enter_start (begin_attempt idx o)) s;
  '(b, s) ← call_hook (StartAttempt (Z.of_nat idx)) s;
  s ← upd leave_start s;
  o ← op s;
  if negb (active o idx) then Some (0, s)
  else if ret b <? 0 then Some (-1, put (set_last_error (err b) (retire_attempt idx o)) s)
  else Some (0, s).

Definition co_arm_delay (s : sys) : option (Z * sys) :=
  s ← upd (fun o => enter_start (set_delay true o)) s;
  '(b, s) ← call_hook ArmDelay s;
  s ← upd leave_start s;
  o ← op s;
  if negb (delay_armed (waits o)) then Some (0, s)
  else if ret b <? 0 then Some (-1, put (set_delay false o) s)
  else Some (0, s).

Definition connecting (o : KlConnectOp) : bool := bool_decide (state o = KL_CONNECT_OP_STATE_CONNECTING) && negb (terminal (verdict o)).

(** The [while] loop and what follows it; every round moves the cursor. *)
Fixpoint co_start_next (fuel : nat) (s : sys) : option sys :=
  o ← op s;
  if connecting o && (next_idx (race o) <? naddrs (race o)) then
    match fuel with
    | O => None
    | S fuel' =>
        '(rc, s) ← co_start_one (Z.to_nat (next_idx (race o))) (put (advance o) s);
        if rc =? 0 then
          o ← op s;
          if arm_delay (hooks o) && connecting o && (next_idx (race o) <? naddrs (race o)) && negb (delay_armed (waits o)) then
            '(rc, s) ← co_arm_delay s;
            if rc <? 0 then co_start_next fuel' s else Some s
          else Some s
        else co_start_next fuel' s
    end
  else if connecting o && (pending (race o) =? 0) then co_terminal KL_CONNECT_FAILED KL_INVALID_SOCKET (last_error o) s
  else Some s.

Definition start_next : sys -> option sys := co_start_next (S (Z.to_nat KL_CONNECT_MAX_ADDRS)).

(** The result and [*out_err]. *)
Definition co_arm_deadline (s : sys) : option (Z * Z * sys) :=
  o ← op s;
  if negb (arm_deadline (hooks o)) then Some (0, 0, s)
  else
    let s := put (enter_start (set_deadline true o)) s in
    '(b, s) ← call_hook ArmDeadline s;
    s ← upd leave_start s;
    o ← op s;
    if negb (deadline_armed (waits o)) then Some (0, 0, s)
    else if ret b <? 0 then Some (-1, err b, put (set_deadline false o) s)
    else Some (0, 0, s).

(** The part of the start after the deadline was armed. *)
Definition begin_resolve (s : sys) : option sys :=
  s ← upd (fun o => enter_start (set_resolve true (resolve_cancel_requested (waits o)) o)) s;
  '(b, s) ← call_hook StartResolve s;
  s ← upd leave_start s;
  o ← op s;
  s ← (if resolve_inflight (waits o) && (ret b <? 0) then
         co_terminal KL_CONNECT_FAILED KL_INVALID_SOCKET (last_error o) (put (set_resolve false (resolve_cancel_requested (waits o)) o) s)
       else Some s);
  co_finalize s.

Definition kl_connect_op_start (s : sys) : option (Z * sys) :=
  o ← op s;
  if negb (bool_decide (state o = KL_CONNECT_OP_STATE_IDLE)) then Some (-1, s)
  else
    let s := put (set_resolve (resolve_inflight (waits o)) false (set_state KL_CONNECT_OP_STATE_RESOLVING o)) s in
    '(rc, derr, s) ← co_arm_deadline s;
    if rc <? 0 then
      s ← co_terminal KL_CONNECT_FAILED KL_INVALID_SOCKET derr s; s ← co_finalize s; Some (0, s)
    else
      o ← op s;
      if terminal (verdict o) then s ← co_finalize s; Some (0, s)
      else s ← begin_resolve s; Some (0, s).

Definition kl_connect_op_on_resolved (n : Z) (s : sys) : option sys :=
  o ← op s;
  if negb (resolve_inflight (waits o)) then Some s
  else
    let o := set_resolve false (resolve_cancel_requested (waits o)) o in
    if terminal (verdict o) then co_finalize (put o s)
    else
      let n := Z.min (Z.max n 0) KL_CONNECT_MAX_ADDRS in
      let r := race o in
      let o := set_state KL_CONNECT_OP_STATE_CONNECTING
                 (set_race (mkRace n 0 (pending r) (attempt_active r) (attempt_cancel_requested r)) o) in
      s ← (if n =? 0 then co_terminal KL_CONNECT_FAILED KL_INVALID_SOCKET (last_error o) (put o s) else start_next (put o s));
      co_finalize s.

Definition kl_connect_op_on_resolve_failed (e : Z) (s : sys) : option sys :=
  o ← op s;
  if negb (resolve_inflight (waits o)) then Some s
  else
    let o := set_last_error e (set_resolve false (resolve_cancel_requested (waits o)) o) in
    s ← (if terminal (verdict o) then Some (put o s) else co_terminal KL_CONNECT_FAILED KL_INVALID_SOCKET e (put o s));
    co_finalize s.

Definition in_range (idx : Z) : bool := (0 <=? idx) && (idx <? KL_CONNECT_MAX_ADDRS).

Definition kl_connect_op_on_attempt_connected (idx fd : Z) (s : sys) : option sys :=
  let s := emit (Given fd) s in
  o ← op s;
  if negb (in_range idx) then co_dispose fd s
  else if negb (active o (Z.to_nat idx)) then co_dispose fd s
  else
    let s := put (retire_attempt (Z.to_nat idx) o) s in
    if terminal (verdict o) then co_dispose fd s
    else s ← co_terminal KL_CONNECT_SUCCESS fd 0 s; co_finalize s.

Definition kl_connect_op_on_attempt_failed (idx e : Z) (s : sys) : option sys :=
  o ← op s;
  if negb (in_range idx) then Some s
  else if negb (active o (Z.to_nat idx)) then Some s
  else
    let o := set_last_error e (retire_attempt (Z.to_nat idx) o) in
    s ← (if terminal (verdict o) then Some (put o s)
         else if next_idx (race o) <? naddrs (race o) then start_next (put o s)
         else if pending (race o) =? 0 then co_terminal KL_CONNECT_FAILED KL_INVALID_SOCKET e (put o s)
         else Some (put o s));
    co_finalize s.

Definition kl_connect_op_on_delay (s : sys) : option sys :=
  o ← op s;
  if negb (delay_armed (waits o)) then Some s
  else
    let o := set_delay false o in
    s ← (if connecting o then start_next (put o s) else Some (put o s));
    co_finalize s.

Definition kl_connect_op_on_deadline (e : Z) (s : sys) : option sys :=
  o ← op s;
  if negb (deadline_armed (waits o)) then Some s
  else
    let o := set_deadline false o in
    s ← (if terminal (verdict o) then Some (put o s) else co_terminal KL_CONNECT_FAILED KL_INVALID_SOCKET e (put o s));
    co_finalize s.

Definition kl_connect_op_cancel (s : sys) : option sys :=
  o ← op s;
  if detached o then Some s
  else
    s ← (if terminal (verdict o) then co_request_cancels s
         else co_terminal KL_CONNECT_CANCELLED KL_INVALID_SOCKET (last_error o) s);
    co_finalize s.

Definition enter (c : call) (s : sys) : option sys :=
  match c with
  | CStart => '(_, s) ← kl_connect_op_start s; Some s
  | CResolved n => kl_connect_op_on_resolved n s
  | CResolveFailed e => kl_connect_op_on_resolve_failed e s
  | CConnected idx fd => kl_connect_op_on_attempt_connected idx fd s
  | CFailed idx e => kl_connect_op_on_attempt_failed idx e s
  | CDelay => kl_connect_op_on_delay s
  | CDeadline e => kl_connect_op_on_deadline e s
  | CCancel => kl_connect_op_cancel s
  end.

End machine.

(** An entry point, with hooks nested [n] deep; a hook that calls back uses up an entry of the
    script, so the length of the script is enough. *)
Fixpoint run_call (n : nat) (c : call) (s : sys) : option sys :=
  enter (match n with O => fun _ _ => None | S n' => run_call n' end) c s.

Definition kl_connect_op_state (s : sys) : KlConnectOpState := match op s with Some o => state o | None => KL_CONNECT_OP_STATE_DETACHED end.
Definition kl_connect_op_is_detached (s : sys) : Z := match op s with Some o => if detached o then 1 else 0 | None => 0 end.

(** [None] is -1. *)
Definition kl_connect_op_init (h : KlConnectOpHooks) : option KlConnectOp :=
  if negb (start_resolve h) || negb (start_attempt h) || negb (on_done h) then None
  else if negb (dispose_fd h) then None
  else if arm_delay h && negb (cancel_delay h) then None
  else if arm_deadline h && negb (cancel_deadline h) then None
  else Some (mkOp h KL_CONNECT_OP_STATE_IDLE false 0 (mkVerdict false KL_CONNECT_SUCCESS KL_INVALID_SOCKET 0)
         (mkRace 0 0 0 (replicate 8 false) (replicate 8 false)) (mkWaits false false false false) (mkDepth 0 0)).

(** ** The books of an operation *)

Definition count (f : event -> bool) (l : list event) : nat := length (List.filter f l).

Definition is_done (e : event) : bool := match e with Called (OnDone _ _ _) => true | _ => false end.
Definition is_detach (e : event) : bool := match e with Called OnDetach => true | _ => false end.
Definition is_start (i : nat) (e : event) : bool := match e with Called (StartAttempt j) => j =? Z.of_nat i | _ => false end.
Definition is_cancel (i : nat) (e : event) : bool := match e with Called (CancelAttempt j) => j =? Z.of_nat i | _ => false end.
Definition is_cancel_resolve (e : event) : bool := match e with Called CancelResolve => true | _ => false end.

(** Descriptors handed in, and descriptors passed on: to the owner as the winner, or to be closed. *)
Definition given_by (e : event) : list Z := match e with Given fd => [fd] | _ => [] end.
Definition passed_by (e : event) : list Z :=
  match e with Called (DisposeFd fd) | Called (OnDone KL_CONNECT_SUCCESS fd _) => [fd] | _ => [] end.
Definition given (l : list event) : list Z := l ≫= given_by.
Definition passed (l : list event) : list Z := l ≫= passed_by.

Lemma count_snoc f l e : count f (l ++ [e]) = (count f l + if f e then 1 else 0)%nat.
Proof. unfold count. rewrite List.filter_app, length_app. simpl. by destruct (f e). Qed.

Lemma given_snoc l e : given (l ++ [e]) = given l ++ given_by e.
Proof. unfold given. rewrite bind_app. simpl. by rewrite app_nil_r. Qed.

Lemma passed_snoc l e : passed (l ++ [e]) = passed l ++ passed_by e.
Proof. unfold passed. rewrite bind_app. simpl. by rewrite app_nil_r. Qed.

Definition b2n (b : bool) : nat := if b then 1 else 0.

Fixpoint trues (l : list bool) : nat := match l with [] => 0 | b :: l => b2n b + trues l end.

Definition no_timers (o : KlConnectOp) : Prop := delay_armed (waits o) = false /\ deadline_armed (waits o) = false.

(** What always holds of the fields. *)
Record shape (o : KlConnectOp) : Prop := {
  sh_active : length (attempt_active (race o)) = 8%nat;
  sh_requested : length (attempt_cancel_requested (race o)) = 8%nat;
  sh_pending : pending (race o) = Z.of_nat (trues (attempt_active (race o)));
  sh_range : 0 <= next_idx (race o) <= naddrs (race o) /\ naddrs (race o) <= KL_CONNECT_MAX_ADDRS;
  sh_fresh : forall i, next_idx (race o) <= Z.of_nat i -> active o i = false /\ requested o i = false;
  sh_resolve : resolve_inflight (waits o) = true -> naddrs (race o) = 0 /\ state o <> KL_CONNECT_OP_STATE_IDLE;
  sh_idle : state o = KL_CONNECT_OP_STATE_IDLE -> naddrs (race o) = 0 /\ resolve_cancel_requested (waits o) = false;
  sh_state : terminal (verdict o) = bool_decide (state o = KL_CONNECT_OP_STATE_DONE \/ state o = KL_CONNECT_OP_STATE_DETACHED);
  sh_connecting : state o = KL_CONNECT_OP_STATE_CONNECTING -> resolve_inflight (waits o) = false;
  sh_detached : detached o = true -> terminal (verdict o) = true /\ resolve_inflight (waits o) = false /\ pending (race o) = 0 /\ no_timers o;
}.

Definition owed_fds (s : sys) : list Z := match owed s with Some (KL_CONNECT_SUCCESS, fd) => [fd] | _ => [] end.

(** What the log says about them. *)
Record books (s : sys) (o : KlConnectOp) : Prop := {
  bk_done : count is_done (log s) = b2n (terminal (verdict o) && match owed s with None => true | Some _ => false end);
  bk_owed : owed s <> None -> terminal (verdict o) = true /\ detached o = false /\ (0 < in_dispatch (depth o))%nat;
  bk_timers : terminal (verdict o) = true -> owed s = None -> no_timers o;
  bk_detach : count is_detach (log s) = b2n (detached o && on_detach (hooks o));
  bk_fds : given (log s) ≡ₚ passed (log s) ++ owed_fds s;
  bk_start : forall i, count (is_start i) (log s) = b2n (Z.of_nat i <? next_idx (race o));
  bk_cancel : forall i, count (is_cancel i) (log s) = b2n (requested o i);
  bk_resolve : count is_cancel_resolve (log s) = b2n (resolve_cancel_requested (waits o));
}.

(** Not stuck: before the terminal something is outstanding, or a start is on the stack. *)
Definition busy (o : KlConnectOp) : Prop :=
  terminal (verdict o) = false ->
  (state o = KL_CONNECT_OP_STATE_RESOLVING -> resolve_inflight (waits o) = true \/ (0 < in_start (depth o))%nat) /\
  (state o = KL_CONNECT_OP_STATE_CONNECTING -> 0 < pending (race o)).

Definition deep (o : KlConnectOp) : Prop := (0 < in_start (depth o) + in_dispatch (depth o))%nat.

(** At rest, a terminal operation is detached as soon as nothing is outstanding. *)
Definition rested (o : KlConnectOp) : Prop :=
  deep o \/ (terminal (verdict o) = true -> detached o = true \/ resolve_inflight (waits o) = true \/ pending (race o) <> 0).

Record core (s : sys) (o : KlConnectOp) : Prop := { co_shape : shape o; co_books : books s o }.

Record inv (s : sys) (o : KlConnectOp) : Prop := { in_core : core s o; in_busy : busy o; in_rested : rested o }.

(** The states in the order they are passed through. *)
Definition rank (x : KlConnectOpState) : nat :=
  match x with
  | KL_CONNECT_OP_STATE_IDLE => 0 | KL_CONNECT_OP_STATE_RESOLVING => 1 | KL_CONNECT_OP_STATE_CONNECTING => 2
  | KL_CONNECT_OP_STATE_DONE => 3 | KL_CONNECT_OP_STATE_DETACHED => 4
  end.

(** What a call leaves as it was, for the frames below it. *)
Record keeps (o o' : KlConnectOp) : Prop := {
  kp_hooks : hooks o' = hooks o;
  kp_depth : depth o' = depth o;
  kp_detached : detached o = true -> detached o' = true;
  kp_deep : deep o -> detached o' = detached o;
  kp_terminal : terminal (verdict o) = true -> terminal (verdict o') = true;
  kp_rank : (rank (state o) <= rank (state o'))%nat;
  kp_started : state o <> KL_CONNECT_OP_STATE_IDLE -> resolve_inflight (waits o) = false ->
    resolve_inflight (waits o') = false /\ naddrs (race o') = naddrs (race o) /\ next_idx (race o) <= next_idx (race o');
  kp_waiting : state o = KL_CONNECT_OP_STATE_RESOLVING -> state o' = KL_CONNECT_OP_STATE_RESOLVING ->
    resolve_inflight (waits o) = true -> resolve_inflight (waits o') = true;
  kp_resolved : state o = KL_CONNECT_OP_STATE_RESOLVING -> state o' = KL_CONNECT_OP_STATE_CONNECTING -> resolve_inflight (waits o) = true;
  kp_delay : terminal (verdict o) = true -> delay_armed (waits o) = false -> delay_armed (waits o') = false;
  kp_retired : terminal (verdict o) = true -> forall i, active o i = false -> active o' i = false;
}.

Lemma keeps_refl o : keeps o o.
Proof. split; auto. - intros _ E. split; [done|]. split; [done|lia]. - congruence. Qed.

Lemma keeps_trans o1 o2 o3 : keeps o1 o2 -> keeps o2 o3 -> keeps o1 o3.
Proof.
  intros [A1 A2 A3 A4 A5 A6 A7 A8 A9 A10 A11] [B1 B2 B3 B4 B5 B6 B7 B8 B9 B10 B11].
  assert (Hs : state o1 <> KL_CONNECT_OP_STATE_IDLE -> state o2 <> KL_CONNECT_OP_STATE_IDLE).
  { intros H E. rewrite E in A6. destruct (state o1); cbn in A6; try lia. done. }
  split; [congruence|congruence|auto| |auto|lia| | | |auto|auto].
  - intros H. unfold deep in *. rewrite B4 by (rewrite A2; done). by apply A4.
  - intros H E. destruct (A7 H E) as (E1 & E2 & E3). destruct (B7 (Hs H) E1) as (E4 & E5 & E6). split; [done|]. split; [congruence|lia].
  - intros E1 E3 Hr. assert (E2 : state o2 = KL_CONNECT_OP_STATE_RESOLVING) by (rewrite E1 in A6; rewrite E3 in B6; destruct (state o2); cbn in *; done || lia). auto.
  - intros E1 E3. apply not_false_is_true. intros Hr.
    destruct (A7 ltac:(congruence) Hr) as (Hr2 & _). rewrite E1 in A6, A9. rewrite E3 in B6, B9. destruct (state o2); cbn in *; try lia.
    + by rewrite B9 in Hr2.
    + by rewrite A9 in Hr.
Qed.

Lemma slot_insert (l : list bool) i j b : default false (<[i := b]> l !! j) = if decide (i = j /\ (i < length l)%nat) then b else default false (l !! j).
Proof.
  case_decide as H; [destruct H as [<- H]; by rewrite list_lookup_insert_eq by done|].
  destruct (decide (i = j)) as [<-|Hn]; [|by rewrite list_lookup_insert_ne]. rewrite list_insert_ge by lia. done.
Qed.

Lemma active_retire o i j : active o j = false -> active (retire_attempt i o) j = false.
Proof. unfold active. cbn. rewrite slot_insert. by destruct (decide _). Qed.

(** For a single write. *)
Ltac keep := split; cbn; auto; try congruence; try (intros; repeat split; auto; lia); try (intros _ ?; by apply active_retire).

(** After the operation was freed. *)
Record closed (s : sys) : Prop := {
  cl_done : count is_done (log s) = 1%nat;
  cl_detach : count is_detach (log s) = 1%nat;
  cl_fds : given (log s) ≡ₚ passed (log s);
  cl_start : forall i, (count (is_start i) (log s) <= 1)%nat;
  cl_cancel : forall i, (count (is_cancel i) (log s) <= count (is_start i) (log s))%nat;
  cl_resolve : (count is_cancel_resolve (log s) <= 1)%nat;
}.

(** ** Hooks *)

(** The operation is still there, in state [o']. *)
Record goes (s : sys) (o : KlConnectOp) (s' : sys) (o' : KlConnectOp) : Prop := {
  go_op : op s' = Some o';
  go_keeps : keeps o o';
  go_script : (length (script s') <= length (script s))%nat;
  go_owed : owed s' = owed s;
}.

Lemma goes_refl s o : op s = Some o -> goes s o s o.
Proof. intros H. split; [done|apply keeps_refl|lia|done]. Qed.

Lemma goes_trans s1 o1 s2 o2 s3 o3 : goes s1 o1 s2 o2 -> goes s2 o2 s3 o3 -> goes s1 o1 s3 o3.
Proof. intros [A1 A2 A3 A4] [B1 B2 B3 B4]. split; [done|by eapply keeps_trans|lia|congruence]. Qed.

(** The result of an entry point: the operation goes on, or was detached and freed. *)
Definition stable (s : sys) (o : KlConnectOp) (s' : sys) : Prop :=
  (exists o', goes s o s' o' /\ inv s' o') \/
  (op s' = None /\ ~ deep o /\ detached o = false /\ (length (script s') <= length (script s))%nat /\ owed s' = owed s /\ closed s').

(** Nothing below can detach and free it. *)
Definition guarded (o : KlConnectOp) : Prop := deep o \/ detached o = true.

Lemma guarded_keeps o o' : keeps o o' -> guarded o -> guarded o'.
Proof. intros [] [H|H]; [left|right; auto]. unfold deep in *. congruence. Qed.

Lemma core_log s s' o : core s o -> log s' = log s -> owed s' = owed s -> core s' o.
Proof. intros [Hs [B1 B2 B3 B4 B5 B6 B7 B8]] El Eo. split; [done|]. unfold owed_fds in B5. split; unfold owed_fds; rewrite ?El, ?Eo; done. Qed.

Lemma inv_log s s' o : inv s o -> log s' = log s -> owed s' = owed s -> inv s' o.
Proof. intros [H1 H2 H3] El Eo. split; [by eapply core_log|done|done]. Qed.

(** ** Single writes *)

Lemma upd_Some f s o : op s = Some o -> upd f s = Some (put (f o) s).
Proof. intros H. unfold upd. by rewrite H. Qed.

Lemma core_depth s o d : core s o -> (owed s <> None -> (0 < in_dispatch d)%nat) -> core s (set_depth d o).
Proof. intros [[] []] H. split; split; try done. cbn. intros E. destruct (bk_owed0 E) as (? & ? & _). auto. Qed.

Lemma core_error s o e : core s o -> core s (set_last_error e o).
Proof. intros [[] []]. by split; split. Qed.

Lemma core_waits s o w : core s o ->
  (resolve_inflight w = true -> resolve_inflight (waits o) = true \/ state o = KL_CONNECT_OP_STATE_RESOLVING /\ naddrs (race o) = 0) ->
  resolve_cancel_requested w = resolve_cancel_requested (waits o) ->
  (terminal (verdict o) = true -> (delay_armed w = true -> delay_armed (waits o) = true) /\ (deadline_armed w = true -> deadline_armed (waits o) = true)) ->
  core s (set_waits w o).
Proof.
  intros [[S1 S2 S3 S4 S5 S6 S7 S8 S9 S10] [B1 B2 B3 B4 B5 B6 B7 B8]] Hr Hq Ht.
  assert (Hsame : terminal (verdict o) = true -> no_timers o -> no_timers (set_waits w o)).
  { intros T [D1 D2]. destruct (Ht T) as [T1 T2]. split; cbn; [destruct (delay_armed w)|destruct (deadline_armed w)]; auto; [by rewrite T1 in D1|by rewrite T2 in D2]. }
  split; split; cbn; try done; try congruence.
  - intros E. destruct (Hr E) as [H|[H1 H2]]; [auto|]. split; [done|]. congruence.
  - rewrite Hq. done.
  - intros E. apply not_true_is_false. intros E2. destruct (Hr E2) as [H|[H1 H2]]; [|congruence]. by rewrite S9 in H.
  - intros E. destruct (S10 E) as (T & R & P & NT). split; [done|]. split; [|split; [done|by apply Hsame]].
    apply not_true_is_false. intros E2. destruct (Hr E2) as [H|[H1 H2]]; [congruence|]. rewrite T in S8. symmetry in S8. apply bool_decide_eq_true in S8. destruct S8; congruence.
  - intros T W. apply Hsame; auto.
Qed.

(** An event the books do not record. *)
Definition quiet (e : event) : Prop :=
  match e with Called (CancelDelay | CancelDeadline | ArmDelay | ArmDeadline | StartResolve) => True | _ => False end.

Lemma core_quiet s o e : quiet e -> core s o -> core (emit e s) o.
Proof.
  intros Hq [Hs [B1 B2 B3 B4 B5 B6 B7 B8]]. split; [done|].
  destruct e as [|[]]; try done; (split; cbn [log emit owed]; rewrite ?count_snoc, ?given_snoc, ?passed_snoc, ?app_nil_r; cbn; rewrite ?Nat.add_0_r; try done;
    intros i; rewrite count_snoc; cbn; by rewrite Nat.add_0_r).
Qed.

Lemma trues_insert l i b : l !! i = Some (negb b) -> (trues (<[i := b]> l) + b2n (negb b) = trues l + b2n b)%nat.
Proof.
  revert i. induction l as [|c l IH]; intros [|i] H; simplify_eq/=; [lia|]. specialize (IH i H). lia.
Qed.

Lemma slot_lookup (l : list bool) i b : default false (l !! i) = b -> (i < length l)%nat -> l !! i = Some b.
Proof. intros H Hi. destruct (lookup_lt_is_Some_2 l i Hi) as [c E]. rewrite E in *. simplify_eq/=. done. Qed.

Lemma retire_core s o i : core s o -> active o i = true -> core s (retire_attempt i o).
Proof.
  intros [[S1 S2 S3 S4 S5 S6 S7 S8 S9 S10] [B1 B2 B3 B4 B5 B6 B7 B8]] Ha. unfold active in *.
  destruct (attempt_active (race o) !! i) as [c|] eqn:El; simplify_eq/=. pose proof (trues_insert _ _ false El) as Ht. cbn in Ht.
  split; split; cbn; try done.
  - by rewrite length_insert.
  - rewrite S3. lia.
  - intros j Hj. split; [|by apply S5]. unfold active. cbn. rewrite slot_insert. destruct (decide (i = j /\ _)); [done|]. by apply S5.
  - intros E. destruct (S10 E) as (T & R & P & NT). rewrite P in S3. exfalso. lia.
Qed.

(** ** The terminal *)

Lemma keeps_dispatch o o' : keeps (enter_dispatch o) o' -> keeps o (leave_dispatch o').
Proof.
  intros [A1 A2 A3 A4 A5 A6 A7 A8 A9 A10 A11]. split; try done.
  - cbn. rewrite A2. cbn. by destruct (depth o).
  - cbn. intros _. apply A4. unfold deep. cbn. lia.
Qed.

Lemma core_leave s o : core s o -> (owed s <> None -> (1 < in_dispatch (depth o))%nat) -> core s (leave_dispatch o).
Proof. intros Hc H. apply core_depth; [done|]. cbn. intros Hw. specialize (H Hw). lia. Qed.

Lemma core_enter s o : core s o -> core s (enter_dispatch o).
Proof. intros Hc. apply core_depth; [done|]. cbn. lia. Qed.

Lemma live_state o : shape o -> terminal (verdict o) = false -> state o <> KL_CONNECT_OP_STATE_DETACHED /\ state o <> KL_CONNECT_OP_STATE_DONE /\ detached o = false.
Proof.
  intros [] T. rewrite T in sh_state0. symmetry in sh_state0. apply bool_decide_eq_false in sh_state0. split; [tauto|]. split; [tauto|].
  apply not_true_is_false. intros E. destruct (sh_detached0 E). congruence.
Qed.

Lemma live_owed s o : core s o -> terminal (verdict o) = false -> owed s = None.
Proof. intros [_ []] T. destruct (owed s); [|done]. destruct bk_owed0; [done|congruence]. Qed.

(** Deciding the terminal leaves the call of [on_done] owed. *)
Lemma decide_core s s2 o r fd e : core s o -> terminal (verdict o) = false ->
  r <> KL_CONNECT_SUCCESS /\ log s2 = log s \/ r = KL_CONNECT_SUCCESS /\ log s2 = log s ++ [Given fd] ->
  core (set_owed (Some (r, fd)) s2) (enter_dispatch (set_verdict (mkVerdict true r fd e) o)).
Proof.
  intros Hc T Hl. pose proof (live_owed _ _ Hc T) as Hw. pose proof (live_state _ (co_shape _ _ Hc) T) as (_ & _ & Hd).
  destruct Hc as [[S1 S2 S3 S4 S5 S6 S7 S8 S9 S10] [B1 B2 B3 B4 B5 B6 B7 B8]]. rewrite T in B1. cbn in B1.
  unfold owed_fds in B5. rewrite Hw, app_nil_r in B5.
  assert (Hq : forall f, (forall x, f (Given x) = false) -> count f (log s2) = count f (log s)).
  { intros f Hf. destruct Hl as [[_ ->]|[_ ->]]; [done|]. rewrite count_snoc, Hf. lia. }
  split; [split; cbn; try done; [|congruence]; intros E; split; [by apply S6|done]|].
  split; cbn [log set_owed owed verdict enter_dispatch set_depth set_verdict terminal race waits hooks detached depth in_dispatch];
    try (intros i); rewrite ?Hq by done; try done.
  - split; [done|]. split; [done|lia].
  - unfold owed_fds. cbn. destruct Hl as [[Hr ->]|[-> ->]]; [destruct r; [done|..]; by rewrite app_nil_r|]. rewrite given_snoc, passed_snoc, app_nil_r. by rewrite B5.
Qed.

Lemma done_core s o r fd e : core s o -> owed s = Some (r, fd) -> no_timers o -> core (emit (Called (OnDone r fd e)) (set_owed None s)) o.
Proof.
  intros [Hs [B1 B2 B3 B4 B5 B6 B7 B8]] Hw Hn. rewrite Hw in *. split; [done|]. destruct B2 as (T & _); [done|]. rewrite T in B1. unfold owed_fds in B5. rewrite Hw in B5.
  split; cbn [log emit set_owed owed]; try (intros i); rewrite ?count_snoc, ?given_snoc, ?passed_snoc, ?T; cbn [is_done is_detach is_start is_cancel is_cancel_resolve given_by passed_by];
    rewrite ?Nat.add_0_r, ?app_nil_r, ?B1; try done.
Qed.

Lemma request_core s o i : core s o -> active o i = true -> requested o i = false -> core (emit (Called (CancelAttempt (Z.of_nat i))) s) (request_attempt i o).
Proof.
  intros [[S1 S2 S3 S4 S5 S6 S7 S8 S9 S10] [B1 B2 B3 B4 B5 B6 B7 B8]] Ha Hr.
  assert (Hi : (i < 8)%nat) by (unfold active in Ha; destruct (attempt_active (race o) !! i) eqn:E; [apply lookup_lt_Some in E; lia|done]).
  assert (Hq : forall j, requested (request_attempt i o) j = if decide (i = j) then true else requested o j).
  { intros j. unfold requested. cbn. rewrite slot_insert, S2. destruct (decide (i = j)) as [->|Hn]; [by rewrite decide_True by auto|]. by rewrite decide_False by tauto. }
  split; split; cbn [log emit owed request_attempt set_race verdict race waits hooks detached depth attempt_active attempt_cancel_requested pending naddrs next_idx state];
    try (intros j); rewrite ?count_snoc, ?given_snoc, ?passed_snoc; cbn [is_done is_detach is_start is_cancel is_cancel_resolve given_by passed_by];
    rewrite ?Nat.add_0_r, ?app_nil_r; try done; try (by auto).
  - by rewrite length_insert.
  - intros Hj. destruct (S5 j Hj) as [A1 A2]. split; [done|]. rewrite Hq. destruct (decide (i = j)); [|done]. subst. congruence.
  - rewrite B7, Hq. destruct (decide (i = j)) as [<-|Hn]; [rewrite Hr, Z.eqb_refl; done|]. destruct (Z.eqb_spec (Z.of_nat i) (Z.of_nat j)); [lia|]. lia.
Qed.

Lemma request_resolve_core s o : core s o -> resolve_inflight (waits o) = true -> resolve_cancel_requested (waits o) = false ->
  core (emit (Called CancelResolve) s) (set_resolve true true o).
Proof.
  intros [[S1 S2 S3 S4 S5 S6 S7 S8 S9 S10] [B1 B2 B3 B4 B5 B6 B7 B8]] Ha Hr.
  assert (Hi : state o <> KL_CONNECT_OP_STATE_IDLE) by by apply S6.
  split; split; cbn [log emit owed set_resolve set_waits verdict race waits hooks detached depth state resolve_inflight resolve_cancel_requested];
    try (intros j); rewrite ?count_snoc, ?given_snoc, ?passed_snoc; cbn [is_done is_detach is_start is_cancel is_cancel_resolve given_by passed_by];
    rewrite ?Nat.add_0_r, ?app_nil_r; try done; try (by auto).
  - apply S5.
  - by rewrite S9 in Ha.
  - destruct (S10 j) as (_ & ? & _). congruence.
  - by rewrite B8, Hr.
Qed.

Section proofs.
Context (N : nat) (run : call -> sys -> option sys).
Context (Hrun : forall c s o, (length (script s) < N)%nat -> op s = Some o -> inv s o -> exists s', run c s = Some s' /\ stable s o s').

Lemma run_calls_spec cs s o : (length (script s) < N)%nat -> op s = Some o -> inv s o -> guarded o ->
  exists s' o', run_calls run cs s = Some s' /\ goes s o s' o' /\ inv s' o'.
Proof.
  revert s o. induction cs as [|c cs IH]; intros s o Hn Ho Hi Hg; cbn [run_calls].
  { exists s, o. split; [done|]. split; [by apply goes_refl|done]. }
  rewrite Ho. destruct (Hrun c s o Hn Ho Hi) as (s1 & -> & [(o1 & G1 & I1)|(_ & Hd & He & _)]); cycle 1.
  { destruct Hg; [done|congruence]. }
  rewrite bind_Some_l. pose proof G1 as [E1 K1 L1 W1]. destruct (IH s1 o1) as (s2 & o2 & -> & G2 & I2); [lia|done|done|by eapply guarded_keeps|].
  exists s2, o2. split; [done|]. split; [by eapply goes_trans|done].
Qed.

Lemma hook_spec h s o : (length (script s) <= N)%nat -> op s = Some o -> inv (emit (Called h) s) o -> guarded o ->
  exists b s' o', call_hook run h s = Some (b, s') /\ goes s o s' o' /\ inv s' o'.
Proof.
  intros Hn Ho Hi Hg. unfold call_hook. cbn [script emit]. destruct (script s) as [|b rest] eqn:Es.
  { exists inert, (emit (Called h) s), o. split; [done|]. split; [|done]. split; [done|apply keeps_refl|cbn; by rewrite Es|done]. }
  destruct (run_calls_spec (calls b) (set_script rest (emit (Called h) s)) o) as (s' & o' & -> & [G1 G2 G3 G4] & I); [simpl in *; lia|done|by eapply inv_log|done|].
  rewrite bind_Some_l. exists b, s', o'. split; [done|]. split; [|done]. split; [done|done| |done]. cbn in G3. rewrite Es. simpl. lia.
Qed.

Lemma b2n_le b : (b2n b <= 1)%nat.
Proof. destruct b; simpl; lia. Qed.

(** Only what was started is cancelled. *)
Lemma cancelled_started s o : core s o -> forall i, (count (is_cancel i) (log s) <= count (is_start i) (log s))%nat.
Proof.
  intros [Hs Hb] i. rewrite (bk_cancel _ _ Hb), (bk_start _ _ Hb). destruct (Z.ltb_spec (Z.of_nat i) (next_idx (race o))) as [H|H]; [apply b2n_le|].
  destruct (sh_fresh _ Hs i H) as [_ ->]. done.
Qed.

Lemma detach_core s o : core s o -> terminal (verdict o) = true -> ~ deep o -> resolve_inflight (waits o) = false -> pending (race o) = 0 -> detached o = false ->
  let s1 := put (set_detached o) s in
  core (if on_detach (hooks o) then emit (Called OnDetach) s1 else s1) (set_detached o) /\ keeps o (set_detached o) /\ owed s = None.
Proof.
  intros [[S1 S2 S3 S4 S5 S6 S7 S8 S9 S10] [B1 B2 B3 B4 B5 B6 B7 B8]] Ht Hd Hr Hp Hdet s1.
  assert (Ho : owed s = None) by (destruct (owed s); [|done]; destruct B2 as (_ & _ & ?); [done|]; unfold deep in Hd; lia).
  rewrite Hdet in B4. cbn [andb b2n] in B4. split; [|split; [|done]].
  - split.
    + split; cbn; try done; [congruence|]. intros _. split; [done|]. split; [done|]. split; [done|]. by apply B3.
    + destruct (on_detach (hooks o)) eqn:Eh; split; cbn [s1 log put set_op emit owed verdict set_detached waits race hooks depth detached];
        rewrite ?count_snoc, ?given_snoc, ?passed_snoc, ?app_nil_r; cbn [given_by passed_by is_done is_detach is_start is_cancel is_cancel_resolve];
        rewrite ?Nat.add_0_r, ?Eh, ?B4; try done; try (intros i; rewrite count_snoc, Nat.add_0_r; done); try (rewrite Ho; done).
  - split; cbn; try done; try congruence; [destruct (state o); cbn; lia].
Qed.

Lemma finalize_spec s o : (length (script s) <= N)%nat -> op s = Some o -> core s o -> busy o ->
  exists s', co_finalize run s = Some s' /\ stable s o s'.
Proof.
  intros Hn Ho Hc Hb. unfold co_finalize. rewrite Ho, bind_Some_l.
  assert (Hstay : rested o -> exists s', Some s = Some s' /\ stable s o s').
  { intros Hr. exists s. split; [done|]. left. exists o. split; [by apply goes_refl|by split]. }
  destruct (terminal (verdict o)) eqn:Ht; cbn [negb]; [|apply Hstay; right; congruence].
  destruct (Nat.eqb_spec (in_start (depth o)) 0) as [E1|E1], (Nat.eqb_spec (in_dispatch (depth o)) 0) as [E2|E2]; cbn [negb orb];
    try (apply Hstay; left; unfold deep; lia).
  destruct (resolve_inflight (waits o)) eqn:Er; [apply Hstay; right; auto|].
  destruct (Z.eqb_spec (pending (race o)) 0) as [Ep|Ep]; cbn [negb]; [|apply Hstay; right; auto].
  assert (Hnd : ~ deep o) by (unfold deep; lia).
  assert (Hw : owed s = None) by (destruct (owed s) eqn:E; [|done]; destruct (bk_owed _ _ (co_books _ _ Hc)) as (_ & _ & ?); [congruence|lia]).
  destruct (bk_timers _ _ (co_books _ _ Hc) Ht Hw) as [-> ->]. cbn [orb]. destruct (detached o) eqn:Ed; [apply Hstay; right; auto|]. clear Hstay.
  destruct (detach_core s o Hc Ht Hnd Er Ep Ed) as (Hc1 & Hk1 & _).
  set (o1 := set_detached o) in *. set (s1 := put o1 s) in *.
  assert (Hbusy : busy o1) by (intros E; cbn in E; congruence). assert (Hrest : rested o1) by (right; intros _; by left).
  destruct (on_detach (hooks o)) eqn:Eh; cycle 1.
  { exists s1. split; [done|]. left. exists o1. split; [by split|by split]. }
  destruct (hook_spec OnDetach s1 o1) as (b & s2 & o2 & -> & [G1 G2 G3 G4] & I2); [done|done|by split|by right|]. rewrite bind_Some_l.
  destruct (frees b).
  - eexists. split; [done|]. right. cbn [op set_op script owed]. split; [done|]. split; [done|]. split; [done|]. split; [exact G3|]. split; [exact G4|].
    destruct I2 as [[Hs2 [B1 B2 B3 B4 B5 B6 B7 B8]] _ _]. assert (Hw2 : owed s2 = None) by (rewrite G4; exact Hw).
    assert (Ht2 : terminal (verdict o2) = true) by (apply (kp_terminal _ _ G2); done).
    split; cbn [log set_op]; [by rewrite B1, Ht2, Hw2| | |intros i; rewrite B6; apply b2n_le|by apply (cancelled_started s2 o2)|rewrite B8; apply b2n_le].
    + rewrite B4, (kp_detached _ _ G2 eq_refl), (kp_hooks _ _ G2). cbn. by rewrite Eh.
    + rewrite B5. unfold owed_fds. rewrite Hw2. by rewrite app_nil_r.
  - exists s2. split; [done|]. left. exists o2. split; [|done]. split; [done|by eapply keeps_trans|exact G3|exact G4].
Qed.

(** A hook called from a frame that raised a depth counter. *)
Lemma frame_hook d h s o : (length (script s) <= N)%nat -> op s = Some (set_depth d o) -> (0 < in_start d + in_dispatch d)%nat ->
  (in_dispatch (depth o) <= in_dispatch d)%nat -> core (emit (Called h) s) o -> busy (set_depth d o) ->
  exists b s1 o', call_hook run h s = Some (b, s1) /\ op s1 = Some (set_depth d o') /\ depth o' = depth o /\
    goes s o (put o' s1) o' /\ core (put o' s1) o' /\ busy (set_depth d o').
Proof.
  intros Hn Ho Hd Hle Hc Hb.
  destruct (hook_spec h s (set_depth d o)) as (b & s1 & o2 & E & [G1 G2 G3 G4] & [[Hs Hk] Hb2 Hr]); [done|done| |by left|].
  { split; [|done|by left]. apply core_depth; [done|]. intros Hw. destruct (bk_owed _ _ (co_books _ _ Hc) Hw) as (_ & _ & ?). lia. }
  assert (E2 : o2 = set_depth d (set_depth (depth o) o2)) by (pose proof (kp_depth _ _ G2) as Ed; cbn in Ed; destruct o2; cbn in *; by subst).
  exists b, s1, (set_depth (depth o) o2). rewrite <- E2. split; [done|]. split; [done|]. split; [done|]. split; [|split; [|done]].
  - split; [done| |done|done]. destruct G2 as [A1 A2 A3 A4 A5 A6 A7 A8 A9 A10 A11]. split; try done. cbn. intros _. by apply A4.
  - apply (core_log s1); [|done|done]. apply core_depth; [by split|]. intros Hw. rewrite G4 in Hw. by destruct (bk_owed _ _ (co_books _ _ Hc) Hw) as (_ & _ & ?).
Qed.

Lemma start_hook h s o : (length (script s) <= N)%nat -> op s = Some (enter_start o) -> core (emit (Called h) s) o -> busy (enter_start o) ->
  exists b s1 s' o', call_hook run h s = Some (b, s1) /\ upd leave_start s1 = Some s' /\ goes s o s' o' /\ core s' o' /\ busy (enter_start o').
Proof.
  intros Hn Ho Hc Hb. destruct (frame_hook _ h s o Hn Ho) as (b & s1 & o' & E & Ho' & Hd & G & C & B); [cbn; lia|cbn; lia|done|done|].
  exists b, s1, (put o' s1), o'. split; [done|]. split; [|split; [done|split; [done|]]].
  - unfold upd. rewrite Ho', bind_Some_l. f_equal. f_equal. destruct o'; cbn in *; subst. unfold leave_start, set_depth. cbn. by destruct (depth o).
  - unfold enter_start. by rewrite Hd.
Qed.

Lemma dispatch_hook h s o : (length (script s) <= N)%nat -> op s = Some (enter_dispatch o) -> core (emit (Called h) s) o -> busy o ->
  exists b s1 s' o', call_hook run h s = Some (b, s1) /\ upd leave_dispatch s1 = Some s' /\ goes s o s' o' /\ core s' o' /\ busy o'.
Proof.
  intros Hn Ho Hc Hb. destruct (frame_hook _ h s o Hn Ho) as (b & s1 & o' & E & Ho' & Hd & G & C & B); [cbn; lia|cbn; lia|done|done|].
  exists b, s1, (put o' s1), o'. split; [done|]. split; [|split; [done|split; [done|]]].
  - unfold upd. rewrite Ho', bind_Some_l. f_equal. f_equal. destruct o'; cbn in *; subst. unfold leave_dispatch, set_depth. cbn. by destruct (depth o).
  - intros T. specialize (B T). cbn in B. by rewrite Hd.
Qed.

Lemma busy_terminal o : terminal (verdict o) = true -> busy o.
Proof. intros H E. congruence. Qed.

(** Inside a frame, for a terminal operation. *)
Lemma terminal_hook h s o : (length (script s) <= N)%nat -> op s = Some o -> core (emit (Called h) s) o -> terminal (verdict o) = true -> guarded o -> deep o ->
  exists b s' o', call_hook run h s = Some (b, s') /\ goes s o s' o' /\ core s' o' /\ terminal (verdict o') = true.
Proof.
  intros Hn Ho Hc Ht Hg Hd. destruct (hook_spec h s o Hn Ho) as (b & s' & o' & E & G & I); [split; [done|by apply busy_terminal|by left]|done|].
  exists b, s', o'. split; [done|]. split; [done|]. split; [apply I|]. by apply (kp_terminal _ _ (go_keeps _ _ _ _ G)).
Qed.

Lemma quiet_hook (c : bool) h s o : (length (script s) <= N)%nat -> op s = Some o -> core s o -> quiet (Called h) -> terminal (verdict o) = true -> deep o ->
  exists s' o', (if c then '(_, s) ← call_hook run h s; Some s else Some s) = Some s' /\ goes s o s' o' /\ core s' o' /\ terminal (verdict o') = true.
Proof.
  intros Hn Ho Hc Hq Ht Hd. destruct c; [|exists s, o; split; [done|]; split; [by apply goes_refl|done]].
  destruct (terminal_hook h s o) as (b & s' & o' & -> & G & C & T); [done|done|by apply core_quiet|done|by left|done|]. exists s', o'. done.
Qed.

Lemma deep_keeps o o' : keeps o o' -> deep o -> deep o'.
Proof. intros K. unfold deep. by rewrite (kp_depth _ _ K). Qed.

Lemma disarm_spec s o : (length (script s) <= N)%nat -> op s = Some o -> core s o -> terminal (verdict o) = true -> deep o ->
  exists s' o', co_disarm_timers run s = Some s' /\ goes s o s' o' /\ core s' o' /\ terminal (verdict o') = true /\ no_timers o'.
Proof.
  intros Hn Ho Hc Ht Hd. unfold co_disarm_timers. rewrite Ho, bind_Some_l.
  destruct (quiet_hook (delay_armed (waits o) && cancel_delay (hooks o)) CancelDelay s o) as (s1 & o1 & -> & [G1 K1 L1 W1] & C1 & T1); try done.
  rewrite bind_Some_l, (upd_Some _ _ _ G1), bind_Some_l. cbn [op put set_op]. rewrite bind_Some_l.
  set (o2 := set_delay false o1). assert (K2 : keeps o1 o2) by keep.
  assert (C2 : core (put o2 s1) o2) by (eapply core_log; [apply core_waits; [exact C1|..]|done|done]; cbn; auto; done).
  destruct (quiet_hook (deadline_armed (waits o2) && cancel_deadline (hooks o2)) CancelDeadline (put o2 s1) o2) as (s3 & o3 & -> & [G3 K3 L3 W3] & C3 & T3); try done;
    [cbn; lia|by do 2 (eapply deep_keeps; [eassumption|])|].
  rewrite bind_Some_l, (upd_Some _ _ _ G3). set (o4 := set_deadline false o3). assert (K4 : keeps o3 o4) by keep.
  exists (put o4 s3), o4. split; [done|]. split; [|split; [|split; [done|]]].
  - split; [done| |cbn in *; lia|cbn in *; congruence]. exact (keeps_trans _ _ _ K1 (keeps_trans _ _ _ K2 (keeps_trans _ _ _ K3 K4))).
  - eapply core_log; [apply core_waits; [exact C3|..]|done|done]; cbn; auto; done.
  - split; cbn; [|done]. by apply (kp_delay _ _ K3).
Qed.

Lemma cancel_attempts_spec n : forall i s o, (length (script s) <= N)%nat -> op s = Some o -> core s o -> terminal (verdict o) = true -> deep o ->
  exists s' o', cancel_attempts run n i s = Some s' /\ goes s o s' o' /\ core s' o' /\ terminal (verdict o') = true.
Proof.
  induction n as [|n IH]; intros i s o Hn Ho Hc Ht Hd; cbn [cancel_attempts].
  { exists s, o. split; [done|]. split; [by apply goes_refl|done]. }
  rewrite Ho, bind_Some_l. destruct (active o i && cancel_attempt (hooks o) && negb (requested o i)) eqn:E; cycle 1.
  { rewrite bind_Some_l. by apply IH. }
  apply andb_prop in E as [E E3]. apply andb_prop in E as [E1 E2]. apply negb_true_iff in E3. set (o1 := request_attempt i o). assert (K1 : keeps o o1) by keep.
  destruct (terminal_hook (CancelAttempt (Z.of_nat i)) (put o1 s) o1) as (b & s2 & o2 & -> & [G2 K2 L2 W2] & C2 & T2); try done.
  { eapply core_log; [by apply request_core|done|done]. } { by left. }
  rewrite !bind_Some_l. destruct (IH (S i) s2 o2) as (s3 & o3 & -> & G3 & C3 & T3); [cbn in *; lia|done|done|done|by eapply deep_keeps|].
  exists s3, o3. split; [done|]. split; [|done]. apply (goes_trans _ _ s2 o2); [|done]. split; [done|by eapply keeps_trans|done|done].
Qed.

Lemma request_cancels_spec s o : (length (script s) <= N)%nat -> op s = Some o -> core s o -> terminal (verdict o) = true ->
  exists s' o', co_request_cancels run s = Some s' /\ goes s o s' o' /\ core s' o' /\ terminal (verdict o') = true.
Proof.
  intros Hn Ho Hc Ht. unfold co_request_cancels. rewrite (upd_Some _ _ _ Ho), bind_Some_l. cbn [op put set_op]. rewrite bind_Some_l.
  set (o1 := enter_dispatch o). assert (Hd1 : deep o1) by (unfold deep; cbn; lia). assert (C1 : core (put o1 s) o1) by (eapply core_log; [by apply core_enter|done|done]).
  match goal with |- context [mbind _ (if ?c then ?x else ?y)] => assert (exists s2 o2, (if c then x else y) = Some s2 /\ goes (put o1 s) o1 s2 o2 /\ core s2 o2 /\ terminal (verdict o2) = true) as (s2 & o2 & -> & G2 & C2 & T2) end.
  { destruct (resolve_inflight (waits o1) && cancel_resolve (hooks o1) && negb (resolve_cancel_requested (waits o1))) eqn:E; cycle 1.
    { exists (put o1 s), o1. split; [done|]. split; [by apply goes_refl|done]. }
    apply andb_prop in E as [E E3]. apply andb_prop in E as [E1 E2]. apply negb_true_iff in E3.
    set (o2 := set_resolve true true o1). assert (K2 : keeps o1 o2) by (unfold o1, o2 in *; cbn in *; keep).
    destruct (terminal_hook CancelResolve (put o2 (put o1 s)) o2) as (b & s3 & o3 & -> & [G3 K3 L3 W3] & C3 & T3); try done.
    { eapply core_log; [by apply request_resolve_core|done|done]. } { by left. }
    exists s3, o3. split; [done|]. split; [|done]. split; [done|by eapply keeps_trans|done|done]. }
  rewrite bind_Some_l. pose proof G2 as [E2 K2 L2 W2]. destruct (cancel_attempts_spec (Z.to_nat KL_CONNECT_MAX_ADDRS) 0 s2 o2) as (s3 & o3 & -> & G3 & C3 & T3); [cbn in *; lia|done|done|done|by eapply deep_keeps|].
  rewrite bind_Some_l. pose proof (goes_trans _ _ _ _ _ _ G2 G3) as [E4 K4 L4 W4]. rewrite (upd_Some _ _ _ E4). exists (put (leave_dispatch o3) s3), (leave_dispatch o3). split; [done|].
  split; [split; [done|by apply keeps_dispatch|done|done]|]. split; [|done]. apply (core_log s3); [|done|done]. apply core_leave; [done|].
  intros Hw. rewrite W4 in Hw. rewrite (kp_depth _ _ K4). cbn. destruct (bk_owed _ _ (co_books _ _ Hc) Hw) as (_ & _ & ?). lia.
Qed.

Lemma terminal_spec r fd e s o : let o1 := enter_dispatch (set_verdict (mkVerdict true r fd e) o) in
  (length (script s) <= N)%nat -> op s = Some o -> terminal (verdict o) = false -> state o <> KL_CONNECT_OP_STATE_DETACHED -> owed s = None -> core (set_owed (Some (r, fd)) s) o1 ->
  exists s' o', co_terminal run r fd e s = Some s' /\ goes s o s' o' /\ core s' o' /\ terminal (verdict o') = true.
Proof.
  intros o1 Hn Ho Ht Hs Hw Hc. unfold co_terminal. rewrite Ho, bind_Some_l, Ht. fold o1. set (s1 := set_owed _ _).
  assert (Hd1 : deep o1) by (unfold deep; cbn; lia).
  destruct (disarm_spec s1 o1) as (s2 & o2 & -> & [G2 K2 L2 W2] & C2 & T2 & NT); [done|done|by eapply core_log|done|done|]. rewrite bind_Some_l.
  destruct (terminal_hook (OnDone r fd e) (set_owed None s2) o2) as (b & s3 & o3 & -> & [G3 K3 L3 W3] & C3 & T3); [cbn in *; lia|done|by apply done_core|done| |by eapply deep_keeps|].
  { left. by eapply deep_keeps. }
  rewrite bind_Some_l. destruct (request_cancels_spec s3 o3) as (s4 & o4 & -> & [G4 K4 L4 W4] & C4 & T4); [cbn in *; lia|done|done|done|].
  rewrite bind_Some_l, (upd_Some _ _ _ G4). assert (K : keeps o (leave_dispatch o4)).
  { eapply keeps_trans; [|apply keeps_dispatch; exact (keeps_trans _ _ _ K2 (keeps_trans _ _ _ K3 K4))]. keep. destruct (state o); cbn; try lia. done. }
  assert (W : owed s4 = None) by (rewrite W4, W3; done).
  exists (put (leave_dispatch o4) s4), (leave_dispatch o4). split; [done|]. split; [split; [done|done|cbn in *; lia|cbn in *; congruence]|]. split; [|done].
  apply (core_log s4); [|done|done]. apply core_leave; [done|]. by rewrite W.
Qed.

Lemma terminal_fail_spec r fd e s o : (length (script s) <= N)%nat -> op s = Some o -> core s o -> terminal (verdict o) = false -> r <> KL_CONNECT_SUCCESS ->
  exists s' o', co_terminal run r fd e s = Some s' /\ goes s o s' o' /\ core s' o' /\ terminal (verdict o') = true.
Proof.
  intros Hn Ho Hc Ht Hr. apply terminal_spec; try done; [by apply live_state; [apply Hc|]|by eapply live_owed|]. apply (decide_core s); auto.
Qed.

(** ** Starting attempts *)

Lemma trues_pos l i : l !! i = Some true -> (0 < trues l)%nat.
Proof. revert i. induction l as [|b l IH]; intros [|i] H; simplify_eq/=; [lia|]. specialize (IH i H). lia. Qed.

Lemma begin_core s o : core s o -> terminal (verdict o) = false -> next_idx (race o) < naddrs (race o) -> state o = KL_CONNECT_OP_STATE_CONNECTING ->
  let i := Z.to_nat (next_idx (race o)) in let o1 := begin_attempt i (advance o) in
  core (emit (Called (StartAttempt (Z.of_nat i))) s) o1 /\ keeps o o1 /\ 0 < pending (race o1) /\ naddrs (race o1) = naddrs (race o) /\ next_idx (race o1) = next_idx (race o) + 1.
Proof.
  intros [Hs [B1 B2 B3 B4 B5 B6 B7 B8]] Ht Hlt Hst i o1. pose proof (live_state _ Hs Ht) as (_ & _ & Hd). pose proof Hs as [S1 S2 S3 S4 S5 S6 S7 S8 S9 S10].
  destruct S4 as [[N1 N2] N3]. unfold KL_CONNECT_MAX_ADDRS in N3. assert (Ei : Z.of_nat i = next_idx (race o)) by lia. destruct (S5 i) as [F1 F2]; [lia|].
  assert (El : attempt_active (race o) !! i = Some false) by (apply slot_lookup; [done|lia]). pose proof (trues_insert _ _ true El) as Htr. cbn in Htr.
  assert (Hq : forall j, active o1 j = (if decide (i = j) then true else active o j) /\ requested o1 j = requested o j).
  { intros j. unfold active, requested, o1. cbn. rewrite !slot_insert, S1, S2. destruct (decide (i = j)) as [<-|Hn].
    - rewrite !decide_True by lia. split; [done|]. symmetry. exact F2.
    - by rewrite !decide_False by tauto. }
  split; [|split; [keep|cbn; rewrite S3; lia]]. split.
  - split; try done; try (cbn; by rewrite length_insert); try (cbn; lia); try (cbn; congruence).
    { unfold KL_CONNECT_MAX_ADDRS. cbn. lia. }
    cbn [o1 begin_attempt advance set_race race next_idx]. intros j Hj. destruct (Hq j) as [-> ->]. destruct (decide (i = j)); [lia|]. apply S5. lia.
  - split; cbn [log emit owed o1 begin_attempt advance set_race verdict race waits hooks detached depth next_idx]; try (intros j); rewrite ?count_snoc, ?given_snoc, ?passed_snoc;
      cbn [is_done is_detach is_start is_cancel is_cancel_resolve given_by passed_by]; rewrite ?Nat.add_0_r, ?app_nil_r; try done; try (by auto).
    + rewrite B6. destruct (Z.ltb_spec (Z.of_nat j) (next_idx (race o))), (Z.ltb_spec (Z.of_nat j) (next_idx (race o) + 1)), (Z.eqb_spec (Z.of_nat i) (Z.of_nat j)); cbn; lia.
    + destruct (Hq j) as [_ ->]. apply B7.
Qed.

Lemma busy_leave o : busy (enter_start o) -> (2 <= rank (state o))%nat -> busy o.
Proof. intros Hb Hr T. destruct (Hb T) as [_ B]. split; [|exact B]. intros E. rewrite E in Hr. cbn in Hr. lia. Qed.

Lemma connecting_spec o : connecting o = true <-> state o = KL_CONNECT_OP_STATE_CONNECTING /\ terminal (verdict o) = false.
Proof. unfold connecting. rewrite andb_true_iff, bool_decide_eq_true, negb_true_iff. done. Qed.

Lemma start_one_spec s o : let i := Z.to_nat (next_idx (race o)) in
  (length (script s) <= N)%nat -> core s o -> connecting o = true -> next_idx (race o) < naddrs (race o) ->
  exists rc s' o', co_start_one run i (put (advance o) s) = Some (rc, s') /\ goes s o s' o' /\ core s' o' /\ (2 <= rank (state o'))%nat /\
    next_idx (race o) < next_idx (race o') /\ naddrs (race o') = naddrs (race o) /\ (rc = 0 /\ busy o' \/ rc = -1).
Proof.
  intros i Hn Hc Hk Hlt. apply connecting_spec in Hk as [Hst Ht]. destruct (begin_core s o Hc Ht Hlt Hst) as (C1 & K1 & P1 & A1 & X1). fold i in C1, K1, P1, A1, X1. set (o1 := begin_attempt i (advance o)) in *.
  unfold co_start_one. rewrite (upd_Some _ _ (advance o)) by done. rewrite bind_Some_l. fold o1. set (s1 := put (enter_start o1) (put (advance o) s)).
  destruct (start_hook (StartAttempt (Z.of_nat i)) s1 o1) as (b & s2 & s3 & o3 & -> & E3 & G3 & C3 & B3); [done|done|by eapply core_log| |].
  { intros _. cbn -[Z.add]. split; [|done]. congruence. }
  rewrite bind_Some_l, E3, bind_Some_l. pose proof G3 as [Ho3 K3 L3 W3]. rewrite Ho3, bind_Some_l.
  assert (Hr : (2 <= rank (state o3))%nat) by (pose proof (kp_rank _ _ K3) as R; cbn in R; rewrite Hst in R; done). pose proof (busy_leave _ B3 Hr) as Hb.
  assert (Hnext : next_idx (race o) < next_idx (race o3) /\ naddrs (race o3) = naddrs (race o)).
  { destruct (kp_started _ _ K3) as (_ & Q1 & Q2); [cbn; congruence|cbn; by apply (sh_connecting _ (co_shape _ _ Hc))|]. lia. }
  assert (G : goes s o s3 o3) by (split; [done|by eapply keeps_trans|done|done]).
  destruct Hnext as [X3 A3].
  assert (Hok : exists rc s' o', Some (0, s3) = Some (rc, s') /\ goes s o s' o' /\ core s' o' /\ (2 <= rank (state o'))%nat /\
    next_idx (race o) < next_idx (race o') /\ naddrs (race o') = naddrs (race o) /\ (rc = 0 /\ busy o' \/ rc = -1)) by (exists 0, s3, o3; auto 10).
  destruct (active o3 i) eqn:Ea; cbn [negb]; [|exact Hok]. destruct (ret b <? 0); [|exact Hok].
  set (o4 := set_last_error (err b) (retire_attempt i o3)). assert (K4 : keeps o3 o4) by keep. exists (-1), (put o4 s3), o4. split; [done|]. split; [|split; [|split; [done|split; [done|split; [done|by right]]]]].
  - apply (goes_trans _ _ s3 o3); [done|]. split; done.
  - apply (core_log s3); [|done|done]. apply core_error. by apply retire_core.
Qed.

Lemma arm_delay_spec s o : (length (script s) <= N)%nat -> op s = Some o -> core s o -> connecting o = true -> busy o ->
  exists rc s' o', co_arm_delay run s = Some (rc, s') /\ goes s o s' o' /\ core s' o' /\ busy o' /\ (2 <= rank (state o'))%nat.
Proof.
  intros Hn Ho Hc Hk Hb. apply connecting_spec in Hk as [Hst Ht]. unfold co_arm_delay. rewrite (upd_Some _ _ _ Ho), bind_Some_l. set (o1 := set_delay true o).
  assert (K1 : keeps o o1) by keep. assert (C1 : core s o1) by (apply core_waits; cbn; auto; congruence). set (s1 := put (enter_start o1) s).
  destruct (start_hook ArmDelay s1 o1) as (b & s2 & s3 & o3 & -> & E3 & G3 & C3 & B3); [done|done|by apply core_quiet; [|eapply core_log]| |].
  { intros T. destruct (Hb T) as [_ P]. cbn. split; [congruence|]. intros _. by apply P. }
  rewrite bind_Some_l, E3, bind_Some_l. pose proof G3 as [Ho3 K3 L3 W3]. rewrite Ho3, bind_Some_l.
  assert (Hr : (2 <= rank (state o3))%nat) by (pose proof (kp_rank _ _ K3) as R; cbn in R; rewrite Hst in R; done). pose proof (busy_leave _ B3 Hr) as Hb3.
  assert (G : goes s o s3 o3) by (split; [done|by eapply keeps_trans|done|done]).
  destruct (delay_armed (waits o3)) eqn:Ea; cbn [negb]; [|by exists 0, s3, o3]. destruct (ret b <? 0); [|by exists 0, s3, o3].
  set (o4 := set_delay false o3). assert (K4 : keeps o3 o4) by keep. exists (-1), (put o4 s3), o4. split; [done|]. split; [|split; [|done]].
  - apply (goes_trans _ _ s3 o3); [done|]. split; done.
  - apply (core_log s3); [|done|done]. apply core_waits; cbn; auto.
Qed.

Lemma start_next_spec fuel : forall s o, (length (script s) <= N)%nat -> op s = Some o -> core s o -> naddrs (race o) - next_idx (race o) <= Z.of_nat fuel ->
  (terminal (verdict o) = false -> state o = KL_CONNECT_OP_STATE_RESOLVING -> resolve_inflight (waits o) = true \/ (0 < in_start (depth o))%nat) ->
  exists s' o', co_start_next run fuel s = Some s' /\ goes s o s' o' /\ core s' o' /\ busy o'.
Proof.
  induction fuel as [|fuel IH]; intros s o Hn Ho Hc Hf Hr; cbn [co_start_next]; rewrite Ho, bind_Some_l.
  all: destruct (connecting o && (next_idx (race o) <? naddrs (race o))) eqn:Eg; cycle 1.
  1, 3: destruct (connecting o && (pending (race o) =? 0)) eqn:Ep;
    [apply andb_prop in Ep as [Ek _]; apply connecting_spec in Ek as [Est Et];
     destruct (terminal_fail_spec KL_CONNECT_FAILED KL_INVALID_SOCKET (last_error o) s o) as (s' & o' & E & G & C & T); [done..|]; exists s', o'; split; [done|]; split; [done|]; split; [done|by apply busy_terminal]
    |exists s, o; split; [done|]; split; [by apply goes_refl|]; split; [done|]; intros T; split; [by apply Hr|]; intros Est;
     rewrite (proj2 (connecting_spec o)) in Ep by done; pose proof (sh_pending _ (co_shape _ _ Hc)); destruct (Z.eqb_spec (pending (race o)) 0); [done|lia]].
  all: apply andb_prop in Eg as [Ek El]; apply Z.ltb_lt in El. 2: lia.
  destruct (start_one_spec s o Hn Hc Ek El) as (rc & s1 & o1 & -> & G1 & C1 & R1 & X1 & A1 & Hrc). rewrite bind_Some_l. pose proof G1 as [Ho1 K1 L1 W1].
  assert (Hagain : forall s2 o2, goes s1 o1 s2 o2 -> core s2 o2 -> (2 <= rank (state o2))%nat -> exists s' o', co_start_next run fuel s2 = Some s' /\ goes s o s' o' /\ core s' o' /\ busy o').
  { intros s2 o2 G2 C2 R2. pose proof G2 as [Ho2 K2 L2 W2]. assert (Hm : naddrs (race o2) = naddrs (race o) /\ next_idx (race o1) <= next_idx (race o2)).
    { destruct (kp_started _ _ K1) as (Q1 & Q2 & _); [apply connecting_spec in Ek as [-> _]; done|apply (sh_connecting _ (co_shape _ _ Hc)); by apply connecting_spec|].
      destruct (kp_started _ _ K2) as (_ & Q3 & Q4); [intros E; rewrite E in R1; cbn in R1; lia|done|]. split; [congruence|done]. }
    destruct (IH s2 o2) as (s3 & o3 & -> & G3 & C3 & B3); [lia|done|done|lia|intros _ E; rewrite E in R2; cbn in R2; lia|].
    exists s3, o3. split; [done|]. split; [|done]. by apply (goes_trans _ _ s2 o2); [apply (goes_trans _ _ s1 o1)|]. }
  destruct Hrc as [[-> B1]| ->]; cbn [Z.eqb Z.ltb Z.compare]; [|apply (Hagain s1 o1); [by apply goes_refl|done|done]].
  rewrite Ho1, bind_Some_l. destruct (arm_delay (hooks o1) && connecting o1 && (next_idx (race o1) <? naddrs (race o1)) && negb (delay_armed (waits o1))) eqn:Ea; [|by exists s1, o1].
  apply andb_prop in Ea as [Ea _]. apply andb_prop in Ea as [Ea _]. apply andb_prop in Ea as [_ Ek1].
  destruct (arm_delay_spec s1 o1) as (rc & s2 & o2 & -> & G2 & C2 & B2 & R2); [lia|done|done|done|done|]. rewrite bind_Some_l.
  destruct (rc <? 0); [by apply (Hagain s2 o2)|]. exists s2, o2. split; [done|]. split; [by apply (goes_trans _ _ s1 o1)|done].
Qed.

(** ** Entry points *)

Lemma stay_spec s o : op s = Some o -> inv s o -> exists s', Some s = Some s' /\ stable s o s'.
Proof. intros Ho Hi. exists s. split; [done|]. left. exists o. split; [by apply goes_refl|done]. Qed.

Lemma finish_spec s o s1 o1 : (length (script s) <= N)%nat -> goes s o s1 o1 -> core s1 o1 -> busy o1 -> exists s', co_finalize run s1 = Some s' /\ stable s o s'.
Proof.
  intros Hn G C B. pose proof G as [Ho K L W]. destruct (finalize_spec s1 o1) as (s' & E & [(o' & G' & I)|(E1 & E2 & E3 & E4 & E5 & E6)]); [lia|done|done|done|exists s'..]; (split; [done|]).
  - left. exists o'. split; [by apply (goes_trans _ _ s1 o1)|done].
  - right. split; [done|]. split; [intros D; apply E2; by eapply deep_keeps|]. split; [apply not_true_is_false; intros D; by rewrite (kp_detached _ _ K D) in E3|].
    split; [lia|]. split; [congruence|done].
Qed.

Lemma terminal_any_spec r fd e s o : (length (script s) <= N)%nat -> op s = Some o -> core s o -> r <> KL_CONNECT_SUCCESS ->
  exists s' o', co_terminal run r fd e s = Some s' /\ goes s o s' o' /\ core s' o' /\ terminal (verdict o') = true.
Proof.
  intros Hn Ho Hc Hr. destruct (terminal (verdict o)) eqn:T; [|by apply terminal_fail_spec]. exists s, o. split; [|split; [by apply goes_refl|done]].
  unfold co_terminal. by rewrite Ho, bind_Some_l, T.
Qed.

Lemma dispose_core s o fd : core s o -> core (emit (Called (DisposeFd fd)) (emit (Given fd) s)) o.
Proof.
  intros [Hs [B1 B2 B3 B4 B5 B6 B7 B8]]. split; [done|]. unfold owed_fds in B5.
  split; cbn [log emit owed]; try (intros j); rewrite ?count_snoc, ?given_snoc, ?passed_snoc;
    cbn [is_done is_detach is_start is_cancel is_cancel_resolve given_by passed_by]; rewrite ?Nat.add_0_r, ?app_nil_r; try done; try (by auto).
  unfold owed_fds. cbn [owed emit]. rewrite B5, <- !app_assoc. apply Permutation_app_head, Permutation_app_comm.
Qed.

Lemma dispose_spec s o o1 fd : (length (script s) <= N)%nat -> keeps o o1 -> core s o1 -> busy o1 ->
  exists s', co_dispose run fd (put o1 (emit (Given fd) s)) = Some s' /\ stable s o s'.
Proof.
  intros Hn K Hc Hb. unfold co_dispose. rewrite (upd_Some _ _ o1) by done. rewrite bind_Some_l. set (s1 := put (enter_dispatch o1) _).
  destruct (dispatch_hook (DisposeFd fd) s1 o1) as (b & s2 & s3 & o3 & -> & E3 & [G3 K3 L3 W3] & C3 & B3); [done|done| |done|].
  { eapply core_log; [by apply dispose_core|done|done]. }
  rewrite bind_Some_l, E3, bind_Some_l. apply (finish_spec s o s3 o3); [done| |done|done]. split; [done|by eapply keeps_trans|done|done].
Qed.

Lemma fail_finish_spec r e s o o1 : (length (script s) <= N)%nat -> keeps o o1 -> core s o1 -> r <> KL_CONNECT_SUCCESS ->
  exists s', (s ← (if terminal (verdict o1) then Some (put o1 s) else co_terminal run r KL_INVALID_SOCKET e (put o1 s)); co_finalize run s) = Some s' /\ stable s o s'.
Proof.
  intros Hn K Hc Hr. assert (C1 : core (put o1 s) o1) by by eapply core_log. destruct (terminal (verdict o1)) eqn:T.
  - rewrite bind_Some_l. apply (finish_spec s o _ o1); [done|by split|done|by apply busy_terminal].
  - destruct (terminal_fail_spec r KL_INVALID_SOCKET e (put o1 s) o1) as (s2 & o2 & -> & [G2 K2 L2 W2] & C2 & T2); [done..|]. rewrite bind_Some_l.
    apply (finish_spec s o s2 o2); [done|split; [done|by eapply keeps_trans|done|done]|done|by apply busy_terminal].
Qed.

Lemma connected_spec idx fd s o : (length (script s) <= N)%nat -> op s = Some o -> inv s o -> exists s', kl_connect_op_on_attempt_connected run idx fd s = Some s' /\ stable s o s'.
Proof.
  intros Hn Ho [Hc Hb Hr]. unfold kl_connect_op_on_attempt_connected. cbn [op emit]. rewrite Ho, bind_Some_l.
  assert (Es : emit (Given fd) s = put o (emit (Given fd) s)) by (destruct s; cbn in *; by subst).
  destruct (in_range idx); cbn [negb]; [|rewrite Es; by apply dispose_spec; [|apply keeps_refl|..]].
  destruct (active o (Z.to_nat idx)) eqn:Ea; cbn [negb]; [|rewrite Es; by apply dispose_spec; [|apply keeps_refl|..]].
  set (o1 := retire_attempt (Z.to_nat idx) o). assert (K1 : keeps o o1) by keep. assert (C1 : core s o1) by by apply retire_core.
  destruct (terminal (verdict o)) eqn:T; [apply dispose_spec; try done; by apply busy_terminal|].
  destruct (terminal_spec KL_CONNECT_SUCCESS fd 0 (put o1 (emit (Given fd) s)) o1) as (s2 & o2 & -> & [G2 K2 L2 W2] & C2 & T2); try done.
  { by apply live_state; [apply C1|]. } { by apply (live_owed s o). } { apply (decide_core s); auto. }
  rewrite bind_Some_l. apply (finish_spec s o s2 o2); [done|split; [done|by eapply keeps_trans|done|done]|done|by apply busy_terminal].
Qed.

Lemma next_finish_spec s o o1 : (length (script s) <= N)%nat -> keeps o o1 -> core s o1 ->
  (terminal (verdict o1) = false -> state o1 = KL_CONNECT_OP_STATE_RESOLVING -> resolve_inflight (waits o1) = true \/ (0 < in_start (depth o1))%nat) ->
  exists s', (s ← start_next run (put o1 s); co_finalize run s) = Some s' /\ stable s o s'.
Proof.
  intros Hn K Hc Hb. destruct (start_next_spec (S (Z.to_nat KL_CONNECT_MAX_ADDRS)) (put o1 s) o1) as (s2 & o2 & E2 & [G2 K2 L2 W2] & C2 & B2); [done|done|by eapply core_log| |done|].
  { destruct (sh_range _ (co_shape _ _ Hc)). unfold KL_CONNECT_MAX_ADDRS in *. lia. }
  unfold start_next. rewrite E2, bind_Some_l. apply (finish_spec s o s2 o2); [done|split; [done|by eapply keeps_trans|done|done]|done|done].
Qed.

Lemma failed_spec idx e s o : (length (script s) <= N)%nat -> op s = Some o -> inv s o -> exists s', kl_connect_op_on_attempt_failed run idx e s = Some s' /\ stable s o s'.
Proof.
  intros Hn Ho Hi. pose proof Hi as [Hc Hb Hr]. unfold kl_connect_op_on_attempt_failed. rewrite Ho, bind_Some_l.
  destruct (in_range idx); cbn [negb]; [|by apply stay_spec]. destruct (active o (Z.to_nat idx)) eqn:Ea; cbn [negb]; [|by apply stay_spec].
  set (o1 := set_last_error e (retire_attempt (Z.to_nat idx) o)). assert (K1 : keeps o o1) by keep. assert (C1 : core s o1) by by apply core_error, retire_core.
  assert (Hw : terminal (verdict o1) = false -> state o1 = KL_CONNECT_OP_STATE_RESOLVING -> resolve_inflight (waits o1) = true \/ (0 < in_start (depth o1))%nat) by (intros T; apply (Hb T)).
  destruct (terminal (verdict o1)) eqn:T; [|destruct (next_idx (race o1) <? naddrs (race o1)); [apply next_finish_spec; try done; by rewrite T|destruct (Z.eqb_spec (pending (race o1)) 0) as [Ep|Ep]]].
  - rewrite bind_Some_l. apply (finish_spec s o _ o1); [done|by split|by eapply core_log|by apply busy_terminal].
  - pose proof (fail_finish_spec KL_CONNECT_FAILED e s o o1) as H. rewrite T in H. by apply H.
  - rewrite bind_Some_l. apply (finish_spec s o _ o1); [done|by split|by eapply core_log|]. intros _. split; [by apply Hw|]. intros _. pose proof (sh_pending _ (co_shape _ _ C1)). lia.
Qed.

Lemma delay_spec s o : (length (script s) <= N)%nat -> op s = Some o -> inv s o -> exists s', kl_connect_op_on_delay run s = Some s' /\ stable s o s'.
Proof.
  intros Hn Ho Hi. pose proof Hi as [Hc Hb Hr]. unfold kl_connect_op_on_delay. rewrite Ho, bind_Some_l. destruct (delay_armed (waits o)); cbn [negb]; [|by apply stay_spec].
  set (o1 := set_delay false o). assert (K1 : keeps o o1) by keep. assert (C1 : core s o1) by (apply core_waits; cbn; auto; done).
  destruct (connecting o1) eqn:Ek; [apply next_finish_spec; try done; apply Hb|]. rewrite bind_Some_l. apply (finish_spec s o _ o1); [done|by split|by eapply core_log|exact Hb].
Qed.

Lemma deadline_spec e s o : (length (script s) <= N)%nat -> op s = Some o -> inv s o -> exists s', kl_connect_op_on_deadline run e s = Some s' /\ stable s o s'.
Proof.
  intros Hn Ho Hi. pose proof Hi as [Hc Hb Hr]. unfold kl_connect_op_on_deadline. rewrite Ho, bind_Some_l. destruct (deadline_armed (waits o)); cbn [negb]; [|by apply stay_spec].
  apply (fail_finish_spec KL_CONNECT_FAILED e s o (set_deadline false o)); [done|keep|apply core_waits; cbn; auto; done|done].
Qed.

Lemma op_cancel_spec s o : (length (script s) <= N)%nat -> op s = Some o -> inv s o -> exists s', kl_connect_op_cancel run s = Some s' /\ stable s o s'.
Proof.
  intros Hn Ho Hi. pose proof Hi as [Hc Hb Hr]. unfold kl_connect_op_cancel. rewrite Ho, bind_Some_l. destruct (detached o); [by apply stay_spec|].
  destruct (terminal (verdict o)) eqn:T.
  - destruct (request_cancels_spec s o) as (s2 & o2 & -> & G2 & C2 & T2); [done..|]. rewrite bind_Some_l. apply (finish_spec s o s2 o2); [done|done|done|by apply busy_terminal].
  - destruct (terminal_fail_spec KL_CONNECT_CANCELLED KL_INVALID_SOCKET (last_error o) s o) as (s2 & o2 & -> & G2 & C2 & T2); [done..|]. rewrite bind_Some_l.
    apply (finish_spec s o s2 o2); [done|done|done|by apply busy_terminal].
Qed.

Lemma terminal_state o : shape o -> terminal (verdict o) = true -> state o = KL_CONNECT_OP_STATE_DONE \/ state o = KL_CONNECT_OP_STATE_DETACHED.
Proof. intros [] T. rewrite T in sh_state0. symmetry in sh_state0. by apply bool_decide_eq_true in sh_state0. Qed.

(** The resolution in flight is retired on the way to the terminal. *)
Lemma keeps_retire q e o o' : keeps (set_last_error e (set_resolve false q o)) o' -> resolve_inflight (waits o) = true -> shape o' -> terminal (verdict o') = true -> keeps o o'.
Proof.
  intros [A1 A2 A3 A4 A5 A6 A7 A8 A9 A10 A11] Hr Hs T. split; try done; [congruence|].
  intros _ E _. destruct (terminal_state _ Hs T); congruence.
Qed.

Lemma resolve_failed_spec e s o : (length (script s) <= N)%nat -> op s = Some o -> inv s o -> exists s', kl_connect_op_on_resolve_failed run e s = Some s' /\ stable s o s'.
Proof.
  intros Hn Ho Hi. pose proof Hi as [Hc Hb Hr]. unfold kl_connect_op_on_resolve_failed. rewrite Ho, bind_Some_l. destruct (resolve_inflight (waits o)) eqn:Er; cbn [negb]; [|by apply stay_spec].
  set (o1 := set_last_error e (set_resolve false (resolve_cancel_requested (waits o)) o)). assert (C1 : core s o1) by (apply core_error, core_waits; cbn; auto; done).
  assert (H2 : exists s2 o2, (if terminal (verdict o1) then Some (put o1 s) else co_terminal run KL_CONNECT_FAILED KL_INVALID_SOCKET e (put o1 s)) = Some s2 /\ goes (put o1 s) o1 s2 o2 /\ core s2 o2 /\ terminal (verdict o2) = true).
  { destruct (terminal (verdict o1)) eqn:T; [|by apply terminal_fail_spec; [..|eapply core_log| |]]. exists (put o1 s), o1. split; [done|]. split; [by apply goes_refl|]. split; [by eapply core_log|done]. }
  destruct H2 as (s2 & o2 & -> & [G2 K2 L2 W2] & C2 & T2). rewrite bind_Some_l. apply (finish_spec s o s2 o2); [done| |done|by apply busy_terminal].
  split; [done|by eapply keeps_retire; [..|apply C2|]|done|done].
Qed.

(** The address list arrives. *)
Lemma addresses_core s o n : core s o -> resolve_inflight (waits o) = true -> terminal (verdict o) = false -> 0 <= n <= KL_CONNECT_MAX_ADDRS ->
  let o1 := set_resolve false (resolve_cancel_requested (waits o)) o in let r := race o1 in
  let o2 := set_state KL_CONNECT_OP_STATE_CONNECTING (set_race (mkRace n 0 (pending r) (attempt_active r) (attempt_cancel_requested r)) o1) in
  core s o2 /\ keeps o o2.
Proof.
  intros [Hs [B1 B2 B3 B4 B5 B6 B7 B8]] Hr T Hn o1 r o2. pose proof (live_state _ Hs T) as (D1 & D2 & D3). destruct Hs as [S1 S2 S3 S4 S5 S6 S7 S8 S9 S10].
  destruct (S6 Hr) as [E0 Hi]. assert (En : next_idx (race o) = 0) by lia. split.
  - split; split; cbn; try done; try lia; try congruence; try (intros i; specialize (B6 i); rewrite En in B6; done).
    intros i Hi2. apply S5. lia.
  - keep. destruct (state o); cbn; try lia; done.
Qed.

Lemma resolved_spec n s o : (length (script s) <= N)%nat -> op s = Some o -> inv s o -> exists s', kl_connect_op_on_resolved run n s = Some s' /\ stable s o s'.
Proof.
  intros Hn Ho Hi. pose proof Hi as [Hc Hb Hr]. unfold kl_connect_op_on_resolved. rewrite Ho, bind_Some_l. destruct (resolve_inflight (waits o)) eqn:Er; cbn [negb]; [|by apply stay_spec].
  set (o1 := set_resolve false (resolve_cancel_requested (waits o)) o). destruct (terminal (verdict o1)) eqn:T.
  - assert (C1 : core s o1) by (apply core_waits; cbn; auto; done). apply (finish_spec s o _ o1); [done|split; [done| |done|done]|by eapply core_log|by apply busy_terminal].
    keep. intros E. destruct (terminal_state _ (co_shape _ _ Hc) T); congruence.
  - set (m := Z.min (Z.max n 0) KL_CONNECT_MAX_ADDRS). assert (Hm : 0 <= m <= KL_CONNECT_MAX_ADDRS) by (unfold m, KL_CONNECT_MAX_ADDRS; lia).
    destruct (addresses_core s o m Hc Er T Hm) as [C2 K2]. fold o1 in C2, K2. set (o2 := set_state _ _) in *. destruct (m =? 0); [|by apply next_finish_spec].
    pose proof (fail_finish_spec KL_CONNECT_FAILED (last_error o2) s o o2) as H. change (terminal (verdict o2)) with (terminal (verdict o1)) in H. rewrite T in H. by apply H.
Qed.

Lemma arm_deadline_spec s o : (length (script s) <= N)%nat -> op s = Some o -> core s o -> terminal (verdict o) = false -> state o = KL_CONNECT_OP_STATE_RESOLVING ->
  exists rc e s' o', co_arm_deadline run s = Some (rc, e, s') /\ goes s o s' o' /\ core s' o'.
Proof.
  intros Hn Ho Hc Ht Hst. unfold co_arm_deadline. rewrite Ho, bind_Some_l. destruct (arm_deadline (hooks o)); cbn [negb]; [|exists 0, 0, s, o; split; [done|split; [by apply goes_refl|done]]].
  set (o1 := set_deadline true o). assert (K1 : keeps o o1) by keep. assert (C1 : core s o1) by (apply core_waits; cbn; auto; congruence).
  destruct (start_hook ArmDeadline (put (enter_start o1) s) o1) as (b & s2 & s3 & o3 & -> & E3 & G3 & C3 & B3); [done|done|by apply core_quiet; [|eapply core_log]| |].
  { intros T. cbn. split; [intros _; right; lia|congruence]. }
  rewrite bind_Some_l, E3, bind_Some_l. pose proof G3 as [Ho3 K3 L3 W3]. rewrite Ho3, bind_Some_l.
  assert (G : goes s o s3 o3) by (split; [done|by eapply keeps_trans|done|done]).
  destruct (deadline_armed (waits o3)) eqn:Ea; cbn [negb]; [|by exists 0, 0, s3, o3]. destruct (ret b <? 0); [|by exists 0, 0, s3, o3].
  set (o4 := set_deadline false o3). assert (K4 : keeps o3 o4) by keep. exists (-1), (err b), (put o4 s3), o4. split; [done|]. split.
  - apply (goes_trans _ _ s3 o3); [done|]. split; done.
  - apply (core_log s3); [|done|done]. apply core_waits; cbn; auto.
Qed.

Lemma begin_resolve_spec s0 o0 s o : (length (script s0) <= N)%nat -> state o0 = KL_CONNECT_OP_STATE_IDLE -> goes s0 o0 s o -> core s o -> terminal (verdict o) = false ->
  state o = KL_CONNECT_OP_STATE_RESOLVING -> naddrs (race o) = 0 -> exists s', begin_resolve run s = Some s' /\ stable s0 o0 s'.
Proof.
  intros Hn Hi [Ho K L W] Hc Ht Hst Hna. unfold begin_resolve. rewrite (upd_Some _ _ _ Ho), bind_Some_l. set (o1 := set_resolve true (resolve_cancel_requested (waits o)) o).
  assert (C1 : core s o1) by (apply core_waits; cbn; auto). assert (K1 : keeps o0 o1).
  { destruct K as [A1 A2 A3 A4 A5 A6 A7 A8 A9 A10 A11]. split; cbn; try done; congruence. }
  destruct (start_hook StartResolve (put (enter_start o1) s) o1) as (b & s2 & s3 & o3 & -> & E3 & [Ho3 K3 L3 W3] & C3 & B3); [cbn; lia|done|by apply core_quiet; [|eapply core_log]| |].
  { intros T. cbn. split; [auto|congruence]. }
  rewrite bind_Some_l, E3, bind_Some_l, Ho3, bind_Some_l. assert (G3 : goes s0 o0 s3 o3) by (split; [done|by eapply keeps_trans|cbn in *; lia|cbn in *; congruence]).
  destruct (resolve_inflight (waits o3) && (ret b <? 0)) eqn:Er.
  - apply andb_prop in Er as [Er _]. set (o4 := set_resolve false (resolve_cancel_requested (waits o3)) o3). assert (C4 : core s3 o4) by (apply core_waits; cbn; auto; done).
    assert (K4 : keeps o0 o4). { destruct (go_keeps _ _ _ _ G3). split; cbn; try done; congruence. }
    destruct (terminal_any_spec KL_CONNECT_FAILED KL_INVALID_SOCKET (last_error o3) (put o4 s3) o4) as (s5 & o5 & -> & [Ho5 K5 L5 W5] & C5 & T5); [cbn in *; lia|done|by eapply core_log|done|].
    rewrite bind_Some_l. apply (finish_spec s0 o0 s5 o5); [done| |done|by apply busy_terminal]. split; [done|by eapply keeps_trans|cbn in *; lia|cbn in *; congruence].
  - rewrite bind_Some_l. apply (finish_spec s0 o0 s3 o3); [done|done|done|]. intros T. split; [|apply (B3 T)]. intros E. left. by apply (kp_waiting _ _ K3).
Qed.

Lemma start_core s o : core s o -> state o = KL_CONNECT_OP_STATE_IDLE ->
  let o1 := set_resolve (resolve_inflight (waits o)) false (set_state KL_CONNECT_OP_STATE_RESOLVING o) in
  core s o1 /\ keeps o o1 /\ terminal (verdict o1) = false /\ resolve_inflight (waits o1) = false /\ naddrs (race o1) = 0.
Proof.
  intros [[S1 S2 S3 S4 S5 S6 S7 S8 S9 S10] [B1 B2 B3 B4 B5 B6 B7 B8]] Hi o1. destruct (S7 Hi) as [E0 Eq].
  assert (Er : resolve_inflight (waits o) = false) by (apply not_true_is_false; intros E; by destruct (S6 E)).
  assert (T : terminal (verdict o) = false) by (rewrite S8, Hi; done).
  split; [|split; [keep; rewrite Hi; cbn; lia|done]]. split; split; cbn; rewrite ?Er; try done; try congruence.
  - intros E. destruct (S10 E). congruence.
  - by rewrite Eq in B8.
Qed.

Lemma op_start_spec s o : (length (script s) <= N)%nat -> op s = Some o -> inv s o -> exists rc s', kl_connect_op_start run s = Some (rc, s') /\ stable s o s'.
Proof.
  intros Hn Ho Hi. pose proof Hi as [Hc Hb Hr]. unfold kl_connect_op_start. rewrite Ho, bind_Some_l.
  destruct (bool_decide_reflect (state o = KL_CONNECT_OP_STATE_IDLE)) as [Es|Es]; cbn [negb]; [|destruct (stay_spec s o Ho Hi) as (s' & E & St); simplify_eq; by exists (-1), s'].
  destruct (start_core s o Hc Es) as (C1 & K1 & T1 & R1 & A1). set (o1 := set_resolve _ _ _) in *.
  destruct (arm_deadline_spec (put o1 s) o1) as (rc & e & s2 & o2 & -> & G2 & C2); [done|done|by eapply core_log|done|done|]. rewrite bind_Some_l.
  assert (G : goes s o s2 o2) by (destruct G2; split; [done|by eapply keeps_trans|done|done]). destruct (rc <? 0).
  - pose proof G as [Ho2 K2 L2 W2]. destruct (terminal_any_spec KL_CONNECT_FAILED KL_INVALID_SOCKET e s2 o2) as (s3 & o3 & -> & G3 & C3 & T3); [lia|done|done|done|]. rewrite bind_Some_l.
    destruct (finish_spec s o s3 o3) as (s' & -> & St); [done|by eapply goes_trans|done|by apply busy_terminal|]. rewrite bind_Some_l. by exists 0, s'.
  - rewrite (go_op _ _ _ _ G), bind_Some_l. destruct (terminal (verdict o2)) eqn:T2.
    { destruct (finish_spec s o s2 o2) as (s' & -> & St); [done|done|done|by apply busy_terminal|]. rewrite bind_Some_l. by exists 0, s'. }
    destruct (go_keeps _ _ _ _ G2) as [_ _ _ _ _ A6 A7 _ A9 _ _]. destruct A7 as (Q1 & Q2 & _); [done|done|]. pose proof (live_state _ (co_shape _ _ C2) T2) as (D1 & D2 & _).
    destruct (begin_resolve_spec s o s2 o2) as (s' & -> & St); [done|done|done|done|done| |congruence|rewrite bind_Some_l; by exists 0, s'].
    destruct (state o2) eqn:E2; try done; [cbn in A6; lia|]. exfalso. specialize (A9 eq_refl eq_refl). congruence.
Qed.

Lemma enter_spec c s o : (length (script s) <= N)%nat -> op s = Some o -> inv s o -> exists s', enter run c s = Some s' /\ stable s o s'.
Proof.
  intros Hn Ho Hi. destruct c; cbn [enter];
    [destruct (op_start_spec s o Hn Ho Hi) as (rc & s' & -> & St); rewrite bind_Some_l; by exists s'|by apply resolved_spec|by apply resolve_failed_spec|by apply connected_spec|by apply failed_spec
    |by apply delay_spec|by apply deadline_spec|by apply op_cancel_spec].
Qed.

Lemma cancel_ends s o s' o' : (length (script s) <= N)%nat -> op s = Some o -> inv s o -> kl_connect_op_cancel run s = Some s' -> op s' = Some o' -> terminal (verdict o') = true.
Proof.
  intros Hn Ho [Hc Hb Hr]. unfold kl_connect_op_cancel. rewrite Ho, bind_Some_l. destruct (detached o) eqn:D.
  { intros E Ho'. simplify_eq. by apply (sh_detached _ (co_shape _ _ Hc)). }
  assert (H2 : exists s2 o2, (if terminal (verdict o) then co_request_cancels run s else co_terminal run KL_CONNECT_CANCELLED KL_INVALID_SOCKET (last_error o) s) = Some s2 /\
    goes s o s2 o2 /\ core s2 o2 /\ terminal (verdict o2) = true).
  { destruct (terminal (verdict o)) eqn:T; [by apply request_cancels_spec|by apply terminal_fail_spec]. }
  destruct H2 as (s2 & o2 & -> & [G2 K2 L2 W2] & C2 & T2). rewrite bind_Some_l. intros E Ho'.
  destruct (finalize_spec s2 o2) as (s3 & E3 & [(o3 & [G3 K3 L3 W3] & I3)|(? & _)]); [lia|done|done|by apply busy_terminal|..]; simplify_eq. by apply (kp_terminal _ _ K3).
Qed.

Lemma resolve_failed_ends e s o s' o' : (length (script s) <= N)%nat -> op s = Some o -> inv s o -> terminal (verdict o) = true ->
  kl_connect_op_on_resolve_failed run e s = Some s' -> op s' = Some o' -> resolve_inflight (waits o') = false.
Proof.
  intros Hn Ho [Hc Hb Hr] T. unfold kl_connect_op_on_resolve_failed. rewrite Ho, bind_Some_l. destruct (resolve_inflight (waits o)) eqn:R; cbn [negb]; [|intros E Ho'; by simplify_eq].
  set (o1 := set_last_error e (set_resolve false (resolve_cancel_requested (waits o)) o)). change (terminal (verdict o1)) with (terminal (verdict o)). rewrite T, bind_Some_l. intros E Ho'.
  assert (C1 : core s o1) by (apply core_error, core_waits; cbn; auto; done).
  destruct (finalize_spec (put o1 s) o1) as (s3 & E3 & [(o3 & [G3 K3 L3 W3] & I3)|(? & _)]); [done|done|by eapply core_log|by apply busy_terminal|..]; simplify_eq.
  apply (kp_started _ _ K3); [|done]. cbn. destruct (terminal_state _ (co_shape _ _ Hc) T); congruence.
Qed.

Lemma failed_ends (i : nat) e s o s' o' : (length (script s) <= N)%nat -> op s = Some o -> inv s o -> terminal (verdict o) = true -> (i < 8)%nat ->
  kl_connect_op_on_attempt_failed run (Z.of_nat i) e s = Some s' -> op s' = Some o' -> active o' i = false.
Proof.
  intros Hn Ho [Hc Hb Hr] T Hi. unfold kl_connect_op_on_attempt_failed. rewrite Ho, bind_Some_l.
  assert (in_range (Z.of_nat i) = true) as -> by (unfold in_range, KL_CONNECT_MAX_ADDRS; lia). rewrite Nat2Z.id. cbn [negb].
  destruct (active o i) eqn:A; cbn [negb]; [|intros E Ho'; by simplify_eq].
  set (o1 := set_last_error e (retire_attempt i o)). change (terminal (verdict o1)) with (terminal (verdict o)). rewrite T, bind_Some_l. intros E Ho'.
  assert (C1 : core s o1) by by apply core_error, retire_core.
  destruct (finalize_spec (put o1 s) o1) as (s3 & E3 & [(o3 & [G3 K3 L3 W3] & I3)|(? & _)]); [done|done|by eapply core_log|by apply busy_terminal|..]; simplify_eq.
  apply (kp_retired _ _ K3); [done|]. unfold active, o1. cbn. rewrite slot_insert. by destruct (sh_active _ (co_shape _ _ Hc)), (decide _) as [|[]].
Qed.

End proofs.

(** ** Any owner *)

Lemma run_spec n : forall c s o, (length (script s) <= n)%nat -> op s = Some o -> inv s o -> exists s', run_call n c s = Some s' /\ stable s o s'.
Proof.
  induction n as [|n IH]; intros c s o Hn Ho Hi; cbn [run_call].
  - apply (enter_spec 0 _); [intros; lia|done|done|done].
  - apply (enter_spec (S n) _); [|done|done|done]. intros c1 s1 o1 Hn1. apply IH. lia.
Qed.

(** Calls from outside, one after the other, until the operation is freed. *)
Fixpoint drive (cs : list call) (s : sys) : option sys :=
  match cs, op s with
  | c :: cs, Some _ => s ← run_call (length (script s)) c s; drive cs s
  | _, _ => Some s
  end.

(** At rest: between calls from outside. *)
Definition resting (s : sys) : Prop :=
  owed s = None /\ match op s with Some o => inv s o /\ depth o = mkDepth 0 0 | None => closed s end.

Lemma drive_resting cs : forall s, resting s -> exists s', drive cs s = Some s' /\ resting s'.
Proof.
  induction cs as [|c cs IH]; intros s [Hw Hs]; cbn [drive]; [by exists s|]. destruct (op s) as [o|] eqn:Ho; [|exists s; split; [done|]; split; by rewrite ?Ho].
  destruct Hs as [Hi Hd]. destruct (run_spec (length (script s)) c s o) as (s1 & -> & St); [done..|]. rewrite bind_Some_l. apply IH.
  destruct St as [(o1 & [G K L W] & I1)|(E1 & _ & _ & _ & W & Hcl)]; (split; [congruence|]); [rewrite G|by rewrite E1].
  split; [done|]. by rewrite (kp_depth _ _ K).
Qed.

Lemma drive_app cs1 cs2 s s' : drive cs1 s = Some s' -> drive (cs1 ++ cs2) s = drive cs2 s'.
Proof.
  revert s. induction cs1 as [|c cs1 IH]; intros s; cbn [drive app]; [by intros [= ->]|]. destruct (op s) as [o|] eqn:Ho; cycle 1.
  { intros [= <-]. destruct cs2; cbn [drive]; by rewrite ?Ho. }
  destruct (run_call _ c s) as [s1|]; cbn; [apply IH|done].
Qed.

Lemma init_resting h o beh : kl_connect_op_init h = Some o -> resting (mkSys (Some o) beh [] None).
Proof.
  unfold kl_connect_op_init. destruct (_ || _); [done|]. destruct (negb _); [done|]. destruct (_ && _); [done|]. destruct (_ && _); [done|]. intros [= <-]. split; [done|]. split; [|done].
  assert (Hf : forall i, default false (replicate 8 false !! i) = false) by (intros i; by do 9 (destruct i as [|i]; [done|])).
  split; [split|by intros _|right; by intros].
  - split; cbn; try done. intros i _. split; apply Hf.
  - split; cbn; try done; intros i; [by destruct (Z.ltb_spec (Z.of_nat i) 0); [lia|]|]. unfold requested. cbn [race attempt_cancel_requested]. by rewrite Hf.
Qed.

Lemma connect_op_resting h o beh cs : kl_connect_op_init h = Some o -> exists s, drive cs (mkSys (Some o) beh [] None) = Some s /\ resting s.
Proof. intros H. by eapply drive_resting, init_resting. Qed.

(** The owner gives up and every outstanding operation reports back. *)
Definition settle : list call := CCancel :: CResolveFailed 0 :: map (fun i => CFailed (Z.of_nat i) 0) (seq 0 8).

(** One call from outside, after which [Q] holds. *)
Lemma drive_step c s (Q : KlConnectOp -> Prop) : resting s ->
  (forall run o s' o', (forall c s1 o, (length (script s1) < length (script s))%nat -> op s1 = Some o -> inv s1 o -> exists s2, run c s1 = Some s2 /\ stable s1 o s2) ->
     op s = Some o -> inv s o -> enter run c s = Some s' -> op s' = Some o' -> Q o') ->
  exists s', drive [c] s = Some s' /\ resting s' /\ forall o', op s' = Some o' -> Q o' /\ exists o, op s = Some o /\ keeps o o'.
Proof.
  intros Hs HQ. destruct (drive_resting [c] s Hs) as (s' & E & Hs'). exists s'. split; [done|]. split; [done|]. intros o' Ho'. cbn [drive] in E.
  destruct Hs as [_ Hs]. destruct (op s) as [o|] eqn:Ho; [|congruence]. destruct Hs as [Hi _].
  destruct (run_spec (length (script s)) c s o) as (s1 & E1 & St); [done..|]. rewrite E1 in E. cbn in E. assert (s1 = s') as -> by (destruct (op s1); congruence).
  destruct St as [(o2 & [G K _ _] & _)|(? & _)]; [|congruence]. assert (o2 = o') as -> by congruence. split; [|by exists o].
  destruct (length (script s)) as [|n]; cbn [run_call] in E1; [apply (HQ (fun _ _ => None) o s' o'); [intros; lia|done..]|].
  apply (HQ (run_call n) o s' o'); [|done..]. intros c1 s1 o1 Hn. apply run_spec. lia.
Qed.

Definition settling (k : nat) (o : KlConnectOp) : Prop :=
  terminal (verdict o) = true /\ resolve_inflight (waits o) = false /\ forall i, (i < k)%nat -> active o i = false.

Lemma settle_begin s : resting s -> exists s', drive [CCancel; CResolveFailed 0] s = Some s' /\ resting s' /\ forall o', op s' = Some o' -> settling 0 o'.
Proof.
  intros Hs. destruct (drive_step CCancel s (fun o => terminal (verdict o) = true) Hs) as (s1 & E1 & Hs1 & HT).
  { intros run o s' o' Hrun Ho Hi. by apply (cancel_ends _ run Hrun s o s' o'). }
  destruct (drive_step (CResolveFailed 0) s1 (fun o => resolve_inflight (waits o) = false) Hs1) as (s2 & E2 & Hs2 & HR).
  { intros run o s' o' Hrun Ho Hi. apply (resolve_failed_ends _ run Hrun 0 s1 o s' o'); [done|done|done|]. by apply HT. }
  exists s2. rewrite <- E2. split; [by apply (drive_app [CCancel] [CResolveFailed 0])|]. split; [done|]. intros o2 Ho2.
  destruct (HR o2 Ho2) as (R & o1 & Ho1 & K). split; [by apply (kp_terminal _ _ K), HT|]. split; [done|]. intros; lia.
Qed.

Lemma settle_attempts n : forall k s, (k + n = 8)%nat -> resting s -> (forall o, op s = Some o -> settling k o) ->
  exists s', drive (map (fun i => CFailed (Z.of_nat i) 0) (seq k n)) s = Some s' /\ resting s' /\ forall o', op s' = Some o' -> settling 8 o'.
Proof.
  induction n as [|n IH]; intros k s Hk Hs Ht; [exists s; rewrite Nat.add_0_r in Hk; subst; split; [by cbn|done]|]. cbn [seq map].
  destruct (drive_step (CFailed (Z.of_nat k) 0) s (fun o => active o k = false) Hs) as (s1 & E1 & Hs1 & HA).
  { intros run o s' o' Hrun Ho Hi. apply (failed_ends _ run Hrun k 0 s o s' o'); [done|done|done|by apply Ht|lia]. }
  destruct (IH (S k) s1) as (s2 & E2 & Hs2 & H2); [lia|done| |exists s2; split; [|done]; rewrite <- E2; by apply (drive_app [_])].
  intros o1 Ho1. destruct (HA o1 Ho1) as (A & o & Ho & K). destruct (Ht o Ho) as (T & R & Hlt). split; [by apply (kp_terminal _ _ K)|].
  split; [|intros i Hi; destruct (decide (i = k)) as [->|]; [done|]; apply (kp_retired _ _ K T), Hlt; lia].
  apply (kp_started _ _ K); [|done]. destruct Hs as [_ Hs]. rewrite Ho in Hs. destruct (terminal_state _ (co_shape _ _ (in_core _ _ (proj1 Hs))) T); congruence.
Qed.

Lemma trues_none l : (forall i, default false (l !! i) = false) -> trues l = 0%nat.
Proof. induction l as [|b l IH]; intros H; [done|]. pose proof (H 0%nat) as E. cbn in E. subst b. cbn. apply IH. intros i. apply (H (S i)). Qed.

Lemma settled_detached s o : resting s -> op s = Some o -> settling 8 o -> detached o = true /\ count is_done (log s) = 1%nat.
Proof.
  intros [Hw Hs] Ho (T & R & A). rewrite Ho in Hs. destruct Hs as [[[Hs Hb] _ Hr] Hd]. split; [|by rewrite (bk_done _ _ Hb), T, Hw].
  assert (P : pending (race o) = 0).
  { rewrite (sh_pending _ Hs), trues_none; [done|]. intros i. destruct (decide (i < 8)%nat) as [Hi|Hi]; [by apply A|]. by rewrite lookup_ge_None_2 by (rewrite (sh_active _ Hs); lia). }
  destruct Hr as [D|D]; [unfold deep in D; rewrite Hd in D; cbn in D; lia|]. by destruct (D T) as [?|[?|?]]; [done|congruence|congruence].
Qed.

(** ** Properties *)

(** C9. Safety of the connect operation against any adapter: whatever the hooks return and however
    they call back into the machine, for any sequence of calls from outside, no call touches the
    operation after [on_detach] let the owner free it (the run never faults and always returns);
    [on_done] is called at most once and [on_detach] at most as often; every address is started at
    most once and is cancelled only if it was started, at most once, as is the resolution; and every
    connected descriptor handed in is passed on exactly once, to the owner as the winner or to
    [dispose_fd]. *)
Theorem connect_op_safe h o beh cs : kl_connect_op_init h = Some o ->
  exists s, drive cs (mkSys (Some o) beh [] None) = Some s /\
    (count is_done (log s) <= 1)%nat /\ (count is_detach (log s) <= count is_done (log s))%nat /\
    (forall i, (count (is_start i) (log s) <= 1)%nat /\ (count (is_cancel i) (log s) <= count (is_start i) (log s))%nat) /\
    (count is_cancel_resolve (log s) <= 1)%nat /\
    given (log s) ≡ₚ passed (log s) /\
    (op s = None -> count is_detach (log s) = 1%nat).
Proof.
  intros H. destruct (connect_op_resting h o beh cs H) as (s & E & Hw & Hs). exists s. split; [done|]. destruct (op s) as [o'|].
  - destruct Hs as [[[Hs [B1 B2 B3 B4 B5 B6 B7 B8]] _ _] _]. rewrite B1, B4, B8. split; [apply b2n_le|]. rewrite Hw. split.
    { rewrite andb_true_r. destruct (detached o') eqn:D; [|cbn; lia]. destruct (sh_detached _ Hs D) as [-> _]. apply b2n_le. }
    split; [intros i; split; [rewrite B6; apply b2n_le|by apply (cancelled_started s o')]|]. split; [apply b2n_le|]. split; [|done].
    rewrite B5. unfold owed_fds. rewrite Hw. by rewrite app_nil_r.
  - destruct Hs as [B1 B2 B3 B4 B5 B6]. rewrite B1, B2. split; [done|]. split; [done|]. split; [auto|]. split; [done|]. split; [done|done].
Qed.

(** The connect operation is never stuck: between calls from outside, an operation that was
    started and has no outcome has a resolution or an attempt outstanding; one with an outcome has
    told its owner, has both timers disarmed, and is detached as soon as the resolution and every
    attempt have reported back, and never before; [pending] counts the attempts outstanding, each of
    which was started. *)
Lemma connect_op_progress h o beh cs : kl_connect_op_init h = Some o ->
  exists s, drive cs (mkSys (Some o) beh [] None) = Some s /\
    forall o', op s = Some o' ->
      (count is_done (log s) = 1%nat <-> terminal (verdict o') = true) /\
      (terminal (verdict o') = false -> state o' <> KL_CONNECT_OP_STATE_IDLE -> resolve_inflight (waits o') = true \/ 0 < pending (race o')) /\
      (terminal (verdict o') = true -> no_timers o' /\ (detached o' = true <-> resolve_inflight (waits o') = false /\ pending (race o') = 0)) /\
      pending (race o') = Z.of_nat (trues (attempt_active (race o'))) /\
      (forall i, active o' i = true -> count (is_start i) (log s) = 1%nat).
Proof.
  intros H. destruct (connect_op_resting h o beh cs H) as (s & E & Hw & Hs). exists s. split; [done|]. intros o' Ho. rewrite Ho in Hs.
  destruct Hs as [[[Hs Hbk] Hb Hr] Hd]. split; [|split; [|split; [|split; [apply Hs|]]]].
  - rewrite (bk_done _ _ Hbk), Hw. destruct (terminal (verdict o')); cbn; split; done || lia.
  - intros T Hi. destruct (Hb T) as [H1 H2]. destruct (live_state _ Hs T) as (D1 & D2 & _). rewrite Hd in H1. cbn in H1.
    destruct (state o'); try done; [destruct H1; [done|by left|lia]|right; by apply H2].
  - intros T. split; [by apply (bk_timers _ _ Hbk)|]. split; [by intros D; destruct (sh_detached _ Hs D) as (_ & ? & ? & _)|]. intros [R P].
    destruct Hr as [D|D]; [unfold deep in D; rewrite Hd in D; cbn in D; lia|]. by destruct (D T) as [?|[?|?]]; [done|congruence|congruence].
  - intros i A. rewrite (bk_start _ _ Hbk). destruct (Z.ltb_spec (Z.of_nat i) (next_idx (race o'))) as [|L]; [done|]. destruct (sh_fresh _ Hs i L). congruence.
Qed.

(** C18. Giving up ends: whatever happened before and whatever the hooks do meanwhile, once the owner
    cancelled and the resolution and the eight possible attempts reported back, [on_done] has been
    called exactly once, every connected descriptor was passed on, and the operation is detached, or
    was freed by its owner. *)
Theorem connect_op_settles h o beh cs : kl_connect_op_init h = Some o ->
  exists s, drive (cs ++ settle) (mkSys (Some o) beh [] None) = Some s /\ count is_done (log s) = 1%nat /\ given (log s) ≡ₚ passed (log s) /\
    (op s = None \/ kl_connect_op_is_detached s = 1).
Proof.
  intros H. destruct (connect_op_resting h o beh cs H) as (s0 & E0 & Hs0). destruct (settle_begin s0 Hs0) as (s1 & E1 & Hs1 & H1).
  destruct (settle_attempts 8 0 s1 eq_refl Hs1 H1) as (s2 & E2 & Hs2 & H2). exists s2. rewrite (drive_app _ _ _ _ E0).
  split; [unfold settle; rewrite <- E2; by apply (drive_app [CCancel; CResolveFailed 0])|]. unfold kl_connect_op_is_detached. destruct (op s2) as [o2|] eqn:Ho.
  - destruct (settled_detached s2 o2 Hs2 Ho (H2 o2 eq_refl)) as [D N]. split; [done|]. rewrite D. split; [|by right].
    destruct Hs2 as [Hw Hs2]. rewrite Ho in Hs2. destruct Hs2 as [[[_ Hbk] _ _] _]. rewrite (bk_fds _ _ Hbk). unfold owed_fds. rewrite Hw. by rewrite app_nil_r.
  - destruct Hs2 as [_ Hs2]. rewrite Ho in Hs2. split; [apply Hs2|]. split; [apply Hs2|by left].
Qed.

(** A race of two addresses in which the stagger timer fires inside [arm_delay], the owner cancels
    from [on_done], the loser connects while it is being cancelled, and [on_detach] frees. *)
Definition all_hooks : KlConnectOpHooks := mkHooks true true true true true true true true true true true.
Definition fresh : KlConnectOp :=
  mkOp all_hooks KL_CONNECT_OP_STATE_IDLE false 0 (mkVerdict false KL_CONNECT_SUCCESS KL_INVALID_SOCKET 0)
    (mkRace 0 0 0 (replicate 8 false) (replicate 8 false)) (mkWaits false false false false) (mkDepth 0 0).
Definition race_script : list behaviour :=
  [inert; inert; inert; mkBehaviour [CDelay] 0 0 false; inert; inert; mkBehaviour [CCancel] 0 0 false; mkBehaviour [CConnected 1 9] 0 0 false; inert;
   mkBehaviour [] 0 0 true].

Lemma connect_op_safe_witness : exists s, drive [CStart; CResolved 2; CConnected 0 7] (mkSys (Some fresh) race_script [] None) = Some s /\
  given (log s) ≡ₚ passed (log s) /\ given (log s) = [7; 9] /\ passed (log s) = [7; 9] /\ op s = None /\
  log s = [Called ArmDeadline; Called StartResolve; Called (StartAttempt 0); Called ArmDelay; Called (StartAttempt 1); Given 7; Called CancelDeadline;
           Called (OnDone KL_CONNECT_SUCCESS 7 0); Called (CancelAttempt 1); Given 9; Called (DisposeFd 9); Called OnDetach].
Proof.
  destruct (connect_op_safe all_hooks fresh race_script [CStart; CResolved 2; CConnected 0 7] eq_refl) as (s & E & _ & _ & _ & _ & P & _).
  exists s. split; [exact E|]. split; [exact P|]. vm_compute in E. injection E as <-. repeat split.
Defined.

Lemma connect_op_settles_witness : exists s, drive ([CStart; CResolved 3; CDelay] ++ settle) (mkSys (Some fresh) [] [] None) = Some s /\
  count is_done (log s) = 1%nat /\ kl_connect_op_is_detached s = 1 /\ count (is_cancel 1) (log s) = 1%nat.
Proof.
  destruct (connect_op_settles all_hooks fresh [] [CStart; CResolved 3; CDelay] eq_refl) as (s & E & D & _ & _). exists s. split; [exact E|]. split; [exact D|].
  vm_compute in E. injection E as <-. split; done.
Defined.

(** When the stagger timer fires inside [arm_delay], the next address is started and the timer armed
    again; an [arm_delay] that reports failure afterwards makes the outer frame forget that timer,
    which is then not cancelled at the terminal. *)
Example arm_delay_forgets :
  option_map (fun s => (bool_decide (delay_armed <$> (waits <$> op s) = Some false), List.filter (fun e => match e with Called (ArmDelay | CancelDelay | OnDone _ _ _) => true | _ => false end) (log s)))
    (drive [CStart; CResolved 3; CCancel] (mkSys (Some fresh) [inert; inert; inert; mkBehaviour [CDelay] (-1) 0 false] [] None)) =
  Some (true, [Called ArmDelay; Called ArmDelay; Called (OnDone KL_CONNECT_CANCELLED (-1) 0)]).
Proof. vm_compute. reflexivity. Qed.

End ConnectOp.
