(* ===== verification/Sse.v ===== *)
(** * Server-sent events (src/src/protocols/http/http_sse.c, src/include/keel/http_sse.h)

    The writer of event streams over a streamed response, and that a reader of the event stream
    format receives exactly the events that were accepted. *)
From S2P Require Import Prelude Chunked Drain Response ResponseStream.
Import Chunked Drain Response ResponseStream.

Module Sse.

(** ** Model *)

(** A pointer with a length: its bytes, or NULL. *)
Inductive cspan := Span (s : list Z) | Null (len : Z).

Definition has_line_break (s : list Z) : bool := existsb (fun c => c =? c_LF) s || existsb (fun c => c =? c_CR) s.

Definition no_data (d : cspan) : bool := match d with Null len => 0 <? len | Span _ => false end.
Definition span_bytes (d : cspan) : list Z := match d with Span s => s | Null _ => [] end.

Section model.
Context {W : Type} `{Env : !ResEnv W}.

(** The stream writer of the response, or another one. *)
Inductive KlHttpResponseWriteFn := StreamWrite | OtherWrite (f : list Z -> W -> Z * W).

(** The batch, the response it is written to, the world, and the bytes that left. *)
Record KlSseBatch := mkBatch { iov : list (list Z); res : KlHttpResponse; world : W; sent : list Z }.

(** [true] is 0, [false] is -1. *)
Definition M : Type := KlSseBatch -> option (bool * KlSseBatch).

Definition stop : M := fun b => Some (false, b).
Definition skip : M := fun b => Some (true, b).

(** [a] and, unless it failed, [b]. *)
Definition both (p q : M) : M := fun b => '(ok, b) ← p b; if (ok : bool) then q b else Some (false, b).

Fixpoint write_each (f : list Z -> W -> Z * W) (l : list (list Z)) (w : W) : bool * W :=
  match l with
  | [] => (true, w)
  | s :: l => let '(rc, w) := f s w in if rc <? 0 then (false, w) else write_each f l w
  end.

Definition batch_flush (fuel : nat) (fn : KlHttpResponseWriteFn) : M := fun b =>
  match iov b with
  | [] => Some (true, b)
  | _ =>
      match fn with
      | StreamWrite =>
          '(rc, r, w, out) ← kl_http_response_stream_writev fuel (iov b) (res b) (world b);
          if rc <? 0 then Some (false, mkBatch (iov b) r w (sent b ++ out)) else Some (true, mkBatch [] r w (sent b ++ out))
      | OtherWrite f =>
          let '(ok, w) := write_each f (iov b) (world b) in
          Some (ok, mkBatch (if ok then [] else iov b) (res b) w (sent b))
      end
  end.

Definition batch_add (s : list Z) : M := fun b => Some (true, mkBatch (iov b ++ [s]) (res b) (world b) (sent b)).

Definition batch_append (fuel : nat) (fn : KlHttpResponseWriteFn) (s : list Z) : M := fun b =>
  if (length (iov b) =? KL_HTTP_STREAM_IOV_MAX)%nat then both (batch_flush fuel fn) (batch_add s) b else batch_add s b.

Definition batch_field (fuel : nat) (fn : KlHttpResponseWriteFn) (prefix value : list Z) : M :=
  both (batch_append fuel fn prefix) (both (batch_append fuel fn value) (batch_append fuel fn [c_LF])).

(** From [p] to the first line break, and the rest from there. *)
Fixpoint scan_line (p : list Z) : list Z * list Z :=
  match p with
  | [] => ([], [])
  | c :: p' => if (c =? c_LF) || (c =? c_CR) then ([], p) else let '(x, q) := scan_line p' in (c :: x, q)
  end.

(** The [while] loop; every round consumes a byte unless it is the last. *)
Fixpoint batch_rest (n fuel : nat) (fn : KlHttpResponseWriteFn) (prefix p : list Z) : M :=
  match p, n with
  | [], _ => skip
  | _, O => fun _ => None
  | _, S n' =>
      let '(x, q) := scan_line p in
      both (batch_field fuel fn prefix x)
        match q with
        | [] => skip
        | c :: q' =>
            let p' := match q' with d :: q'' => if (c =? c_CR) && (d =? c_LF) then q'' else q' | [] => q' end in
            batch_rest n' fuel fn prefix p'
        end
  end.

Definition batch_lines (fuel : nat) (fn : KlHttpResponseWriteFn) (prefix text : list Z) : M :=
  match text with
  | [] => batch_field fuel fn prefix []
  | _ => batch_rest (length text) fuel fn prefix text
  end.

Definition opt_field (fuel : nat) (fn : KlHttpResponseWriteFn) (prefix : list Z) (value : option (list Z)) : M :=
  match value with Some v => batch_field fuel fn prefix v | None => skip end.

Definition breaks (s : option (list Z)) : bool := match s with Some s => has_line_break s | None => false end.

(** 0 or -1, the response, the world and the bytes that left. *)
Definition finish (b : option (bool * KlSseBatch)) : option (Z * KlHttpResponse * W * list Z) :=
  '(ok, b) ← b; Some (if (ok : bool) then 0 else -1, res b, world b, sent b).

Definition kl_http_sse_event (fuel : nat) (fn : KlHttpResponseWriteFn) (event : option (list Z)) (data : cspan) (id : option (list Z))
    (r : KlHttpResponse) (w : W) : option (Z * KlHttpResponse * W * list Z) :=
  if no_data data then Some (-1, r, w, [])
  else if breaks event then Some (-1, r, w, [])
  else if breaks id then Some (-1, r, w, [])
  else
    finish (both (opt_field fuel fn (bytes "event: ") event)
           (both (opt_field fuel fn (bytes "id: ") id)
           (both (batch_lines fuel fn (bytes "data: ") (span_bytes data))
           (both (batch_append fuel fn [c_LF])
                 (batch_flush fuel fn)))) (mkBatch [] r w [])).

Definition kl_http_sse_comment (fuel : nat) (fn : KlHttpResponseWriteFn) (text : cspan) (r : KlHttpResponse) (w : W)
    : option (Z * KlHttpResponse * W * list Z) :=
  if no_data text then Some (-1, r, w, [])
  else finish (both (batch_lines fuel fn (bytes ": ") (span_bytes text)) (batch_flush fuel fn) (mkBatch [] r w [])).

Definition kl_http_sse_end (fuel : nat) (r : KlHttpResponse) (w : W) : option (Z * KlHttpResponse * W * list Z) :=
  kl_http_response_end_stream fuel r w.

Definition kl_http_sse_begin (fuel : nat) (r : KlHttpResponse) (w : W) : option (Z * KlHttpResponse * W * list Z) :=
  '(rc, r, w) ← kl_http_response_header (Some (bytes "Content-Type")) (Some (bytes "text/event-stream")) r w;
  if rc <? 0 then Some (-1, r, w, [])
  else
    '(rc, r, w) ← kl_http_response_header (Some (bytes "Cache-Control")) (Some (bytes "no-cache")) r w;
    if rc <? 0 then Some (-1, r, w, [])
    else
      '(rc, r, w, out) ← kl_http_response_begin_stream fuel 200 r w;
      Some (if rc <? 0 then -1 else 0, r, w, out).

End model.

Arguments KlHttpResponseWriteFn : clear implicits.
Arguments KlSseBatch : clear implicits.

(** ** Reading an event stream *)

(** Lines end at CR, LF or CRLF; the last component is what follows the last line. *)
Fixpoint cut_lines (l : list Z) : list (list Z) * list Z :=
  match l with
  | [] => ([], [])
  | c :: l' =>
      if c =? c_LF then let '(ls, r) := cut_lines l' in ([] :: ls, r)
      else if c =? c_CR then
        match l' with
        | d :: l'' => if d =? c_LF then let '(ls, r) := cut_lines l'' in ([] :: ls, r) else let '(ls, r) := cut_lines l' in ([] :: ls, r)
        | [] => ([[]], [])
        end
      else
        let '(ls, r) := cut_lines l' in
        match ls with [] => ([], c :: r) | x :: ls => ((c :: x) :: ls, r) end
  end.

Record message := mkMessage { type : list Z; text : list Z; last_id : list Z }.

(** A line up to its first colon, and what follows it without one leading space. *)
Fixpoint field_of (l : list Z) : list Z * list Z :=
  match l with
  | [] => ([], [])
  | c :: l' => if c =? c_colon then ([], match l' with d :: l'' => if d =? c_SP then l'' else l' | [] => l' end)
               else let '(n, v) := field_of l' in (c :: n, v)
  end.

Definition join_lines (ls : list (list Z)) : list Z := match ls with [] => [] | x :: ls => x ++ concat ((fun y => c_LF :: y) <$> ls) end.

(** The buffers of the reader: event type, data lines, last event id. *)
Fixpoint dispatch (ty : list Z) (ds : list (list Z)) (id : list Z) (ls : list (list Z)) : list message :=
  match ls with
  | [] => []
  | l :: ls =>
      match l with
      | [] => match ds with [] => dispatch [] [] id ls | _ => mkMessage ty (join_lines ds) id :: dispatch [] [] id ls end
      | _ =>
          let '(n, v) := field_of l in
          if bool_decide (n = bytes "event") then dispatch v ds id ls
          else if bool_decide (n = bytes "data") then dispatch ty (ds ++ [v]) id ls
          else if bool_decide (n = bytes "id") then dispatch ty ds (if bool_decide (0 ∈ v) then id else v) ls
          else dispatch ty ds id ls
      end
  end.

Definition strip_bom (l : list Z) : list Z :=
  match l with a :: b :: c :: l' => if bool_decide ([a; b; c] = [239; 187; 191]) then l' else l | _ => l end.

Definition sse_read (l : list Z) : list message := dispatch [] [] [] (cut_lines (strip_bom l)).1.

(** ** What is sent *)

(** A text as lines: a line break at its end does not begin another one. *)
Definition text_lines (s : list Z) : list (list Z) :=
  let '(ls, r) := cut_lines s in match ls, r with [], _ => [r] | _, [] => ls | _, _ => ls ++ [r] end.

Inductive sse_op := OpEvent (event : option (list Z)) (data : cspan) (id : option (list Z)) | OpComment (text : cspan) | OpFlush | OpEnd.

Definition sse_ok (o : sse_op) : Prop :=
  match o with
  | OpEvent event data id => (forall s, event = Some s -> span_ok s) /\ (forall s, id = Some s -> span_ok s /\ 0 ∉ s) /\ span_ok (span_bytes data)
  | OpComment text => span_ok (span_bytes text)
  | _ => True
  end.

(** The calls that are refused: a line break in the name or the id, or no data behind a length. *)
Definition refused (event : option (list Z)) (data : cspan) (id : option (list Z)) : bool := no_data data || breaks event || breaks id.

Definition render (prefix : list Z) (ls : list (list Z)) : list Z := concat ((fun l => prefix ++ l ++ [c_LF]) <$> ls).

Definition opt_line (prefix : list Z) (s : option (list Z)) : list Z := match s with Some s => render prefix [s] | None => [] end.

Definition rendered (o : sse_op) : list Z :=
  match o with
  | OpEvent event data id =>
      if refused event data id then []
      else opt_line (bytes "event: ") event ++ opt_line (bytes "id: ") id ++ render (bytes "data: ") (text_lines (span_bytes data)) ++ [c_LF]
  | OpComment text => if no_data text then [] else render (bytes ": ") (text_lines (span_bytes text))
  | _ => []
  end.

(** The messages a reader is to receive, when [id] was the last event id. *)
Fixpoint expected (id : list Z) (ops : list sse_op) : list message :=
  match ops with
  | [] => []
  | OpEvent event data i :: ops =>
      if refused event data i then expected id ops
      else mkMessage (default [] event) (join_lines (text_lines (span_bytes data))) (default id i) :: expected (default id i) ops
  | _ :: ops => expected id ops
  end.

(** ** Lines *)

Definition unbroken (x : list Z) : Prop := has_line_break x = false.

Lemma unbroken_cons c x : unbroken (c :: x) <-> c <> c_LF /\ c <> c_CR /\ unbroken x.
Proof.
  unfold unbroken, has_line_break. cbn [existsb]. destruct (Z.eqb_spec c c_LF), (Z.eqb_spec c c_CR); rewrite ?orb_true_r; cbn [orb]; intuition congruence.
Qed.

Lemma unbroken_app x y : unbroken x -> unbroken y -> unbroken (x ++ y).
Proof. intros Hx Hy. induction x as [|c x IH]; [done|]. apply unbroken_cons in Hx as (? & ? & ?). apply unbroken_cons. auto. Qed.

Lemma cut_unbroken x : unbroken x -> cut_lines x = ([], x).
Proof.
  induction x as [|c x IH]; [done|]. intros (H1 & H2 & H3)%unbroken_cons. cbn [cut_lines]. rewrite (proj2 (Z.eqb_neq _ _) H1), (proj2 (Z.eqb_neq _ _) H2), IH by done. done.
Qed.

(** A line ends at its first break. *)
Lemma cut_break x c q : unbroken x -> c = c_LF \/ c = c_CR ->
  let p' := match q with d :: q'' => if (c =? c_CR) && (d =? c_LF) then q'' else q | [] => q end in
  cut_lines (x ++ c :: q) = (x :: (cut_lines p').1, (cut_lines p').2).
Proof.
  intros Hx Hc p'. induction x as [|a x IH].
  - unfold p'. clear p'. destruct Hc as [-> | ->]; cbn [app cut_lines].
    + change (c_LF =? c_LF) with true. change (c_LF =? c_CR) with false. cbn [andb]. destruct q as [|d q]; [done|]. by destruct (cut_lines (d :: q)).
    + change (c_CR =? c_LF) with false. change (c_CR =? c_CR) with true. destruct q as [|d q]; [done|]. destruct (d =? c_LF); cbn [andb]; [by destruct (cut_lines q)|by destruct (cut_lines (d :: q))].
  - apply unbroken_cons in Hx as (H1 & H2 & H3). cbn [app cut_lines]. rewrite (proj2 (Z.eqb_neq _ _) H1), (proj2 (Z.eqb_neq _ _) H2), IH by done. done.
Qed.

Lemma cut_lf x rest : unbroken x -> cut_lines (x ++ c_LF :: rest) = (x :: (cut_lines rest).1, (cut_lines rest).2).
Proof. intros Hx. rewrite (cut_break x c_LF rest Hx (or_introl eq_refl)). by destruct rest. Qed.

Lemma cut_nil l : cut_lines l = ([], []) -> l = [].
Proof.
  destruct l as [|c l]; [done|]. cbn [cut_lines]. destruct (c =? c_LF); [by destruct (cut_lines l)|]. destruct (c =? c_CR).
  - destruct l as [|d l]; [done|]. destruct (d =? c_LF); [by destruct (cut_lines l)|by destruct (cut_lines (d :: l))].
  - by destruct (cut_lines l) as [[|? ?] ?].
Qed.

Lemma cut_lines_unbroken l : Forall unbroken (cut_lines l).1 /\ unbroken (cut_lines l).2.
Proof.
  remember (length l) as n eqn:Hn. assert (H : (length l <= n)%nat) by lia. clear Hn. revert l H. induction n as [|n IH]; intros [|c l] H; try done; [simpl in H; lia|].
  assert (Hl : (length l <= n)%nat) by (simpl in H; lia). pose proof (IH l Hl) as [H1 H2]. cbn [cut_lines]. destruct (Z.eqb_spec c c_LF); [by destruct (cut_lines l); split; [constructor|]|].
  destruct (Z.eqb_spec c c_CR).
  - destruct l as [|d l]; [by repeat constructor|]. destruct (d =? c_LF).
    + destruct (IH l) as [H3 H4]; [simpl in H; lia|]. by destruct (cut_lines l); split; [constructor|].
    + by destruct (cut_lines (d :: l)); split; [constructor|].
  - destruct (cut_lines l) as [[|x ls] r]; cbn in *; [split; [done|]; by apply unbroken_cons|]. split; [|done]. apply Forall_cons in H1 as [H3 H4].
    constructor; [|done]. by apply unbroken_cons.
Qed.

Lemma text_lines_unbroken s : Forall unbroken (text_lines s).
Proof.
  unfold text_lines. destruct (cut_lines_unbroken s) as [H1 H2]. destruct (cut_lines s) as [[|x ls] r]; cbn in *; [by repeat constructor|].
  destruct r as [|z r]; [done|]. change (Forall unbroken ((x :: ls) ++ [z :: r])). apply Forall_app. by split; [|repeat constructor].
Qed.

(** The text behind the first line break. *)
Lemma text_lines_break x c q : unbroken x -> c = c_LF \/ c = c_CR ->
  let p' := match q with d :: q'' => if (c =? c_CR) && (d =? c_LF) then q'' else q | [] => q end in
  text_lines (x ++ c :: q) = x :: match p' with [] => [] | _ => text_lines p' end.
Proof.
  intros Hx Hc p'. unfold text_lines at 1. rewrite (cut_break x c q Hx Hc). fold p'. clearbody p'. destruct p' as [|d p']; [done|].
  unfold text_lines. destruct (cut_lines (d :: p')) as [[|y ls] r] eqn:E; cbn [fst snd]; [|by destruct r].
  destruct r; [|done]. by apply cut_nil in E.
Qed.

Lemma scan_line_spec p : match scan_line p with (x, q) => p = x ++ q /\ unbroken x /\ match q with c :: _ => c = c_LF \/ c = c_CR | [] => True end end.
Proof.
  induction p as [|c p IH]; [done|]. cbn [scan_line]. destruct (Z.eqb_spec c c_LF), (Z.eqb_spec c c_CR); cbn [orb]; [(split; [done|]; split; [done|auto])..|].
  destruct (scan_line p) as [x q]. destruct IH as (-> & H1 & H2). split; [done|]. split; [|done]. by apply unbroken_cons.
Qed.

(** ** The reader on what is sent *)

Lemma cut_render prefix ls rest : unbroken prefix -> Forall unbroken ls ->
  (cut_lines (render prefix ls ++ rest)).1 = ((fun l => prefix ++ l) <$> ls) ++ (cut_lines rest).1.
Proof.
  intros Hp Hl. unfold render. induction Hl as [|l ls Hl _ IH]; [done|]. cbn [fmap list_fmap concat]. rewrite <- !app_assoc. cbn [app].
  rewrite app_assoc, cut_lf by by apply unbroken_app. cbn [fst]. by rewrite IH.
Qed.

Lemma dispatch_data ty ds id ls rest : dispatch ty ds id (((fun l => bytes "data: " ++ l) <$> ls) ++ rest) = dispatch ty (ds ++ ls) id rest.
Proof.
  revert ds. induction ls as [|l ls IH]; intros ds; cbn [fmap list_fmap app]; [by rewrite app_nil_r|]. transitivity (dispatch ty (ds ++ [l]) id (((fun l => bytes "data: " ++ l) <$> ls) ++ rest)); [done|].
  rewrite IH. by rewrite <- app_assoc.
Qed.

Lemma dispatch_comments ty ds id ls rest : dispatch ty ds id (((fun l => bytes ": " ++ l) <$> ls) ++ rest) = dispatch ty ds id rest.
Proof. induction ls as [|l ls IH]; [done|]. exact IH. Qed.

Lemma dispatch_event ds id e rest : unbroken e -> dispatch [] ds id ((cut_lines (opt_line (bytes "event: ") (Some e) ++ rest)).1) = dispatch e ds id (cut_lines rest).1.
Proof. intros He. cbn [opt_line]. rewrite cut_render by (done || by repeat constructor). done. Qed.

Lemma dispatch_id ty ds id i rest : unbroken i -> 0 ∉ i -> dispatch ty ds id ((cut_lines (opt_line (bytes "id: ") (Some i) ++ rest)).1) = dispatch ty ds i (cut_lines rest).1.
Proof.
  intros Hi H0. cbn [opt_line]. rewrite cut_render by (done || by repeat constructor). transitivity (dispatch ty ds (if bool_decide (0 ∈ i) then id else i) (cut_lines rest).1); [done|].
  by rewrite bool_decide_eq_false_2.
Qed.

Lemma text_lines_nonempty s : text_lines s <> [].
Proof. unfold text_lines. destruct (cut_lines s) as [[|x ls] [|c r]]; try done. Qed.

Lemma read_rendered id ops : Forall sse_ok ops -> dispatch [] [] id (cut_lines (concat (rendered <$> ops))).1 = expected id ops.
Proof.
  intros Ho. revert id. induction Ho as [|o ops Ho _ IH]; intros id; [done|]. cbn [fmap list_fmap concat]. destruct o as [ev data i|t| |]; cbn [rendered expected]; [..|apply IH|apply IH].
  - destruct (refused ev data i) eqn:Er; [apply IH|]. unfold refused in Er. apply orb_false_iff in Er as [Er E3]. apply orb_false_iff in Er as [_ E2]. destruct Ho as (_ & H2 & _).
    rewrite <- !app_assoc. transitivity (dispatch (default [] ev) [] id (cut_lines (opt_line (bytes "id: ") i ++ render (bytes "data: ") (text_lines (span_bytes data)) ++ [c_LF] ++ concat (rendered <$> ops))).1).
    { destruct ev as [e|]; [by apply dispatch_event|done]. }
    transitivity (dispatch (default [] ev) [] (default id i) (cut_lines (render (bytes "data: ") (text_lines (span_bytes data)) ++ [c_LF] ++ concat (rendered <$> ops))).1).
    { destruct i as [i|]; [|done]. apply dispatch_id; [done|by apply H2]. }
    rewrite cut_render by (done || apply text_lines_unbroken). rewrite dispatch_data. change ([c_LF] ++ concat (rendered <$> ops)) with ([] ++ c_LF :: concat (rendered <$> ops)).
    rewrite cut_lf by done. cbn [fst dispatch app].
    destruct (text_lines (span_bytes data)) as [|x ls] eqn:Et; [by apply text_lines_nonempty in Et|]. by rewrite IH.
  - destruct (no_data t); [apply IH|]. rewrite cut_render by (done || apply text_lines_unbroken). by rewrite dispatch_comments.
Qed.

Lemma rendered_no_bom ops : strip_bom (concat (rendered <$> ops)) = concat (rendered <$> ops).
Proof.
  assert (H : forall c p ls rest, ls <> [] -> c <> 239 -> strip_bom (render (c :: p) ls ++ rest) = render (c :: p) ls ++ rest).
  { intros c p [|l ls] rest H1 H2; [done|]. unfold render. cbn [fmap list_fmap concat app]. destruct (((p ++ l ++ [c_LF]) ++ _) ++ rest) as [|a [|b t]]; cbn [strip_bom]; [done|done|].
    rewrite bool_decide_eq_false_2; [done|]. congruence. }
  induction ops as [|o ops IH]; [done|]. cbn [fmap list_fmap concat]. destruct o as [ev data i|t| |]; cbn [rendered]; [..|done|done].
  - destruct (refused ev data i); [done|]. rewrite <- !app_assoc. destruct ev; [by apply H|]. destruct i; [by apply H|].
    apply H; [apply text_lines_nonempty|done].
  - destruct (no_data t); [done|]. apply H; [apply text_lines_nonempty|done].
Qed.

(** ** The writer *)

Section writing.
Context {W : Type} {Env : ResEnv W} (fuel : nat).
Implicit Types (b : KlSseBatch W) (r : KlHttpResponse) (w : W).

Lemma stream_run_app ops1 ops2 r w r1 w1 out1 : stream_run fuel ops1 r w = Some (r1, w1, out1) ->
  stream_run fuel (ops1 ++ ops2) r w = ('(r2, w2, out2) ← stream_run fuel ops2 r1 w1; Some (r2, w2, out1 ++ out2)).
Proof.
  revert r w out1. induction ops1 as [|o ops IH]; intros r w out1; cbn [stream_run app].
  { intros [= <- <- <-]. by destruct (stream_run fuel ops2 r w) as [[[? ?] ?]|]. }
  destruct (stream_step fuel o r w) as [[[[rc ra] wa] oa]|]; [|done]. rewrite !bind_Some_l. destruct (stream_run fuel ops ra wa) as [[[rb wb] ob]|] eqn:E; [|done].
  rewrite bind_Some_l. intros [= <- <- <-]. rewrite (IH _ _ _ E). destruct (stream_run fuel ops2 rb wb) as [[[rc2 wc2] oc2]|]; [|done]. rewrite !bind_Some_l. by rewrite app_assoc.
Qed.

Lemma writev_refused l r w rc r' w' out : kl_http_response_stream_writev fuel l r w = Some (rc, r', w', out) -> rc < 0 -> failed r' = true.
Proof.
  unfold kl_http_response_stream_writev, failed. destruct (stream_error (progress r)) eqn:E; [intros [= <- <- <- <-] _; by rewrite E|].
  destruct (head_request (head r)); [intros [= <- <- <- <-]; lia|]. destruct (KL_HTTP_STREAM_IOV_MAX <? length l)%nat; [by intros [= <- <- <- <-]|].
  destruct (sum_len l 0) as [len|]; [|by intros [= <- <- <- <-]]. destruct (len =? 0); [intros [= <- <- <- <-]; lia|].
  destruct (drain_enabled (progress r)).
  - destruct (drain_writev_coalesced _ _ _ _) as [[[[ok d] w1] ev]|]; [|done]. rewrite bind_Some_l. destruct ok; intros [= <- <- <- <-]; [lia|done].
  - destruct (writev_batches _ _ _ _ _) as [[[ok w1] o1]|]; [|done]. rewrite bind_Some_l. destruct ok; intros [= <- <- <- <-]; [lia|done].
Qed.

Definition ready b : Prop := streaming (res b) /\ Forall span_ok (iov b) /\ (length (iov b) <= KL_HTTP_STREAM_IOV_MAX)%nat.

Definition only_writes (ops : list stream_op) : Prop := Forall (fun o => is_write o = true /\ stream_ok o) ops.

(** [b'] is [b] after the bytes [s]: some of what is pending was written to the stream. *)
Definition carried b b' (s : list Z) (ok : bool) : Prop :=
  exists ops out, only_writes ops /\ stream_run fuel ops (res b) (world b) = Some (res b', world b', out) /\ sent b' = sent b ++ out /\
    if ok then payload ops ++ concat (iov b') = concat (iov b) ++ s else failed (res b') = true.

Definition writes (p : M) (s : list Z) : Prop := forall b, ready b -> exists ok b', p b = Some (ok, b') /\ carried b b' s ok /\ (ok = true -> ready b').

Lemma payload_app ops1 ops2 : payload (ops1 ++ ops2) = payload ops1 ++ payload ops2.
Proof. induction ops1 as [|[] ops1 IH]; cbn [app payload]; [done| |done|done]. by rewrite IH, app_assoc. Qed.

Lemma carried_refl b : carried b b [] true.
Proof. exists [], []. split; [constructor|]. split; [done|]. by rewrite !app_nil_r. Qed.

Lemma carried_trans b1 b2 b3 s1 s2 ok : carried b1 b2 s1 true -> carried b2 b3 s2 ok -> carried b1 b3 (s1 ++ s2) ok.
Proof.
  intros (ops1 & out1 & A1 & A2 & A3 & A4) (ops2 & out2 & B1 & B2 & B3 & B4). exists (ops1 ++ ops2), (out1 ++ out2). split; [by apply Forall_app|].
  split; [by rewrite (stream_run_app _ _ _ _ _ _ _ A2), B2|]. split; [by rewrite B3, A3, app_assoc|]. destruct ok; [|done].
  by rewrite payload_app, <- app_assoc, B4, app_assoc, A4, app_assoc.
Qed.

Lemma writes_skip : writes skip [].
Proof. intros b Hb. exists true, b. split; [done|]. split; [apply carried_refl|done]. Qed.

Lemma writes_both p q s1 s2 : writes p s1 -> writes q s2 -> writes (both p q) (s1 ++ s2).
Proof.
  intros Hp Hq b Hb. unfold both. destruct (Hp b Hb) as (ok & b1 & -> & C1 & R1). rewrite bind_Some_l. destruct ok.
  - destruct (Hq b1 (R1 eq_refl)) as (ok & b2 & -> & C2 & R2). exists ok, b2. split; [done|]. split; [by eapply carried_trans|done].
  - exists false, b1. split; [done|]. split; [|done]. destruct C1 as (ops & out & A1 & A2 & A3 & A4). by exists ops, out.
Qed.

Lemma batch_flush_spec b : ready b -> exists ok b', batch_flush fuel StreamWrite b = Some (ok, b') /\ carried b b' [] ok /\ (ok = true -> ready b' /\ iov b' = []).
Proof.
  intros Hb. pose proof Hb as (H1 & H2 & H3). unfold batch_flush. destruct (iov b) as [|s l] eqn:Ei; [exists true, b; split; [done|]; split; [apply carried_refl|done]|].
  destruct (write_moves fuel (s :: l) (res b) (world b) H1 H2) as (rc & r' & w' & out & Hw & Hm). rewrite Hw, bind_Some_l.
  assert (Hrun : stream_run fuel [SWrite (s :: l)] (res b) (world b) = Some (r', w', out)) by (cbn [stream_run stream_step]; rewrite Hw, !bind_Some_l; by rewrite app_nil_r).
  assert (Ho : only_writes [SWrite (s :: l)]) by (apply Forall_singleton; by split).
  destruct (Z.ltb_spec rc 0) as [Hrc|Hrc].
  - exists false, (mkBatch (s :: l) r' w' (sent b ++ out)). split; [done|]. split; [|done]. exists [SWrite (s :: l)], out. split; [done|]. split; [done|]. split; [done|]. by eapply writev_refused.
  - exists true, (mkBatch [] r' w' (sent b ++ out)). split; [done|]. split.
    + exists [SWrite (s :: l)], out. split; [done|]. split; [done|]. split; [done|]. rewrite Ei. cbn [payload]. by rewrite !app_nil_r.
    + intros _. split; [|done]. split; [apply Hm|]. split; [constructor|]. cbn. lia.
Qed.

Lemma writes_add s b : span_ok s -> ready b -> (length (iov b) < KL_HTTP_STREAM_IOV_MAX)%nat -> exists b', batch_add s b = Some (true, b') /\ carried b b' s true /\ ready b'.
Proof.
  intros Hs (H1 & H2 & H3) Hl. eexists. split; [done|]. split.
  - exists [], []. split; [constructor|]. split; [done|]. cbn. by rewrite app_nil_r, concat_app; cbn; rewrite app_nil_r.
  - split; [done|]. cbn. split; [by apply Forall_app; split; [|repeat constructor]|]. rewrite length_app. simpl. lia.
Qed.

Lemma writes_append s : span_ok s -> writes (batch_append fuel StreamWrite s) s.
Proof.
  intros Hs b Hb. unfold batch_append. destruct (Nat.eqb_spec (length (iov b)) KL_HTTP_STREAM_IOV_MAX) as [E|E]; cycle 1.
  { destruct (writes_add s b Hs Hb) as (b' & -> & C & R); [destruct Hb as (_ & _ & ?); lia|]. exists true, b'. done. }
  unfold both. destruct (batch_flush_spec b Hb) as (ok & b1 & -> & C1 & R1). rewrite bind_Some_l. destruct ok; [|by exists false, b1].
  destruct (R1 eq_refl) as [R2 Ei]. destruct (writes_add s b1 Hs R2) as (b' & -> & C & R); [rewrite Ei; unfold KL_HTTP_STREAM_IOV_MAX; cbn; lia|].
  exists true, b'. split; [done|]. split; [|done]. by apply (carried_trans b b1 b' [] s).
Qed.

Lemma writes_field prefix value : span_ok prefix -> span_ok value -> writes (batch_field fuel StreamWrite prefix value) (prefix ++ value ++ [c_LF]).
Proof. intros Hp Hv. apply writes_both; [by apply writes_append|]. apply writes_both; by apply writes_append. Qed.

Lemma writes_rest prefix n : span_ok prefix -> forall p, (length p <= n)%nat -> span_ok p -> p <> [] -> writes (batch_rest n fuel StreamWrite prefix p) (render prefix (text_lines p)).
Proof.
  intros Hpre. induction n as [|n IH]; intros p Hn Hs Hp; [by destruct p; [|simpl in Hn; lia]|]. pose proof (scan_line_spec p) as Hsc.
  assert (E : batch_rest (S n) fuel StreamWrite prefix p = let '(x, q) := scan_line p in
    both (batch_field fuel StreamWrite prefix x) match q with [] => skip | c :: q' => batch_rest n fuel StreamWrite prefix match q' with d :: q'' => if (c =? c_CR) && (d =? c_LF) then q'' else q' | [] => q' end end)
    by (destruct p; [done|]; reflexivity).
  rewrite E. clear E. destruct (scan_line p) as [x q]. destruct Hsc as (-> & Hx & Hq). unfold span_ok in Hs. rewrite length_app in Hs, Hn.
  assert (Hfx : writes (batch_field fuel StreamWrite prefix x) (prefix ++ x ++ [c_LF])) by (apply writes_field; [done|unfold span_ok; lia]).
  destruct q as [|c q'].
  { rewrite app_nil_r. assert (text_lines x = [x]) as -> by (unfold text_lines; by rewrite cut_unbroken). cbn. rewrite app_nil_r.
    rewrite <- (app_nil_r (prefix ++ x ++ [c_LF])). apply writes_both; [done|apply writes_skip]. }
  rewrite text_lines_break by done. set (p' := match q' with [] => q' | d :: q'' => if (c =? c_CR) && (d =? c_LF) then q'' else q' end).
  assert (Hl : (length p' <= length q')%nat) by (unfold p'; destruct q' as [|d q'']; [done|]; destruct (_ && _); simpl; lia).
  change (render prefix (x :: _)) with ((prefix ++ x ++ [c_LF]) ++ render prefix match p' with [] => [] | _ :: _ => text_lines p' end).
  apply writes_both; [done|]. clearbody p'. simpl in Hs, Hn. destruct p' as [|d p']; [by destruct n; apply writes_skip|]. apply IH; [simpl in *; lia|unfold span_ok; lia|done].
Qed.

Lemma writes_lines prefix t : span_ok prefix -> span_ok t -> writes (batch_lines fuel StreamWrite prefix t) (render prefix (text_lines t)).
Proof.
  intros Hp Ht. unfold batch_lines. destruct t as [|c t]; [|by apply writes_rest]. cbn. rewrite app_nil_r. by apply (writes_field prefix []).
Qed.

Lemma writes_opt prefix v : span_ok prefix -> (forall s, v = Some s -> span_ok s) -> writes (opt_field fuel StreamWrite prefix v) (opt_line prefix v).
Proof. intros Hp Hv. destruct v as [s|]; [|apply writes_skip]. cbn. rewrite app_nil_r. apply writes_field; auto. Qed.

(** The same, with nothing left in the batch. *)
Definition lands (p : M) (s : list Z) : Prop := forall b, ready b -> exists ok b', p b = Some (ok, b') /\ carried b b' s ok /\ (ok = true -> ready b' /\ iov b' = []).

Lemma lands_both p q s1 s2 : writes p s1 -> lands q s2 -> lands (both p q) (s1 ++ s2).
Proof.
  intros Hp Hq b Hb. unfold both. destruct (Hp b Hb) as (ok & b1 & -> & C1 & R1). rewrite bind_Some_l. destruct ok.
  - destruct (Hq b1 (R1 eq_refl)) as (ok & b2 & -> & C2 & R2). exists ok, b2. split; [done|]. split; [by eapply carried_trans|done].
  - exists false, b1. split; [done|]. split; [|done]. destruct C1 as (ops & out & A1 & A2 & A3 & A4). by exists ops, out.
Qed.

(** What a call amounts to: writes to the stream, or a failure of it. *)
Definition amounts (call : option (Z * KlHttpResponse * W * list Z)) (r : KlHttpResponse) (w : W) (s : list Z) : Prop :=
  exists rc r' w' out ops, call = Some (rc, r', w', out) /\ stream_run fuel ops r w = Some (r', w', out) /\ only_writes ops /\ (failed r' = false -> payload ops = s).

Lemma batch_finish_spec p s r w : lands p s -> streaming r -> amounts (finish (p (mkBatch [] r w []))) r w s.
Proof.
  intros Hp Hr. set (b := mkBatch [] r w []). assert (Hb : ready b) by (split; [done|]; split; [constructor|cbn; lia]).
  destruct (Hp b Hb) as (ok & b1 & -> & (ops & out & A1 & A2 & A3 & A4) & R1). cbn in A3. do 5 eexists. split; [done|]. rewrite A3. split; [exact A2|]. split; [done|].
  destruct ok; [|congruence]. destruct (R1 eq_refl) as [_ Ei]. rewrite Ei in A4. cbn in A4. by rewrite app_nil_r in A4.
Qed.

Definition sse_step (o : sse_op) (r : KlHttpResponse) (w : W) : option (Z * KlHttpResponse * W * list Z) :=
  match o with
  | OpEvent event data id => kl_http_sse_event fuel StreamWrite event data id r w
  | OpComment text => kl_http_sse_comment fuel StreamWrite text r w
  | OpFlush => kl_http_response_send fuel r w
  | OpEnd => kl_http_sse_end fuel r w
  end.

Fixpoint sse_run (ops : list sse_op) (r : KlHttpResponse) (w : W) : option (KlHttpResponse * W * list Z) :=
  match ops with
  | [] => Some (r, w, [])
  | o :: ops =>
      '(_, r, w, out) ← sse_step o r w;
      '(r, w, out2) ← sse_run ops r w; Some (r, w, out ++ out2)
  end.

(** Nothing is sent once the stream was ended. *)
Fixpoint sse_used (ended : bool) (ops : list sse_op) : bool :=
  match ops with
  | [] => true
  | (OpEvent _ _ _ | OpComment _) :: ops => negb ended && sse_used ended ops
  | OpFlush :: ops => sse_used ended ops
  | OpEnd :: ops => sse_used true ops
  end.

Lemma refused_spec r w : amounts (Some (-1, r, w, [])) r w [].
Proof. exists (-1), r, w, [], []. split; [done|]. split; [done|]. split; [constructor|done]. Qed.

Lemma event_spec event data id r w : sse_ok (OpEvent event data id) -> streaming r ->
  amounts (kl_http_sse_event fuel StreamWrite event data id r w) r w (rendered (OpEvent event data id)).
Proof.
  intros (H1 & H2 & H3) Hr. unfold kl_http_sse_event. cbn [rendered]. unfold refused. destruct (no_data data); [apply refused_spec|].
  destruct (breaks event); [apply refused_spec|]. destruct (breaks id); [apply refused_spec|]. apply batch_finish_spec; [|done].
  apply lands_both; [by apply writes_opt|]. apply lands_both; [apply writes_opt; [done|intros s E; by destruct (H2 s E)]|]. apply lands_both; [by apply writes_lines|].
  rewrite <- (app_nil_r [c_LF]). apply lands_both; [by apply writes_append|]. exact batch_flush_spec.
Qed.

Lemma comment_spec text r w : sse_ok (OpComment text) -> streaming r -> amounts (kl_http_sse_comment fuel StreamWrite text r w) r w (rendered (OpComment text)).
Proof.
  intros Ht Hr. unfold kl_http_sse_comment. cbn [rendered]. destruct (no_data text); [apply refused_spec|]. apply batch_finish_spec; [|done].
  rewrite <- (app_nil_r (render _ _)). apply lands_both; [by apply writes_lines|exact batch_flush_spec].
Qed.

Lemma used_writes ops rest : only_writes ops -> well_used false (ops ++ rest) = well_used false rest.
Proof. intros H. induction H as [|[iov| |] ops [? _] _ IH]; done. Qed.

Lemma ended_writes e ops rest : only_writes ops -> ended_after e (ops ++ rest) = ended_after e rest.
Proof. intros H. induction H as [|[iov| |] ops [? _] _ IH]; done. Qed.

Definition ended_by (ops : list sse_op) : bool := existsb (fun o => match o with OpEnd => true | _ => false end) ops.

(** A run is a run of the stream. *)
Lemma sse_run_spec ops : forall e r w, streaming r -> Forall sse_ok ops -> sse_used e ops = true ->
  exists sops r' w' out, sse_run ops r w = Some (r', w', out) /\ stream_run fuel sops r w = Some (r', w', out) /\ Forall stream_ok sops /\ well_used e sops = true /\
    ended_after e sops = e || ended_by ops /\ (failed r' = false -> payload sops = concat (rendered <$> ops)).
Proof.
  induction ops as [|o ops IH]; intros e r w Hr Ho Hu; cbn [sse_run]; [exists [], r, w, []; by rewrite orb_false_r|]. apply Forall_cons in Ho as [Ho1 Ho].
  assert (Hs : exists rc r1 w1 out1 ops1, sse_step o r w = Some (rc, r1, w1, out1) /\ stream_run fuel ops1 r w = Some (r1, w1, out1) /\ Forall stream_ok ops1 /\
    (failed r1 = false -> payload ops1 = rendered o) /\ exists e1, sse_used e1 ops = true /\ e || ended_by (o :: ops) = e1 || ended_by ops /\
      forall rest, (well_used e1 rest = true -> well_used e (ops1 ++ rest) = true) /\ ended_after e (ops1 ++ rest) = ended_after e1 rest).
  { assert (Hcall : forall call s, amounts call r w s -> ended_by (o :: ops) = ended_by ops -> negb e && sse_used e ops = true -> exists rc r1 w1 out1 ops1, call = Some (rc, r1, w1, out1) /\
      stream_run fuel ops1 r w = Some (r1, w1, out1) /\ Forall stream_ok ops1 /\ (failed r1 = false -> payload ops1 = s) /\
      exists e1, sse_used e1 ops = true /\ e || ended_by (o :: ops) = e1 || ended_by ops /\
      forall rest, (well_used e1 rest = true -> well_used e (ops1 ++ rest) = true) /\ ended_after e (ops1 ++ rest) = ended_after e1 rest).
    { intros call s (rc & r1 & w1 & out1 & ops1 & E1 & E2 & E3 & E4) Hend [He Hu1]%andb_prop. destruct e; [done|]. exists rc, r1, w1, out1, ops1.
      split; [done|]. split; [done|]. split; [eapply Forall_impl; [exact E3|by intros ? [_ ?]]|]. split; [done|]. exists false. split; [done|]. split; [by rewrite Hend|]. intros rest. by rewrite used_writes, ended_writes. }
    destruct o as [ev data id|t| |]; cbn [sse_step sse_used] in *; [apply Hcall; [by apply event_spec|done|done]|apply Hcall; [by apply comment_spec|done|done]|..].
    - destruct (flush_moves fuel r w Hr) as (rc & r1 & w1 & out1 & E & _). exists rc, r1, w1, out1, [SFlush]. split; [done|]. cbn. rewrite E. cbn. rewrite app_nil_r.
      split; [done|]. split; [by repeat constructor|]. split; [done|]. by exists e.
    - destruct (end_moves fuel r w Hr) as (rc & r1 & w1 & out1 & E & _). exists rc, r1, w1, out1, [SEnd]. split; [done|]. cbn. rewrite E. cbn. rewrite app_nil_r.
      split; [done|]. split; [by repeat constructor|]. split; [done|]. exists true. split; [done|]. split; [by rewrite !orb_true_r|done]. }
  destruct Hs as (rc & r1 & w1 & out1 & ops1 & -> & E2 & E3 & E4 & e1 & E5 & E6 & E9). rewrite bind_Some_l.
  destruct (stream_run_spec fuel ops1 r w Hr E3) as (r1' & w1' & out1' & E7 & Hm1). rewrite E2 in E7. injection E7 as <- <- <-.
  destruct (IH e1 r1 w1 (rm_st _ _ _ _ Hm1) Ho E5) as (sops & r2 & w2 & out2 & -> & F2 & F3 & F4 & F6 & F5). rewrite bind_Some_l.
  exists (ops1 ++ sops), r2, w2, (out1 ++ out2). split; [done|]. split; [by rewrite (stream_run_app _ _ _ _ _ _ _ E2), F2|]. split; [by apply Forall_app|]. split; [by apply E9|].
  split; [destruct (E9 sops) as [_ ->]; by rewrite E6|].
  intros Hf. rewrite payload_app, F5 by done. cbn. rewrite E4; [done|]. destruct (failed r1) eqn:Ef; [|done].
  destruct (stream_run_spec fuel sops r1 w1 (rm_st _ _ _ _ Hm1) F3) as (r2' & w2' & out2' & E8 & Hm2). rewrite F2 in E8. injection E8 as <- <- <-.
  by destruct (rm_failed _ _ _ _ Hm2 Ef) as [? _]; congruence.
Qed.

Lemma begin_stream_rc code r w rc r1 w1 out : kl_http_response_begin_stream fuel code r w = Some (rc, r1, w1, out) -> rc = 0 \/ rc = -1.
Proof.
  unfold kl_http_response_begin_stream. destruct (negb _); [intros [= <- _ _ _]; by right|]. destruct (kl_http_response_header _ _ _ _) as [[[rc' r'] w']|]; [|done]. rewrite bind_Some_l.
  destruct (rc' <? 0); [intros [= <- _ _ _]; by right|]. destruct (drain_enabled _).
  - destruct (drain_segments _ _ _ _) as [[[[ok d] w2] ev]|]; [|done]. rewrite bind_Some_l. destruct ok; intros [= <- _ _ _]; auto.
  - destruct (stream_writev_all _ _ _ _) as [[[ok w2] o2]|]; [|done]. rewrite bind_Some_l. destruct ok; intros [= <- _ _ _]; auto.
Qed.

Definition sse_headers : list (list Z * list Z) :=
  [(bytes "Content-Type", bytes "text/event-stream"); (bytes "Cache-Control", bytes "no-cache"); te_header].

Lemma sse_begin_spec hs r w r1 w1 out : res_ok hs r -> kl_http_sse_begin fuel r w = Some (0, r1, w1, out) ->
  streaming r1 /\ failed r1 = false /\ stream_ended (progress r1) = false /\ head_request (head r1) = head_request (head r) /\
  exists t, status_line_for 200 = line t /\ out ++ ResponseStream.pending r1 = concat (line <$> t :: (header_text <$> hs ++ sse_headers)) ++ CRLF.
Proof.
  intros Hr. unfold kl_http_sse_begin.
  destruct (header_spec (Some (bytes "Content-Type")) (Some (bytes "text/event-stream")) r w hs Hr) as (rc & r2 & w2 & -> & Hrc & Hr2 & (_ & _ & Hh2) & _). rewrite bind_Some_l.
  destruct Hrc as [-> | ->]; cbn [Z.ltb Z.compare]; [|done].
  destruct (header_spec (Some (bytes "Cache-Control")) (Some (bytes "no-cache")) r2 w2 _ Hr2) as (rc & r3 & w3 & -> & Hrc & Hr3 & (_ & _ & Hh3) & _). rewrite bind_Some_l.
  destruct Hrc as [-> | ->]; cbn [Z.ltb Z.compare]; [|done].
  destruct (kl_http_response_begin_stream fuel 200 r3 w3) as [[[[rc r4] w4] out4]|] eqn:Eb; [|done]. rewrite bind_Some_l.
  destruct (begin_stream_rc _ _ _ _ _ _ _ Eb) as [-> | ->]; cbn [Z.ltb Z.compare]; [|done]. intros [= <- <- <-].
  destruct (begin_spec fuel 200 _ r3 w3 r4 w4 out4 Hr3 Eb) as (H1 & H2 & H3 & H4 & t & H5 & _ & _ & H8). split; [done|]. split; [done|]. split; [done|]. split; [congruence|].
  exists t. split; [done|]. rewrite H8. unfold sse_headers. cbn [Z.eqb header_pair]. by rewrite <- !app_assoc.
Qed.

Lemma ended_none ops : well_used true ops = true -> stream_wire true ops = [] /\ payload ops = [] /\ ended_after true ops = true.
Proof. induction ops as [|[l| |] ops IH]; cbn [well_used stream_wire payload]; [done|done|exact IH|exact IH]. Qed.

(** The chunks of a stream. *)
Lemma stream_wire_chunks e ops : well_used e ops = true -> Forall (fun o => match o with SWrite iov => span_ok (concat iov) | _ => True end) ops ->
  exists xs, concat xs = payload ops /\ Forall span_ok xs /\ stream_wire e ops = concat (chunk <$> xs) ++ (if negb e && ended_after e ops then last_chunk else []).
Proof.
  intros Hu Hs. revert e Hu. induction Hs as [|o ops Ho _ IH]; intros e Hu; [exists []; by destruct e|]. destruct o as [l| |]; cbn [well_used stream_wire payload] in *.
  - apply andb_prop in Hu as [He Hu]. destruct (IH e Hu) as (xs & E1 & E2 & E3). exists (concat l :: xs). split; [cbn; by rewrite E1|]. split; [by constructor|].
    cbn [fmap list_fmap concat]. by rewrite E3, <- app_assoc.
  - by apply IH.
  - destruct (ended_none ops Hu) as (E1 & E2 & E3). exists []. rewrite E1, E2. split; [done|]. split; [constructor|]. change (ended_after e (SEnd :: ops)) with (ended_after true ops).
    rewrite E3, andb_true_r. cbn. by destruct e.
Qed.

Lemma chunks_body xs : Forall span_ok xs -> chunked_body (concat (chunk <$> xs) ++ last_chunk) (concat xs).
Proof. intros H. induction H as [|x xs Hx _ IH]; [apply last_chunk_body|]. cbn [fmap list_fmap concat]. rewrite <- app_assoc. by apply chunk_body. Qed.

End writing.

(** C22. Server-sent events arrive.  For any response built before to a request other than HEAD, any sequence
    of events, comments, flushes and ends with nothing behind an end, and any transport: the calls return, and as long as the stream has not failed
    the bytes sent and the bytes still pending are the head of an event stream followed by chunks
    whose content a reader of the event stream format reads as the accepted events in order, each with
    its name, the last id and the lines of its text, which is cut at CR, LF and CRLF, a line break at its
    end not counting (so the reader gets the lines joined by LF, not the bytes of the text); calls whose name or id has a line
    break contribute nothing.  When kl_http_response_send reports 0, the stream was ended, all of it
    was sent and it is one complete chunked body. *)
Theorem sse_events_arrive {W : Type} {Env : ResEnv W} (fuel : nat) (ops : list build_op) (eops : list sse_op) (k : nat)
    (w w0 w1 w2 : W) (r0 r r1 : KlHttpResponse) (hs : list (list Z * list Z)) (out0 : list Z)
    (Hinit : kl_http_response_init w = (Some r0, w0)) (Hops : Forall build_ok ops) (Hb : build ops r0 w0 = Some (hs, r, w1))
    (Hbegin : kl_http_sse_begin fuel r w1 = Some (0, r1, w2, out0)) (Hget : head_request (head r) = false)
    (He : Forall sse_ok eops) (Hu : sse_used false eops = true) :
  exists t r2 w3 out1 rc r3 w4 out2,
    line t = status_line_for 200 /\ sse_run fuel eops r1 w2 = Some (r2, w3, out1) /\ drive k fuel r2 w3 = Some (rc, r3, w4, out2) /\
    out2 `prefix_of` ResponseStream.pending r2 /\
    (rc = 0 -> failed r2 = false /\ out2 = ResponseStream.pending r2 /\ ended_by eops = true) /\
    (failed r2 = false -> exists xs,
       out0 ++ out1 ++ ResponseStream.pending r2 =
         concat (line <$> t :: (header_text <$> hs ++ sse_headers)) ++ CRLF ++ concat (chunk <$> xs) ++ (if ended_by eops then last_chunk else []) /\
       chunked_body (concat (chunk <$> xs) ++ last_chunk) (concat xs) /\
       sse_read (concat xs) = expected [] eops).
Proof.
  destruct (build_spec ops r0 w0 [] (init_ok _ _ _ Hinit) Hops) as (hs' & rr & w1' & Hb1 & Hr). rewrite Hb in Hb1. injection Hb1 as <- <- <-.
  destruct (sse_begin_spec fuel hs r w1 r1 w2 out0 Hr Hbegin) as (Hst & Hfl & Hen & Hhd & t & Ht & Hout).
  destruct (sse_run_spec fuel eops false r1 w2 Hst He Hu) as (sops & r2 & w3 & out1 & Hrun & Hsrun & Hsok & Hwu & Hend & Hpay). rewrite orb_false_l in Hend.
  destruct (stream_run_spec fuel sops r1 w2 Hst Hsok) as (r2' & w3' & out1' & E & [S2 Hh2 Hp2 _ Ha2 Hx2 He2]). rewrite Hsrun in E. injection E as <- <- <-.
  destruct (stream_drive_spec k fuel r2 w3 S2) as (rc & r3 & w4 & out2 & Hdrive & Hp3 & H03).
  exists t, r2, w3, out1, rc, r3, w4, out2. split; [done|]. split; [done|]. split; [done|]. split; [done|]. split.
  - intros E0. destruct (H03 E0) as (E1 & E2 & E3). destruct (He2 false Hwu ltac:(unfold ended_ok; congruence) E2) as [E4 E5]. split; [unfold failed; by rewrite E5, E3|].
    split; [done|]. by rewrite <- Hend.
  - intros Hf. destruct (stream_wire_chunks false sops Hwu) as (xs & E1 & E2 & E3).
    { eapply Forall_impl; [by apply Hx2|]. intros [l| |]; cbn; [|done|done]. intros [E3|E3]; [congruence|done]. }
    exists xs. split; [|split; [by apply chunks_body|]].
    + rewrite (Ha2 Hf), app_assoc, Hout. unfold offer_all. rewrite Hhd, Hget, Hen, E3, Hend, <- app_assoc. done.
    + rewrite E1, (Hpay Hf). unfold sse_read. rewrite rendered_no_bom. by apply read_rendered.
Qed.

Definition sample_events : list sse_op :=
  [OpEvent (Some (bytes "tick")) (Span (bytes "one")) (Some (bytes "7")); OpComment (Span []); OpFlush; OpEvent (Some [c_LF]) (Span (bytes "no")) None;
   OpEvent None (Span (bytes "a" ++ [c_CR; c_LF] ++ bytes "b" ++ [c_LF])) None; OpEnd].

Definition sample_sse : option (Z * KlHttpResponse * nat * list Z) := Eval vm_compute in kl_http_sse_begin (Env := trickle) 0 sample_res 3%nat.
Definition sse_started : KlHttpResponse := Eval vm_compute in default sample_res ((fun x => x.1.1.2) <$> sample_sse).
Definition sse_world : nat := Eval vm_compute in default 0%nat ((fun x => x.1.2) <$> sample_sse).
Definition sse_out : list Z := Eval vm_compute in default [] ((fun x => x.2) <$> sample_sse).

Lemma sample_events_ok : Forall sse_ok sample_events.
Proof.
  unfold sample_events. repeat apply Forall_cons_2; try apply Forall_nil_2; try exact I; cbn [sse_ok]; try done;
    (split; [intros s E; injection E as <- || discriminate E; done|]; split; [|done]); intros s E; injection E as <- || discriminate E;
    split; [done|apply (bool_decide_unpack _); by vm_compute].
Qed.

Lemma sse_events_arrive_witness : exists r2 w3 out1 rc r3 w4 out2 xs,
  sse_run (Env := trickle) 0 sample_events sse_started sse_world = Some (r2, w3, out1) /\ drive 200 0 r2 w3 = Some (rc, r3, w4, out2) /\ rc = 0 /\
  chunked_body (concat (chunk <$> xs) ++ last_chunk) (concat xs) /\
  sse_read (concat xs) = [mkMessage (bytes "tick") (bytes "one") (bytes "7"); mkMessage [] (bytes "a" ++ [c_LF] ++ bytes "b") (bytes "7")].
Proof.
  destruct (sse_events_arrive (Env := trickle) 0 sample_build sample_events 200 0%nat 1%nat 3%nat sse_world sample_r0 sample_res sse_started sample_hs sse_out)
    as (t & r2 & w3 & out1 & rc & r3 & w4 & out2 & _ & H1 & H2 & _ & H3 & H4).
  - reflexivity.
  - exact sample_build_ok.
  - reflexivity.
  - reflexivity.
  - reflexivity.
  - exact sample_events_ok.
  - reflexivity.
  - assert (E : ('(r2, w3, _) ← sse_run (Env := trickle) 0 sample_events sse_started sse_world; (fun x => x.1.1.1) <$> drive 200 0 r2 w3) = Some 0) by (vm_compute; reflexivity).
    rewrite H1, bind_Some_l, H2 in E. cbn in E. injection E as E. destruct (H3 E) as (Hf & _). destruct (H4 Hf) as (xs & _ & Hc & Hx).
    exists r2, w3, out1, rc, r3, w4, out2, xs. split; [exact H1|]. split; [exact H2|]. split; [exact E|]. split; [exact Hc|]. rewrite Hx. reflexivity.
Defined.

End Sse.
