(* ===== verification/Listener.v ===== *)
(** * The listener (src/src/listener.c, src/include/keel/listener.h, listener_detail.h)

    The accept side: up to [window] accepts posted, each holding a credit of the connection pool, with
    hooks that may complete an accept inside themselves and call the listener back.  The adapter and
    the pool are a script with one entry per hook call.  The owner frees the listener after
    [on_close] returned, so the model keeps it. *)
From S2P Require Import Prelude.

Module Listener.

(** ** Data *)

Inductive KlListenerState :=
| KL_LISTENER_STATE_IDLE | KL_LISTENER_STATE_LISTENING | KL_LISTENER_STATE_PAUSED | KL_LISTENER_STATE_CLOSING | KL_LISTENER_STATE_CLOSED.

#[global] Instance KlListenerState_eq_dec : EqDecision KlListenerState.
Proof. solve_decision. Defined.

Definition KL_LISTENER_ARM_RETRY : Z := -2.

(** Which hooks are set; [credit]: [reserve] and [release]. *)
Record KlListenerHooks := mkHooks {
  reserve : bool; release : bool; arm_accept : bool; disarm_accept : bool; cancel_accept : bool;
  on_accept : bool; dispose_fd : bool; on_close : bool; on_accept_obj : bool; dispose_obj : bool;
}.

Record KlListener := mkListener {
  state : KlListenerState; completion_mode : bool; detached : bool; last_error : Z;
  window : Z; inflight : Z; accept_cancel_requested : bool;
  pumping : bool; pump_pending : bool; in_start : nat; in_dispatch : nat; hooks : KlListenerHooks;
}.

Definition set_state (x : KlListenerState) (l : KlListener) : KlListener :=
  mkListener x (completion_mode l) (detached l) (last_error l) (window l) (inflight l) (accept_cancel_requested l)
    (pumping l) (pump_pending l) (in_start l) (in_dispatch l) (hooks l).
Definition set_detached (l : KlListener) : KlListener :=
  mkListener KL_LISTENER_STATE_CLOSED (completion_mode l) true (last_error l) (window l) (inflight l) (accept_cancel_requested l)
    (pumping l) (pump_pending l) (in_start l) (in_dispatch l) (hooks l).
Definition set_error (e : Z) (l : KlListener) : KlListener :=
  mkListener (state l) (completion_mode l) (detached l) e (window l) (inflight l) (accept_cancel_requested l)
    (pumping l) (pump_pending l) (in_start l) (in_dispatch l) (hooks l).
Definition set_window (n : Z) (l : KlListener) : KlListener :=
  mkListener (state l) (completion_mode l) (detached l) (last_error l) n (inflight l) (accept_cancel_requested l)
    (pumping l) (pump_pending l) (in_start l) (in_dispatch l) (hooks l).
Definition set_inflight (n : Z) (l : KlListener) : KlListener :=
  mkListener (state l) (completion_mode l) (detached l) (last_error l) (window l) n (accept_cancel_requested l)
    (pumping l) (pump_pending l) (in_start l) (in_dispatch l) (hooks l).
Definition set_cancelled (l : KlListener) : KlListener :=
  mkListener (state l) (completion_mode l) (detached l) (last_error l) (window l) (inflight l) true
    (pumping l) (pump_pending l) (in_start l) (in_dispatch l) (hooks l).
Definition set_pumping (b : bool) (l : KlListener) : KlListener :=
  mkListener (state l) (completion_mode l) (detached l) (last_error l) (window l) (inflight l) (accept_cancel_requested l)
    b (pump_pending l) (in_start l) (in_dispatch l) (hooks l).
Definition set_pending (b : bool) (l : KlListener) : KlListener :=
  mkListener (state l) (completion_mode l) (detached l) (last_error l) (window l) (inflight l) (accept_cancel_requested l)
    (pumping l) b (in_start l) (in_dispatch l) (hooks l).
Definition set_in_start (n : nat) (l : KlListener) : KlListener :=
  mkListener (state l) (completion_mode l) (detached l) (last_error l) (window l) (inflight l) (accept_cancel_requested l)
    (pumping l) (pump_pending l) n (in_dispatch l) (hooks l).
Definition set_in_dispatch (n : nat) (l : KlListener) : KlListener :=
  mkListener (state l) (completion_mode l) (detached l) (last_error l) (window l) (inflight l) (accept_cancel_requested l)
    (pumping l) (pump_pending l) (in_start l) n (hooks l).

(** ** The slot lease *)

(** [releases]: the release function is set; [alive]: the liveness token, if there is one. *)
Record KlSlotLease := mkLease { releases : bool; alive : option bool }.

(** Whether the pool's function is called, and the lease afterwards. *)
Definition kl_slot_lease_release (lease : KlSlotLease) : bool * KlSlotLease :=
  if negb (releases lease) then (false, lease)
  else (match alive lease with Some false => false | _ => true end, mkLease false None).

(** ** The adapter *)

(** An accepted connection: a descriptor, or the adapter's object. *)
Inductive LAccepted := Fd (fd : Z) | Obj (conn : Z).

#[global] Instance LAccepted_eq_dec : EqDecision LAccepted.
Proof. solve_decision. Defined.

Inductive call :=
| CStart | CAccepted (fd : Z) | CAcceptedObj (conn : Z) | CFailed (error : Z) | CNotify | CClose | CWindow (n : Z).

Inductive hook := Reserve | Release | Arm | Disarm | CancelAccept | OnAccept (a : LAccepted) | Dispose (a : LAccepted) | OnClose.

(** What happened: hooks called, connections that arrived, credits granted, the close.  [Returned] is a
    credit given back where there is no accounting. *)
Inductive event := Called (h : hook) | Arrived (a : LAccepted) | Granted | Returned | Closing.

(** What one hook call does: entry points it calls, and its result. *)
Record behaviour := mkBehaviour { calls : list call; ret : Z }.

Definition inert : behaviour := mkBehaviour [] 0.

(** [kept]: while a failing [arm_accept] is on the stack, the accepts posted before its own. *)
Record sys := mkSys { li : KlListener; script : list behaviour; log : list event; kept : Z }.

Definition put (l : KlListener) (y : sys) : sys := mkSys l (script y) (log y) (kept y).
Definition upd (f : KlListener -> KlListener) (y : sys) : sys := put (f (li y)) y.
Definition emit (e : event) (y : sys) : sys := mkSys (li y) (script y) (log y ++ [e]) (kept y).
Definition set_script (b : list behaviour) (y : sys) : sys := mkSys (li y) b (log y) (kept y).
Definition set_kept (k : Z) (y : sys) : sys := mkSys (li y) (script y) (log y) k.

(** ** Rules of the hooks *)

(** [lax] lifts the rules below, which the theorems ask of the hooks. *)
Class Rules := lax : bool.

Definition is_completion (c : call) : bool := match c with CAccepted _ | CAcceptedObj _ | CFailed _ => true | _ => false end.

(** [reserve] answers 1, 0 or less and at most closes the listener, which is what a comment of listener.c
    allows it.  While an [arm_accept] that is going to return an error is on the stack, at most the accept it
    posts is completed: the header asks of every [arm_accept] that what completes inside it is its own
    accept.  Everything else may be called from every hook.  The examples at the end of the file show what
    the code does with hooks that do otherwise. *)
Definition permitted `{Rules} (h : hook) (c : call) (y : sys) : bool :=
  lax ||
  match h, c with
  | Reserve, CClose => true
  | Reserve, _ => false
  | _, _ => negb (is_completion c) || (inflight (li y) <=? 0) || (kept y <? inflight (li y))
  end.

Definition answer (h : hook) (b : behaviour) : Z := match h with Reserve => Z.min 1 (ret b) | _ => ret b end.

(** ** The machine *)

(** [run] executes the entry points that a hook calls. *)
Section machine.
Context `{Rules} (run : call -> sys -> option sys).

Fixpoint run_calls (h : hook) (cs : list call) (y : sys) : option sys :=
  match cs with
  | [] => Some y
  | c :: cs => y ← (if permitted h c y then run c y else Some y); run_calls h cs y
  end.

Definition keeping (h : hook) (b : behaviour) (y : sys) : Z :=
  match h with Arm => if ret b <? 0 then inflight (li y) - 1 else kept y | _ => kept y end.

Definition call_hook (h : hook) (y : sys) : option (Z * sys) :=
  let y := emit (Called h) y in
  match script y with
  | [] => Some (answer h inert, y)
  | b :: rest =>
      y' ← run_calls h (calls b) (set_kept (keeping h b y) (set_script rest y));
      Some (answer h b, set_kept (kept y) y')
  end.

(** A hook under the dispatch guard. *)
Definition dispatched (h : hook) (y : sys) : option (Z * sys) :=
  '(r, y) ← call_hook h (upd (fun l => set_in_dispatch (S (in_dispatch l)) l) y);
  Some (r, upd (fun l => set_in_dispatch (Nat.pred (in_dispatch l)) l) y).

Definition l_reserve (y : sys) : option (Z * sys) :=
  '(r, y) ← (if negb (reserve (hooks (li y))) then Some (1, y) else dispatched Reserve y);
  Some (r, if r =? 1 then emit Granted y else y).

Definition l_release_credit (y : sys) : option sys :=
  if release (hooks (li y)) then '(_, y) ← dispatched Release y; Some y else Some (emit Returned y).

Definition l_finalize (y : sys) : option sys :=
  let l := li y in
  if negb (bool_decide (state l = KL_LISTENER_STATE_CLOSING)) then Some y
  else if negb (in_start l =? 0)%nat || negb (in_dispatch l =? 0)%nat then Some y
  else if negb (inflight l =? 0) then Some y
  else if detached l then Some y
  else
    let y := upd set_detached y in
    if on_close (hooks l) then '(_, y) ← call_hook OnClose y; Some y else Some y.

Definition l_dispose (a : LAccepted) (y : sys) : option sys :=
  '(_, y) ← dispatched (Dispose a) y;
  l_finalize y.

(** [while (l->inflight > 0)]: the fuel is the count at the start, which only goes down. *)
Fixpoint return_credits (fuel : nat) (y : sys) : option sys :=
  if inflight (li y) <=? 0 then Some y
  else
    match fuel with
    | O => None
    | S fuel => y ← l_release_credit (upd (fun l => set_inflight (inflight l - 1) l) y); return_credits fuel y
    end.

Definition disarm (y : sys) : option sys :=
  if disarm_accept (hooks (li y)) then '(_, y) ← call_hook Disarm y; Some y else Some y.

Definition retire_posted (y : sys) : option sys :=
  let l := li y in
  if 0 <? inflight l then
    if negb (completion_mode l) then
      y ← disarm y;
      return_credits (Z.to_nat (inflight (li y))) y
    else if cancel_accept (hooks l) && negb (accept_cancel_requested l) then
      '(_, y) ← dispatched CancelAccept (upd set_cancelled y); Some y
    else Some y
  else Some y.

Definition l_begin_close (y : sys) : option sys :=
  let l := li y in
  if bool_decide (state l = KL_LISTENER_STATE_CLOSED) then Some y
  else
    y ← (if negb (bool_decide (state l = KL_LISTENER_STATE_CLOSING)) then
           retire_posted (upd (set_state KL_LISTENER_STATE_CLOSING) (emit Closing y))
         else Some y);
    l_finalize y.

(** Nothing is posted and nothing can be: wait for a free slot. *)
Definition pause (y : sys) : option sys :=
  let y := upd (set_state KL_LISTENER_STATE_PAUSED) y in
  if negb (completion_mode (li y)) then disarm y else Some y.

(** Posting failed. *)
Definition post_failed (before rc : Z) (y : sys) : option sys :=
  y ← l_release_credit (upd (fun l => set_pumping true (set_inflight before l)) y);
  let y := upd (fun l => set_error rc (set_pending false (set_pumping false l))) y in
  if rc =? KL_LISTENER_ARM_RETRY then
    if (inflight (li y) =? 0) && bool_decide (state (li y) = KL_LISTENER_STATE_LISTENING) then pause y else Some y
  else l_begin_close y.

(** One round of the inner loop: whether it goes on. *)
Definition post_one (y : sys) : option (bool * sys) :=
  '(r, y) ← l_reserve y;
  if r <? 0 then y ← l_begin_close (upd (set_error (-1)) y); Some (false, y)
  else if negb (bool_decide (state (li y) = KL_LISTENER_STATE_LISTENING)) then
    y ← (if r =? 1 then l_release_credit y else Some y); Some (false, y)
  else if r =? 0 then
    y ← (if inflight (li y) =? 0 then pause y else Some y); Some (false, y)
  else
    let before := inflight (li y) in
    '(rc, y) ← call_hook Arm (upd (fun l => set_in_start (S (in_start l)) (set_pumping true (set_inflight (before + 1) l))) y);
    let y := upd (fun l => set_pumping false (set_in_start (Nat.pred (in_start l)) l)) y in
    if inflight (li y) =? before then Some (true, y)
    else if rc <? 0 then y ← post_failed before rc y; Some (false, y)
    else Some (true, y).

(** Each round uses a script entry, fills the window or clears the flag. *)
Fixpoint l_pump_loop (fuel : nat) (y : sys) : option sys :=
  match fuel with
  | O => None
  | S fuel =>
      '(more, y) ← (if bool_decide (state (li y) = KL_LISTENER_STATE_LISTENING) && (inflight (li y) <? window (li y)) then post_one y
                    else Some (false, y));
      if (more : bool) then l_pump_loop fuel y
      else if pump_pending (li y) then l_pump_loop fuel (upd (set_pending false) y)
      else Some y
  end.

Definition pump_fuel (y : sys) : nat := (length (script y) * (Z.to_nat (window (li y)) + 3) + Z.to_nat (window (li y)) + 2)%nat.

Definition l_pump (y : sys) : option sys :=
  if pumping (li y) then Some (upd (set_pending true) y)
  else
    y ← l_pump_loop (pump_fuel y) (upd (set_pending false) y);
    l_finalize y.

(** ** Entry points *)

Definition kl_listener_set_accept_window (n : Z) (y : sys) : Z * sys :=
  let l := li y in
  if negb (bool_decide (state l = KL_LISTENER_STATE_IDLE)) then (-1, y)
  else if n <? 1 then (-1, y)
  else if negb (completion_mode l) && negb (n =? 1) then (-1, y)
  else (0, upd (set_window n) y).

Definition kl_listener_start (y : sys) : option (Z * sys) :=
  if negb (bool_decide (state (li y) = KL_LISTENER_STATE_IDLE)) then Some (-1, y)
  else y ← l_pump (upd (set_state KL_LISTENER_STATE_LISTENING) y); Some (0, y).

Definition closing_down (l : KlListener) : bool :=
  bool_decide (state l = KL_LISTENER_STATE_CLOSING) || bool_decide (state l = KL_LISTENER_STATE_CLOSED).

Definition l_on_accepted (a : LAccepted) (y : sys) : option sys :=
  let y := emit (Arrived a) y in
  if inflight (li y) <=? 0 then l_dispose a y
  else
    let y := upd (fun l => set_inflight (inflight l - 1) l) y in
    if closing_down (li y) then
      y ← l_release_credit y;
      l_dispose a y
    else
      '(_, y) ← dispatched (OnAccept a) y;
      l_pump y.

Definition kl_listener_on_accept_failed (error : Z) (y : sys) : option sys :=
  if inflight (li y) <=? 0 then Some y
  else
    y ← l_release_credit (upd (fun l => set_error error (set_inflight (inflight l - 1) l)) y);
    if closing_down (li y) then l_finalize y else l_pump y.

Definition kl_listener_on_accepted (fd : Z) (y : sys) : option sys :=
  if on_accept_obj (hooks (li y)) then kl_listener_on_accept_failed (-1) y else l_on_accepted (Fd fd) y.

Definition kl_listener_on_accepted_obj (conn : Z) (y : sys) : option sys :=
  if negb (on_accept_obj (hooks (li y))) then kl_listener_on_accept_failed (-1) y else l_on_accepted (Obj conn) y.

Definition kl_listener_notify_slot_free (y : sys) : option sys :=
  let y := if bool_decide (state (li y) = KL_LISTENER_STATE_PAUSED) then upd (set_state KL_LISTENER_STATE_LISTENING) y else y in
  if negb (bool_decide (state (li y) = KL_LISTENER_STATE_LISTENING)) then Some y else l_pump y.

Definition kl_listener_close (y : sys) : option (Z * sys) := y ← l_begin_close y; Some (0, y).

Definition dispatch (c : call) (y : sys) : option sys :=
  match c with
  | CStart => '(_, y) ← kl_listener_start y; Some y
  | CAccepted fd => kl_listener_on_accepted fd y
  | CAcceptedObj conn => kl_listener_on_accepted_obj conn y
  | CFailed e => kl_listener_on_accept_failed e y
  | CNotify => kl_listener_notify_slot_free y
  | CClose => '(_, y) ← kl_listener_close y; Some y
  | CWindow n => Some (kl_listener_set_accept_window n y).2
  end.

End machine.

(** Nesting is bounded by the hook calls that call back. *)
Fixpoint run_call `{Rules} (fuel : nat) (c : call) (y : sys) : option sys :=
  match fuel with
  | O => None
  | S fuel => dispatch (run_call fuel) c y
  end.

(** The calls of the event loop. *)
Fixpoint drive `{Rules} (cs : list call) (y : sys) : option sys :=
  match cs with
  | [] => Some y
  | c :: cs => y ← run_call (S (length (script y))) c y; drive cs y
  end.

#[local] Instance documented : Rules := false.

Definition kl_listener_init (completion : bool) (h : KlListenerHooks) : option KlListener :=
  let fd_family := on_accept h || dispose_fd h in
  let obj_family := on_accept_obj h || dispose_obj h in
  if negb (arm_accept h) then None
  else if eqb fd_family obj_family then None
  else if fd_family && (negb (on_accept h) || negb (dispose_fd h)) then None
  else if obj_family && (negb (on_accept_obj h) || negb (dispose_obj h)) then None
  else if negb completion && negb (disarm_accept h) then None
  else if negb (eqb (reserve h) (release h)) then None
  else Some (mkListener KL_LISTENER_STATE_IDLE completion false 0 1 0 false false false 0 0 h).

Definition kl_listener_state (l : KlListener) : KlListenerState := state l.
Definition kl_listener_is_detached (l : KlListener) : bool := detached l.

(** ** What a history says *)

(** The phase of the listener's life: what is still allowed.  After a close began nothing is reserved,
    posted or handed over; after [on_close] only stray connections are disposed of. *)
Inductive phase := Accepting | Ending | Ended.

Definition phase_step (x : phase) (e : event) : option phase :=
  match x, e with
  | Accepting, Called OnClose => None
  | Accepting, Closing => Some Ending
  | Ending, (Called (Reserve | Arm | OnAccept _) | Closing) => None
  | Ending, Called OnClose => Some Ended
  | Ended, Called (Dispose _) => Some Ended
  | Ended, Called _ => None
  | Ended, Closing => None
  | x, _ => Some x
  end.

Definition phase_of (ev : list event) : option phase := foldl (fun x e => x ≫= fun x => phase_step x e) (Some Accepting) ev.

Definition count (f : event -> bool) (ev : list event) : Z := Z.of_nat (length (List.filter f ev)).

Definition is_granted (e : event) : bool := match e with Granted => true | _ => false end.
Definition is_returned (e : event) : bool := match e with Called Release | Returned => true | _ => false end.
Definition is_handed (e : event) : bool := match e with Called (OnAccept _) => true | _ => false end.
Definition is_cancel (e : event) : bool := match e with Called CancelAccept => true | _ => false end.
Definition arrived (a : LAccepted) (e : event) : bool := match e with Arrived b => bool_decide (a = b) | _ => false end.
Definition settled (a : LAccepted) (e : event) : bool := match e with Called (OnAccept b | Dispose b) => bool_decide (a = b) | _ => false end.

Definition fresh (l : KlListener) (bs : list behaviour) : sys := mkSys l bs [] 0.

(** ** Invariant *)

Lemma count_app f ev e : count f (ev ++ [e]) = count f ev + (if f e then 1 else 0).
Proof. unfold count. rewrite List.filter_app, length_app. simpl. destruct (f e); simpl; lia. Qed.

Lemma phase_app ev e : phase_of (ev ++ [e]) = phase_of ev ≫= fun x => phase_step x e.
Proof. unfold phase_of. by rewrite foldl_app. Qed.

(** The phase of a listener; without an [on_close] hook its end is not announced. *)
Definition phase_in (l : KlListener) : phase :=
  match state l with
  | KL_LISTENER_STATE_CLOSING => Ending
  | KL_LISTENER_STATE_CLOSED => if on_close (hooks l) then Ended else Ending
  | _ => Accepting
  end.

Record sane (k : Z) (l : KlListener) : Prop := {
  i_window : 0 <= inflight l <= window l /\ 1 <= window l;
  i_none : state l = KL_LISTENER_STATE_IDLE \/ state l = KL_LISTENER_STATE_PAUSED \/ state l = KL_LISTENER_STATE_CLOSED -> inflight l = 0;
  i_detached : detached l = bool_decide (state l = KL_LISTENER_STATE_CLOSED);
  i_kept : 0 <= k <= inflight l /\ (completion_mode l = false -> window l = 1 /\ k = 0);
}.

(** The books: every credit granted was given back, handed over or is held by a posted accept. *)
Record ledger (l : KlListener) (ev : list event) : Prop := {
  g_credit : count is_granted ev = count is_returned ev + count is_handed ev + inflight l;
  g_phase : phase_of ev = Some (phase_in l);
  g_cancel : count is_cancel ev = if accept_cancel_requested l then 1 else 0;
}.

Definition okay (y : sys) : Prop := sane (kept y) (li y) /\ ledger (li y) (log y).

(** Connections that arrived and are not settled yet. *)
Definition owed (a : LAccepted) (ev : list event) : Z := count (arrived a) ev - count (settled a) ev.

(** A listening listener has an accept posted, or is inside the hook that posts one. *)
Definition listens (l : KlListener) : Prop := state l = KL_LISTENER_STATE_LISTENING -> 0 < inflight l \/ pumping l = true.

(** A closing listener waits for an accept, or for a frame that will look again. *)
Definition settles (l : KlListener) : Prop :=
  state l = KL_LISTENER_STATE_CLOSING -> 0 < inflight l \/ in_start l <> 0%nat \/ in_dispatch l <> 0%nat.

(** Inside the hook that posts, a guard is up. *)
Definition pumped (l : KlListener) : Prop := pumping l = true -> in_start l <> 0%nat \/ in_dispatch l <> 0%nat.

(** What a frame finds when a call it made returns. *)
Record frame (y y' : sys) : Prop := {
  f_script : (length (script y') <= length (script y))%nat;
  f_start : in_start (li y') = in_start (li y);
  f_dispatch : in_dispatch (li y') = in_dispatch (li y);
  f_pumping : pumping (li y') = pumping (li y);
  f_static : hooks (li y') = hooks (li y) /\ completion_mode (li y') = completion_mode (li y);
  f_window : state (li y) <> KL_LISTENER_STATE_IDLE -> window (li y') = window (li y) /\ state (li y') <> KL_LISTENER_STATE_IDLE;
  f_down : closing_down (li y) = true -> closing_down (li y') = true /\ inflight (li y') <= inflight (li y);
  f_posting : pumping (li y) = true -> inflight (li y') <= inflight (li y);
  f_owed : forall a, owed a (log y') = owed a (log y);
  f_guard : in_start (li y) <> 0%nat \/ in_dispatch (li y) <> 0%nat -> state (li y) <> KL_LISTENER_STATE_CLOSED -> state (li y') <> KL_LISTENER_STATE_CLOSED;
  f_kept : kept y' = kept y;
}.

Lemma frame_refl y : frame y y.
Proof. split; auto with lia. Qed.

Lemma frame_trans y1 y2 y3 : frame y1 y2 -> frame y2 y3 -> frame y1 y3.
Proof.
  intros [A1 A2 A3 A4 [A5 A5'] A6 A7 A8 A9 A10 A11] [B1 B2 B3 B4 [B5 B5'] B6 B7 B8 B9 B10 B11]. split; try congruence; try lia.
  - split; congruence.
  - intros Hs. destruct (A6 Hs) as [? H2]. destruct (B6 H2). split; congruence.
  - intros Hs. destruct (A7 Hs) as [H1 ?]. destruct (B7 H1). split; [done|lia].
  - intros Hs. specialize (A8 Hs). rewrite A4 in B8. specialize (B8 Hs). lia.
  - rewrite A2, A3 in B10. auto.
Qed.

(** What some calls guarantee besides. *)
Definition extra (c : call) (y y' : sys) : Prop :=
  match c with
  | CClose => closing_down (li y') = true
  | _ => True
  end.

Definition goes (y : sys) (o : option sys) : Prop :=
  exists y', o = Some y' /\ okay y' /\ frame y y' /\ (listens (li y) -> listens (li y')) /\ (settles (li y) -> settles (li y')).

Lemma okay_same y y' : okay y -> log y' = log y -> state (li y') = state (li y) -> window (li y') = window (li y) -> inflight (li y') = inflight (li y) ->
  detached (li y') = detached (li y) -> accept_cancel_requested (li y') = accept_cancel_requested (li y) -> hooks (li y') = hooks (li y) ->
  completion_mode (li y') = completion_mode (li y) -> kept y' = kept y -> okay y'.
Proof.
  intros [[S1 S2 S3 S4] [G1 G2 G3]] E1 E2 E3 E4 E5 E6 E7 E8 E9. split; split; unfold phase_in in *; rewrite ?E1, ?E2, ?E3, ?E4, ?E5, ?E6, ?E7, ?E8, ?E9; auto.
Qed.

Lemma frame_pumped y y' : frame y y' -> pumped (li y) -> pumped (li y').
Proof. intros Hf. unfold pumped. by rewrite (f_start _ _ Hf), (f_dispatch _ _ Hf), (f_pumping _ _ Hf). Qed.

Lemma idle_pumped l : pumping l = false -> pumped l.
Proof. intros Hp ?. congruence. Qed.

(** A completion while older accepts are kept is that of the accept being posted. *)
Definition callable (c : call) (y : sys) : Prop := is_completion c = true -> 0 < inflight (li y) -> kept y < inflight (li y).

Lemma hook_callable h c y : permitted h c y = true -> callable c y.
Proof.
  unfold permitted, callable, lax, documented. cbn [orb]. intros Hp Hc Hi. assert (Hle : (inflight (li y) <=? 0) = false) by (apply Z.leb_gt; lia).
  rewrite Hc, Hle in Hp. destruct h, c; try done; by apply Z.ltb_lt.
Qed.

Section proofs.
Context (N : nat) (run : call -> sys -> option sys).
Context (Hrun : forall c y, (length (script y) < N)%nat -> okay y -> pumped (li y) -> callable c y ->
  goes y (run c y) /\ forall y', run c y = Some y' -> extra c y y').

Lemma listener_run_calls_spec h cs y : okay y -> pumped (li y) -> (length (script y) < N)%nat -> goes y (run_calls run h cs y).
Proof.
  revert y. induction cs as [|c cs IH]; intros y Hy Hg HN; cbn [run_calls].
  { exists y. auto using frame_refl. }
  destruct (permitted h c y) eqn:Hp; [|rewrite bind_Some_l; by apply IH].
  destruct (Hrun c y HN Hy Hg (hook_callable h c y Hp)) as [(y1 & -> & Hy1 & Hf1 & HP1 & HQ1) _]. rewrite bind_Some_l.
  destruct (IH y1 Hy1) as (y2 & -> & Hy2 & Hf2 & HP2 & HQ2); [by eapply frame_pumped|destruct Hf1; lia|].
  exists y2. split_and!; auto. by eapply frame_trans.
Qed.

(** Reserving can only close the listener. *)
Lemma reserve_calls cs y y' : okay y -> pumped (li y) -> (length (script y) < N)%nat -> run_calls run Reserve cs y = Some y' ->
  closing_down (li y') = true \/ li y' = li y.
Proof.
  revert y. induction cs as [|c cs IH]; intros y Hy Hg HN; cbn [run_calls].
  { intros [= <-]. by right. }
  destruct (permitted Reserve c y) eqn:Hp; [|rewrite bind_Some_l; by apply IH]. destruct c; try done.
  destruct (Hrun CClose y HN Hy Hg) as [(y1 & E & Hy1 & Hf1 & _) Hx]; [done|]. rewrite E, bind_Some_l. specialize (Hx y1 E). cbn in Hx.
  intros E2. left. assert (HN1 : (length (script y1) < N)%nat) by (destruct Hf1; lia).
  destruct (listener_run_calls_spec Reserve cs y1 Hy1 (frame_pumped _ _ Hf1 Hg) HN1) as (y2 & E3 & _ & Hf2 & _). rewrite E2 in E3. injection E3 as <-. by apply (f_down _ _ Hf2).
Qed.

(** The posted accepts kept during a hook are at most those posted, and in readiness mode none. *)
Lemma okay_keeping h b y : okay y -> (h = Arm -> 0 < inflight (li y)) -> okay (set_kept (keeping h b y) y).
Proof.
  intros [[S1 S2 S3 [S4 S4']] G] Ha. split; [split; auto|done]. cbn. unfold keeping. destruct h; auto.
  specialize (Ha eq_refl). destruct (ret b <? 0); [|by auto]. split; [lia|]. intros Hc. destruct (S4' Hc) as [Hw _]. split; [done|]. lia.
Qed.

Lemma listener_hook_spec h y : okay (emit (Called h) y) -> pumped (li y) -> (h = Arm -> kept y < inflight (li y)) -> (length (script y) <= N)%nat ->
  exists r y', call_hook run h y = Some (r, y') /\ okay y' /\ frame (emit (Called h) y) y' /\ (listens (li y) -> listens (li y')) /\
    (settles (li y) -> settles (li y')) /\
    ((length (script y') < length (script y))%nat \/ r = answer h inert /\ li y' = li y) /\
    (h = Reserve -> r <= 1 /\ (closing_down (li y') = true \/ li y' = li y)) /\
    (h = Arm -> r < 0 -> inflight (li y) - 1 <= inflight (li y')).
Proof.
  intros Hy Hg Ha HN. unfold call_hook. cbn [script emit]. destruct (script y) as [|b rest] eqn:Es.
  { eexists _, _. split; [done|]. split_and!; auto using frame_refl; try done; [intros ->; split; [done|by right]|intros ->; cbn; lia]. }
  assert (Hk : 0 <= kept y) by (destruct Hy as [[_ _ _ [? _]] _]; cbn in *; lia).
  set (y1 := set_kept _ _). assert (Hy1 : okay y1).
  { apply (okay_keeping h b (set_script rest (emit (Called h) y))); [done|]. intros Hh. specialize (Ha Hh). cbn. lia. }
  assert (Hl : (length (script y1) < N)%nat) by (cbn in *; lia).
  destruct (listener_run_calls_spec h (calls b) y1 Hy1 Hg Hl) as (y2 & E & Hy2 & Hf2 & HP & HQ). rewrite E, bind_Some_l. eexists _, _. split; [done|].
  assert (Hkept : h = Arm -> ret b < 0 -> inflight (li y) - 1 <= inflight (li y2)).
  { intros -> Hr%Z.ltb_lt. pose proof (f_kept _ _ Hf2) as Ek. cbn in Ek. rewrite Hr in Ek. destruct Hy2 as [[_ _ _ [? _]] _]. lia. }
  split_and!; auto.
  - destruct Hy2 as [[S1 S2 S3 [S4 S4']] G]. split; [split; auto|done]. destruct Hy1 as [[_ _ _ [_ T4]] _]. destruct Hy as [[_ _ _ [_ U4]] _].
    pose proof (f_kept _ _ Hf2) as Ek. rewrite Ek in S4, S4'. cbn in *. split; [|intros Hc; split; [by apply S4'|]].
    + unfold keeping in S4. destruct h; cbn in S4; try lia. destruct (Z.ltb_spec (ret b) 0); [specialize (Ha eq_refl); specialize (Hkept eq_refl ltac:(lia))|]; lia.
    + apply U4. by rewrite (proj2 (f_static _ _ Hf2)) in Hc.
  - destruct Hf2 as [A1 A2 A3 A4 A5 A6 A7 A8 A9 A10 A11]. split; auto. cbn in *. rewrite Es. simpl. lia.
  - left. pose proof (f_script _ _ Hf2). cbn in *. lia.
  - intros ->. split; [cbn; lia|]. destruct (reserve_calls (calls b) y1 y2 Hy1 Hg Hl E); auto.
  - intros -> Hr. by apply Hkept.
Qed.

Lemma dispatched_spec h y : okay (emit (Called h) y) -> h <> Arm -> (length (script y) <= N)%nat ->
  exists r y', dispatched run h y = Some (r, y') /\ okay y' /\ frame (emit (Called h) y) y' /\ (listens (li y) -> listens (li y')) /\
    (state (li y) <> KL_LISTENER_STATE_CLOSED -> state (li y') <> KL_LISTENER_STATE_CLOSED) /\
    ((length (script y') < length (script y))%nat \/ r = answer h inert /\ li y' = li y) /\
    (h = Reserve -> r <= 1 /\ (closing_down (li y') = true \/ li y' = li y)).
Proof.
  intros Hy Ha HN. unfold dispatched. set (y1 := upd _ y).
  destruct (listener_hook_spec h y1) as (r & y2 & -> & Hy2 & Hf2 & HP & _ & Hl & Hres & _); auto.
  { by apply (okay_same (emit (Called h) y)). }
  { intros _. by right. }
  { done. }
  rewrite bind_Some_l. assert (Hid : forall l, set_in_dispatch (Nat.pred (S (in_dispatch l))) (set_in_dispatch (S (in_dispatch l)) l) = l) by by intros [].
  eexists r, _. split; [done|]. split_and!.
  - by apply (okay_same y2).
  - destruct Hf2 as [A1 A2 A3 A4 A5 A6 A7 A8 A9 A10 A11]. split; auto; cbn in *; auto. by rewrite A3.
  - auto.
  - destruct Hf2 as [A1 A2 A3 A4 A5 A6 A7 A8 A9 A10 A11]. cbn in *. by auto.
  - destruct Hl as [Hl|[-> Hl]]; [by left|right]. split; [done|]. cbn. rewrite Hl. apply Hid.
  - intros Hh. destruct (Hres Hh) as [H1 H2]. split; [done|]. destruct H2 as [H2|H2]; [by left|right]. cbn. rewrite H2. apply Hid.
Qed.

(** An event that concerns neither the phase, nor the books. *)
Lemma okay_emit e y : okay y -> phase_step (phase_in (li y)) e = Some (phase_in (li y)) -> is_granted e = false -> is_returned e = false ->
  is_handed e = false -> is_cancel e = false -> okay (emit e y).
Proof.
  intros [Hs [G1 G2 G3]] Hp E1 E2 E3 E4. split; [done|]. split; cbn [li log emit]; rewrite ?count_app, ?phase_app, ?E1, ?E2, ?E3, ?E4; [lia| |lia].
  rewrite G2. exact Hp.
Qed.

Lemma frame_emit e y : (forall a, arrived a e = settled a e) -> frame y (emit e y).
Proof. intros He. split; cbn [li emit script]; auto with lia. intros a. unfold owed. cbn [log emit]. rewrite !count_app, He. lia. Qed.

(** Giving a credit back: the books say so before the hook is called. *)
Lemma listener_release_spec y : (forall e, e = Returned \/ e = Called Release -> okay (emit e y)) -> state (li y) <> KL_LISTENER_STATE_CLOSED -> (length (script y) <= N)%nat ->
  exists y', l_release_credit run y = Some y' /\ okay y' /\ frame y y' /\ (listens (li y) -> listens (li y')) /\
    state (li y') <> KL_LISTENER_STATE_CLOSED /\ ((length (script y') < length (script y))%nat \/ li y' = li y).
Proof.
  intros Hy Hst HN. unfold l_release_credit. destruct (release (hooks (li y))).
  - destruct (dispatched_spec Release y) as (r & y2 & -> & Hy2 & Hf2 & HP & Hc & Hl & _); auto.
    rewrite bind_Some_l. exists y2. split; [done|]. split_and!; auto; [|by destruct Hl as [?|[_ ?]]; auto].
    eapply frame_trans; [|exact Hf2]. by apply frame_emit.
  - exists (emit Returned y). split_and!; auto. by apply frame_emit.
Qed.

(** *** Closing *)

(** A call that also leaves no close behind. *)
Definition closes (y : sys) (o : option sys) : Prop :=
  exists y', o = Some y' /\ okay y' /\ frame y y' /\ (listens (li y) -> listens (li y')) /\ settles (li y').

Lemma listener_finalize_spec y : okay y -> pumped (li y) -> (length (script y) <= N)%nat -> closes y (l_finalize run y).
Proof.
  intros Hy Hpg HN. unfold l_finalize. assert (Hstay : settles (li y) -> closes y (Some y)).
  { intros Hs. exists y. auto using frame_refl. }
  case_bool_decide as Hc; cbn [negb]; [|apply Hstay; by intros ?].
  destruct (negb (in_start (li y) =? 0)%nat || negb (in_dispatch (li y) =? 0)%nat) eqn:Hg.
  { apply Hstay. intros _. apply orb_true_iff in Hg as [Hg|Hg]; apply negb_true_iff, Nat.eqb_neq in Hg; auto. }
  apply orb_false_iff in Hg as [H1%negb_false_iff%Nat.eqb_eq H2%negb_false_iff%Nat.eqb_eq].
  destruct (Z.eqb_spec (inflight (li y)) 0) as [H3|H3]; cbn [negb].
  2: { apply Hstay. intros _. left. destruct Hy as [[[? _] _ _ _] _]. lia. }
  destruct (Hy) as [[S1 S2 S3 S4] [G1 G2 G3]]. rewrite S3, Hc. cbn -[call_hook].
  set (y1 := upd set_detached y).
  assert (Hf1 : frame y y1).
  { split; cbn; auto with lia; try done. }
  assert (Hs1 : sane (kept y1) (li y1)) by by split.
  unfold phase_in in G2. rewrite Hc in G2. destruct (on_close (hooks (li y))) eqn:Ho.
  - destruct (listener_hook_spec OnClose y1) as (r & y2 & E & Hy2 & Hf2 & HP & HQ & _); auto.
    { split; [done|]. split; cbn [li log emit y1 upd put]; rewrite ?count_app, ?phase_app; simpl; [lia| |lia].
      rewrite G2. unfold phase_in. cbn. by rewrite Ho. }
    { done. }
    rewrite E, bind_Some_l. exists y2. split; [done|]. split_and!; auto; [|intros _; apply HP; by intros ?|apply HQ; by intros ?].
    eapply frame_trans; [exact Hf1|]. eapply frame_trans; [|exact Hf2]. by apply frame_emit.
  - exists y1. split; [done|]. split_and!; auto; try done. split; [done|]. split; cbn; [done| |done]. unfold phase_in. cbn. by rewrite Ho.
Qed.

Lemma closes_from y y1 o : frame y y1 -> (listens (li y) -> listens (li y1)) -> closes y1 o -> closes y o.
Proof. intros Hf HP (y' & -> & Hy' & Hf' & HP' & HQ'). exists y'. split_and!; auto. by eapply frame_trans. Qed.

Lemma listener_dispose_spec a y : okay y -> pumped (li y) -> (length (script y) <= N)%nat -> closes (emit (Called (Dispose a)) y) (l_dispose run a y).
Proof.
  intros Hy Hpg HN. unfold l_dispose. destruct (dispatched_spec (Dispose a) y) as (r & y1 & -> & Hy1 & Hf1 & HP & _); auto.
  { apply okay_emit; try done. unfold phase_in. by destruct (state (li y)), (on_close (hooks (li y))). }
  rewrite bind_Some_l. apply (closes_from _ y1); auto. apply listener_finalize_spec; [done|by apply (frame_pumped _ _ Hf1)|]. destruct Hf1. cbn in *. lia.
Qed.

Lemma return_credits_spec fuel y : okay y -> completion_mode (li y) = false -> closing_down (li y) = true -> (length (script y) <= N)%nat -> (Z.to_nat (inflight (li y)) <= fuel)%nat ->
  exists y', return_credits run fuel y = Some y' /\ okay y' /\ frame y y' /\ closing_down (li y') = true.
Proof.
  revert y. induction fuel as [|fuel IH]; intros y Hy Hm Hd HN Hf; cbn [return_credits].
  all: destruct (Z.leb_spec (inflight (li y)) 0) as [H0|H0]; [exists y; by auto using frame_refl|].
  { lia. }
  destruct (Hy) as [[[S1 S1'] S2 S3 S4] [G1 G2 G3]].
  assert (Hst : state (li y) = KL_LISTENER_STATE_CLOSING).
  { unfold closing_down in Hd. apply orb_true_iff in Hd as [Hd%bool_decide_eq_true|Hd%bool_decide_eq_true]; [done|]. rewrite S2 in H0; [lia|auto]. }
  set (y1 := upd _ y). destruct (listener_release_spec y1) as (y2 & -> & Hy2 & Hf2 & _); auto.
  { intros e He. split; split; cbn [li log emit y1 upd put set_inflight inflight window state detached accept_cancel_requested]; rewrite ?count_app, ?phase_app.
    all: destruct He as [->| ->]; simpl; auto; try lia; try (rewrite Hst; by intros [?|[?|?]]); try (by destruct (proj2 S4 Hm) as [? ->]; split; [lia|]).
    all: rewrite G2; unfold phase_in; cbn; by rewrite Hst. }
  { cbn. by rewrite Hst. }
  rewrite bind_Some_l. assert (Hf1 : frame y y1).
  { split; cbn; auto with lia. }
  destruct (f_down _ _ Hf2 Hd) as [Hd2 Hi2]. destruct (IH y2) as (y3 & -> & Hy3 & Hf3 & Hd3); auto.
  { by rewrite (proj2 (f_static _ _ Hf2)). }
  { destruct Hf2. cbn in *. lia. }
  { cbn in Hi2. lia. }
  exists y3. split_and!; auto. eapply frame_trans; [exact Hf1|]. by eapply frame_trans.
Qed.

(** Dropping the interest, where there is a hook for it. *)
Lemma listener_disarm_spec y : okay y -> pumped (li y) -> state (li y) <> KL_LISTENER_STATE_CLOSED -> (length (script y) <= N)%nat ->
  exists y', disarm run y = Some y' /\ okay y' /\ frame y y' /\ (listens (li y) -> listens (li y')) /\ ((length (script y') < length (script y))%nat \/ li y' = li y).
Proof.
  intros Hy Hpg Hst HN. unfold disarm. destruct (disarm_accept (hooks (li y))); [|exists y; by auto 6 using frame_refl].
  destruct (listener_hook_spec Disarm y) as (r & y1 & -> & Hy1 & Hf1 & HP & _ & Hl & _); auto.
  { apply okay_emit; try done. unfold phase_in. by destruct (state (li y)). }
  { done. }
  rewrite bind_Some_l. exists y1. split_and!; auto; [|by destruct Hl as [?|[_ ?]]; auto]. eapply frame_trans; [|exact Hf1]. by apply frame_emit.
Qed.

Lemma down_state l : closing_down l = true <-> state l = KL_LISTENER_STATE_CLOSING \/ state l = KL_LISTENER_STATE_CLOSED.
Proof. unfold closing_down. rewrite orb_true_iff, !bool_decide_eq_true. done. Qed.

Lemma down_listens l : closing_down l = true -> listens l.
Proof. intros Hd Hl. apply down_state in Hd. destruct Hd; congruence. Qed.

Lemma retire_posted_spec y : okay y -> pumped (li y) -> state (li y) = KL_LISTENER_STATE_CLOSING -> (length (script y) <= N)%nat ->
  exists y', retire_posted run y = Some y' /\ okay y' /\ frame y y' /\ closing_down (li y') = true.
Proof.
  intros Hy Hpg Hst HN. assert (Hd : closing_down (li y) = true) by (apply down_state; auto). unfold retire_posted.
  destruct (0 <? inflight (li y)); [|exists y; by auto using frame_refl].
  destruct (completion_mode (li y)) eqn:Hmode; cbn [negb].
  - destruct (cancel_accept (hooks (li y)) && negb (accept_cancel_requested (li y))) eqn:Hx; [|exists y; by auto using frame_refl].
    apply andb_true_iff in Hx as [_ Hx%negb_true_iff]. set (y1 := upd set_cancelled y).
    destruct (dispatched_spec CancelAccept y1) as (r & y2 & -> & Hy2 & Hf2 & _); auto.
    { destruct Hy as [[S1 S2 S3 S4] [G1 G2 G3]]. split; [by split|].
      split; cbn [li log emit y1 upd put set_cancelled inflight accept_cancel_requested]; rewrite ?count_app, ?phase_app, ?G1, ?G3, ?Hx; simpl; [lia| |lia].
      rewrite G2. unfold phase_in. cbn. by rewrite Hst. }
    rewrite bind_Some_l. exists y2. split; [done|]. split_and!; auto; [|by apply (f_down _ _ Hf2)].
    destruct Hf2 as [A1 A2 A3 A4 A5 A6 A7 A8 A9 A10 A11]. split; auto. intros a. rewrite A9. unfold owed. cbn [log emit]. rewrite !count_app. cbn. lia.
  - destruct (listener_disarm_spec y) as (y1 & -> & Hy1 & Hf1 & _); auto; [congruence|]. rewrite bind_Some_l.
    destruct (f_down _ _ Hf1 Hd) as [Hd1 _].
    destruct (return_credits_spec (Z.to_nat (inflight (li y1))) y1) as (y2 & E & Hy2 & Hf2 & Hd2); auto; [by rewrite (proj2 (f_static _ _ Hf1))|destruct Hf1; lia|].
    exists y2. split_and!; auto. by eapply frame_trans.
Qed.

Lemma begin_close_spec y : okay y -> pumped (li y) -> (length (script y) <= N)%nat ->
  exists y', l_begin_close run y = Some y' /\ okay y' /\ frame y y' /\ closing_down (li y') = true /\ settles (li y').
Proof.
  intros Hy Hpg HN. unfold l_begin_close. case_bool_decide as Hc.
  { exists y. split; [done|]. split_and!; auto using frame_refl; [apply down_state; auto|]. intros ?. congruence. }
  assert (exists y1, (if negb (bool_decide (state (li y) = KL_LISTENER_STATE_CLOSING)) then
      retire_posted run (upd (set_state KL_LISTENER_STATE_CLOSING) (emit Closing y)) else Some y) = Some y1 /\ okay y1 /\ frame y y1 /\
      closing_down (li y1) = true) as (y1 & -> & Hy1 & Hf1 & Hd1).
  { case_bool_decide as Hk; cbn [negb]; [exists y; split_and!; auto using frame_refl; apply down_state; auto|].
    set (y0 := upd (set_state KL_LISTENER_STATE_CLOSING) (emit Closing y)). destruct (Hy) as [[S1 S2 S3 S4] [G1 G2 G3]].
    destruct (retire_posted_spec y0) as (y1 & -> & Hy1 & Hf1 & Hd1); auto.
    - split; [split; cbn; auto; [intros [?|[?|?]]; done|by rewrite S3, bool_decide_false]|].
      split; cbn [li log emit y0 upd put set_state inflight accept_cancel_requested]; rewrite ?count_app, ?phase_app; simpl; [lia| |lia].
      rewrite G2. unfold phase_in. by destruct (state (li y)).
    - exists y1. split_and!; auto. eapply frame_trans; [|exact Hf1]. split; cbn [li y0 upd put emit script log]; auto with lia; try done.
      intros a. unfold owed. rewrite !count_app. cbn. lia. }
  rewrite bind_Some_l. destruct (listener_finalize_spec y1) as (y2 & E & Hy2 & Hf2 & _ & HQ); auto; [by eapply frame_pumped|destruct Hf1; lia|].
  exists y2. split_and!; auto; [by eapply frame_trans|]. by apply (f_down _ _ Hf2).
Qed.

(** *** Posting accepts *)

Lemma listener_pause_spec y : okay y -> pumped (li y) -> state (li y) = KL_LISTENER_STATE_LISTENING -> inflight (li y) = 0 -> (length (script y) <= N)%nat ->
  exists y', pause run y = Some y' /\ okay y' /\ frame y y' /\ listens (li y') /\
    ((length (script y') < length (script y))%nat \/ li y' = set_state KL_LISTENER_STATE_PAUSED (li y)).
Proof.
  intros Hy Hpg Hst Hi HN. unfold pause. set (y1 := upd (set_state KL_LISTENER_STATE_PAUSED) y). destruct (Hy) as [[S1 S2 S3 S4] [G1 G2 G3]].
  assert (Hy1 : okay y1).
  { split; [split; cbn; auto; by rewrite S3, Hst|]. split; auto. cbn [li log y1 upd put]. rewrite G2. unfold phase_in. cbn. by rewrite Hst. }
  assert (Hf1 : frame y y1).
  { split; cbn; auto with lia; try done. intros Hd. apply down_state in Hd. rewrite Hst in Hd. by destruct Hd. }
  destruct (completion_mode (li y1)); cbn [negb].
  - exists y1. split_and!; auto. by intros ?.
  - destruct (listener_disarm_spec y1) as (y2 & -> & Hy2 & Hf2 & HP & Hl); auto; try done. exists y2. split_and!; auto; [by eapply frame_trans|]. apply HP. by intros ?.
Qed.

Lemma post_failed_spec before rc y : okay y -> inflight (li y) = before + 1 -> 0 <= before -> kept y <= before -> pumping (li y) = false -> (length (script y) <= N)%nat ->
  exists y', post_failed run before rc y = Some y' /\ okay y' /\ frame y y' /\ listens (li y').
Proof.
  intros Hy Hi Hb Hk Hp HN. destruct (Hy) as [[[S1 S1'] S2 S3 S4] [G1 G2 G3]]. unfold post_failed. set (y1 := upd _ y).
  assert (Hlive : ~ (state (li y) = KL_LISTENER_STATE_IDLE \/ state (li y) = KL_LISTENER_STATE_PAUSED \/ state (li y) = KL_LISTENER_STATE_CLOSED)).
  { intros Hx. specialize (S2 Hx). lia. }
  destruct (listener_release_spec y1) as (y2 & -> & Hy2 & Hf2 & _ & Hc2 & _); auto.
  { intros e He. split; [split; cbn; auto; try lia; [by intros ?|by split; [lia|apply S4]]|].
    split; cbn [li log emit y1 upd put set_pumping set_inflight inflight accept_cancel_requested]; rewrite ?count_app, ?phase_app.
    all: destruct He as [->| ->]; simpl; try lia. all: rewrite G2; unfold phase_in; cbn; destruct (state (li y)) eqn:E; try done; exfalso; auto. }
  rewrite bind_Some_l. set (y3 := upd _ y2). assert (Hy3 : okay y3) by by apply (okay_same y2).
  assert (Hf3 : frame y y3).
  { destruct Hf2 as [A1 A2 A3 A4 A5 A6 A7 A8 A9 A10 A11]. split; cbn in *; auto; try congruence. intros Hd. destruct (A7 Hd). split; [done|lia]. }
  destruct (rc =? KL_LISTENER_ARM_RETRY).
  - destruct ((inflight (li y3) =? 0) && bool_decide (state (li y3) = KL_LISTENER_STATE_LISTENING)) eqn:Hx.
    + apply andb_true_iff in Hx as [H1%Z.eqb_eq H2%bool_decide_eq_true].
      destruct (listener_pause_spec y3) as (y4 & -> & Hy4 & Hf4 & HP & _); auto; [by apply idle_pumped|destruct Hf3; lia|]. exists y4. split_and!; auto. by eapply frame_trans.
    + exists y3. split_and!; auto. intros Hl. left. destruct Hy3 as [[[? _] _ _ _] _]. apply andb_false_iff in Hx as [H1%Z.eqb_neq|H1%bool_decide_eq_false]; [lia|done].
  - destruct (begin_close_spec y3) as (y4 & -> & Hy4 & Hf4 & Hd4 & _); auto; [by apply idle_pumped|destruct Hf3; lia|]. exists y4. split_and!; auto; [by eapply frame_trans|by apply down_listens].
Qed.

(** The result of reserving, before the credit is booked. *)
Lemma reserve_spec y : okay y -> state (li y) = KL_LISTENER_STATE_LISTENING -> (length (script y) <= N)%nat ->
  exists r y0, l_reserve run y = Some (r, if r =? 1 then emit Granted y0 else y0) /\ okay y0 /\ frame y y0 /\ r <= 1 /\
    state (li y0) <> KL_LISTENER_STATE_CLOSED /\ (closing_down (li y0) = true \/ li y0 = li y) /\
    ((length (script y0) < length (script y))%nat \/ li y0 = li y /\ 0 <= r).
Proof.
  intros Hy Hst HN. unfold l_reserve. destruct (reserve (hooks (li y))); cbn [negb].
  - destruct (dispatched_spec Reserve y) as (r & y0 & -> & Hy0 & Hf0 & _ & Hc0 & Hl0 & Hr0); auto.
    { apply okay_emit; try done. unfold phase_in. by rewrite Hst. }
    rewrite bind_Some_l. destruct (Hr0 eq_refl) as [Hle Hsame]. exists r, y0. split_and!; auto.
    + eapply frame_trans; [|exact Hf0]. by apply frame_emit.
    + apply Hc0. congruence.
    + destruct Hl0 as [?|[-> ?]]; [by left|right]. split; [done|]. cbn. lia.
  - rewrite bind_Some_l. exists 1, y. split_and!; auto using frame_refl; [lia|congruence|]. right. split; [done|lia].
Qed.

Definition pend (y : sys) : nat := if pump_pending (li y) then 1%nat else 0%nat.

(** A round used a script entry, or it filled the window or gave up without touching the flag. *)
Definition advanced (more : bool) (y y' : sys) : Prop :=
  (length (script y') < length (script y))%nat \/
  length (script y') = length (script y) /\ pend y' = pend y /\ inflight (li y') = inflight (li y) + (if more then 1 else 0).

Lemma okay_bounced y e : okay y -> state (li y) <> KL_LISTENER_STATE_CLOSED -> e = Returned \/ e = Called Release -> okay (emit e (emit Granted y)).
Proof.
  intros [Hs [G1 G2 G3]] Hst He. split; [done|]. split; cbn [li log emit]; rewrite ?count_app, ?phase_app.
  all: destruct He as [->| ->]; cbn [is_granted is_returned is_handed is_cancel]; try lia. all: rewrite G2; unfold phase_in; cbn; by destruct (state (li y)).
Qed.

Lemma advanced_quiet y y0 y1 : li y0 = li y -> (length (script y0) <= length (script y))%nat -> (length (script y1) <= length (script y0))%nat ->
  (length (script y1) < length (script y0))%nat \/ pump_pending (li y1) = pump_pending (li y0) /\ inflight (li y1) = inflight (li y0) -> advanced false y y1.
Proof.
  intros E H0 H1 H. unfold advanced, pend. rewrite <- E. destruct (decide (length (script y1) < length (script y))%nat); [by left|right].
  destruct H as [?|[-> ->]]; [lia|]. split_and!; auto; lia.
Qed.

(** Posting one accept with the credit that was granted. *)
Lemma listener_arm_spec y y0 : okay y0 -> frame y y0 -> li y0 = li y -> state (li y0) = KL_LISTENER_STATE_LISTENING -> inflight (li y) < window (li y) ->
  pumping (li y0) = false -> (length (script y0) <= N)%nat ->
  exists more y', (let y := emit Granted y0 in
      let before := inflight (li y) in
      '(rc, y) ← call_hook run Arm (upd (fun l => set_in_start (S (in_start l)) (set_pumping true (set_inflight (before + 1) l))) y);
      let y := upd (fun l => set_pumping false (set_in_start (Nat.pred (in_start l)) l)) y in
      if inflight (li y) =? before then Some (true, y)
      else if rc <? 0 then y ← post_failed run before rc y; Some (false, y)
      else Some (true, y)) = Some (more, y') /\ okay y' /\ frame y y' /\ (more = false -> listens (li y')) /\ advanced more y y'.
Proof.
  intros Hy0 Hf0 E0 Hst Hw Hp HN. cbv zeta. cbn [li emit]. set (y2 := upd _ (emit Granted y0)). destruct (Hy0) as [[[S1 S1'] S2 S3 S4] [G1 G2 G3]].
  destruct (listener_hook_spec Arm y2) as (rc & y3 & -> & Hy3 & Hf3 & _ & _ & Hl3 & _ & Hfail); auto.
  { split; [split; cbn; rewrite ?E0 in *; auto; try lia; [intros [?|[?|?]]; congruence|by split; [lia|apply S4]]|].
    split; cbn [li log emit y2 upd put set_in_start set_pumping set_inflight inflight accept_cancel_requested]; rewrite ?count_app, ?phase_app;
      cbn [is_granted is_returned is_handed is_cancel]; [lia| |lia]. rewrite G2. unfold phase_in. cbn. by rewrite Hst. }
  { intros _. by left. }
  { intros _. cbn. lia. }
  rewrite bind_Some_l. set (y4 := upd _ y3). assert (Hy4 : okay y4) by by apply (okay_same y3).
  assert (Hf4 : frame y0 y4).
  { destruct Hf3 as [A1 A2 A3 A4 A5 A6 A7 A8 A9 A10 A11]. split; cbn [li log script emit y4 y2 upd put set_in_start set_pumping in_start in_dispatch pumping hooks completion_mode state inflight window] in *; auto.
    - by rewrite A2.
    - intros Hd. apply down_state in Hd. destruct Hd; congruence.
    - congruence.
    - intros a. rewrite A9. unfold owed. rewrite !count_app. cbn. lia. }
  assert (HN4 : (length (script y4) <= N)%nat) by (destruct Hf4; lia).
  assert (Hle : (length (script y4) <= length (script y))%nat) by (destruct Hf0, Hf4; lia).
  assert (Hdec : (length (script y4) < length (script y))%nat \/ 0 <= rc /\ li y3 = li y2).
  { destruct Hl3 as [Hl|[-> ?]]; [left|by right]. destruct Hf0. cbn in *. lia. }
  destruct (Z.eqb_spec (inflight (li y4)) (inflight (li y0))) as [Hi|Hi].
  { exists true, y4. split_and!; auto; [by eapply frame_trans|done|]. destruct Hdec as [?|[_ E3]]; [by left|]. cbn in Hi. rewrite E3 in Hi. cbn in Hi. lia. }
  destruct (Z.ltb_spec rc 0) as [Hrc|Hrc].
  - assert (inflight (li y4) = inflight (li y0) + 1).
    { pose proof (Hfail eq_refl Hrc). pose proof (f_posting _ _ Hf3 eq_refl). cbn in *. lia. }
    pose proof (f_kept _ _ Hf4). destruct (post_failed_spec (inflight (li y0)) rc y4) as (y5 & -> & Hy5 & Hf5 & HP5); auto; try lia. rewrite bind_Some_l.
    exists false, y5. split_and!; auto; [eapply frame_trans; [exact Hf0|]; by eapply frame_trans|]. left. destruct Hdec as [?|[? _]]; [|lia]. destruct Hf5. lia.
  - exists true, y4. split_and!; auto; [by eapply frame_trans|done|]. destruct Hdec as [?|[_ E3]]; [by left|]. 
    destruct (decide (length (script y4) < length (script y))%nat); [by left|right]. split; [lia|]. unfold pend. cbn. rewrite E3. cbn. rewrite E0. split; [done|lia].
Qed.

Lemma post_one_spec y : okay y -> state (li y) = KL_LISTENER_STATE_LISTENING -> inflight (li y) < window (li y) -> pumping (li y) = false ->
  (length (script y) <= N)%nat ->
  exists more y', post_one run y = Some (more, y') /\ okay y' /\ frame y y' /\ (more = false -> listens (li y')) /\ advanced more y y'.
Proof.
  intros Hy Hst Hw Hp HN. unfold post_one. destruct (reserve_spec y Hy Hst HN) as (r & y0 & -> & Hy0 & Hf0 & Hr & Hc0 & Hsame & Hl0). rewrite bind_Some_l.
  assert (HN0 : (length (script y0) <= N)%nat) by (destruct Hf0; lia).
  assert (Hp0 : pumping (li y0) = false) by (by rewrite (f_pumping _ _ Hf0)).
  destruct (Z.ltb_spec r 0) as [Hneg|Hneg].
  { destruct (Z.eqb_spec r 1); [lia|]. destruct (begin_close_spec (upd (set_error (-1)) y0)) as (y1 & -> & Hy1 & Hf1 & Hd1 & _); auto.
    { by apply (okay_same y0). }
    { by apply idle_pumped. }
    rewrite bind_Some_l. exists false, y1. assert (Hf : frame y0 y1) by by destruct Hf1. split_and!; auto; [by eapply frame_trans|by intros _; apply down_listens|].
    left. destruct Hl0 as [?|[_ ?]]; [|lia]. destruct Hf. lia. }
  destruct (decide (state (li y0) = KL_LISTENER_STATE_LISTENING)) as [Hst0|Hst0].
  2: { assert (Hlt : (length (script y0) < length (script y))%nat) by (destruct Hl0 as [?|[E ?]]; [done|congruence]).
    destruct (Z.eqb_spec r 1) as [->|Hr1]; cbn [li emit]; rewrite bool_decide_false by done; cbn [negb].
    - destruct (listener_release_spec (emit Granted y0)) as (y1 & -> & Hy1 & Hf1 & _); auto; [intros e He; by apply okay_bounced|]. rewrite bind_Some_l.
      assert (Hf : frame y0 y1) by (eapply frame_trans; [|exact Hf1]; by apply frame_emit). exists false, y1.
      split_and!; auto; [by eapply frame_trans| |by left; destruct Hf; lia]. intros _. apply down_listens. apply (f_down _ _ Hf). destruct Hsame as [?|E]; [done|congruence].
    - rewrite bind_Some_l. exists false, y0. split_and!; auto; [|by left]. by intros _ ?. }
  assert (E0 : li y0 = li y). { destruct Hsame as [Hd|?]; [|done]. apply down_state in Hd. destruct Hd; congruence. }
  destruct (Z.eqb_spec r 1) as [->|Hr1]; cbn [li emit]; rewrite bool_decide_true by done; cbn [negb].
  2: { assert (r = 0) as -> by lia. cbn. destruct (Z.eqb_spec (inflight (li y0)) 0) as [Hi0|Hi0].
    - destruct (listener_pause_spec y0) as (y1 & -> & Hy1 & Hf1 & HP1 & Hl1); auto; [by apply idle_pumped|]. rewrite bind_Some_l. exists false, y1. split_and!; auto; [by eapply frame_trans|].
      apply (advanced_quiet y y0 y1); auto; [by destruct Hf0|by destruct Hf1|]. destruct Hl1 as [?|E1]; [by left|right]. by rewrite E1.
    - rewrite bind_Some_l. exists false, y0. split_and!; auto.
      + intros _ _. left. destruct Hy0 as [[[? _] _ _ _] _]. lia.
      + apply (advanced_quiet y y0 y0); auto; by destruct Hf0. }
  by apply (listener_arm_spec y y0).
Qed.

Definition measure (y : sys) : nat :=
  (length (script y) * (Z.to_nat (window (li y)) + 3) + (Z.to_nat (window (li y)) - Z.to_nat (inflight (li y))) + pend y)%nat.

Lemma advanced_measure more y y' : okay y -> okay y' -> window (li y') = window (li y) -> advanced more y y' ->
  (measure y' + (if more then 1 else 0) <= measure y)%nat.
Proof.
  intros [[[A1 A2] _ _ _] _] [[[B1 B2] _ _ _] _] Ew H. unfold measure. rewrite Ew in *. assert (pend y' <= 1)%nat by (unfold pend; by destruct (pump_pending (li y')); lia).
  destruct H as [H|(E1 & E2 & E3)].
  - assert (length (script y') * (Z.to_nat (window (li y)) + 3) + (Z.to_nat (window (li y)) + 3) <= length (script y) * (Z.to_nat (window (li y)) + 3))%nat by nia.
    destruct more; lia.
  - rewrite E1, E2, E3 in *. destruct more; lia.
Qed.

Lemma listener_pump_loop_spec fuel y : okay y -> pumping (li y) = false -> state (li y) <> KL_LISTENER_STATE_IDLE -> (length (script y) <= N)%nat -> (measure y < fuel)%nat ->
  exists y', l_pump_loop run fuel y = Some y' /\ okay y' /\ frame y y' /\ listens (li y').
Proof.
  revert y. induction fuel as [|fuel IH]; intros y Hy Hp Hst HN Hf; [lia|]. cbn [l_pump_loop].
  assert (exists more y1, (if bool_decide (state (li y) = KL_LISTENER_STATE_LISTENING) && (inflight (li y) <? window (li y)) then post_one run y else Some (false, y)) = Some (more, y1) /\
    okay y1 /\ frame y y1 /\ (more = false -> listens (li y1)) /\ advanced more y y1) as (more & y1 & -> & Hy1 & Hf1 & HP1 & Ha1).
  { destruct (_ && _) eqn:Hx.
    - apply andb_true_iff in Hx as [H1%bool_decide_eq_true H2%Z.ltb_lt]. by apply post_one_spec.
    - exists false, y. split_and!; auto using frame_refl.
      + intros _ Hl. left. destruct Hy as [[[? ?] _ _ _] _]. apply andb_false_iff in Hx as [Hx%bool_decide_eq_false|Hx%Z.ltb_ge]; [done|lia].
      + right. split_and!; auto. lia. }
  rewrite bind_Some_l. destruct (f_window _ _ Hf1 Hst) as [Ew Hst1]. pose proof (advanced_measure _ _ _ Hy Hy1 Ew Ha1) as Hm.
  assert (Hp1 : pumping (li y1) = false) by by rewrite (f_pumping _ _ Hf1).
  destruct more.
  - destruct (IH y1) as (y2 & -> & Hy2 & Hf2 & HP2); auto; [by destruct Hf1; lia|lia|]. exists y2. split_and!; auto. by eapply frame_trans.
  - destruct (pump_pending (li y1)) eqn:Hpend; [|exists y1; by auto]. set (y2 := upd (set_pending false) y1).
    assert (Hf2 : frame y1 y2) by (split; cbn; auto with lia).
    destruct (IH y2) as (y3 & -> & Hy3 & Hf3 & HP3); auto.
    + by apply (okay_same y1).
    + by destruct Hf1; cbn; lia.
    + unfold measure, pend in *. cbn in *. rewrite Hpend in Hm. lia.
    + exists y3. split_and!; auto. eapply frame_trans; [exact Hf1|]. by eapply frame_trans.
Qed.

Lemma pump_spec y : okay y -> pumped (li y) -> state (li y) <> KL_LISTENER_STATE_IDLE -> (length (script y) <= N)%nat ->
  exists y', l_pump run y = Some y' /\ okay y' /\ frame y y' /\ listens (li y') /\ settles (li y').
Proof.
  intros Hy Hpg Hst HN. unfold l_pump. destruct (pumping (li y)) eqn:Hp.
  - eexists. split; [done|]. split_and!; auto.
    + by apply (okay_same y).
    + split; cbn; auto with lia.
    + intros _. by right.
    + intros _. right. by apply Hpg.
  - set (y1 := upd (set_pending false) y). assert (Hy1 : okay y1) by by apply (okay_same y). assert (Hf1 : frame y y1) by (split; cbn; auto with lia).
    destruct (listener_pump_loop_spec (pump_fuel y) y1) as (y2 & -> & Hy2 & Hf2 & HP2); auto.
    { unfold measure, pump_fuel, pend. cbn. lia. }
    rewrite bind_Some_l. assert (Hf : frame y y2) by by eapply frame_trans.
    destruct (listener_finalize_spec y2) as (y3 & -> & Hy3 & Hf3 & HP3 & HQ3); auto; [by apply (frame_pumped _ _ Hf)|by destruct Hf; lia|]. exists y3. split_and!; auto. by eapply frame_trans.
Qed.

(** *** Entry points *)

Lemma goes_stay y : okay y -> goes y (Some y).
Proof. intros Hy. exists y. auto using frame_refl. Qed.

Lemma goes_closes y o : closes y o -> goes y o.
Proof. intros (y' & -> & H1 & H2 & H3 & H4). exists y'. auto. Qed.

Lemma pump_goes y y1 : frame y y1 -> okay y1 -> pumped (li y) -> state (li y1) <> KL_LISTENER_STATE_IDLE -> (length (script y) <= N)%nat -> goes y (l_pump run y1).
Proof.
  intros Hf Hy1 Hpg Hst HN. destruct (pump_spec y1) as (y2 & -> & Hy2 & Hf2 & HP2 & HQ2); auto; [by eapply frame_pumped|by destruct Hf; lia|].
  exists y2. split_and!; auto. by eapply frame_trans.
Qed.

(** A connection that arrived is settled by the hook. *)
Lemma frame_pair a h y y1 : frame (emit (Arrived a) y) y1 -> h = Dispose a \/ h = OnAccept a -> frame y (emit (Called h) y1).
Proof.
  intros [A1 A2 A3 A4 A5 A6 A7 A8 A9 A10 A11] Hh. split; cbn [li script log emit] in *; auto.
  intros b. specialize (A9 b). unfold owed in *. rewrite !count_app in *. destruct Hh as [->| ->]; cbn [arrived settled] in *; lia.
Qed.

(** A posted accept is retired. *)
Lemma frame_retired y y1 : li y1 = set_inflight (inflight (li y) - 1) (li y) \/ (exists e, li y1 = set_error e (set_inflight (inflight (li y) - 1) (li y))) ->
  script y1 = script y -> log y1 = log y -> kept y1 = kept y -> frame y y1.
Proof. intros [E|[e E]] E2 E3 E4; split; rewrite ?E, ?E2, ?E3; cbn; auto with lia. Qed.

Lemma listener_live_state y : okay y -> 0 < inflight (li y) -> state (li y) = KL_LISTENER_STATE_LISTENING \/ state (li y) = KL_LISTENER_STATE_CLOSING.
Proof. intros [[_ S2 _ _] _] Hi. destruct (state (li y)); auto; rewrite S2 in Hi; auto; lia. Qed.

Lemma okay_retired e y y1 : e = Returned \/ e = Called Release -> okay y -> 0 < inflight (li y) -> log y1 = log y ++ [e] -> state (li y1) = state (li y) -> window (li y1) = window (li y) ->
  inflight (li y1) = inflight (li y) - 1 -> detached (li y1) = detached (li y) -> accept_cancel_requested (li y1) = accept_cancel_requested (li y) ->
  hooks (li y1) = hooks (li y) -> completion_mode (li y1) = completion_mode (li y) -> kept y1 = kept y -> kept y < inflight (li y) -> okay y1.
Proof.
  intros He Hy Hi E1 E2 E3 E4 E5 E6 E7 E8 E9 Hk. pose proof (listener_live_state y Hy Hi) as Hl. destruct Hy as [[[S1 S1'] S2 S3 S4] [G1 G2 G3]].
  split; split; unfold phase_in in *; rewrite ?E1, ?E2, ?E3, ?E4, ?E5, ?E6, ?E7, ?E8, ?E9, ?count_app, ?phase_app; auto; try lia.
  - intros Hx. destruct Hl as [Hl|Hl]; rewrite Hl in Hx; by destruct Hx as [?|[?|?]].
  - split; [lia|apply S4].
  - destruct He as [->| ->]; cbn; lia.
  - rewrite G2. by destruct Hl as [->| ->], He as [->| ->].
  - destruct He as [->| ->]; cbn; lia.
Qed.

Lemma okay_handed a y y1 : okay y -> 0 < inflight (li y) -> state (li y) = KL_LISTENER_STATE_LISTENING -> log y1 = log y ++ [Called (OnAccept a)] ->
  state (li y1) = state (li y) -> window (li y1) = window (li y) ->
  inflight (li y1) = inflight (li y) - 1 -> detached (li y1) = detached (li y) -> accept_cancel_requested (li y1) = accept_cancel_requested (li y) ->
  hooks (li y1) = hooks (li y) -> completion_mode (li y1) = completion_mode (li y) -> kept y1 = kept y -> kept y < inflight (li y) -> okay y1.
Proof.
  intros Hy Hi Hst E1 E2 E3 E4 E5 E6 E7 E8 E9 Hk. destruct Hy as [[[S1 S1'] S2 S3 S4] [G1 G2 G3]].
  split; split; unfold phase_in in *; rewrite ?E1, ?E2, ?E3, ?E4, ?E5, ?E6, ?E7, ?E8, ?E9, ?count_app, ?phase_app; cbn [is_granted is_returned is_handed is_cancel]; auto; try lia.
  - rewrite Hst. by intros [?|[?|?]].
  - split; [lia|apply S4].
  - rewrite G2, Hst. done.
Qed.

Lemma listener_failed_spec e y : okay y -> pumped (li y) -> (0 < inflight (li y) -> kept y < inflight (li y)) -> (length (script y) <= N)%nat -> goes y (kl_listener_on_accept_failed run e y).
Proof.
  intros Hy Hpg Hk HN. unfold kl_listener_on_accept_failed. destruct (Z.leb_spec (inflight (li y)) 0) as [Hi|Hi]; [by apply goes_stay|].
  set (y1 := upd _ y). assert (Hf1 : frame y y1) by (apply frame_retired; [right; by exists e|done..]).
  assert (Hst : state (li y) <> KL_LISTENER_STATE_CLOSED /\ state (li y) <> KL_LISTENER_STATE_IDLE) by (destruct (listener_live_state y Hy Hi) as [->| ->]; done).
  destruct (listener_release_spec y1) as (y2 & -> & Hy2 & Hf2 & _); auto; [intros e' He'; apply (okay_retired e' y); auto|by apply Hst|].
  rewrite bind_Some_l. assert (Hf : frame y y2) by by eapply frame_trans. destruct (closing_down (li y2)) eqn:Hd.
  - apply goes_closes, (closes_from _ y2); auto; [by intros _; apply down_listens|]. apply listener_finalize_spec; [done|by eapply frame_pumped|by destruct Hf; lia].
  - apply (pump_goes _ y2); auto. by apply (f_window _ _ Hf), Hst.
Qed.

Lemma accepted_spec a y : okay y -> pumped (li y) -> (0 < inflight (li y) -> kept y < inflight (li y)) -> (length (script y) <= N)%nat -> goes y (l_on_accepted run a y).
Proof.
  intros Hy Hpg Hk HN. unfold l_on_accepted. cbn [li emit].
  assert (Hya : okay (emit (Arrived a) y)).
  { apply okay_emit; try done. unfold phase_in. by destruct (state (li y)), (on_close (hooks (li y))). }
  destruct (Z.leb_spec (inflight (li y)) 0) as [Hi|Hi].
  { apply goes_closes, (closes_from _ (emit (Called (Dispose a)) (emit (Arrived a) y))); [|done|by apply listener_dispose_spec].
    apply (frame_pair a); [apply frame_refl|by left]. }
  set (y1 := upd _ (emit (Arrived a) y)). assert (Hf1 : frame (emit (Arrived a) y) y1) by (apply frame_retired; [by left|done..]).
  destruct (closing_down (li y1)) eqn:Hd.
  - assert (Hst : state (li y) = KL_LISTENER_STATE_CLOSING).
    { apply down_state in Hd as [Hd|Hd]; [done|]. cbn in Hd. by destruct (listener_live_state y Hy Hi); congruence. }
    destruct (listener_release_spec y1) as (y2 & -> & Hy2 & Hf2 & _); auto; [intros e He; apply (okay_retired e (emit (Arrived a) y)); auto|cbn; congruence|].
    rewrite bind_Some_l. assert (Hf : frame y (emit (Called (Dispose a)) y2)).
    { apply (frame_pair a); [by eapply frame_trans|by left]. }
    apply goes_closes, (closes_from _ (emit (Called (Dispose a)) y2)); auto.
    + intros _. apply down_listens. by apply (f_down _ _ Hf2).
    + apply listener_dispose_spec; auto; [by apply (frame_pumped _ _ Hf)|]. destruct Hf. cbn in *. lia.
  - assert (Hst : state (li y) = KL_LISTENER_STATE_LISTENING).
    { destruct (listener_live_state y Hy Hi) as [|Hx]; [done|]. unfold closing_down in Hd. cbn in Hd. by rewrite Hx in Hd. }
    destruct (dispatched_spec (OnAccept a) y1) as (r & y2 & -> & Hy2 & Hf2 & _); auto.
    { apply (okay_handed a (emit (Arrived a) y)); auto. }
    rewrite bind_Some_l. assert (Hf : frame y y2).
    { eapply frame_trans; [|exact Hf2]. apply (frame_pair a); [done|by right]. }
    apply (pump_goes _ y2); auto. apply (f_window _ _ Hf). congruence.
Qed.

Lemma listener_dispatch_spec c y : okay y -> pumped (li y) -> callable c y -> (length (script y) <= N)%nat ->
  goes y (dispatch run c y) /\ forall y', dispatch run c y = Some y' -> extra c y y'.
Proof.
  intros Hy Hpg Hk HN. destruct c; cbn [dispatch extra].
  - split; [|done]. unfold kl_listener_start. case_bool_decide as Hst; cbn [negb]; [|by apply goes_stay].
    set (y1 := upd _ y). destruct (Hy) as [[S1 S2 S3 S4] [G1 G2 G3]].
    destruct (pump_goes y y1) as (y2 & -> & H); auto; [..|by exists y2].
    + split; cbn; auto with lia; try done; unfold closing_down; by rewrite Hst.
    + split; [split; cbn; auto; by rewrite S3, Hst|]. split; auto. cbn [li log y1 upd put]. rewrite G2. unfold phase_in. cbn. by rewrite Hst.
  - split; [|done]. unfold kl_listener_on_accepted. destruct (on_accept_obj (hooks (li y))); [apply listener_failed_spec|apply accepted_spec]; auto.
  - split; [|done]. unfold kl_listener_on_accepted_obj. destruct (on_accept_obj (hooks (li y))); cbn [negb]; [apply accepted_spec|apply listener_failed_spec]; auto.
  - split; [apply listener_failed_spec; auto|done].
  - unfold kl_listener_notify_slot_free.
    set (y1 := if bool_decide (state (li y) = KL_LISTENER_STATE_PAUSED) then upd (set_state KL_LISTENER_STATE_LISTENING) y else y).
    assert (H1 : okay y1 /\ frame y y1).
    { unfold y1. case_bool_decide as Hst; [|by auto using frame_refl]. destruct (Hy) as [[S1 S2 S3 S4] [G1 G2 G3]]. split_and!; auto.
      - split; [split; cbn; auto; by rewrite S3, Hst|]. split; auto. cbn [li log upd put]. rewrite G2. unfold phase_in. cbn. by rewrite Hst.
      - split; cbn; auto with lia; try done; unfold closing_down; by rewrite Hst. }
    destruct H1 as (Hy1 & Hf1). case_bool_decide as Hst; cbn [negb].
    + destruct (pump_spec y1) as (y2 & -> & Hy2 & Hf2 & HP2 & HQ2); auto; [by eapply frame_pumped|congruence|by destruct Hf1; lia|].
      split; [|done]. exists y2. split_and!; auto. by eapply frame_trans.
    + split; [|done].
      assert (y1 = y) as -> by (unfold y1 in *; by case_bool_decide). by apply goes_stay.
  - unfold kl_listener_close. destruct (begin_close_spec y) as (y1 & -> & Hy1 & Hf1 & Hd1 & HQ1); auto. rewrite !bind_Some_l.
    split; [|by intros y' [= <-]]. exists y1. split_and!; auto. intros _. by apply down_listens.
  - split; [|done]. unfold kl_listener_set_accept_window. case_bool_decide as Hst; cbn [negb]; [|by apply goes_stay].
    destruct (Z.ltb_spec n 1) as [|Hn]; [by apply goes_stay|]. destruct (negb _ && _) eqn:Hw; [by apply goes_stay|].
    destruct (Hy) as [[[S1 S1'] S2 S3 S4] [G1 G2 G3]]. specialize (S2 ltac:(auto)). eexists. split; [done|]. split_and!; auto.
    + split; [split; cbn; auto; [lia|]|by split]. destruct S4 as [? S4]. split; [lia|]. intros Hc. rewrite Hc in Hw. cbn in Hw.
      apply negb_false_iff, Z.eqb_eq in Hw. split; [done|by apply S4].
    + split; cbn; auto with lia. by intros ?.
Qed.

End proofs.

(** ** Whole runs *)

Lemma listener_run_call_spec fuel c y : (length (script y) < fuel)%nat -> okay y -> pumped (li y) -> callable c y ->
  goes y (run_call fuel c y) /\ forall y', run_call fuel c y = Some y' -> extra c y y'.
Proof.
  revert c y. induction fuel as [|fuel IH]; intros c y Hf Hy Hp Hk; [lia|]. cbn [run_call]. apply (listener_dispatch_spec fuel); auto. lia.
Qed.

(** Nothing is on the stack, nothing is owed. *)
Record resting (y : sys) : Prop := {
  r_okay : okay y;
  r_frames : in_start (li y) = 0%nat /\ in_dispatch (li y) = 0%nat /\ pumping (li y) = false /\ kept y = 0;
  r_owed : forall a, owed a (log y) = 0;
  r_waits : listens (li y) /\ settles (li y);
}.

Lemma listener_drive_spec cs y : resting y -> exists y', drive cs y = Some y' /\ resting y' /\ hooks (li y') = hooks (li y).
Proof.
  revert y. induction cs as [|c cs IH]; intros y Hr; cbn [drive]; [by exists y|]. destruct (Hr) as [Hy (H1 & H2 & H3 & H4) Ho [HP HQ]].
  destruct (listener_run_call_spec (S (length (script y))) c y) as [(y1 & -> & Hy1 & Hf1 & HP1 & HQ1) _]; auto; [by apply idle_pumped|by intros _; rewrite H4|].
  rewrite bind_Some_l. destruct (IH y1) as (y2 & E2 & Hr2 & Eh); [split; auto|exists y2].
  - by rewrite (f_start _ _ Hf1), (f_dispatch _ _ Hf1), (f_pumping _ _ Hf1), (f_kept _ _ Hf1).
  - intros a. by rewrite (f_owed _ _ Hf1).
  - split_and!; auto. by rewrite Eh, (proj1 (f_static _ _ Hf1)).
Qed.

Lemma listener_init_resting completion h l bs : kl_listener_init completion h = Some l -> resting (fresh l bs) /\ hooks l = h.
Proof.
  unfold kl_listener_init. intros Hi. do 6 (case_if; [done|]). injection Hi as <-.
  split; [|done]. split; [|done|done|split; by intros ?]. split; split; cbn; auto; lia.
Qed.

(** C11. Whatever the event loop calls, and whatever the hooks call back within the rules ([permitted]: [reserve]
    at most closes the listener, and inside a failing [arm_accept] at most its own accept completes), every call returns, and between calls the books
    of the listener balance: each credit that was granted was given back, handed over with a
    connection or is held by a posted accept; each connection that arrived was handed over or
    disposed of, once; no more accepts are posted than the window allows; the batch cancel was asked
    for at most once; nothing was reserved, posted or handed over after the close began and
    [on_close] was called at most once, with nothing posted. *)
Theorem listener_books (completion : bool) (h : KlListenerHooks) (l : KlListener) (cs : list call) (bs : list behaviour)
    (Hl : kl_listener_init completion h = Some l) :
  exists y x, drive cs (fresh l bs) = Some y /\ phase_of (log y) = Some x /\ (x = Ended -> inflight (li y) = 0) /\
    count is_granted (log y) = count is_returned (log y) + count is_handed (log y) + inflight (li y) /\
    (forall a, count (arrived a) (log y) = count (settled a) (log y)) /\
    0 <= inflight (li y) <= window (li y) /\ count is_cancel (log y) <= 1.
Proof.
  destruct (listener_drive_spec cs (fresh l bs) (proj1 (listener_init_resting _ _ _ bs Hl))) as (y & E & [[[[S1 S1'] S2 S3 S4] [G1 G2 G3]] _ Ho _] & _).
  exists y, (phase_in (li y)). split_and!; auto; try lia.
  - unfold phase_in. destruct (state (li y)); try done. intros _. by auto.
  - intros a. specialize (Ho a). unfold owed in Ho. lia.
  - rewrite G3. by destruct (accept_cancel_requested (li y)).
Qed.

(** C21. Liveness, for hooks within the same rules: between calls, a listening listener has an accept posted, a paused one has none and waits for a
    free slot, a closing one waits for an accept that is still posted, and a closed one has
    announced it and holds nothing. *)
Theorem listener_waits (completion : bool) (h : KlListenerHooks) (l : KlListener) (cs : list call) (bs : list behaviour)
    (Hl : kl_listener_init completion h = Some l) :
  exists y, drive cs (fresh l bs) = Some y /\
    match kl_listener_state (li y) with
    | KL_LISTENER_STATE_LISTENING | KL_LISTENER_STATE_CLOSING => 0 < inflight (li y)
    | KL_LISTENER_STATE_IDLE | KL_LISTENER_STATE_PAUSED => inflight (li y) = 0
    | KL_LISTENER_STATE_CLOSED => inflight (li y) = 0 /\ kl_listener_is_detached (li y) = true /\
        (on_close h = true -> phase_of (log y) = Some Ended)
    end.
Proof.
  destruct (listener_init_resting _ _ _ bs Hl) as [Hi Eh].
  destruct (listener_drive_spec cs (fresh l bs) Hi) as (y & E & [[[[S1 S1'] S2 S3 S4] [G1 G2 G3]] (H1 & H2 & H3 & _) _ [HP HQ]] & Eh').
  exists y. split; [done|]. unfold kl_listener_state, kl_listener_is_detached. unfold phase_in in G2. destruct (state (li y)) eqn:Hst; auto.
  - destruct (HP Hst); [done|congruence].
  - destruct (HQ Hst) as [?|[?|?]]; done.
  - split_and!; auto. intros Ho. rewrite G2, Eh'. cbn. by rewrite Eh, Ho.
Qed.

(** ** Examples *)

(** A pool with credits, two accepts posted, one completed inside its arming, a connection handed over
    that closes the listener, and one that arrives too late. *)
Definition sample_hooks : KlListenerHooks := mkHooks true true true true true true true true false false.

Definition sample_calls : list call := [CWindow 2; CStart; CNotify; CAccepted 5; CAccepted 6; CFailed 7; CAccepted 8].

Definition sample_script : list behaviour :=
  [ mkBehaviour [] 1; mkBehaviour [CAccepted 3] 0; mkBehaviour [CNotify] 0; mkBehaviour [] 1; mkBehaviour [] 0; mkBehaviour [] 0;
    mkBehaviour [] 1; mkBehaviour [] 0; mkBehaviour [CClose] 0; mkBehaviour [] 0; mkBehaviour [CNotify] 0 ].

Lemma listener_books_witness :
  exists l, kl_listener_init true sample_hooks = Some l /\
  exists y x, drive sample_calls (fresh l sample_script) = Some y /\ phase_of (log y) = Some x /\ (x = Ended -> inflight (li y) = 0) /\
    count is_granted (log y) = count is_returned (log y) + count is_handed (log y) + inflight (li y) /\
    (forall a, count (arrived a) (log y) = count (settled a) (log y)) /\
    0 <= inflight (li y) <= window (li y) /\ count is_cancel (log y) <= 1.
Proof. eexists. split; [reflexivity|]. by apply (listener_books true sample_hooks _ sample_calls sample_script). Defined.

Lemma listener_waits_witness :
  exists l, kl_listener_init true sample_hooks = Some l /\
  exists y, drive sample_calls (fresh l sample_script) = Some y /\
    match kl_listener_state (li y) with
    | KL_LISTENER_STATE_LISTENING | KL_LISTENER_STATE_CLOSING => 0 < inflight (li y)
    | KL_LISTENER_STATE_IDLE | KL_LISTENER_STATE_PAUSED => inflight (li y) = 0
    | KL_LISTENER_STATE_CLOSED => inflight (li y) = 0 /\ kl_listener_is_detached (li y) = true /\
        (on_close sample_hooks = true -> phase_of (log y) = Some Ended)
    end.
Proof. eexists. split; [reflexivity|]. by apply (listener_waits true sample_hooks _ sample_calls sample_script). Defined.

(** An accept that completes inside a failing arming, and an arming that closes the listener, whose batch
    cancel completes later: within the rules, and the books balance. *)
Definition failing_script : list behaviour :=
  [ mkBehaviour [] 1; mkBehaviour [CAccepted 3] (-1); mkBehaviour [] 0; mkBehaviour [] 1; mkBehaviour [] 0; mkBehaviour [] 1; mkBehaviour [CClose] (-1) ].

Example failing_arms :
  option_map (fun y => (state (li y), inflight (li y), count is_granted (log y), count is_returned (log y), count is_handed (log y)))
    (drive [CWindow 2; CStart; CFailed 1] (fresh (mkListener KL_LISTENER_STATE_IDLE true false 0 1 0 false false false 0 0 sample_hooks) failing_script)) =
  Some (KL_LISTENER_STATE_CLOSED, 0, 3, 2, 1).
Proof. reflexivity. Qed.

(** The rules are needed.  A [reserve] that announces a free slot starts a second pump, since nothing but an
    arming holds the pump flag: two accepts are posted where the window allows one. *)
Example notify_in_reserve :
  option_map (fun y => (inflight (li y), window (li y)))
    (drive (H := true) [CStart] (fresh (mkListener KL_LISTENER_STATE_IDLE true false 0 1 0 false false false 0 0 sample_hooks)
       [mkBehaviour [CNotify] 1; mkBehaviour [] 1])) = Some (2, 1).
Proof. reflexivity. Qed.

(** An arming that closes the listener and fails, with a batch cancel that completes the two older accepts
    at once: [l->inflight = before] brings them back, every credit was returned, and the listener waits for
    accepts that nobody holds. *)
Example cancel_in_failing_arm :
  option_map (fun y => (state (li y), inflight (li y), count is_granted (log y), count is_returned (log y)))
    (drive (H := true) [CWindow 3; CStart] (fresh (mkListener KL_LISTENER_STATE_IDLE true false 0 1 0 false false false 0 0 sample_hooks)
       [mkBehaviour [] 1; inert; mkBehaviour [] 1; inert; mkBehaviour [] 1; mkBehaviour [CClose] (-1); mkBehaviour [CFailed 1; CFailed 1] 0])) =
  Some (KL_LISTENER_STATE_CLOSING, 2, 3, 3).
Proof. reflexivity. Qed.

(** A lease gives its slot back once, and not to a pool that is gone. *)
Lemma lease_once (lease : KlSlotLease) :
  let '(called, lease') := kl_slot_lease_release lease in
  called = (releases lease && negb (bool_decide (alive lease = Some false))) /\ (kl_slot_lease_release lease').1 = false.
Proof. destruct lease as [[] [[]|]]; by split. Qed.

End Listener.
