(* ===== verification/ClientPool.v ===== *)
(** * The HTTP client's connection pool (src/src/protocols/http/http_client_pool.c,
    http_client_pool_internal.h, src/include/keel/http_client_pool.h)

    Idle connections in a table, each under the identity it was made with and, when the pool has an
    event context, with an idle timer in the heap of [Timer].  The operations are programs over the
    timers, so that the same definitions run when the application calls the pool and when the
    callback of some other timer does.  Clock, allocator, peers and the other timers' callbacks are
    an environment [PoolEnv]. *)
From stdpp Require Import gmap.
From S2P Require Import Prelude CStr Timer Error.
Import CStr.CStr Timer.Timer Error.Error.

Module ClientPool.

(** ** Data *)

Definition KL_HTTP_CLIENT_POOL_DEFAULT_CAPACITY : Z := 32.
Definition KL_HTTP_CLIENT_POOL_DEFAULT_MAX_PER_HOST : Z := 4.
Definition KL_HTTP_CLIENT_POOL_DEFAULT_IDLE_MS : Z := 60000.
Definition KL_HTTP_CLIENT_HOSTNAME_MAX : Z := 256.
Definition sizeof_KlHttpClientPoolEntry : Z := 592.
Definition KL_INVALID_SOCKET : Z := -1.

Definition kl_handle_valid (h : Z) : bool := negb (h =? KL_INVALID_SOCKET).

Record KlHttpClientPoolConfig := mkConfig { cfg_capacity : Z; cfg_max_per_host : Z; cfg_idle_ms : Z }.

(** Pointers are numbers, NULL is 0.  The TLS config of a request, of which the pool keeps two
    pointers. *)
Record KlTlsConfig := mkTls { cfg_ctx : Z; cfg_factory : Z }.
Record PoolTlsKey := mkTlsKey { key_ctx : Z; key_factory : Z }.

Definition pool_tls_key (tls : option KlTlsConfig) : PoolTlsKey :=
  match tls with Some t => mkTlsKey (cfg_ctx t) (cfg_factory t) | None => mkTlsKey 0 0 end.

Record KlHttpClientPoolConn := mkConn { conn_fd : Z; conn_tls : Z; reused : bool }.

Record KlHttpClientPoolEntry := mkEntry {
  host : list Z; port : Z; is_tls : Z; tls_ctx : Z; tls_factory : Z; proxy_host : list Z; proxy_port : Z;
  fd : Z; tls : Z; sockets : Z; idle_since_ms : Z; timer_id : Z;
}.

(** [entries] is [None] once the table is freed; [ev_ctx] is the socket provider of the event
    context when there is one. *)
Record KlHttpClientPool := mkPool {
  entries : option (list KlHttpClientPoolEntry); capacity : Z; active : Z; max_per_host : Z; idle_ms : Z;
  ev_ctx : option Z; last_error : KlError;
}.

(** What a connection is asked for or filed under: the arguments [host] to [proxy_port]. *)
Record query := mkQuery {
  q_host : option (list Z); q_port : Z; q_is_tls : Z; q_tk : PoolTlsKey; q_proxy_host : option (list Z); q_proxy_port : Z;
}.

(** What a slot records of it, with the provider. *)
Record key := mkKey {
  k_host : list Z; k_port : Z; k_is_tls : Z; k_ctx : Z; k_factory : Z; k_proxy_host : list Z; k_proxy_port : Z; k_sockets : Z;
}.

#[global] Instance PoolTlsKey_eq_dec : EqDecision PoolTlsKey.
Proof. solve_decision. Defined.
#[global] Instance KlHttpClientPoolConn_eq_dec : EqDecision KlHttpClientPoolConn.
Proof. solve_decision. Defined.
#[global] Instance query_eq_dec : EqDecision query.
Proof. solve_decision. Defined.
#[global] Instance key_eq_dec : EqDecision key.
Proof. solve_decision. Defined.

Definition cpool_sp (p : KlHttpClientPool) : Z := default 0 (ev_ctx p).

Definition entry_matches (e : KlHttpClientPoolEntry) (hostname : list Z) (q : query) : bool :=
  if negb (kl_handle_valid (fd e)) || negb (port e =? q_port q) || negb (is_tls e =? q_is_tls q) ||
     negb (kl_streq (host e) hostname) then false
  else if negb (tls_ctx e =? key_ctx (q_tk q)) || negb (tls_factory e =? key_factory (q_tk q)) then false
  else match q_proxy_host q with
       | Some p => (proxy_port e =? q_proxy_port q) && kl_streq (proxy_host e) p
       | None => deref (proxy_host e) =? 0
       end.

Definition entry_key (e : KlHttpClientPoolEntry) : key :=
  mkKey (host e) (port e) (is_tls e) (tls_ctx e) (tls_factory e) (proxy_host e) (proxy_port e) (sockets e).

(** A connection as the pool handles it: descriptor, TLS session, provider. *)
Definition link : Type := Z * Z * Z.
Definition entry_link (e : KlHttpClientPoolEntry) : link := (fd e, tls e, sockets e).

(** What the outside sees: a connection filed in a slot, taken from one for a request on a
    provider (with what the peek returned), closed by the pool, or closed without having been filed.  Closing is the
    shutdown and destruction of the TLS session, if there is one, and closing the descriptor through
    its provider.  [Fault] is an access outside the table. *)
Inductive event :=
| Filed (c : link) (k : key)
| Reused (sp : Z) (c : link) (k : key) (q : query) (peeked : Z) (would_block : bool)
| Closed (c : link) (k : key)
| Dropped (c : link)
| Fault.

#[global] Instance event_eq_dec : EqDecision event.
Proof. solve_decision. Defined.

(** What the application may do with the pool and with timers of its own. *)
Inductive call :=
| Acquire (h : option (list Z)) (port is_tls : Z) (proxy : option (list Z)) (proxy_port : Z)
| AcquireTls (h : option (list Z)) (port : Z) (t : option KlTlsConfig) (proxy : option (list Z)) (proxy_port : Z)
| AcquireSp (sp : Z) (h : option (list Z)) (port : Z) (t : option KlTlsConfig) (proxy : option (list Z)) (proxy_port : Z)
| Release (c : KlHttpClientPoolConn) (h : option (list Z)) (port is_tls : Z) (proxy : option (list Z)) (proxy_port : Z)
| ReleaseTls (c : KlHttpClientPoolConn) (h : option (list Z)) (port : Z) (t : option KlTlsConfig) (proxy : option (list Z)) (proxy_port : Z)
| ReleaseSp (sp : Z) (c : KlHttpClientPoolConn) (h : option (list Z)) (port : Z) (t : option KlTlsConfig) (proxy : option (list Z)) (proxy_port : Z)
| Discard (c : KlHttpClientPoolConn)
| EvictExpired
| PoolFree
| TimerAdd (delay cb user_data : Z)
| TimerCancel (t : Z).

(** [peek w sp fd]: what [kl_sock_recv_peek] returns, and whether [kl_sock_io_status] then says
    would-block.  [others cb user_data] are the calls the callback of another timer makes. *)
Class PoolEnv (E : Type) := {
  env_clock : E -> Z * E;
  env_realloc : E -> Z -> bool * E;
  peek : E -> Z -> Z -> Z * bool * E;
  others : Z -> Z -> E -> list call * E
}.

Section pool.
  Context {E : Type} `{PE : PoolEnv E}.

Record sys := mkSys { pool : KlHttpClientPool; env : E; log : list event }.

#[local] Abbreviation io := (cbprog sys).
Definition look {A} (f : sys -> A) : io A := CbLook (fun y => CbRet (f y)).
Definition act (f : sys -> sys) : io unit := CbAct f (CbRet tt).

Definition emit (x : event) (y : sys) : sys := mkSys (pool y) (env y) (log y ++ [x]).
Definition on_pool (f : KlHttpClientPool -> KlHttpClientPool) (y : sys) : sys := mkSys (f (pool y)) (env y) (log y).
Definition set_env (e : E) (y : sys) : sys := mkSys (pool y) e (log y).

Definition set_entries (l : option (list KlHttpClientPoolEntry)) (p : KlHttpClientPool) : KlHttpClientPool :=
  mkPool l (capacity p) (active p) (max_per_host p) (idle_ms p) (ev_ctx p) (last_error p).
Definition add_active (n : Z) (p : KlHttpClientPool) : KlHttpClientPool :=
  mkPool (entries p) (capacity p) (active p + n) (max_per_host p) (idle_ms p) (ev_ctx p) (last_error p).
Definition set_last_error (e : KlError) (p : KlHttpClientPool) : KlHttpClientPool :=
  mkPool (entries p) (capacity p) (active p) (max_per_host p) (idle_ms p) (ev_ctx p) e.

Definition close_entry (e : KlHttpClientPoolEntry) : KlHttpClientPoolEntry :=
  mkEntry (host e) (port e) (is_tls e) (tls_ctx e) (tls_factory e) (proxy_host e) (proxy_port e)
    KL_INVALID_SOCKET 0 (sockets e) (idle_since_ms e) (timer_id e).
Definition set_timer_id (t : Z) (e : KlHttpClientPoolEntry) : KlHttpClientPoolEntry :=
  mkEntry (host e) (port e) (is_tls e) (tls_ctx e) (tls_factory e) (proxy_host e) (proxy_port e)
    (fd e) (tls e) (sockets e) (idle_since_ms e) t.
Definition clear_host (e : KlHttpClientPoolEntry) : KlHttpClientPoolEntry :=
  mkEntry [] (port e) (is_tls e) (tls_ctx e) (tls_factory e) (proxy_host e) (proxy_port e)
    (fd e) (tls e) (sockets e) (idle_since_ms e) (timer_id e).

(** [pool->entries[i]], read and written. *)
Definition slot (y : sys) (i : nat) : option KlHttpClientPoolEntry := entries (pool y) ≫= fun l => l !! i.
Definition on_slot (i : nat) (f : KlHttpClientPoolEntry -> KlHttpClientPoolEntry) (y : sys) : sys :=
  match slot y i with
  | Some e => on_pool (fun p => set_entries (insert i (f e) <$> entries p) p) y
  | None => emit Fault y
  end.

Definition with_entry {A} (i : nat) (fallback : A) (k : KlHttpClientPoolEntry -> io A) : io A :=
  o ← look (fun y => slot y i);
  match o with
  | Some e => k e
  | None => _ ← act (emit Fault); mret fallback
  end.

(** The first [capacity] entries, as the scans walk them. *)
Definition table : io (list KlHttpClientPoolEntry) :=
  y ← look (fun y => y);
  let l := default [] (entries (pool y)) in
  let n := Z.to_nat (capacity (pool y)) in
  _ ← (if (length l <? n)%nat then act (emit Fault) else mret tt);
  mret (take n l).

Definition kl_monotonic_ms : io Z :=
  now ← look (fun y => (env_clock (env y)).1);
  _ ← act (fun y => set_env (env_clock (env y)).2 y);
  mret now.

(** ** Entries *)

Definition entry_close (i : nat) : io unit :=
  with_entry i tt (fun e =>
    act (fun y =>
      let y := if kl_handle_valid (fd e) || negb (tls e =? 0) then emit (Closed (entry_link e) (entry_key e)) y else y in
      on_slot i close_entry y)).

Definition cancel_idle (e : KlHttpClientPoolEntry) : io unit :=
  has_ctx ← look (fun y => bool_decide (is_Some (ev_ctx (pool y))));
  if has_ctx && (0 <=? timer_id e) then CbCancel (timer_id e) (fun _ => CbRet tt) else mret tt.

(** Cancel the timer, close, forget the timer, one connection less: what every eviction does;
    [clear] where the host key is emptied too. *)
Definition evict_entry (clear : bool) (i : nat) : io unit :=
  with_entry i tt (fun e =>
    _ ← cancel_idle e;
    _ ← entry_close i;
    act (fun y => on_pool (add_active (-1)) (on_slot i (fun e => let e := set_timer_id (-1) e in if clear then clear_host e else e) y))).

(** The number that stands for [idle_timer_cb] in the heap; its argument is the index of the slot. *)
Definition IDLE_TIMER_CB : Z := 0.

Definition idle_timer_cb (i : nat) : io unit :=
  with_entry i tt (fun e =>
    if kl_handle_valid (fd e) then
      _ ← entry_close i;
      act (fun y => on_pool (add_active (-1)) (on_slot i (set_timer_id (-1)) y))
    else mret tt).

(** ** Lifecycle *)

Definition free_entry : KlHttpClientPoolEntry := mkEntry [] 0 0 0 0 [] 0 KL_INVALID_SOCKET 0 0 0 (-1).

Definition pick (cfg : option KlHttpClientPoolConfig) (f : KlHttpClientPoolConfig -> Z) (d : Z) : Z :=
  match cfg with Some c => if 0 <? f c then f c else d | None => d end.

(** [alloc_ok]: the allocator has its operations; [malloc]: whether it delivers a block of a size. *)
Definition kl_http_client_pool_init (cfg : option KlHttpClientPoolConfig) (alloc_ok : bool) (malloc : Z -> bool)
    (ctx : option Z) : Z * KlHttpClientPool :=
  let fail e := (-1, mkPool None 0 0 0 0 None e) in
  if negb alloc_ok then fail KL_ERR_INVALID_ARG
  else
    let cap := pick cfg cfg_capacity KL_HTTP_CLIENT_POOL_DEFAULT_CAPACITY in
    let mph := pick cfg cfg_max_per_host KL_HTTP_CLIENT_POOL_DEFAULT_MAX_PER_HOST in
    let idle := pick cfg cfg_idle_ms KL_HTTP_CLIENT_POOL_DEFAULT_IDLE_MS in
    if SIZE_MAX / sizeof_KlHttpClientPoolEntry <? cap then fail KL_ERR_OVERFLOW
    else if negb (malloc (cap * sizeof_KlHttpClientPoolEntry)) then fail KL_ERR_ALLOC
    else (0, mkPool (Some (replicate (Z.to_nat cap) free_entry)) cap 0 mph idle ctx KL_ERR_NONE).

Fixpoint free_loop (ix : list nat) : io unit :=
  match ix with
  | [] => mret tt
  | i :: ix =>
      _ ← with_entry i tt (fun e =>
        if kl_handle_valid (fd e) then _ ← cancel_idle e; entry_close i else mret tt);
      free_loop ix
  end.

Definition slots_of (p : KlHttpClientPool) : list nat := seq 0 (Z.to_nat (capacity p)).

Definition kl_http_client_pool_free : io unit :=
  p ← look pool;
  match entries p with
  | None => mret tt
  | Some _ =>
      _ ← free_loop (slots_of p);
      act (on_pool (fun p => mkPool None 0 0 (max_per_host p) (idle_ms p) (ev_ctx p) (last_error p)))
  end.

(** ** Acquire *)

Definition take_entry (e : KlHttpClientPoolEntry) : KlHttpClientPoolEntry :=
  clear_host (set_timer_id (-1) (close_entry e)).

Fixpoint acquire_loop (ix : list nat) (sp : Z) (hostname : list Z) (q : query) : io (Z * option KlHttpClientPoolConn) :=
  match ix with
  | [] => mret (1, None)
  | i :: ix =>
      with_entry i (1, None) (fun e =>
        if negb (entry_matches e hostname q) then acquire_loop ix sp hostname q
        else if negb (sockets e =? sp) then acquire_loop ix sp hostname q
        else
          r ← look (fun y => (peek (env y) (sockets e) (fd e)).1);
          _ ← act (fun y => set_env (peek (env y) (sockets e) (fd e)).2 y);
          let '(n, would_block) := r in
          if (0 <=? n) || negb would_block then
            _ ← evict_entry false i;
            acquire_loop ix sp hostname q
          else
            _ ← cancel_idle e;
            _ ← act (fun y => on_pool (add_active (-1)) (on_slot i take_entry (emit (Reused sp (entry_link e) (entry_key e) q n would_block) y)));
            mret (0, Some (mkConn (fd e) (tls e) true)))
  end.

(** The result, and the connection on a hit. *)
Definition pool_acquire (sp : Z) (q : query) : io (Z * option KlHttpClientPoolConn) :=
  match q_host q with
  | None => mret (-1, None)
  | Some hostname => ix ← look (fun y => slots_of (pool y)); acquire_loop ix sp hostname q
  end.

Definition is_set (t : option KlTlsConfig) : Z := match t with Some _ => 1 | None => 0 end.

Definition kl_http_client_pool_acquire (h : option (list Z)) (port is_tls : Z) (proxy : option (list Z)) (proxy_port : Z) :=
  sp ← look (fun y => cpool_sp (pool y)); pool_acquire sp (mkQuery h port is_tls (pool_tls_key None) proxy proxy_port).

Definition kl_http_client_pool_acquire_tls (h : option (list Z)) (port : Z) (t : option KlTlsConfig) (proxy : option (list Z)) (proxy_port : Z) :=
  sp ← look (fun y => cpool_sp (pool y)); pool_acquire sp (mkQuery h port (is_set t) (pool_tls_key t) proxy proxy_port).

Definition kl_http_client_pool_acquire_sp (sp : Z) (h : option (list Z)) (port : Z) (t : option KlTlsConfig) (proxy : option (list Z)) (proxy_port : Z) :=
  pool_acquire sp (mkQuery h port (is_set t) (pool_tls_key t) proxy proxy_port).

(** ** Discard and release *)

Definition no_conn : KlHttpClientPoolConn := mkConn KL_INVALID_SOCKET 0 false.

Definition kl_http_client_pool_discard_sp (sp : Z) (c : KlHttpClientPoolConn) : io KlHttpClientPoolConn :=
  _ ← (if kl_handle_valid (conn_fd c) || negb (conn_tls c =? 0) then act (emit (Dropped (conn_fd c, conn_tls c, sp))) else mret tt);
  mret no_conn.

Definition kl_http_client_pool_discard (c : KlHttpClientPoolConn) : io KlHttpClientPoolConn :=
  sp ← look (fun y => cpool_sp (pool y)); kl_http_client_pool_discard_sp sp c.

(** How many entries are selected, and which of them has been idle longest. *)
Fixpoint scan_oldest (sel : KlHttpClientPoolEntry -> bool) (i : nat) (l : list KlHttpClientPoolEntry)
    (count : Z) (oldest_idx : option nat) (oldest_time : Z) : Z * option nat :=
  match l with
  | [] => (count, oldest_idx)
  | e :: l =>
      if sel e then
        if idle_since_ms e <? oldest_time then scan_oldest sel (S i) l (count + 1) (Some i) (idle_since_ms e)
        else scan_oldest sel (S i) l (count + 1) oldest_idx oldest_time
      else scan_oldest sel (S i) l count oldest_idx oldest_time
  end.

Fixpoint find_free (i : nat) (l : list KlHttpClientPoolEntry) : option nat :=
  match l with
  | [] => None
  | e :: l => if negb (kl_handle_valid (fd e)) then Some i else find_free (S i) l
  end.

Definition enforce_max_per_host (sp : Z) (hostname : list Z) (q : query) : io unit :=
  l ← table;
  max ← look (fun y => max_per_host (pool y));
  let '(host_count, oldest) := scan_oldest (fun e => (sockets e =? sp) && entry_matches e hostname q) 0 l 0 None UINT64_MAX in
  match oldest with
  | Some i => if max <=? host_count then evict_entry true i else mret tt
  | None => mret tt
  end.

Definition find_slot : io (option nat) :=
  l ← table;
  match find_free 0 l with
  | Some i => mret (Some i)
  | None =>
      match (scan_oldest (fun e => kl_handle_valid (fd e)) 0 l 0 None UINT64_MAX).2 with
      | Some i => _ ← evict_entry false i; mret (Some i)
      | None => mret None
      end
  end.

Definition fill (sp : Z) (hostname : list Z) (q : query) (c : KlHttpClientPoolConn) (now : Z) : KlHttpClientPoolEntry :=
  mkEntry hostname (q_port q) (q_is_tls q) (key_ctx (q_tk q)) (key_factory (q_tk q))
    (default [] (q_proxy_host q)) (match q_proxy_host q with Some _ => q_proxy_port q | None => 0 end)
    (conn_fd c) (conn_tls c) sp now (-1).

Definition populate (i : nat) (sp : Z) (hostname : list Z) (q : query) (c : KlHttpClientPoolConn) : io unit :=
  now ← kl_monotonic_ms;
  let e := fill sp hostname q c now in
  _ ← act (fun y => on_slot i (fun _ => e) (emit (Filed (entry_link e) (entry_key e)) y));
  p ← look pool;
  _ ← match ev_ctx p with
      | Some _ => CbAdd (idle_ms p) IDLE_TIMER_CB (Z.of_nat i) (fun t => act (on_slot i (set_timer_id t)))
      | None => mret tt
      end;
  act (on_pool (add_active 1)).

(** The result, and the connection handle as it is left. *)
Definition pool_release (sp : Z) (c : KlHttpClientPoolConn) (q : query) : io (Z * KlHttpClientPoolConn) :=
  match q_host q with
  | None => mret (-1, c)
  | Some hostname =>
      if negb (kl_handle_valid (conn_fd c)) then mret (-1, c)
      else if KL_HTTP_CLIENT_HOSTNAME_MAX <=? strlen hostname then
        _ ← act (on_pool (set_last_error KL_ERR_INVALID_ARG));
        c ← kl_http_client_pool_discard_sp sp c; mret (-1, c)
      else if match q_proxy_host q with Some p => KL_HTTP_CLIENT_HOSTNAME_MAX <=? strlen p | None => false end then
        _ ← act (on_pool (set_last_error KL_ERR_INVALID_ARG));
        c ← kl_http_client_pool_discard_sp sp c; mret (-1, c)
      else
        _ ← enforce_max_per_host sp hostname q;
        s ← find_slot;
        match s with
        | None => c ← kl_http_client_pool_discard_sp sp c; mret (-1, c)
        | Some i => _ ← populate i sp hostname q c; mret (0, no_conn)
        end
  end.

Definition kl_http_client_pool_release (c : KlHttpClientPoolConn) (h : option (list Z)) (port is_tls : Z) (proxy : option (list Z)) (proxy_port : Z) :=
  sp ← look (fun y => cpool_sp (pool y)); pool_release sp c (mkQuery h port is_tls (pool_tls_key None) proxy proxy_port).

Definition kl_http_client_pool_release_tls (c : KlHttpClientPoolConn) (h : option (list Z)) (port : Z) (t : option KlTlsConfig) (proxy : option (list Z)) (proxy_port : Z) :=
  sp ← look (fun y => cpool_sp (pool y)); pool_release sp c (mkQuery h port (is_set t) (pool_tls_key t) proxy proxy_port).

Definition kl_http_client_pool_release_sp (sp : Z) (c : KlHttpClientPoolConn) (h : option (list Z)) (port : Z) (t : option KlTlsConfig) (proxy : option (list Z)) (proxy_port : Z) :=
  pool_release sp c (mkQuery h port (is_set t) (pool_tls_key t) proxy proxy_port).

(** ** Maintenance *)

Fixpoint expire_loop (ix : list nat) (now limit evicted : Z) : io Z :=
  match ix with
  | [] => mret evicted
  | i :: ix =>
      with_entry i evicted (fun e =>
        if negb (kl_handle_valid (fd e)) then expire_loop ix now limit evicted
        else if (idle_since_ms e <=? now) && (limit <=? now - idle_since_ms e) then
          _ ← evict_entry true i; expire_loop ix now limit (evicted + 1)
        else expire_loop ix now limit evicted)
  end.

Definition kl_http_client_pool_evict_expired : io Z :=
  p ← look pool;
  match entries p with
  | None => mret 0
  | Some _ => now ← kl_monotonic_ms; expire_loop (slots_of p) now (idle_ms p) 0
  end.

Definition kl_http_client_pool_idle_count (p : KlHttpClientPool) : Z := active p.

Definition kl_http_client_pool_host_count (p : KlHttpClientPool) (h : option (list Z)) (port is_tls : Z) (proxy : option (list Z)) (proxy_port : Z) : Z :=
  match h with
  | None => 0
  | Some hostname =>
      let own e := mkQuery h port is_tls (mkTlsKey (tls_ctx e) (tls_factory e)) proxy proxy_port in
      Z.of_nat (length (List.filter (fun e => entry_matches e hostname (own e)) (take (Z.to_nat (capacity p)) (default [] (entries p)))))
  end.

(** ** The system *)

(** The string at a [const char *]: the bytes before the first NUL. *)
Fixpoint c_string (l : list Z) : list Z :=
  match l with [] => [] | c :: l => if c =? 0 then [] else c :: c_string l end.

(** A caller's timers have callbacks of their own ([idle_timer_cb] is private to the pool), and it
    cancels timers it has added. *)
Definition call_prog (x : call) : io unit :=
  match x with
  | Acquire h po t pr pp => _ ← kl_http_client_pool_acquire (c_string <$> h) po t (c_string <$> pr) pp; mret tt
  | AcquireTls h po t pr pp => _ ← kl_http_client_pool_acquire_tls (c_string <$> h) po t (c_string <$> pr) pp; mret tt
  | AcquireSp sp h po t pr pp => _ ← kl_http_client_pool_acquire_sp sp (c_string <$> h) po t (c_string <$> pr) pp; mret tt
  | Release c h po t pr pp => _ ← kl_http_client_pool_release c (c_string <$> h) po t (c_string <$> pr) pp; mret tt
  | ReleaseTls c h po t pr pp => _ ← kl_http_client_pool_release_tls c (c_string <$> h) po t (c_string <$> pr) pp; mret tt
  | ReleaseSp sp c h po t pr pp => _ ← kl_http_client_pool_release_sp sp c (c_string <$> h) po t (c_string <$> pr) pp; mret tt
  | Discard c => _ ← kl_http_client_pool_discard c; mret tt
  | EvictExpired => _ ← kl_http_client_pool_evict_expired; mret tt
  | PoolFree => kl_http_client_pool_free
  | TimerAdd delay c ud => if c =? IDLE_TIMER_CB then mret tt else CbAdd delay c ud (fun _ => CbRet tt)
  | TimerCancel t =>
      ts ← look (fun y => timer_id <$> default [] (entries (pool y)));
      if bool_decide (t ∈ ts) then mret tt else CbCancel t (fun _ => CbRet tt)
  end.

Fixpoint calls_prog (xs : list call) : io unit :=
  match xs with [] => mret tt | x :: xs => _ ← call_prog x; calls_prog xs end.

#[global] Instance pool_timer_env : TimerEnv sys := {
  clock y := ((env_clock (env y)).1, set_env (env_clock (env y)).2 y);
  realloc_ok y n := ((env_realloc (env y) n).1, set_env (env_realloc (env y) n).2 y);
  callback c ud y :=
    if c =? IDLE_TIMER_CB then (idle_timer_cb (Z.to_nat ud), y)
    else (calls_prog (others c ud (env y)).1, set_env (others c ud (env y)).2 y)
}.

Inductive step := Do (x : call) | Fire.

(** The calls of the application and the turns of the event loop that fire timers, in order. *)
Fixpoint drive (ss : list step) (ctx : KlEventCtx) (y : sys) : option (KlEventCtx * sys) :=
  match ss with
  | [] => Some (ctx, y)
  | Do x :: ss => let '(_, ctx, y, _) := run_callback (call_prog x) ctx y in drive ss ctx y
  | Fire :: ss => '(_, ctx, y, _) ← kl_timer_fire ctx y; drive ss ctx y
  end.

End pool.

(** ** Counting *)

Fixpoint tally {A} (f : A -> bool) (l : list A) : Z :=
  match l with [] => 0 | x :: l => (if f x then 1 else 0) + tally f l end.

Lemma tally_app {A} (f : A -> bool) l l' : tally f (l ++ l') = tally f l + tally f l'.
Proof. induction l as [|x l IH]; cbn; [done|]. rewrite IH. lia. Qed.

Lemma tally_insert {A} (f : A -> bool) l i x y : l !! i = Some x ->
  tally f (<[i:=y]> l) = tally f l - (if f x then 1 else 0) + (if f y then 1 else 0).
Proof.
  revert i. induction l as [|z l IH]; intros [|i] H; [done|done| |].
  - injection H as ->. cbn. lia.
  - specialize (IH i H). change (<[S i:=y]> (z :: l)) with (z :: <[i:=y]> l). cbn [tally]. lia.
Qed.

Lemma tally_nonneg {A} (f : A -> bool) l : 0 <= tally f l.
Proof. induction l as [|x l IH]; cbn; [done|]. destruct (f x); lia. Qed.

Lemma tally_le_length {A} (f : A -> bool) l : tally f l <= Z.of_nat (length l).
Proof. induction l as [|x l IH]; cbn; [done|]. destruct (f x); lia. Qed.

Lemma tally_mono {A} (f g : A -> bool) l : (forall x, x ∈ l -> f x = true -> g x = true) -> tally f l <= tally g l.
Proof.
  induction l as [|x l IH]; intros H; cbn; [done|]. assert (tally f l <= tally g l) by (apply IH; intros y Hy; apply H; by right).
  specialize (H x ltac:(by left)). destruct (f x), (g x); try lia.
Qed.

Lemma tally_zero {A} (f : A -> bool) l : (forall x, x ∈ l -> f x = false) -> tally f l = 0.
Proof. induction l as [|x l IH]; intros H; cbn; [done|]. rewrite H by (by left). apply IH. intros y Hy. apply H. by right. Qed.

(** ** Strings *)

Lemma c_string_ok l : Forall (fun c => c <> 0) (c_string l).
Proof. induction l as [|c l IH]; cbn; [constructor|]. destruct (Z.eqb_spec c 0); [constructor|by constructor]. Qed.

Lemma deref_nil l : Forall (fun c => c <> 0) l -> (deref l =? 0) = true -> l = [].
Proof. intros Hl H. destruct Hl; [done|]. cbn in H. breflect. done. Qed.

Lemma kl_streq_eq a b : Forall (fun c => c <> 0) a -> Forall (fun c => c <> 0) b -> kl_streq a b = true -> a = b.
Proof.
  intros Ha. revert b. induction Ha as [|x a Hx Ha IH]; intros b Hb.
  - cbn. destruct Hb as [|y b Hy Hb]; [done|]. cbn. destruct (Z.eqb_spec 0 y); [congruence|done].
  - destruct Hb as [|y b Hy Hb]; cbn; rewrite (proj2 (Z.eqb_neq x 0) Hx); [done|].
    destruct (Z.eqb_spec x y) as [->|]; [|done]. cbn. intros ?%IH; congruence.
Qed.

Lemma kl_streq_refl a : kl_streq a a = true.
Proof. induction a as [|x a IH]; cbn; [done|]. rewrite Z.eqb_refl. cbn. by destruct (x =? 0). Qed.

(** ** The invariant *)

(** The documented behaviour of the clock, which does not reach the end of its 64-bit range. *)
Class PoolEnvLaws (E : Type) `{PoolEnv E} := {
  env_time : E -> Z;
  env_clock_law : forall e, env_time e <= (env_clock e).1 <= env_time (env_clock e).2 /\ 0 <= (env_clock e).1 < UINT64_MAX;
  env_realloc_law : forall e n, env_time e <= env_time (env_realloc e n).2;
  peek_law : forall e sp h, env_time e <= env_time (peek e sp h).2;
  others_law : forall c ud e, env_time e <= env_time (others c ud e).2
}.

Definition occupied (e : KlHttpClientPoolEntry) : bool := kl_handle_valid (fd e).
Definition filed_under (k : key) (e : KlHttpClientPoolEntry) : bool := occupied e && bool_decide (entry_key e = k).
Definition held (c : link) (k : key) (e : KlHttpClientPoolEntry) : bool := filed_under k e && bool_decide (entry_link e = c).
Definition is_filed (c : link) (k : key) (x : event) : bool := bool_decide (x = Filed c k).
Definition is_closed (c : link) (k : key) (x : event) : bool := bool_decide (x = Closed c k).
Definition is_reused (c : link) (k : key) (x : event) : bool :=
  match x with Reused _ c' k' _ _ _ => bool_decide (c' = c) && bool_decide (k' = k) | _ => false end.

(** A connection filed under [k] may serve a request [q].  The pool stores no proxy as an empty name, so a
    connection filed under a proxy with an empty name may serve a direct request. *)
Definition serves (k : key) (q : query) : Prop :=
  q_host q = Some (k_host k) /\ q_port q = k_port k /\ q_is_tls q = k_is_tls k /\ q_tk q = mkTlsKey (k_ctx k) (k_factory k) /\
  match q_proxy_host q with
  | Some p => k_proxy_host k = p /\ k_proxy_port k = q_proxy_port q
  | None => k_proxy_host k = []
  end.

Abbreviation no_nul := (Forall (fun c : Z => c <> 0)).

Record sound_query (q : query) : Prop := {
  sq_host : forall h, q_host q = Some h -> no_nul h;
  sq_proxy : forall h, q_proxy_host q = Some h -> no_nul h
}.

Record sound_entry (e : KlHttpClientPoolEntry) : Prop := {
  se_since : 0 <= idle_since_ms e < UINT64_MAX;
  se_host : no_nul (host e);
  se_proxy : no_nul (proxy_host e)
}.

(** The timers of the heap that are the pool's are exactly those of the occupied slots that have
    one; [x] is a slot whose timer has just been taken off the heap. *)
Record tab (ctx : KlEventCtx) (l : list KlHttpClientPoolEntry) (idle : Z) (evc : option Z) (x : option nat) : Prop := {
  tab_next : 0 <= timer_next_id ctx;
  tab_ids : forall te, te ∈ timers ctx -> 0 <= id te;
  tab_timed : forall i e, l !! i = Some e -> occupied e = true -> 0 <= timer_id e -> Some i <> x ->
    is_Some evc /\ exists te, te ∈ timers ctx /\ id te = timer_id e /\ cb te = IDLE_TIMER_CB /\ user_data te = Z.of_nat i /\
      Z.min UINT64_MAX (idle_since_ms e + idle) <= deadline_ms te;
  tab_owner : forall te, te ∈ timers ctx -> cb te = IDLE_TIMER_CB ->
    exists i e, user_data te = Z.of_nat i /\ l !! i = Some e /\ occupied e = true /\ timer_id e = id te /\ Some i <> x
}.

(** Every connection filed is in a slot, was handed out once or closed once, and what was handed
    out served the request. *)
Record books (l : list KlHttpClientPoolEntry) (lg : list event) : Prop := {
  bk_fault : Fault ∉ lg;
  bk_ledger : forall c k, tally (is_filed c k) lg = tally (held c k) l + tally (is_reused c k) lg + tally (is_closed c k) lg;
  bk_hits : forall sp c k q n wb, Reused sp c k q n wb ∈ lg -> serves k q /\ k_sockets k = sp /\ n < 0 /\ wb = true
}.

(** The budget per key, which counts when a direct connection is filed with no proxy port. *)
Definition limited (strict : bool) (max : Z) (l : list KlHttpClientPoolEntry) : Prop := strict = true ->
  (forall k, tally (filed_under k) l <= max) /\ (forall e, e ∈ l -> occupied e = true -> proxy_host e = [] -> proxy_port e = 0).

Section tables.
  Implicit Types (l : list KlHttpClientPoolEntry) (e : KlHttpClientPoolEntry).

Lemma limited_insert strict max l i e e' : limited strict max l -> l !! i = Some e ->
  (occupied e' = true -> entry_key e' = entry_key e /\ occupied e = true) -> limited strict max (<[i:=e']> l).
Proof.
  intros Hl Hi He Hs. destruct (Hl Hs) as [H1 H2]. split.
  - intros k. rewrite (tally_insert _ _ _ _ _ Hi). specialize (H1 k).
    assert (filed_under k e' = true -> filed_under k e = true).
    { unfold filed_under. intros [Ho Hk]%andb_true_iff. destruct (He Ho) as [<- ->]. done. }
    destruct (filed_under k e'), (filed_under k e); try lia.
  - intros e0 Hin Ho Hp. apply list_elem_of_lookup in Hin as [j Hj]. destruct (decide (i = j)) as [<-|Hne].
    + rewrite list_lookup_insert_eq in Hj by (by eapply lookup_lt_Some). simplify_eq. destruct He as [Hk Ho']; [done|].
      injection Hk as _ _ _ _ _ Hph Hpp _. rewrite Hpp. apply (H2 e); [by eapply list_elem_of_lookup_2|done|congruence].
    + rewrite list_lookup_insert_ne in Hj by done. apply (H2 e0); [by eapply list_elem_of_lookup_2|done|done].
Qed.

Lemma timer_ids_inj ctx te te' : inv ctx -> te ∈ timers ctx -> te' ∈ timers ctx -> id te = id te' -> te = te'.
Proof.
  intros Hi Ht Ht' He. apply list_elem_of_lookup in Ht as [i Hti], Ht' as [j Htj]. pose proof (inv_ids _ Hi) as Hn.
  assert (i = j) as ->; [|congruence]. eapply (NoDup_lookup _ i j (id te) Hn); rewrite list_lookup_fmap, ?Hti, ?Htj; cbn; congruence.
Qed.

(** A timer of the pool leaves the heap: its slot is on its own. *)
Lemma tab_remove_own ctx ctx' l idle evc te : inv ctx -> tab ctx l idle evc None -> timers ctx ≡ₚ te :: timers ctx' ->
  timer_next_id ctx' = timer_next_id ctx -> cb te = IDLE_TIMER_CB ->
  exists i e, user_data te = Z.of_nat i /\ l !! i = Some e /\ occupied e = true /\ timer_id e = id te /\ tab ctx' l idle evc (Some i).
Proof.
  intros Hi [T1 T2 T3 T4] Hp Hn Hcb. assert (Hte : te ∈ timers ctx) by (rewrite Hp; by left).
  assert (Hsub : forall t, t ∈ timers ctx' -> t ∈ timers ctx) by (intros t Ht; rewrite Hp; by right).
  assert (Hnot : te ∉ timers ctx').
  { pose proof (inv_ids _ Hi) as Hd. apply NoDup_fmap_1 in Hd. rewrite Hp in Hd. by apply NoDup_cons in Hd as [? _]. }
  destruct (T4 te Hte Hcb) as (i & e & Hud & Hl & Ho & Hid & _). exists i, e. split_and!; auto. split; auto; [lia| |].
  - intros j ej Hj Hoj Htj Hx. destruct (T3 j ej Hj Hoj Htj) as (Hev & t & Ht & Htid & Htcb & Htud & Hd); [done|]. split; [done|].
    exists t. split_and!; auto. rewrite Hp in Ht. apply elem_of_cons in Ht as [->|]; [|done]. congruence || (exfalso; apply Hx; f_equal; lia).
  - intros t Ht Htcb. destruct (T4 t (Hsub t Ht) Htcb) as (j & ej & Hjud & Hj & Hoj & Hjid & _). exists j, ej. split_and!; auto.
    intros [= ->]. assert (ej = e) as -> by congruence. assert (t = te) as ->; [|done]. apply (timer_ids_inj ctx); auto. congruence.
Qed.

Lemma tab_remove_other ctx ctx' l idle evc te x : tab ctx l idle evc x -> timers ctx ≡ₚ te :: timers ctx' ->
  timer_next_id ctx' = timer_next_id ctx -> cb te <> IDLE_TIMER_CB -> tab ctx' l idle evc x.
Proof.
  intros [T1 T2 T3 T4] Hp Hn Hcb. assert (Hsub : forall t, t ∈ timers ctx' -> t ∈ timers ctx) by (intros t Ht; rewrite Hp; by right).
  split; auto; [lia|]. intros i e Hl Ho Ht Hx. destruct (T3 i e Hl Ho Ht Hx) as (Hev & t & Hin & Hid & Htcb & ? & ?).
  split; [done|]. exists t. split_and!; auto. rewrite Hp in Hin. by apply elem_of_cons in Hin as [->|].
Qed.

Lemma tab_add_other ctx ctx' l idle evc te x : tab ctx l idle evc x -> timers ctx' ≡ₚ te :: timers ctx ->
  id te = timer_next_id ctx -> timer_next_id ctx' = timer_next_id ctx + 1 -> cb te <> IDLE_TIMER_CB -> tab ctx' l idle evc x.
Proof.
  intros [T1 T2 T3 T4] Hp Hid Hn Hcb. split; [lia|..].
  - intros t. rewrite Hp. intros [->|]%elem_of_cons; [lia|auto].
  - intros i e Hl Ho Ht Hx. destruct (T3 i e Hl Ho Ht Hx) as (Hev & t & Hin & ?). split; [done|]. exists t. rewrite Hp. split; [by right|done].
  - intros t. rewrite Hp. intros [->|]%elem_of_cons; [done|auto].
Qed.

(** Putting [e'] in slot [i]. *)
Lemma tab_insert ctx l idle evc i e' x x' : tab ctx l idle evc x -> (i < length l)%nat ->
  (forall j, j <> i -> Some j <> x' <-> Some j <> x) ->
  (occupied e' = true -> 0 <= timer_id e' -> Some i <> x' -> is_Some evc /\ exists te, te ∈ timers ctx /\ id te = timer_id e' /\
     cb te = IDLE_TIMER_CB /\ user_data te = Z.of_nat i /\ Z.min UINT64_MAX (idle_since_ms e' + idle) <= deadline_ms te) ->
  (forall te e, te ∈ timers ctx -> l !! i = Some e -> occupied e = true -> timer_id e = id te -> Some i <> x ->
     occupied e' = true /\ timer_id e' = id te /\ Some i <> x') ->
  tab ctx (<[i:=e']> l) idle evc x'.
Proof.
  intros [T1 T2 T3 T4] Hi Hx Hnew Hold. split; auto.
  - intros j e Hj Ho Ht Hxj. destruct (decide (i = j)) as [<-|Hne].
    + rewrite list_lookup_insert_eq in Hj by done. simplify_eq. auto.
    + rewrite list_lookup_insert_ne in Hj by done. apply (T3 j e); auto. by apply Hx.
  - intros te Hte Hcb. destruct (T4 te Hte Hcb) as (j & e & Hud & Hj & Ho & Hid & Hxj). exists j. destruct (decide (i = j)) as [<-|Hne].
    + exists e'. rewrite list_lookup_insert_eq by done. destruct (Hold te e) as (? & ? & ?); auto.
    + exists e. rewrite list_lookup_insert_ne by done. split_and!; auto. by apply Hx.
Qed.

(** A new timer of the pool, for the slot [i]. *)
Lemma tab_add_own ctx ctx' l idle evc i e te : tab ctx l idle evc None -> l !! i = Some e -> occupied e = true -> timer_id e = -1 ->
  is_Some evc -> timers ctx' ≡ₚ te :: timers ctx -> timer_next_id ctx' = timer_next_id ctx + 1 -> id te = timer_next_id ctx ->
  cb te = IDLE_TIMER_CB -> user_data te = Z.of_nat i -> Z.min UINT64_MAX (idle_since_ms e + idle) <= deadline_ms te ->
  tab ctx' (<[i:=set_timer_id (id te) e]> l) idle evc None.
Proof.
  intros [T1 T2 T3 T4] Hi Ho Hneg Hev Hp Hn Hid Hcb Hud Hd. pose proof (lookup_lt_Some _ _ _ Hi) as Hlt. split; [lia|..].
  - intros t. rewrite Hp. intros [->|]%elem_of_cons; [lia|auto].
  - intros j ej Hj Hoj Htj _. split; [done|]. destruct (decide (i = j)) as [<-|Hne].
    + rewrite list_lookup_insert_eq in Hj by done. simplify_eq. exists te. rewrite Hp. split_and!; auto. by left.
    + rewrite list_lookup_insert_ne in Hj by done. destruct (T3 j ej Hj Hoj Htj) as (_ & t & Ht & ?); [done|].
      exists t. rewrite Hp. split; [by right|done].
  - intros t. rewrite Hp. intros [->|Ht]%elem_of_cons Htcb.
    + exists i, (set_timer_id (id te) e). rewrite list_lookup_insert_eq by done. auto.
    + destruct (T4 t Ht Htcb) as (j & ej & ? & Hj & ? & Hjid & _). exists j, ej. specialize (T2 t Ht).
      rewrite list_lookup_insert_ne by (intros ->; assert (ej = e) by congruence; subst; lia). auto.
Qed.

Lemma limited_fill strict max l i e e' : limited strict max l -> l !! i = Some e -> occupied e = false ->
  (strict = true -> tally (filed_under (entry_key e')) l < max) -> (strict = true -> proxy_host e' = [] -> proxy_port e' = 0) ->
  limited strict max (<[i:=e']> l).
Proof.
  intros Hl Hi Ho Hroom Hp Hs. destruct (Hl Hs) as [H1 H2]. split.
  - intros k. rewrite (tally_insert _ _ _ _ _ Hi). unfold filed_under at 2 3. rewrite Ho. cbn. specialize (H1 k).
    destruct (occupied e'); cbn; [|lia]. case_bool_decide as Hk; [|lia]. specialize (Hroom Hs). rewrite Hk in Hroom. lia.
  - intros e0 [j Hj]%list_elem_of_lookup Ho0. destruct (decide (i = j)) as [<-|Hne].
    + rewrite list_lookup_insert_eq in Hj by (by eapply lookup_lt_Some). simplify_eq. auto.
    + rewrite list_lookup_insert_ne in Hj by done. apply H2; [by eapply list_elem_of_lookup_2|done].
Qed.

Lemma held_value c k e : held c k e = true <-> occupied e = true /\ entry_key e = k /\ entry_link e = c.
Proof. unfold held, filed_under. rewrite !andb_true_iff, !bool_decide_eq_true. tauto. Qed.

Lemma books_free l lg i e e' v : books l lg -> l !! i = Some e -> occupied e = true -> occupied e' = false ->
  (v = Closed (entry_link e) (entry_key e) \/
   exists sp q n, v = Reused sp (entry_link e) (entry_key e) q n true /\ serves (entry_key e) q /\ sockets e = sp /\ n < 0) ->
  books (<[i:=e']> l) (lg ++ [v]).
Proof.
  intros [B1 B2 B3] Hl Ho Ho' Hv. split.
  - rewrite not_elem_of_app, list_elem_of_singleton. split; [done|]. destruct Hv as [->|(? & ? & ? & -> & _)]; done.
  - intros c k. rewrite !tally_app, (tally_insert _ _ _ _ _ Hl), (B2 c k). cbn [tally].
    assert (Hh' : held c k e' = false) by (unfold held, filed_under; by rewrite Ho'). rewrite Hh'.
    assert (Hh : held c k e = bool_decide (entry_link e = c) && bool_decide (entry_key e = k)).
    { unfold held, filed_under. rewrite Ho. cbn. apply andb_comm. }
    rewrite Hh. destruct Hv as [->|(sp & q & n & -> & _)]; unfold is_filed, is_closed, is_reused.
    + rewrite (bool_decide_eq_false_2 (Closed _ _ = Filed _ _)) by done.
      repeat case_bool_decide; cbn; try congruence; lia.
    + rewrite (bool_decide_eq_false_2 (Reused _ _ _ _ _ _ = Filed _ _)), (bool_decide_eq_false_2 (Reused _ _ _ _ _ _ = Closed _ _)) by done.
      destruct (bool_decide (entry_link e = c) && bool_decide (entry_key e = k)); lia.
  - intros sp c k q n wb. rewrite elem_of_app, list_elem_of_singleton. intros [|Hx]; [by eapply B3|].
    destruct Hv as [->|(sp' & q' & n' & -> & ? & ? & ?)]; [done|]. by simplify_eq.
Qed.

Lemma books_fill l lg i e e' : books l lg -> l !! i = Some e -> occupied e = false -> occupied e' = true ->
  books (<[i:=e']> l) (lg ++ [Filed (entry_link e') (entry_key e')]).
Proof.
  intros [B1 B2 B3] Hl Ho Ho'. split.
  - rewrite not_elem_of_app, list_elem_of_singleton. done.
  - intros c k. rewrite !tally_app, (tally_insert _ _ _ _ _ Hl), (B2 c k). cbn [tally is_reused].
    assert (Hh : held c k e = false) by (unfold held, filed_under; by rewrite Ho). rewrite Hh.
    unfold held, filed_under, is_filed, is_closed. rewrite Ho', (bool_decide_eq_false_2 (Filed _ _ = Closed _ _)) by done.
    repeat case_bool_decide; cbn; try congruence; lia.
  - intros sp c k q n wb. rewrite elem_of_app, list_elem_of_singleton. intros [|?]; [by eapply B3|done].
Qed.

Lemma books_same l lg i e e' : books l lg -> l !! i = Some e -> occupied e' = occupied e -> entry_link e' = entry_link e ->
  entry_key e' = entry_key e -> books (<[i:=e']> l) lg.
Proof.
  intros [B1 B2 B3] Hl Ho Hc Hk. split; auto. intros c k. rewrite (tally_insert _ _ _ _ _ Hl), (B2 c k).
  replace (held c k e') with (held c k e); [lia|]. unfold held, filed_under. by rewrite Ho, Hc, Hk.
Qed.

Lemma books_dropped l lg c : books l lg -> books l (lg ++ [Dropped c]).
Proof.
  intros [B1 B2 B3]. split.
  - rewrite not_elem_of_app, list_elem_of_singleton. done.
  - intros c' k. rewrite !tally_app, (B2 c' k). cbn [tally is_reused]. unfold is_filed, is_closed. rewrite !bool_decide_eq_false_2 by done. lia.
  - intros sp c' k q n wb. rewrite elem_of_app, list_elem_of_singleton. intros [|?]; [by eapply B3|done].
Qed.

Lemma entry_matches_serves e h q : sound_entry e -> sound_query q -> q_host q = Some h -> entry_matches e h q = true ->
  occupied e = true /\ serves (entry_key e) q.
Proof.
  intros [_ S2 S3] [Q1 Q2] Hh. unfold entry_matches, occupied, serves.
  destruct (kl_handle_valid (fd e)); [|done]. destruct (Z.eqb_spec (port e) (q_port q)); [|done].
  destruct (Z.eqb_spec (is_tls e) (q_is_tls q)); [|done]. destruct (kl_streq (host e) h) eqn:Es; [|done]. cbn.
  apply kl_streq_eq in Es as <-; auto. destruct (Z.eqb_spec (tls_ctx e) (key_ctx (q_tk q))) as [->|]; [|done].
  destruct (Z.eqb_spec (tls_factory e) (key_factory (q_tk q))) as [->|]; [|done]. cbn. intros Hp.
  split; [done|]. split_and!; auto; [by destruct (q_tk q)|]. destruct (q_proxy_host q) as [ph|].
  - apply andb_true_iff in Hp as [Hpp Hph]. breflect. apply kl_streq_eq in Hph; auto.
  - by apply deref_nil.
Qed.

Lemma entry_matches_own e h q : q_host q = Some h -> occupied e = true ->
  entry_key e = entry_key (fill (sockets e) h q (mkConn 0 0 false) 0) -> entry_matches e h q = true.
Proof.
  unfold entry_matches. intros Hh Ho [= -> -> -> -> -> Hph Hpp]. unfold occupied in Ho. rewrite Ho, !Z.eqb_refl, kl_streq_refl. cbn.
  destruct (q_proxy_host q) as [ph|]; cbn in *; rewrite ?Hph, ?Hpp; cbn; [|done]. by rewrite Z.eqb_refl, kl_streq_refl.
Qed.

(** The scan for the longest idle of the selected entries. *)
Lemma scan_oldest_spec sel l : forall i n o t, exists o', scan_oldest sel i l n o t = (n + tally sel l, o') /\
  ((o' = o /\ forall e, e ∈ l -> sel e = true -> t <= idle_since_ms e) \/
   exists j e, o' = Some (i + j)%nat /\ l !! j = Some e /\ sel e = true /\ idle_since_ms e < t /\
     forall e', e' ∈ l -> sel e' = true -> idle_since_ms e <= idle_since_ms e').
Proof.
  induction l as [|e l IH]; intros i n o t; cbn [scan_oldest tally].
  { exists o. split; [by rewrite Z.add_0_r|]. left. split; [done|]. intros e He. by apply not_elem_of_nil in He. }
  destruct (sel e) eqn:Es; [destruct (Z.ltb_spec (idle_since_ms e) t)|].
  - destruct (IH (S i) (n + 1) (Some i) (idle_since_ms e)) as (o' & -> & Ho). exists o'. split; [f_equal; lia|]. right.
    destruct Ho as [[-> Hle]|(j & e' & -> & Hj & Hs & Hlt & Hle)].
    + exists 0%nat, e. rewrite Nat.add_0_r. split_and!; auto. intros e' [->|He']%elem_of_cons ?; [lia|auto].
    + exists (S j), e'. split_and!; auto; [lia|]. intros e2 [->|He2]%elem_of_cons ?; [lia|auto].
  - destruct (IH (S i) (n + 1) o t) as (o' & -> & Ho). exists o'. split; [f_equal; lia|].
    destruct Ho as [[-> Hle]|(j & e' & -> & Hj & Hs & Hlt & Hle)]; [left; split; [done|]|right; exists (S j), e'; split_and!; auto].
    all: intros e2 [->|He2]%elem_of_cons ?; [lia|auto].
  - destruct (IH (S i) n o t) as (o' & -> & Ho). exists o'. split; [f_equal; lia|].
    destruct Ho as [[-> Hle]|(j & e' & -> & Hj & Hs & Hlt & Hle)]; [left; split; [done|]|right; exists (S j), e'; split_and!; auto].
    all: intros e2 [->|He2]%elem_of_cons ?; [congruence|auto].
Qed.

Lemma find_free_spec l i :
  match find_free i l with
  | Some j => exists k e, j = (i + k)%nat /\ l !! k = Some e /\ occupied e = false
  | None => forall e, e ∈ l -> occupied e = true
  end.
Proof.
  revert i. induction l as [|e l IH]; intros i; cbn [find_free]; [intros e He; by apply not_elem_of_nil in He|].
  destruct (kl_handle_valid (fd e)) eqn:Eo; cbn.
  - specialize (IH (S i)). destruct (find_free (S i) l) as [j|].
    + destruct IH as (k & e' & -> & Hk & He'). exists (S k), e'. split_and!; auto.
    + intros e' [->|He']%elem_of_cons; [done|auto].
  - exists 0%nat, e. rewrite Nat.add_0_r. auto.
Qed.

End tables.

Section proofs.
  Context {E : Type} `{PE : PoolEnv E} `{L : !PoolEnvLaws E}.
  Implicit Types (y : @sys E) (ctx : KlEventCtx).

(** ** Time *)

#[local] Abbreviation on_time := (timely (fun y : @sys E => env_time (env y))).

Lemma env_on_slot i f y : env (on_slot i f y) = env y.
Proof. unfold on_slot. by destruct (slot y i). Qed.

Lemma timely_entry {A} i (a : A) k : (forall e, on_time (k e)) -> on_time (with_entry i a k).
Proof. intros Hk. apply timely_bind; [done|]. intros [e|]; [done|]. cbn. split; [lia|done]. Qed.

Lemma timely_close i : on_time (entry_close i).
Proof. apply timely_entry. intros e. cbn. split; [|done]. intros y. rewrite env_on_slot. case_if; cbn; lia. Qed.

Lemma timely_cancel_idle e : on_time (cancel_idle e).
Proof. apply timely_bind; [done|]. intros b. case_if; [by intros ?|done]. Qed.

Lemma timely_act f : (forall y, env (f y) = env y) -> on_time (act f).
Proof. intros H. cbn. split; [|done]. intros y. rewrite H. lia. Qed.

Lemma timely_evict b i : on_time (evict_entry b i).
Proof.
  apply timely_entry. intros e. apply timely_bind; [apply timely_cancel_idle|]. intros _.
  apply timely_bind; [apply timely_close|]. intros _. apply timely_act. intros y. cbn. apply env_on_slot.
Qed.

Lemma timely_table : on_time table.
Proof. apply timely_bind; [done|]. intros y. apply timely_bind; [|done]. case_if; [by apply timely_act|done]. Qed.

Lemma timely_clock : on_time kl_monotonic_ms.
Proof.
  apply timely_bind; [done|]. intros now. apply timely_bind; [|done]. cbn. split; [|done]. intros y. cbn.
  pose proof (env_clock_law (env y)). lia.
Qed.

Lemma timely_acquire ix sp h q : on_time (acquire_loop ix sp h q).
Proof.
  induction ix as [|i ix IH]; [done|]. apply timely_entry. intros e. case_if; [done|]. case_if; [done|].
  apply timely_bind; [done|]. intros [n wb]. apply timely_bind; [cbn; split; [intros y; apply peek_law|done]|]. intros _.
  case_if; (apply timely_bind; [|intros _]); [apply timely_evict|done|apply timely_cancel_idle|].
  apply timely_bind; [|done]. apply timely_act. intros y. cbn. by rewrite env_on_slot.
Qed.

Lemma timely_pool_acquire sp q : on_time (pool_acquire sp q).
Proof. unfold pool_acquire. destruct (q_host q); [|done]. apply timely_bind; [done|]. intros ix. apply timely_acquire. Qed.

Lemma timely_discard sp c : on_time (kl_http_client_pool_discard_sp sp c).
Proof. apply timely_bind; [|done]. case_if; [by apply timely_act|done]. Qed.

Lemma timely_populate i sp h q c : on_time (populate i sp h q c).
Proof.
  apply timely_bind; [apply timely_clock|]. intros now. apply timely_bind; [apply timely_act; intros y; by rewrite env_on_slot|]. intros _.
  apply timely_bind; [done|]. intros p. apply timely_bind; [|intros _; by apply timely_act].
  destruct (ev_ctx p); [|done]. intros t. apply timely_act. intros y. apply env_on_slot.
Qed.

Lemma timely_release sp c q : on_time (pool_release sp c q).
Proof.
  unfold pool_release. destruct (q_host q) as [h|]; [|done]. case_if; [done|].
  do 2 (case_if; [apply timely_bind; [by apply timely_act|intros _; apply timely_bind; [apply timely_discard|done]]|]).
  apply timely_bind; [|intros _; apply timely_bind].
  - apply timely_bind; [apply timely_table|]. intros l. apply timely_bind; [done|]. intros max.
    destruct (scan_oldest _ _ _ _ _ _) as [n [i|]]; [|done]. case_if; [apply timely_evict|done].
  - apply timely_bind; [apply timely_table|]. intros l. destruct (find_free 0 l); [done|]. destruct (scan_oldest _ _ _ _ _ _).2; [|done].
    apply timely_bind; [apply timely_evict|done].
  - intros [i|]; apply timely_bind; auto using timely_populate, timely_discard; done.
Qed.

Lemma timely_free : on_time kl_http_client_pool_free.
Proof.
  apply timely_bind; [done|]. intros p. destruct (entries p); [|done]. apply timely_bind; [|intros _; by apply timely_act].
  induction (slots_of p) as [|i ix IH]; [done|]. apply timely_bind; [|done]. apply timely_entry. intros e. case_if; [|done].
  apply timely_bind; [apply timely_cancel_idle|intros _; apply timely_close].
Qed.

Lemma timely_expire : on_time kl_http_client_pool_evict_expired.
Proof.
  apply timely_bind; [done|]. intros p. destruct (entries p); [|done]. apply timely_bind; [apply timely_clock|]. intros now.
  generalize 0. induction (slots_of p) as [|i ix IH]; intros n; [done|]. apply timely_entry. intros e. case_if; [done|]. case_if; [|done].
  apply timely_bind; [apply timely_evict|done].
Qed.

Lemma timely_calls xs : on_time (calls_prog xs).
Proof.
  induction xs as [|x xs IH]; [done|]. apply timely_bind; [|done]. unfold call_prog. destruct x.
  1-8: apply timely_bind; [|done].
  all: auto using timely_free, timely_expire, timely_pool_acquire, timely_release.
  all: try (apply timely_bind; [done|]; intros sp; auto using timely_pool_acquire, timely_release, timely_discard).
  - apply timely_pool_acquire.
  - apply timely_release.
  - case_if; [done|by intros ?].
  - case_if; [done|by intros ?].
Qed.

Lemma timely_idle i : on_time (idle_timer_cb i).
Proof.
  apply timely_entry. intros e. case_if; [|done]. apply timely_bind; [apply timely_close|]. intros _.
  apply timely_act. intros y. cbn. apply env_on_slot.
Qed.

#[global] Instance pool_timer_laws : TimerEnvLaws (@sys E).
Proof.
  refine {| time := fun y => env_time (env y) |}.
  - intros y. cbn. pose proof (env_clock_law (env y)). lia.
  - intros y n. apply env_realloc_law.
  - intros c ud y. cbn [callback pool_timer_env]. case_if; cbn [fst snd].
    + split; [lia|apply timely_idle].
    + split; [apply others_law|apply timely_calls].
Qed.

(** ** What every operation preserves *)

Context (strict : bool).

Definition lst (y : @sys E) : list KlHttpClientPoolEntry := default [] (entries (pool y)).

(** [x] is a slot whose timer is off the heap, [d] what [active] is behind by, if it counts. *)
Record okay (x : option nat) (d : option Z) ctx y : Prop := {
  ok_inv : inv ctx;
  ok_cap : length (lst y) = Z.to_nat (capacity (pool y));
  ok_room : 0 <= capacity (pool y);
  ok_max : 0 < max_per_host (pool y);
  ok_idle : 0 <= idle_ms (pool y) <= UINT64_MAX;
  ok_active : forall n, d = Some n -> active (pool y) + n = tally occupied (lst y);
  ok_sound : forall e, e ∈ lst y -> occupied e = true -> sound_entry e;
  ok_tab : tab ctx (lst y) (idle_ms (pool y)) (ev_ctx (pool y)) x;
  ok_books : books (lst y) (log y);
  ok_limited : limited strict (max_per_host (pool y)) (lst y)
}.

(** The same pool: an operation on the table keeps its configuration. *)
Record stays y y' : Prop := {
  st_cap : capacity (pool y') = capacity (pool y);
  st_max : max_per_host (pool y') = max_per_host (pool y);
  st_idle : idle_ms (pool y') = idle_ms (pool y);
  st_ctx : ev_ctx (pool y') = ev_ctx (pool y)
}.

Lemma stays_refl y : stays y y.
Proof. by split. Qed.

Lemma stays_trans y1 y2 y3 : stays y1 y2 -> stays y2 y3 -> stays y1 y3.
Proof. intros [] []. split; congruence. Qed.

Lemma slot_lst y i : slot y i = lst y !! i.
Proof. unfold slot, lst. by destruct (entries (pool y)). Qed.

Lemma lst_on_slot y i e f : lst y !! i = Some e ->
  on_slot i f y = mkSys (set_entries (Some (<[i := f e]> (lst y))) (pool y)) (env y) (log y).
Proof.
  intros Hi. unfold on_slot. rewrite slot_lst, Hi. unfold on_pool, lst in *. destruct (entries (pool y)) as [l|]; [done|].
  by destruct i.
Qed.

(** Slot [i] gets [e'], with at most one event. *)
Definition put (i : nat) (e' : KlHttpClientPoolEntry) (n : Z) (evs : list event) (y : @sys E) : @sys E :=
  mkSys (add_active n (set_entries (Some (<[i := e']> (lst y))) (pool y))) (env y) (log y ++ evs).

Lemma put_stays i e' n evs y : stays y (put i e' n evs y).
Proof. by split. Qed.

Lemma put_lookup i e e' n evs y : lst y !! i = Some e -> lst (put i e' n evs y) !! i = Some e'.
Proof. intros Hi. cbn. apply list_lookup_insert_eq. by eapply lookup_lt_Some. Qed.

Lemma okay_put x d x' d' ctx ctx' y i e e' n evs :
  okay x d ctx y -> lst y !! i = Some e -> inv ctx' -> (occupied e' = true -> sound_entry e') ->
  (forall m', d' = Some m' -> exists m, d = Some m /\ n + m' = m + (if occupied e' then 1 else 0) - (if occupied e then 1 else 0)) ->
  tab ctx' (<[i:=e']> (lst y)) (idle_ms (pool y)) (ev_ctx (pool y)) x' ->
  books (<[i:=e']> (lst y)) (log y ++ evs) -> limited strict (max_per_host (pool y)) (<[i:=e']> (lst y)) ->
  okay x' d' ctx' (put i e' n evs y).
Proof.
  intros [O1 O2 O10 O3 O4 O5 O6 O7 O8 O9] Hi Hinv Hs Hd Ht Hb Hl. split; auto.
  - cbn. by rewrite length_insert.
  - intros m' Hm'. destruct (Hd m' Hm') as (m & Hm & Hn). cbn. rewrite (tally_insert _ _ _ _ _ Hi). specialize (O5 m Hm). lia.
  - cbn. intros e0 [j Hj]%list_elem_of_lookup Ho. destruct (decide (i = j)) as [<-|Hne].
    + rewrite list_lookup_insert_eq in Hj by (by eapply lookup_lt_Some). simplify_eq. auto.
    + rewrite list_lookup_insert_ne in Hj by done. apply O6; [by eapply list_elem_of_lookup_2|done].
Qed.

(** A slot is emptied: its connection was closed or handed out. *)
Lemma okay_free d d' ctx y i e e' n v : okay (Some i) d ctx y -> lst y !! i = Some e -> occupied e = true -> occupied e' = false ->
  (d' = None \/ d' = d /\ n = -1) ->
  (v = Closed (entry_link e) (entry_key e) \/
   exists sp q m, v = Reused sp (entry_link e) (entry_key e) q m true /\ serves (entry_key e) q /\ sockets e = sp /\ m < 0) ->
  okay None d' ctx (put i e' n [v] y).
Proof.
  intros H Hi Ho Ho' Hd Hv. apply (okay_put (Some i) d None d' ctx ctx y i e e'); auto; [apply H|congruence|..].
  - intros m' Hm'. destruct Hd as [->|[-> ->]]; [done|]. exists m'. rewrite Ho, Ho'. split; [done|lia].
  - apply (tab_insert _ _ _ _ _ _ (Some i)); [apply H|by eapply lookup_lt_Some| |congruence|by intros]. naive_solver.
  - eapply books_free; eauto. apply H.
  - eapply limited_insert; [apply H|done|congruence].
Qed.

Lemma okay_retab x x' d ctx ctx' y : okay x d ctx y -> inv ctx' -> tab ctx' (lst y) (idle_ms (pool y)) (ev_ctx (pool y)) x' -> okay x' d ctx' y.
Proof. intros [] ? ?. by split. Qed.

(** What is not the table may change. *)
Lemma okay_outside x d ctx y y' : okay x d ctx y -> entries (pool y') = entries (pool y) -> active (pool y') = active (pool y) ->
  stays y y' -> log y' = log y \/ (exists c, log y' = log y ++ [Dropped c]) -> okay x d ctx y'.
Proof.
  intros [O1 O2 O10 O3 O4 O5 O6 O7 O8 O9] He Ha [S1 S2 S3 S4] Hl. assert (Hy : lst y' = lst y) by (unfold lst; by rewrite He).
  split; rewrite ?Hy, ?S1, ?S2, ?S3, ?S4, ?Ha; auto. destruct Hl as [->|[c ->]]; [done|by apply books_dropped].
Qed.

(** ** Programs *)

Lemma wp_look {A B} (f : @sys E -> A) (k : A -> cbprog sys B) Q ctx y : wp (k (f y)) Q ctx y -> wp (look f ≫= k) Q ctx y.
Proof. done. Qed.

Lemma wp_act {A} f (k : unit -> cbprog (@sys E) A) Q ctx y : wp (k tt) Q ctx (f y) -> wp (act f ≫= k) Q ctx y.
Proof. done. Qed.

Lemma wp_entry {A} i e (a : A) k Q ctx y : lst y !! i = Some e -> wp (k e) Q ctx y -> wp (with_entry i a k) Q ctx y.
Proof. intros Hi H. apply wp_look. by rewrite slot_lst, Hi. Qed.

Lemma cancel_idle_spec d ctx y i e : okay None d ctx y -> lst y !! i = Some e -> occupied e = true ->
  wp (cancel_idle e) (fun _ ctx' y' => y' = y /\ okay (Some i) d ctx' y) ctx y.
Proof.
  intros H Hi Ho. pose proof (ok_tab _ _ _ _ H) as Ht. pose proof (ok_inv _ _ _ _ H) as Hinv. apply wp_look.
  destruct (Z.leb_spec 0 (timer_id e)) as [Hid|Hid].
  - destruct (tab_timed _ _ _ _ _ Ht i e Hi Ho Hid) as (Hev & te & Hte & Htid & Htcb & Htud & _); [done|].
    rewrite bool_decide_eq_true_2 by done. cbn [andb]. destruct (kl_timer_cancel ctx (timer_id e)) as [[rc ctx1] ev] eqn:Ec.
    eapply wp_cancel; [done|]. destruct (cancel_spec _ _ _ _ _ Hinv Ec) as [(_ & _ & _ & Hno)|(_ & Hi1 & _ & Hn & te' & Htid' & Hp)].
    { rewrite Forall_forall in Hno. by destruct (Hno te Hte). }
    assert (te' = te) as -> by (apply (timer_ids_inj ctx); auto; [rewrite Hp; by left|congruence]).
    destruct (tab_remove_own _ _ _ _ _ _ Hinv Ht Hp Hn Htcb) as (j & e' & Hj & Hlj & _ & _ & Htab).
    assert (j = i) as -> by lia. split; [done|]. by apply (okay_retab None _ _ ctx).
  - rewrite andb_false_r. split; [done|]. apply (okay_retab None _ _ ctx); auto. destruct Ht as [T1 T2 T3 T4]. split; auto.
    intros te Hte Hcb. destruct (T4 te Hte Hcb) as (j & ej & ? & Hj & ? & Hjid & _). exists j, ej. split_and!; auto.
    intros [= ->]. assert (ej = e) as -> by congruence. specialize (T2 te Hte). lia.
Qed.

Lemma close_state i e g n y : lst y !! i = Some e ->
  on_pool (add_active n) (on_slot i g (on_slot i close_entry (emit (Closed (entry_link e) (entry_key e)) y))) =
  put i (g (close_entry e)) n [Closed (entry_link e) (entry_key e)] y.
Proof.
  intros Hi. rewrite (lst_on_slot (emit _ y) i e) by done. erewrite lst_on_slot by (cbn; apply list_lookup_insert_eq; by eapply lookup_lt_Some).
  unfold put, on_pool, lst. cbn. by rewrite list_insert_insert_eq.
Qed.

Lemma wp_close {A} i e (k : unit -> cbprog (@sys E) A) Q ctx y : lst y !! i = Some e -> occupied e = true ->
  wp (k tt) Q ctx (on_slot i close_entry (emit (Closed (entry_link e) (entry_key e)) y)) -> wp (entry_close i ≫= k) Q ctx y.
Proof.
  intros Hi Ho H. apply wp_bind. eapply wp_entry; [done|]. unfold occupied in Ho. by rewrite Ho.
Qed.

Lemma evict_spec b d ctx y i e : okay None d ctx y -> lst y !! i = Some e -> occupied e = true ->
  wp (evict_entry b i) (fun _ ctx' y' => okay None d ctx' y' /\ exists e', occupied e' = false /\
    y' = put i e' (-1) [Closed (entry_link e) (entry_key e)] y) ctx y.
Proof.
  intros H Hi Ho. eapply wp_entry; [done|]. apply wp_bind. eapply wp_mono; [by eapply cancel_idle_spec|].
  intros _ ctx' y' [-> H']. eapply wp_close; [done|done|]. unfold wp. cbn [run_callback act]. rewrite (close_state _ _ _ _ _ Hi).
  split; [|eexists; split; [|done]; by destruct b]. eapply okay_free; eauto; by destruct b.
Qed.

Lemma idle_spec ctx y i e : okay (Some i) (Some 0) ctx y -> lst y !! i = Some e -> occupied e = true ->
  wp (idle_timer_cb i) (fun _ ctx' y' => okay None (Some 0) ctx' y') ctx y.
Proof.
  intros H Hi Ho. eapply wp_entry; [done|]. unfold occupied in Ho. rewrite Ho. eapply wp_close; [done|done|].
  unfold wp. cbn [run_callback act]. rewrite (close_state _ _ _ _ _ Hi). eapply okay_free; eauto.
Qed.

(** Slots stay or are emptied. *)
Definition thins (l l' : list KlHttpClientPoolEntry) : Prop :=
  length l' = length l /\ forall i e', l' !! i = Some e' -> l !! i = Some e' \/ occupied e' = false.

Lemma thins_refl l : thins l l.
Proof. split; auto. Qed.

Lemma thins_trans l1 l2 l3 : thins l1 l2 -> thins l2 l3 -> thins l1 l3.
Proof. intros [H1 H2] [H3 H4]. split; [congruence|]. intros i e' Hi. destruct (H4 i e' Hi); auto. Qed.

Lemma thins_put i e' n evs y : occupied e' = false -> thins (lst y) (lst (put i e' n evs y)).
Proof.
  intros Ho. split; cbn; [by rewrite length_insert|]. intros j ej Hj. destruct (decide (i = j)) as [<-|Hne].
  - pose proof (lookup_lt_Some _ _ _ Hj) as Hlt. rewrite length_insert in Hlt. rewrite list_lookup_insert_eq in Hj by done. right. by simplify_eq.
  - rewrite list_lookup_insert_ne in Hj by done. by left.
Qed.

Definition wanted (sp : Z) (h : list Z) (q : query) (e : KlHttpClientPoolEntry) : bool := (sockets e =? sp) && entry_matches e h q.

Lemma wanted_occupied sp h q e : occupied e = false -> wanted sp h q e = false.
Proof. unfold wanted, entry_matches, occupied. intros ->. cbn. apply andb_false_r. Qed.

Lemma set_env_okay x d ctx y e : okay x d ctx y -> okay x d ctx (set_env e y).
Proof. intros H. apply (okay_outside _ _ _ y); auto. by split. Qed.

Lemma take_state i e sp q n y : lst y !! i = Some e ->
  on_pool (add_active (-1)) (on_slot i take_entry (emit (Reused sp (entry_link e) (entry_key e) q n true) y)) =
  put i (take_entry e) (-1) [Reused sp (entry_link e) (entry_key e) q n true] y.
Proof. intros Hi. by rewrite (lst_on_slot (emit _ y) i e). Qed.

(** A miss means that no slot seen holds a connection for the request any more. *)
Lemma pool_acquire_loop_spec ix sp h q : sound_query q -> q_host q = Some h -> forall ctx y,
  okay None (Some 0) ctx y -> Forall (fun i => i < length (lst y))%nat ix ->
  wp (acquire_loop ix sp h q) (fun r ctx' y' => okay None (Some 0) ctx' y' /\ stays y y' /\ thins (lst y) (lst y') /\
    (r.1 = 0 \/ r.1 = 1 /\ forall i e, i ∈ ix -> lst y' !! i = Some e -> wanted sp h q e = false)) ctx y.
Proof.
  intros Hq Hh. induction ix as [|i ix IH]; intros ctx y H Hix.
  { split_and!; auto using stays_refl, thins_refl. right. split; [done|]. intros i e Hi. by apply not_elem_of_nil in Hi. }
  apply Forall_cons in Hix as [Hlt Hix]. destruct (lookup_lt_is_Some_2 (lst y) i Hlt) as [e He]. eapply wp_entry; [done|].
  assert (Hskip : wanted sp h q e = false -> wp (acquire_loop ix sp h q) (fun r ctx' y' => okay None (Some 0) ctx' y' /\ stays y y' /\
    thins (lst y) (lst y') /\ (r.1 = 0 \/ r.1 = 1 /\ forall j e, j ∈ i :: ix -> lst y' !! j = Some e -> wanted sp h q e = false)) ctx y).
  { intros Hw. eapply wp_mono; [by apply IH|]. cbn beta. intros r ctx' y' (H1 & H2 & H3 & H4). split_and!; auto.
    destruct H4 as [|[? H4]]; [by left|]. right. split; [done|]. intros j e' [->|Hj]%elem_of_cons He'; [|by eapply H4].
    destruct (proj2 H3 i e' He'); [congruence|by apply wanted_occupied]. }
  destruct (entry_matches e h q) eqn:Em; cbn [negb]; [|apply Hskip; unfold wanted; by rewrite Em, andb_false_r].
  destruct (Z.eqb_spec (sockets e) sp) as [Hsp|Hsp]; cbn [negb]; [|apply Hskip; unfold wanted; by rewrite (proj2 (Z.eqb_neq _ _) Hsp)].
  assert (Hin : e ∈ lst y) by (by eapply list_elem_of_lookup_2).
  assert (Ho : occupied e = true). { destruct (occupied e) eqn:Eo; [done|]. apply (wanted_occupied sp h q) in Eo. unfold wanted in Eo. by rewrite Em, Hsp, Z.eqb_refl in Eo. }
  destruct (entry_matches_serves e h q (ok_sound _ _ _ _ H e Hin Ho) Hq Hh Em) as [_ Hserves].
  apply wp_look. apply wp_act. set (y1 := set_env _ y). destruct (peek (env y) (sockets e) (fd e)) as [[n wb] e1] eqn:Ep. cbn [fst].
  assert (H1 : okay None (Some 0) ctx y1) by (by apply set_env_okay).
  destruct ((0 <=? n) || negb wb) eqn:Eb; apply wp_bind.
  - eapply wp_mono; [by apply (evict_spec _ (Some 0) _ _ i e)|]. cbn beta. intros _ ctx2 y2 [H2 (e' & Ho' & ->)].
    eapply wp_mono; [apply IH; [done|cbn; by rewrite length_insert]|]. cbn beta. intros r ctx3 y3 (H3 & Hst & Hth & Hr). split_and!; auto.
    + by eapply stays_trans; [|exact Hst].
    + eapply thins_trans; [|done]. by apply (thins_put i e' (-1) [Closed (entry_link e) (entry_key e)] y1).
    + destruct Hr as [|[? Hr]]; [by left|]. right. split; [done|]. intros j ej [->|Hj]%elem_of_cons Hej; [|by eapply Hr].
      apply wanted_occupied. destruct (proj2 Hth i ej Hej) as [Hx|]; [|done]. rewrite (put_lookup _ e) in Hx by done. congruence.
  - apply orb_false_iff in Eb as [Hn Hwb]. breflect. assert (wb = true) as -> by (by destruct wb).
    eapply wp_mono; [by apply (cancel_idle_spec (Some 0) _ y1 i e)|]. cbn beta. intros _ ctx2 y2 [-> H2]. apply wp_act.
    rewrite take_state by done. split_and!; [|done|by apply (thins_put i (take_entry e) (-1) [Reused sp (entry_link e) (entry_key e) q n true] y1)|by left]. eapply okay_free; eauto. right. exists sp, q, n. auto.
Qed.

Lemma wp_table {A} (k : list KlHttpClientPoolEntry -> cbprog (@sys E) A) Q x d ctx y : okay x d ctx y ->
  wp (k (lst y)) Q ctx y -> wp (table ≫= k) Q ctx y.
Proof.
  intros H Hk. apply wp_bind. apply wp_look. pose proof (ok_cap _ _ _ _ H) as Hc. unfold lst in *. rewrite Hc, Nat.ltb_irrefl.
  unfold wp. cbn. by rewrite <- Hc, firstn_all.
Qed.

Lemma discard_spec ctx y sp c : okay None (Some 0) ctx y ->
  wp (kl_http_client_pool_discard_sp sp c) (fun _ ctx' y' => okay None (Some 0) ctx' y' /\ stays y y') ctx y.
Proof.
  intros H. apply wp_bind. case_if; [|split; [done|apply stays_refl]]. split; [|by split].
  apply (okay_outside _ _ _ y); auto; [by split|]. right. by eexists.
Qed.

Definition query_key (sp : Z) (h : list Z) (q : query) : key := entry_key (fill sp h q no_conn 0).

Definition proper (q : query) : Prop := strict = true -> q_proxy_host q <> Some [].

Lemma wanted_key sp h q ctx y e : okay None (Some 0) ctx y -> sound_query q -> q_host q = Some h -> proper q -> strict = true ->
  e ∈ lst y -> wanted sp h q e = true -> filed_under (query_key sp h q) e = true.
Proof.
  intros H Hq Hh Hp Hs Hin [Hsp Hm]%andb_true_iff. breflect.
  assert (Ho : occupied e = true). { destruct (occupied e) eqn:Eo; [done|]. unfold entry_matches, occupied in *. by rewrite Eo in Hm. }
  destruct (entry_matches_serves e h q (ok_sound _ _ _ _ H e Hin Ho) Hq Hh Hm) as [_ (H1 & H2 & H3 & H4 & H5)].
  unfold filed_under. rewrite Ho. apply bool_decide_eq_true. unfold query_key, entry_key, fill in *. cbn in *. rewrite H4. cbn.
  assert (host e = h) as -> by congruence. rewrite H2, H3, <- Hsp. destruct (q_proxy_host q) as [p|]; cbn in *.
  - by destruct H5 as [-> ->].
  - rewrite (proj2 (ok_limited _ _ _ _ H Hs) e Hin Ho H5), H5. done.
Qed.

Lemma own_wanted sp h q e : q_host q = Some h -> filed_under (query_key sp h q) e = true -> wanted sp h q e = true.
Proof.
  intros Hh [Ho Hk%bool_decide_eq_true]%andb_true_iff. assert (Hsp : sockets e = sp) by (by injection Hk). unfold wanted.
  rewrite Hsp, Z.eqb_refl. apply entry_matches_own; [done|done|]. by rewrite Hsp.
Qed.

Lemma enforce_spec ctx y sp h q : okay None (Some 0) ctx y -> sound_query q -> q_host q = Some h -> proper q ->
  wp (enforce_max_per_host sp h q) (fun _ ctx' y' => okay None (Some 0) ctx' y' /\ stays y y' /\
    (strict = true -> tally (filed_under (query_key sp h q)) (lst y') < max_per_host (pool y'))) ctx y.
Proof.
  intros H Hq Hh Hp. eapply wp_table; [done|]. apply wp_look. change (fun e => _ && _) with (wanted sp h q).
  destruct (scan_oldest_spec (wanted sp h q) (lst y) 0 0 None UINT64_MAX) as (o & -> & Ho). rewrite Z.add_0_l.
  assert (Hle : tally (filed_under (query_key sp h q)) (lst y) <= tally (wanted sp h q) (lst y)).
  { apply tally_mono. intros e _. by apply own_wanted. }
  assert (Hsound : forall e, e ∈ lst y -> wanted sp h q e = true -> sound_entry e /\ occupied e = true).
  { intros e He Hw. assert (Hoe : occupied e = true). { destruct (occupied e) eqn:Eo; [done|]. by rewrite (wanted_occupied _ _ _ _ Eo) in Hw. }
    split; [|done]. by apply (ok_sound _ _ _ _ H). }
  pose proof (ok_max _ _ _ _ H) as Hmax. destruct Ho as [[-> Hall]|(j & e & -> & Hj & Hw & _)].
  - split_and!; auto using stays_refl. intros _. rewrite (tally_zero (wanted sp h q)) in Hle; [lia|]. intros e He.
    destruct (wanted sp h q e) eqn:Ew; [|done]. destruct (Hsound e He Ew) as [[] _]. specialize (Hall e He Ew). lia.
  - assert (Hin : e ∈ lst y) by (by eapply list_elem_of_lookup_2). cbn [Nat.add].
    destruct (Z.leb_spec (max_per_host (pool y)) (tally (wanted sp h q) (lst y))) as [Hm|Hm]; [|by split_and!; auto using stays_refl; lia].
    destruct (Hsound e Hin Hw) as [_ Hoe]. eapply wp_mono; [by apply (evict_spec _ (Some 0) _ _ j e)|].
    cbn beta. intros _ ctx' y' [H' (e' & Ho' & ->)]. split_and!; auto using put_stays. intros Hs. cbn.
    rewrite (tally_insert _ _ _ _ _ Hj), (wanted_key _ _ _ _ _ _ H Hq Hh Hp Hs Hin Hw). unfold filed_under at 2. rewrite Ho'. cbn.
    pose proof (proj1 (ok_limited _ _ _ _ H Hs) (query_key sp h q)). lia.
Qed.

Lemma find_slot_spec ctx y : okay None (Some 0) ctx y ->
  wp find_slot (fun s ctx' y' => okay None (Some 0) ctx' y' /\ stays y y' /\
    (forall k, tally (filed_under k) (lst y') <= tally (filed_under k) (lst y)) /\
    match s with Some i => exists e, lst y' !! i = Some e /\ occupied e = false | None => lst y = [] end) ctx y.
Proof.
  intros H. eapply wp_table; [done|]. pose proof (find_free_spec (lst y) 0) as Hf. destruct (find_free 0 (lst y)) as [i|].
  { destruct Hf as (k & e & -> & Hk & Ho). split_and!; auto using stays_refl; [done|]. by exists e. }
  destruct (scan_oldest_spec (fun e => kl_handle_valid (fd e)) (lst y) 0 0 None UINT64_MAX) as (o & -> & Ho). cbn [snd].
  destruct Ho as [[-> Hall]|(j & e & -> & Hj & Hw & _)].
  - split_and!; auto using stays_refl; [done|]. destruct (lst y) as [|e l] eqn:El; [done|]. exfalso.
    assert (Hin : e ∈ lst y) by (rewrite El; by left). specialize (Hf e ltac:(by left)). destruct (ok_sound _ _ _ _ H e Hin Hf) as [? _ _].
    specialize (Hall e ltac:(by left) Hf). lia.
  - apply wp_bind. eapply wp_mono; [by apply (evict_spec _ (Some 0) _ _ j e)|]. cbn beta. intros _ ctx' y' [H' (e' & Ho' & ->)].
    split_and!; auto using put_stays; [|by exists e'; split; [eapply put_lookup|]]. intros k. cbn. rewrite (tally_insert _ _ _ _ _ Hj).
    unfold filed_under at 3. rewrite Ho'. cbn. destruct (filed_under k e); lia.
Qed.

Lemma okay_count x m n ctx y : okay x (Some (m + n)) ctx y -> okay x (Some m) ctx (on_pool (add_active n) y).
Proof. intros []. split; auto. intros m' [= <-]. cbn. specialize (ok_active0 _ eq_refl). unfold lst in *. lia. Qed.

Lemma put_state i e e' evs y : lst y !! i = Some e ->
  on_slot i (fun _ => e') (mkSys (pool y) (env y) (log y ++ evs)) = put i e' 0 evs y.
Proof.
  intros Hi. rewrite (lst_on_slot _ i e) by done. unfold put, add_active, lst, set_entries. cbn. by rewrite Z.add_0_r.
Qed.

Lemma put_timer i e t y : lst y !! i = Some e -> on_slot i (set_timer_id t) y = put i (set_timer_id t e) 0 [] y.
Proof.
  intros Hi. rewrite (lst_on_slot _ i e) by done. unfold put, add_active, lst, set_entries. cbn. by rewrite Z.add_0_r, app_nil_r.
Qed.

Lemma grow_env ctx y : exists e, (timer_grow ctx y).2 = set_env e y /\ env_time (env y) <= env_time e.
Proof.
  assert (H0 : exists e, y = set_env e y /\ env_time (env y) <= env_time e) by (exists (env y); destruct y; split; [done|lia]).
  unfold timer_grow. case_if; [|done]. set (n := if _ =? 0 then _ else _). case_if; [done|].
  set (m := u64 n * _). cbn. pose proof (env_realloc_law (env y) m). destruct (env_realloc (env y) m).1; by eexists.
Qed.

(** The timer of a connection just filed. *)
Lemma pool_arm_spec ctx y i e p : okay None (Some 1) ctx y -> lst y !! i = Some e -> occupied e = true -> timer_id e = -1 ->
  is_Some (ev_ctx (pool y)) -> p = idle_ms (pool y) -> idle_since_ms e <= env_time (env y) ->
  wp (CbAdd p IDLE_TIMER_CB (Z.of_nat i) (fun t => act (on_slot i (set_timer_id t))))
    (fun _ ctx' y' => okay None (Some 1) ctx' y' /\ stays y y') ctx y.
Proof.
  intros H Hi Ho Hneg Hev -> Hsince. pose proof (ok_idle _ _ _ _ H) as Hidle. destruct (grow_env ctx y) as (e1 & Hg & Hge).
  destruct (kl_timer_add ctx (u64 (idle_ms (pool y))) IDLE_TIMER_CB (Z.of_nat i) y) as [[[rc ctx1] y1] ev] eqn:Ea.
  eapply wp_add; [done|]. pose proof (ok_inv _ _ _ _ H) as Hinv. pose proof (list_elem_of_lookup_2 _ _ _ Hi) as Hin.
  assert (Hset : forall e1 ctx1 t, inv ctx1 -> tab ctx1 (<[i:=set_timer_id t e]> (lst y)) (idle_ms (pool y)) (ev_ctx (pool y)) None ->
    wp (act (on_slot i (set_timer_id t))) (fun _ ctx' y' => okay None (Some 1) ctx' y' /\ stays y y') ctx1 (set_env e1 y)).
  { intros e2 ctx2 t Hinv2 Htab. unfold wp. cbn [run_callback act]. rewrite (put_timer i e) by done. split; [|by split].
    apply (okay_put None (Some 1) None (Some 1) ctx ctx2 (set_env e2 y) i e); auto.
    - by apply set_env_okay.
    - intros _. destruct (ok_sound _ _ _ _ H e Hin Ho) as [? ? ?]. by split.
    - intros m [= <-]. exists 1. split; [done|]. cbn. unfold occupied. cbn. destruct (kl_handle_valid (fd e)); lia.
    - rewrite app_nil_r. eapply books_same; [apply H|done|done|done|done].
    - eapply limited_insert; [apply H|done|]. intros _. split; [done|]. done. }
  destruct (add_spec _ _ _ _ _ _ _ _ _ Hinv Ea) as [(-> & -> & _ & ->)|(cap & now & _ & Hclk & -> & Hn & Hi1 & _ & Hp)].
  - rewrite Hg. apply Hset; [done|]. rewrite list_insert_id; [apply H|]. rewrite Hi. f_equal. destruct e. cbn in *. by rewrite Hneg.
  - rewrite Hg in Hclk. cbn in Hclk. injection Hclk as Hnow <-. pose proof (env_clock_law e1) as Hc. rewrite Hnow in Hc.
    apply Hset; [done|]. cbn [id]. rewrite u64_small in Hp by done. set (te := MkTimer _ _ _ _) in Hp. change (timer_next_id ctx) with (id te).
    eapply tab_add_own; [apply H|done|done|done|done|done|done|done|done|done|]. cbn.
    destruct (Z.ltb_spec (UINT64_MAX - now) (idle_ms (pool y))); [lia|]. rewrite u64_small; lia.
Qed.

Lemma populate_spec ctx y i e sp h q c : okay None (Some 0) ctx y -> lst y !! i = Some e -> occupied e = false ->
  kl_handle_valid (conn_fd c) = true -> q_host q = Some h -> sound_query q -> proper q ->
  (strict = true -> tally (filed_under (query_key sp h q)) (lst y) < max_per_host (pool y)) ->
  wp (populate i sp h q c) (fun _ ctx' y' => okay None (Some 0) ctx' y' /\ stays y y') ctx y.
Proof.
  intros H Hi Ho Hc Hh [Q1 Q2] Hp Hroom. apply wp_bind, wp_look, wp_act. unfold wp at 1. cbn [run_callback mret cbprog_ret].
  pose proof (env_clock_law (env y)) as Hclk. set (now := (env_clock (env y)).1) in *. set (y1 := set_env (env_clock (env y)).2 y).
  set (f := fill sp h q c now). apply wp_act. unfold emit at 1. rewrite (put_state i e) by done. set (y2 := put _ _ _ _ _).
  assert (H2 : okay None (Some 1) ctx y2).
  { apply (okay_put None (Some 0) None (Some 1) ctx ctx y1 i e); auto; [by apply set_env_okay|apply H|..].
    - intros _. split; cbn; [lia|auto|]. destruct (q_proxy_host q); cbn; [auto|constructor].
    - intros m [= <-]. exists 0. split; [done|]. unfold occupied, f. cbn. rewrite Hc. unfold occupied in Ho. rewrite Ho. lia.
    - apply (tab_insert _ _ _ _ _ _ None); [apply H|by eapply lookup_lt_Some|done|cbn; lia|]. intros te e0 _ He0 Ho0. change (lst y !! i = Some e0) in He0. congruence.
    - eapply books_fill; [apply H|done|done|done].
    - eapply limited_fill; [apply H|done|done|done|]. intros Hs. cbn. specialize (Hp Hs). destruct (q_proxy_host q) as [[|]|]; cbn; done. }
  apply wp_look, wp_bind. assert (Hst : stays y y2) by (by split).
  assert (Hend : forall ctx' y', okay None (Some 1) ctx' y' /\ stays y2 y' ->
    wp (act (on_pool (add_active 1))) (fun _ ctx' y' => okay None (Some 0) ctx' y' /\ stays y y') ctx' y').
  { intros ctx' y' [H' Hst']. split; [by apply okay_count|]. eapply stays_trans; [exact Hst|]. destruct Hst'. by split. }
  destruct (ev_ctx (pool y2)) eqn:Ee; [|apply Hend; by split].
  eapply wp_mono; [eapply (pool_arm_spec _ _ i f); [done|by eapply put_lookup|done|done|by rewrite Ee|done|cbn; lia]|]. intros [] ctx' y' Hx. by apply Hend.
Qed.

Lemma pool_release_spec ctx y sp c q : okay None (Some 0) ctx y -> sound_query q -> proper q ->
  wp (pool_release sp c q) (fun _ ctx' y' => okay None (Some 0) ctx' y') ctx y.
Proof.
  intros H Hq Hp. unfold pool_release. destruct (q_host q) as [h|] eqn:Hh; [|done].
  destruct (kl_handle_valid (conn_fd c)) eqn:Hc; cbn [negb]; [|done].
  assert (Hdrop : forall ctx y, okay None (Some 0) ctx y ->
    wp (c ← kl_http_client_pool_discard_sp sp c; mret (-1, c)) (fun _ ctx' y' => okay None (Some 0) ctx' y') ctx y).
  { intros ctx1 y1 H1. apply wp_bind. eapply wp_mono; [by apply discard_spec|]. by intros ? ? ? [? _]. }
  do 2 (case_if; [apply wp_act, Hdrop; apply (okay_outside _ _ _ y); auto; by split|]).
  apply wp_bind. eapply wp_mono; [by apply enforce_spec|]. cbn beta. intros _ ctx1 y1 (H1 & Hst1 & Hroom).
  apply wp_bind. eapply wp_mono; [by apply find_slot_spec|]. cbn beta. intros [i|] ctx2 y2 (H2 & Hst2 & Hle & Hs); [|by apply Hdrop].
  destruct Hs as (e & Hi & Ho). apply wp_bind. eapply wp_mono; [apply (populate_spec _ _ i e); eauto|by intros ? ? ? [Hx _]].
  intros Hs. specialize (Hroom Hs). specialize (Hle (query_key sp h q)). rewrite (st_max _ _ Hst2). lia.
Qed.

Lemma slots_in ctx y : okay None (Some 0) ctx y -> Forall (fun i => i < length (lst y))%nat (slots_of (pool y)).
Proof. intros H. apply Forall_forall. intros i Hi. apply elem_of_seq in Hi. rewrite (ok_cap _ _ _ _ H). lia. Qed.

Lemma pool_acquire_spec ctx y sp q : okay None (Some 0) ctx y -> sound_query q ->
  wp (pool_acquire sp q) (fun _ ctx' y' => okay None (Some 0) ctx' y') ctx y.
Proof.
  intros H Hq. unfold pool_acquire. destruct (q_host q) as [h|] eqn:Hh; [|done]. apply wp_look.
  eapply wp_mono; [apply pool_acquire_loop_spec; auto; by eapply slots_in|]. by intros ? ? ? [? _].
Qed.

(** No connection that has been idle for [limit] is left. *)
Lemma expire_loop_spec ix now limit : forall n ctx y, okay None (Some 0) ctx y -> Forall (fun i => i < length (lst y))%nat ix ->
  wp (expire_loop ix now limit n) (fun _ ctx' y' => okay None (Some 0) ctx' y' /\ stays y y' /\ thins (lst y) (lst y') /\
    forall i e, i ∈ ix -> lst y' !! i = Some e -> occupied e = true -> now < idle_since_ms e \/ now - idle_since_ms e < limit) ctx y.
Proof.
  induction ix as [|i ix IH]; intros n ctx y H Hix.
  { split_and!; auto using stays_refl, thins_refl. intros i e Hi. by apply not_elem_of_nil in Hi. }
  apply Forall_cons in Hix as [Hlt Hix]. destruct (lookup_lt_is_Some_2 (lst y) i Hlt) as [e He]. eapply wp_entry; [done|].
  assert (Hskip : (occupied e = true -> now < idle_since_ms e \/ now - idle_since_ms e < limit) ->
    wp (expire_loop ix now limit n) (fun _ ctx' y' => okay None (Some 0) ctx' y' /\ stays y y' /\ thins (lst y) (lst y') /\
    forall j e, j ∈ i :: ix -> lst y' !! j = Some e -> occupied e = true -> now < idle_since_ms e \/ now - idle_since_ms e < limit) ctx y).
  { intros Hk. eapply wp_mono; [by apply IH|]. cbn beta. intros _ ctx' y' (H1 & H2 & H3 & H4). split_and!; auto.
    intros j ej [->|Hj]%elem_of_cons Hej Hoj; [|by eapply H4]. destruct (proj2 H3 i ej Hej) as [Hx|]; [|congruence].
    assert (ej = e) as -> by congruence. auto. }
  destruct (kl_handle_valid (fd e)) eqn:Ho; cbn [negb]; [|apply Hskip; unfold occupied; congruence].
  destruct (Z.leb_spec (idle_since_ms e) now) as [L1|L1], (Z.leb_spec limit (now - idle_since_ms e)) as [L2|L2]; cbn [andb]; try (apply Hskip; auto).
  apply wp_bind. eapply wp_mono; [by apply (evict_spec _ (Some 0) _ _ i e)|]. cbn beta. intros _ ctx1 y1 [H1 (e' & Ho' & ->)].
  eapply wp_mono; [apply IH; [done|cbn; by rewrite length_insert]|]. cbn beta. intros _ ctx2 y2 (H2 & H3 & H4 & H5). split_and!; auto.
  - by eapply stays_trans; [apply put_stays|].
  - eapply thins_trans; [|done]. by apply thins_put.
  - intros j ej [->|Hj]%elem_of_cons Hej Hoj; [|by eapply H5]. destruct (proj2 H4 i ej Hej) as [Hx|]; [|congruence].
    rewrite (put_lookup _ e) in Hx by done. congruence.
Qed.

Lemma expire_spec ctx y : okay None (Some 0) ctx y ->
  wp kl_http_client_pool_evict_expired (fun _ ctx' y' => okay None (Some 0) ctx' y' /\
    forall e, e ∈ lst y' -> occupied e = true -> let now := (env_clock (env y)).1 in
      now < idle_since_ms e \/ now - idle_since_ms e < idle_ms (pool y')) ctx y.
Proof.
  intros H. apply wp_look. destruct (entries (pool y)) eqn:El.
  - apply wp_bind, wp_look, wp_act. unfold wp at 1. cbn [run_callback mret cbprog_ret].
    eapply wp_mono; [apply expire_loop_spec; [by apply set_env_okay|exact (slots_in ctx y H)]|]. cbn beta.
    intros _ ctx' y' (H1 & H2 & H3 & H4). split; [done|]. intros e [i Hi]%list_elem_of_lookup Ho. rewrite (st_idle _ _ H2).
    apply (H4 i); auto. apply elem_of_seq. apply lookup_lt_Some in Hi. rewrite (proj1 H3) in Hi.
    change (lst (set_env _ y)) with (lst y) in Hi. rewrite (ok_cap _ _ _ _ H) in Hi. lia.
  - split; [done|]. unfold lst. rewrite El. intros e He. by apply not_elem_of_nil in He.
Qed.

(** Freeing closes what is left and leaves no timer of the pool behind. *)
Lemma free_loop_spec ix : forall ctx y, okay None None ctx y -> Forall (fun i => i < length (lst y))%nat ix ->
  wp (free_loop ix) (fun _ ctx' y' => okay None None ctx' y' /\ stays y y' /\ thins (lst y) (lst y') /\
    forall i e, i ∈ ix -> lst y' !! i = Some e -> occupied e = false) ctx y.
Proof.
  induction ix as [|i ix IH]; intros ctx y H Hix.
  { split_and!; auto using stays_refl, thins_refl. intros i e Hi. by apply not_elem_of_nil in Hi. }
  apply Forall_cons in Hix as [Hlt Hix]. destruct (lookup_lt_is_Some_2 (lst y) i Hlt) as [e He]. apply wp_bind. eapply wp_entry; [done|].
  assert (Hrest : forall ctx1 y1 e1, okay None None ctx1 y1 -> stays y y1 -> thins (lst y) (lst y1) -> lst y1 !! i = Some e1 -> occupied e1 = false ->
    wp (free_loop ix) (fun _ ctx' y' => okay None None ctx' y' /\ stays y y' /\ thins (lst y) (lst y') /\
      forall j e, j ∈ i :: ix -> lst y' !! j = Some e -> occupied e = false) ctx1 y1).
  { intros ctx1 y1 e1 H1 S1 T1 He1 Ho1. eapply wp_mono; [apply IH; [done|by rewrite (proj1 T1)]|]. cbn beta. intros _ ctx' y' (H2 & S2 & T2 & H3).
    split_and!; auto; [by eapply stays_trans|by eapply thins_trans|]. intros j ej [->|Hj]%elem_of_cons Hej; [|by eapply H3].
    destruct (proj2 T2 i ej Hej); [congruence|done]. }
  destruct (kl_handle_valid (fd e)) eqn:Ho; [|eapply Hrest; eauto using stays_refl, thins_refl].
  apply wp_bind. eapply wp_mono; [by apply (cancel_idle_spec None _ _ i e)|]. cbn beta. intros _ ctx1 y1 [-> H1].
  eapply wp_entry; [done|]. rewrite Ho. unfold wp at 1. cbn [run_callback act orb]. unfold emit. erewrite (lst_on_slot _ i e) by done.
  assert (Hput : mkSys (set_entries (Some (<[i := close_entry e]> (lst y))) (pool y)) (env y) (log y ++ [Closed (entry_link e) (entry_key e)]) =
    put i (close_entry e) 0 [Closed (entry_link e) (entry_key e)] y) by (unfold put, add_active, set_entries; cbn; by rewrite Z.add_0_r).
  cbn [pool env log]. change (lst (mkSys (pool y) _ _)) with (lst y). rewrite Hput.
  eapply (Hrest _ _ (close_entry e)); [eapply okay_free; eauto|by split|by apply thins_put|by eapply put_lookup|done].
Qed.

Lemma free_spec ctx y : okay None (Some 0) ctx y ->
  wp kl_http_client_pool_free (fun _ ctx' y' => okay None (Some 0) ctx' y' /\ entries (pool y') = None) ctx y.
Proof.
  intros H. apply wp_look. destruct (entries (pool y)) eqn:El; [|done]. apply wp_bind.
  assert (H0 : okay None None ctx y) by (destruct H; by split).
  eapply wp_mono; [by apply free_loop_spec; [|eapply slots_in]|]. cbn beta. intros _ ctx' y' (H1 & H2 & H3 & H4). split; [|done].
  assert (Hall : forall e, e ∈ lst y' -> occupied e = false).
  { intros e [i Hi]%list_elem_of_lookup. apply (H4 i); [|done]. apply elem_of_seq. apply lookup_lt_Some in Hi.
    rewrite (proj1 H3), (ok_cap _ _ _ _ H) in Hi. lia. }
  destruct H1 as [O1 O2 O10 O3 O4 O5 O6 [T1 T2 T3 T4] [B1 B2 B3] O9]. split; auto.
  - done.
  - intros n [= <-]. done.
  - intros e He. by apply not_elem_of_nil in He.
  - split; auto; [by intros i e Hi; destruct i|]. intros te Hte Hcb. destruct (T4 te Hte Hcb) as (i & e & _ & Hi & Ho & _).
    apply list_elem_of_lookup_2, Hall in Hi. congruence.
  - split; auto. intros c k. specialize (B2 c k). rewrite (tally_zero (held c k)) in B2; [exact B2|]. intros e He%Hall. unfold held, filed_under. by rewrite He.
  - intros Hs. split; [intros k; cbn; cbn in O3; lia|]. intros e He. by apply not_elem_of_nil in He.
Qed.

(** ** Calls, timers and histories *)

Definition proper_call (x : call) : Prop :=
  match x with
  | Release _ _ _ _ pr _ | ReleaseTls _ _ _ _ pr _ | ReleaseSp _ _ _ _ _ pr _ => (c_string <$> pr) <> Some []
  | _ => True
  end.

Lemma c_query h po t tk pr pp : sound_query (mkQuery (c_string <$> h) po t tk (c_string <$> pr) pp).
Proof. split; cbn; intros l Hl; [destruct h|destruct pr]; simplify_eq/=; apply c_string_ok. Qed.

Lemma call_spec x ctx y : okay None (Some 0) ctx y -> (strict = true -> proper_call x) ->
  wp (call_prog x) (fun _ ctx' y' => okay None (Some 0) ctx' y') ctx y.
Proof.
  intros H Hx. destruct x; cbn [call_prog].
  1-3: apply wp_bind; apply pool_acquire_spec; auto using c_query.
  1-3: apply wp_bind; apply pool_release_spec; auto using c_query.
  - apply wp_bind, wp_look. eapply wp_mono; [by apply discard_spec|]. by intros ? ? ? [? _].
  - apply wp_bind. eapply wp_mono; [by apply expire_spec|]. by intros ? ? ? [? _].
  - eapply wp_mono; [by apply free_spec|]. by intros ? ? ? [? _].
  - destruct (Z.eqb_spec cb0 IDLE_TIMER_CB) as [|Hcb]; [done|]. destruct (grow_env ctx y) as (e1 & Hg & _).
    destruct (kl_timer_add ctx (u64 delay) cb0 user_data0 y) as [[[rc ctx1] y1] ev] eqn:Ea. eapply wp_add; [done|].
    destruct (add_spec _ _ _ _ _ _ _ _ _ (ok_inv _ _ _ _ H) Ea) as [(_ & -> & _ & ->)|(cap & now & _ & Hclk & -> & Hn & Hi1 & _ & Hp)].
    + rewrite Hg. by apply set_env_okay.
    + rewrite Hg in Hclk. cbn in Hclk. injection Hclk as _ <-. apply set_env_okay, set_env_okay.
      apply (okay_retab None _ _ ctx); auto. eapply tab_add_other; [apply H|done|done|done|done].
  - apply wp_look. case_bool_decide as Ht; [done|]. destruct (kl_timer_cancel ctx t) as [[rc ctx1] ev] eqn:Ec. eapply wp_cancel; [done|].
    destruct (cancel_spec _ _ _ _ _ (ok_inv _ _ _ _ H) Ec) as [(_ & -> & _)|(_ & Hi1 & _ & Hn & te & Hid & Hp)]; [done|].
    apply (okay_retab None _ _ ctx); auto. eapply tab_remove_other; [apply H|done|done|]. intros Hcb. apply Ht.
    destruct (tab_owner _ _ _ _ _ (ok_tab _ _ _ _ H) te) as (i & e & _ & Hi & _ & Htid & _); [rewrite Hp; by left|done|].
    rewrite <- Hid, <- Htid. apply list_elem_of_fmap. exists e. split; [done|]. by eapply list_elem_of_lookup_2.
Qed.

Context (Hothers : strict = true -> forall c ud (e : E), Forall proper_call (others c ud e).1).

Lemma calls_spec xs : forall ctx y, okay None (Some 0) ctx y -> (strict = true -> Forall proper_call xs) ->
  wp (calls_prog xs) (fun _ ctx' y' => okay None (Some 0) ctx' y') ctx y.
Proof.
  induction xs as [|x xs IH]; intros ctx y H Hx; [done|]. apply wp_bind. eapply wp_mono; [apply call_spec; [done|]|].
  - intros Hs. by apply Forall_cons in Hx as [? _].
  - intros [] ctx' y' H'. apply IH; [done|]. intros Hs. by apply Forall_cons in Hx as [_ ?].
Qed.

Lemma pool_fire_spec n ctx y ctx' y' ev : okay None (Some 0) ctx y -> kl_timer_fire ctx y = Some (n, ctx', y', ev) -> okay None (Some 0) ctx' y'.
Proof.
  apply (fire_rule (okay None (Some 0))); clear ctx y ctx' y' ev n.
  - intros ctx y H. by apply set_env_okay.
  - intros top l ctx y H Ht. pose proof (ok_inv _ _ _ _ H) as Hinv. pose proof (inv_heap _ Hinv) as Hh. rewrite Ht in Hh.
    destruct (pop_top_spec top l Hh) as [Hh1 Hp].
    assert (Hpop : inv (popped ctx)) by (unfold popped; rewrite Ht; apply (inv_perm_cons ctx top); [done|by rewrite Ht|done]).
    assert (Hperm : timers ctx ≡ₚ top :: timers (popped ctx)) by (unfold popped; cbn; by rewrite Ht).
    cbn [callback pool_timer_env]. destruct (Z.eqb_spec (cb top) IDLE_TIMER_CB) as [Hcb|Hcb].
    + destruct (tab_remove_own ctx (popped ctx) (lst y) _ _ top Hinv (ok_tab _ _ _ _ H) Hperm eq_refl Hcb) as (i & e & -> & Hi & Ho & _ & Htab).
      rewrite Nat2Z.id. eapply idle_spec; eauto. by apply (okay_retab None _ _ ctx).
    + apply calls_spec; [|intros Hs; by apply Hothers]. apply set_env_okay. apply (okay_retab None _ _ ctx); auto.
      eapply tab_remove_other; [apply H|done|done|done].
Qed.

Definition proper_step (s : step) : Prop := match s with Do x => proper_call x | Fire => True end.

Lemma pool_drive_spec ss : forall ctx y, okay None (Some 0) ctx y -> (strict = true -> Forall proper_step ss) ->
  exists ctx' y', drive ss ctx y = Some (ctx', y') /\ okay None (Some 0) ctx' y'.
Proof.
  induction ss as [|[x|] ss IH]; intros ctx y H Hs; cbn [drive].
  - eauto.
  - pose proof (call_spec x ctx y H) as Hc. unfold wp in Hc. destruct (run_callback (call_prog x) ctx y) as [[[? ctx1] y1] ?].
    apply IH; [apply Hc|]; intros Ht; by apply Forall_cons in Hs as [? ?].
  - destruct (fire_spec ctx y (ok_inv _ _ _ _ H)) as (ctx1 & y1 & ev & Hf & _). rewrite Hf, bind_Some_l.
    apply IH; [by eapply pool_fire_spec|]. intros Ht; by apply Forall_cons in Hs as [? ?].
Qed.

Lemma init_okay cfg alloc_ok malloc evc e0 p : kl_http_client_pool_init cfg alloc_ok malloc evc = (0, p) ->
  (forall c, cfg = Some c -> cfg_idle_ms c <= UINT64_MAX) -> okay None (Some 0) kl_timers_init (mkSys p e0 []).
Proof.
  unfold kl_http_client_pool_init. intros Hp Hcfg. destruct alloc_ok; cbn [negb] in Hp; [|done].
  assert (Hpick : forall f d, 0 < d -> 0 < pick cfg f d).
  { intros f d Hd. unfold pick. destruct cfg as [c|]; [|done]. destruct (Z.ltb_spec 0 (f c)); lia. }
  case_if; [done|]. case_if; [done|]. injection Hp as <-.
  assert (Hrep : forall n e, e ∈ replicate n free_entry -> e = free_entry) by (by intros n e [? _]%elem_of_replicate).
  split; cbn; try (by apply timers_inv_init).
  - by rewrite length_replicate.
  - assert (0 < pick cfg cfg_capacity KL_HTTP_CLIENT_POOL_DEFAULT_CAPACITY) by (by apply Hpick). lia.
  - by apply Hpick.
  - split; [assert (0 < pick cfg cfg_idle_ms KL_HTTP_CLIENT_POOL_DEFAULT_IDLE_MS) by (by apply Hpick); lia|].
    unfold pick. destruct cfg as [c|]; [|done]. specialize (Hcfg c eq_refl). case_if; [lia|done].
  - intros n [= <-]. rewrite tally_zero; [done|]. by intros e ->%Hrep.
  - by intros e ->%Hrep.
  - split; cbn; [done|by intros te ?%not_elem_of_nil| |by intros te ?%not_elem_of_nil].
    intros i e Hi Ho. by rewrite (Hrep _ e) in Ho by (by eapply list_elem_of_lookup_2).
  - split; cbn; [apply not_elem_of_nil| |by intros ? ? ? ? ? ? ?%not_elem_of_nil]. intros c k. rewrite tally_zero; [done|]. by intros e ->%Hrep.
  - intros _. split; [|by intros e ->%Hrep]. intros k. rewrite tally_zero; [|by intros e ->%Hrep].
    assert (0 < pick cfg cfg_max_per_host KL_HTTP_CLIENT_POOL_DEFAULT_MAX_PER_HOST) by (by apply Hpick). lia.
Qed.

End proofs.

(** ** Theorems *)

Section theorems.
  Context {E : Type} `{PE : PoolEnv E} `{L : !PoolEnvLaws E}.

Lemma pending_intro ctx te : inv ctx -> te ∈ timers ctx -> pending ctx !! id te = Some te.
Proof. intros Hi Ht. by apply by_id_lookup; [apply Hi|]. Qed.

Lemma drive_okay strict cfg alloc_ok malloc evc p (e0 : E) ss :
  kl_http_client_pool_init cfg alloc_ok malloc evc = (0, p) -> (forall c, cfg = Some c -> cfg_idle_ms c <= UINT64_MAX) ->
  (strict = true -> forall c ud (e : E), Forall proper_call (others c ud e).1) -> (strict = true -> Forall proper_step ss) ->
  exists ctx y, drive ss kl_timers_init (mkSys p e0 []) = Some (ctx, y) /\ okay strict None (Some 0) ctx y.
Proof. intros Hp Hc Ho Hs. apply pool_drive_spec; auto. by eapply init_okay. Qed.

(** C8.  The pool never shares, loses or misdirects a connection.  Whatever the application and the
    callbacks of its timers do, and whatever the peers, the allocator and the clock do, every
    connection filed in the pool is in one slot, or was handed out once, or was closed once; nothing
    is accessed outside the table, not by an idle timer either; and a connection is handed out only
    to a request for the same host, port, TLS identity, proxy and socket provider it was filed
    under, when peeking at it said would-block: not after the peer closed it or sent something. *)
Theorem pool_connections_accounted (cfg : option KlHttpClientPoolConfig) (alloc_ok : bool) (malloc : Z -> bool) (evc : option Z)
    (p : KlHttpClientPool) (e0 : E) (ss : list step)
    (Hinit : kl_http_client_pool_init cfg alloc_ok malloc evc = (0, p))
    (Hidle : forall c, cfg = Some c -> cfg_idle_ms c <= UINT64_MAX) :
  exists ctx y, drive ss kl_timers_init (mkSys p e0 []) = Some (ctx, y) /\ (Fault ∉ log y) /\
    (forall c k, tally (is_filed c k) (log y) =
       tally (held c k) (default [] (entries (pool y))) + tally (is_reused c k) (log y) + tally (is_closed c k) (log y)) /\
    (forall sp c k q n would_block, Reused sp c k q n would_block ∈ log y ->
       serves k q /\ k_sockets k = sp /\ n < 0 /\ would_block = true).
Proof.
  destruct (drive_okay false cfg alloc_ok malloc evc p e0 ss Hinit Hidle) as (ctx & y & Hd & H); try done.
  destruct (ok_books _ _ _ _ _ H) as [B1 B2 B3]. exists ctx, y. split_and!; auto.
Qed.

(** C12.  Idle timers and occupied slots belong together.  After any history, each occupied slot that
    has a timer has it pending, set for this slot and not due before the connection has been idle
    for [idle_ms]; each pending timer of the pool is that of an occupied slot, so none outlives its
    connection or the table, and none closes a connection it was not set for.  The next turn of the
    timers returns and leaves no connection whose timer was due when it began. *)
Theorem pool_timers_exact (cfg : option KlHttpClientPoolConfig) (alloc_ok : bool) (malloc : Z -> bool) (evc : option Z)
    (p : KlHttpClientPool) (e0 : E) (ss : list step)
    (Hinit : kl_http_client_pool_init cfg alloc_ok malloc evc = (0, p))
    (Hidle : forall c, cfg = Some c -> cfg_idle_ms c <= UINT64_MAX) :
  exists ctx y, drive ss kl_timers_init (mkSys p e0 []) = Some (ctx, y) /\
    (forall i e, slot y i = Some e -> occupied e = true -> 0 <= timer_id e ->
       exists te, pending ctx !! timer_id e = Some te /\ cb te = IDLE_TIMER_CB /\ user_data te = Z.of_nat i /\
         Z.min UINT64_MAX (idle_since_ms e + idle_ms (pool y)) <= deadline_ms te) /\
    (forall te, te ∈ timers ctx -> cb te = IDLE_TIMER_CB ->
       exists i e, user_data te = Z.of_nat i /\ slot y i = Some e /\ occupied e = true /\ timer_id e = id te) /\
    exists n ctx' y' ev, kl_timer_fire ctx y = Some (n, ctx', y', ev) /\
      forall i e, slot y' i = Some e -> occupied e = true -> 0 <= timer_id e ->
        timer_next_id ctx <= timer_id e \/ exists te, pending ctx' !! timer_id e = Some te /\ (env_clock (env y)).1 < deadline_ms te.
Proof.
  destruct (drive_okay false cfg alloc_ok malloc evc p e0 ss Hinit Hidle) as (ctx & y & Hd & H); try done.
  exists ctx, y. pose proof (ok_inv _ _ _ _ _ H) as Hi. destruct (ok_tab _ _ _ _ _ H) as [T1 T2 T3 T4]. split_and!; auto.
  - intros i e. rewrite slot_lst. intros Hs Ho Ht. destruct (T3 i e Hs Ho Ht) as (_ & te & Hte & <- & ? & ? & ?); [done|].
    exists te. split_and!; auto. by apply pending_intro.
  - intros te Hte Hcb. destruct (T4 te Hte Hcb) as (i & e & ? & ? & ? & ? & _). exists i, e. by rewrite slot_lst.
  - destruct (fire_spec ctx y Hi) as (ctx' & y' & ev & Hf & Hpost). eexists _, ctx', y', ev. split; [done|].
    assert (H' : okay false None (Some 0) ctx' y') by (by eapply (pool_fire_spec false)). intros i e. rewrite slot_lst. intros Hs Ho Ht.
    destruct (tab_timed _ _ _ _ _ (ok_tab _ _ _ _ _ H') i e Hs Ho Ht) as (_ & te & Hte & Hid & _); [done|].
    destruct (decide (timer_next_id ctx <= timer_id e)) as [|Hlt]; [by left|]. right. exists te. rewrite <- Hid.
    split; [apply pending_intro; [apply Hpost|done]|]. by apply (post_left _ _ _ _ _ _ Hpost te Hte); lia.
Qed.

(** C29.  The pool keeps its bounds: after any history [active] is the number of idle connections, at
    most [capacity] of them, and no more than [max_per_host] for one host key and provider, when no
    connection is filed under a proxy whose name is empty. *)
Theorem pool_bounds (cfg : option KlHttpClientPoolConfig) (alloc_ok : bool) (malloc : Z -> bool) (evc : option Z)
    (p : KlHttpClientPool) (e0 : E) (ss : list step)
    (Hinit : kl_http_client_pool_init cfg alloc_ok malloc evc = (0, p))
    (Hidle : forall c, cfg = Some c -> cfg_idle_ms c <= UINT64_MAX)
    (Hothers : forall c ud (e : E), Forall proper_call ((others c ud e).1)) (Hsteps : Forall proper_step ss) :
  exists ctx y, drive ss kl_timers_init (mkSys p e0 []) = Some (ctx, y) /\
    kl_http_client_pool_idle_count (pool y) = tally occupied (default [] (entries (pool y))) /\
    0 <= kl_http_client_pool_idle_count (pool y) <= capacity (pool y) /\
    forall k, tally (filed_under k) (default [] (entries (pool y))) <= max_per_host (pool y).
Proof.
  destruct (drive_okay true cfg alloc_ok malloc evc p e0 ss Hinit Hidle) as (ctx & y & Hd & H); try done.
  exists ctx, y. pose proof (ok_active _ _ _ _ _ H 0 eq_refl) as Ha. pose proof (ok_cap _ _ _ _ _ H) as Hc.
  pose proof (ok_room _ _ _ _ _ H). pose proof (tally_nonneg occupied (lst y)). pose proof (tally_le_length occupied (lst y)). rewrite Hc in *.
  unfold kl_http_client_pool_idle_count, lst in *. split_and!; auto; [lia|lia|lia|]. apply (ok_limited _ _ _ _ _ H eq_refl).
Qed.

End theorems.

(** ** A history *)

(** A clock that ticks at every reading, a peer of descriptor 9 that has closed its end, and timers
    whose callbacks ask for a connection and set a timer. *)
Definition now_of (w : Z) : Z := Z.max 0 (Z.min w (UINT64_MAX - 1)).

#[local] Instance sample_env : PoolEnv Z := {
  env_clock w := (now_of w, w + 4);
  env_realloc w _ := (true, w);
  peek w _ h := (-1, negb (h =? 9), w);
  others _ _ w := ([Acquire (Some (bytes "b.example")) 80 0 None 0; TimerAdd 50 1 0], w + 1)
}.

#[local] Instance sample_laws : PoolEnvLaws Z.
Proof. refine {| env_time := now_of |}; intros; cbn; unfold now_of; lia. Qed.

Definition sample_config : KlHttpClientPoolConfig := mkConfig 2 1 20.
Definition sample_pool : KlHttpClientPool := (kl_http_client_pool_init (Some sample_config) true (fun _ => true) (Some 0)).2.

(** Two connections are filed; the second is found closed; the first is reused, filed again, pushed
    out by another one for its host, which goes when its timer fires. *)
Definition sample_steps : list step :=
  let a := Some (bytes "a.example") in let b := Some (bytes "b.example") in
  [Do (Release (mkConn 5 0 false) a 443 1 None 0); Do (Release (mkConn 9 0 false) b 80 0 None 0); Do (Acquire a 80 1 None 0);
   Do (Acquire a 443 1 None 0); Do (TimerAdd 3 1 0); Do (Release (mkConn 5 0 true) a 443 1 None 0); Do (Release (mkConn 6 0 false) a 443 1 None 0);
   Fire; Do (TimerAdd 30 1 0); Fire; Fire].

Lemma sample_config_ok c : Some sample_config = Some c -> cfg_idle_ms c <= UINT64_MAX.
Proof. by intros [= <-]. Qed.

Definition kind_of (x : event) : Z * Z :=
  match x with
  | Filed c _ => (1, c.1.1) | Reused _ c _ _ _ _ => (2, c.1.1) | Closed c _ => (3, c.1.1) | Dropped c => (4, c.1.1) | Fault => (5, 0)
  end.

Lemma sample_init : kl_http_client_pool_init (Some sample_config) true (fun _ => true) (Some 0) = (0, sample_pool).
Proof. by vm_compute. Qed.

Lemma sample_run :
  (fun r => (kind_of <$> log r.2, active (pool r.2), length (timers r.1))) <$> drive sample_steps kl_timers_init (mkSys sample_pool 1000 []) =
  Some ([(1, 5); (1, 9); (2, 5); (1, 5); (3, 5); (1, 6); (3, 9); (3, 6)], 0, 2%nat).
Proof. by vm_compute. Qed.

Lemma sample_others_proper c ud (e : Z) : Forall proper_call ((others c ud e).1).
Proof. by repeat constructor. Qed.

Lemma sample_steps_proper : Forall proper_step sample_steps.
Proof. by repeat constructor. Qed.

Lemma pool_connections_accounted_witness :
  exists ctx y, drive sample_steps kl_timers_init (mkSys sample_pool 1000 []) = Some (ctx, y) /\
    (kind_of <$> log y) = [(1, 5); (1, 9); (2, 5); (1, 5); (3, 5); (1, 6); (3, 9); (3, 6)] /\ (Fault ∉ log y) /\
    forall sp c k q n would_block, Reused sp c k q n would_block ∈ log y -> serves k q.
Proof.
  destruct (pool_connections_accounted (Some sample_config) true (fun _ => true) (Some 0) sample_pool 1000 sample_steps sample_init sample_config_ok)
    as (ctx & y & Hd & Hf & _ & Hh).
  exists ctx, y. pose proof sample_run as Hr. rewrite Hd in Hr. injection Hr as Hr _ _. split_and!; auto.
  intros sp c k q n wb Hin. by destruct (Hh sp c k q n wb Hin).
Defined.

(** Up to the last filing, with the timer of descriptor 6 pending. *)
Lemma pool_timers_exact_witness :
  exists ctx y, drive (take 7 sample_steps) kl_timers_init (mkSys sample_pool 1000 []) = Some (ctx, y) /\
    active (pool y) = 2 /\
    forall te, te ∈ timers ctx -> cb te = IDLE_TIMER_CB -> exists i e, user_data te = Z.of_nat i /\ slot y i = Some e /\ timer_id e = id te.
Proof.
  destruct (pool_timers_exact (Some sample_config) true (fun _ => true) (Some 0) sample_pool 1000 (take 7 sample_steps) sample_init sample_config_ok)
    as (ctx & y & Hd & _ & Ho & _).
  exists ctx, y. split; [done|]. split.
  - assert (Hr : (fun r => active (pool r.2)) <$> drive (take 7 sample_steps) kl_timers_init (mkSys sample_pool 1000 []) = Some 2) by (by vm_compute).
    rewrite Hd in Hr. by injection Hr.
  - intros te Hte Hcb. destruct (Ho te Hte Hcb) as (i & e & Hu & Hs & _ & Hid). exists i, e. exact (conj Hu (conj Hs Hid)).
Defined.

Lemma pool_bounds_witness :
  exists ctx y, drive sample_steps kl_timers_init (mkSys sample_pool 1000 []) = Some (ctx, y) /\
    kl_http_client_pool_idle_count (pool y) = 0 /\ forall k, tally (filed_under k) (default [] (entries (pool y))) <= max_per_host (pool y).
Proof.
  destruct (pool_bounds (Some sample_config) true (fun _ => true) (Some 0) sample_pool 1000 sample_steps sample_init sample_config_ok
    sample_others_proper sample_steps_proper) as (ctx & y & Hd & _ & _ & Hk).
  exists ctx, y. pose proof sample_run as Hr. rewrite Hd in Hr. injection Hr as _ Hr _. split_and!; auto.
Defined.

End ClientPool.
